(* ===== verification/_CoqProject ===== *)
-Q . S2P
Prelude.v
GoStd.v
Base64.v
Json.v
Unmarshal.v
Paxos.v
Voting.v
PaxosSafety.v
PaxosProgress.v
Ledger.v
Game.v
Records.v
Codec.v
Commands.v
Compute.v
State.v
Changes.v
TournamentInv.v
PlayInv.v
LedgerInv.v
Machine.v
Reach.v
Guarantees.v
Blind.v
EventIndex.v
Store.v
Replog.v
LogWire.v
Wal.v
LogSpec.v
LogInv.v
NodeSteps.v
Handlers.v
Inline.v
Stable.v
Reads.v
Pending.v
Drive.v
Cluster.v
Runs.v
LogSafety.v
ReadSafety.v
Replica.v
ReplicaSafety.v
Linear.v
Runner.v
RunnerInv.v
RunnerState.v
RunnerSafety.v
RunnerDemo.v
Gate.v
Session.v
Limit.v
Wire.v
Views.v
ViewSafety.v
RoundViews.v
Programs.v
Serving.v
Server.v
Routes.v
Intents.v
InFlight.v
Answers.v
Polls.v
Api.v
ApiSafety.v
Forwarding.v
OperatorKeys.v
Feed.v
