(* ===== verification/Prelude.v ===== *)
(** * Paxos Arena: a verification development

    Paxos Arena is a tournament service for a card game, replicated by
    Multi-Paxos.  Every replica runs a log node that agrees with the others on
    one sequence of commands, and a state machine that applies them:
    tournaments, rounds of the game, standings, payouts and a double-entry
    ledger.  Clients reach a replica through HTTP; session tokens say who they
    are.  This library models that program from the bottom (bytes, JSON, SHA-256,
    base64) to the composition of several replicas over a lossy network, by
    shallow embedding: a Go function is a Rocq function of the same name on
    the state it reads and writes, a run-time panic is [None], an [error] is its
    text, and every fixed-width integer is a [Z] whose arithmetic wraps where
    the code's does.  All definitions compute; the sample runs at the end of
    the files evaluate them.

    ** The parts, from the bottom

    Language and library.  [Prelude] (this file): machine integers, errors,
    assignment to record fields, sorting, tactics, list lemmas.  [GoStd]: byte
    strings, hexadecimal, [fmt], the output of [encoding/json], SHA-256 and
    HMAC.  [Base64]: [encoding/base64].  [Json]: the scanner of [encoding/json]
    and [jsonx.DecodeStrict] (internal/jsonx).  [Unmarshal]: decoding JSON
    into Go types, as codecs with laws (class [Lawful]) and combinators for
    integers, strings, slices, pointers and structs.

    Single-decree Paxos (internal/paxos).  [Paxos]: ballots, the four rules, the
    acceptor and the proposer.  [Voting]: consensus by voting, abstractly.
    [PaxosSafety]: agreement over a network that loses, duplicates and reorders
    messages, with crashes.  [PaxosProgress]: from every reachable state a
    value can still be decided.

    Ledger and game (internal/ledger, internal/game).  [Ledger]: the book,
    posting, balances, the self-check.  [Game]: deck, seeded shuffle, boards,
    moves, scores, replay.

    Tournament state machine (internal/tournament).  [Records]: the data of
    tournament.go and play.go.  [Codec] and [Commands]: codec.go, encoding,
    fingerprints, validation and decoding of commands.  [Compute]: compute.go,
    standings, pool, payouts.  [State]: state.go and play_state.go, every
    command, [Apply] with its results table and hash chain.  [Changes]: the
    abstract specification, thirteen guarded changes, which every command
    refines.  [TournamentInv], [PlayInv], [LedgerInv]: the invariants of
    records, rounds and money, kept by every change.  [Machine] and [Reach]:
    each command ends without a panic and refines the changes; what later
    states preserve.  [Guarantees]: what follows for every reachable state.
    [Blind]: ballots never influence results or hashes.

    Replicated log (internal/replog).  [Store]: durable state and the [Store]
    interface, a class with laws that allow failing writes.  [Replog]:
    message.go, config.go and node.go, every handler, timer and driving method
    of [Node].  [LogWire]: codec.go, the messages on the wire.  [Wal]:
    wal/wal.go, the append-only file that implements [Store].  [LogSpec]:
    abstract Multi-Paxos, a step relation without clocks and queues; [LogInv]:
    its invariant and agreement.  [NodeSteps], [Handlers], [Inline], [Drive]:
    every handler, message of a node to itself, timer and call returns and is a
    sequence of abstract steps.  [Cluster]: nodes that crash and restart on their stores, over the
    network; it refines [LogSpec].  [Runs]: executable schedules.  [LogSafety]:
    the theorems about clusters.

    Replica (internal/replica).  [Replica]: core.go, log node and state machine
    together.  [ReplicaSafety]: clusters of replicas agree.
    [Linear]: consistent reads at the level of the core.

    The event loop (internal/replica/runner.go).  [Runner]: the state of the
    loop, one round of its select as [step], and what it sends, answers and
    returns, as a list of outputs; the channels are inputs and outputs.
    [RunnerInv]: where every request is counted.  [RunnerState]: what holds
    between two rounds.  [RunnerSafety]: the loop on one host of a running
    service.  [RunnerDemo]: a run of it, with the theorems applied to it.
    [Gate]: the lock between the loop and the readers of the state, its mark
    and its wake channel, and WaitApplied, as threads of a step relation.

    Edges.  [Session] (internal/session): keyrings, tokens, device verifiers.
    [Feed] (internal/debugfeed): the debug feed, its ring buffer and handler.

    Player API (internal/intent).  [Limit] (limit.go): the rate limits.  [Wire]
    (wire.go): the bodies and their JSON.  [Views] (views.go): rounds,
    summaries, leaderboards and events as the API shows them; [ViewSafety] and
    [RoundViews]: what they promise of reachable states.  [Server] (intent.go,
    server.go): the configuration, the checks, submitting a command.  A handler
    is a program ([Programs]): a tree of the calls it makes of what it shares
    with the rest, so that a statement about all its runs covers every
    interleaving and every failure; [Programs] has their weakest precondition
    and [Serving] their interleaving over the keys in flight.  [Routes]
    (post.go, reads.go): the handlers.  [Intents]: what the handlers submit and
    answer.  [InFlight]: the keys of requests side by side.
    [Answers]: the answers to commands, over the state machine.  [EventIndex]:
    the event feed's indexes (play_state.go).  [Polls]: the reads of the events
    route, and its waiting requests with their shared scan.

    Operators' API (internal/api/server.go).  [Api]: the handlers, the
    forwarding of a request to the leader, the bodies and their JSON.
    [ApiSafety]: the sequences of calls a request makes, with its answer.
    [Forwarding]: a request in the cluster.  [OperatorKeys]: requests side by
    side.

    ** What is proved

    Consensus: at most one value is chosen per instance and slot
    ([paxos_agreement], [log_agreement]) and it was proposed ([log_validity]);
    the node's code refines abstract Multi-Paxos ([log_refines_protocol]);
    promises and accepted values on disk are never lost ([log_durable]); every
    call returns, without a panic or an endless loop of messages to itself, in
    a cluster of one node too, which decides its proposals in such messages
    ([log_calls_return]); a value can still be decided as long
    as 64-bit rounds have not run out ([paxos_progress]).

    Replication: two replicas that applied as many slots are in the same state
    with the same hash ([replicas_agree]), a state only submitted commands can
    produce ([replica_state_reachable]), and they catch up
    ([apply_committed_catches_up]).  This rests on [apply_ballot_blind]: two
    replicas may know a slot under different ballots.

    State machine: [Apply] is total ([apply_total]), executes an idempotency
    key once ([apply_exactly_once]), leaves exactly a named state after a
    rejection ([apply_rejected_unchanged]), takes nothing back
    ([final_stays_final]) and refines the abstract changes
    ([apply_refines_changes]).  Records are well formed, rounds replay to their
    scores, payouts add up to the fees, the ledger holds exactly the money the
    records call for, and prizes are claimed once.

    Bytes: commands and messages survive their encoding
    ([commands_survive_log], [messages_survive_wire]); the log file survives a
    crash in the middle of a write and refuses damage ([wal_recovers],
    [wal_damage_refused]); tokens and keyrings round-trip and nothing else is
    accepted ([session_round_trip], [session_accepts_only_signed]).

    Reads: behind a read-index barrier ([Stable], [Reads], [Pending],
    [ReadSafety]) a replica has gone through every state any replica was in when
    the barrier began ([reads_see_completed]); so a consistent Read of the
    event loop is linearizable ([runner_reads_linearizable]).

    The event loop: every request is answered once or held once
    ([runner_answers_once]), a Submit is told what is recorded
    ([runner_answers_recorded]), what it holds is consistent with its log and
    its state ([runner_invariant]), and every round returns
    ([runner_returns]).  These four speak of runs in which stores may fail, the
    host's too: the round in which its store fails is the loop's last, ends with
    the store's error and leaves nothing held; the counters stay below 2^63
    ([roomy]).  Reads and applies
    exclude each other ([reads_exclude_applies]) and an apply that waits for
    reads is woken by them ([apply_not_forgotten]).

    Player API: nobody plays for anybody else ([commands_authorised]); one
    command per key is submitted at a time and no key stays locked
    ([one_command_per_key]); an accepted command has one answer, whoever leads
    when it is retried ([answers_repeat]).  The rate limiter is a token bucket
    ([limiter_is_token_bucket], [limiter_bounds]); bodies survive their JSON
    ([bodies_round_trip]).  A round's view offers exactly the moves that are
    accepted ([offered_moves_accepted]), a past view is final
    ([round_view_stable]), a summary's eligibility is the join's
    ([eligible_may_join]), leaderboard pages are pieces of one sorted list
    ([leaderboard_pages]).  The event feed's merged indexes are a filter of the
    journal ([events_merge_indexes], [has_events_exact]); the pages of the events a
    player can see chain together by the cursors, without the shared events a
    tournament had before the player entered it ([event_pages_chain]); waiting
    requests are bounded and not told less than there is ([polls_scanned]).

    Operators' API: a request makes one of a few sequences of calls and its
    answer is theirs ([operator_conduct]); it is forwarded at most once, and an
    operator is told of a success only when there is one
    ([operator_answers_true]); one command per key at a time
    ([one_operator_command_per_key]).
    ** Bounds and fuel

    Recursion that is not structural runs on fuel that is shown to suffice: the
    JSON scanner on twice the length of the text ([value_fuel]), the deal of a
    shuffle on [deal_fuel] blocks (a hypothesis of [command_ok]: rejection
    sampling has no bound in the code either), messages of a log node to
    itself on four rounds, for they nest no deeper ([self_handle_ok] in
    Inline.v), applying
    committed slots on the distance to the commit index.  Theorems about
    clusters assume counters below 2^63 or 2^64 where the code would wrap.
    Clusters have any number of members, one included, with distinct
    identifiers, and every member runs with the same list of them
    ([group_config]): the code checks its own list only.

    ** Parameters

    The Unicode table behind [strconv.IsPrint] (class [Unicode]), random
    sources, clocks, the outcomes of system calls, and the network.

    ** Not modelled
    The transports (internal/transport), the simulator (internal/sim) and the
    commands (cmd): sockets, flags and test drivers around the parts above.  Of
    internal/api: the mux (the route is an input of a handler), the connection
    pool of the forwarding client and the log lines; its timeouts are failures
    of the calls.  Of internal/intent: the loop of handleEvents
    around [read_events] and the table of [Polls] (its waits end with contexts
    and timers), clientAddr (the client's address is an input of a request), and
    the texts of New's errors.  Of internal/replica/runner.go: the selects in
    which Submit and Read wait for their replies, which are the requests and
    outputs of [Runner].
*)

From Stdlib Require Export ZArith Lia Bool.
From stdpp Require Export base tactics option list gmap strings pretty sorting.

#[global] Open Scope string_scope.
#[global] Open Scope list_scope.
#[global] Open Scope Z_scope.

(** * Machine integers

    Go's fixed-width integers are [Z] values; every arithmetic operation of the
    source that can leave the width is followed by the wrap-around below.
    [int] is 64 bits wide (the platforms the program builds for). *)

Definition u8 (z : Z) : Z := z mod 2 ^ 8.
Definition u32 (z : Z) : Z := z mod 2 ^ 32.
Definition u64 (z : Z) : Z := z mod 2 ^ 64.
Definition i64 (z : Z) : Z := (z + 2 ^ 63) mod 2 ^ 64 - 2 ^ 63.

Definition in_u32 (z : Z) : Prop := 0 <= z < 2 ^ 32.
Definition in_u64 (z : Z) : Prop := 0 <= z < 2 ^ 64.
Definition in_i64 (z : Z) : Prop := - 2 ^ 63 <= z < 2 ^ 63.

(** The length of a slice or string as a Go [int]. *)
Definition len {A} (l : list A) : Z := Z.of_nat (length l).
Definition slen (s : string) : Z := Z.of_nat (String.length s).

(** * Errors and panics

    A Go [error] is its message; [nil] is [None].  A run-time panic (an index
    out of range, a nil dereference, an explicit [panic]) is [None] of the
    result type, threaded with stdpp's option monad. *)

Abbreviation error := string (only parsing).

Declare Scope go_scope.
Delimit Scope go_scope with go.
#[global] Open Scope go_scope.

(** The early return of a Go function: [if b { return r }; k]. *)
Notation "'exit_if' b 'with' r ; k" := (if b then r else k)
  (at level 10, b at level 99, r at level 99, k at level 200, only parsing) : go_scope.

(** ** Assignment to a field

    [n <| p := x |>] is the record [n] with field [p] replaced by [x], as the
    assignment [n.p = x] leaves it.  A record opts in by an instance of
    [Fields] that rebuilds it from its projections. *)

Class Fields (R : Type) := rebuild_fields : R -> R.
Class Assign {R E : Type} (p : R -> E) := assign : E -> R -> R.

Ltac assignment R p :=
  let e := constr:(@rebuild_fields R _) in
  let e := eval hnf in e in
  lazymatch eval pattern p in e with
  | ?g _ => let t := eval cbv beta in (fun x r => g (fun _ => x) r) in exact t
  end.

#[export] Hint Extern 1 (@Assign ?R _ ?p) => assignment R p : typeclass_instances.

Notation "n <| p := x |>" := (assign (p := p) x n)
  (at level 12, left associativity, p at level 99, format "n  <| p  :=  x |>") : go_scope.

(** * Tactics *)

(** Case analysis on the condition of the topmost [if] or [match] in the goal
    or in a hypothesis, keeping the equation. *)
Ltac case_goal :=
  match goal with
  | |- context [if ?b then _ else _] => let E := fresh "E" in destruct b eqn:E
  | |- context [match ?x with _ => _ end] => let E := fresh "E" in destruct x eqn:E
  end.

Ltac case_hyp H :=
  match type of H with
  | context [if ?b then _ else _] => let E := fresh "E" in destruct b eqn:E
  | context [match ?x with _ => _ end] => let E := fresh "E" in destruct x eqn:E
  end.

(** Turn boolean comparisons in the context into propositions. *)
Ltac b2p :=
  repeat match goal with
  | H : andb _ _ = true |- _ => apply andb_true_iff in H as [? ?]
  | H : andb _ _ = false |- _ => apply andb_false_iff in H
  | H : orb _ _ = true |- _ => apply orb_true_iff in H
  | H : orb _ _ = false |- _ => apply orb_false_iff in H as [? ?]
  | H : negb _ = true |- _ => apply negb_true_iff in H
  | H : negb _ = false |- _ => apply negb_false_iff in H
  | H : (_ <? _) = true |- _ => apply Z.ltb_lt in H
  | H : (_ <? _) = false |- _ => apply Z.ltb_ge in H
  | H : (_ <=? _) = true |- _ => apply Z.leb_le in H
  | H : (_ <=? _) = false |- _ => apply Z.leb_gt in H
  | H : (_ =? _) = true |- _ => apply Z.eqb_eq in H
  | H : (_ =? _) = false |- _ => apply Z.eqb_neq in H
  | H : bool_decide _ = true |- _ => apply bool_decide_eq_true in H
  | H : bool_decide _ = false |- _ => apply bool_decide_eq_false in H
  end.

(** * Machine integer lemmas *)

Lemma i64_id z : in_i64 z -> i64 z = z.
Proof. unfold in_i64, i64. intros. rewrite Z.mod_small; lia. Qed.

Lemma u64_id z : in_u64 z -> u64 z = z.
Proof. unfold in_u64, u64. intros. by rewrite Z.mod_small. Qed.

Lemma u32_id z : in_u32 z -> u32 z = z.
Proof. unfold in_u32, u32. intros. by rewrite Z.mod_small. Qed.

Lemma i64_range z : in_i64 (i64 z).
Proof. unfold in_i64, i64. pose proof (Z.mod_pos_bound (z + 2^63) (2^64)). lia. Qed.

Lemma u64_range z : in_u64 (u64 z).
Proof. unfold in_u64, u64. apply Z.mod_pos_bound. lia. Qed.

Lemma u32_range z : in_u32 (u32 z).
Proof. unfold in_u32, u32. apply Z.mod_pos_bound. lia. Qed.

(** Two integers that wrap to the same [int64] differ by a multiple of 2^64. *)
Lemma i64_eq_mod a b : a mod 2 ^ 64 = b mod 2 ^ 64 -> i64 a = i64 b.
Proof.
  intros H. unfold i64. f_equal.
  rewrite (Z.add_mod a), (Z.add_mod b) by lia. by rewrite H.
Qed.

Lemma i64_mod a : i64 a mod 2 ^ 64 = a mod 2 ^ 64.
Proof.
  unfold i64. rewrite Zminus_mod_idemp_l. f_equal. lia.
Qed.

Lemma i64_add_l a b : i64 (i64 a + b) = i64 (a + b).
Proof. apply i64_eq_mod. rewrite <- Zplus_mod_idemp_l, i64_mod. by rewrite Zplus_mod_idemp_l. Qed.

Lemma i64_add_r a b : i64 (a + i64 b) = i64 (a + b).
Proof. rewrite Z.add_comm, i64_add_l. f_equal. lia. Qed.

Lemma i64_sub_l a b : i64 (i64 a - b) = i64 (a - b).
Proof. apply (i64_add_l a (- b)). Qed.

Lemma i64_i64 a : i64 (i64 a) = i64 a.
Proof. apply i64_id, i64_range. Qed.

(** * Sums *)

Definition zsum (l : list Z) : Z := foldr Z.add 0 l.

Lemma zsum_app l k : zsum (l ++ k) = zsum l + zsum k.
Proof. induction l; simpl; lia. Qed.

Lemma zsum_nonneg l : Forall (fun z => 0 <= z) l -> 0 <= zsum l.
Proof. induction 1; simpl; lia. Qed.

Lemma zsum_perm l k : l ≡ₚ k -> zsum l = zsum k.
Proof. induction 1; simpl; lia. Qed.

Lemma zsum_map_add {A} (f g : A -> Z) l :
  zsum (map (fun x => f x + g x) l) = zsum (map f l) + zsum (map g l).
Proof. induction l; simpl; lia. Qed.

Lemma zsum_map_const {A} (c : Z) (l : list A) :
  zsum (map (fun _ => c) l) = c * len l.
Proof. unfold len. induction l; simpl; [lia|]. rewrite IHl. lia. Qed.

Lemma zsum_map_le {A} (f g : A -> Z) l :
  Forall (fun x => f x <= g x) l -> zsum (map f l) <= zsum (map g l).
Proof. induction 1; simpl; lia. Qed.

(** * List lemmas *)

Lemma len_app {A} (l k : list A) : len (l ++ k) = len l + len k.
Proof. unfold len. rewrite length_app. lia. Qed.

Lemma len_cons {A} (x : A) l : len (x :: l) = len l + 1.
Proof. unfold len. simpl length. lia. Qed.

Lemma len_nonneg {A} (l : list A) : 0 <= len l.
Proof. unfold len. lia. Qed.

Lemma len_zero {A} (l : list A) : len l = 0 <-> l = [].
Proof. unfold len. destruct l; simpl; split; intros; (done || lia). Qed.

Lemma elem_of_snoc {A} (x r : A) l : x ∈ l ++ [r] <-> x ∈ l \/ x = r.
Proof. by rewrite elem_of_app, list_elem_of_singleton. Qed.

(** A loop whose body may panic. *)
Fixpoint foldM {A B} (f : B -> A -> option B) (b : B) (l : list A) : option B :=
  match l with
  | [] => Some b
  | x :: l' => b' ← f b x; foldM f b' l'
  end.

Lemma foldM_app {A B} (f : B -> A -> option B) l k b : foldM f b (l ++ k) = b' ← foldM f b l; foldM f b' k.
Proof. revert b. induction l as [|x l IH]; intros b; [done|]. simpl. destruct (f b x); [apply IH|done]. Qed.

Lemma foldM_inv {A B} (P : B -> Prop) (f : B -> A -> option B) l b :
  P b -> (forall b x, x ∈ l -> P b -> exists b', f b x = Some b' /\ P b') ->
  exists b', foldM f b l = Some b' /\ P b'.
Proof.
  revert b. induction l as [|x l IH]; intros b Hb Hf; simpl; [eauto|].
  destruct (Hf b x) as (b' & -> & Hb'); [by left|done|]. simpl. apply IH; [done|].
  intros c y Hy. apply Hf. by right.
Qed.

(** A loop that keeps [P], moves along the preorder [R], and for every element
    establishes a fact [R] preserves. *)
Lemma foldM_each {A B} (P : B -> Prop) (R : B -> B -> Prop) (Q : A -> B -> Prop) (f : B -> A -> option B) l b :
  Reflexive R -> Transitive R -> (forall x b1 b2, P b1 -> R b1 b2 -> Q x b1 -> Q x b2) -> P b ->
  (forall b x, x ∈ l -> P b -> exists b', f b x = Some b' /\ P b' /\ R b b' /\ Q x b') ->
  exists b', foldM f b l = Some b' /\ P b' /\ R b b' /\ forall x, x ∈ l -> Q x b'.
Proof.
  intros Rr Rt HQ. revert b. induction l as [|x l IH]; intros b Hb Hf; simpl.
  { exists b. split_and!; [done..|]. by intros x ?%not_elem_of_nil. }
  destruct (Hf b x) as (b1 & -> & H1 & R1 & Q1); [by left|done|]. simpl.
  destruct (IH b1 H1) as (b2 & -> & H2 & R2 & Q2). { intros c y Hy. apply Hf. by right. }
  exists b2. split_and!; [done|done|by etrans|].
  intros y [->|Hy]%elem_of_cons; [exact (HQ _ _ _ H1 R2 Q1)|by apply Q2].
Qed.

(** Go's [sort.SliceStable]: insertion after every element that is not
    strictly above the new one keeps equal elements in their order. *)
Fixpoint stable_insert {A} (less : A -> A -> bool) (x : A) (l : list A) : list A :=
  match l with
  | [] => [x]
  | y :: l' => if less x y then x :: y :: l' else y :: stable_insert less x l'
  end.

Definition stable_sort {A} (less : A -> A -> bool) (l : list A) : list A :=
  foldl (fun acc x => stable_insert less x acc) [] l.
#[global] Arguments stable_sort : simpl never.

(** Replacing one element of a list exchanges it in the multiset. *)
Lemma insert_Permutation {A} (l : list A) i x y :
  l !! i = Some x -> x :: <[i := y]> l ≡ₚ y :: l.
Proof.
  revert i. induction l as [|z l IH]; intros [|i] H; simplify_eq/=.
  - apply Permutation_swap.
  - rewrite Permutation_swap, (IH i H). apply Permutation_swap.
Qed.

Lemma concat_lookup_Permutation {A} (ll : list (list A)) i l k c :
  ll !! i = Some l -> l ≡ₚ c :: k -> concat ll ≡ₚ c :: concat (<[i := k]> ll).
Proof.
  revert i. induction ll as [|l' ll IH]; intros [|i] H Hp; simplify_eq/=.
  - by rewrite Hp.
  - rewrite (IH i H Hp). by rewrite Permutation_middle.
Qed.

Lemma last_snoc_take {A} (l : list A) c : last l = Some c -> l = take (length l - 1) l ++ [c].
Proof.
  intros H. apply last_Some in H as [l' ->]. rewrite length_app. simpl.
  replace (length l' + 1 - 1)%nat with (length l') by lia. by rewrite take_app_length.
Qed.

Lemma filter_Permutation {A} (f : A -> bool) l k : l ≡ₚ k -> List.filter f l ≡ₚ List.filter f k.
Proof.
  induction 1 as [|x l k _ IH|x y l|l k m _ IH1 _ IH2]; simpl; [done| | |by etrans].
  - by destruct (f x); rewrite IH.
  - destruct (f x), (f y); try done. constructor.
Qed.

Lemma map_imap_const {A B C} (f : B -> C) (g : nat -> A -> B) (h : A -> C) l :
  (forall i x, f (g i x) = h x) -> map f (imap g l) = map h l.
Proof.
  revert g. induction l as [|x l IH]; intros g H; simpl; [done|]. rewrite H. f_equal. by apply IH; intros; apply H.
Qed.

Lemma len_concat {A} (ll : list (list A)) : len (concat ll) = zsum (map len ll).
Proof. induction ll as [|l ll IH]; [done|]. simpl. by rewrite len_app, IH. Qed.

Lemma len_Permutation {A} (l k : list A) : l ≡ₚ k -> len l = len k.
Proof. intros H. unfold len. by rewrite H. Qed.

(** * Sorting *)

Section StableSort.
Context {A : Type} (less : A -> A -> bool).

(** [b] may follow [a]. *)
Definition sort_le (a b : A) : Prop := less b a = false.

Lemma stable_insert_Permutation x l : stable_insert less x l ≡ₚ x :: l.
Proof.
  induction l as [|y l IH]; simpl; [done|]. destruct (less x y); [done|].
  rewrite IH. apply Permutation_swap.
Qed.

Lemma foldl_insert_Permutation l acc : foldl (fun acc x => stable_insert less x acc) acc l ≡ₚ acc ++ l.
Proof.
  revert acc. induction l as [|x l IH]; intros acc; simpl; [by rewrite app_nil_r|].
  by rewrite IH, stable_insert_Permutation, <- Permutation_middle.
Qed.

Lemma stable_sort_Permutation l : stable_sort less l ≡ₚ l.
Proof. apply foldl_insert_Permutation. Qed.

Lemma stable_insert_last x l : Forall (fun y => sort_le y x) l -> stable_insert less x l = l ++ [x].
Proof. induction 1 as [|y l Hy _ IH]; simpl; [done|]. unfold sort_le in Hy. by rewrite Hy, IH. Qed.

(** A list already in order is left alone. *)
Lemma stable_sort_id l : StronglySorted sort_le l -> stable_sort less l = l.
Proof.
  induction l as [|x l IH] using rev_ind; intros H; [done|].
  apply StronglySorted_app in H as (Hc & Hl & _).
  unfold stable_sort in *. rewrite foldl_app, IH by done. simpl.
  apply stable_insert_last, Forall_forall. intros y Hy. apply Hc; [done|by left].
Qed.

Context (less_asym : forall a b, less a b = true -> less b a = false).
Context (sort_le_trans : forall a b c, sort_le a b -> sort_le b c -> sort_le a c).

Lemma stable_insert_sorted x l : StronglySorted sort_le l -> StronglySorted sort_le (stable_insert less x l).
Proof.
  induction 1 as [|y l Hl IH Hy]; simpl; [repeat constructor|].
  destruct (less x y) eqn:E.
  - constructor; [by constructor|]. assert (Hxy : sort_le x y) by (by apply less_asym).
    constructor; [done|]. eapply Forall_impl; [exact Hy|]. intros z Hz. by eapply sort_le_trans.
  - constructor; [done|]. apply Forall_forall. intros z Hz.
    rewrite stable_insert_Permutation in Hz. apply elem_of_cons in Hz as [->|Hz]; [done|].
    by apply (proj1 (Forall_forall _ _) Hy).
Qed.

Lemma stable_sort_sorted l : StronglySorted sort_le (stable_sort less l).
Proof.
  induction l as [|x l IH] using rev_ind; [constructor|].
  unfold stable_sort in *. rewrite foldl_app. simpl. by apply stable_insert_sorted.
Qed.

(** Two sorted lists of the same elements are equal when ties are equal. *)
Lemma sorted_unique l k :
  (forall a b, sort_le a b -> sort_le b a -> a = b) ->
  StronglySorted sort_le l -> StronglySorted sort_le k -> l ≡ₚ k -> l = k.
Proof.
  intros Ht Hl. revert k. induction Hl as [|x l Hl IH Hx]; intros k Hk Hp.
  { by apply Permutation_nil_l in Hp. }
  destruct Hk as [|y k Hk Hy]; [by apply Permutation_nil_r in Hp|].
  assert (Hxy : x = y).
  { assert (H1 : x ∈ y :: k) by (rewrite <- Hp; by left).
    assert (H2 : y ∈ x :: l) by (rewrite Hp; by left).
    apply elem_of_cons in H1 as [?|H1]; [done|]. apply elem_of_cons in H2 as [?|H2]; [done|].
    apply Ht; [by apply (proj1 (Forall_forall _ _) Hx)|by apply (proj1 (Forall_forall _ _) Hy)]. }
  subst y. f_equal. apply IH; [done|]. by apply Permutation_cons_inv in Hp.
Qed.
End StableSort.
