(* ===== verification/GoStd.v ===== *)
(** The parts of Go's standard library the modelled code computes with:
    byte strings, big-endian integers, hexadecimal, [fmt]'s [%d], [%q] and
    [%02x], UTF-8 decoding, [encoding/json]'s output format, SHA-256 and
    HMAC-SHA256.  All of it computes, so that the development reproduces the
    byte-level values the repository's tests pin (see [Game.v]). *)

From S2P Require Import Prelude.

(** * Byte strings *)

(** A [[]byte] is the list of its bytes, each in [0, 256). *)
Abbreviation bytes := (list Z).

Fixpoint bytes_of (s : string) : bytes :=
  match s with
  | EmptyString => []
  | String c s' => Z.of_N (Ascii.N_of_ascii c) :: bytes_of s'
  end.

Fixpoint string_of (b : bytes) : string :=
  match b with
  | [] => EmptyString
  | c :: b' => String (Ascii.ascii_of_N (Z.to_N c)) (string_of b')
  end.

(** The byte of [s] at index [i] ([s[i]]), for an index in range. *)
Definition chr (c : Ascii.ascii) : Z := Z.of_N (Ascii.N_of_ascii c).

(** * Big-endian integers ([encoding/binary]) *)

Definition put_be (n : nat) (z : Z) : bytes :=
  map (fun i => (z / 256 ^ Z.of_nat (n - 1 - i)) mod 256) (seq 0 n).
Definition put_be32 (z : Z) : bytes := put_be 4 z.
Definition put_be64 (z : Z) : bytes := put_be 8 z.
Definition get_be (b : bytes) : Z := foldl (fun acc c => acc * 256 + c) 0 b.

(** * Hexadecimal ([encoding/hex]) *)

Definition hex_digit (d : Z) : Z := if d <? 10 then 48 + d else 87 + d.
Definition hex_encode (b : bytes) : bytes :=
  flat_map (fun c => [hex_digit (c / 16); hex_digit (c mod 16)]) b.

(** [fromHexChar]: both cases are accepted. *)
Definition from_hex_char (c : Z) : option Z :=
  if (48 <=? c) && (c <=? 57) then Some (c - 48)
  else if (97 <=? c) && (c <=? 102) then Some (c - 87)
  else if (65 <=? c) && (c <=? 70) then Some (c - 55)
  else None.

(** The digits the program accepts where one spelling is wanted. *)
Definition is_lower_hex (c : Z) : bool :=
  ((48 <=? c) && (c <=? 57)) || ((97 <=? c) && (c <=? 102)).

Fixpoint hex_decode (b : bytes) : option bytes :=
  match b with
  | [] => Some []
  | h :: l :: b' =>
      x ← from_hex_char h; y ← from_hex_char l; r ← hex_decode b';
      Some (16 * x + y :: r)
  | [_] => None
  end.

(** * [fmt] *)

(** [%d]. *)
Definition itoa (z : Z) : string := pretty z.

(** [%02x] of one byte. *)
Definition hex02 (c : Z) : string := string_of (hex_encode [c]).

(** [utf8.DecodeRune]: the first rune and its width, or [None] (rendered as
    [utf8.RuneError]) with width 1 for an invalid encoding. *)
Definition cont (c : Z) : bool := (128 <=? c) && (c <=? 191).

Definition decode_rune (b : bytes) : option Z * nat :=
  match b with
  | [] => (None, 0%nat)
  | c0 :: b1 =>
      if c0 <? 128 then (Some c0, 1%nat)
      else if (194 <=? c0) && (c0 <=? 223) then
        match b1 with
        | c1 :: _ => if cont c1 then (Some ((c0 - 192) * 64 + (c1 - 128)), 2%nat) else (None, 1%nat)
        | _ => (None, 1%nat)
        end
      else if (224 <=? c0) && (c0 <=? 239) then
        match b1 with
        | c1 :: c2 :: _ =>
            if cont c1 && cont c2
               && negb ((c0 =? 224) && (c1 <? 160)) && negb ((c0 =? 237) && (159 <? c1))
            then (Some ((c0 - 224) * 4096 + (c1 - 128) * 64 + (c2 - 128)), 3%nat)
            else (None, 1%nat)
        | _ => (None, 1%nat)
        end
      else if (240 <=? c0) && (c0 <=? 244) then
        match b1 with
        | c1 :: c2 :: c3 :: _ =>
            if cont c1 && cont c2 && cont c3
               && negb ((c0 =? 240) && (c1 <? 144)) && negb ((c0 =? 244) && (143 <? c1))
            then (Some ((c0 - 240) * 262144 + (c1 - 128) * 4096 + (c2 - 128) * 64 + (c3 - 128)), 4%nat)
            else (None, 1%nat)
        | _ => (None, 1%nat)
        end
      else (None, 1%nat)
  end.

(** The runes of a byte string with the bytes that spell them; [length b]
    steps suffice because every step consumes a byte. *)
Fixpoint runes_fuel (fuel : nat) (b : bytes) : list (option Z * bytes) :=
  match fuel, b with
  | S fuel', _ :: _ =>
      let '(r, n) := decode_rune b in (r, take n b) :: runes_fuel fuel' (drop n b)
  | _, _ => []
  end.
Definition runes (b : bytes) : list (option Z * bytes) := runes_fuel (length b) b.

(** The Unicode table behind [strconv.IsPrint] is generated data of the
    standard library; the model takes it as a parameter. *)
Class Unicode := { is_print : Z -> bool }.

Definition hex_n (n : nat) (z : Z) : bytes :=
  map (fun i => hex_digit ((z / 16 ^ Z.of_nat (n - 1 - i)) mod 16)) (seq 0 n).

Section Quote.
Context `{U : Unicode}.

(** [strconv.Quote], one rune. *)
Definition quote_rune (p : option Z * bytes) : bytes :=
  match p with
  | (None, raw) => flat_map (fun c => [92; 120] ++ hex_encode [c]) raw
  | (Some r, raw) =>
      if (r =? 34) || (r =? 92) then [92; r]
      else if is_print r then raw
      else if r =? 7 then [92; 97]
      else if r =? 8 then [92; 98]
      else if r =? 12 then [92; 102]
      else if r =? 10 then [92; 110]
      else if r =? 13 then [92; 114]
      else if r =? 9 then [92; 116]
      else if r =? 11 then [92; 118]
      else if (r <? 32) || (r =? 127) then [92; 120] ++ hex_n 2 r
      else if r <? 65536 then [92; 117] ++ hex_n 4 r
      else [92; 85] ++ hex_n 8 r
  end.

(** [%q]. *)
Definition quote (s : string) : string :=
  string_of ([34] ++ flat_map quote_rune (runes (bytes_of s)) ++ [34]).

End Quote.

(** * [strings] *)

(** [unicode.IsSpace]. *)
Definition rune_space (r : Z) : bool :=
  ((9 <=? r) && (r <=? 13)) || (r =? 32) || (r =? 133) || (r =? 160) || (r =? 5760) ||
  ((8192 <=? r) && (r <=? 8202)) || (r =? 8232) || (r =? 8233) || (r =? 8239) || (r =? 8287) || (r =? 12288).
Definition space (p : option Z * bytes) : bool := match p.1 with Some r => rune_space r | None => false end.

Fixpoint drop_while {A} (f : A -> bool) (l : list A) : list A :=
  match l with [] => [] | x :: l' => if f x then drop_while f l' else l end.

(** [strings.TrimSpace]. *)
Definition TrimSpace (b : bytes) : bytes :=
  concat (map snd (rev (drop_while space (rev (drop_while space (runes b)))))).

(** * [encoding/json] output *)

Inductive json :=
| JBool (b : bool)
| JNum (z : Z)
| JStr (s : string)
| JNull
| JArr (l : list json)
| JObj (l : list (string * json)).

(** [appendString] with HTML escaping, as [json.Marshal] applies it. *)
Definition json_rune (html : bool) (p : option Z * bytes) : bytes :=
  match p with
  | (None, _) => bytes_of "\ufffd"
  | (Some r, raw) =>
      if r =? 34 then [92; 34]
      else if r =? 92 then [92; 92]
      else if r =? 8 then bytes_of "\b"
      else if r =? 12 then bytes_of "\f"
      else if r =? 10 then bytes_of "\n"
      else if r =? 13 then bytes_of "\r"
      else if r =? 9 then bytes_of "\t"
      else if (r <? 32) || (html && ((r =? 60) || (r =? 62) || (r =? 38)))
              || (r =? 8232) || (r =? 8233)
      then bytes_of "\u" ++ hex_n 4 r
      else raw
  end.
Definition json_string (html : bool) (s : string) : bytes :=
  [34] ++ flat_map (json_rune html) (runes (bytes_of s)) ++ [34].

Fixpoint commas (l : list bytes) : bytes :=
  match l with
  | [] => []
  | [x] => x
  | x :: l' => x ++ [44] ++ commas l'
  end.

Fixpoint json_print (html : bool) (j : json) : bytes :=
  match j with
  | JNull => bytes_of "null"
  | JBool true => bytes_of "true"
  | JBool false => bytes_of "false"
  | JNum z => bytes_of (itoa z)
  | JStr s => json_string html s
  | JArr l => [91] ++ commas (map (json_print html) l) ++ [93]
  | JObj l =>
      [123] ++ commas (map (fun '(k, v) => json_string html k ++ [58] ++ json_print html v) l) ++ [125]
  end.

(** [json.Marshal]. *)
Definition marshal (j : json) : bytes := json_print true j.

(** A [MarshalText] that renders hexadecimal. *)
Definition JHex (b : bytes) : json := JStr (string_of (hex_encode b)).

(** * SHA-256 and HMAC-SHA256 *)

Definition rotr (x : Z) (n : Z) : Z := Z.lor (Z.shiftr x n) (u32 (Z.shiftl x (32 - n))).

(** The round constants are the first 32 fractional bits of the cube roots of
    the first 64 primes, the initial state those of the square roots of the
    first 8 (FIPS 180-4, sections 4.2.2 and 5.3.3). *)
Definition is_prime (n : Z) : bool :=
  forallb (fun d => negb (n mod (Z.of_nat d + 2) =? 0)) (seq 0 (Z.to_nat (Z.sqrt n) - 1)).
Definition primes : list Z :=
  Eval vm_compute in List.filter is_prime (map (fun i => Z.of_nat i + 2) (seq 0 310)).

(** The integer cube root, by bits from [2 ^ n] down. *)
Fixpoint cube_root (n : nat) (z acc : Z) : Z :=
  match n with
  | O => acc
  | S n' => let t := acc + 2 ^ Z.of_nat n' in
            cube_root n' z (if t * t * t <=? z then t else acc)
  end.

Definition sha_k : list Z :=
  Eval vm_compute in map (fun p => u32 (cube_root 36 (p * 2 ^ 96) 0)) primes.
Definition sha_init : list Z :=
  Eval vm_compute in map (fun p => u32 (Z.sqrt (p * 2 ^ 64))) (take 8 primes).

(** The message schedule, latest word first. *)
Fixpoint sha_expand (n : nat) (w : list Z) : list Z :=
  match n with
  | O => w
  | S n' =>
      let s0 := let x := nth 14 w 0 in Z.lxor (Z.lxor (rotr x 7) (rotr x 18)) (Z.shiftr x 3) in
      let s1 := let x := nth 1 w 0 in Z.lxor (Z.lxor (rotr x 17) (rotr x 19)) (Z.shiftr x 10) in
      sha_expand n' (u32 (s1 + nth 6 w 0 + s0 + nth 15 w 0) :: w)
  end.

Definition sha_round (st : list Z) (kw : Z * Z) : list Z :=
  match st with
  | [a; b; c; d; e; f; g; h] =>
      let s1 := Z.lxor (Z.lxor (rotr e 6) (rotr e 11)) (rotr e 25) in
      let ch := Z.lxor (Z.land e f) (Z.land (Z.lxor e (2 ^ 32 - 1)) g) in
      let t1 := h + s1 + ch + fst kw + snd kw in
      let s0 := Z.lxor (Z.lxor (rotr a 2) (rotr a 13)) (rotr a 22) in
      let maj := Z.lxor (Z.lxor (Z.land a b) (Z.land a c)) (Z.land b c) in
      [u32 (t1 + s0 + maj); a; b; c; u32 (d + t1); e; f; g]
  | _ => st
  end.

Fixpoint be_words (b : bytes) : list Z :=
  match b with
  | c0 :: c1 :: c2 :: c3 :: b' => get_be [c0; c1; c2; c3] :: be_words b'
  | _ => []
  end.

Definition sha_block (st : list Z) (block : bytes) : list Z :=
  let w := rev (sha_expand 48 (rev (be_words block))) in
  zip_with (fun x y => u32 (x + y)) st (foldl sha_round st (zip sha_k w)).

Definition sha_pad (b : bytes) : bytes :=
  b ++ [128] ++ repeat 0 (Z.to_nat ((55 - len b) mod 64)) ++ put_be64 (8 * len b).

Fixpoint sha_blocks (fuel : nat) (st : list Z) (b : bytes) : list Z :=
  match fuel, b with
  | S fuel', _ :: _ => sha_blocks fuel' (sha_block st (take 64 b)) (drop 64 b)
  | _, _ => st
  end.

(** [sha256.Sum256]. *)
Definition sha256 (b : bytes) : bytes :=
  let p := sha_pad b in flat_map put_be32 (sha_blocks (length p) sha_init p).

(** [hmac.New(sha256.New, key)] over one message. *)
Definition hmac_sha256 (key msg : bytes) : bytes :=
  let k := if 64 <? len key then sha256 key else key in
  let k := k ++ repeat 0 (64 - length k) in
  sha256 (map (Z.lxor 92) k ++ sha256 (map (Z.lxor 54) k ++ msg)).

(** The ASCII part of [strconv.IsPrint], for concrete runs. *)
Definition ascii_unicode : Unicode := {| is_print r := (32 <=? r) && (r <? 127) |}.

(** * Bytes and their spellings *)

Definition is_byte (c : Z) : Prop := 0 <= c < 256.

Lemma from_hex_digit d : 0 <= d < 16 -> from_hex_char (hex_digit d) = Some d.
Proof.
  intros H. unfold from_hex_char, hex_digit. destruct (Z.ltb_spec d 10).
  - replace ((48 <=? 48 + d) && (48 + d <=? 57)) with true by lia. f_equal. lia.
  - replace ((48 <=? 87 + d) && (87 + d <=? 57)) with false by lia.
    replace ((97 <=? 87 + d) && (87 + d <=? 102)) with true by lia. f_equal. lia.
Qed.

Lemma bytes_of_bytes s : Forall is_byte (bytes_of s).
Proof.
  induction s as [|c s IH]; simpl; constructor; [|done].
  pose proof (Ascii.N_ascii_bounded c). unfold is_byte. lia.
Qed.

Lemma bytes_of_string_of b : Forall is_byte b -> bytes_of (string_of b) = b.
Proof.
  induction 1 as [|c b Hc _ IH]; simpl; [done|]. unfold is_byte in Hc.
  rewrite IH, Ascii.N_ascii_embedding by lia. f_equal. lia.
Qed.

Lemma string_of_bytes_of s : string_of (bytes_of s) = s.
Proof. induction s as [|c s IH]; simpl; [done|]. by rewrite IH, N2Z.id, Ascii.ascii_N_embedding. Qed.

Lemma bytes_of_app s t : bytes_of (s +:+ t) = bytes_of s ++ bytes_of t.
Proof. induction s as [|c s IH]; simpl; [done|]. by rewrite IH. Qed.

Lemma string_of_app b c : string_of (b ++ c) = string_of b +:+ string_of c.
Proof. induction b as [|x b IH]; simpl; [done|]. by rewrite IH. Qed.

Lemma len_bytes_of s : len (bytes_of s) = slen s.
Proof. unfold len, slen. f_equal. induction s as [|c s IH]; simpl; [done|]. by rewrite IH. Qed.

Lemma bytes_of_inj s t : bytes_of s = bytes_of t -> s = t.
Proof. intros H. by rewrite <- (string_of_bytes_of s), H, string_of_bytes_of. Qed.

Lemma is_lower_hex_digit d : 0 <= d < 16 -> is_lower_hex (hex_digit d) = true.
Proof. intros H. unfold is_lower_hex, hex_digit. destruct (Z.ltb_spec d 10); lia. Qed.

Lemma hex_round_trip b : Forall is_byte b ->
  hex_decode (hex_encode b) = Some b /\ forallb is_lower_hex (hex_encode b) = true
  /\ len (hex_encode b) = 2 * len b.
Proof.
  induction 1 as [|c b Hc _ (IH1 & IH2 & IH3)]; [done|].
  assert (0 <= c / 16 < 16) by (unfold is_byte in Hc; Z.div_mod_to_equations; lia).
  assert (0 <= c mod 16 < 16) by (Z.div_mod_to_equations; lia).
  cbn [hex_encode flat_map app hex_decode forallb]. fold (hex_encode b).
  rewrite !from_hex_digit, !is_lower_hex_digit, !len_cons by done. simpl. rewrite IH1, IH2. simpl.
  split_and!; [|done|lia]. do 2 f_equal. Z.div_mod_to_equations; lia.
Qed.

(** Induction on a byte string by pairs, as [hex_decode] reads it. *)
Lemma pairs_ind (P : bytes -> Prop) :
  P [] -> (forall c, P [c]) -> (forall h l t, P t -> P (h :: l :: t)) -> forall t, P t.
Proof.
  intros H0 H1 H2. fix IH 1. intros [|h [|l t]]; [done|apply H1|apply H2, IH].
Qed.

Lemma hex_digit_from c d : is_lower_hex c = true -> from_hex_char c = Some d ->
  0 <= d < 16 /\ hex_digit d = c.
Proof.
  unfold is_lower_hex, from_hex_char, hex_digit. intros Hc Hd.
  repeat case_hyp Hd; simplify_eq; (split; [|case_goal]); lia.
Qed.

Lemma hex_decode_lower t b : forallb is_lower_hex t = true -> hex_decode t = Some b ->
  Forall is_byte b /\ hex_encode b = t.
Proof.
  revert b. induction t as [|c|h l t IH] using pairs_ind; intros b Hl Hd; [by simplify_eq/=|done|].
  cbn [forallb] in Hl. apply andb_true_iff in Hl as [Hh [Hl Ht]%andb_true_iff].
  cbn [hex_decode] in Hd. destruct (from_hex_char h) as [x|] eqn:Hx; [|done].
  destruct (from_hex_char l) as [y|] eqn:Hy; [|done]. simpl in Hd.
  destruct (hex_decode t) as [r|] eqn:Hr; [|done]. injection Hd as <-.
  apply hex_digit_from in Hx as [Hx1 Hx2]; [|done]. apply hex_digit_from in Hy as [Hy1 Hy2]; [|done].
  destruct (IH r Ht eq_refl) as [H1 H2]. split; [constructor; [unfold is_byte; lia|done]|].
  cbn [hex_encode flat_map app]. fold (hex_encode r). rewrite H2.
  replace ((16 * x + y) / 16) with x by (Z.div_mod_to_equations; lia).
  replace ((16 * x + y) mod 16) with y by (Z.div_mod_to_equations; lia). by rewrite Hx2, Hy2.
Qed.

(** * Digests *)

Lemma put_be32_length z : length (put_be32 z) = 4%nat.
Proof. done. Qed.

Lemma put_be32_bytes z : Forall is_byte (put_be32 z).
Proof.
  unfold put_be32, put_be. apply Forall_forall. intros c (i & -> & _)%list_elem_of_fmap. apply Z.mod_pos_bound. lia.
Qed.

Lemma sha_round_length st x : length st = 8%nat -> length (sha_round st x) = 8%nat.
Proof. intros H. by do 9 (destruct st as [|? st]; [done|]). Qed.

Lemma sha_block_length st b : length st = 8%nat -> length (sha_block st b) = 8%nat.
Proof.
  intros H. unfold sha_block. rewrite length_zip_with, H.
  assert (F : forall l k, length k = 8%nat -> length (foldl sha_round k l) = 8%nat).
  { induction l as [|x l IH]; intros k Hk; [done|]. apply IH, sha_round_length, Hk. }
  by rewrite F.
Qed.

Lemma sha_blocks_length f st b : length st = 8%nat -> length (sha_blocks f st b) = 8%nat.
Proof.
  revert st b. induction f as [|f IH]; intros st b H; [done|]. destruct b as [|c b]; [done|].
  apply IH, sha_block_length, H.
Qed.

Lemma flat_map_bytes {A} (f : A -> bytes) l : (forall x, Forall is_byte (f x)) -> Forall is_byte (flat_map f l).
Proof. intros H. induction l as [|x l IH]; [constructor|]. apply Forall_app. by split. Qed.

(** A digest is 32 bytes. *)
Lemma sha256_digest b : len (sha256 b) = 32 /\ Forall is_byte (sha256 b).
Proof.
  unfold sha256. cbv zeta. pose proof (sha_blocks_length (length (sha_pad b)) sha_init (sha_pad b) eq_refl) as L. revert L.
  generalize (sha_blocks (length (sha_pad b)) sha_init (sha_pad b)). intros st L. split; [|apply flat_map_bytes, put_be32_bytes].
  by do 9 (destruct st as [|? st]; [done|]).
Qed.

Lemma hmac_digest k b : len (hmac_sha256 k b) = 32 /\ Forall is_byte (hmac_sha256 k b).
Proof. apply sha256_digest. Qed.
