(* ===== verification/Base64.v ===== *)
(** [encoding/base64] as the code uses it: the standard padded encoding, in
    which [encoding/json] writes byte slices, and the strict unpadded URL
    encoding of the session tokens.  The theorems: decoding gives back what
    was encoded, and a strict decoding without line breaks is only ever of
    the encoding of its result. *)

From S2P Require Import Prelude GoStd.

Record Encoding := mkEncoding { enc_url : bool; enc_padded : bool; enc_strict : bool }.

Definition StdEncoding : Encoding := mkEncoding false true false.
(** [base64.RawURLEncoding.Strict()]. *)
Definition RawURLStrict : Encoding := mkEncoding true false true.

Definition b64_digit (e : Encoding) (d : Z) : Z :=
  if d <? 26 then 65 + d
  else if d <? 52 then 71 + d
  else if d <? 62 then d - 4
  else if d =? 62 then (if enc_url e then 45 else 43)
  else (if enc_url e then 95 else 47).

(** [decodeMap]. *)
Definition b64_value (e : Encoding) (c : Z) : option Z :=
  if (65 <=? c) && (c <=? 90) then Some (c - 65)
  else if (97 <=? c) && (c <=? 122) then Some (c - 71)
  else if (48 <=? c) && (c <=? 57) then Some (c + 4)
  else if c =? (if enc_url e then 45 else 43) then Some 62
  else if c =? (if enc_url e then 95 else 47) then Some 63
  else None.

(** [EncodeToString]: three bytes to four characters, and the last one or two
    bytes with the padding the encoding asks for. *)
Fixpoint b64_encode (e : Encoding) (b : bytes) : bytes :=
  let dg := b64_digit e in
  match b with
  | x :: y :: z :: b' =>
      dg (x / 4) :: dg (x mod 4 * 16 + y / 16) :: dg (y mod 16 * 4 + z / 64) :: dg (z mod 64) :: b64_encode e b'
  | [x; y] =>
      [dg (x / 4); dg (x mod 4 * 16 + y / 16); dg (y mod 16 * 4)] ++ (if enc_padded e then [61] else [])
  | [x] => [dg (x / 4); dg (x mod 4 * 16)] ++ (if enc_padded e then [61; 61] else [])
  | [] => []
  end.

(** Two or three characters that end the text: the bits no byte takes must be
    zero in a strict encoding. *)
Definition b64_last1 (e : Encoding) (p q : Z) : option bytes :=
  x ← b64_value e p; y ← b64_value e q;
  if enc_strict e && negb (y mod 16 =? 0) then None else Some [x * 4 + y / 16].
Definition b64_last2 (e : Encoding) (p q r : Z) : option bytes :=
  x ← b64_value e p; y ← b64_value e q; z ← b64_value e r;
  if enc_strict e && negb (z mod 4 =? 0) then None else Some [x * 4 + y / 16; y mod 16 * 16 + z / 4].

Fixpoint b64_quads (e : Encoding) (b : bytes) : option bytes :=
  match b with
  | [] => Some []
  | p :: q :: r :: s :: b' =>
      if enc_padded e && bool_decide (b' = []) && (r =? 61) && (s =? 61) then b64_last1 e p q
      else if enc_padded e && bool_decide (b' = []) && (s =? 61) then b64_last2 e p q r
      else x ← b64_value e p; y ← b64_value e q; z ← b64_value e r; w ← b64_value e s;
           rest ← b64_quads e b';
           Some (x * 4 + y / 16 :: y mod 16 * 16 + z / 4 :: z mod 4 * 64 + w :: rest)
  | [p; q; r] => if enc_padded e then None else b64_last2 e p q r
  | [p; q] => if enc_padded e then None else b64_last1 e p q
  | [_] => None
  end.

(** [DecodeString]: line breaks are skipped wherever they stand, in the strict
    encoding too. *)
Definition is_break (c : Z) : bool := (c =? 10) || (c =? 13).
Definition b64_decode (e : Encoding) (b : bytes) : option bytes :=
  b64_quads e (List.filter (fun c => negb (is_break c)) b).

(** * Round trips *)

Lemma b64_value_digit e d : 0 <= d < 64 -> b64_value e (b64_digit e d) = Some d.
Proof.
  intros H. unfold b64_value, b64_digit.
  destruct (Z.ltb_spec d 26). { replace ((65 <=? 65 + d) && (65 + d <=? 90)) with true by lia. f_equal; lia. }
  destruct (Z.ltb_spec d 52).
  { replace ((65 <=? 71 + d) && (71 + d <=? 90)) with false by lia.
    replace ((97 <=? 71 + d) && (71 + d <=? 122)) with true by lia. f_equal; lia. }
  destruct (Z.ltb_spec d 62).
  { replace ((65 <=? d - 4) && (d - 4 <=? 90)) with false by lia.
    replace ((97 <=? d - 4) && (d - 4 <=? 122)) with false by lia.
    replace ((48 <=? d - 4) && (d - 4 <=? 57)) with true by lia. f_equal; lia. }
  destruct (Z.eqb_spec d 62) as [->|]; [by destruct (enc_url e)|].
  replace d with 63 by lia. by destruct (enc_url e).
Qed.

Lemma b64_digit_value e c d : b64_value e c = Some d -> b64_digit e d = c /\ 0 <= d < 64.
Proof.
  unfold b64_value. repeat case_goal; intros [= <-]; b2p; unfold b64_digit.
  - replace (c - 65 <? 26) with true by lia. lia.
  - replace (c - 71 <? 26) with false by lia. replace (c - 71 <? 52) with true by lia. lia.
  - replace (c + 4 <? 26) with false by lia. replace (c + 4 <? 52) with false by lia.
    replace (c + 4 <? 62) with true by lia. lia.
  - subst. by destruct (enc_url e).
  - subst. by destruct (enc_url e).
Qed.

(** No digit is a line break or the padding. *)
Lemma b64_digit_plain e d : 0 <= d < 64 -> is_break (b64_digit e d) = false /\ (b64_digit e d =? 61) = false.
Proof.
  intros H. unfold b64_digit, is_break. repeat case_goal; b2p; lia.
Qed.

(** Induction by groups of three bytes. *)
Lemma threes_ind (P : bytes -> Prop) : P [] -> (forall x, P [x]) -> (forall x y, P [x; y]) ->
  (forall x y z b, P b -> P (x :: y :: z :: b)) -> forall b, P b.
Proof.
  intros H0 H1 H2 H3. fix IH 1. intros [|x [|y [|z b]]]; [done|done|done|]. by apply H3.
Qed.

Ltac b64_digits := rewrite ?b64_value_digit by (unfold is_byte in *; Z.div_mod_to_equations; lia).

Lemma filter_digit e d l : 0 <= d < 64 ->
  List.filter (fun c => negb (is_break c)) (b64_digit e d :: l) = b64_digit e d :: List.filter (fun c => negb (is_break c)) l.
Proof. intros H. cbn [List.filter]. by rewrite (proj1 (b64_digit_plain e d H)). Qed.

Lemma b64_encode_plain e b : Forall is_byte b -> List.filter (fun c => negb (is_break c)) (b64_encode e b) = b64_encode e b.
Proof.
  induction b as [|x|x y|x y z b IH] using threes_ind; intros HB; repeat (apply Forall_cons in HB as [? HB]); [done|..];
    cbn [b64_encode app]; rewrite !filter_digit by (unfold is_byte in *; Z.div_mod_to_equations; lia).
  - by destruct (enc_padded e).
  - by destruct (enc_padded e).
  - by rewrite IH.
Qed.

Lemma b64_quads_encode e b : Forall is_byte b -> b64_quads e (b64_encode e b) = Some b.
Proof.
  induction b as [|x|x y|x y z b IH] using threes_ind; intros HB; repeat (apply Forall_cons in HB as [? HB]);
    unfold is_byte in *; [done|..]; cbn [b64_encode app].
  - assert (E1 : b64_last1 e (b64_digit e (x / 4)) (b64_digit e (x mod 4 * 16)) = Some [x]).
    { unfold b64_last1. b64_digits. cbn [mbind option_bind].
      replace ((x mod 4 * 16) mod 16) with 0 by (Z.div_mod_to_equations; lia). rewrite Z.eqb_refl, andb_false_r.
      do 2 f_equal. Z.div_mod_to_equations; lia. }
    destruct (enc_padded e) eqn:Ep; cbn [b64_quads app]; rewrite Ep; exact E1.
  - assert (E2 : b64_last2 e (b64_digit e (x / 4)) (b64_digit e (x mod 4 * 16 + y / 16)) (b64_digit e (y mod 16 * 4)) = Some [x; y]).
    { unfold b64_last2. b64_digits. cbn [mbind option_bind].
      replace ((y mod 16 * 4) mod 4) with 0 by (Z.div_mod_to_equations; lia). rewrite Z.eqb_refl, andb_false_r.
      f_equal. f_equal; [|f_equal]; Z.div_mod_to_equations; lia. }
    destruct (enc_padded e) eqn:Ep; cbn [b64_quads app]; rewrite Ep; [|exact E2].
    rewrite (proj2 (b64_digit_plain e (y mod 16 * 4) ltac:(Z.div_mod_to_equations; lia))). exact E2.
  - cbn [b64_quads]. rewrite IH by done.
    rewrite (proj2 (b64_digit_plain e (z mod 64) ltac:(Z.div_mod_to_equations; lia))), !andb_false_r.
    b64_digits. cbn [mbind option_bind]. f_equal.
    f_equal; [|f_equal; [|f_equal]]; Z.div_mod_to_equations; lia.
Qed.

Lemma b64_round_trip e b : Forall is_byte b -> b64_decode e (b64_encode e b) = Some b.
Proof. intros H. unfold b64_decode. rewrite b64_encode_plain by done. by apply b64_quads_encode. Qed.

(** A strict unpadded text without line breaks is the encoding of what it
    decodes to. *)
Lemma quads_ind (P : bytes -> Prop) : P [] -> (forall x, P [x]) -> (forall x y, P [x; y]) -> (forall x y z, P [x; y; z]) ->
  (forall x y z w b, P b -> P (x :: y :: z :: w :: b)) -> forall b, P b.
Proof.
  intros H0 H1 H2 H3 H4. fix IH 1. intros [|x [|y [|z [|w b]]]]; [done|done|done|done|]. by apply H4.
Qed.

Ltac b64_parts :=
  repeat match goal with
  | H : mbind _ (b64_value ?e ?c) = Some _ |- _ =>
      let d := fresh "d" in let E := fresh "E" in let R := fresh "R" in
      destruct (b64_value e c) as [d|] eqn:E; [cbn [mbind option_bind] in H|done];
      apply b64_digit_value in E as [E R]
  end.

Lemma b64_last1_spec e p q b : b64_last1 e p q = Some b -> exists x, b = [x] /\ is_byte x /\
  (enc_strict e = true -> b64_digit e (x / 4) = p /\ b64_digit e (x mod 4 * 16) = q).
Proof.
  unfold b64_last1, is_byte. intros H. b64_parts. destruct (enc_strict e && _) eqn:S; [done|].
  injection H as <-. eexists. split; [done|]. split; [Z.div_mod_to_equations; lia|]. intros Hs. rewrite Hs in S.
  cbn [andb] in S. b2p. rewrite <- E, <- E0. split; f_equal; Z.div_mod_to_equations; lia.
Qed.

Lemma b64_last2_spec e p q r b : b64_last2 e p q r = Some b -> exists x y, b = [x; y] /\ is_byte x /\ is_byte y /\
  (enc_strict e = true -> b64_digit e (x / 4) = p /\ b64_digit e (x mod 4 * 16 + y / 16) = q /\ b64_digit e (y mod 16 * 4) = r).
Proof.
  unfold b64_last2, is_byte. intros H. b64_parts. destruct (enc_strict e && _) eqn:S; [done|].
  injection H as <-. eexists _, _. split; [done|]. split_and!; [Z.div_mod_to_equations; lia..|]. intros Hs. rewrite Hs in S.
  cbn [andb] in S. b2p. rewrite <- E, <- E0, <- E1. split_and!; f_equal; Z.div_mod_to_equations; lia.
Qed.

Lemma b64_quads_spec e t b : b64_quads e t = Some b ->
  Forall is_byte b /\ (enc_strict e = true -> enc_padded e = false -> b64_encode e b = t).
Proof.
  revert b. induction t as [|p|p q|p q r|p q r s t IH] using quads_ind; intros b; cbn [b64_quads].
  - by intros [= <-].
  - done.
  - destruct (enc_padded e) eqn:Ep; [done|]. intros (x & -> & Hx & Hs)%b64_last1_spec. split; [by auto|].
    intros S P. destruct (Hs S) as [<- <-]. cbn. by rewrite Ep.
  - destruct (enc_padded e) eqn:Ep; [done|]. intros (x & y & -> & Hx & Hy & Hs)%b64_last2_spec. split; [by auto|].
    intros S P. destruct (Hs S) as (<- & <- & <-). cbn. by rewrite Ep.
  - destruct (enc_padded e && bool_decide (t = []) && (r =? 61) && (s =? 61)) eqn:C1.
    { intros (x & -> & Hx & _)%b64_last1_spec. split; [by auto|]. intros _ P. by rewrite P in C1. }
    destruct (enc_padded e && bool_decide (t = []) && (s =? 61)) eqn:C2.
    { intros (x & y & -> & Hx & Hy & _)%b64_last2_spec. split; [by auto|]. intros _ P. by rewrite P in C2. }
    intros H. b64_parts. destruct (b64_quads e t) as [l|] eqn:El; [|done]. cbn [mbind option_bind] in H.
    injection H as <-. destruct (IH _ eq_refl) as [HB Hc]. split.
    + repeat (constructor; [unfold is_byte; Z.div_mod_to_equations; lia|]). done.
    + intros S P. cbn [b64_encode]. rewrite Hc by done. rewrite <- E, <- E0, <- E1, <- E2.
      repeat (apply (f_equal2 cons); [f_equal; Z.div_mod_to_equations; lia|]). done.
Qed.

Lemma b64_decode_bytes e t b : b64_decode e t = Some b -> Forall is_byte b.
Proof. intros H. unfold b64_decode in H. by apply b64_quads_spec in H as [? _]. Qed.

Lemma b64_decode_canonical e t b : enc_strict e = true -> enc_padded e = false ->
  forallb (fun c => negb (is_break c)) t = true -> b64_decode e t = Some b -> b64_encode e b = t.
Proof.
  intros S P Ht H. unfold b64_decode in H.
  assert (E : List.filter (fun c => negb (is_break c)) t = t).
  { clear H. induction t as [|c t IH]; [done|]. cbn in *. b2p. rewrite H. cbn. f_equal. by apply IH. }
  rewrite E in H. apply b64_quads_spec in H as [_ H]. by apply H.
Qed.

(** A text without its line breaks. *)
Definition unbroken (t : bytes) : bytes := List.filter (fun c => negb (is_break c)) t.

(** What a strict unpadded decoding accepts: the encoding of its result, but
    for line breaks. *)
Lemma b64_decode_strict e t b : enc_strict e = true -> enc_padded e = false ->
  b64_decode e t = Some b <-> Forall is_byte b /\ unbroken t = b64_encode e b.
Proof.
  intros S P. unfold b64_decode. change (List.filter _ t) with (unbroken t). split.
  - intros [HB H]%b64_quads_spec. by rewrite H.
  - intros [HB ->]. by apply b64_quads_encode.
Qed.

(** * The shape of encoded texts *)

(** Every character is a letter, a digit or one of the two others. *)
Definition b64_char (e : Encoding) (c : Z) : bool := match b64_value e c with Some _ => true | None => false end.

Lemma b64_encode_chars e b : Forall is_byte b -> enc_padded e = false -> Forall (fun c => b64_char e c = true) (b64_encode e b).
Proof.
  intros HB P. induction b as [|x|x y|x y z b IH] using threes_ind; repeat (apply Forall_cons in HB as [? HB]);
    unfold is_byte in *; cbn [b64_encode app]; rewrite ?P;
    repeat (apply Forall_cons; split; [unfold b64_char; rewrite b64_value_digit by (Z.div_mod_to_equations; lia); done|]);
    auto.
Qed.

Lemma b64_encode_length e b : enc_padded e = false -> 3 * len (b64_encode e b) <= 4 * len b + 2.
Proof.
  intros P. induction b as [|x|x y|x y z b IH] using threes_ind; cbn [b64_encode app]; rewrite ?P; [done|done|done|].
  rewrite !len_cons. lia.
Qed.

(** What decodes, but for its line breaks, is made of those characters. *)
Lemma b64_decode_chars e t b : enc_strict e = true -> enc_padded e = false -> b64_decode e t = Some b ->
  Forall (fun c => is_break c = true \/ b64_char e c = true) t.
Proof.
  intros S P H. pose proof (b64_decode_bytes _ _ _ H) as HB. unfold b64_decode in H. apply b64_quads_spec in H as [_ H].
  specialize (H S P). pose proof (b64_encode_chars e b HB P) as C. rewrite H in C. rewrite Forall_forall in *.
  intros c Hc. destruct (is_break c) eqn:E; [by left|right]. apply C, list_elem_of_In, filter_In.
  rewrite E. split; [by apply list_elem_of_In|done].
Qed.

(** A line break at the end goes unnoticed. *)
Lemma b64_decode_break e t : b64_decode e (t ++ [10]) = b64_decode e t.
Proof. unfold b64_decode. rewrite List.filter_app. cbn. by rewrite app_nil_r. Qed.

Lemma b64_char_byte e c : b64_char e c = true -> is_byte c.
Proof.
  unfold b64_char. destruct (b64_value e c) as [d|] eqn:E; [|done]. intros _. apply b64_digit_value in E as [<- H].
  unfold b64_digit, is_byte. repeat case_goal; b2p; lia.
Qed.
