(* ===== verification/Json.v ===== *)
(** Reading JSON: the decoder of [encoding/json] as the code uses it, and
    [jsonx.DecodeStrict] (internal/jsonx/jsonx.go) on top of it.

    [value] is the scanner and the string reader of the library: it takes the
    first JSON value off a byte string and leaves the rest.  A type's decoder
    takes the list of every value its key was given, because a repeated key is
    decoded again into what the earlier one left.  The theorems: what
    [json.Marshal] prints is read back ([value_print]), a value is read with
    the fuel given, whatever the input ([value_fuel]), and each decoder
    returns what its encoder was given, and only values of its Go type. *)

From S2P Require Import Prelude GoStd.

(** * Runes *)

(** [utf8.EncodeRune] of a rune in range. *)
Definition encode_rune (r : Z) : bytes :=
  if r <? 128 then [r]
  else if r <? 2048 then [192 + r / 64; 128 + r mod 64]
  else if r <? 65536 then [224 + r / 4096; 128 + (r / 64) mod 64; 128 + r mod 64]
  else [240 + r / 262144; 128 + (r / 4096) mod 64; 128 + (r / 64) mod 64; 128 + r mod 64].

(** [unicode.ReplacementChar]. *)
Definition RuneError : Z := 65533.

(** Four hexadecimal digits as a number ([getu4]). *)
Definition get_u4 (b : bytes) : option Z :=
  match b with
  | c1 :: c2 :: c3 :: c4 :: _ =>
      x1 ← from_hex_char c1; x2 ← from_hex_char c2; x3 ← from_hex_char c3; x4 ← from_hex_char c4;
      Some (4096 * x1 + 256 * x2 + 16 * x3 + x4)
  | _ => None
  end.

(** [utf16.IsSurrogate], and [utf16.DecodeRune] of a pair. *)
Definition is_surrogate (r : Z) : bool := (55296 <=? r) && (r <? 57344).
Definition surrogate_pair (r1 r2 : Z) : option Z :=
  if (55296 <=? r1) && (r1 <? 56320) && (56320 <=? r2) && (r2 <? 57344)
  then Some ((r1 - 55296) * 1024 + (r2 - 56320) + 65536) else None.

(** The character after a backslash, other than [u]. *)
Definition escape (c : Z) : option Z :=
  if (c =? 34) || (c =? 92) || (c =? 47) then Some c
  else if c =? 98 then Some 8
  else if c =? 102 then Some 12
  else if c =? 110 then Some 10
  else if c =? 114 then Some 13
  else if c =? 116 then Some 9
  else None.

Definition prepend (x : bytes) (r : option (bytes * bytes)) : option (bytes * bytes) :=
  '(s, rest) ← r; Some (x ++ s, rest).

(** The second half of a surrogate pair: a [\u] escape whose number completes
    [r]. *)
Definition second_half (r : Z) (b : bytes) : option Z :=
  match b with
  | c :: u :: b' => if (c =? 92) && (u =? 117) then r2 ← get_u4 b'; surrogate_pair r r2 else None
  | _ => None
  end.

(** * The scanner

    A string after its opening quote: the bytes it stands for and what follows
    the closing one. *)
Fixpoint str_body (fuel : nat) (b : bytes) : option (bytes * bytes) :=
  match fuel, b with
  | S f, c :: b1 =>
      if c =? 34 then Some ([], b1)
      else if c =? 92 then
        match b1 with
        | [] => None
        | e :: b2 =>
            if e =? 117 then
              r ← get_u4 b2;
              let b3 := drop 4 b2 in
              if is_surrogate r then
                match second_half r b3 with
                | Some r' => prepend (encode_rune r') (str_body f (drop 6 b3))
                | None => prepend (encode_rune RuneError) (str_body f b3)
                end
              else prepend (encode_rune r) (str_body f b3)
            else x ← escape e; prepend [x] (str_body f b2)
        end
      else if c <? 32 then None
      else let '(r, n) := decode_rune b in
           prepend (encode_rune (default RuneError r)) (str_body f (drop n b))
  | _, _ => None
  end.

Definition is_space (c : Z) : bool := (c =? 32) || (c =? 9) || (c =? 13) || (c =? 10).

Fixpoint skip (b : bytes) : bytes :=
  match b with
  | c :: b' => if is_space c then skip b' else b
  | [] => []
  end.

Definition is_digit (c : Z) : bool := (48 <=? c) && (c <=? 57).

Fixpoint digits (b : bytes) : bytes * bytes :=
  match b with
  | c :: b' => if is_digit c then let '(d, r) := digits b' in (c :: d, r) else ([], b)
  | [] => ([], [])
  end.

(** One or more digits. *)
Definition digits1 (b : bytes) : option (bytes * bytes) :=
  match digits b with ([], _) => None | (d, r) => Some (d, r) end.

(** The optional fraction and exponent of a number. *)
Definition fraction (b : bytes) : option (bytes * bytes) :=
  match b with
  | c :: b' => if c =? 46 then prepend [46] (digits1 b') else Some ([], b)
  | [] => Some ([], [])
  end.

Definition exponent (b : bytes) : option (bytes * bytes) :=
  match b with
  | c :: b' =>
      if (c =? 101) || (c =? 69) then
        match b' with
        | s :: b'' => if (s =? 43) || (s =? 45) then prepend [c; s] (digits1 b'') else prepend [c] (digits1 b')
        | [] => None
        end
      else Some ([], b)
  | [] => Some ([], [])
  end.

(** The integer part: [0], or digits that do not start with it. *)
Definition integer (b : bytes) : option (bytes * bytes) :=
  match b with
  | c :: b' => if c =? 48 then Some ([48], b') else digits1 b
  | [] => None
  end.

Definition number (b : bytes) : option (bytes * bytes) :=
  let '(sign, b) := match b with c :: b' => if c =? 45 then ([45], b') else ([], b) | [] => ([], []) end in
  '(i, b) ← integer b; '(f, b) ← fraction b; '(e, b) ← exponent b; Some (sign ++ i ++ f ++ e, b).

(** A value as it was written: a number is its text. *)
Inductive jval :=
| VNull
| VBool (b : bool)
| VNum (text : bytes)
| VStr (s : string)
| VArr (l : list jval)
| VObj (l : list (string * jval)).

(** The rest after a literal. *)
Fixpoint literal (w b : bytes) : option bytes :=
  match w, b with
  | [], _ => Some b
  | c :: w', d :: b' => if c =? d then literal w' b' else None
  | _ :: _, [] => None
  end.

(** Nesting is bounded by [maxNestingDepth]. *)
Definition maxNestingDepth : Z := 10000.

Definition str (b : bytes) : option (bytes * bytes) := str_body (S (length b)) b.

Fixpoint value (fuel : nat) (depth : Z) (b : bytes) : option (jval * bytes) :=
  match fuel, skip b with
  | S f, c :: b1 =>
      if c =? 123 then
        exit_if maxNestingDepth <=? depth with None;
        match skip b1 with
        | c2 :: b2 => if c2 =? 125 then Some (VObj [], b2)
                      else '(l, r) ← members f (depth + 1) b1; Some (VObj l, r)
        | [] => None
        end
      else if c =? 91 then
        exit_if maxNestingDepth <=? depth with None;
        match skip b1 with
        | c2 :: b2 => if c2 =? 93 then Some (VArr [], b2)
                      else '(l, r) ← elements f (depth + 1) b1; Some (VArr l, r)
        | [] => None
        end
      else if c =? 34 then '(s, r) ← str b1; Some (VStr (string_of s), r)
      else if c =? 116 then r ← literal (bytes_of "rue") b1; Some (VBool true, r)
      else if c =? 102 then r ← literal (bytes_of "alse") b1; Some (VBool false, r)
      else if c =? 110 then r ← literal (bytes_of "ull") b1; Some (VNull, r)
      else '(t, r) ← number (c :: b1); Some (VNum t, r)
  | _, _ => None
  end
with elements (fuel : nat) (depth : Z) (b : bytes) : option (list jval * bytes) :=
  match fuel with
  | O => None
  | S f =>
      '(v, r) ← value f depth b;
      match skip r with
      | c :: r' => if c =? 44 then '(l, r2) ← elements f depth r'; Some (v :: l, r2)
                   else if c =? 93 then Some ([v], r') else None
      | [] => None
      end
  end
with members (fuel : nat) (depth : Z) (b : bytes) : option (list (string * jval) * bytes) :=
  match fuel, skip b with
  | S f, c :: b1 =>
      exit_if negb (c =? 34) with None;
      '(k, r) ← str b1;
      match skip r with
      | c2 :: r2 =>
          exit_if negb (c2 =? 58) with None;
          '(v, r3) ← value f depth r2;
          match skip r3 with
          | c4 :: r4 => if c4 =? 44 then '(l, r5) ← members f depth r4; Some ((string_of k, v) :: l, r5)
                        else if c4 =? 125 then Some ([(string_of k, v)], r4) else None
          | [] => None
          end
      | [] => None
      end
  | _, _ => None
  end.

(** Every call consumes a byte, or is the one call of [value] a list makes per
    byte consumed. *)
Definition parse_value (b : bytes) : option (jval * bytes) := value (2 * length b + 2) 0 b.

(** [DecodeStrict] up to the type's own decoding: one value, and only JSON
    whitespace after it. *)
Definition DecodeStrict (b : bytes) : option jval :=
  '(v, rest) ← parse_value b;
  if forallb is_space rest then Some v else None.

(** * UTF-8 *)

Lemma decode_rune_width b : b <> [] -> (1 <= (decode_rune b).2 <= length b)%nat.
Proof.
  intros Hb. destruct b as [|c0 b]; [done|]. simpl.
  repeat case_match; simpl; lia.
Qed.

Ltac bytes_eq := repeat (apply (f_equal2 cons); [Z.div_mod_to_equations; lia|]); reflexivity.

(** Encoding gives back the bytes a rune was decoded from. *)
Lemma encode_decode b r n : decode_rune b = (Some r, n) -> encode_rune r = take n b.
Proof.
  unfold decode_rune, cont, encode_rune. destruct b as [|c0 b]; [done|].
  destruct (Z.ltb_spec c0 128); [intros [= <- <-]; simpl; by destruct (Z.ltb_spec c0 128); [|lia]|].
  destruct ((194 <=? c0) && (c0 <=? 223)) eqn:E2.
  { destruct b as [|c1 b]; [done|]. case_goal; [|done]. intros [= <- <-]. b2p. simpl.
    destruct (Z.ltb_spec ((c0 - 192) * 64 + (c1 - 128)) 128); [lia|].
    destruct (Z.ltb_spec ((c0 - 192) * 64 + (c1 - 128)) 2048); [|lia].
    bytes_eq. }
  destruct ((224 <=? c0) && (c0 <=? 239)) eqn:E3.
  { destruct b as [|c1 [|c2 b]]; [done..|]. case_goal; [|done]. intros [= <- <-]. b2p. simpl.
    set (r := (c0 - 224) * 4096 + (c1 - 128) * 64 + (c2 - 128)).
    assert (2048 <= r < 65536) by lia.
    destruct (Z.ltb_spec r 128); [lia|]. destruct (Z.ltb_spec r 2048); [lia|]. destruct (Z.ltb_spec r 65536); [|lia].
    subst r. bytes_eq. }
  destruct ((240 <=? c0) && (c0 <=? 244)) eqn:E4; [|done].
  destruct b as [|c1 [|c2 [|c3 b]]]; [done..|]. case_goal; [|done]. intros [= <- <-]. b2p. simpl.
  set (r := (c0 - 240) * 262144 + (c1 - 128) * 4096 + (c2 - 128) * 64 + (c3 - 128)).
  assert (65536 <= r) by lia.
  destruct (Z.ltb_spec r 128); [lia|]. destruct (Z.ltb_spec r 2048); [lia|]. destruct (Z.ltb_spec r 65536); [lia|].
  subst r. bytes_eq.
Qed.

Lemma decode_rune_first c0 b r n : 0 <= c0 -> decode_rune (c0 :: b) = (Some r, n) ->
  (c0 < 128 /\ r = c0 /\ n = 1%nat) \/ (194 <= c0 /\ 128 <= r).
Proof.
  intros H0. unfold decode_rune, cont. destruct (Z.ltb_spec c0 128); [intros [= <- <-]; by left|].
  repeat case_match; intros [= <- <-]; right; lia.
Qed.

(** A rune is decoded from its own bytes, whatever follows. *)
Lemma decode_rune_take b r n tail : decode_rune b = (Some r, n) -> decode_rune (take n b ++ tail) = (Some r, n).
Proof.
  unfold decode_rune. destruct b as [|c0 b]; [done|].
  destruct (c0 <? 128) eqn:E0; [intros [= <- <-]; cbn; by rewrite E0|].
  case_goal.
  { destruct b as [|c1 b]; [done|]. case_goal; intros [= <- <-]. cbn. rewrite E0, E. cbn. by rewrite E1. }
  case_goal.
  { destruct b as [|c1 [|c2 b]]; [done..|]. case_goal; intros [= <- <-]. cbn. by rewrite E0, E, E1, E2. }
  case_goal; [|done].
  destruct b as [|c1 [|c2 [|c3 b]]]; [done..|]. case_goal; intros [= <- <-]. cbn. by rewrite E0, E, E1, E2, E3.
Qed.

(** The bytes a rune of a string is read back as: its own, or those of
    [RuneError]. *)
Definition rune_bytes (p : option Z * bytes) : bytes :=
  match p with (Some _, raw) => raw | (None, _) => encode_rune RuneError end.

Lemma get_u4_hex r tail : 0 <= r < 65536 -> get_u4 (hex_n 4 r ++ tail) = Some r.
Proof.
  intros Hr. unfold hex_n. cbn [seq map app get_u4]. rewrite !from_hex_digit by (apply Z.mod_pos_bound; lia).
  simpl. f_equal. change (16 ^ Z.of_nat 3) with 4096. change (16 ^ Z.of_nat 2) with 256.
  change (16 ^ Z.of_nat 1) with 16. change (16 ^ Z.of_nat 0) with 1.
  Z.div_mod_to_equations; lia.
Qed.

(** [json_string] writes a rune so that the scanner reads it back. *)
Lemma rune_read html b r n f tail : Forall is_byte b -> b <> [] -> decode_rune b = (r, n) ->
  str_body (S f) (json_rune html (r, take n b) ++ tail) = prepend (rune_bytes (r, take n b)) (str_body f tail).
Proof.
  intros HB Hne E. destruct r as [r|]; [|done].
  pose proof (encode_decode b r n E) as Er. destruct b as [|c0 b]; [done|].
  apply Forall_cons in HB as [H0 HB]. unfold is_byte in H0.
  unfold json_rune, rune_bytes.
  destruct (Z.eqb_spec r 34) as [->|N1]; [by rewrite <- Er|]. destruct (Z.eqb_spec r 92) as [->|N2]; [by rewrite <- Er|].
  destruct (Z.eqb_spec r 8) as [->|N3]; [by rewrite <- Er|]. destruct (Z.eqb_spec r 12) as [->|N4]; [by rewrite <- Er|].
  destruct (Z.eqb_spec r 10) as [->|N5]; [by rewrite <- Er|]. destruct (Z.eqb_spec r 13) as [->|N6]; [by rewrite <- Er|].
  destruct (Z.eqb_spec r 9) as [->|N7]; [by rewrite <- Er|].
  destruct (_ || (r =? 8233)) eqn:Eu.
  - assert (Hr : 0 <= r < 65536 /\ is_surrogate r = false).
    { unfold is_surrogate. pose proof (decode_rune_first c0 b r n ltac:(lia) E). b2p. lia. }
    destruct Hr as [Hr Hs]. rewrite <- app_assoc. cbn [bytes_of app].
    change (bytes_of "\u") with [92; 117]. cbn [app str_body]. simpl Z.eqb. cbv iota.
    rewrite get_u4_hex by done. cbn [mbind option_bind].
    change (drop 4 (hex_n 4 r ++ tail)) with tail. by rewrite Hs, <- Er.
  - b2p. pose proof (decode_rune_first c0 b r n ltac:(lia) E) as F.
    assert (Hc : c0 <> 34 /\ c0 <> 92 /\ 32 <= c0) by lia. destruct Hc as (Hc1 & Hc2 & Hc3).
    pose proof (decode_rune_take _ r n tail E) as Et. pose proof (decode_rune_width (c0 :: b) Hne) as W.
    rewrite E in W. destruct n as [|n]; [simpl in W; lia|]. cbn [take app str_body] in *.
    destruct (Z.eqb_spec c0 34); [done|]. destruct (Z.eqb_spec c0 92); [done|]. destruct (Z.ltb_spec c0 32); [lia|].
    rewrite Et. change (default RuneError (Some r)) with r. rewrite Er. f_equal. f_equal.
    change (c0 :: take n b ++ tail) with (take (S n) (c0 :: b) ++ tail).
    apply drop_app_length'. rewrite length_take. simpl in *. lia.
Qed.

(** What a string is read back as: bytes that are not UTF-8 become
    [RuneError]. *)
Definition to_valid (s : string) : string := string_of (flat_map rune_bytes (runes (bytes_of s))).

(** [utf8.ValidString]. *)
Definition valid_utf8 (s : string) : bool :=
  forallb (fun p => match p.1 with Some _ => true | None => false end) (runes (bytes_of s)).

Lemma Forall_take_drop {A} (P : A -> Prop) n l : Forall P l -> Forall P (take n l) /\ Forall P (drop n l).
Proof. intros H. by rewrite <- Forall_app, take_drop. Qed.

Lemma runes_read html fuel b f tail : Forall is_byte b -> (length b <= fuel)%nat ->
  (length (flat_map (json_rune html) (runes_fuel fuel b)) < f)%nat ->
  str_body f (flat_map (json_rune html) (runes_fuel fuel b) ++ 34 :: tail) =
  Some (flat_map rune_bytes (runes_fuel fuel b), tail).
Proof.
  revert b f. induction fuel as [|fuel IH]; intros b f HB Hl Hf.
  { destruct b; [|simpl in *; lia]. destruct f; [simpl in Hf; lia|done]. }
  destruct b as [|c b]; [destruct f; [simpl in Hf; lia|done]|]. cbn [runes_fuel] in *.
  destruct (decode_rune (c :: b)) as [r n] eqn:E. cbn [flat_map] in *.
  destruct f as [|f]; [lia|]. rewrite <- app_assoc, (rune_read html (c :: b)) by done.
  pose proof (decode_rune_width (c :: b) ltac:(done)) as W. rewrite E in W. cbn [snd] in W.
  rewrite IH; [done|by apply Forall_take_drop|rewrite length_drop; lia|].
  rewrite length_app in Hf.
  assert (1 <= length (json_rune html (r, take n (c :: b))))%nat; [|lia].
  unfold json_rune. repeat case_match; simplify_eq/=; rewrite ?length_app; simpl; try lia.
  destruct n; simpl; lia.
Qed.

Lemma json_string_read html s tail :
  exists b, json_string html s = 34 :: b /\ str (b ++ tail) = Some (bytes_of (to_valid s), tail).
Proof.
  eexists. split; [done|]. unfold str. cbn [app]. rewrite <- app_assoc. cbn [app].
  unfold runes. rewrite runes_read; [|by apply bytes_of_bytes|done|rewrite !length_app; simpl; lia].
  unfold to_valid, runes. rewrite bytes_of_string_of; [done|].
  generalize (length (bytes_of s)). intros n. assert (HB := bytes_of_bytes s). revert HB. generalize (bytes_of s).
  induction n as [|n IH]; intros b HB; [constructor|]. destruct b as [|c b]; [constructor|]. cbn [runes_fuel].
  destruct (decode_rune (c :: b)) as [r k]. cbn [flat_map]. apply Forall_app. split; [|by apply IH, Forall_take_drop].
  destruct r; [by apply Forall_take_drop|]. repeat (constructor; [done|]). constructor.
Qed.

Lemma runes_valid n b : (length b <= n)%nat ->
  forallb (fun p => match p.1 with Some _ => true | None => false end) (runes_fuel n b) = true ->
  flat_map rune_bytes (runes_fuel n b) = b.
Proof.
  revert b. induction n as [|n IH]; intros b Hl H; [by destruct b; [|simpl in Hl; lia]|].
  destruct b as [|c b]; [done|]. cbn [runes_fuel] in *.
  pose proof (decode_rune_width (c :: b) ltac:(done)) as W.
  destruct (decode_rune (c :: b)) as [[r|] k] eqn:E; [|done]. cbn [flat_map forallb fst snd rune_bytes] in *.
  rewrite IH; [apply take_drop|rewrite length_drop; lia|by b2p].
Qed.

Lemma to_valid_id s : valid_utf8 s = true -> to_valid s = s.
Proof. intros H. unfold to_valid, runes. rewrite runes_valid by done. apply string_of_bytes_of. Qed.

(** ASCII is UTF-8. *)
Lemma ascii_valid s : forallb (fun c => c <? 128) (bytes_of s) = true -> valid_utf8 s = true.
Proof.
  unfold valid_utf8, runes. generalize (length (bytes_of s)). intros n. generalize (bytes_of s).
  induction n as [|n IH]; intros b H; [done|]. destruct b as [|c b]; [done|]. cbn [runes_fuel decode_rune forallb] in *.
  b2p. replace (c <? 128) with true by lia. simpl. by apply IH.
Qed.

(** * Numbers *)

(** The number a run of digits spells. *)
Definition digits_val (d : bytes) : Z := foldl (fun n c => n * 10 + (c - 48)) 0 d.

(** [strconv.ParseUint] and [strconv.ParseInt], base 10, on the text of a
    number: a fraction or an exponent is an error. *)
Definition parse_uint (t : bytes) : option Z :=
  match digits1 t with Some (d, []) => Some (digits_val d) | _ => None end.
Definition parse_int (t : bytes) : option Z :=
  match t with
  | c :: t' => if c =? 45 then Z.opp <$> parse_uint t' else parse_uint t
  | [] => None
  end.

(** What may follow a number in a document. *)
Definition ends_number (b : bytes) : bool :=
  match b with
  | c :: _ => negb (is_digit c || (c =? 46) || (c =? 101) || (c =? 69))
  | [] => true
  end.

Lemma digits_read d b : forallb is_digit d = true -> ends_number b = true -> digits (d ++ b) = (d, b).
Proof.
  intros Hd Hb. induction d as [|c d IH]; cbn in *.
  - destruct b as [|c b]; [done|]. cbn in *. destruct (is_digit c); [done|]. done.
  - b2p. rewrite H. by rewrite IH.
Qed.

Lemma pretty_char m : (m < 10)%N -> Z.of_N (Ascii.N_of_ascii (pretty_N_char m)) = 48 + Z.of_N m.
Proof.
  intros H. assert (F : Forall (fun i => Z.of_N (Ascii.N_of_ascii (pretty_N_char (N.of_nat i))) = 48 + Z.of_nat i) (seq 0 10))
    by (repeat (constructor; [done|]); constructor).
  rewrite Forall_forall in F. specialize (F (N.to_nat m)). rewrite N2Nat.id in F.
  rewrite F; [lia|]. apply elem_of_seq. lia.
Qed.

Lemma pretty_go_digits x s : exists d, bytes_of (pretty_N_go x s) = d ++ bytes_of s /\
  forallb is_digit d = true /\ digits_val d = Z.of_N x /\
  match d with [] => x = 0%N | c :: _ => c <> 48 end.
Proof.
  revert s. induction (N.lt_wf_0 x) as [x _ IH]; intros s. destruct (decide (x = 0%N)) as [->|Hx].
  { by exists []. }
  rewrite pretty_N_go_step by lia.
  destruct (IH (x / 10)%N ltac:(apply N.div_lt; lia) (String (pretty_N_char (x mod 10)) s)) as (d & E & Hd & Hv & H0).
  set (c := Z.of_N (Ascii.N_of_ascii (pretty_N_char (x mod 10)))).
  assert (Hc : c = 48 + Z.of_N (x mod 10)) by (apply pretty_char, N.mod_lt; done).
  exists (d ++ [c]). split_and!.
  - by rewrite E, <- app_assoc.
  - rewrite forallb_app, Hd. cbn. unfold is_digit. assert (Hm : (x mod 10 < 10)%N) by (by apply N.mod_lt). clearbody c. rewrite Hc. revert Hm. generalize (x mod 10)%N. lia.
  - unfold digits_val in *. rewrite foldl_app, Hv. cbn. rewrite Hc. clear -x. pose proof (N.div_mod' x 10) as Hm.
    revert Hm. generalize (x / 10)%N (x mod 10)%N. lia.
  - destruct d as [|c' d]; [|done]. cbn. rewrite Hc. pose proof (N.div_mod' x 10) as Hm. rewrite H0 in Hm. clearbody c. revert Hm Hx.
    generalize (x mod 10)%N. lia.
Qed.

Lemma pretty_digits (x : positive) : exists c d, bytes_of (pretty (N.pos x)) = c :: d /\ c <> 48 /\
  forallb is_digit (c :: d) = true /\ digits_val (c :: d) = Z.pos x.
Proof.
  destruct (pretty_go_digits (N.pos x) "") as (d & E & Hd & Hv & H0). destruct d as [|c d]; [done|].
  exists c, d. rewrite app_nil_r in E. split_and!; try done.
Qed.

Lemma ends_no_tail b : ends_number b = true -> fraction b = Some ([], b) /\ exponent b = Some ([], b).
Proof.
  destruct b as [|c b]; [done|]. cbn. intros H. apply negb_true_iff in H.
  by destruct (is_digit c), (c =? 46), (c =? 101), (c =? 69).
Qed.

Lemma digits1_read c d b : forallb is_digit (c :: d) = true -> ends_number b = true -> digits1 (c :: d ++ b) = Some (c :: d, b).
Proof. intros Hd Hb. unfold digits1. change (c :: d ++ b) with ((c :: d) ++ b). by rewrite digits_read. Qed.

Lemma bytes_of_neg s : bytes_of ("-" +:+ s) = 45 :: bytes_of s.
Proof. done. Qed.

Lemma number_read z b : ends_number b = true ->
  number (bytes_of (itoa z) ++ b) = Some (bytes_of (itoa z), b).
Proof.
  intros Hb. destruct (ends_no_tail b Hb) as [F E]. unfold itoa, pretty, pretty_Z.
  assert (P : forall x : positive, exists c d, bytes_of (pretty x) = c :: d /\ (c =? 45) = false /\
    forall b', b' = b -> integer (c :: d ++ b') = Some (c :: d, b)).
  { intros x. destruct (pretty_digits x) as (c & d & Ex & H0 & Hd & _). exists c, d. split; [done|].
    assert (is_digit c = true) by (cbn in Hd; by b2p). split; [unfold is_digit in *; lia|].
    intros b' ->. unfold integer. destruct (Z.eqb_spec c 48); [done|]. by apply digits1_read. }
  destruct z as [|x|x].
  - change (number (48 :: b) = Some ([48], b)). unfold number. change (48 =? 45) with false. cbv iota beta zeta.
    change (integer (48 :: b)) with (Some ([48], b)). cbn [mbind option_bind]. rewrite F. cbn [mbind option_bind].
    by rewrite E.
  - destruct (P x) as (c & d & -> & H0 & H). unfold number. cbn [app]. rewrite H0, H by done. cbn [mbind option_bind].
    rewrite F. cbn [mbind option_bind]. rewrite E. cbn. by rewrite app_nil_r.
  - destruct (P x) as (c & d & Ex & H0 & H). rewrite bytes_of_neg, Ex. unfold number. cbn [app].
    change (45 =? 45) with true. cbv iota. rewrite H by done.
    cbn [mbind option_bind]. rewrite F. cbn [mbind option_bind]. rewrite E. cbn. by rewrite app_nil_r.
Qed.

Lemma parse_uint_itoa z : 0 <= z -> parse_uint (bytes_of (itoa z)) = Some z.
Proof.
  intros Hz. destruct z as [|x|x]; [done| |lia]. destruct (pretty_digits x) as (c & d & E & _ & Hd & Hv).
  unfold parse_uint, itoa, pretty, pretty_Z, pretty, pretty_positive. rewrite E.
  rewrite <- (app_nil_r d), digits1_read by done. by rewrite Hv.
Qed.

Lemma parse_int_itoa z : parse_int (bytes_of (itoa z)) = Some z.
Proof.
  destruct z as [|x|x]; [done| |].
  - pose proof (parse_uint_itoa (Z.pos x) ltac:(lia)) as H. destruct (pretty_digits x) as (c & d & E & _ & Hd & Hv).
    change (itoa (Z.pos x)) with (pretty (N.pos x)) in *. rewrite E in H |- *. cbn in Hd. b2p.
    cbn [parse_int]. unfold is_digit in *. by replace (c =? 45) with false by lia.
  - pose proof (parse_uint_itoa (Z.pos x) ltac:(lia)) as H. 
    change (itoa (Z.neg x)) with ("-" +:+ itoa (Z.pos x)). rewrite bytes_of_neg. cbn [parse_int]. change (45 =? 45) with true. cbv iota. by rewrite H.
Qed.

(** * What is printed is read back *)

(** How a printed value reads. *)
Fixpoint val_of (j : json) : jval :=
  match j with
  | JNull => VNull
  | JBool b => VBool b
  | JNum z => VNum (bytes_of (itoa z))
  | JStr s => VStr (to_valid s)
  | JArr l => VArr (map val_of l)
  | JObj l => VObj (map (fun '(k, v) => (to_valid k, val_of v)) l)
  end.

Fixpoint jdepth (j : json) : Z :=
  match j with
  | JArr l => 1 + foldr Z.max 0 (map jdepth l)
  | JObj l => 1 + foldr Z.max 0 (map (fun p => jdepth p.2) l)
  | _ => 0
  end.

Section JsonInd.
Context (P : json -> Prop) (Pnull : P JNull) (Pbool : forall b, P (JBool b)) (Pnum : forall z, P (JNum z))
  (Pstr : forall s, P (JStr s)) (Parr : forall l, Forall P l -> P (JArr l))
  (Pobj : forall l, Forall (fun p => P p.2) l -> P (JObj l)).

Fixpoint json_rect' (j : json) : P j :=
  match j with
  | JNull => Pnull
  | JBool b => Pbool b
  | JNum z => Pnum z
  | JStr s => Pstr s
  | JArr l => Parr l ((fix go l : Forall P l :=
      match l with [] => Forall_nil_2 _ | x :: l' => Forall_cons_2 _ _ _ (json_rect' x) (go l') end) l)
  | JObj l => Pobj l ((fix go l : Forall (fun p => P p.2) l :=
      match l with [] => Forall_nil_2 _ | x :: l' => Forall_cons_2 _ _ _ (json_rect' x.2) (go l') end) l)
  end.
End JsonInd.

(** The first byte of a printed value. *)
Lemma print_head html j : exists c r, json_print html j = c :: r /\ is_space c = false /\ c <> 93 /\ c <> 125.
Proof.
  destruct j as [[]|z|s| |l|l]; try (by eexists _, _).
  cbn [json_print]. destruct z as [|x|x]; [by eexists _, _| |by eexists _, _].
  destruct (pretty_digits x) as (c & d & E & _ & Hd & _). exists c, d. split; [exact E|].
  cbn in Hd. b2p. unfold is_digit, is_space in *. lia.
Qed.

Lemma skip_head c b : is_space c = false -> skip (c :: b) = c :: b.
Proof. intros H. cbn. by rewrite H. Qed.

Lemma commas_cons x l : commas (x :: l) = x ++ match l with [] => [] | _ => [44] ++ commas l end.
Proof. destruct l; [by rewrite app_nil_r|done]. Qed.

Lemma foldr_max_nonneg l : 0 <= foldr Z.max 0 l.
Proof. induction l; simpl; lia. Qed.

(** The rest of a list, from one of its elements on. *)
Lemma elements_print html l : l <> [] ->
  Forall (fun j => forall f d tail, jdepth j + d <= maxNestingDepth -> ends_number tail = true ->
    (length (json_print html j) < f)%nat -> value f d (json_print html j ++ tail) = Some (val_of j, tail)) l ->
  forall f d tail, foldr Z.max 0 (map jdepth l) + d <= maxNestingDepth ->
    (length (commas (map (json_print html) l)) + 1 < f)%nat ->
    elements f d (commas (map (json_print html) l) ++ 93 :: tail) = Some (map val_of l, tail).
Proof.
  intros Hne. induction 1 as [|j l Hj Hl IH]; [done|]. intros f d tail Hd Hf. destruct f as [|f]; [lia|].
  cbn [map] in *. rewrite commas_cons in Hf |- *. rewrite length_app in Hf. cbn [foldr] in Hd.
  cbn [elements]. rewrite <- app_assoc. destruct l as [|j2 l].
  - cbn [map app] in *. rewrite Hj by (done || lia). done.
  - cbn [map] in *. rewrite length_app in Hf. cbn [length] in Hf.
    rewrite <- app_assoc. cbn [app]. rewrite Hj by (done || lia). cbn [mbind option_bind skip].
    change (is_space 44) with false. cbv iota. change (44 =? 44) with true. cbv iota.
    rewrite IH by (done || lia). done.
Qed.

Definition print_member (html : bool) (p : string * json) : bytes :=
  json_string html p.1 ++ [58] ++ json_print html p.2.

Lemma members_print html l : l <> [] ->
  Forall (fun p => forall f d tail, jdepth p.2 + d <= maxNestingDepth -> ends_number tail = true ->
    (length (json_print html p.2) < f)%nat -> value f d (json_print html p.2 ++ tail) = Some (val_of p.2, tail)) l ->
  forall f d tail, foldr Z.max 0 (map (fun p => jdepth p.2) l) + d <= maxNestingDepth ->
    (length (commas (map (print_member html) l)) + 1 < f)%nat ->
    members f d (commas (map (print_member html) l) ++ 125 :: tail) =
      Some (map (fun '(k, v) => (to_valid k, val_of v)) l, tail).
Proof.
  intros Hne. induction 1 as [|[k j] l Hj Hl IH]; [done|]. intros f d tail Hd Hf. destruct f as [|f]; [lia|].
  cbn [map snd fst] in *. rewrite commas_cons in Hf |- *. rewrite length_app in Hf. cbn [foldr] in Hd.
  unfold print_member at 1 in Hf. unfold print_member at 1. cbn [fst snd] in *. rewrite <- !app_assoc.
  destruct (json_string_read html k ([58] ++ json_print html j ++ match map (print_member html) l with [] => [] | _ => [44] ++ commas (map (print_member html) l) end ++ 125 :: tail)) as (s & Es & Hs).
  rewrite Es. cbn [members app skip]. change (is_space 34) with false. cbv iota. change (negb (34 =? 34)) with false. cbv iota.
  cbn [app] in Hs. rewrite Hs. cbn [mbind option_bind skip]. change (is_space 58) with false. cbv iota.
  change (negb (58 =? 58)) with false. cbv iota. rewrite Es in Hf. rewrite string_of_bytes_of.
  rewrite !length_app in Hf. cbn [length] in Hf. destruct l as [|p l].
  - cbn [map app] in *. rewrite Hj by (done || lia). done.
  - cbn [map] in *. rewrite length_app in Hf. cbn [length] in Hf.
    cbn [app]. rewrite Hj by (done || lia). cbn [mbind option_bind skip].
    change (is_space 44) with false. cbv iota. change (44 =? 44) with true. cbv iota.
    rewrite IH by (done || lia). done.
Qed.

Lemma value_print html j : forall f d tail, jdepth j + d <= maxNestingDepth -> ends_number tail = true ->
  (length (json_print html j) < f)%nat -> value f d (json_print html j ++ tail) = Some (val_of j, tail).
Proof.
  induction j as [|b|z|s|l IH|l IH] using json_rect'; intros f d tail Hd Ht Hf; (destruct f as [|f]; [lia|]).
  - done.
  - by destruct b.
  - destruct (print_head html (JNum z)) as (c & r & E & Hsp & _). cbn [json_print] in *.
    pose proof (number_read z tail Ht) as N. rewrite E in N |- *. cbn [app value] in *. rewrite skip_head by done.
    assert (Hc : c = 45 \/ 48 <= c <= 57).
    { destruct z as [|x|x]; [injection E; lia| |injection E; lia].
      destruct (pretty_digits x) as (c' & d' & E' & _ & H & _). change (itoa (Z.pos x)) with (pretty (N.pos x)) in E.
      rewrite E' in E. injection E as -> ->. cbn in H. b2p. unfold is_digit in *. lia. }
    do 6 (match goal with |- context [?x =? ?y] => destruct (Z.eqb_spec x y); [lia|] end).
    rewrite N. cbn [mbind option_bind]. cbn [val_of]. by rewrite E.
  - destruct (json_string_read html s tail) as (b & E & Hs). cbn [json_print]. rewrite E. cbn [app value].
    rewrite skip_head by done. change (34 =? 123) with false. change (34 =? 91) with false. change (34 =? 34) with true.
    cbv iota. rewrite Hs. cbn [mbind option_bind val_of]. by rewrite string_of_bytes_of.
  - cbn [json_print jdepth] in *. cbn [app value]. rewrite skip_head by done.
    change (91 =? 123) with false. change (91 =? 91) with true. cbv iota.
    destruct (Z.leb_spec maxNestingDepth d). { pose proof (foldr_max_nonneg (map jdepth l)). lia. }
    destruct l as [|j l]; [done|]. rewrite <- app_assoc. cbn [app].
    destruct (print_head html j) as (c & r & E & Hsp & H1 & _).
    assert (Eh : exists r', commas (map (json_print html) (j :: l)) ++ 93 :: tail = c :: r').
    { cbn [map]. rewrite commas_cons, E. by eexists. }
    destruct Eh as [r' Eh]. rewrite Eh, skip_head by done. destruct (Z.eqb_spec c 93); [done|]. rewrite <- Eh.
    rewrite elements_print; [done|done|done|lia|]. rewrite !length_app in Hf. cbn [length] in Hf. lia.
  - cbn [json_print jdepth] in *. cbn [app value]. rewrite skip_head by done.
    change (123 =? 123) with true. cbv iota.
    destruct (Z.leb_spec maxNestingDepth d). { pose proof (foldr_max_nonneg (map (fun p => jdepth p.2) l)). lia. }
    destruct l as [|p l]; [done|]. rewrite <- app_assoc. cbn [app].
    assert (Em : map (fun '(k, v) => json_string html k ++ [58] ++ json_print html v) (p :: l) = map (print_member html) (p :: l))
      by (apply map_ext; by intros []).
    rewrite Em in Hf. cbn [app] in Em. rewrite Em. clear Em.
    assert (Eh : exists r', commas (map (print_member html) (p :: l)) ++ 125 :: tail = 34 :: r').
    { cbn [map]. rewrite commas_cons. by eexists. }
    destruct Eh as [r' Eh]. rewrite Eh, skip_head by done. change (34 =? 125) with false. cbv iota. rewrite <- Eh.
    rewrite members_print; [done|done|done|lia|]. rewrite !length_app in Hf. cbn [length] in Hf. lia.
Qed.

(** [DecodeStrict] reads back whatever [json.Marshal] writes. *)
Lemma DecodeStrict_marshal html j : jdepth j <= maxNestingDepth -> DecodeStrict (json_print html j) = Some (val_of j).
Proof.
  intros Hd. unfold DecodeStrict, parse_value. rewrite <- (app_nil_r (json_print html j)) at 2.
  rewrite value_print by (done || lia). done.
Qed.

(** * The fuel does not matter *)

Lemma prepend_Some x m s r : prepend x m = Some (s, r) -> exists s', m = Some (s', r) /\ s = x ++ s'.
Proof. unfold prepend. destruct m as [[s' r']|]; [|done]. intros [= <- <-]. eauto. Qed.

Lemma str_body_rest f b s r : str_body f b = Some (s, r) -> (length r < length b)%nat.
Proof.
  revert b s r. induction f as [|f IH]; intros b s r; [done|]. destruct b as [|c b]; [done|]. cbn [str_body].
  destruct (c =? 34); [intros [= <- <-]; simpl; lia|]. destruct (c =? 92).
  - destruct b as [|e b]; [done|]. destruct (e =? 117).
    + destruct (get_u4 b) as [u|]; [|done]. cbn [mbind option_bind].
      assert (L : forall n m, (length (drop n (drop m b)) <= length b)%nat) by (intros; rewrite !length_drop; lia).
      destruct (is_surrogate u); [destruct (second_half _ _)|]; intros (s' & H & _)%prepend_Some; apply IH in H; simpl in *.
      * specialize (L 6%nat 4%nat). simpl in L. lia.
      * rewrite length_drop in H. lia.
      * rewrite length_drop in H. lia.
    + destruct (escape e); [|done]. intros (s' & H & _)%prepend_Some. apply IH in H. simpl in *. lia.
  - destruct (c <? 32); [done|]. destruct (decode_rune (c :: b)) as [u n] eqn:E.
    intros (s' & H & _)%prepend_Some. apply IH in H.
    pose proof (decode_rune_width (c :: b) ltac:(done)) as W. rewrite E in W. rewrite length_drop in H. cbn [snd] in W. lia.
Qed.

Lemma skip_length b : (length (skip b) <= length b)%nat.
Proof. induction b as [|c b IH]; simpl; [done|]. destruct (is_space c); simpl; lia. Qed.

Lemma digits_rest b : (length (digits b).2 <= length b)%nat.
Proof. induction b as [|c b IH]; simpl; [done|]. destruct (is_digit c); [destruct (digits b); simpl in *; lia|simpl; lia]. Qed.

Lemma digits1_rest b d r : digits1 b = Some (d, r) -> (length r < length b)%nat.
Proof.
  unfold digits1. destruct b as [|c b]; [done|]. cbn. pose proof (digits_rest b).
  destruct (is_digit c); [|done]. destruct (digits b). intros [= <- <-]. simpl in *. lia.
Qed.

Lemma fraction_rest b d r : fraction b = Some (d, r) -> (length r <= length b)%nat.
Proof.
  destruct b as [|c b]; cbn; [by intros [= <- <-]|]. destruct (c =? 46); [|by intros [= <- <-]].
  intros (s' & H%digits1_rest & _)%prepend_Some. lia.
Qed.

Lemma exponent_rest b d r : exponent b = Some (d, r) -> (length r <= length b)%nat.
Proof.
  destruct b as [|c b]; cbn; [by intros [= <- <-]|]. destruct ((c =? 101) || (c =? 69)); [|by intros [= <- <-]].
  destruct b as [|s b]; [done|]. destruct ((s =? 43) || (s =? 45));
    intros (s' & H%digits1_rest & _)%prepend_Some; simpl in *; lia.
Qed.

Lemma number_rest b t r : number b = Some (t, r) -> (length r < length b)%nat.
Proof.
  unfold number. intros H.
  assert (S : exists sg b', (match b with c :: b' => if c =? 45 then ([45], b') else ([], b) | [] => ([], []) end) = (sg, b')
    /\ (length b' <= length b)%nat).
  { destruct b as [|c b']; [by exists [], []|]. destruct (c =? 45); eexists _, _; (split; [done|simpl; lia]). }
  destruct S as (sg & b' & Es & Hl). rewrite Es in H. clear Es.
  destruct (integer b') as [[i b1]|] eqn:E1; [cbn [mbind option_bind] in H|done].
  destruct (fraction b1) as [[fr b2]|] eqn:E2; [cbn [mbind option_bind] in H|done].
  destruct (exponent b2) as [[e b3]|] eqn:E3; [cbn [mbind option_bind] in H|done].
  injection H as _ <-. apply fraction_rest in E2. apply exponent_rest in E3.
  assert (length b1 < length b')%nat; [|lia]. unfold integer in E1. destruct b' as [|c b']; [done|].
  destruct (c =? 48); [injection E1 as _ <-; simpl; lia|by apply digits1_rest in E1].
Qed.

Lemma literal_rest w b r : literal w b = Some r -> (length r <= length b)%nat.
Proof.
  revert b. induction w as [|c w IH]; intros b; simpl; [by intros [= <-]|]. destruct b as [|d b]; [done|].
  destruct (c =? d); [|done]. intros H%IH. simpl. lia.
Qed.

(** Case analysis on the next thing a parser reads. *)
Ltac parser_case :=
  match goal with
  | |- context [match skip ?b with _ => _ end] =>
      let L := fresh "L" in pose proof (skip_length b) as L; destruct (skip b) as [|? ?]; [done|]; cbn [length] in L
  | |- context [if ?b then _ else _] => destruct b; try done
  end.

Lemma str_rest b s r : str b = Some (s, r) -> (length r < length b)%nat.
Proof. apply str_body_rest. Qed.

Lemma parser_rest f :
  (forall d b v r, value f d b = Some (v, r) -> (length r < length b)%nat) /\
  (forall d b l r, elements f d b = Some (l, r) -> (length r < length b)%nat) /\
  (forall d b l r, members f d b = Some (l, r) -> (length r < length b)%nat).
Proof.
  induction f as [|f (IHv & IHe & IHm)]; [done|]. split_and!; intros d b v r.
  - cbn [value]. pose proof (skip_length b) as L. destruct (skip b) as [|c b1]; [done|]. cbn [length] in L.
    destruct (c =? 123); [|destruct (c =? 91); [|destruct (c =? 34); [|destruct (c =? 116); [|destruct (c =? 102); [|destruct (c =? 110)]]]]].
    + repeat parser_case; [intros [= <- <-]; lia|].
      destruct (members f (d + 1) b1) as [[l' r']|] eqn:E; [|done]. intros [= <- <-]. apply IHm in E. lia.
    + repeat parser_case; [intros [= <- <-]; lia|].
      destruct (elements f (d + 1) b1) as [[l' r']|] eqn:E; [|done]. intros [= <- <-]. apply IHe in E. lia.
    + destruct (str b1) as [[s r']|] eqn:E; [|done]. intros [= <- <-]. apply str_rest in E. lia.
    + destruct (literal _ b1) eqn:E; [|done]. intros [= <- <-]. apply literal_rest in E. lia.
    + destruct (literal _ b1) eqn:E; [|done]. intros [= <- <-]. apply literal_rest in E. lia.
    + destruct (literal _ b1) eqn:E; [|done]. intros [= <- <-]. apply literal_rest in E. lia.
    + destruct (number (c :: b1)) as [[t r']|] eqn:E; [|done]. intros [= <- <-]. apply number_rest in E. simpl in E. lia.
  - cbn [elements]. destruct (value f d b) as [[v' r']|] eqn:E; [|done]. apply IHv in E. cbn [mbind option_bind].
    repeat parser_case; [|intros [= <- <-]; lia].
    destruct (elements f d l) as [[l' r2]|] eqn:E2; [|done]. intros [= <- <-]. apply IHe in E2. lia.
  - cbn [members]. parser_case. parser_case. destruct (str l) as [[k r']|] eqn:Es; [|done]. apply str_rest in Es.
    cbn [mbind option_bind]. parser_case. parser_case.
    destruct (value f d l0) as [[v' r2]|] eqn:E; [|done]. apply IHv in E. cbn [mbind option_bind].
    repeat parser_case; [|intros [= <- <-]; lia].
    destruct (members f d l1) as [[l' r3]|] eqn:E2; [|done]. intros [= <- <-]. apply IHm in E2. lia.
Qed.

Lemma parser_fuel f :
  (forall g d b, (2 * length b < f)%nat -> (2 * length b < g)%nat -> value f d b = value g d b) /\
  (forall g d b, (2 * length b + 1 < f)%nat -> (2 * length b + 1 < g)%nat -> elements f d b = elements g d b) /\
  (forall g d b, (2 * length b + 1 < f)%nat -> (2 * length b + 1 < g)%nat -> members f d b = members g d b).
Proof.
  induction f as [|f (IHv & IHe & IHm)]; [split_and!; intros; lia|].
  split_and!; intros [|g] d b Hf Hg; try lia.
  - cbn [value]. pose proof (skip_length b) as L. destruct (skip b) as [|c b1]; [done|]. cbn [length] in L.
    by rewrite (IHe g), (IHm g) by lia.
  - cbn [elements]. rewrite (IHv g) by lia. destruct (value g d b) as [[v r]|] eqn:E; [|done].
    apply parser_rest in E. cbn [mbind option_bind]. pose proof (skip_length r) as L.
    destruct (skip r) as [|c r']; [done|]. cbn [length] in L. by rewrite (IHe g) by lia.
  - cbn [members]. pose proof (skip_length b) as L. destruct (skip b) as [|c b1]; [done|]. cbn [length] in L.
    destruct (negb (c =? 34)); [done|]. destruct (str b1) as [[k r]|] eqn:Es; [|done]. apply str_rest in Es.
    cbn [mbind option_bind]. pose proof (skip_length r) as L2. destruct (skip r) as [|c2 r2]; [done|]. cbn [length] in L2.
    destruct (negb (c2 =? 58)); [done|]. rewrite (IHv g) by lia. destruct (value g d r2) as [[v r3]|] eqn:E; [|done].
    apply parser_rest in E. cbn [mbind option_bind]. pose proof (skip_length r3) as L3.
    destruct (skip r3) as [|c4 r4]; [done|]. cbn [length] in L3. by rewrite (IHm g) by lia.
Qed.

(** More fuel than [parse_value] gives changes nothing: [None] is a syntax
    error. *)
Lemma value_fuel f b : (2 * length b < f)%nat -> value f 0 b = parse_value b.
Proof. intros H. apply parser_fuel; lia. Qed.

(** * The strings that are read are UTF-8 *)

(** A Unicode scalar value. *)
Definition scalar (r : Z) : Prop := 0 <= r < 1114112 /\ is_surrogate r = false.

Lemma decode_scalar c b r n : 0 <= c -> decode_rune (c :: b) = (Some r, n) -> scalar r.
Proof.
  intros Hc. unfold decode_rune, cont, scalar, is_surrogate.
  repeat case_match; intros [= <- <-]; b2p; try lia.
Qed.

Lemma encode_bytes r : scalar r -> Forall is_byte (encode_rune r).
Proof.
  unfold scalar, encode_rune, is_surrogate. intros [H _].
  repeat case_goal; b2p; repeat (constructor; [unfold is_byte; Z.div_mod_to_equations; lia|]); constructor.
Qed.

Lemma decode_encode r : scalar r -> decode_rune (encode_rune r) = (Some r, length (encode_rune r)).
Proof.
  unfold scalar, encode_rune, is_surrogate. intros [H S].
  destruct (Z.ltb_spec r 128) as [L1|L1]; [cbn; by destruct (Z.ltb_spec r 128); [|lia]|].
  destruct (Z.ltb_spec r 2048) as [L2|L2].
  { cbn. replace (192 + r / 64 <? 128) with false by (Z.div_mod_to_equations; lia).
    replace ((194 <=? 192 + r / 64) && (192 + r / 64 <=? 223)) with true by (Z.div_mod_to_equations; lia).
    unfold cont. replace ((128 <=? 128 + r mod 64) && (128 + r mod 64 <=? 191)) with true by (Z.div_mod_to_equations; lia).
    do 2 f_equal. Z.div_mod_to_equations; lia. }
  destruct (Z.ltb_spec r 65536) as [L3|L3].
  { cbn. replace (224 + r / 4096 <? 128) with false by (Z.div_mod_to_equations; lia).
    replace ((194 <=? 224 + r / 4096) && (224 + r / 4096 <=? 223)) with false by (Z.div_mod_to_equations; lia).
    replace ((224 <=? 224 + r / 4096) && (224 + r / 4096 <=? 239)) with true by (Z.div_mod_to_equations; lia).
    set (c := _ && _ && _ && _). assert (c = true) as ->.
    { subst c. unfold cont. b2p. Z.div_mod_to_equations; lia. }
    do 2 f_equal. Z.div_mod_to_equations; lia. }
  cbn. replace (240 + r / 262144 <? 128) with false by (Z.div_mod_to_equations; lia).
  replace ((194 <=? 240 + r / 262144) && (240 + r / 262144 <=? 223)) with false by (Z.div_mod_to_equations; lia).
  replace ((224 <=? 240 + r / 262144) && (240 + r / 262144 <=? 239)) with false by (Z.div_mod_to_equations; lia).
  replace ((240 <=? 240 + r / 262144) && (240 + r / 262144 <=? 244)) with true by (Z.div_mod_to_equations; lia).
  set (c := _ && _ && _ && _ && _). assert (c = true) as ->.
  { subst c. unfold cont. Z.div_mod_to_equations; lia. }
  do 2 f_equal. Z.div_mod_to_equations; lia.
Qed.

Lemma encode_nonempty r : encode_rune r <> [].
Proof. unfold encode_rune. by repeat case_goal. Qed.

(** Bytes that spell scalar values. *)
Definition spelled (b : bytes) : Prop := exists rs, Forall scalar rs /\ b = flat_map encode_rune rs.

Lemma spelled_cons r b : scalar r -> spelled b -> spelled (encode_rune r ++ b).
Proof. intros Hr (rs & Hrs & ->). exists (r :: rs). split; [by constructor|done]. Qed.

Lemma spelled_bytes b : spelled b -> Forall is_byte b.
Proof.
  intros (rs & Hrs & ->). induction Hrs; simpl; [done|]. apply Forall_app. by split; [apply encode_bytes|].
Qed.

Lemma spelled_valid b : spelled b -> valid_utf8 (string_of b) = true.
Proof.
  intros H. unfold valid_utf8. rewrite bytes_of_string_of by by apply spelled_bytes. unfold runes.
  destruct H as (rs & Hrs & ->). generalize (length (flat_map encode_rune rs)). intros n.
  revert n. induction Hrs as [|r rs Hr _ IH]; intros n; [by destruct n|]. destruct n as [|n]; [done|].
  cbn [flat_map]. pose proof (decode_rune_take _ _ _ (flat_map encode_rune rs) (decode_encode r Hr)) as E.
  rewrite firstn_all in E. pose proof (encode_nonempty r) as N.
  destruct (encode_rune r) as [|c e] eqn:Ec; [done|]. cbn [runes_fuel app] in *. rewrite E. cbn [forallb fst].
  change (c :: e ++ flat_map encode_rune rs) with ((c :: e) ++ flat_map encode_rune rs).
  rewrite drop_app_length. apply IH.
Qed.

Lemma scalar_ascii c : 0 <= c < 128 -> scalar c /\ encode_rune c = [c].
Proof. intros H. unfold scalar, is_surrogate, encode_rune. destruct (Z.ltb_spec c 128); [|lia]. split; [|done]. lia. Qed.

Lemma from_hex_char_range c d : from_hex_char c = Some d -> 0 <= d < 16.
Proof. unfold from_hex_char. repeat case_goal; intros [= <-]; b2p; lia. Qed.

Lemma get_u4_range b r : get_u4 b = Some r -> 0 <= r < 65536.
Proof.
  unfold get_u4. destruct b as [|c1 [|c2 [|c3 [|c4 b]]]]; try done.
  destruct (from_hex_char c1) eqn:E1; [|done]. destruct (from_hex_char c2) eqn:E2; [|done].
  destruct (from_hex_char c3) eqn:E3; [|done]. destruct (from_hex_char c4) eqn:E4; [|done].
  intros [= <-]. apply from_hex_char_range in E1, E2, E3, E4. lia.
Qed.

Lemma second_half_scalar r b r' : second_half r b = Some r' -> scalar r'.
Proof.
  unfold second_half. destruct b as [|c [|u b]]; try done. destruct (_ && _); [|done].
  destruct (get_u4 b) as [r2|]; [|done]. cbn [mbind option_bind]. unfold surrogate_pair, scalar, is_surrogate.
  case_goal; [|done]. intros [= <-]. b2p. lia.
Qed.

Lemma escape_ascii e x : escape e = Some x -> 0 <= x < 128.
Proof. unfold escape. repeat case_goal; intros [= <-]; b2p; lia. Qed.

Lemma str_body_spelled f b s r : str_body f b = Some (s, r) -> spelled s.
Proof.
  assert (S : forall rr m, scalar rr -> (forall s r, m = Some (s, r) -> spelled s) ->
    forall s r, prepend (encode_rune rr) m = Some (s, r) -> spelled s).
  { intros rr m Hr Hm s' r' (s2 & E & ->)%prepend_Some. apply spelled_cons; [done|]. by eapply Hm. }
  assert (Serr : scalar RuneError) by done.
  revert b s r. induction f as [|f IH]; intros b s r; [done|]. destruct b as [|c b]; [done|]. cbn [str_body].
  destruct (c =? 34); [intros [= <- <-]; by exists []|]. destruct (c =? 92).
  - destruct b as [|e b]; [done|]. destruct (e =? 117).
    + destruct (get_u4 b) as [u|] eqn:Eu; [|done]. apply get_u4_range in Eu. cbn [mbind option_bind].
      destruct (is_surrogate u) eqn:Es; [destruct (second_half u _) as [r'|] eqn:E2|]; apply S; try apply IH; try done.
      * by apply second_half_scalar in E2.
      * by split; [lia|].
    + destruct (escape e) as [x|] eqn:Ee; [|done]. apply escape_ascii in Ee. cbn [mbind option_bind].
      destruct (scalar_ascii x Ee) as [Hx <-]. apply S; [done|apply IH].
  - destruct (Z.ltb_spec c 32); [done|]. destruct (decode_rune (c :: b)) as [u n] eqn:E.
    apply S; [|apply IH]. destruct u as [u|]; [|done]. change (default RuneError (Some u)) with u.
    apply (decode_scalar c b u n); [lia|done].
Qed.

(** Every string in a value is UTF-8. *)
Fixpoint jval_ok (v : jval) : bool :=
  match v with
  | VStr s => valid_utf8 s
  | VArr l => forallb jval_ok l
  | VObj l => forallb (fun p => jval_ok p.2) l
  | _ => true
  end.

Lemma parser_ok f :
  (forall d b v r, value f d b = Some (v, r) -> jval_ok v = true) /\
  (forall d b l r, elements f d b = Some (l, r) -> forallb jval_ok l = true) /\
  (forall d b l r, members f d b = Some (l, r) -> forallb (fun p => jval_ok p.2) l = true).
Proof.
  induction f as [|f (IHv & IHe & IHm)]; [done|]. split_and!; intros d b v r.
  - cbn [value]. destruct (skip b) as [|c b1]; [done|].
    destruct (c =? 123); [|destruct (c =? 91); [|destruct (c =? 34); [|destruct (c =? 116); [|destruct (c =? 102); [|destruct (c =? 110)]]]]].
    + repeat parser_case; [by intros [= <- <-]|].
      destruct (members f (d + 1) b1) as [[l' r']|] eqn:E; [|done]. intros [= <- <-]. by apply IHm in E.
    + repeat parser_case; [by intros [= <- <-]|].
      destruct (elements f (d + 1) b1) as [[l' r']|] eqn:E; [|done]. intros [= <- <-]. by apply IHe in E.
    + destruct (str b1) as [[s r']|] eqn:E; [|done]. intros [= <- <-]. apply str_body_spelled in E. by apply spelled_valid.
    + by destruct (literal _ b1) eqn:E; [|done]; intros [= <- <-].
    + by destruct (literal _ b1) eqn:E; [|done]; intros [= <- <-].
    + by destruct (literal _ b1) eqn:E; [|done]; intros [= <- <-].
    + by destruct (number (c :: b1)) as [[t r']|] eqn:E; [|done]; intros [= <- <-].
  - cbn [elements]. destruct (value f d b) as [[v' r']|] eqn:E; [|done]. apply IHv in E. cbn [mbind option_bind].
    repeat parser_case; [|intros [= <- <-]; cbn; by rewrite E].
    destruct (elements f d l) as [[l' r2]|] eqn:E2; [|done]. intros [= <- <-]. apply IHe in E2. cbn. by rewrite E.
  - cbn [members]. parser_case. parser_case. destruct (str l) as [[k r']|] eqn:Es; [|done].
    cbn [mbind option_bind]. parser_case. parser_case.
    destruct (value f d l0) as [[v' r2]|] eqn:E; [|done]. apply IHv in E. cbn [mbind option_bind].
    repeat parser_case; [|intros [= <- <-]; cbn; by rewrite E].
    destruct (members f d l1) as [[l' r3]|] eqn:E2; [|done]. intros [= <- <-]. apply IHm in E2. cbn. by rewrite E.
Qed.

Lemma DecodeStrict_ok b v : DecodeStrict b = Some v -> jval_ok v = true.
Proof.
  unfold DecodeStrict, parse_value. destruct (value _ 0 b) as [[v' r]|] eqn:E; [|done]. cbn [mbind option_bind].
  apply parser_ok in E. destruct (forallb is_space r); [|done]. by intros [= <-].
Qed.

(** * What is printed is bytes *)

Lemma runes_raw n b : Forall is_byte b -> Forall (fun p => Forall is_byte p.2) (runes_fuel n b).
Proof.
  revert b. induction n as [|n IH]; intros b H; [constructor|]. destruct b as [|c b]; [constructor|].
  cbn [runes_fuel]. destruct (decode_rune (c :: b)) as [r k].
  constructor; [|apply IH]; by apply Forall_take_drop.
Qed.

Lemma hex_digit_byte d : 0 <= d < 16 -> is_byte (hex_digit d).
Proof. intros H. unfold hex_digit, is_byte. destruct (Z.ltb_spec d 10); lia. Qed.

Lemma hex_n_bytes n z : Forall is_byte (hex_n n z).
Proof.
  unfold hex_n. apply Forall_forall. intros c (i & -> & _)%list_elem_of_fmap. apply hex_digit_byte, Z.mod_pos_bound. lia.
Qed.

Lemma json_rune_bytes html p : Forall is_byte p.2 -> Forall is_byte (json_rune html p).
Proof.
  destruct p as [[r|] raw]; cbn [snd]; intros H; [|apply bytes_of_bytes]. unfold json_rune.
  repeat case_goal; try exact H; try apply bytes_of_bytes.
  3: { apply Forall_app. split; [apply bytes_of_bytes|apply hex_n_bytes]. }
  all: repeat (constructor; [done|]); constructor.
Qed.

Lemma json_string_bytes html s : Forall is_byte (json_string html s).
Proof.
  unfold json_string. constructor; [done|]. apply Forall_app. split; [|constructor; [done|constructor]].
  pose proof (runes_raw (length (bytes_of s)) _ (bytes_of_bytes s)) as F. fold (runes (bytes_of s)) in F.
  induction F as [|p l Hp _ IH]; [constructor|]. cbn. apply Forall_app. split; [by apply json_rune_bytes|done].
Qed.

Lemma commas_bytes l : Forall (Forall is_byte) l -> Forall is_byte (commas l).
Proof.
  induction 1 as [|x l Hx Hl IH]; [constructor|]. rewrite commas_cons. apply Forall_app. split; [done|].
  destruct l; [constructor|]. by constructor.
Qed.

Lemma json_print_bytes html j : Forall is_byte (json_print html j).
Proof.
  induction j as [|[]|z|s|l IH|l IH] using json_rect'; cbn [json_print];
    try apply bytes_of_bytes; try apply json_string_bytes.
  - constructor; [done|]. apply Forall_app. split; [|constructor; [done|constructor]]. apply commas_bytes.
    apply Forall_forall. intros x (j & -> & Hj)%list_elem_of_fmap. by eapply Forall_forall in IH.
  - constructor; [done|]. apply Forall_app. split; [|constructor; [done|constructor]]. apply commas_bytes.
    apply Forall_forall. intros x ([k j] & -> & Hj)%list_elem_of_fmap. eapply Forall_forall in IH; [|exact Hj].
    apply Forall_app. split; [apply json_string_bytes|]. by constructor.
Qed.

(** * How long it gets *)

Lemma decode_rune_raw b r n : decode_rune b = (r, n) -> b <> [] -> (1 <= length (take n b))%nat.
Proof. intros E Hb. pose proof (decode_rune_width b Hb) as W. rewrite E in W. cbn in W. rewrite length_take. lia. Qed.

Lemma json_rune_length html p : (1 <= length p.2)%nat -> (length (json_rune html p) <= 6 * length p.2)%nat.
Proof.
  intros H. destruct p as [[r|] raw]; cbn [snd] in *; [|change (length (json_rune html (None, raw))) with 6%nat; lia].
  assert (H0 : forall b : bytes, (length b <= 6)%nat -> (length b <= 6 * length raw)%nat) by lia.
  unfold json_rune. repeat (destruct (_ =? _); [by apply H0; cbn; lia|]).
  destruct (_ || _); [|cbn; lia]. apply H0. rewrite length_app. unfold hex_n. rewrite length_map, length_seq. cbn. lia.
Qed.

Lemma json_string_length html s : len (json_string html s) <= 6 * slen s + 2.
Proof.
  unfold json_string. rewrite !len_app, <- len_bytes_of. change (len [34]) with 1.
  assert (K : forall n b, (length b <= n)%nat -> (length (flat_map (json_rune html) (runes_fuel n b)) <= 6 * length b)%nat).
  { induction n as [|n IH]; intros b Hb; [cbn; lia|]. destruct b as [|c b]; [done|]. cbn [runes_fuel].
    destruct (decode_rune (c :: b)) as [r k] eqn:E. pose proof (decode_rune_raw _ _ _ E ltac:(done)) as R.
    cbn [flat_map]. rewrite length_app. pose proof (json_rune_length html (r, take k (c :: b)) R) as J. cbn [snd] in J.
    specialize (IH (drop k (c :: b))). rewrite length_drop in IH. rewrite length_take in *. lia. }
  specialize (K (length (bytes_of s)) (bytes_of s) (le_n _)). unfold runes, len. lia.
Qed.

Lemma pretty_go_length k x s : (x < 10 ^ N.of_nat k)%N -> (length (bytes_of (pretty_N_go x s)) <= k + length (bytes_of s))%nat.
Proof.
  revert x s. induction k as [|k IH]; intros x s Hx.
  { change (10 ^ N.of_nat 0)%N with 1%N in Hx. assert (x = 0%N) as -> by lia. rewrite pretty_N_go_0. lia. }
  destruct (decide (x = 0%N)) as [-> |H0]; [rewrite pretty_N_go_0; lia|]. rewrite pretty_N_go_step by lia.
  etrans; [apply IH|cbn; lia]. apply N.div_lt_upper_bound; [done|]. by rewrite <- N.pow_succ_r', <- Nat2N.inj_succ.
Qed.

Lemma itoa_length z k : Z.abs z < 10 ^ Z.of_nat k -> (0 < k)%nat -> len (bytes_of (itoa z)) <= Z.of_nat k + 1.
Proof.
  intros Hz Hk. assert (P : forall p, Z.pos p < 10 ^ Z.of_nat k -> (length (bytes_of (pretty (N.pos p))) <= k)%nat).
  { intros p Hp. change (pretty (N.pos p)) with (pretty_N_go (N.pos p) "").
    etrans; [apply (pretty_go_length k)|cbn; lia]. apply N2Z.inj_lt. rewrite N2Z.inj_pow. by rewrite nat_N_Z. }
  unfold len. destruct z as [|p|p]; [cbn; lia|apply P in Hz|].
  - change (itoa (Z.pos p)) with (pretty (N.pos p)). lia.
  - change (itoa (Z.neg p)) with ("-" +:+ pretty (N.pos p)). rewrite bytes_of_neg. cbn [length].
    specialize (P p Hz). lia.
Qed.
