(* ===== verification/Unmarshal.v ===== *)
(** Decoding a JSON value into a Go value, as [encoding/json] does it for the
    types of the wire formats: integers at their width, strings, booleans,
    byte slices in base64, text unmarshalers, pointers, slices and structs
    with their tags.

    A decoder takes every value the key was given, oldest first: the library
    decodes a repeated key into the value the earlier occurrence left, so a
    null or a shorter array does not always replace it.  [Codec] pairs the
    decoder with the encoder, and [Lawful] is the contract between them; the
    instances at the end build it for every combinator, so that a wire type
    declared from its fields is lawful by instance search. *)

From S2P Require Import Prelude GoStd Base64 Json.

(** * The decoders *)

Definition is_null (v : jval) : bool := match v with VNull => true | _ => false end.

(** A type null leaves alone. *)
Definition scalar_of {A} (zero : A) (rd : jval -> option A) (occ : list jval) : option A :=
  foldM (fun old v => if is_null v then Some old else rd v) zero occ.

(** [uint8] to [uint64], and [int] and [int64]. *)
Definition read_uint (w : Z) (v : jval) : option Z :=
  match v with VNum t => z ← parse_uint t; if z <? 2 ^ w then Some z else None | _ => None end.
Definition read_sint (w : Z) (v : jval) : option Z :=
  match v with
  | VNum t => z ← parse_int t; if (- 2 ^ (w - 1) <=? z) && (z <? 2 ^ (w - 1)) then Some z else None
  | _ => None
  end.
Definition read_string (v : jval) : option string := match v with VStr s => Some s | _ => None end.
Definition read_bool (v : jval) : option bool := match v with VBool b => Some b | _ => None end.

(** A type with an [UnmarshalText]. *)
Definition read_text {A} (unmarshal : bytes -> option A) (v : jval) : option A :=
  match v with VStr s => unmarshal (bytes_of s) | _ => None end.

(** The occurrences in runs, cut after each one that resets the value; the
    last run is the one that is left. *)
Fixpoint runs_after (reset : jval -> bool) (occ : list jval) : list (list jval) :=
  match occ with
  | [] => [[]]
  | v :: occ' =>
      let r := runs_after reset occ' in
      if reset v then [] :: r
      else match r with run :: r' => (v :: run) :: r' | [] => [[v]] end
  end.

(** A pointer: null makes it nil, a value is decoded into what it points to. *)
Definition read_ptr {A} (d : list jval -> option A) (occ : list jval) : option (option A) :=
  l ← mapM (fun run => match run with [] => Some None | _ => Some <$> d run end) (runs_after is_null occ);
  Some (default None (last l)).

(** A slice: null and an empty array drop what it holds; an array is decoded
    element by element into it, beyond its length into what an earlier, longer
    array left there. *)
Definition resets_slice (v : jval) : bool := match v with VNull | VArr [] => true | _ => false end.
Definition read_array (v : jval) : option (list jval) := match v with VArr l => Some l | _ => None end.
Definition read_run {A} (d : list jval -> option A) (run : list jval) : option (list A) :=
  arrs ← mapM read_array run;
  l ← mapM (fun i => d (omap (fun a : list jval => a !! i) arrs)) (seq 0 (foldr Nat.max 0%nat (map length arrs)));
  Some (take (length (default [] (last arrs))) l).
Definition read_slice {A} (d : list jval -> option A) (occ : list jval) : option (list A) :=
  l ← mapM (read_run d) (runs_after resets_slice occ); Some (default [] (last l)).

(** A [[]byte]: base64 text, or an array of small integers.  The state is what
    is visible and what the backing array holds after it, zero from there. *)
Definition read_byte_slice (occ : list jval) : option bytes :=
  fst <$> foldM (fun '((vis, hidden) : bytes * bytes) v =>
    match v with
    | VNull => Some ([], [])
    | VArr [] => Some ([], [])
    | VStr s => b ← b64_decode StdEncoding (bytes_of s); Some (b, [])
    | VArr l =>
        let old := vis ++ hidden in
        new ← mapM (fun '(i, x) => if is_null x then Some (default 0 (old !! i)) else read_uint 8 x) (imap pair l);
        Some (new, drop (length l) old)
    | _ => None
    end) ([], []) occ.

(** ** Structs *)

(** [foldName]: keys are compared by the smallest rune of each rune's folding
    orbit.  Of the runes outside ASCII only the long s and the Kelvin sign fold
    into it; the others stay outside, which is all a comparison with the ASCII
    names of this program needs. *)
Definition fold_rune (r : Z) : Z :=
  if (97 <=? r) && (r <=? 122) then r - 32
  else if r =? 383 then 83
  else if r =? 8490 then 75
  else r.
Definition fold_name (s : string) : list Z :=
  map (fun p => fold_rune (default RuneError p.1)) (runes (bytes_of s)).

(** The field a key names: the exact name first. *)
Definition field_name (names : list string) (k : string) : option string :=
  if existsb (String.eqb k) names then Some k
  else List.find (fun n => bool_decide (fold_name n = fold_name k)) names.

(** The keys of an object as fields; an unknown one is refused
    ([DisallowUnknownFields]), and null leaves a struct alone. *)
Definition object_fields (names : list string) (v : jval) : option (list (string * jval)) :=
  match v with
  | VNull => Some []
  | VObj l => mapM (fun '(k, x) => n ← field_name names k; Some (n, x)) l
  | _ => None
  end.
Definition fields (names : list string) (occ : list jval) : option (list (string * jval)) :=
  mjoin <$> mapM (object_fields names) occ.

(** Every value a field was given. *)
Definition at_key (k : string) (ms : list (string * jval)) : list jval :=
  map snd (List.filter (fun p => String.eqb k p.1) ms).

(** * Codecs *)

Record Codec (A : Type) := mkCodec {
  to_json : A -> json;
  of_json : list jval -> option A;
  fits : A -> Prop;
}.
Arguments mkCodec {A} to_json of_json fits.
Arguments to_json {A} c a.
Arguments of_json {A} c occ.
Arguments fits {A} c a.

(** A value that fits is read back, and nothing else is ever read. *)
Class Lawful {A} (c : Codec A) : Prop := {
  read_back : forall a, fits c a -> of_json c [val_of (to_json c a)] = Some a;
  read_fits : forall occ a, forallb jval_ok occ = true -> of_json c occ = Some a -> fits c a;
}.

Definition uint (w : Z) : Codec Z := mkCodec JNum (scalar_of 0 (read_uint w)) (fun z => 0 <= z < 2 ^ w).
Definition sint (w : Z) : Codec Z := mkCodec JNum (scalar_of 0 (read_sint w)) (fun z => - 2 ^ (w - 1) <= z < 2 ^ (w - 1)).
Definition text : Codec string := mkCodec JStr (scalar_of "" read_string) (fun s => valid_utf8 s = true).
Definition boolean : Codec bool := mkCodec JBool (scalar_of false read_bool) (fun _ => True).

(** A type with text methods. *)
Definition text_of {A} (zero : A) (marshal : A -> string) (unmarshal : bytes -> option A) (ok : A -> Prop) : Codec A :=
  mkCodec (fun a => JStr (marshal a)) (scalar_of zero (read_text unmarshal)) ok.

(** A byte slice held as a string; the empty one is nil. *)
Definition byte_slice : Codec string :=
  mkCodec (fun s => if slen s =? 0 then JNull else JStr (string_of (b64_encode StdEncoding (bytes_of s))))
    (fun occ => string_of <$> read_byte_slice occ) (fun _ => True).

Definition pointer {A} (c : Codec A) : Codec (option A) :=
  mkCodec (fun o => match o with Some a => to_json c a | None => JNull end) (read_ptr (of_json c))
    (fun o => match o with Some a => fits c a | None => True end).

(** A slice that is nil while it is empty, and one that never is. *)
Definition slice {A} (c : Codec A) : Codec (list A) :=
  mkCodec (fun l => JArr (map (to_json c) l)) (read_slice (of_json c)) (Forall (fits c)).
Definition nil_slice {A} (c : Codec A) : Codec (list A) :=
  mkCodec (fun l => match l with [] => JNull | _ => JArr (map (to_json c) l) end) (read_slice (of_json c)) (Forall (fits c)).

(** ** Structs from their tags *)

Record Struct (A : Type) := mkStruct {
  keys : list string;
  put : A -> list (string * json);
  get : list (string * jval) -> option A;
  sfits : A -> Prop;
}.
Arguments mkStruct {A} keys put get sfits.
Arguments keys {A} s.
Arguments put {A} s a.
Arguments get {A} s ms.
Arguments sfits {A} s a.

Definition no_fields : Struct unit := mkStruct [] (fun _ => []) (fun _ => Some tt) (fun _ => True).

Definition field {A B} (k : string) (c : Codec A) (s : Struct B) : Struct (A * B) :=
  mkStruct (k :: keys s) (fun p => (k, to_json c p.1) :: put s p.2)
    (fun ms => a ← of_json c (at_key k ms); b ← get s ms; Some (a, b))
    (fun p => fits c p.1 /\ sfits s p.2).

(** [omitempty]. *)
Definition field_omit {A B} (k : string) (empty : A -> bool) (c : Codec A) (s : Struct B) : Struct (A * B) :=
  mkStruct (k :: keys s) (fun p => (if empty p.1 then [] else [(k, to_json c p.1)]) ++ put s p.2)
    (fun ms => a ← of_json c (at_key k ms); b ← get s ms; Some (a, b))
    (fun p => fits c p.1 /\ sfits s p.2).

(** The struct type whose fields, in order, are those of [s]. *)
Definition struct {A R} (s : Struct A) (make : A -> R) (parts : R -> A) : Codec R :=
  mkCodec (fun r => JObj (put s (parts r)))
    (fun occ => ms ← fields (keys s) occ; make <$> get s ms)
    (fun r => sfits s (parts r)).

(** [jsonx.DecodeStrict] into a value of the codec's type. *)
Definition decode_into {A} (c : Codec A) (b : bytes) : option A := v ← DecodeStrict b; of_json c [v].

(** * Laws of the combinators *)

Section ScalarLaws.
Context {A : Type} (P : A -> Prop) (zero : A) (rd : jval -> option A).
Context (Hzero : P zero) (Hrd : forall v a, jval_ok v = true -> rd v = Some a -> P a).

Lemma scalar_fits occ a : forallb jval_ok occ = true -> scalar_of zero rd occ = Some a -> P a.
Proof.
  unfold scalar_of. revert zero Hzero. induction occ as [|v occ IH]; intros z Hz H; cbn in *; [by intros [= <-]|]. b2p.
  destruct (is_null v); [by apply IH|]. destruct (rd v) as [x|] eqn:E; [|done]. cbn. apply IH; [by eapply Hrd|done].
Qed.
End ScalarLaws.

Lemma parse_uint_nonneg t z : parse_uint t = Some z -> 0 <= z.
Proof.
  unfold parse_uint, digits1. assert (D : forall b, forallb is_digit (digits b).1 = true).
  { induction b as [|c b IH]; cbn; [done|]. destruct (is_digit c) eqn:E; [|done].
    destruct (digits b). cbn in *. by rewrite E. }
  specialize (D t). destruct (digits t) as [d r]. destruct d as [|c d]; [done|]. destruct r; [|done]. intros [= <-].
  cbn [fst] in D. revert D. generalize (c :: d). clear. unfold digits_val. intros l.
  assert (G : forall a, 0 <= a -> forallb is_digit l = true -> 0 <= foldl (fun n c => n * 10 + (c - 48)) a l); [|by apply G].
  induction l as [|c l IH]; intros a Ha H; cbn in *; [done|]. b2p. apply IH; [|done]. unfold is_digit in *. lia.
Qed.

Lemma uint_lawful w : 0 <= w -> Lawful (uint w).
Proof.
  intros Hw. split.
  - intros z Hz. cbn in *. unfold scalar_of. cbn. rewrite parse_uint_itoa by lia. cbn.
    by replace (z <? 2 ^ w) with true by lia.
  - apply scalar_fits; cbn; [pose proof (Z.pow_pos_nonneg 2 w); lia|]. intros [| |t| | |]; try done; cbn.
    intros a _. destruct (parse_uint t) as [z|] eqn:E; [|done]. cbn. apply parse_uint_nonneg in E.
    destruct (Z.ltb_spec z (2 ^ w)); [|done]. by intros [= <-].
Qed.

Lemma sint_lawful w : 0 < w -> Lawful (sint w).
Proof.
  intros Hw. pose proof (Z.pow_pos_nonneg 2 (w - 1) ltac:(lia) ltac:(lia)). split.
  - intros z Hz. cbn in *. unfold scalar_of. cbn. rewrite parse_int_itoa. cbn.
    by replace ((- 2 ^ (w - 1) <=? z) && (z <? 2 ^ (w - 1))) with true by lia.
  - apply scalar_fits; cbn; [lia|]. intros [| |t| | |]; try done; cbn.
    intros a _. destruct (parse_int t) as [z|] eqn:E; [|done]. cbn.
    destruct (_ && _) eqn:E2; [|done]. intros [= <-]. b2p. lia.
Qed.

#[export] Instance uint64_lawful : Lawful (uint 64).
Proof. by apply uint_lawful. Qed.
#[export] Instance uint32_lawful : Lawful (uint 32).
Proof. by apply uint_lawful. Qed.
#[export] Instance int64_lawful : Lawful (sint 64).
Proof. by apply sint_lawful. Qed.

#[export] Instance text_lawful : Lawful text.
Proof.
  split.
  - intros s Hs. cbn in *. unfold scalar_of. cbn. by rewrite to_valid_id.
  - apply scalar_fits; [done|]. intros [| | |s| |]; try done; cbn. by intros a Hs [= <-].
Qed.

#[export] Instance boolean_lawful : Lawful boolean.
Proof. by split. Qed.

Lemma text_of_lawful {A} (zero : A) marshal unmarshal (ok : A -> Prop) : ok zero ->
  (forall a, ok a -> valid_utf8 (marshal a) = true /\ unmarshal (bytes_of (marshal a)) = Some a) ->
  (forall b a, unmarshal b = Some a -> ok a) -> Lawful (text_of zero marshal unmarshal ok).
Proof.
  intros H0 Hm Hu. split.
  - intros a Ha. destruct (Hm a Ha) as [Hv He]. cbn. unfold scalar_of. cbn. by rewrite to_valid_id, He.
  - apply scalar_fits; [done|]. intros [| | |s| |]; try done; cbn. intros a _. apply Hu.
Qed.

Lemma b64_ascii e b : Forall is_byte b -> forallb (fun c => c <? 128) (b64_encode e b) = true /\ Forall is_byte (b64_encode e b).
Proof.
  assert (D : forall d, 0 <= d < 64 -> 0 <= b64_digit e d < 128).
  { intros d Hd. unfold b64_digit. repeat case_goal; b2p; lia. }
  intros HB. cut (Forall (fun c => 0 <= c < 128) (b64_encode e b)).
  { intros F. split; [|by eapply Forall_impl; [exact F|]; unfold is_byte; intros ? ?; lia].
    apply forallb_forall. intros c Hc. rewrite Forall_forall in F. apply list_elem_of_In in Hc. specialize (F c Hc). lia. }
  induction b as [|x|x y|x y z b IH] using threes_ind; repeat (apply Forall_cons in HB as [? HB]); unfold is_byte in *;
    cbn [b64_encode app]; [done|..]; repeat (constructor; [apply D; Z.div_mod_to_equations; lia|]); [..|by apply IH].
  all: destruct (enc_padded e); repeat (constructor; [done|]); constructor.
Qed.

#[export] Instance byte_slice_lawful : Lawful byte_slice.
Proof.
  split; [|done]. intros s _. cbn. destruct (Z.eqb_spec (slen s) 0) as [E|E].
  { destruct s; [done|]. unfold slen in E. simpl in E. lia. }
  cbn [val_of]. destruct (b64_ascii StdEncoding (bytes_of s) (bytes_of_bytes s)) as [Ha Hb].
  rewrite to_valid_id by (apply ascii_valid; by rewrite bytes_of_string_of). unfold read_byte_slice. cbn [foldM].
  rewrite bytes_of_string_of, b64_round_trip by (done || apply bytes_of_bytes). cbn. by rewrite string_of_bytes_of.
Qed.

(** ** Pointers and slices *)

(** A type never written as null. *)
Class NotNull {A} (c : Codec A) : Prop := not_null : forall a, is_null (val_of (to_json c a)) = false.

Lemma runs_ok reset occ : forallb jval_ok occ = true -> forallb (forallb jval_ok) (runs_after reset occ) = true.
Proof.
  induction occ as [|v occ IH]; cbn; [done|]. intros H. b2p. specialize (IH ltac:(done)). destruct (reset v); [done|].
  destruct (runs_after reset occ) as [|run r]; cbn in *; [by rewrite H|]. b2p. by rewrite H, H1, H2.
Qed.

Lemma mapM_Forall {A B} (P : A -> bool) (Q : B -> Prop) (f : A -> option B) l k :
  (forall x y, P x = true -> f x = Some y -> Q y) -> forallb P l = true -> mapM f l = Some k -> Forall Q k.
Proof.
  intros H HP E. apply mapM_Some in E. induction E as [|x y l k Hxy _ IH]; [done|]. cbn in HP. b2p.
  constructor; [by eapply H|by apply IH].
Qed.

#[export] Instance pointer_lawful {A} (c : Codec A) : Lawful c -> NotNull c -> Lawful (pointer c).
Proof.
  intros L N. split.
  - intros [a|] Ha; [|done]. cbn in *. unfold read_ptr. cbn. rewrite N. cbn. by rewrite read_back.
  - intros occ o H. cbn. unfold read_ptr. destruct (mapM _ _) as [l|] eqn:E; [|done]. cbn. intros [= <-].
    assert (F : Forall (fun o => match o with Some a => fits c a | None => True end) l).
    { eapply (mapM_Forall (forallb jval_ok)); [|by apply runs_ok|exact E]. intros run o Hr.
      destruct run as [|v run]; [by intros [= <-]|]. destruct (of_json c (v :: run)) as [a|] eqn:Ea; [|done].
      intros [= <-]. by eapply read_fits. }
    destruct (last l) as [o|] eqn:El; [|done]. apply last_Some_elem_of in El. by eapply Forall_forall in F.
Qed.

Lemma read_run_fits {A} (c : Codec A) run l : Lawful c -> forallb jval_ok run = true -> read_run (of_json c) run = Some l ->
  Forall (fits c) l.
Proof.
  intros L H. unfold read_run. destruct (mapM read_array run) as [arrs|] eqn:E; [|done]. cbn.
  assert (Ha : Forall (fun a => forallb jval_ok a = true) arrs).
  { eapply (mapM_Forall jval_ok); [|exact H|exact E]. intros [] a Hv; try done. by intros [= <-]. }
  destruct (mapM _ (seq _ _)) as [k|] eqn:Ek; [|done]. cbn. intros [= <-]. apply Forall_take.
  refine (mapM_Forall (fun _ : nat => true) _ _ _ _ _ _ Ek); [|by apply forallb_forall]. intros i x _ Hx. eapply read_fits; [|exact Hx].
  clear -Ha. induction Ha as [|a arrs Ha _ IH]; [done|]. cbn. destruct (a !! i) as [v|] eqn:Ei; [|exact IH].
  cbn. rewrite IH, andb_true_r. rewrite forallb_forall in Ha. apply Ha, list_elem_of_In. by eapply list_elem_of_lookup_2.
Qed.

Lemma read_slice_fits {A} (c : Codec A) occ l : Lawful c -> forallb jval_ok occ = true -> read_slice (of_json c) occ = Some l ->
  Forall (fits c) l.
Proof.
  intros L H. unfold read_slice. destruct (mapM _ _) as [k|] eqn:E; [|done]. cbn. intros [= <-].
  assert (F : Forall (Forall (fits c)) k).
  { eapply (mapM_Forall (forallb jval_ok)); [|by apply runs_ok|exact E]. intros run x Hr Hx. by eapply read_run_fits. }
  destruct (last k) as [x|] eqn:El; [|done]. apply last_Some_elem_of in El. by eapply Forall_forall in F.
Qed.

Lemma read_slice_back {A} (c : Codec A) l : Lawful c -> Forall (fits c) l ->
  read_slice (of_json c) [val_of (JArr (map (to_json c) l))] = Some l.
Proof.
  intros L F. unfold read_slice. destruct l as [|a l]; [done|].
  assert (R : read_run (of_json c) [val_of (JArr (map (to_json c) (a :: l)))] = Some (a :: l)).
  2: { cbn [val_of map runs_after resets_slice] in *. cbn [mapM]. by rewrite R. }
  unfold read_run. cbn [mapM read_array val_of mbind option_bind mret option_ret last default].
  replace (foldr _ _ _) with (length (a :: l)) by (cbn [foldr]; rewrite map_cons, !length_map; cbn [map foldr]; lia).
  assert (E : mapM (fun i => of_json c (omap (fun a : list jval => a !! i) [map val_of (map (to_json c) (a :: l))]))
    (seq 0 (length (a :: l))) = Some (a :: l)).
  2: { rewrite E. cbn [mbind option_bind]. unfold id. rewrite !length_map. by rewrite firstn_all. }
  apply mapM_Some. apply Forall2_same_length_lookup_2; [by rewrite length_seq|].
  intros i j x Hi Hx. apply lookup_seq in Hi as [-> Hi]. cbn [omap list_omap Nat.add].
  change (map val_of (map (to_json c) (a :: l))) with (val_of <$> (to_json c <$> (a :: l))).
  rewrite !list_lookup_fmap, Hx. cbn. apply read_back. eapply Forall_lookup in F; eauto.
Qed.

#[export] Instance slice_lawful {A} (c : Codec A) : Lawful c -> Lawful (slice c).
Proof. intros L. split; [intros l F; by apply read_slice_back|intros occ l; by apply read_slice_fits]. Qed.

#[export] Instance nil_slice_lawful {A} (c : Codec A) : Lawful c -> Lawful (nil_slice c).
Proof.
  intros L. split; [|intros occ l; by apply read_slice_fits]. intros [|a l] F; [done|]. by apply read_slice_back.
Qed.

(** ** Structs *)

(** What the fields of a value read as. *)
Definition vals (l : list (string * json)) : list (string * jval) := map (fun p => (p.1, val_of p.2)) l.

Class LawfulStruct {A} (s : Struct A) : Prop := {
  put_keys : forall a k, k ∈ map fst (put s a) -> k ∈ keys s;
  put_get : forall a ms, sfits s a -> (forall k, k ∈ keys s -> at_key k ms = at_key k (vals (put s a))) -> get s ms = Some a;
  get_fits : forall ms a, forallb (fun p => jval_ok p.2) ms = true -> get s ms = Some a -> sfits s a;
}.

Lemma existsb_elem k l : existsb (String.eqb k) l = true <-> k ∈ l.
Proof.
  rewrite existsb_exists. split.
  - intros (x & Hx & ->%String.eqb_eq). by apply list_elem_of_In.
  - intros H. exists k. split; [by apply list_elem_of_In|apply String.eqb_refl].
Qed.

Lemma at_key_cons k k' v ms : at_key k ((k', v) :: ms) = if String.eqb k k' then v :: at_key k ms else at_key k ms.
Proof. unfold at_key. cbn. by destruct (String.eqb k k'). Qed.

Lemma at_key_none k ms : k ∉ map fst ms -> at_key k ms = [].
Proof.
  induction ms as [|[k' v] ms IH]; intros H; [done|]. rewrite at_key_cons. cbn in H. apply not_elem_of_cons in H as [H1 H2].
  destruct (String.eqb_spec k k'); [done|]. by apply IH.
Qed.

Lemma vals_fst l : map fst (vals l) = map fst l.
Proof. unfold vals. by rewrite map_map. Qed.

Lemma at_key_ok k ms : forallb (fun p => jval_ok p.2) ms = true -> forallb jval_ok (at_key k ms) = true.
Proof.
  induction ms as [|[k' v] ms IH]; intros H; [done|]. rewrite at_key_cons. cbn in H. b2p.
  destruct (String.eqb k k'); [|by apply IH]. cbn. rewrite H. by apply IH.
Qed.

Lemma vals_cons k j l : vals ((k, j) :: l) = (k, val_of j) :: vals l.
Proof. done. Qed.

#[export] Instance no_fields_lawful : LawfulStruct no_fields.
Proof. split; [done|by intros [] ms _ _|done]. Qed.

(** A key the struct does not declare yet. *)
Class Fresh {A} (k : string) (s : Struct A) : Prop := fresh : existsb (String.eqb k) (keys s) = false.
#[export] Hint Extern 1 (Fresh _ _) => reflexivity : typeclass_instances.

Lemma fresh_not {A} k (s : Struct A) : Fresh k s -> k ∉ keys s.
Proof. intros F H%existsb_elem. unfold Fresh in F. congruence. Qed.

(** What a value left out reads as. *)
Class Omits {A} (empty : A -> bool) (c : Codec A) : Prop := omits : forall a, empty a = true -> of_json c [] = Some a.

Section FieldLaws.
Context {A B : Type} (k : string) (c : Codec A) (s : Struct B) {Lc : Lawful c} {Ls : LawfulStruct s} {Fr : Fresh k s}.

Lemma put_fresh b : at_key k (vals (put s b)) = [].
Proof. apply at_key_none. rewrite vals_fst. intros H%put_keys. by apply (fresh_not k s). Qed.

(** The rest of the struct does not see the field in front of it. *)
Lemma get_rest l b ms : map fst l = [k] \/ l = [] ->
  (forall k', k' ∈ k :: keys s -> at_key k' ms = at_key k' (l ++ vals (put s b))) ->
  forall k', k' ∈ keys s -> at_key k' ms = at_key k' (vals (put s b)).
Proof.
  intros Hl H k' Hk. rewrite H by by right. destruct Hl as [Hl| ->]; [|done].
  destruct l as [|[k2 v] [|]]; try done. cbn in Hl. injection Hl as ->. cbn [app]. rewrite at_key_cons.
  destruct (String.eqb_spec k' k) as [->|]; [|done]. by apply fresh_not in Fr.
Qed.

#[export] Instance field_lawful : LawfulStruct (field k c s).
Proof.
  split.
  - intros [a b] k' [->|H]%elem_of_cons; [by left|]. right. by eapply put_keys.
  - intros [a b] ms [Ha Hb] H. cbn [field get put keys fst snd] in *. rewrite vals_cons in H.
    rewrite (H k), at_key_cons, String.eqb_refl by by left. rewrite (put_fresh b), (read_back a Ha). cbn [mbind option_bind].
    rewrite (put_get b ms Hb); [done|]. apply (get_rest [(k, val_of (to_json c a))]); [by left|done].
  - intros ms [a b] Hm. cbn. destruct (of_json c _) as [a'|] eqn:Ea; [|done]. cbn.
    destruct (get s ms) as [b'|] eqn:Eb; [|done]. intros [= -> ->].
    split; [eapply read_fits; [|exact Ea]; by apply at_key_ok|by eapply get_fits].
Qed.

#[export] Instance field_omit_lawful empty : Omits empty c -> LawfulStruct (field_omit k empty c s).
Proof.
  intros O. split.
  - intros [a b] k'. cbn. destruct (empty a); cbn; [intros H; right; by eapply put_keys|].
    intros [->|H]%elem_of_cons; [by left|]. right. by eapply put_keys.
  - intros [a b] ms [Ha Hb] H. cbn [field_omit get put keys fst snd] in *.
    assert (E : of_json c (at_key k ms) = Some a /\ forall k', k' ∈ keys s -> at_key k' ms = at_key k' (vals (put s b))).
    { destruct (empty a) eqn:Ea; cbn [app] in H; [|rewrite vals_cons in H].
      - split; [|apply (get_rest []); [by right|done]]. rewrite H, put_fresh by by left. by apply omits.
      - split; [|apply (get_rest [(k, val_of (to_json c a))]); [by left|done]].
        rewrite (H k), at_key_cons, String.eqb_refl by by left. rewrite (put_fresh b). by apply read_back. }
    destruct E as [-> E]. cbn [mbind option_bind]. by rewrite (put_get b ms Hb).
  - intros ms [a b] Hm. cbn. destruct (of_json c _) as [a'|] eqn:Ea; [|done]. cbn.
    destruct (get s ms) as [b'|] eqn:Eb; [|done]. intros [= -> ->].
    split; [eapply read_fits; [|exact Ea]; by apply at_key_ok|by eapply get_fits].
Qed.
End FieldLaws.

Lemma mapM_all {A B} (f : A -> option B) (g : A -> B) l : (forall x, x ∈ l -> f x = Some (g x)) -> mapM f l = Some (map g l).
Proof.
  induction l as [|x l IH]; intros H; [done|]. cbn. rewrite H by by left. cbn. rewrite IH; [done|].
  intros y Hy. apply H. by right.
Qed.

(** The keys a struct declares are read as written, and each once. *)
Class KeysOk {A} (s : Struct A) : Prop := keys_plain : forallb (fun k => forallb (fun c => c <? 128) (bytes_of k)) (keys s) = true.
#[export] Hint Extern 1 (KeysOk _) => vm_compute; reflexivity : typeclass_instances.

(** An object with the keys of a struct, read as that struct. *)
Lemma fields_read names l : forallb (fun k => forallb (fun c => c <? 128) (bytes_of k)) names = true ->
  (forall k, k ∈ map fst l -> k ∈ names) -> fields names [val_of (JObj l)] = Some (vals l).
Proof.
  intros K Hk. unfold fields. cbn [val_of mapM object_fields].
  assert (E : mapM (fun '(k, x) => n ← field_name names k; Some (n, x)) (map (fun '(k, v) => (to_valid k, val_of v)) l) =
    Some (vals l)); [|by rewrite E; cbn; rewrite app_nil_r].
  induction l as [|[k j] l IH]; [done|]. cbn.
  assert (Hin : k ∈ names) by (apply Hk; by left).
  assert (Ek : to_valid k = k).
  { apply to_valid_id, ascii_valid. rewrite forallb_forall in K. by apply K, list_elem_of_In. }
  assert (Ef : field_name names k = Some k) by (unfold field_name; by apply existsb_elem in Hin as ->).
  rewrite Ek, Ef. cbn. rewrite IH; [done|]. intros k' H'. apply Hk. by right.
Qed.

Lemma fields_put {A} (s : Struct A) {L : LawfulStruct s} {K : KeysOk s} a :
  fields (keys s) [val_of (JObj (put s a))] = Some (vals (put s a)).
Proof. apply fields_read; [done|apply put_keys]. Qed.

Lemma fields_ok names occ ms : forallb jval_ok occ = true -> fields names occ = Some ms ->
  forallb (fun p => jval_ok p.2) ms = true.
Proof.
  unfold fields. intros H. destruct (mapM _ occ) as [l|] eqn:E; [|done]. cbn. intros [= <-].
  assert (F : Forall (fun ms => forallb (fun p => jval_ok p.2) ms = true) l).
  { eapply (mapM_Forall jval_ok); [|exact H|exact E]. intros v ms Hv. destruct v as [| | | | |o]; try done; cbn.
    - by intros [= <-].
    - intros Em. apply forallb_forall. intros p Hp. cut (Forall (fun p => jval_ok p.2 = true) ms).
      { rewrite Forall_forall. intros F. by apply F, list_elem_of_In. }
      eapply (mapM_Forall (fun p => jval_ok p.2)); [|exact Hv|exact Em]. intros [k x] q Hx. cbn in Hx.
      destruct (field_name names k); [|done]. by intros [= <-]. }
  clear E. induction F as [|ms l Hms _ IH]; [done|].
  change (mjoin (ms :: l)) with (ms ++ mjoin l). by rewrite forallb_app, Hms, IH.
Qed.

#[export] Instance struct_not_null {A R} (s : Struct A) (make : A -> R) parts : NotNull (struct s make parts).
Proof. done. Qed.

Lemma struct_lawful {A R} (s : Struct A) (make : A -> R) (parts : R -> A) : LawfulStruct s -> KeysOk s ->
  (forall r, make (parts r) = r) -> (forall a, parts (make a) = a) -> Lawful (struct s make parts).
Proof.
  intros L K H1 H2. split.
  - intros r Hr. cbn in Hr. cbn [struct to_json of_json]. rewrite (fields_put s). cbn [mbind option_bind].
    rewrite (put_get (parts r)) by done. cbn. by rewrite H1.
  - intros occ r Ho. cbn. destruct (fields (keys s) occ) as [ms|] eqn:E; [|done]. cbn.
    destruct (get s ms) as [a|] eqn:Ea; [|done]. cbn. intros [= <-]. rewrite H2. eapply get_fits; [|exact Ea].
    by eapply fields_ok.
Qed.

(** The two maps of a struct to its fields undo each other: by cases on the
    record and on the tuple. *)
Ltac by_parts :=
  let a := fresh "a" in intros a; destruct a;
  repeat match goal with p : _ * _ |- _ => destruct p | p : unit |- _ => destruct p end; reflexivity.

#[export] Hint Extern 1 (Lawful (struct _ _ _)) =>
  (apply struct_lawful; [typeclasses eauto|typeclasses eauto|by_parts|by_parts]) : typeclass_instances.

(** ** Decoding what was encoded, and encoding what was decoded *)

Lemma decode_into_marshal {A} (c : Codec A) {L : Lawful c} html a : fits c a -> jdepth (to_json c a) <= maxNestingDepth ->
  decode_into c (json_print html (to_json c a)) = Some a.
Proof.
  intros Ha Hd. unfold decode_into. rewrite DecodeStrict_marshal by done. cbn [mbind option_bind]. by apply read_back.
Qed.

Lemma decode_into_fits {A} (c : Codec A) {L : Lawful c} b a : decode_into c b = Some a -> fits c a.
Proof.
  unfold decode_into. destruct (DecodeStrict b) as [v|] eqn:E; [|done]. cbn. intros H. eapply read_fits; [|exact H].
  cbn. by rewrite (DecodeStrict_ok b v E).
Qed.

(** ** Nesting *)

(** How deep the values of a codec nest. *)
Class Depth {A} (c : Codec A) (d : Z) : Prop := depth : forall a, jdepth (to_json c a) <= d.
Class StructDepth {A} (s : Struct A) (d : Z) : Prop :=
  sdepth : forall a, foldr Z.max 0 (map (fun p => jdepth p.2) (put s a)) <= d.

Lemma foldr_max_le l d : 0 <= d -> Forall (fun x => x <= d) l -> foldr Z.max 0 l <= d.
Proof. intros Hd. induction 1; simpl; lia. Qed.

Lemma jdepth_nonneg j : 0 <= jdepth j.
Proof. destruct j; simpl; try lia; pose proof (foldr_max_nonneg); specialize (H (map jdepth l)) || specialize (H (map (fun p => jdepth p.2) l)); lia. Qed.

#[export] Instance uint_depth w : Depth (uint w) 0.
Proof. done. Qed.
#[export] Instance sint_depth w : Depth (sint w) 0.
Proof. done. Qed.
#[export] Instance text_depth : Depth text 0.
Proof. done. Qed.
#[export] Instance boolean_depth : Depth boolean 0.
Proof. done. Qed.
#[export] Instance text_of_depth {A} (zero : A) marshal unmarshal ok : Depth (text_of zero marshal unmarshal ok) 0.
Proof. done. Qed.
#[export] Instance byte_slice_depth : Depth byte_slice 0.
Proof. intros s. cbn. by destruct (slen s =? 0). Qed.
#[export] Instance pointer_depth {A} (c : Codec A) d : Depth c d -> TCEq (0 <=? d) true -> Depth (pointer c) d.
Proof. intros D Hd [a|]; cbn; [apply D|]. apply TCEq_eq in Hd. lia. Qed.
#[export] Instance slice_depth {A} (c : Codec A) d : Depth c d -> TCEq (0 <=? d) true -> Depth (slice c) (1 + d).
Proof.
  intros D Hd%TCEq_eq l. cbn. assert (foldr Z.max 0 (map jdepth (map (to_json c) l)) <= d); [|lia].
  apply foldr_max_le; [lia|]. rewrite map_map. apply Forall_forall. intros x (a & -> & _)%list_elem_of_fmap. apply D.
Qed.
#[export] Instance nil_slice_depth {A} (c : Codec A) d : Depth c d -> TCEq (0 <=? d) true -> Depth (nil_slice c) (1 + d).
Proof. intros D Hd l. pose proof (slice_depth c d D Hd l). destruct l; [apply TCEq_eq in Hd; cbn; lia|done]. Qed.
#[export] Instance no_fields_depth : StructDepth no_fields 0.
Proof. done. Qed.
#[export] Instance field_depth {A B} k (c : Codec A) (s : Struct B) d e : Depth c d -> StructDepth s e ->
  StructDepth (field k c s) (Z.max d e).
Proof. intros D E [a b]. cbn. specialize (D a). specialize (E b). lia. Qed.
#[export] Instance field_omit_depth {A B} k empty (c : Codec A) (s : Struct B) d e : Depth c d -> StructDepth s e ->
  StructDepth (field_omit k empty c s) (Z.max d e).
Proof. intros D E [a b]. cbn. specialize (D a). specialize (E b). destruct (empty a); cbn; lia. Qed.
#[export] Instance struct_depth {A R} (s : Struct A) (make : A -> R) parts d : StructDepth s d -> Depth (struct s make parts) (1 + d).
Proof. intros D r. cbn. specialize (D (parts r)). lia. Qed.
