(* ===== verification/Paxos.v ===== *)
(** Single-decree Paxos: package [paxos] (internal/paxos/paxos.go,
    acceptor.go, proposer.go).  Ballots and the four rule functions, the
    reference acceptor and the reference proposer, and what each operation
    does on every branch.  The agreement theorem is in PaxosSafety.v. *)

From S2P Require Import Prelude GoStd.

(** * Identifiers and ballots *)

(** [NodeID] is a [uint32], [Slot] a [uint64]; 0 means none. *)
Abbreviation NodeID := Z (only parsing).
Abbreviation Slot := Z (only parsing).

(** [Value] is a byte string; the empty one is the no-op.  [nil] and the empty
    slice are one value here, as [ValueEqual] says. *)
Abbreviation Value := string (only parsing).

Record Ballot := mkBallot { bal_round : Z; bal_node : NodeID }.

#[export] Instance Ballot_eq_dec : EqDecision Ballot.
Proof. solve_decision. Defined.
#[export] Instance Ballot_countable : Countable Ballot.
Proof.
  refine (inj_countable' (fun b => (bal_round b, bal_node b)) (fun p => mkBallot (fst p) (snd p)) _).
  by intros [].
Defined.

Definition zero_ballot : Ballot := mkBallot 0 0.

Definition Compare (b o : Ballot) : Z :=
  if bal_round b <? bal_round o then -1
  else if bal_round o <? bal_round b then 1
  else if bal_node b <? bal_node o then -1
  else if bal_node o <? bal_node b then 1
  else 0.

Definition Less (b o : Ballot) : bool := Compare b o <? 0.

Definition IsZero (b : Ballot) : bool := (bal_round b =? 0) && (bal_node b =? 0).

(** [Ballot.String]. *)
Definition Ballot_String (b : Ballot) : string :=
  "r" +:+ itoa (bal_round b) +:+ ".n" +:+ itoa (bal_node b).

Record PValue := mkPValue { pv_ballot : Ballot; pv_slot : Slot; pv_value : Value }.

#[export] Instance PValue_eq_dec : EqDecision PValue.
Proof. solve_decision. Defined.

Definition zero_pvalue : PValue := mkPValue zero_ballot 0 "".

(** * The rules *)

Definition Quorum (n : Z) : Z := n / 2 + 1.

Definition MayPromise (promised b : Ballot) : bool := Less promised b.

Definition MayAccept (promised b : Ballot) : bool := negb (Less b promised).

(** The loop of [Choose] over (best, found). *)
Definition choose_step (acc : PValue * bool) (r : PValue) : PValue * bool :=
  let '(best, found) := acc in
  if IsZero (pv_ballot r) then (best, found)
  else if negb found || Less (pv_ballot best) (pv_ballot r) then (r, true)
  else (best, found).

Definition Choose (reports : list PValue) (fallback : Value) : Value :=
  let '(best, found) := foldl choose_step (zero_pvalue, false) reports in
  if found then pv_value best else fallback.

Definition ValueEqual (a b : Value) : bool := String.eqb a b.

(** * The reference acceptor *)

Record Acceptor := mkAcceptor { acc_promised : Ballot; acc_accepted : Ballot; acc_value : Value }.

Record Promise := mkPromise { pr_ballot : Ballot; pr_accepted : Ballot; pr_value : Value }.

#[export] Instance Promise_eq_dec : EqDecision Promise.
Proof. solve_decision. Defined.
#[export] Instance Promise_countable : Countable Promise.
Proof.
  refine (inj_countable' (fun m => (pr_ballot m, pr_accepted m, pr_value m))
    (fun '(b, a, v) => mkPromise b a v) _).
  by intros [].
Defined.

Record Nack := mkNack { nk_ballot : Ballot; nk_promised : Ballot }.

#[export] Instance Nack_eq_dec : EqDecision Nack.
Proof. solve_decision. Defined.
#[export] Instance Nack_countable : Countable Nack.
Proof.
  refine (inj_countable' (fun m => (nk_ballot m, nk_promised m)) (fun '(b, p) => mkNack b p) _).
  by intros [].
Defined.

(** The zero [Acceptor]: nothing promised, nothing accepted. *)
Definition new_acceptor : Acceptor := mkAcceptor zero_ballot zero_ballot "".

(** The Go method returns (Promise, Nack, ok): a sum here. *)
Definition OnPrepare (a : Acceptor) (b : Ballot) : Acceptor * (Nack + Promise) :=
  if negb (MayPromise (acc_promised a) b)
  then (a, inl (mkNack b (acc_promised a)))
  else (mkAcceptor b (acc_accepted a) (acc_value a),
        inr (mkPromise b (acc_accepted a) (acc_value a))).

(** (Nack, ok): [None] is ok. *)
Definition OnAccept (a : Acceptor) (b : Ballot) (v : Value) : Acceptor * option Nack :=
  if negb (MayAccept (acc_promised a) b)
  then (a, Some (mkNack b (acc_promised a)))
  else (mkAcceptor (if Less (acc_promised a) b then b else acc_promised a) b v, None).

(** * The reference proposer *)

(** [pp_promises] is [None] while the Go map is nil.  [pp_accepts] is written
    only after [Start] made it. *)
Record Proposer := mkProposer {
  pp_self : NodeID;
  pp_n : Z;
  pp_ballot : Ballot;
  pp_promises : option (gmap NodeID Promise);
  pp_accepts : gset NodeID;
  pp_abandoned : bool;
  pp_proposed : bool;
  pp_value : Value;
}.

Definition NewProposer (self : NodeID) (n : Z) : Proposer :=
  mkProposer self n zero_ballot None ∅ false false "".

Definition Start (p : Proposer) (round : Z) : Proposer * Ballot :=
  let b := mkBallot round (pp_self p) in
  (mkProposer (pp_self p) (pp_n p) b (Some ∅) ∅ false false "", b).

Definition ready (p : Proposer) : bool :=
  negb (pp_abandoned p) &&
  match pp_promises p with
  | Some m => Quorum (pp_n p) <=? Z.of_nat (size m)
  | None => false
  end.

Definition set_promises (p : Proposer) (m : gmap NodeID Promise) : Proposer :=
  mkProposer (pp_self p) (pp_n p) (pp_ballot p) (Some m) (pp_accepts p)
    (pp_abandoned p) (pp_proposed p) (pp_value p).

Definition OnPromise (p : Proposer) (from : NodeID) (m : Promise) : Proposer * bool :=
  match pp_promises p with
  | Some ps =>
      if pp_abandoned p || pp_proposed p || negb (bool_decide (pr_ballot m = pp_ballot p))
      then (p, ready p)
      else let p' := set_promises p (<[from := m]> ps) in (p', ready p')
  | None => (p, ready p)
  end.

Definition OnNack (p : Proposer) (m : Nack) : Proposer :=
  if bool_decide (nk_ballot m = pp_ballot p)
  then mkProposer (pp_self p) (pp_n p) (pp_ballot p) (pp_promises p) (pp_accepts p)
         true (pp_proposed p) (pp_value p)
  else p.

(** The reports [Propose] hands to [Choose]. *)
Definition reports_of (ms : list Promise) : list PValue :=
  flat_map (fun m => if IsZero (pr_accepted m) then []
                     else [mkPValue (pr_accepted m) 0 (pr_value m)]) ms.

(** The promises in the order [order], which stands for the unspecified
    iteration order of the Go map; [None] is [ErrNoQuorum]. *)
Definition Propose (order : list Promise) (p : Proposer) (want : Value)
    : Proposer * option (Ballot * Value) :=
  if negb (ready p) then (p, None)
  else if pp_proposed p then (p, Some (pp_ballot p, pp_value p))
  else
    let v := Choose (reports_of order) want in
    (mkProposer (pp_self p) (pp_n p) (pp_ballot p) (pp_promises p) (pp_accepts p)
       (pp_abandoned p) true v,
     Some (pp_ballot p, v)).

(** [order] enumerates the promises of [p]. *)
Definition promise_order (p : Proposer) (order : list Promise) : Prop :=
  match pp_promises p with
  | Some m => order ≡ₚ (map_to_list m).*2
  | None => order = []
  end.

Definition OnAccepted (p : Proposer) (from : NodeID) (b : Ballot) : Proposer * bool :=
  if pp_abandoned p || negb (pp_proposed p) || negb (bool_decide (b = pp_ballot p))
  then (p, false)
  else
    let acc := {[from]} ∪ pp_accepts p in
    (mkProposer (pp_self p) (pp_n p) (pp_ballot p) (pp_promises p) acc
       (pp_abandoned p) (pp_proposed p) (pp_value p),
     Quorum (pp_n p) <=? Z.of_nat (size acc)).

(** * The ballot order *)

Lemma Less_spec b o :
  Less b o = true <->
  bal_round b < bal_round o \/ (bal_round b = bal_round o /\ bal_node b < bal_node o).
Proof. unfold Less, Compare. repeat case_goal; b2p; rewrite ?Z.ltb_lt; lia. Qed.

Lemma Less_false b o :
  Less b o = false <->
  bal_round o < bal_round b \/ (bal_round o = bal_round b /\ bal_node o <= bal_node b).
Proof. rewrite <- not_true_iff_false, Less_spec. lia. Qed.

Lemma IsZero_spec b : IsZero b = true <-> b = zero_ballot.
Proof.
  unfold IsZero, zero_ballot. destruct b as [r n]; simpl. split.
  - intros H. b2p. by subst.
  - intros [= -> ->]. done.
Qed.

Lemma IsZero_false b : IsZero b = false <-> b <> zero_ballot.
Proof. rewrite <- IsZero_spec. by destruct (IsZero b). Qed.

Lemma ballot_eq b o : bal_round b = bal_round o -> bal_node b = bal_node o -> b = o.
Proof. destruct b, o; simpl; congruence. Qed.

(** Reduce every ballot comparison of the context and the goal to integers. *)
Ltac ballots :=
  unfold MayPromise, MayAccept in *;
  repeat match goal with
  | H : negb _ = true |- _ => apply negb_true_iff in H
  | H : negb _ = false |- _ => apply negb_false_iff in H
  | H : Less _ _ = true |- _ => apply Less_spec in H
  | H : Less _ _ = false |- _ => apply Less_false in H
  | |- Less _ _ = true => apply Less_spec
  | |- Less _ _ = false => apply Less_false
  | H : ?b <> ?o :> Ballot |- _ =>
      lazymatch goal with
      | _ : bal_round b <> bal_round o \/ bal_node b <> bal_node o |- _ => fail
      | _ => assert (bal_round b <> bal_round o \/ bal_node b <> bal_node o)
               by (destruct (decide (bal_round b = bal_round o)); [right|by left];
                   intros ?; apply H; by apply ballot_eq); clear H
      end
  | |- _ = _ :> Ballot => apply ballot_eq
  end; try lia.

Lemma Less_irrefl b : Less b b = false.
Proof. ballots. Qed.

Lemma Less_trans a b c : Less a b = true -> Less b c = true -> Less a c = true.
Proof. intros. ballots. Qed.

Lemma Less_total a b : a = b \/ Less a b = true \/ Less b a = true.
Proof.
  destruct (Less a b) eqn:?, (Less b a) eqn:?; auto. left. ballots.
Qed.

Lemma Less_le_trans a b c : Less a b = true -> Less c b = false -> Less a c = true.
Proof. intros. ballots. Qed.

Lemma Less_asym a b : Less a b = true -> Less b a = false.
Proof. intros. ballots. Qed.

Lemma le_Less_trans a b c : Less b a = false -> Less b c = true -> Less a c = true.
Proof. intros. ballots. Qed.

Lemma Less_neq a b : Less b a = false -> a <> b -> Less a b = true.
Proof. intros. ballots. Qed.

Create HintDb paxos.
#[export] Hint Resolve Less_irrefl Less_asym : paxos.

(** The order is a strict total order: [Compare] is 0 only on equal ballots
    and changes sign when its arguments are swapped. *)
Lemma Compare_antisym b o : Compare o b = - Compare b o.
Proof. unfold Compare. repeat case_goal; b2p; lia. Qed.

Lemma Compare_eq b o : Compare b o = 0 <-> b = o.
Proof.
  split; [|intros ->; unfold Compare; repeat case_goal; b2p; lia].
  unfold Compare. repeat case_goal; b2p; intros; try lia. ballots.
Qed.

(** * Choose *)

(** What the loop of [Choose] has after a prefix [l] of the reports: nothing
    when every report is zero, otherwise a report of [l] whose ballot no
    other non-zero report exceeds. *)
Definition best_of (l : list PValue) (acc : PValue * bool) : Prop :=
  if acc.2
  then acc.1 ∈ l /\ pv_ballot acc.1 <> zero_ballot /\
       forall r, r ∈ l -> pv_ballot r <> zero_ballot -> Less (pv_ballot acc.1) (pv_ballot r) = false
  else forall r, r ∈ l -> pv_ballot r = zero_ballot.

Lemma choose_step_best l acc r : best_of l acc -> best_of (l ++ [r]) (choose_step acc r).
Proof.
  destruct acc as [best found]. unfold best_of, choose_step; simpl.
  destruct (IsZero (pv_ballot r)) eqn:Z0;
    [apply IsZero_spec in Z0|apply IsZero_false in Z0]; destruct found; simpl.
  - intros (H1 & H2 & H3). split_and!; rewrite ?elem_of_snoc; auto. intros x [Hx| ->]%elem_of_snoc; auto. congruence.
  - intros H x [Hx| ->]%elem_of_snoc; auto.
  - intros (H1 & H2 & H3). destruct (Less (pv_ballot best) (pv_ballot r)) eqn:L; simpl.
    + split_and!; rewrite ?elem_of_snoc; auto. intros x [Hx| ->]%elem_of_snoc Hz; [|apply Less_irrefl].
      specialize (H3 x Hx Hz). ballots.
    + split_and!; rewrite ?elem_of_snoc; auto. intros x [Hx| ->]%elem_of_snoc Hz; auto.
  - intros H. split_and!; rewrite ?elem_of_snoc; auto. intros x [Hx| ->]%elem_of_snoc Hz; [by rewrite H in Hz|apply Less_irrefl].
Qed.

Lemma choose_best l : best_of l (foldl choose_step (zero_pvalue, false) l).
Proof.
  induction l as [|r l IH] using rev_ind.
  - intros r Hr. by apply not_elem_of_nil in Hr.
  - rewrite foldl_app. simpl. by apply choose_step_best.
Qed.

(** [Choose] returns the fallback exactly when nothing was accepted, and
    otherwise the value of a report of the highest ballot. *)
Lemma Choose_spec l w :
  (Choose l w = w /\ forall r, r ∈ l -> pv_ballot r = zero_ballot) \/
  (exists r, r ∈ l /\ pv_ballot r <> zero_ballot /\ Choose l w = pv_value r /\
     forall x, x ∈ l -> pv_ballot x <> zero_ballot -> Less (pv_ballot r) (pv_ballot x) = false).
Proof.
  pose proof (choose_best l) as H. unfold Choose.
  destruct (foldl _ _ _) as [best []]; simpl in *; [right|left].
  - destruct H as (? & ? & ?). eauto 10.
  - auto.
Qed.

(** Reports of one ballot carry one value: what an agreed log guarantees. *)
Definition one_value (l : list PValue) : Prop :=
  forall x y, x ∈ l -> y ∈ l -> pv_ballot x = pv_ballot y -> pv_value x = pv_value y.

(** Then the choice does not depend on the order in which the promises are
    enumerated, so Go's map iteration order does not matter. *)
Lemma Choose_perm l k w : one_value l -> l ≡ₚ k -> Choose l w = Choose k w.
Proof.
  intros Hov Hp.
  destruct (Choose_spec l w) as [[-> H1]|(r & Hr & Hz & -> & Hm)];
  destruct (Choose_spec k w) as [[-> H2]|(q & Hq & Hz' & -> & Hm')].
  - done.
  - rewrite <- Hp in Hq. by apply H1 in Hq.
  - rewrite Hp in Hr. by apply H2 in Hr.
  - rewrite <- Hp in Hq. apply Hov; auto.
    assert (Less (pv_ballot r) (pv_ballot q) = false) by auto.
    assert (Less (pv_ballot q) (pv_ballot r) = false).
    { apply Hm'; auto. by rewrite <- Hp. }
    ballots.
Qed.
