(* ===== verification/Voting.v ===== *)
(** Consensus by voting, once for both protocols of the program: acceptors
    cast votes for (ballot, value) pairs, a value is chosen at a ballot when a
    majority voted for it there.  [VotingRules] states what a protocol must
    maintain about its votes and proposals, and agreement is derived from it.
    PaxosSafety.v instantiates it with the reference acceptor and proposer,
    LogSafety.v with every slot of the replicated log. *)

From S2P Require Import Prelude GoStd Paxos.

(** A ballot within the lower bounds of its unsigned Go fields. *)
Definition ballot_ok (b : Ballot) : Prop := 0 <= bal_round b /\ 0 <= bal_node b.

Lemma ballot_ind (T : Ballot -> Prop) :
  (forall b, ballot_ok b -> (forall c, ballot_ok c -> Less c b = true -> T c) -> T b) ->
  forall b, ballot_ok b -> T b.
Proof.
  intros Hstep [r n] [Hr Hn]; simpl in *.
  revert n Hn. pattern r. apply Zlt_0_ind; [|lia]. clear r Hr. intros r IHr Hr n Hn.
  pattern n. apply Zlt_0_ind; [|lia]. clear n Hn. intros n IHn Hn.
  apply Hstep; [done|]. intros [r' n'] [? ?] L; simpl in *.
  apply Less_spec in L as [L|[E L]]; simpl in *; [|subst r'; apply IHn; lia].
  apply IHr; lia.
Qed.

(** * Majorities *)

Definition is_quorum (A Q : gset NodeID) : Prop :=
  Q ⊆ A /\ Quorum (Z.of_nat (size A)) <= Z.of_nat (size Q).

Lemma quorum_meet A Q R : is_quorum A Q -> is_quorum A R -> exists a, a ∈ Q /\ a ∈ R.
Proof.
  intros [HQ NQ] [HR NR].
  destruct (decide (Q ∩ R = ∅)) as [E|E].
  - exfalso.
    assert (D : size (Q ∪ R) = (size Q + size R)%nat) by (apply size_union; set_solver).
    assert (S : (size (Q ∪ R) <= size A)%nat) by (apply subseteq_size; set_solver).
    unfold Quorum in *. pose proof (Z.div_mod (Z.of_nat (size A)) 2).
    pose proof (Z.mod_pos_bound (Z.of_nat (size A)) 2). lia.
  - apply set_choose_L in E as [a Ha]. exists a. set_solver.
Qed.

Lemma quorum_inhabited A Q : is_quorum A Q -> exists a, a ∈ Q.
Proof. intros H. destruct (quorum_meet A Q Q H H) as (a & ? & ?). eauto. Qed.

(** * Votes and proposals *)

Section Voting.
Context (A : gset NodeID).
Context (voted : NodeID -> Ballot -> Value -> Prop).
Context (proposed : Ballot -> Value -> Prop).

Definition chosen_at (b : Ballot) (v : Value) : Prop :=
  exists Q, is_quorum A Q /\ forall a, a ∈ Q -> voted a b v.

(** Rule P2c as a fact about votes: some majority had cast no vote below [b],
    or the highest ballot it voted at below [b] proposed [v]. *)
Definition shows_safe (b : Ballot) (v : Value) : Prop :=
  exists Q, is_quorum A Q /\
    ((forall a c w, a ∈ Q -> Less c b = true -> ~ voted a c w) \/
     exists c0, Less c0 b = true /\ proposed c0 v /\
       forall a c w, a ∈ Q -> Less c0 c = true -> Less c b = true -> ~ voted a c w).

Record VotingRules : Prop := {
  vr_ok : forall b v, proposed b v -> ballot_ok b;
  vr_vote : forall a b v, voted a b v -> proposed b v;
  vr_one : forall b v w, proposed b v -> proposed b w -> v = w;
  vr_safe : forall b v, proposed b v -> shows_safe b v;
}.

Lemma chosen_below_proposed (R : VotingRules) c w b v :
  chosen_at c w -> proposed b v -> Less c b = true -> w = v.
Proof.
  intros (Qc & HQc & Hc) Hb. assert (Hok : ballot_ok b) by by eapply vr_ok.
  revert b Hok v Hb. refine (ballot_ind _ _). intros b Hok IH v Hb L.
  destruct (vr_safe R b v Hb) as (Q & HQ & Hs).
  destruct (quorum_meet _ _ _ HQc HQ) as (a & Ha & Ha').
  destruct Hs as [Hnone|(c0 & L0 & Hc0 & Hgap)].
  - by destruct (Hnone a c w Ha' L (Hc a Ha)).
  - destruct (Less_total c c0) as [->|[L1|L1]].
    + eapply vr_one; eauto. by eapply vr_vote, Hc.
    + eapply (IH c0); eauto. by eapply vr_ok.
    + by destruct (Hgap a c w Ha' L1 L (Hc a Ha)).
Qed.

(** A stronger, inductive form of [shows_safe]: the majority has promised [b],
    so it will never vote below [b] again. *)
Definition safe_with (promised : NodeID -> Ballot) (b : Ballot) (v : Value) : Prop :=
  exists Q, is_quorum A Q /\ (forall a, a ∈ Q -> Less (promised a) b = false) /\
    ((forall a c w, a ∈ Q -> Less c b = true -> ~ voted a c w) \/
     exists c0, Less c0 b = true /\ proposed c0 v /\
       forall a c w, a ∈ Q -> Less c0 c = true -> Less c b = true -> ~ voted a c w).

Lemma safe_with_shows promised b v : safe_with promised b v -> shows_safe b v.
Proof. intros (Q & ? & _ & ?). by exists Q. Qed.

(** What the promise of acceptor [a] for ballot [b] reports: [rep] holds
    accepted proposals below [b], and covers every vote of [a] below [b]. *)
Record report_ok (promised : NodeID -> Ballot) (a : NodeID) (b : Ballot) (rep : list PValue) : Prop := {
  ro_promised : Less (promised a) b = false;
  ro_below : forall pv, pv ∈ rep -> pv_ballot pv <> zero_ballot ->
    Less (pv_ballot pv) b = true /\ proposed (pv_ballot pv) (pv_value pv);
  ro_covers : forall c w, voted a c w -> Less c b = true ->
    exists pv, pv ∈ rep /\ pv_ballot pv <> zero_ballot /\ Less (pv_ballot pv) c = false;
}.

(** The takeover: choosing from the reports of a majority is safe, whatever
    the fallback value. *)
Lemma takeover_safe promised b Q rep l w :
  is_quorum A Q ->
  (forall a, a ∈ Q -> report_ok promised a b (rep a)) ->
  (forall pv, pv ∈ l -> exists a, a ∈ Q /\ pv ∈ rep a) ->
  (forall a pv, a ∈ Q -> pv ∈ rep a -> pv_ballot pv <> zero_ballot -> pv ∈ l) ->
  safe_with promised b (Choose l w).
Proof.
  intros HQ Hrep Hl Hl'. exists Q. split; [done|]. split.
  { intros a Ha. apply (ro_promised _ _ _ _ (Hrep a Ha)). }
  destruct (Choose_spec l w) as [[_ Hz]|(r & Hr & Hnz & -> & Hmax)]; [left|right].
  - intros a c x Ha L Hv.
    destruct (ro_covers _ _ _ _ (Hrep a Ha) c x Hv L) as (pv & Hpv & Hne & _).
    apply Hne, Hz. by eapply Hl'.
  - destruct (Hl r Hr) as (a0 & Ha0 & Hr0).
    destruct (ro_below _ _ _ _ (Hrep a0 Ha0) r Hr0 Hnz) as [L0 P0].
    exists (pv_ballot r). split_and!; auto. intros a c x Ha L L' Hv.
    destruct (ro_covers _ _ _ _ (Hrep a Ha) c x Hv L') as (pv & Hpv & Hne & Hge).
    assert (H : Less (pv_ballot r) (pv_ballot pv) = false) by (apply Hmax; eauto).
    ballots.
Qed.

(** Agreement. *)
Lemma chosen_agree (R : VotingRules) b v c w :
  chosen_at b v -> chosen_at c w -> v = w.
Proof.
  intros Hb Hc.
  assert (Pb : proposed b v).
  { destruct Hb as (Q & HQ & H). destruct (quorum_inhabited _ _ HQ). by eapply vr_vote, H. }
  assert (Pc : proposed c w).
  { destruct Hc as (Q & HQ & H). destruct (quorum_inhabited _ _ HQ). by eapply vr_vote, H. }
  destruct (Less_total b c) as [->|[L|L]].
  - by eapply vr_one.
  - by eapply chosen_below_proposed.
  - symmetry. by eapply chosen_below_proposed.
Qed.
End Voting.

(** Promises only rise and an acceptor votes only at or above its promise:
    then safety is stable. *)
Lemma safe_with_mono A voted voted' (proposed proposed' : Ballot -> Value -> Prop) promised promised' b v :
  (forall a, Less (promised' a) (promised a) = false) ->
  (forall c w, proposed c w -> proposed' c w) ->
  (forall a c w, voted' a c w -> voted a c w \/ Less c (promised a) = false) ->
  safe_with A voted proposed promised b v -> safe_with A voted' proposed' promised' b v.
Proof.
  intros Hp Hprop Hv (Q & HQ & HpQ & H). exists Q. split; [done|]. split.
  { intros a Ha. specialize (HpQ a Ha). specialize (Hp a). ballots. }
  destruct H as [H|(c0 & L0 & Hc0 & H)]; [left|right; exists c0; split_and!; auto].
  - intros a c w Ha L Hvote. destruct (Hv a c w Hvote) as [?|Hge]; [by eapply H|].
    specialize (HpQ a Ha). ballots.
  - intros a c w Ha L L' Hvote. destruct (Hv a c w Hvote) as [?|Hge]; [by eapply H|].
    specialize (HpQ a Ha). ballots.
Qed.

Lemma report_ok_mono voted voted' (proposed proposed' : Ballot -> Value -> Prop) promised promised' a b rep :
  Less (promised' a) (promised a) = false ->
  (forall c w, proposed c w -> proposed' c w) ->
  (forall c w, voted' a c w -> voted a c w \/ Less c (promised a) = false) ->
  report_ok voted proposed promised a b rep -> report_ok voted' proposed' promised' a b rep.
Proof.
  intros Hp Hprop Hv [H1 H2 H3]. split.
  - ballots.
  - intros pv Hpv Hnz. destruct (H2 pv Hpv Hnz). auto.
  - intros c w Hvote L. destruct (Hv c w Hvote) as [?|Hge]; [by eapply H3|]. ballots.
Qed.
