(* ===== verification/PaxosSafety.v ===== *)
(** Agreement of the reference acceptor and proposer of Paxos.v when any
    number of proposers and acceptors exchange messages over a network that
    loses, duplicates, delays and reorders them, proposers crash and restart
    with nothing but their last round, and acceptors are durable. *)

From stdpp Require Import functions.
From S2P Require Import Prelude GoStd Paxos Voting.

(** * The system

    The network is the set of messages ever sent, one set per kind: a message
    may be delivered never, once or many times, in any order.
    [sys_used] is the last round each node started an attempt with, which the
    caller keeps across restarts; a round is a [uint64].  [sys_wanted] and [sys_decided] record every
    value passed to [Propose] and every value a proposer saw chosen. *)

Record Sys := mkSys {
  sys_acceptors : NodeID -> Acceptor;
  sys_proposers : NodeID -> Proposer;
  sys_used : NodeID -> Z;
  net_prepare : gset Ballot;
  net_promise : gset (NodeID * Promise);
  net_nack : gset Nack;
  net_accept : gset (Ballot * Value);
  net_accepted : gset (NodeID * Ballot);
  sys_wanted : gset Value;
  sys_decided : gset (NodeID * Value);
}.

Section System.
Context (A : gset NodeID).

Definition group_size : Z := Z.of_nat (size A).

Definition sys_init : Sys :=
  mkSys (fun _ => new_acceptor) (fun p => NewProposer p group_size) (fun _ => 0)
    ∅ ∅ ∅ ∅ ∅ ∅ ∅.

Definition with_proposer (s : Sys) (p : NodeID) (P : Proposer) : Sys :=
  mkSys (sys_acceptors s) (<[p := P]> (sys_proposers s)) (sys_used s) (net_prepare s)
    (net_promise s) (net_nack s) (net_accept s) (net_accepted s) (sys_wanted s) (sys_decided s).

(** A new attempt of [p] at round [r], after [Start]. *)
Definition do_start (s : Sys) (p : NodeID) (r : Z) : Sys :=
  let '(P, b) := Start (sys_proposers s p) r in
  mkSys (sys_acceptors s) (<[p := P]> (sys_proposers s)) (<[p := r]> (sys_used s))
    ({[b]} ∪ net_prepare s) (net_promise s) (net_nack s) (net_accept s) (net_accepted s)
    (sys_wanted s) (sys_decided s).

Definition do_prepare (s : Sys) (a : NodeID) (b : Ballot) : Sys :=
  let '(x, reply) := OnPrepare (sys_acceptors s a) b in
  mkSys (<[a := x]> (sys_acceptors s)) (sys_proposers s) (sys_used s) (net_prepare s)
    (match reply with inr m => {[(a, m)]} ∪ net_promise s | inl _ => net_promise s end)
    (match reply with inl k => {[k]} ∪ net_nack s | inr _ => net_nack s end)
    (net_accept s) (net_accepted s) (sys_wanted s) (sys_decided s).

Definition do_propose (s : Sys) (p : NodeID) (order : list Promise) (want : Value) : Sys :=
  let '(P, out) := Propose order (sys_proposers s p) want in
  mkSys (sys_acceptors s) (<[p := P]> (sys_proposers s)) (sys_used s) (net_prepare s)
    (net_promise s) (net_nack s)
    (match out with Some bv => {[bv]} ∪ net_accept s | None => net_accept s end)
    (net_accepted s) ({[want]} ∪ sys_wanted s) (sys_decided s).

Definition do_accept (s : Sys) (a : NodeID) (b : Ballot) (v : Value) : Sys :=
  let '(x, reply) := OnAccept (sys_acceptors s a) b v in
  mkSys (<[a := x]> (sys_acceptors s)) (sys_proposers s) (sys_used s) (net_prepare s)
    (net_promise s)
    (match reply with Some k => {[k]} ∪ net_nack s | None => net_nack s end)
    (net_accept s)
    (match reply with None => {[(a, b)]} ∪ net_accepted s | Some _ => net_accepted s end)
    (sys_wanted s) (sys_decided s).

Definition do_accepted (s : Sys) (p a : NodeID) (b : Ballot) : Sys :=
  let '(P, chosen) := OnAccepted (sys_proposers s p) a b in
  mkSys (sys_acceptors s) (<[p := P]> (sys_proposers s)) (sys_used s) (net_prepare s)
    (net_promise s) (net_nack s) (net_accept s) (net_accepted s) (sys_wanted s)
    (if chosen : bool then {[(p, pp_value P)]} ∪ sys_decided s else sys_decided s).

Inductive step (s : Sys) : Sys -> Prop :=
| step_start p r : 0 <= p -> p < 2 ^ 32 -> sys_used s p < r -> r < 2 ^ 64 -> step s (do_start s p r)
| step_prepare a b : a ∈ A -> b ∈ net_prepare s -> step s (do_prepare s a b)
| step_promise p a m : (a, m) ∈ net_promise s ->
    step s (with_proposer s p (OnPromise (sys_proposers s p) a m).1)
| step_nack p m : m ∈ net_nack s -> step s (with_proposer s p (OnNack (sys_proposers s p) m))
| step_propose p order want : promise_order (sys_proposers s p) order ->
    step s (do_propose s p order want)
| step_accept a b v : a ∈ A -> (b, v) ∈ net_accept s -> step s (do_accept s a b v)
| step_accepted p a b : (a, b) ∈ net_accepted s -> step s (do_accepted s p a b)
| step_crash p : step s (with_proposer s p (NewProposer p group_size)).

Definition reachable (s : Sys) : Prop := rtc step sys_init s.

(** * The invariant

    Its parts take the message sets they read, so that a step that leaves a
    set alone leaves them alone. *)

Abbreviation promises_t := (gset (NodeID * Promise)).
Abbreviation accepts_t := (gset (Ballot * Value)).
Abbreviation accepteds_t := (gset (NodeID * Ballot)).

Definition voted (ac : accepts_t) (ad : accepteds_t) (a : NodeID) (b : Ballot) (v : Value) : Prop :=
  (a, b) ∈ ad /\ (b, v) ∈ ac.
Definition proposed (ac : accepts_t) (b : Ballot) (v : Value) : Prop := (b, v) ∈ ac.
Definition promised (accs : NodeID -> Acceptor) (a : NodeID) : Ballot := acc_promised (accs a).
Definition report (m : Promise) : list PValue := [mkPValue (pr_accepted m) 0 (pr_value m)].

(** What holds of one proposer given the messages sent. *)
Record proposer_ok (pm : promises_t) (ac : accepts_t) (ad : accepteds_t)
    (p : NodeID) (P : Proposer) (used : Z) : Prop := {
  po_self : pp_self P = p /\ pp_n P = group_size;
  po_used : 0 <= used;
  po_none : pp_promises P = None -> pp_ballot P = zero_ballot /\ pp_proposed P = false;
  po_some : forall ps, pp_promises P = Some ps ->
    0 <= p /\ bal_node (pp_ballot P) = p /\ 1 <= bal_round (pp_ballot P) <= used;
  po_coll : forall ps a m, pp_promises P = Some ps -> ps !! a = Some m ->
    (a, m) ∈ pm /\ pr_ballot m = pp_ballot P;
  po_prop : pp_proposed P = true -> (pp_ballot P, pp_value P) ∈ ac;
  po_uniq : forall b v, (b, v) ∈ ac -> bal_node b = p ->
    0 <= p /\ 1 <= bal_round b <= used /\
    (b = pp_ballot P -> pp_proposed P = true /\ v = pp_value P);
  po_accs : forall a, a ∈ pp_accepts P -> pp_proposed P = true /\ (a, pp_ballot P) ∈ ad;
}.

Record acceptor_ok (ac : accepts_t) (ad : accepteds_t) (a : NodeID) (x : Acceptor) : Prop := {
  ao_accepted : acc_accepted x <> zero_ballot ->
    (a, acc_accepted x) ∈ ad /\ (acc_accepted x, acc_value x) ∈ ac;
  ao_order : Less (acc_promised x) (acc_accepted x) = false;
  ao_last : forall b, (a, b) ∈ ad -> Less (acc_accepted x) b = false;
}.

Record messages_ok (accs : NodeID -> Acceptor) (pm : promises_t) (ac : accepts_t) (ad : accepteds_t) : Prop := {
  mo_accepted : forall a b, (a, b) ∈ ad -> a ∈ A /\ exists v, (b, v) ∈ ac;
  mo_one : forall b v w, (b, v) ∈ ac -> (b, w) ∈ ac -> v = w;
  mo_rep : forall a m, (a, m) ∈ pm ->
    a ∈ A /\ report_ok (voted ac ad) (proposed ac) (promised accs) a (pr_ballot m) (report m);
  mo_safe : forall b v, (b, v) ∈ ac ->
    ballot_ok b /\ safe_with A (voted ac ad) (proposed ac) (promised accs) b v;
}.

Record Inv (s : Sys) : Prop := {
  i_prop : forall p, proposer_ok (net_promise s) (net_accept s) (net_accepted s) p
             (sys_proposers s p) (sys_used s p);
  i_acc : forall a, acceptor_ok (net_accept s) (net_accepted s) a (sys_acceptors s a);
  i_msg : messages_ok (sys_acceptors s) (net_promise s) (net_accept s) (net_accepted s);
  i_valid : forall b v, (b, v) ∈ net_accept s -> v ∈ sys_wanted s;
  i_dec : forall p v, (p, v) ∈ sys_decided s ->
    exists b, chosen_at A (voted (net_accept s) (net_accepted s)) b v;
}.

Ltac no_elem := let H := fresh in intros; match goal with H : _ ∈ ∅ |- _ => by apply not_elem_of_empty in H end.

Lemma Inv_init : Inv sys_init.
Proof.
  split; simpl; try no_elem.
  - intros p. split; simpl; try (done || no_elem || lia).
  - intros a. split; simpl; (done || no_elem).
  - split; no_elem.
Qed.

(** ** Each proposer operation preserves [proposer_ok] *)

Section Proposers.
Context (pm : promises_t) (ac : accepts_t) (ad : accepteds_t).

Lemma Start_ok p P u r :
  proposer_ok pm ac ad p P u -> 0 <= p -> u < r -> proposer_ok pm ac ad p (Start P r).1 r.
Proof.
  intros [[H1 H1'] H2 H3 H4 H5 H6 H7 H8] Hp Hr. split; simpl; try (done || lia || no_elem).
  - intros ps a m Hps H. by simplify_map_eq.
  - intros b v Hb Hn. destruct (H7 b v Hb Hn) as (? & ? & _). split_and!; try lia.
    intros E; rewrite E in *; simpl in *; lia.
Qed.

Lemma OnPromise_ok p P u a m :
  proposer_ok pm ac ad p P u -> (a, m) ∈ pm -> proposer_ok pm ac ad p (OnPromise P a m).1 u.
Proof.
  intros H Hm. unfold OnPromise. destruct (pp_promises P) as [ps|] eqn:E; [|done].
  case_goal; [done|]. b2p. destruct H as [P1 P2 P3 P4 P5 P6 P7 P8].
  split; simpl; try (done || eauto).
  intros qs a' m' Hqs. simplify_eq. rewrite lookup_insert. case_decide; [intros ?; by simplify_eq|eauto].
Qed.

Lemma OnNack_ok p P u m :
  proposer_ok pm ac ad p P u -> proposer_ok pm ac ad p (OnNack P m) u.
Proof. intros H. unfold OnNack. case_goal; [|done]. by destruct H. Qed.

Lemma OnAccepted_ok p P u a b :
  proposer_ok pm ac ad p P u -> (a, b) ∈ ad -> proposer_ok pm ac ad p (OnAccepted P a b).1 u.
Proof.
  intros H Hm. unfold OnAccepted. case_goal; [done|]. b2p. subst b.
  destruct H as [P1 P2 P3 P4 P5 P6 P7 P8]. split; simpl; auto.
  intros x [->%elem_of_singleton|Hx]%elem_of_union; auto.
Qed.

Lemma NewProposer_ok p P u :
  proposer_ok pm ac ad p P u -> proposer_ok pm ac ad p (NewProposer p group_size) u.
Proof.
  intros [H1 H2 H3 H4 H5 H6 H7 H8]. split; simpl; try (done || no_elem).
  intros b v Hb Hn. destruct (H7 b v Hb Hn) as (? & ? & _). split_and!; try lia.
  intros ->. simpl in *. lia.
Qed.
End Proposers.

(** A proposer that has a value and counts a quorum of [Accepted] replies has
    seen its value chosen. *)
Lemma OnAccepted_chosen accs pm ac ad p P u a b :
  messages_ok accs pm ac ad -> proposer_ok pm ac ad p P u -> (a, b) ∈ ad ->
  (OnAccepted P a b).2 = true ->
  chosen_at A (voted ac ad) (pp_ballot P) (pp_value (OnAccepted P a b).1).
Proof.
  intros M H Hm. pose proof (OnAccepted_ok _ _ _ _ _ _ _ _ H Hm) as H'.
  revert H'. unfold OnAccepted. case_goal; [done|]. simpl. intros H' Hq. b2p. subst b.
  exists ({[a]} ∪ pp_accepts P). destruct (po_self _ _ _ _ _ _ H) as [_ Hn].
  assert (Hsub : forall x, x ∈ {[a]} ∪ pp_accepts P -> (x, pp_ballot P) ∈ ad).
  { intros x Hx. by apply (po_accs _ _ _ _ _ _ H' x) in Hx as [_ ?]. }
  split; [split|].
  - intros x Hx. apply Hsub, (mo_accepted _ _ _ _ M) in Hx. tauto.
  - by rewrite Hn in Hq.
  - intros x Hx. split; [by apply Hsub|]. by apply (po_prop _ _ _ _ _ _ H).
Qed.

(** ** Proposer steps that send no Phase 2 message *)

Lemma Inv_proposer s p P used' pre dec :
  Inv s ->
  proposer_ok (net_promise s) (net_accept s) (net_accepted s) p P (used' p) ->
  (forall q, p <> q -> used' q = sys_used s q) ->
  (forall q v, (q, v) ∈ dec -> exists b, chosen_at A (voted (net_accept s) (net_accepted s)) b v) ->
  Inv (mkSys (sys_acceptors s) (<[p := P]> (sys_proposers s)) used' pre
         (net_promise s) (net_nack s) (net_accept s) (net_accepted s) (sys_wanted s) dec).
Proof.
  intros [I1 I2 I3 I4 I5] HP Hu Hdec. split; simpl; auto.
  intros q. destruct (decide (p = q)) as [<-|Hne].
  - by rewrite !fn_lookup_insert.
  - rewrite !fn_lookup_insert_ne by done. rewrite Hu by done. apply I1.
Qed.

Lemma Inv_accepted s p a b : Inv s -> (a, b) ∈ net_accepted s -> Inv (do_accepted s p a b).
Proof.
  intros I Hm. unfold do_accepted. pose proof (i_prop s I p) as HP.
  pose proof (OnAccepted_chosen _ _ _ _ _ _ _ _ _ (i_msg s I) HP Hm) as Hc.
  pose proof (OnAccepted_ok _ _ _ _ _ _ _ _ HP Hm) as HP'.
  destruct (OnAccepted _ _ _) as [P []]; simpl in *; apply Inv_proposer; auto using (i_dec s I).
  - intros q v Hq. rewrite elem_of_union, elem_of_singleton in Hq.
    destruct Hq as [[= -> ->]|Hq]; [eauto|by eapply i_dec].
  - by apply i_dec.
Qed.

(** ** Acceptor steps *)

(** Promises rise, votes are added at or above the promise. *)
Lemma messages_ok_mono accs accs' pm ac ad ad' :
  messages_ok accs pm ac ad ->
  (forall a, Less (promised accs' a) (promised accs a) = false) ->
  (forall a b, (a, b) ∈ ad' -> (a, b) ∈ ad \/
     (a ∈ A /\ (exists v, (b, v) ∈ ac) /\ Less b (promised accs a) = false)) ->
  messages_ok accs' pm ac ad'.
Proof.
  intros [M1 M2 M3 M4] Hp Hn.
  assert (Hv : forall a c w, voted ac ad' a c w -> voted ac ad a c w \/ Less c (promised accs a) = false).
  { intros a c w [Ha Hc]. destruct (Hn a c Ha) as [?|(_ & _ & ?)]; [left; by split|by right]. }
  split; auto.
  - intros a b Hb. destruct (Hn a b Hb) as [?|(? & ? & _)]; eauto.
  - intros a m Hm. destruct (M3 a m Hm) as [Ha Hr]. split; [done|].
    eapply report_ok_mono; eauto.
  - intros b v Hb. destruct (M4 b v Hb) as [Ho Hs]. split; [done|].
    eapply safe_with_mono; eauto.
Qed.

Lemma messages_ok_promise accs pm ac ad a m :
  messages_ok accs pm ac ad -> a ∈ A ->
  report_ok (voted ac ad) (proposed ac) (promised accs) a (pr_ballot m) (report m) ->
  messages_ok accs ({[(a, m)]} ∪ pm) ac ad.
Proof.
  intros [M1 M2 M3 M4] Ha Hr. split; auto.
  intros x k [E%elem_of_singleton|?]%elem_of_union; [by simplify_eq|auto].
Qed.

(** Growing the message sets keeps what a proposer relies on. *)
Lemma proposer_ok_mono pm pm' ac ad ad' p P u :
  pm ⊆ pm' -> ad ⊆ ad' -> proposer_ok pm ac ad p P u -> proposer_ok pm' ac ad' p P u.
Proof.
  intros Hpm Had [P1 P2 P3 P4 P5 P6 P7 P8]. split; auto.
  - intros ps a m H1 H2. destruct (P5 ps a m H1 H2). auto.
  - intros a Ha. destruct (P8 a Ha). auto.
Qed.

Lemma chosen_mono ac ad ad' b v :
  ad ⊆ ad' -> chosen_at A (voted ac ad) b v -> chosen_at A (voted ac ad') b v.
Proof.
  intros Had (Q & HQ & H). exists Q. split; [done|].
  intros a Ha. destruct (H a Ha). split; auto.
Qed.

(** An ended Phase 2 message never carries the zero ballot. *)
Lemma accept_nonzero s b v : Inv s -> (b, v) ∈ net_accept s -> Less zero_ballot b = true.
Proof.
  intros I Hb. destruct (po_uniq _ _ _ _ _ _ (i_prop s I (bal_node b)) b v Hb eq_refl) as (? & ? & _).
  apply Less_spec. simpl. lia.
Qed.

Lemma promised_insert accs a x c :
  Less (acc_promised x) (promised accs a) = false ->
  Less (promised (<[a := x]> accs) c) (promised accs c) = false.
Proof.
  intros H. unfold promised in *. destruct (decide (a = c)) as [<-|?].
  - by rewrite fn_lookup_insert.
  - rewrite fn_lookup_insert_ne by done. auto with paxos.
Qed.

Lemma Inv_acceptor s a x pm' ad' nk :
  Inv s -> net_promise s ⊆ pm' -> net_accepted s ⊆ ad' ->
  messages_ok (<[a := x]> (sys_acceptors s)) pm' (net_accept s) ad' ->
  acceptor_ok (net_accept s) ad' a x ->
  (forall c b, a <> c -> (c, b) ∈ ad' -> (c, b) ∈ net_accepted s) ->
  Inv (mkSys (<[a := x]> (sys_acceptors s)) (sys_proposers s) (sys_used s) (net_prepare s)
         pm' nk (net_accept s) ad' (sys_wanted s) (sys_decided s)).
Proof.
  intros [I1 I2 I3 I4 I5] Hpm Had HM Hx Hother. split; simpl; auto.
  - intros p. eapply proposer_ok_mono; eauto.
  - intros c. destruct (decide (a = c)) as [<-|?]; [by rewrite fn_lookup_insert|].
    rewrite fn_lookup_insert_ne by done. destruct (I2 c) as [A1 A2 A3]. split; auto.
    intros H. destruct (A1 H). auto.
  - intros p v Hd. destruct (I5 p v Hd) as [b Hb]. exists b. by eapply chosen_mono.
Qed.

Lemma Inv_prepare s a b : Inv s -> a ∈ A -> Inv (do_prepare s a b).
Proof.
  intros I Ha. unfold do_prepare, OnPrepare. pose proof (i_acc s I a) as [A1 A2 A3].
  case_goal; simpl.
  - apply Inv_acceptor; auto; [|by split].
    eapply messages_ok_mono; [apply I| |auto].
    intros c. apply promised_insert. apply Less_irrefl.
  - ballots. set (x := mkAcceptor _ _ _).
    assert (Hup : forall c, Less (promised (<[a:=x]> (sys_acceptors s)) c) (promised (sys_acceptors s) c) = false).
    { intros c. apply promised_insert. unfold promised. simpl. ballots. }
    apply Inv_acceptor; auto; [set_solver| |split; simpl; auto; ballots].
    apply messages_ok_promise; auto; [eapply messages_ok_mono; [apply I|done|auto]|].
    split; simpl.
    + unfold promised. rewrite fn_lookup_insert. apply Less_irrefl.
    + intros pv ->%list_elem_of_singleton Hnz. simpl in *. destruct (A1 Hnz). split; [|done]. ballots.
    + intros c w [Hc Hw] _. eexists. split; [by apply list_elem_of_singleton|]. simpl.
      pose proof (A3 c Hc) as Hle. split; [|done]. intros Hz. rewrite Hz in Hle.
      pose proof (accept_nonzero s c w I Hw). congruence.
Qed.

Lemma Inv_accept s a b v : Inv s -> a ∈ A -> (b, v) ∈ net_accept s -> Inv (do_accept s a b v).
Proof.
  intros I Ha Hb. unfold do_accept, OnAccept. pose proof (i_acc s I a) as [A1 A2 A3].
  case_goal; simpl.
  - apply Inv_acceptor; auto; [|by split].
    eapply messages_ok_mono; [apply I| |auto]. intros c. apply promised_insert, Less_irrefl.
  - ballots. set (x := mkAcceptor _ _ _).
    assert (Hxp : Less (acc_promised x) (acc_promised (sys_acceptors s a)) = false /\
                  Less (acc_promised x) b = false).
    { subst x. simpl. case_goal; split; ballots. }
    apply Inv_acceptor; auto; [set_solver| | |set_solver].
    + eapply messages_ok_mono; [apply I|intros c; apply promised_insert, Hxp|].
      intros c b' [Hs%elem_of_singleton|?]%elem_of_union; [simplify_eq|auto].
      right. split_and!; eauto. unfold promised. ballots.
    + split; simpl; [intros _; set_solver|tauto|].
      intros c [Hs%elem_of_singleton|Hc]%elem_of_union; [simplify_eq; apply Less_irrefl|].
      specialize (A3 c Hc). ballots.
Qed.

(** ** The Phase 2 step *)

Lemma reports_of_elem ms pv :
  pv ∈ reports_of ms <->
  exists m, m ∈ ms /\ pr_accepted m <> zero_ballot /\ pv = mkPValue (pr_accepted m) 0 (pr_value m).
Proof.
  unfold reports_of. rewrite list_elem_of_In, in_flat_map. setoid_rewrite <- list_elem_of_In.
  split; intros (m & Hm & H); exists m; revert H; case_goal.
  - by intros []%not_elem_of_nil.
  - apply IsZero_false in E. intros ->%list_elem_of_singleton. auto.
  - apply IsZero_spec in E. by intros [? _].
  - intros [_ ->]. split; [done|]. by apply list_elem_of_singleton.
Qed.

(** The value a proposer picks from a quorum of promises is safe. *)
Lemma Propose_safe s p order want ps :
  Inv s -> pp_promises (sys_proposers s p) = Some ps -> order ≡ₚ (map_to_list ps).*2 ->
  ready (sys_proposers s p) = true ->
  safe_with A (voted (net_accept s) (net_accepted s)) (proposed (net_accept s))
    (promised (sys_acceptors s)) (pp_ballot (sys_proposers s p)) (Choose (reports_of order) want).
Proof.
  intros I Hps Hord Hready. pose proof (i_prop s I p) as HP.
  unfold ready in Hready. rewrite Hps in Hready. b2p.
  assert (Hcoll : forall a m, ps !! a = Some m -> a ∈ A /\
     report_ok (voted (net_accept s) (net_accepted s)) (proposed (net_accept s))
       (promised (sys_acceptors s)) a (pp_ballot (sys_proposers s p)) (report m)).
  { intros a m Hm. destruct (po_coll _ _ _ _ _ _ HP ps a m Hps Hm) as [Hin <-].
    exact (mo_rep _ _ _ _ (i_msg s I) a m Hin). }
  apply (takeover_safe _ _ _ _ _ (dom ps)
          (fun a => match ps !! a with Some m => report m | None => [] end)).
  - split; [intros a [m Hm]%elem_of_dom; by apply (Hcoll a m)|].
    rewrite size_dom. destruct (po_self _ _ _ _ _ _ HP) as [_ Hn]. by rewrite Hn in *.
  - intros a [m Hm]%elem_of_dom. rewrite Hm. by apply Hcoll.
  - intros pv (m & Hm & Hnz & ->)%reports_of_elem. rewrite Hord in Hm.
    apply list_elem_of_fmap in Hm as ([a m'] & -> & Hm%elem_of_map_to_list).
    exists a. split; [by apply elem_of_dom_2 in Hm|]. rewrite Hm. by apply list_elem_of_singleton.
  - intros a pv [m Hm]%elem_of_dom. rewrite Hm. intros ->%list_elem_of_singleton Hnz.
    apply reports_of_elem. exists m. split_and!; auto. rewrite Hord.
    apply list_elem_of_fmap. exists (a, m). split; [done|]. by apply elem_of_map_to_list.
Qed.

Lemma messages_ok_accept accs pm ac ad b v :
  messages_ok accs pm ac ad -> (forall w, (b, w) ∉ ac) -> ballot_ok b ->
  safe_with A (voted ac ad) (proposed ac) (promised accs) b v ->
  messages_ok accs pm ({[(b, v)]} ∪ ac) ad.
Proof.
  intros [M1 M2 M3 M4] Hfresh Hok Hsafe.
  assert (Hp : forall c w, proposed ac c w -> proposed ({[(b, v)]} ∪ ac) c w)
    by (unfold proposed; set_solver).
  assert (Hv : forall a c w, voted ({[(b, v)]} ∪ ac) ad a c w ->
                 voted ac ad a c w \/ Less c (promised accs a) = false).
  { intros a c w [Ha [Hs%elem_of_singleton|Hc]%elem_of_union]; [|by left; split].
    simplify_eq. destruct (M1 a b Ha) as (_ & x & Hx). by apply Hfresh in Hx. }
  assert (Hs : forall c w, safe_with A (voted ac ad) (proposed ac) (promised accs) c w ->
            safe_with A (voted ({[(b, v)]} ∪ ac) ad) (proposed ({[(b, v)]} ∪ ac)) (promised accs) c w).
  { intros c w. apply safe_with_mono; auto with paxos. }
  split.
  - intros a c Hc. destruct (M1 a c Hc) as (? & w & ?). split; [done|]. exists w. set_solver.
  - intros c x y [Hx%elem_of_singleton|Hx]%elem_of_union [Hy%elem_of_singleton|Hy]%elem_of_union;
      simplify_eq; eauto; by apply Hfresh in Hx || apply Hfresh in Hy.
  - intros a m Hm. destruct (M3 a m Hm) as [Ha Hr]. split; [done|].
    eapply report_ok_mono; eauto with paxos.
  - intros c w [Hx%elem_of_singleton|Hx]%elem_of_union; [simplify_eq; auto|].
    destruct (M4 c w Hx). auto.
Qed.

Lemma Inv_propose s p order want :
  Inv s -> promise_order (sys_proposers s p) order -> Inv (do_propose s p order want).
Proof.
  intros I Hord. unfold do_propose, Propose. pose proof (i_prop s I p) as HP.
  assert (Hwanted : forall b v, (b, v) ∈ net_accept s -> v ∈ {[want]} ∪ sys_wanted s)
    by (intros; apply elem_of_union_r; by eapply i_valid).
  assert (Hsame : forall q, proposer_ok (net_promise s) (net_accept s) (net_accepted s) q
            ((<[p := sys_proposers s p]> (sys_proposers s)) q) (sys_used s q)).
  { intros q. destruct (decide (p = q)) as [<-|?]; [by rewrite fn_lookup_insert|].
    rewrite fn_lookup_insert_ne by done. apply I. }
  destruct (ready (sys_proposers s p)) eqn:Hready; simpl; [|by destruct I].
  destruct (pp_proposed (sys_proposers s p)) eqn:Hprop; simpl.
  { pose proof (po_prop _ _ _ _ _ _ HP Hprop) as Hin.
    replace ({[_]} ∪ net_accept s) with (net_accept s) by set_solver. by destruct I. }
  destruct (pp_promises (sys_proposers s p)) as [ps|] eqn:Hps;
    [|by unfold ready in Hready; rewrite Hps, andb_false_r in Hready].
  unfold promise_order in Hord. rewrite Hps in Hord.
  pose proof (Propose_safe s p order want ps I Hps Hord Hready) as Hsafe.
  destruct (po_some _ _ _ _ _ _ HP ps Hps) as (Hp0 & Hnode & Hround).
  set (b := pp_ballot (sys_proposers s p)) in *. set (v := Choose _ _) in *.
  assert (Hfresh : forall w, (b, w) ∉ net_accept s).
  { intros w Hw. destruct (po_uniq _ _ _ _ _ _ HP b w Hw Hnode) as (_ & _ & Hcur).
    destruct (Hcur eq_refl). congruence. }
  destruct I as [I1 I2 I3 I4 I5]. split; simpl; auto.
  - intros q. destruct (decide (p = q)) as [<-|Hne].
    + rewrite fn_lookup_insert. destruct (I1 p) as [P1 P2 P3 P4 P5 P6 P7 P8].
      split; simpl; try (done || eauto).
      * intros qs a m Hqs. apply P5. by rewrite Hps.
      * intros _. set_solver.
      * intros c w [Hs%elem_of_singleton|Hc]%elem_of_union Hn; [simplify_eq; auto|].
        destruct (P7 c w Hc Hn) as (? & ? & Hcur). split_and!; auto; try lia.
        intros ->. by apply Hfresh in Hc.
      * intros a Ha. destruct (P8 a Ha). congruence.
    + rewrite fn_lookup_insert_ne by done. destruct (I1 q) as [P1 P2 P3 P4 P5 P6 P7 P8].
      split; auto.
      * intros H. apply elem_of_union_r. auto.
      * intros c w [Hs%elem_of_singleton|Hc]%elem_of_union Hn; [simplify_eq; congruence|auto].
  - intros a. destruct (I2 a) as [A1 A2 A3]. split; auto.
    intros H. destruct (A1 H). split; [done|]. set_solver.
  - apply messages_ok_accept; auto. split; lia.
  - intros c w [Hs%elem_of_singleton|Hc]%elem_of_union; [simplify_eq|eauto].
    unfold v. destruct (Choose_spec (reports_of order) want) as [[-> _]|(r & Hr & _ & -> & _)]; [set_solver|].
    apply reports_of_elem in Hr as (m & Hm & Hnz & ->). rewrite Hord in Hm.
    apply list_elem_of_fmap in Hm as ([a m'] & -> & Hm%elem_of_map_to_list). simpl.
    destruct (po_coll _ _ _ _ _ _ HP ps a m' Hps Hm) as [Hin _].
    destruct (mo_rep _ _ _ _ I3 a m' Hin) as [_ Hr]. eapply Hwanted.
    apply (ro_below _ _ _ _ _ _ Hr (mkPValue (pr_accepted m') 0 (pr_value m'))); [|done].
    by apply list_elem_of_singleton.
  - intros q w Hq. destruct (I5 q w Hq) as (c & Q & HQ & H). exists c, Q. split; [done|].
    intros a Ha. destruct (H a Ha). split; [done|]. by apply elem_of_union_r.
Qed.

Lemma Inv_step s s' : Inv s -> step s s' -> Inv s'.
Proof.
  intros I Hst. pose proof (i_prop s I) as HP. destruct Hst.
  - unfold do_start; simpl. apply Inv_proposer; auto using (i_dec s I).
    + rewrite fn_lookup_insert. by eapply Start_ok.
    + intros q Hne. by rewrite fn_lookup_insert_ne.
    + by apply i_dec.
  - by apply Inv_prepare.
  - apply Inv_proposer; auto; [by apply OnPromise_ok|by apply i_dec].
  - apply Inv_proposer; auto; [by apply OnNack_ok|by apply i_dec].
  - by apply Inv_propose.
  - by apply Inv_accept.
  - by apply Inv_accepted.
  - apply Inv_proposer; auto; [by eapply NewProposer_ok|by apply i_dec].
Qed.

Lemma reachable_inv s : reachable s -> Inv s.
Proof.
  intros H. refine (rtc_ind_r Inv sys_init Inv_init _ s H). eauto using Inv_step.
Qed.

Lemma Inv_rules s : Inv s ->
  VotingRules A (voted (net_accept s) (net_accepted s)) (proposed (net_accept s)).
Proof.
  intros I. pose proof (i_msg s I) as [M1 M2 M3 M4]. split.
  - intros b v Hb. by apply (M4 b v Hb).
  - by intros a b v [_ ?].
  - eauto.
  - intros b v Hb. destruct (M4 b v Hb). by eapply safe_with_shows.
Qed.

(** * Runs, for concrete executions *)

Inductive event :=
| EvStart (p : NodeID) (r : Z)
| EvPrepare (a : NodeID) (b : Ballot)
| EvPromise (p a : NodeID) (m : Promise)
| EvPropose (p : NodeID) (want : Value)
| EvAccept (a : NodeID) (b : Ballot) (v : Value)
| EvAccepted (p a : NodeID) (b : Ballot).

(** The promises of [p] in the map's own enumeration. *)
Definition own_order (P : Proposer) : list Promise :=
  match pp_promises P with Some m => (map_to_list m).*2 | None => [] end.

Definition exec (s : Sys) (e : event) : option Sys :=
  match e with
  | EvStart p r => if (0 <=? p) && (p <? 2 ^ 32) && (sys_used s p <? r) && (r <? 2 ^ 64) then Some (do_start s p r) else None
  | EvPrepare a b => if bool_decide (a ∈ A) && bool_decide (b ∈ net_prepare s)
                     then Some (do_prepare s a b) else None
  | EvPromise p a m => if bool_decide ((a, m) ∈ net_promise s)
                       then Some (with_proposer s p (OnPromise (sys_proposers s p) a m).1) else None
  | EvPropose p want => Some (do_propose s p (own_order (sys_proposers s p)) want)
  | EvAccept a b v => if bool_decide (a ∈ A) && bool_decide ((b, v) ∈ net_accept s)
                      then Some (do_accept s a b v) else None
  | EvAccepted p a b => if bool_decide ((a, b) ∈ net_accepted s)
                        then Some (do_accepted s p a b) else None
  end.

Fixpoint run (s : Sys) (es : list event) : option Sys :=
  match es with
  | [] => Some s
  | e :: es' => s' ← exec s e; run s' es'
  end.

Lemma exec_step s e s' : exec s e = Some s' -> step s s'.
Proof.
  destruct e; simpl; try case_goal; intros H; simplify_eq; b2p; eauto using step.
  apply step_propose. unfold promise_order, own_order. by destruct (pp_promises _).
Qed.

Lemma run_reachable es s s' : reachable s -> run s es = Some s' -> reachable s'.
Proof.
  revert s. induction es as [|e es IH]; simpl; intros s Hs H; [by simplify_eq|].
  destruct (exec s e) as [s1|] eqn:E; [|done]. simpl in H. eapply IH; [|done].
  eapply rtc_r; [done|]. by eapply exec_step.
Qed.
End System.

(** * The theorems *)

(** C5. Single-decree agreement: whatever messages are lost, duplicated,
    delayed or reordered and whichever proposers crash, any two values that
    proposers report as chosen are equal. *)
Theorem paxos_agreement (A : gset NodeID) (s : Sys) (p q : NodeID) (v w : Value) :
  reachable A s -> (p, v) ∈ sys_decided s -> (q, w) ∈ sys_decided s -> v = w.
Proof.
  intros H%reachable_inv Hv Hw.
  destruct (i_dec _ _ H p v Hv) as [b Hb], (i_dec _ _ H q w Hw) as [c Hc].
  by eapply chosen_agree; [apply Inv_rules| |].
Qed.

(** Validity: a value reported as chosen was handed to [Propose] by some
    node. *)
Theorem paxos_validity (A : gset NodeID) (s : Sys) (p : NodeID) (v : Value) :
  reachable A s -> (p, v) ∈ sys_decided s -> v ∈ sys_wanted s.
Proof.
  intros H%reachable_inv Hv. destruct (i_dec _ _ H p v Hv) as (b & Q & HQ & Hc).
  destruct (quorum_inhabited _ _ HQ) as [a Ha]. destruct (Hc a Ha) as [_ Hin].
  by eapply i_valid.
Qed.

(** A run of three acceptors: node 1 gets "x" accepted by acceptor 1 only and
    stalls; node 2 takes over with a higher ballot, wants "y", learns of "x"
    from acceptor 1 and gets "x" chosen; node 1 then fails to gather a quorum. *)
Definition demo_acceptors : gset NodeID := {[1; 2; 3]}.
Definition b11 := mkBallot 1 1.
Definition b22 := mkBallot 2 2.
Definition demo_events : list event :=
  [ EvStart 1 1; EvPrepare 1 b11; EvPrepare 2 b11;
    EvPromise 1 1 (mkPromise b11 zero_ballot ""); EvPromise 1 2 (mkPromise b11 zero_ballot "");
    EvPropose 1 "x"; EvAccept 1 b11 "x";
    EvStart 2 2; EvPrepare 1 b22; EvPrepare 3 b22;
    EvPromise 2 1 (mkPromise b22 b11 "x"); EvPromise 2 3 (mkPromise b22 zero_ballot "");
    EvPropose 2 "y"; EvAccept 1 b22 "x"; EvAccept 2 b22 "x"; EvAccept 2 b11 "x";
    EvAccepted 2 1 b22; EvAccepted 2 2 b22; EvAccepted 1 1 b11;
    EvAccept 3 b22 "x"; EvAccepted 2 3 b22 ].
Definition demo_final : Sys := default (sys_init demo_acceptors) (run demo_acceptors (sys_init demo_acceptors) demo_events).

Lemma demo_reachable : reachable demo_acceptors demo_final.
Proof.
  apply (run_reachable demo_acceptors demo_events (sys_init demo_acceptors)); [apply rtc_refl|].
  unfold demo_final. destruct (run _ _ _) eqn:E; [done|]. by vm_compute in E.
Qed.

Lemma paxos_agreement_witness : (2, "x") ∈ sys_decided demo_final /\ "x" = "x".
Proof.
  assert (H : (2, "x") ∈ sys_decided demo_final) by (apply (bool_decide_eq_true_1 _); vm_compute; reflexivity).
  split; [exact H|].
  exact (paxos_agreement demo_acceptors demo_final 2 2 "x" "x" demo_reachable H H).
Defined.

Lemma paxos_validity_witness : (2, "x") ∈ sys_decided demo_final /\ "x" ∈ sys_wanted demo_final.
Proof.
  assert (H : (2, "x") ∈ sys_decided demo_final) by (apply (bool_decide_eq_true_1 _); vm_compute; reflexivity).
  split; [exact H|]. exact (paxos_validity demo_acceptors demo_final 2 "x" demo_reachable H).
Defined.
