(* ===== verification/PaxosProgress.v ===== *)
(** Progress of the reference acceptor and proposer of Paxos.v: from every
    state the system of PaxosSafety.v can reach, any proposer that starts with
    a high enough round and is then heard and answered gets a value chosen.
    Nothing that happened before can block it, as long as the 64-bit rounds
    have not run out. *)

From stdpp Require Import functions.
From S2P Require Import Prelude GoStd Paxos Voting PaxosSafety.

Section Progress.
Context (A : gset NodeID) (p : NodeID) (b : Ballot).
Implicit Types (s : Sys) (D : gset NodeID).

(** Phase 1: the proposer has the promises of [D], and nobody has promised
    more than [b]. *)
Record collecting s D : Prop := {
  co_n : pp_n (sys_proposers s p) = group_size A;
  co_ballot : pp_ballot (sys_proposers s p) = b;
  co_open : pp_abandoned (sys_proposers s p) = false /\ pp_proposed (sys_proposers s p) = false;
  co_promises : exists ps, pp_promises (sys_proposers s p) = Some ps /\ dom ps = D;
  co_none : pp_accepts (sys_proposers s p) = ∅;
  co_sent : b ∈ net_prepare s;
  co_below : forall a, a ∈ A -> Less b (promised (sys_acceptors s) a) = false;
  co_fresh : forall a, a ∈ A -> a ∉ D -> Less (promised (sys_acceptors s) a) b = true;
}.

(** Phase 2: it has proposed [v] and the acceptances of [D]. *)
Record gathering s (v : Value) D : Prop := {
  ga_n : pp_n (sys_proposers s p) = group_size A;
  ga_ballot : pp_ballot (sys_proposers s p) = b;
  ga_open : pp_abandoned (sys_proposers s p) = false /\ pp_proposed (sys_proposers s p) = true;
  ga_value : pp_value (sys_proposers s p) = v;
  ga_accepts : pp_accepts (sys_proposers s p) = D;
  ga_sent : (b, v) ∈ net_accept s;
  ga_below : forall a, a ∈ A -> Less b (promised (sys_acceptors s) a) = false;
  ga_decided : Quorum (group_size A) <= Z.of_nat (size D) -> (p, v) ∈ sys_decided s;
}.

Lemma collect_one s D a : collecting s D -> a ∈ A ->
  exists s', rtc (step A) s s' /\ collecting s' ({[a]} ∪ D).
Proof.
  intros H Ha. destruct (decide (a ∈ D)) as [Hd|Hd].
  { exists s. split; [apply rtc_refl|]. by replace ({[a]} ∪ D) with D by set_solver. }
  destruct H as [H1 H2 [H3 H4] (ps & H5 & H6) Hnone H7 H8 H9]. specialize (H9 a Ha Hd) as Hl.
  set (m := mkPromise b (acc_accepted (sys_acceptors s a)) (acc_value (sys_acceptors s a))).
  assert (E : OnPrepare (sys_acceptors s a) b = (mkAcceptor b (pr_accepted m) (pr_value m), inr m)).
  { unfold OnPrepare, MayPromise. by unfold promised in Hl; rewrite Hl. }
  set (s1 := do_prepare s a b). assert (P1 : sys_proposers s1 = sys_proposers s).
  { unfold s1, do_prepare. by rewrite E. }
  assert (A1 : forall c, promised (sys_acceptors s1) c = if decide (a = c) then b else promised (sys_acceptors s) c).
  { intros c. unfold s1, do_prepare, promised. rewrite E. simpl.
    case_decide as Hc; [subst c; by rewrite fn_lookup_insert|by rewrite fn_lookup_insert_ne]. }
  assert (M1 : (a, m) ∈ net_promise s1) by (unfold s1, do_prepare; rewrite E; simpl; set_solver).
  assert (N1 : b ∈ net_prepare s1) by (unfold s1, do_prepare; by rewrite E).
  exists (with_proposer s1 p (OnPromise (sys_proposers s1 p) a m).1). split.
  { eapply rtc_l; [by apply step_prepare|]. apply rtc_once. by apply step_promise. }
  assert (E2 : (OnPromise (sys_proposers s1 p) a m).1 = set_promises (sys_proposers s p) (<[a := m]> ps)).
  { unfold OnPromise. rewrite P1, H5, H3, H4, H2. simpl. by rewrite bool_decide_true. }
  rewrite E2. split; simpl; rewrite ?fn_lookup_insert; simpl; auto.
  - exists (<[a := m]> ps). split; [done|]. by rewrite dom_insert_L, H6.
  - intros c Hc. rewrite A1. case_decide; [apply Less_irrefl|by apply H8].
  - intros c Hc Hn. rewrite A1. case_decide; [set_solver|]. apply H9; [done|set_solver].
Qed.

Lemma collect_all l s D : collecting s D -> (forall a, a ∈ l -> a ∈ A) ->
  exists s', rtc (step A) s s' /\ collecting s' (list_to_set l ∪ D).
Proof.
  revert s D. induction l as [|a l IH]; intros s D H Hl; [exists s; split; [apply rtc_refl|simpl; by rewrite union_empty_l_L]|].
  destruct (collect_one s D a H) as (s1 & R1 & H1); [apply Hl, elem_of_cons; by left|].
  destruct (IH s1 _ H1) as (s2 & R2 & H2); [intros c Hc; apply Hl, elem_of_cons; by right|].
  exists s2. split; [by etrans|]. simpl. by replace ({[a]} ∪ list_to_set l ∪ D) with (list_to_set l ∪ ({[a]} ∪ D)) by set_solver.
Qed.

Lemma gather_one s v D a : gathering s v D -> a ∈ A ->
  exists s', rtc (step A) s s' /\ gathering s' v ({[a]} ∪ D).
Proof.
  intros [H1 H2 [H3 H4] H5 H6 H7 H8 H9] Ha. specialize (H8 a Ha) as Hl.
  assert (E : OnAccept (sys_acceptors s a) b v =
    (mkAcceptor (if Less (acc_promised (sys_acceptors s a)) b then b else acc_promised (sys_acceptors s a)) b v, None)).
  { unfold OnAccept, MayAccept. by unfold promised in Hl; rewrite Hl. }
  set (s1 := do_accept s a b v). assert (P1 : sys_proposers s1 = sys_proposers s) by (unfold s1, do_accept; by rewrite E).
  assert (M1 : (a, b) ∈ net_accepted s1) by (unfold s1, do_accept; rewrite E; simpl; set_solver).
  assert (E2 : OnAccepted (sys_proposers s1 p) a b =
    (mkProposer (pp_self (sys_proposers s p)) (group_size A) b (pp_promises (sys_proposers s p)) ({[a]} ∪ D) false true v,
     Quorum (group_size A) <=? Z.of_nat (size ({[a]} ∪ D)))).
  { unfold OnAccepted. rewrite P1, H3, H4, H2, H1, H5, H6. simpl. by rewrite bool_decide_true. }
  exists (do_accepted s1 p a b). split.
  { eapply rtc_l; [by apply step_accept|]. apply rtc_once. by apply step_accepted. }
  unfold do_accepted. rewrite E2. split; simpl; rewrite ?fn_lookup_insert; simpl; auto.
  - unfold s1, do_accept. by rewrite E.
  - intros c Hc. unfold s1, do_accept. rewrite E. unfold promised. simpl. destruct (decide (a = c)) as [<-|Hne].
    + rewrite fn_lookup_insert. simpl. destruct (Less (acc_promised _) b); [apply Less_irrefl|exact Hl].
    + rewrite fn_lookup_insert_ne by done. by apply H8.
  - intros Hq. apply Z.leb_le in Hq. rewrite Hq. set_solver.
Qed.

Lemma gather_all l s v D : gathering s v D -> (forall a, a ∈ l -> a ∈ A) ->
  exists s', rtc (step A) s s' /\ gathering s' v (list_to_set l ∪ D).
Proof.
  revert s D. induction l as [|a l IH]; intros s D H Hl; [exists s; split; [apply rtc_refl|simpl; by rewrite union_empty_l_L]|].
  destruct (gather_one s v D a H) as (s1 & R1 & H1); [apply Hl, elem_of_cons; by left|].
  destruct (IH s1 _ H1) as (s2 & R2 & H2); [intros c Hc; apply Hl, elem_of_cons; by right|].
  exists s2. split; [by etrans|]. simpl. by replace ({[a]} ∪ list_to_set l ∪ D) with (list_to_set l ∪ ({[a]} ∪ D)) by set_solver.
Qed.
End Progress.

(** C37. Progress: from every reachable state of the system, whatever was
    promised, accepted, lost or left half done before, a proposer that starts
    with a round it has not used, with which its ballot is above what every
    acceptor has promised, can get a value chosen: there is a continuation in
    which it decides under that ballot.  Rounds are 64 bits wide, so there is
    such a round unless rounds have run out: the proposer has used the last
    one, or an acceptor has promised it to a node of at least its own number. *)
Theorem paxos_progress (A : gset NodeID) (s : Sys) (p : NodeID) (r : Z) (want : Value) :
  reachable A s -> A <> ∅ -> 0 <= p < 2 ^ 32 -> sys_used s p < r < 2 ^ 64 ->
  (forall a, a ∈ A -> Less (acc_promised (sys_acceptors s a)) (mkBallot r p) = true) ->
  exists s' v, rtc (step A) s s' /\ pp_ballot (sys_proposers s' p) = mkBallot r p /\ (p, v) ∈ sys_decided s'.
Proof.
  intros I%reachable_inv HA [Hp Hp32] [Hr Hmax] Hb. set (b := mkBallot r p) in *.
  destruct (po_self _ _ _ _ _ _ _ (i_prop _ _ I p)) as [E1 E2].
  assert (C0 : collecting A p b (do_start s p r) ∅).
  { split; simpl; rewrite ?fn_lookup_insert; simpl; auto.
    - by rewrite E1.
    - exists ∅. by rewrite dom_empty_L.
    - rewrite E1. set_solver.
    - intros a Ha. by apply Less_asym, Hb.
    - intros a Ha _. by apply Hb. }
  destruct (collect_all A p b (elements A) _ _ C0) as (s1 & R1 & [H1 H2 [H3 H4] (ps & H5 & H6) H0 H7 H8 _]);
    [by intros a ?%elem_of_elements|].
  rewrite list_to_set_elements_L, union_empty_r_L in H6.
  assert (Hn : 1 <= group_size A).
  { unfold group_size. destruct (size A) eqn:E; [|lia]. by apply size_empty_inv, leibniz_equiv in E. }
  set (s2 := do_propose s1 p (map_to_list ps).*2 want). assert (R2 : step A s1 s2).
  { apply step_propose. unfold promise_order. by rewrite H5. }
  assert (Hq : ready (sys_proposers s1 p) = true).
  { unfold ready. rewrite H3, H5, H1. simpl. apply Z.leb_le. rewrite <- size_dom, H6. unfold Quorum, group_size in *.
    Z.div_mod_to_equations. lia. }
  set (v := Choose (reports_of (map_to_list ps).*2) want).
  assert (G0 : gathering A p b s2 v ∅).
  { unfold s2, do_propose, Propose. rewrite Hq, H4, H2. split; simpl; rewrite ?fn_lookup_insert; simpl; auto.
    - set_solver.
    - intros Hz. change (set_size _) with (size (∅ : gset NodeID)) in Hz. rewrite size_empty in Hz.
      unfold Quorum, group_size in *. exfalso. Z.div_mod_to_equations. lia. }
  destruct (gather_all A p b (elements A) _ v _ G0) as (s3 & R3 & G3); [by intros a ?%elem_of_elements|].
  exists s3, v. split.
  - eapply rtc_l; [by apply (step_start A s p r)|]. etrans; [exact R1|]. by eapply rtc_l.
  - split; [apply (ga_ballot _ _ _ _ _ _ G3)|]. apply (ga_decided _ _ _ _ _ _ G3). rewrite list_to_set_elements_L, union_empty_r_L.
    unfold Quorum, group_size in *. Z.div_mod_to_equations. lia.
Qed.

Lemma paxos_progress_witness :
  exists s' v, rtc (step demo_acceptors) demo_final s' /\ pp_ballot (sys_proposers s' 1) = mkBallot 9 1 /\ (1, v) ∈ sys_decided s'.
Proof.
  apply (paxos_progress demo_acceptors demo_final 1 9 "z" demo_reachable).
  - intros E. assert (H : 1 ∈ demo_acceptors) by (unfold demo_acceptors; set_solver). rewrite E in H. set_solver.
  - lia.
  - vm_compute. done.
  - intros a Ha. unfold demo_acceptors in Ha. assert (a = 1 \/ a = 2 \/ a = 3) as [-> |[-> | ->]] by set_solver; by vm_compute.
Defined.
