(* ===== verification/Ledger.v ===== *)
(** The double-entry book: package [ledger] (internal/ledger/ledger.go).
    [Book] with [Post], its reads, its self-check [Check], its hash, and the
    account and key spellings.  The theorems: every operation keeps the book
    well formed, [Check] passes on every book built by [Post], postings are
    idempotent by key, and each balance is the wrapped sum of its postings. *)

From S2P Require Import Prelude GoStd Paxos.

Abbreviation Money := Z (only parsing).
Abbreviation Account := string (only parsing).
Abbreviation PostingKey := string (only parsing).

(** [Kind] is a [uint8]; values other than the six constants are possible and
    [Validate] refuses them. *)
Inductive Kind := EntryFee | Rake | Prize | Withheld | Refund | Claim | UnknownKind (n : Z).

#[export] Instance Kind_eq_dec : EqDecision Kind.
Proof. solve_decision. Defined.

Definition kind_code (k : Kind) : Z :=
  match k with
  | EntryFee => 1 | Rake => 2 | Prize => 3 | Withheld => 4 | Refund => 5 | Claim => 6
  | UnknownKind n => n
  end.

Definition kindNames (k : Kind) : option string :=
  match k with
  | EntryFee => Some "entry_fee" | Rake => Some "rake" | Prize => Some "prize"
  | Withheld => Some "withheld" | Refund => Some "refund" | Claim => Some "claim"
  | UnknownKind _ => None
  end.

Definition Kind_String (k : Kind) : string :=
  match kindNames k with Some s => s | None => "kind(" +:+ itoa (kind_code k) +:+ ")" end.

(** [MarshalText]: [inr] is the error. *)
Definition Kind_MarshalText (k : Kind) : string + error :=
  match kindNames k with
  | Some s => inl s
  | None => inr ("ledger: unknown kind " +:+ itoa (kind_code k))
  end.

(** [UnmarshalText] scans the names; they are distinct, so the order of the
    map does not matter. *)
Definition Kind_UnmarshalText `{Unicode} (b : string) : Kind + error :=
  match list_find (fun k => kindNames k = Some b) [EntryFee; Rake; Prize; Withheld; Refund; Claim] with
  | Some (_, k) => inl k
  | None => inr ("ledger: unknown kind " +:+ quote b)
  end.

Record Posting := mkPosting {
  post_seq : Z;
  post_key : PostingKey;
  post_kind : Kind;
  post_debit : Account;
  post_credit : Account;
  post_amount : Money;
  post_tournament : string;
  post_player : string;
  post_place : Z;
  post_exclusion_version : Z;
  post_slot : Slot;
  post_ballot : Ballot;
}.

#[export] Instance Posting_eq_dec : EqDecision Posting.
Proof. solve_decision. Defined.

Definition zero_posting : Posting :=
  mkPosting 0 "" (UnknownKind 0) "" "" 0 "" "" 0 0 0 zero_ballot.

Definition with_seq (p : Posting) (n : Z) : Posting :=
  mkPosting n (post_key p) (post_kind p) (post_debit p) (post_credit p) (post_amount p)
    (post_tournament p) (post_player p) (post_place p) (post_exclusion_version p)
    (post_slot p) (post_ballot p).

Section Errors.
Context `{U : Unicode}.

(** [Posting.Validate]: the first problem, or [None]. *)
Definition Validate (p : Posting) : option error :=
  exit_if String.eqb (post_key p) "" with Some "ledger: posting has an empty key";
  exit_if String.eqb (post_debit p) "" || String.eqb (post_credit p) ""
    with Some "ledger: posting needs a debit and a credit account";
  exit_if String.eqb (post_debit p) (post_credit p)
    with Some ("ledger: posting " +:+ quote (post_key p) +:+
               " debits and credits the same account " +:+ quote (post_debit p));
  exit_if post_amount p <=? 0
    with Some ("ledger: posting " +:+ quote (post_key p) +:+
               " has non-positive amount " +:+ itoa (post_amount p));
  match kindNames (post_kind p) with
  | None => Some ("ledger: posting " +:+ quote (post_key p) +:+
                  " has unknown kind " +:+ itoa (kind_code (post_kind p)))
  | Some _ => None
  end.

(** * The book *)

Record Book := mkBook {
  postings : list Posting;
  byKey : gmap PostingKey nat;
  balances : gmap Account Money;
}.

Definition NewBook : Book := mkBook [] ∅ ∅.

(** [m[a] += d] on a map of [int64]. *)
Definition add_balance (m : gmap Account Money) (a : Account) (d : Money) : gmap Account Money :=
  <[a := i64 (default 0 (m !! a) + d)]> m.

Definition append_posting (b : Book) (p : Posting) : Book :=
  mkBook (postings b ++ [p]) (<[post_key p := length (postings b)]> (byKey b))
    (add_balance (add_balance (balances b) (post_debit p) (- post_amount p))
       (post_credit p) (post_amount p)).

(** [Post] returns (Posting, ok, error).  The outer [None] is the panic of an
    index outside the postings. *)
Definition Post (b : Book) (p : Posting) : option (Book * (Posting * bool * option error)) :=
  match Validate p with
  | Some err => Some (b, (zero_posting, false, Some err))
  | None =>
      match byKey b !! post_key p with
      | Some i => q ← postings b !! i; Some (b, (q, false, None))
      | None =>
          let p' := with_seq p (u64 (len (postings b) + 1)) in
          Some (append_posting b p', (p', true, None))
      end
  end.

Definition Has (b : Book) (k : PostingKey) : bool := bool_decide (is_Some (byKey b !! k)).

Definition Get (b : Book) (k : PostingKey) : option (option Posting) :=
  match byKey b !! k with
  | None => Some None
  | Some i => q ← postings b !! i; Some (Some q)
  end.

Definition Balance (b : Book) (a : Account) : Money := default 0 (balances b !! a).

Definition Len (b : Book) : Z := len (postings b).

Definition Postings (b : Book) : list Posting := postings b.

Definition PostingsSince (b : Book) (n : Z) : list Posting :=
  let n := if n <? 0 then 0 else n in
  if len (postings b) <=? n then [] else drop (Z.to_nat n) (postings b).

Definition ForTournament (b : Book) (id : string) : list Posting :=
  filter (fun p => post_tournament p = id) (postings b).

(** * The self-check *)

Definition sum_balances (m : gmap Account Money) : Money :=
  map_fold (fun _ v sum => i64 (sum + v)) 0 m.

Definition CheckBalances (b : Book) : option error :=
  let sum := sum_balances (balances b) in
  if sum =? 0 then None else Some ("ledger: balances sum to " +:+ itoa sum +:+ ", want 0").

(** The accounts of both maps in order, each once. *)
Definition sortedAccounts (m1 m2 : gmap Account Money) : list Account :=
  stable_sort String.ltb (elements (dom m1 ∪ dom m2)).

(** The loop of [Check] over the postings from position [i] on, with the keys
    seen and the balances derived so far. *)
Fixpoint check_postings (idx : gmap PostingKey nat) (i : nat) (ps : list Posting)
    (seen : gset PostingKey) (derived : gmap Account Money) : error + gmap Account Money :=
  match ps with
  | [] => inr derived
  | p :: ps' =>
      exit_if negb (post_seq p =? u64 (Z.of_nat i + 1))
        with inl ("ledger: posting at position " +:+ itoa (Z.of_nat i + 1) +:+ " has seq " +:+ itoa (post_seq p));
      match Validate p with
      | Some err => inl err
      | None =>
          exit_if bool_decide (post_key p ∈ seen)
            with inl ("ledger: key " +:+ quote (post_key p) +:+ " posted twice");
          exit_if negb (bool_decide (idx !! post_key p = Some i))
            with inl ("ledger: key " +:+ quote (post_key p) +:+ " is not indexed at position " +:+ itoa (Z.of_nat i + 1));
          check_postings idx (S i) ps' ({[post_key p]} ∪ seen)
            (add_balance (add_balance derived (post_debit p) (- post_amount p))
               (post_credit p) (post_amount p))
      end
  end.

Definition check_account (b : Book) (derived : gmap Account Money) (a : Account) : option error :=
  let have := Balance b a in
  let want := default 0 (derived !! a) in
  if have =? want then None
  else Some ("ledger: balance of " +:+ quote a +:+ " is " +:+ itoa have +:+ ", postings give " +:+ itoa want).

Fixpoint first_error {A} (f : A -> option error) (l : list A) : option error :=
  match l with
  | [] => None
  | x :: l' => match f x with Some e => Some e | None => first_error f l' end
  end.

Definition Check (b : Book) : option error :=
  match check_postings (byKey b) 0 (postings b) ∅ ∅ with
  | inl err => Some err
  | inr derived =>
      exit_if negb (Z.of_nat (size (byKey b)) =? len (postings b))
        with Some ("ledger: " +:+ itoa (Z.of_nat (size (byKey b))) +:+ " keys indexed for "
                   +:+ itoa (len (postings b)) +:+ " postings");
      match CheckBalances b with
      | Some err => Some err
      | None => first_error (check_account b derived) (sortedAccounts (balances b) derived)
      end
  end.

End Errors.

(** * The JSON of a posting and the book's hash *)

Definition ballot_json (b : Ballot) : json :=
  JObj [("round", JNum (bal_round b)); ("node", JNum (bal_node b))].

(** A field with [omitempty]. *)
Definition omitempty (zero : bool) (name : string) (j : json) : list (string * json) :=
  if zero then [] else [(name, j)].

(** [None] is the panic on a kind that does not marshal. *)
Definition posting_json (p : Posting) : option json :=
  k ← kindNames (post_kind p);
  Some (JObj ([("seq", JNum (post_seq p)); ("key", JStr (post_key p)); ("kind", JStr k);
    ("debit", JStr (post_debit p)); ("credit", JStr (post_credit p));
    ("amount", JNum (post_amount p)); ("tournament", JStr (post_tournament p))]
    ++ omitempty (String.eqb (post_player p) "") "player" (JStr (post_player p))
    ++ omitempty (post_place p =? 0) "place" (JNum (post_place p))
    ++ [("exclusion_version", JNum (post_exclusion_version p)); ("slot", JNum (post_slot p));
        ("ballot", ballot_json (post_ballot p))])).

Definition Hash (b : Book) : option bytes :=
  lines ← mapM (fun p => j ← posting_json p; Some (marshal j ++ [10])) (postings b);
  Some (sha256 (concat lines)).

(** * Accounts and keys *)

Definition PlayerAccount (id : string) : Account := "player:" +:+ id.
Definition PoolAccount (tid : string) : Account := "pool:" +:+ tid.
Definition RakeAccount (tid : string) : Account := "rake:" +:+ tid.
Definition WithheldAccount (tid : string) : Account := "withheld:" +:+ tid.
Definition ClaimsAccount (tid : string) : Account := "claims:" +:+ tid.
Definition FeeKey (tid pid : string) : PostingKey := "fee:" +:+ tid +:+ ":" +:+ pid.
Definition RakeKey (tid : string) : PostingKey := "rake:" +:+ tid.
Definition PrizeKey (tid pid : string) (place : Z) : PostingKey :=
  "prize:" +:+ tid +:+ ":" +:+ pid +:+ ":" +:+ itoa place.
Definition WithheldKey (tid pid : string) (place : Z) : PostingKey :=
  "withheld:" +:+ tid +:+ ":" +:+ pid +:+ ":" +:+ itoa place.
Definition RefundKey (tid pid : string) : PostingKey := "refund:" +:+ tid +:+ ":" +:+ pid.
Definition ClaimKey (tid pid : string) : PostingKey := "claim:" +:+ tid +:+ ":" +:+ pid.

(** * Well-formed books *)

(** What [Validate] accepts. *)
Definition valid_posting (p : Posting) : Prop :=
  post_key p <> "" /\ post_debit p <> "" /\ post_credit p <> "" /\
  post_debit p <> post_credit p /\ 0 < post_amount p /\ kindNames (post_kind p) <> None.

Lemma Validate_None `{U : Unicode} p : Validate p = None <-> valid_posting p.
Proof.
  unfold Validate, valid_posting.
  destruct (String.eqb_spec (post_key p) ""), (String.eqb_spec (post_debit p) ""),
    (String.eqb_spec (post_credit p) ""), (String.eqb_spec (post_debit p) (post_credit p)),
    (Z.leb_spec (post_amount p) 0), (kindNames (post_kind p)); simpl;
    split; intros H'; (done || lia || naive_solver lia || (split_and!; (done || lia))).
Qed.

(** What one posting does to the balances, and the balances of a list. *)
Definition book_one (m : gmap Account Money) (p : Posting) : gmap Account Money :=
  add_balance (add_balance m (post_debit p) (- post_amount p)) (post_credit p) (post_amount p).
Definition derive (ps : list Posting) : gmap Account Money := foldl book_one ∅ ps.

Record book_wf (b : Book) : Prop := {
  wf_valid : forall p, p ∈ postings b -> valid_posting p;
  wf_seq : forall i p, postings b !! i = Some p -> post_seq p = u64 (Z.of_nat i + 1);
  wf_index : forall k i, byKey b !! k = Some i <-> exists p, postings b !! i = Some p /\ post_key p = k;
  wf_size : size (byKey b) = length (postings b);
  wf_balances : balances b = derive (postings b);
}.

Lemma NewBook_wf : book_wf NewBook.
Proof.
  split; simpl; try done.
  - intros p []%not_elem_of_nil.
  - intros k i. rewrite lookup_empty. split; [done|]. by intros (p & ? & _).
Qed.

Lemma wf_in b k i : book_wf b -> byKey b !! k = Some i -> exists p, postings b !! i = Some p /\ post_key p = k.
Proof. intros W. apply (wf_index b W). Qed.

Lemma Has_spec b k : book_wf b -> Has b k = true <-> exists p, p ∈ postings b /\ post_key p = k.
Proof.
  intros W. unfold Has. rewrite bool_decide_eq_true. split.
  - intros [i Hi]. apply (wf_index b W) in Hi as (p & Hp & <-). exists p. split; [|done].
    by eapply list_elem_of_lookup_2.
  - intros (p & [i Hi]%list_elem_of_lookup & <-). exists i. apply (wf_index b W). eauto.
Qed.

Lemma wf_position b i j p q : book_wf b -> postings b !! i = Some p -> postings b !! j = Some q ->
  post_key p = post_key q -> i = j.
Proof.
  intros W Hi Hj E. assert (H1 : byKey b !! post_key p = Some i) by (apply (wf_index b W); eauto).
  assert (H2 : byKey b !! post_key p = Some j) by (apply (wf_index b W); eauto). congruence.
Qed.

Lemma wf_key_inj b p q : book_wf b -> p ∈ postings b -> q ∈ postings b -> post_key p = post_key q -> p = q.
Proof.
  intros W [i Hi]%list_elem_of_lookup [j Hj]%list_elem_of_lookup E.
  pose proof (wf_position b i j p q W Hi Hj E) as <-. congruence.
Qed.

Lemma wf_nodup b : book_wf b -> NoDup (map post_key (postings b)).
Proof.
  intros W. apply NoDup_alt. intros i j k Hi Hj. change (map post_key ?l) with (post_key <$> l) in Hi, Hj.
  apply list_lookup_fmap_Some in Hi as (p & -> & Hi). apply list_lookup_fmap_Some in Hj as (q & E & Hj).
  by apply (wf_position b i j p q).
Qed.

Lemma with_seq_valid p n : valid_posting p -> valid_posting (with_seq p n).
Proof. done. Qed.

Lemma append_posting_wf b p :
  book_wf b -> valid_posting p -> byKey b !! post_key p = None ->
  post_seq p = u64 (len (postings b) + 1) -> book_wf (append_posting b p).
Proof.
  intros W Hv Hnew Hseq. split; simpl.
  - intros q [Hq| ->]%elem_of_snoc; [by eapply wf_valid|done].
  - intros i q [Hq|[Hi Hq]]%lookup_app_Some; [by eapply wf_seq|].
    apply list_lookup_singleton_Some in Hq as [Hi' <-]. rewrite Hseq. unfold len. f_equal. lia.
  - intros k i. rewrite lookup_insert. case_decide as Hk.
    + subst k. split.
      * intros [= <-]. exists p. split; [|done]. apply lookup_app_Some. right. split; [done|].
        apply list_lookup_singleton_Some. split; [lia|done].
      * intros (q & [Hq|[Hi Hq]]%lookup_app_Some & E).
        { assert (byKey b !! post_key q = Some i) by (apply (wf_index b W); eauto). congruence. }
        apply list_lookup_singleton_Some in Hq as [Hi' <-]. f_equal. lia.
    + rewrite (wf_index b W). split.
      * intros (q & Hq & E). exists q. split; [|done]. apply lookup_app_Some. auto.
      * intros (q & [Hq|[Hi Hq]]%lookup_app_Some & E); [eauto|].
        apply list_lookup_singleton_Some in Hq as [_ <-]. congruence.
  - rewrite map_size_insert_None by done. rewrite (wf_size b W), length_app. simpl. lia.
  - rewrite (wf_balances b W). unfold derive. by rewrite foldl_app.
Qed.

Section PostSpec.
Context `{U : Unicode}.

(** [Post] on each of its branches: an invalid posting is refused, a known key
    returns the existing posting and changes nothing, a new key is appended. *)
Inductive post_outcome (b : Book) (p : Posting) : Book -> Posting * bool * option error -> Prop :=
| post_invalid err : Validate p = Some err -> post_outcome b p b (zero_posting, false, Some err)
| post_known q : valid_posting p -> q ∈ postings b -> post_key q = post_key p ->
    post_outcome b p b (q, false, None)
| post_new : valid_posting p -> Has b (post_key p) = false ->
    post_outcome b p (append_posting b (with_seq p (u64 (len (postings b) + 1))))
      (with_seq p (u64 (len (postings b) + 1)), true, None).

Lemma Post_outcome b p : book_wf b -> exists b' r, Post b p = Some (b', r) /\ post_outcome b p b' r.
Proof.
  intros W. unfold Post. destruct (Validate p) as [err|] eqn:V.
  - eexists _, _. split; [done|]. by constructor.
  - apply Validate_None in V. destruct (byKey b !! post_key p) as [i|] eqn:K.
    + destruct (wf_in b _ i W K) as (q & Hq & Hk). rewrite Hq. eexists _, _. split; [done|].
      constructor; auto. by eapply list_elem_of_lookup_2.
    + eexists _, _. split; [done|]. constructor; auto.
      unfold Has. rewrite K. by apply bool_decide_eq_false, is_Some_None.
Qed.

Lemma Post_wf b p b' r : book_wf b -> Post b p = Some (b', r) -> book_wf b'.
Proof.
  intros W H. destruct (Post_outcome b p W) as (b1 & r1 & H1 & O). rewrite H in H1. simplify_eq.
  destruct O as [| |Hv Hn]; auto. apply append_posting_wf; auto.
  simpl. unfold Has in Hn. apply bool_decide_eq_false in Hn. by apply eq_None_not_Some.
Qed.

(** A book built from the empty one by posting. *)
Inductive built : Book -> Prop :=
| built_new : built NewBook
| built_post b p b' r : built b -> Post b p = Some (b', r) -> built b'.

Lemma built_wf b : built b -> book_wf b.
Proof. induction 1; eauto using NewBook_wf, Post_wf. Qed.
End PostSpec.

(** * Balances *)

(** What a posting adds to the balance of [a], and the total over a list. *)
Definition delta (a : Account) (p : Posting) : Z :=
  (if String.eqb (post_credit p) a then post_amount p else 0)
  - (if String.eqb (post_debit p) a then post_amount p else 0).
Definition net (a : Account) (ps : list Posting) : Z := zsum (map (delta a) ps).

Lemma net_app a ps qs : net a (ps ++ qs) = net a ps + net a qs.
Proof. unfold net. by rewrite map_app, zsum_app. Qed.

Lemma add_balance_lookup m a d c :
  default 0 (add_balance m a d !! c) =
  if String.eqb a c then i64 (default 0 (m !! a) + d) else default 0 (m !! c).
Proof.
  unfold add_balance. destruct (String.eqb_spec a c) as [<-|Hne].
  - by rewrite lookup_insert_eq.
  - by rewrite lookup_insert_ne.
Qed.

Lemma book_one_balance m p a x :
  default 0 (m !! a) = i64 x -> default 0 (book_one m p !! a) = i64 (x + delta a p).
Proof.
  intros H. unfold book_one, delta. rewrite !add_balance_lookup.
  destruct (String.eqb_spec (post_credit p) a) as [Hc|Hc];
    destruct (String.eqb_spec (post_debit p) a) as [Hd|Hd].
  - rewrite Hc, Hd, String.eqb_refl, H, i64_add_l, <- Z.add_assoc, i64_add_l. f_equal. lia.
  - rewrite Hc. destruct (String.eqb_spec (post_debit p) a); [done|].
    rewrite H, i64_add_l. f_equal. lia.
  - rewrite Hd, H, i64_add_l. done.
  - rewrite H. f_equal. lia.
Qed.

Lemma derive_balance ps a : default 0 (derive ps !! a) = i64 (net a ps).
Proof.
  induction ps as [|p ps IH] using rev_ind; [done|].
  unfold derive in *. rewrite foldl_app, net_app. simpl.
  rewrite (book_one_balance _ _ _ (net a ps)) by done. f_equal. unfold net. simpl. lia.
Qed.

Lemma Balance_net b a : book_wf b -> Balance b a = i64 (net a (postings b)).
Proof. intros W. unfold Balance. rewrite (wf_balances b W). apply derive_balance. Qed.

(** The sum of a balance map, before and after wrapping. *)
Definition msum (m : gmap Account Money) : Z := map_fold (fun _ v s => v + s) 0 m.

Lemma sum_balances_msum m : sum_balances m = i64 (msum m).
Proof.
  unfold sum_balances, msum. rewrite !map_fold_foldr.
  induction (map_to_list m) as [|[k v] l IH]; [done|]. simpl. rewrite IH, i64_add_l. f_equal. lia.
Qed.

Lemma msum_insert m a x : msum (<[a := x]> m) = msum m - default 0 (m !! a) + x.
Proof.
  unfold msum. destruct (m !! a) as [y|] eqn:E.
  - rewrite <- insert_delete_eq.
    rewrite <- (insert_delete_id m a y) at 2 by done.
    rewrite !map_fold_insert_L; try (intros; lia); try apply lookup_delete_eq. simpl. lia.
  - rewrite map_fold_insert_L; try (intros; lia); [|done]. simpl. lia.
Qed.

Lemma msum_add_balance m a d : msum (add_balance m a d) mod 2 ^ 64 = (msum m + d) mod 2 ^ 64.
Proof.
  unfold add_balance. rewrite msum_insert.
  rewrite <- Zplus_mod_idemp_r, i64_mod, Zplus_mod_idemp_r. f_equal. lia.
Qed.

Lemma msum_book_one m p : msum (book_one m p) mod 2 ^ 64 = msum m mod 2 ^ 64.
Proof.
  unfold book_one.
  rewrite msum_add_balance, <- Zplus_mod_idemp_l, msum_add_balance, Zplus_mod_idemp_l.
  f_equal. lia.
Qed.

Lemma derive_msum ps : msum (derive ps) mod 2 ^ 64 = 0.
Proof.
  induction ps as [|p ps IH] using rev_ind; [done|].
  unfold derive in *. rewrite foldl_app. simpl. by rewrite msum_book_one.
Qed.

Lemma derive_sum_zero ps : sum_balances (derive ps) = 0.
Proof.
  rewrite sum_balances_msum. rewrite (i64_eq_mod _ 0); [done|]. by rewrite derive_msum.
Qed.

(** * The self-check passes *)

Section CheckSpec.
Context `{U : Unicode}.

Lemma first_error_None {A} (f : A -> option error) l :
  first_error f l = None <-> forall x, x ∈ l -> f x = None.
Proof.
  induction l as [|y l IH]; simpl.
  - split; [by intros _ x []%not_elem_of_nil|done].
  - destruct (f y) eqn:E; split.
    + done.
    + intros H. rewrite H in E; [done|by left].
    + intros H x [->|Hx]%elem_of_cons; [done|]. by apply IH.
    + intros H. apply IH. intros x Hx. apply H. by right.
Qed.

Lemma check_postings_wf b pre ps seen :
  book_wf b -> postings b = pre ++ ps -> (forall k, k ∈ seen <-> exists p, p ∈ pre /\ post_key p = k) ->
  check_postings (byKey b) (length pre) ps seen (derive pre) = inr (derive (postings b)).
Proof.
  revert pre seen. induction ps as [|p ps IH]; intros pre seen W Hb Hseen; simpl.
  { by rewrite Hb, app_nil_r. }
  assert (Hp : postings b !! length pre = Some p).
  { rewrite Hb, lookup_app_r, Nat.sub_diag by done. done. }
  rewrite (wf_seq b W _ _ Hp), Z.eqb_refl. simpl.
  rewrite (proj2 (Validate_None p)) by (eapply wf_valid; [done|]; by eapply list_elem_of_lookup_2).
  assert (Hi : byKey b !! post_key p = Some (length pre)) by (apply (wf_index b W); eauto).
  rewrite bool_decide_eq_false_2.
  2:{ intros (q & [i Hq]%list_elem_of_lookup & Hk)%Hseen.
      assert (Hq' : postings b !! i = Some q) by (rewrite Hb; by apply lookup_app_l_Some).
      assert (byKey b !! post_key q = Some i) by (apply (wf_index b W); eauto).
      apply lookup_lt_Some in Hq. rewrite Hk in *. simplify_eq. lia. }
  rewrite bool_decide_eq_true_2 by done. simpl.
  replace (S (length pre)) with (length (pre ++ [p])) by (rewrite length_app; simpl; lia).
  specialize (IH (pre ++ [p]) ({[post_key p]} ∪ seen) W).
  unfold derive in IH at 1. rewrite foldl_app in IH. apply IH.
  - by rewrite Hb, <- app_assoc.
  - intros k. rewrite elem_of_union, elem_of_singleton, Hseen. split.
    + intros [->|(q & ? & ?)]; [exists p|exists q]; rewrite elem_of_snoc; auto.
    + intros (q & [Hq| ->]%elem_of_snoc & <-); eauto.
Qed.

Lemma CheckBalances_wf b : book_wf b -> CheckBalances b = None.
Proof.
  intros W. unfold CheckBalances. by rewrite (wf_balances b W), derive_sum_zero.
Qed.

Lemma Check_wf b : book_wf b -> Check b = None.
Proof.
  intros W. unfold Check.
  pose proof (check_postings_wf b [] (postings b) ∅ W eq_refl) as H.
  change (derive []) with (∅ : gmap Account Money) in H. simpl in H. rewrite H.
  - rewrite (wf_size b W). unfold len. rewrite Z.eqb_refl. simpl. rewrite (CheckBalances_wf b W).
    apply first_error_None. intros a _. unfold check_account.
    unfold Balance. by rewrite (wf_balances b W), Z.eqb_refl.
  - intros k. split; [set_solver|]. by intros (p & []%not_elem_of_nil & _).
Qed.

(** Money neither appears nor disappears: whatever sequence of postings a
    book was built by, valid or not, repeated or not, its own full check finds
    nothing wrong: sequence numbers, key index, every balance against the
    postings, and the zero sum, all in wrapped 64-bit arithmetic. *)
Theorem ledger_check_passes (b : Book) : built b -> Check b = None.
Proof. intros H%built_wf. by apply Check_wf. Qed.

(** [Post] on a book built by posting never panics and does one of three
    things: it refuses an invalid posting, returns the existing posting of a
    known key, or appends; only the last changes the book, and then by exactly
    that posting. *)
Theorem ledger_post_outcome (b : Book) (p : Posting) :
  built b -> exists b' r, Post b p = Some (b', r) /\ post_outcome b p b' r.
Proof. intros H%built_wf. by apply Post_outcome. Qed.

(** Postings are idempotent by key: once a posting with a key was
    appended, posting any valid posting with that key later, after any other
    postings, returns the first one and changes nothing. *)
Theorem ledger_post_idempotent (b b1 b2 : Book) (p q : Posting) (more : list Posting) :
  built b -> Post b p = Some (b1, (q, true, None)) -> built b2 ->
  postings b2 = postings b1 ++ more ->
  forall p', valid_posting p' -> post_key p' = post_key p -> Post b2 p' = Some (b2, (q, false, None)).
Proof.
  intros Hb%built_wf Hp Hb2%built_wf Hmore p' Hv Hk.
  destruct (Post_outcome b p Hb) as (b' & r & H1 & O). rewrite Hp in H1. simplify_eq.
  inversion O as [| |Hvp Hn]; subst.
  unfold Post. rewrite (proj2 (Validate_None p')) by done. rewrite Hk.
  assert (Hl : postings b2 !! length (postings b) = Some (with_seq p (u64 (len (postings b) + 1)))).
  { rewrite Hmore. simpl. apply lookup_app_l_Some. rewrite lookup_app_r by done. by rewrite Nat.sub_diag. }
  assert (Hi : byKey b2 !! post_key p = Some (length (postings b))).
  { apply (wf_index b2 Hb2). eexists. split; [exact Hl|done]. }
  by rewrite Hi, Hl.
Qed.

(** The balance of an account is credits minus debits over all postings,
    wrapped to 64 bits; it is that sum exactly while the sum fits. *)
Theorem ledger_balance_is_net (b : Book) (a : Account) :
  built b ->
  Balance b a = i64 (net a (postings b)) /\
  (in_i64 (net a (postings b)) -> Balance b a = net a (postings b)).
Proof.
  intros H%built_wf. rewrite (Balance_net b a H). split; [done|]. apply i64_id.
Qed.

(** The book is append-only and [PostingsSince] reads exactly what a
    [Post] appended. *)
Theorem ledger_post_appends (b b' : Book) (p : Posting) (r : Posting * bool * option error) :
  built b -> Post b p = Some (b', r) ->
  postings b' = postings b ++ PostingsSince b' (Len b) /\
  (length (PostingsSince b' (Len b)) <= 1)%nat.
Proof.
  intros Hb%built_wf H. destruct (Post_outcome b p Hb) as (b1 & r1 & H1 & O).
  rewrite H in H1. simplify_eq.
  assert (Hsame : PostingsSince b (Len b) = []).
  { unfold PostingsSince, Len. pose proof (len_nonneg (postings b)).
    destruct (Z.ltb_spec (len (postings b)) 0); [lia|]. by rewrite Z.leb_refl. }
  destruct O as [| |Hv Hn]; rewrite ?Hsame, ?app_nil_r; simpl; auto.
  unfold PostingsSince, Len. simpl. pose proof (len_nonneg (postings b)).
  destruct (Z.ltb_spec (len (postings b)) 0); [lia|].
  rewrite len_app. change (len [_]) with 1.
  destruct (Z.leb_spec (len (postings b) + 1) (len (postings b))); [lia|].
  unfold len. rewrite Nat2Z.id, drop_app_length. simpl. split; [done|lia].
Qed.
End CheckSpec.

(** * A concrete book *)

Definition demo_posting (k debit credit : string) (amount : Z) : Posting :=
  mkPosting 0 k EntryFee debit credit amount "t" "p" 0 1 7 zero_ballot.
Definition demo_p1 := demo_posting "fee:t:p" "player:p" "pool:t" 500.
Definition demo_p2 := demo_posting "fee:t:q" "player:q" "pool:t" 500.

(** The postings of a list, ignoring the outcomes. *)
Definition post_all `{Unicode} (b : Book) (ps : list Posting) : Book :=
  foldl (fun b p => match Post b p with Some (b', _) => b' | None => b end) b ps.

Lemma post_all_built `{U : Unicode} ps b : built b -> built (post_all b ps).
Proof.
  revert b. induction ps as [|p ps IH]; intros b Hb; [done|]. simpl. apply IH.
  destruct (Post b p) as [[b' r]|] eqn:E; [|done]. by eapply built_post.
Qed.

Section Witnesses.
#[local] Existing Instance ascii_unicode.

Definition demo_book : Book := post_all NewBook [demo_p1; demo_p1; demo_posting "" "a" "b" 1].

Lemma demo_built ps : built (post_all NewBook ps).
Proof. apply post_all_built. constructor. Qed.

Lemma ledger_check_passes_witness : postings demo_book = [with_seq demo_p1 1] /\ Check demo_book = None.
Proof.
  split; [vm_compute; reflexivity|].
  exact (ledger_check_passes demo_book (demo_built [demo_p1; demo_p1; demo_posting "" "a" "b" 1])).
Defined.

Lemma ledger_post_outcome_witness :
  exists b' r, Post demo_book demo_p2 = Some (b', r) /\ post_outcome demo_book demo_p2 b' r.
Proof. exact (ledger_post_outcome demo_book demo_p2 (demo_built _)). Defined.

Lemma ledger_post_idempotent_witness :
  let b1 := post_all NewBook [demo_p1] in
  let b2 := post_all NewBook [demo_p1; demo_p2] in
  Post b2 (demo_posting "fee:t:p" "x" "y" 1) = Some (b2, (with_seq demo_p1 1, false, None)).
Proof.
  intros b1 b2.
  refine (ledger_post_idempotent NewBook b1 b2 demo_p1 (with_seq demo_p1 1) [with_seq demo_p2 2]
            _ _ _ _ (demo_posting "fee:t:p" "x" "y" 1) _ _).
  - exact (demo_built []).
  - vm_compute; reflexivity.
  - exact (demo_built [demo_p1; demo_p2]).
  - vm_compute; reflexivity.
  - repeat split; discriminate.
  - reflexivity.
Defined.

Lemma ledger_balance_is_net_witness : Balance demo_book "pool:t" = 500.
Proof.
  rewrite (proj2 (ledger_balance_is_net demo_book "pool:t" (demo_built _))).
  - vm_compute; reflexivity.
  - vm_compute. split; [discriminate|reflexivity].
Defined.

Lemma ledger_post_appends_witness :
  let b := demo_book in let b' := post_all demo_book [demo_p2] in
  postings b' = postings b ++ PostingsSince b' (Len b) /\
  (length (PostingsSince b' (Len b)) <= 1)%nat.
Proof.
  refine (ledger_post_appends demo_book (post_all demo_book [demo_p2]) demo_p2
            (with_seq demo_p2 2, true, None) (demo_built _) _).
  vm_compute; reflexivity.
Defined.
End Witnesses.
