(* ===== verification/Game.v ===== *)
(** The rules engine of Ladder: package [game] (internal/game/game.go,
    rules.go).  Cards, seeds and commitments, the seeded deal, boards, moves
    and scores, all executable: the examples at the end reproduce the
    repository's published deal vectors.  The theorems: the shuffle permutes
    the deck, no move ever creates, loses or duplicates a card, a legal move
    exists exactly while the round is not over, and every score is within the
    bounds the tournaments declare. *)

From Stdlib Require Import Ascii.
From S2P Require Import Prelude GoStd.

(** * Constants (game.go) *)

Definition LadderV1 : string := "ladder-v1".

Definition DeckSize : Z := 52.
Definition ColumnCount : Z := 7.
Definition ColumnDepth : Z := 5.
Definition TableauSize : Z := ColumnCount * ColumnDepth.
Definition StockSize : Z := DeckSize - TableauSize - 1.
Definition Rounds : Z := 3.
Definition RoundTimeLimitMs : Z := 300000.

Definition PointsPerCard : Z := 100.
Definition ClearBonus : Z := 500.
Definition StockBonus : Z := 50.
Definition MaxRoundScore : Z := TableauSize * PointsPerCard + ClearBonus + StockSize * StockBonus.
Definition MaxTotalScore : Z := Rounds * MaxRoundScore.

Definition DealDomain : string := "paxos-arena/deal/v1".
Definition CommitDomain : string := "paxos-arena/commit/v1".

(** * Cards (rules.go) *)

(** A [uint8]. *)
Abbreviation Card := Z (only parsing).

Definition RankChars : string := "A23456789TJQK".
Definition SuitChars : string := "cdhs".

Definition Rank (c : Card) : Z := c / 4 + 1.
Definition Suit (c : Card) : Z := c mod 4.
Definition Valid (c : Card) : bool := c <? DeckSize.

(** [s[i]] of the two character tables; the index is in range for a card. *)
Definition char_at (s : string) (i : Z) : Ascii.ascii :=
  default Ascii.zero (String.get (Z.to_nat i) s).

Definition Card_String (c : Card) : string :=
  if negb (Valid c) then "??"
  else String (char_at RankChars (Rank c - 1)) (String (char_at SuitChars (Suit c)) "").

(** The scan of a character table: the last index holding [c], -1 if none. *)
Fixpoint scan_chars (s : string) (c : Ascii.ascii) (i found : Z) : Z :=
  match s with
  | EmptyString => found
  | String x s' => scan_chars s' c (i + 1) (if Ascii.eqb x c then i else found)
  end.

Definition ParseCard `{Unicode} (s : string) : Card + error :=
  match s with
  | String r (String t EmptyString) =>
      let rank := scan_chars RankChars r 0 (-1) in
      let suit := scan_chars SuitChars t 0 (-1) in
      if (rank <? 0) || (suit <? 0) then inr ("game: " +:+ quote s +:+ " is not a card")
      else inl (u8 (rank * 4 + suit))
  | _ => inr ("game: card " +:+ quote s +:+ " is not two characters")
  end.

Definition Adjacent (a b : Card) : bool :=
  let d := Z.rem (Z.rem (Rank a - Rank b) 13 + 13) 13 in
  (d =? 1) || (d =? 12).

(** * Seeds and commitments *)

(** [Seed] and [Commitment] are 32-byte arrays. *)
Abbreviation Seed := bytes (only parsing).
Abbreviation Commitment := bytes (only parsing).
Definition zero32 : bytes := repeat 0 32.

Definition hexText (b : bytes) : bytes := hex_encode b.

(** [parseHex32] on the destination [dst]: the new value, or the error and
    [dst] unchanged. *)
Definition parseHex32 (dst : bytes) (b : bytes) (what : string) : bytes * option error :=
  exit_if negb (len b =? 64)
    with (dst, Some ("game: " +:+ what +:+ " must be 64 hex characters, got " +:+ itoa (len b)));
  exit_if negb (forallb is_lower_hex b)
    with (dst, Some ("game: " +:+ what +:+ " must be lower-case hex"));
  match hex_decode b with
  | None => (dst, Some ("game: " +:+ what))
  | Some tmp => (tmp, None)
  end.

Definition DeriveSeed (secret : bytes) (tournament player : string) (round : Z) : Seed :=
  hmac_sha256 secret
    (bytes_of DealDomain ++ [0] ++ bytes_of tournament ++ [0] ++ bytes_of player ++ [0]
     ++ put_be32 (u32 round)).

Definition Commit (s : Seed) : Commitment := sha256 (bytes_of CommitDomain ++ [0] ++ s).

(** * The deal *)

Record stream := mkStream { st_seed : Seed; st_block : Z; st_buf : bytes; st_off : nat }.

Definition newStream (s : Seed) : stream := mkStream s 0 zero32 32.

(** One byte of the stream, refilling the buffer when it is used up. *)
Definition next_byte (st : stream) : Z * stream :=
  let st := if Nat.eqb (st_off st) 32
            then mkStream (st_seed st) (u64 (st_block st + 1))
                   (sha256 (st_seed st ++ put_be64 (st_block st))) 0
            else st in
  (nth (st_off st) (st_buf st) 0,
   mkStream (st_seed st) (st_block st) (st_buf st) (S (st_off st))).

Definition next32 (st : stream) : Z * stream :=
  let '(b0, st) := next_byte st in
  let '(b1, st) := next_byte st in
  let '(b2, st) := next_byte st in
  let '(b3, st) := next_byte st in
  (get_be [b0; b1; b2; b3], st).

Definition swap (deck : list Card) (i j : nat) : list Card :=
  match deck !! i, deck !! j with
  | Some x, Some y => <[i := y]> (<[j := x]> deck)
  | _, _ => deck
  end.

(** The bound below which a draw is accepted for an index below [n]. *)
Definition draw_limit (n : Z) : Z := 2 ^ 32 - (2 ^ 32) mod n.

Section Shuffle.
Context {S : Type} (next : S -> Z * S).

(** The rejection loop, with at most [fuel] draws. *)
Fixpoint draw (fuel : nat) (n : Z) (st : S) : option (Z * S) :=
  match fuel with
  | O => None
  | Datatypes.S fuel' =>
      let '(x, st') := next st in
      if draw_limit n <=? x then draw fuel' n st' else Some (x mod n, st')
  end.

(** The shuffle of positions [i] down to 1. *)
Fixpoint shuffle_from (fuel : nat) (i : nat) (deck : list Card) (st : S) : option (list Card) :=
  match i with
  | O => Some deck
  | Datatypes.S i' =>
      '(j, st') ← draw fuel (Z.of_nat i + 1) st;
      shuffle_from fuel i' (swap deck i (Z.to_nat j)) st'
  end.

Definition canonical_deck : list Card := map Z.of_nat (seq 0 52).

Definition shuffleWith (fuel : nat) (st : S) : option (list Card) :=
  shuffle_from fuel 51 canonical_deck st.
End Shuffle.

(** [fuel] bounds the consecutive rejected draws; each draw is rejected with
    probability below 2^-26. *)
Definition Shuffle (fuel : nat) (s : Seed) : option (list Card) :=
  shuffleWith next32 fuel (newStream s).

(** * Boards *)

Record Board := mkBoard {
  Columns : list (list Card);
  Waste : list Card;
  Stock : list Card;
  Moves : Z;
}.

Definition layout (deck : list Card) : Board :=
  mkBoard (map (fun c => take 5 (drop (c * 5) deck)) (seq 0 7))
    (take 1 (drop 35 deck)) (drop 36 deck) 0.

Definition Deal (fuel : nat) (s : Seed) : option Board := layout <$> Shuffle fuel s.

(** A deep copy is the same value: boards are immutable here. *)
Definition Clone (b : Board) : Board := mkBoard (map id (Columns b)) (Waste b) (Stock b) (Moves b).

(** [None] is the index panic on an empty waste. *)
Definition WasteCard (b : Board) : option Card := last (Waste b).

Definition Cleared (b : Board) : Z := TableauSize - zsum (map len (Columns b)).

Definition Score (b : Board) : Z :=
  let cleared := Cleared b in
  let score := PointsPerCard * cleared in
  if cleared =? TableauSize then score + (ClearBonus + StockBonus * len (Stock b)) else score.

Definition column_playable (w : Card) (col : list Card) : bool :=
  match last col with Some c => Adjacent c w | None => false end.

Definition Playable (b : Board) : option (list Z) :=
  w ← WasteCard b;
  Some (map (fun p => Z.of_nat p.1)
         (List.filter (fun p => column_playable w p.2) (imap pair (Columns b)))).

(** [FinishReason] constants. *)
Definition FCleared : string := "cleared".
Definition FBlocked : string := "blocked".
Definition FResigned : string := "resigned".
Definition FExpired : string := "expired".
Definition FClosed : string := "closed".

(** [Over] is (reason, true) or ("", false): [Some reason] or [None] inside
    the panic option. *)
Definition Over (b : Board) : option (option string) :=
  if Cleared b =? TableauSize then Some (Some FCleared)
  else if len (Stock b) =? 0 then
    ps ← Playable b; Some (if len ps =? 0 then Some FBlocked else None)
  else Some None.

(** * Moves *)

(** [MoveKind] is a string; only "play" and "draw" are legal. *)
Definition Play : string := "play".
Definition Draw : string := "draw".
Definition NoColumn : Z := -1.

Record Move := mkMove { mv_kind : string; mv_column : Z }.

#[export] Instance Move_eq_dec : EqDecision Move.
Proof. solve_decision. Defined.

Inductive MoveErr :=
| ErrUnknownMove | ErrBadColumn | ErrColumnEmpty | ErrNotAdjacent | ErrStockEmpty | ErrRoundOver.

Definition move_err_text (e : MoveErr) : error :=
  match e with
  | ErrUnknownMove => "game: the move kind is not play or draw"
  | ErrBadColumn => "game: a play names a column from 0 to 6 and a draw names column -1"
  | ErrColumnEmpty => "game: the column is empty"
  | ErrNotAdjacent => "game: the column's top card is not one rank above or below the waste card"
  | ErrStockEmpty => "game: the stock is empty"
  | ErrRoundOver => "game: the round is over"
  end.

(** The shape of a move: the first switch of [Check]. *)
Definition move_shape (m : Move) : option MoveErr :=
  if String.eqb (mv_kind m) Play then
    if (mv_column m <? 0) || (ColumnCount <=? mv_column m) then Some ErrBadColumn else None
  else if String.eqb (mv_kind m) Draw then
    if negb (mv_column m =? NoColumn) then Some ErrBadColumn else None
  else Some ErrUnknownMove.

Definition Check (b : Board) (m : Move) : option (option MoveErr) :=
  match move_shape m with
  | Some e => Some (Some e)
  | None =>
      over ← Over b;
      match over with
      | Some _ => Some (Some ErrRoundOver)
      | None =>
          if String.eqb (mv_kind m) Draw then
            Some (if len (Stock b) =? 0 then Some ErrStockEmpty else None)
          else
            col ← Columns b !! Z.to_nat (mv_column m);
            match last col with
            | None => Some (Some ErrColumnEmpty)
            | Some c => w ← WasteCard b; Some (if negb (Adjacent c w) then Some ErrNotAdjacent else None)
            end
      end
  end.

Definition Apply (b : Board) (m : Move) : option (Board * option MoveErr) :=
  err ← Check b m;
  match err with
  | Some e => Some (b, Some e)
  | None =>
      if String.eqb (mv_kind m) Draw then
        c ← head (Stock b);
        Some (mkBoard (Columns b) (Waste b ++ [c]) (tail (Stock b)) (Moves b + 1), None)
      else
        let i := Z.to_nat (mv_column m) in
        col ← Columns b !! i;
        c ← last col;
        Some (mkBoard (<[i := take (length col - 1) col]> (Columns b)) (Waste b ++ [c]) (Stock b)
                (Moves b + 1), None)
  end.

(** The loop of [Replay] from move index [i]. *)
Fixpoint replay_from (i : Z) (b : Board) (moves : list Move) : option (Board * option error) :=
  match moves with
  | [] => Some (b, None)
  | m :: moves' =>
      '(b', err) ← Apply b m;
      match err with
      | Some e => Some (b', Some ("game: move " +:+ itoa i +:+ ": " +:+ move_err_text e))
      | None => replay_from (i + 1) b' moves'
      end
  end.

Definition Replay (fuel : nat) (s : Seed) (moves : list Move) : option (Board * option error) :=
  b ← Deal fuel s; replay_from 0 b moves.

(** * The shuffle *)

Lemma swap_Permutation deck i j : swap deck i j ≡ₚ deck.
Proof.
  unfold swap. destruct (deck !! i) as [x|] eqn:Hi; [|done].
  destruct (deck !! j) as [y|] eqn:Hj; [|done].
  assert (H1 : <[j := x]> deck !! i = Some x).
  { destruct (decide (i = j)) as [->|Hne].
    - apply list_lookup_insert_eq. by eapply lookup_lt_Some.
    - by rewrite list_lookup_insert_ne by done. }
  apply (Permutation_cons_inv (a := x)).
  rewrite (insert_Permutation _ i x y H1). by apply insert_Permutation.
Qed.

Section ShuffleSpec.
Context {S : Type} (next : S -> Z * S).

Lemma shuffle_from_Permutation fuel i deck st deck' :
  shuffle_from next fuel i deck st = Some deck' -> deck' ≡ₚ deck.
Proof.
  revert deck st. induction i as [|i IH]; intros deck st H; simplify_eq/=; [done|].
  destruct (draw _ _ _ _) as [[j st']|]; [|done]. simpl in H.
  rewrite (IH _ _ H). apply swap_Permutation.
Qed.

(** A source that always yields an accepted draw after [k] more draws
    finishes every rejection loop with fuel above [k]. *)
Fixpoint draws (k : nat) (st : S) : Z * S :=
  match k with O => next st | Datatypes.S k' => draws k' (next st).2 end.

Definition fair (fuel : nat) : Prop :=
  forall n st, 1 < n <= 52 -> exists k, (k < fuel)%nat /\ (draws k st).1 < draw_limit n.

Lemma draw_terminates fuel n st k :
  (k < fuel)%nat -> (draws k st).1 < draw_limit n -> is_Some (draw next fuel n st).
Proof.
  revert st k. induction fuel as [|fuel IH]; intros st k Hk Hd; [lia|]. simpl.
  destruct (next st) as [x st'] eqn:E. destruct (Z.leb_spec (draw_limit n) x) as [Hx|Hx]; [|done].
  destruct k as [|k]; simpl in Hd; rewrite E in Hd; simpl in Hd; [lia|].
  apply (IH st' k); [lia|done].
Qed.

Lemma shuffle_from_terminates fuel i deck st :
  fair fuel -> (i <= 51)%nat -> is_Some (shuffle_from next fuel i deck st).
Proof.
  intros F. revert deck st. induction i as [|i IH]; intros deck st Hi; [done|]. cbn [shuffle_from].
  destruct (F (Z.of_nat (Datatypes.S i) + 1) st) as (k & Hk & Hd); [lia|].
  destruct (draw_terminates _ _ st k Hk Hd) as [[j st'] ->]. simpl. apply IH. lia.
Qed.

(** The shuffle permutes the deck: with a source of draws that is not
    rejected forever it returns, and what it returns holds each of the 52
    cards exactly once. *)
Theorem shuffle_permutes (fuel : nat) (st : S) :
  fair fuel -> exists deck, shuffleWith next fuel st = Some deck /\ deck ≡ₚ canonical_deck.
Proof.
  intros F. destruct (shuffle_from_terminates fuel 51 canonical_deck st F) as [deck H]; [lia|].
  exists deck. split; [done|]. by eapply shuffle_from_Permutation.
Qed.
End ShuffleSpec.

(** Accepted draws are spread evenly: below the limit, every index of a range
    of size [n] has the same number of preimages. *)
Lemma draw_limit_multiple n : 0 < n -> (n | draw_limit n).
Proof.
  intros Hn. unfold draw_limit. exists (2 ^ 32 / n).
  pose proof (Z.div_mod (2 ^ 32) n ltac:(lia)). lia.
Qed.

(** * Boards *)

(** The invariant of a board in play: the 52 cards, each in one place, seven
    columns, a waste card, and the move count that the waste implies. *)
Record board_wf (b : Board) : Prop := {
  bw_cards : concat (Columns b) ++ Waste b ++ Stock b ≡ₚ canonical_deck;
  bw_columns : length (Columns b) = 7%nat;
  bw_tableau : len (concat (Columns b)) <= TableauSize;
  bw_stock : len (Stock b) <= StockSize;
  bw_waste : Waste b <> [];
  bw_moves : Moves b = len (Waste b) - 1;
}.

Lemma layout_wf deck : deck ≡ₚ canonical_deck -> board_wf (layout deck).
Proof.
  intros H. assert (Hl : length deck = 52%nat) by (rewrite H; reflexivity).
  assert (Hs : concat (Columns (layout deck)) ++ Waste (layout deck) ++ Stock (layout deck) = deck).
  { clear H. do 52 (destruct deck as [|? deck]; [discriminate|]). by destruct deck. }
  do 52 (destruct deck as [|? deck]; [discriminate|]). destruct deck; [|discriminate].
  split; rewrite ?Hs; try done; reflexivity.
Qed.

Lemma Deal_wf fuel s b : Deal fuel s = Some b -> board_wf b.
Proof.
  unfold Deal. destruct (Shuffle fuel s) as [deck|] eqn:H; [|done]. intros E. simplify_eq/=.
  apply layout_wf. by eapply shuffle_from_Permutation.
Qed.

Lemma Cleared_spec b : Cleared b = TableauSize - len (concat (Columns b)).
Proof. unfold Cleared. by rewrite len_concat. Qed.

Lemma WasteCard_wf b : board_wf b -> exists w, WasteCard b = Some w /\ w ∈ Waste b.
Proof.
  intros W. unfold WasteCard. destruct (last (Waste b)) as [w|] eqn:E.
  - exists w. split; [done|]. by apply last_Some_elem_of.
  - apply last_None in E. by destruct (bw_waste b W).
Qed.

Lemma Playable_wf b : board_wf b -> exists w, WasteCard b = Some w /\
  Playable b = Some (map (fun p => Z.of_nat p.1)
    (List.filter (fun p => column_playable w p.2) (imap pair (Columns b)))).
Proof.
  intros W. destruct (WasteCard_wf b W) as (w & Hw & _). exists w. split; [done|].
  unfold Playable. by rewrite Hw.
Qed.

Lemma Playable_spec b ps w c :
  Playable b = Some ps -> WasteCard b = Some w ->
  c ∈ ps <-> exists i col, c = Z.of_nat i /\ Columns b !! i = Some col /\ column_playable w col = true.
Proof.
  unfold Playable. intros H Hw. rewrite Hw in H. simplify_eq/=.
  rewrite list_elem_of_In, in_map_iff. setoid_rewrite filter_In. setoid_rewrite <- list_elem_of_In.
  setoid_rewrite elem_of_lookup_imap. split.
  - intros ([i col] & <- & (i' & col' & E & Hc) & Hp). simplify_eq/=. eauto.
  - intros (i & col & -> & Hc & Hp). exists (i, col). eauto 10.
Qed.

Lemma Over_wf b : board_wf b -> exists o, Over b = Some o.
Proof.
  intros W. unfold Over. destruct (Playable_wf b W) as (w & _ & Hp). rewrite Hp.
  repeat case_goal; eauto.
Qed.

Lemma move_shape_None m : move_shape m = None <->
  (mv_kind m = Play /\ 0 <= mv_column m < ColumnCount) \/ (mv_kind m = Draw /\ mv_column m = NoColumn).
Proof.
  unfold move_shape, ColumnCount. destruct (String.eqb_spec (mv_kind m) Play) as [->|Hp].
  - destruct (Z.ltb_spec (mv_column m) 0), (Z.leb_spec 7 (mv_column m)); simpl;
      split; intros Hm; try done; try (destruct Hm as [[_ Hm]|[Hm _]]; (done || lia)).
    left. split; [done|lia].
  - destruct (String.eqb_spec (mv_kind m) Draw) as [->|Hd].
    + destruct (Z.eqb_spec (mv_column m) NoColumn); simpl; split; intros Hm; try done; auto.
      destruct Hm as [[Hm _]|[_ Hm]]; done.
    + split; [done|]. by intros [[? _]|[? _]].
Qed.

(** * Moves *)

(** What the rules allow, stated on the board: a draw from a non-empty stock,
    or a play of a column's top card next to the waste card. *)
Inductive legal (b : Board) : Move -> Prop :=
| legal_draw : Stock b <> [] -> legal b (mkMove Draw NoColumn)
| legal_play i col c w :
    Columns b !! i = Some col -> last col = Some c -> WasteCard b = Some w ->
    Adjacent c w = true -> legal b (mkMove Play (Z.of_nat i)).

Lemma check_board_wf b m : board_wf b -> exists e, Check b m = Some e.
Proof.
  intros W. unfold Check. destruct (move_shape m) eqn:Hs; [eauto|].
  destruct (Over_wf b W) as [[r|] ->]; simpl; [eauto|].
  destruct (String.eqb_spec (mv_kind m) Draw) as [Hd|Hd]; [eauto|].
  apply move_shape_None in Hs as [[_ Hc]|[Hc _]]; [|done].
  destruct (lookup_lt_is_Some_2 (Columns b) (Z.to_nat (mv_column m))) as [col Hcol].
  { rewrite (bw_columns b W). unfold ColumnCount in Hc. lia. }
  rewrite Hcol. simpl. destruct (last col); [|eauto].
  destruct (WasteCard_wf b W) as (w & -> & _). simpl. eauto.
Qed.

Lemma Check_legal b m :
  board_wf b -> Check b m = Some None <-> Over b = Some None /\ legal b m.
Proof.
  intros W. unfold Check. destruct (Over_wf b W) as [o Ho]. rewrite Ho. simpl. split.
  - destruct (move_shape m) eqn:Hs; [done|].
    destruct o; [done|]. intros H. split; [done|]. destruct m as [k c]; simpl in *.
    apply move_shape_None in Hs. simpl in Hs. destruct Hs as [[-> Hc]|[-> ->]]; simpl in H.
    + destruct (Columns b !! Z.to_nat c) as [col|] eqn:Hcol; [|done]. simpl in H.
      destruct (last col) as [t|] eqn:Ht; [|done].
      destruct (WasteCard b) as [w|] eqn:Hw; [|done]. simpl in H.
      destruct (Adjacent t w) eqn:Ha; [|done].
      replace c with (Z.of_nat (Z.to_nat c)) by lia. by eapply legal_play.
    + destruct (Z.eqb_spec (len (Stock b)) 0) as [Hl|Hl]; [done|].
      constructor. by rewrite <- len_zero.
  - intros [Hn Hl]. simplify_eq. destruct Hl as [Hst|i col c w Hcol Hc Hw Ha]; simpl.
    + destruct (Z.eqb_spec (len (Stock b)) 0) as [Hz|]; [|done]. by apply len_zero in Hz.
    + assert (Hi : (i < 7)%nat) by (rewrite <- (bw_columns b W); by eapply lookup_lt_Some).
      rewrite (proj2 (move_shape_None _)) by (left; unfold ColumnCount; simpl; split; [done|lia]).
      simpl. rewrite Nat2Z.id, Hcol. simpl. rewrite Hc, Hw. simpl. by rewrite Ha.
Qed.

Lemma Over_None b : board_wf b -> Over b = Some None -> exists m, legal b m.
Proof.
  intros W. unfold Over. case_goal; [done|].
  destruct (Z.eqb_spec (len (Stock b)) 0) as [Hs|Hs].
  - destruct (Playable_wf b W) as (w & Hw & Hp).
    destruct (Playable b) as [ps|] eqn:Hps; [|done]. simpl.
    destruct ps as [|c ps]; [done|]. intros _.
    destruct (proj1 (Playable_spec b (c :: ps) w c Hps Hw)) as (i & col & -> & Hcol & Hpl); [by left|].
    unfold column_playable in Hpl. destruct (last col) eqn:Hl; [|done].
    eexists. by eapply legal_play.
  - intros _. exists (mkMove Draw NoColumn). constructor. by rewrite <- len_zero.
Qed.

(** The round is over exactly when the rules allow no move: on a board of
    a deal, [Over] reports a reason if and only if [Check] refuses every
    move. *)
Theorem over_iff_no_move (b : Board) :
  board_wf b ->
  (exists r, Over b = Some (Some r)) <-> (forall m, exists e, Check b m = Some (Some e)).
Proof.
  intros W. split.
  - intros [r Hr] m. destruct (check_board_wf b m W) as [[e|] He]; [eauto|].
    apply (Check_legal b m W) in He as [Hn _]. congruence.
  - intros H. destruct (Over_wf b W) as [[r|] Ho]; [eauto|].
    destruct (Over_None b W Ho) as [m Hm]. destruct (H m) as [e He].
    assert (Check b m = Some None) by (by apply Check_legal). congruence.
Qed.

Lemma take_columns_wf b i col c w :
  board_wf b -> Columns b !! i = Some col -> last col = Some c ->
  board_wf (mkBoard (<[i := take (length col - 1) col]> (Columns b)) (Waste b ++ [c]) (Stock b) w) <->
  w = Moves b + 1.
Proof.
  intros W Hcol Hc. set (k := take (length col - 1) col).
  assert (Hp : concat (Columns b) ≡ₚ c :: concat (<[i := k]> (Columns b))).
  { apply (concat_lookup_Permutation _ _ col); [done|].
    rewrite (last_snoc_take col c Hc) at 1. by rewrite <- Permutation_cons_append. }
  pose proof (len_Permutation _ _ Hp) as Hl. rewrite len_cons in Hl. split.
  - intros [_ _ _ _ _ H]. simpl in H. rewrite len_app, (bw_moves b W) in *. change (len [c]) with 1 in H. lia.
  - intros ->. destruct W as [W1 W2 W3 W4 W5 W6]. split; simpl; auto.
    + rewrite <- W1, Hp. rewrite <- app_assoc. simpl. by rewrite !Permutation_middle.
    + by rewrite length_insert.
    + lia.
    + by destruct (Waste b).
    + rewrite len_app, W6. change (len [c]) with 1. lia.
Qed.

Lemma draw_wf b c k : board_wf b -> Stock b = c :: k ->
  board_wf (mkBoard (Columns b) (Waste b ++ [c]) k (Moves b + 1)).
Proof.
  intros [W1 W2 W3 W4 W5 W6] Hs. rewrite Hs in *. rewrite len_cons in W4. split; simpl; auto; try lia.
  - by rewrite <- W1, <- app_assoc.
  - by destruct (Waste b).
  - rewrite len_app, W6. change (len [c]) with 1. lia.
Qed.

(** What [Apply] does on a board of a deal. *)
Lemma apply_board_wf b m : board_wf b ->
  (exists e, Check b m = Some (Some e) /\ Apply b m = Some (b, Some e)) \/
  (Check b m = Some None /\ exists b', Apply b m = Some (b', None) /\ board_wf b' /\
     Moves b' = Moves b + 1 /\ Score b <= Score b').
Proof.
  intros W. destruct (check_board_wf b m W) as [[e|] He]; [left; exists e; unfold Apply; by rewrite He|right].
  split; [done|]. pose proof (proj1 (Check_legal b m W) He) as [Ho Hl].
  assert (Hnc : Cleared b <> TableauSize).
  { unfold Over in Ho. by destruct (Z.eqb_spec (Cleared b) TableauSize). }
  unfold Apply. rewrite He. simpl. destruct Hl as [Hst|i col c w Hcol Hc Hw Ha]; simpl.
  - destruct (Stock b) as [|c k] eqn:Hs; [done|]. simpl. eexists. split; [done|].
    split_and!; [by apply draw_wf|done|].
    unfold Score. rewrite !Cleared_spec in *. simpl.
    destruct (Z.eqb_spec (TableauSize - len (concat (Columns b))) TableauSize); [done|lia].
  - rewrite Nat2Z.id, Hcol. simpl. rewrite Hc. simpl. eexists. split; [done|].
    split_and!; [by apply take_columns_wf|done|].
    assert (Hp : concat (Columns b) ≡ₚ c :: concat (<[i := take (length col - 1) col]> (Columns b))).
    { apply (concat_lookup_Permutation _ _ col); [done|].
      rewrite (last_snoc_take col c Hc) at 1. by rewrite <- Permutation_cons_append. }
    apply len_Permutation in Hp. rewrite len_cons in Hp.
    unfold Score. rewrite !Cleared_spec in *. simpl. unfold PointsPerCard, ClearBonus, StockBonus.
    pose proof (len_nonneg (Stock b)).
    destruct (Z.eqb_spec (TableauSize - len (concat (Columns b))) TableauSize); [done|].
    case_goal; lia.
Qed.

(** Every card stays in exactly one place: on a board of a deal, [Apply]
    never panics; a refused move changes nothing; an accepted one keeps the 52
    cards, the seven columns and the move count, and never lowers the score. *)
Theorem apply_conserves_cards (b : Board) (m : Move) :
  board_wf b ->
  exists b' r, Apply b m = Some (b', r) /\ board_wf b' /\ Score b <= Score b' /\
    match r with Some e => b' = b /\ Check b m = Some (Some e) | None => Moves b' = Moves b + 1 /\ legal b m end.
Proof.
  intros W. destruct (apply_board_wf b m W) as [(e & Hc & Ha)|(Hc & b' & Ha & W' & Hm & Hs)].
  - exists b, (Some e). split_and!; auto. lia.
  - exists b', None. split_and!; auto. by apply Check_legal.
Qed.

Lemma Score_bounds b : board_wf b -> 0 <= Score b <= MaxRoundScore.
Proof.
  intros W. pose proof (bw_tableau b W). pose proof (bw_stock b W).
  pose proof (len_nonneg (Stock b)). pose proof (len_nonneg (concat (Columns b))).
  unfold Score. rewrite Cleared_spec in *.
  unfold MaxRoundScore, TableauSize, StockSize, ColumnCount, ColumnDepth, DeckSize, PointsPerCard, ClearBonus, StockBonus in *.
  case_goal; lia.
Qed.

Lemma Moves_bounds b : board_wf b -> 0 <= Moves b <= 51.
Proof.
  intros W. rewrite (bw_moves b W). pose proof (len_Permutation _ _ (bw_cards b W)) as H.
  rewrite !len_app in H. change (len canonical_deck) with 52 in H.
  pose proof (len_nonneg (Stock b)). pose proof (len_nonneg (concat (Columns b))).
  destruct (Waste b) eqn:E; [by destruct (bw_waste b W)|]. rewrite len_cons in *.
  pose proof (len_nonneg l). lia.
Qed.

(** * Replay *)

Lemma replay_from_wf i b ms : board_wf b -> exists b' e, replay_from i b ms = Some (b', e) /\ board_wf b' /\ Score b <= Score b'.
Proof.
  revert i b. induction ms as [|m ms IH]; intros i b W; simpl; [eexists _, _; split_and!; [done..|lia]|].
  destruct (apply_board_wf b m W) as [(e & _ & ->)|(_ & b' & -> & W' & _ & Hs)]; simpl.
  - eexists _, _; split_and!; [done..|lia].
  - destruct (IH (i + 1) b' W') as (b2 & e & H & W2 & Hs2). exists b2, e. split_and!; auto. lia.
Qed.

Lemma replay_from_snoc i b ms b' m b2 :
  replay_from i b ms = Some (b', None) -> Apply b' m = Some (b2, None) ->
  replay_from i b (ms ++ [m]) = Some (b2, None).
Proof.
  revert i b. induction ms as [|x ms IH]; intros i b H1 H2; simplify_eq/=.
  - by rewrite H2.
  - destruct (Apply b x) as [[b1 [e|]]|]; simplify_eq/=. by apply IH.
Qed.

Lemma replay_from_moves i b ms b' :
  board_wf b -> replay_from i b ms = Some (b', None) -> Moves b' = Moves b + len ms.
Proof.
  revert i b. induction ms as [|m ms IH]; intros i b W H; simplify_eq/=; [unfold len; simpl; lia|].
  destruct (apply_board_wf b m W) as [(e & _ & Ha)|(_ & b1 & Ha & W1 & Hm & _)]; rewrite Ha in H; simplify_eq/=.
  rewrite (IH _ _ W1 H), Hm, len_cons. lia.
Qed.

(** Replaying any list of moves of any deal returns, without a panic, a
    board that keeps the cards, scores between 0 and the maximum the
    tournaments declare, and has taken at most 51 moves. *)
Theorem replay_sound (fuel : nat) (s : Seed) (ms : list Move) (b0 : Board) :
  Deal fuel s = Some b0 ->
  exists b e, Replay fuel s ms = Some (b, e) /\ board_wf b /\
    0 <= Score b <= MaxRoundScore /\ 0 <= Moves b <= 51 /\ (e = None -> len ms <= 51).
Proof.
  intros H. pose proof (Deal_wf fuel s b0 H) as W0. unfold Replay. rewrite H. simpl.
  destruct (replay_from_wf 0 b0 ms W0) as (b & e & Hr & W & _). exists b, e.
  split_and!; auto; try apply Score_bounds; try apply Moves_bounds; auto.
  intros ->. pose proof (replay_from_moves _ _ _ _ W0 Hr).
  pose proof (Moves_bounds b W). pose proof (Moves_bounds b0 W0). lia.
Qed.

(** * Card and hexadecimal spellings *)

Lemma scan_chars_spec s c i f r :
  scan_chars s c i f = r -> 0 <= i ->
  r = f \/ (i <= r < i + slen s /\ String.get (Z.to_nat (r - i)) s = Some c).
Proof.
  revert i f. induction s as [|x s IH]; intros i f H Hi; [by left|].
  unfold slen in *. cbn [scan_chars String.length] in *.
  destruct (IH _ _ H) as [->|[Hr Hg]]; [lia| |].
  - destruct (Ascii.eqb_spec x c) as [->|]; [|by left]. right. split; [lia|].
    by replace (Z.to_nat (i - i)) with O by lia.
  - right. split; [lia|]. by replace (Z.to_nat (r - i)) with (S (Z.to_nat (r - (i + 1)))) by lia.
Qed.

Lemma scan_char_at s c :
  (scan_chars s c 0 (-1) <? 0) = false ->
  0 <= scan_chars s c 0 (-1) < slen s /\ char_at s (scan_chars s c 0 (-1)) = c.
Proof.
  intros H%Z.ltb_ge. destruct (scan_chars_spec s c 0 (-1) _ eq_refl ltac:(lia)) as [E|[Hr Hg]].
  { rewrite E in H. lia. }
  split; [lia|]. unfold char_at. rewrite Z.sub_0_r in Hg. by rewrite Hg.
Qed.

Lemma card_spellings `{Unicode} :
  Forall (fun n => ParseCard (Card_String (Z.of_nat n)) = inl (Z.of_nat n)) (seq 0 52).
Proof. repeat (constructor; [reflexivity|]). constructor. Qed.

(** Cards round-trip through their spelling: [ParseCard] accepts exactly
    the strings [Card.String] prints for the 52 cards, and gives back the card. *)
Theorem card_round_trip `{Unicode} (s : string) (c : Card) :
  ParseCard s = inl c <-> 0 <= c < DeckSize /\ Card_String c = s.
Proof.
  split.
  - unfold ParseCard. destruct s as [|r [|t [|? ?]]]; try done.
    set (rk := scan_chars RankChars r 0 (-1)) in *. set (su := scan_chars SuitChars t 0 (-1)) in *.
    case_goal; [done|]. b2p.
    destruct (scan_char_at RankChars r) as [Hr Hgr]; [by apply Z.ltb_ge|].
    destruct (scan_char_at SuitChars t) as [Hs Hgs]; [by apply Z.ltb_ge|].
    change (slen RankChars) with 13 in Hr. change (slen SuitChars) with 4 in Hs.
    fold rk in Hr, Hgr. fold su in Hs, Hgs. clearbody rk su. intros Hp. injection Hp as <-. unfold u8. rewrite Z.mod_small by lia. unfold DeckSize. split; [lia|].
    unfold Card_String, Valid, Rank, Suit, DeckSize. replace (rk * 4 + su <? 52) with true by lia.
    cbn [negb]. rewrite (Z.add_comm _ su), Z.div_add, Z.mod_add, Z.div_small, Z.mod_small by lia.
    replace (0 + rk + 1 - 1) with rk by lia. by rewrite Hgr, Hgs.
  - intros [Hc <-]. pose proof card_spellings as F. rewrite Forall_forall in F.
    specialize (F (Z.to_nat c)). rewrite Z2Nat.id in F by lia. apply F.
    apply elem_of_seq. unfold DeckSize in Hc. lia.
Qed.

(** Seeds and commitments have one spelling: [parseHex32] accepts exactly
    the texts [hexText] renders for 32-byte values, and gives back the value;
    whatever it refuses leaves the destination unchanged. *)
Theorem hex_text_round_trip (dst t v : bytes) (what : string) :
  (parseHex32 dst t what = (v, None) <-> len v = 32 /\ Forall is_byte v /\ hexText v = t) /\
  (forall e, parseHex32 dst t what = (v, Some e) -> v = dst).
Proof.
  unfold parseHex32, hexText. split; [split|].
  - destruct (Z.eqb_spec (len t) 64) as [Hl|]; [|done]. simpl.
    destruct (forallb is_lower_hex t) eqn:Hf; [|done]. simpl.
    destruct (hex_decode t) as [r|] eqn:Hr; [|done]. intros E. simplify_eq.
    destruct (hex_decode_lower t v Hf Hr) as [Hb He].
    split_and!; [|done..]. destruct (hex_round_trip v Hb) as (_ & _ & Hlen). rewrite He in Hlen. lia.
  - intros (Hl & Hb & <-). destruct (hex_round_trip v Hb) as (H1 & H2 & H3).
    rewrite H1, H2, H3, Hl. done.
  - intros e. repeat case_goal; intros Hq; by simplify_eq.
Qed.

(** * Published vectors

    The values of appendix A of docs/UNITY-INTEGRATION.md, computed here. *)

Definition ascending : bytes := map (fun i => Z.of_nat i + 32) (seq 0 32).
Definition vector_seed (round : Z) : Seed :=
  DeriveSeed ascending "daily-2026-09-17" "p-mzxw6ytboi4dqnbrgm2wqzlmn4" round.
Definition seed1 : Seed := Eval vm_compute in vector_seed 1.
Definition board1 : Board := Eval vm_compute in default (layout []) (Deal 1 seed1).

(** "d" and "p3" as the vectors write moves. *)
Fixpoint vector_moves (s : string) : list Move :=
  match s with
  | String "d"%char s' => mkMove Draw NoColumn :: vector_moves s'
  | String "p"%char (String c s') => mkMove Play (chr c - 48) :: vector_moves s'
  | String _ s' => vector_moves s'
  | EmptyString => []
  end.
Definition moves1 : list Move := vector_moves
  ("d p1 p0 p2 p5 p2 p1 d p3 p3 d d d p2 p4 p0 d p6 d p0 p0 p5 p2 d p0 p5 d p4 " +:+
   "p1 p1 p2 p1 p3 d p4 d p3 p3 p5 d d p5 d p6 d p4 p6 d").

Lemma vector_seed_text :
  map (fun r => string_of (hexText (vector_seed r))) [1; 2; 3] =
  ["1898590d493e4a523bd5ff782956ceeba5cd1cbcf09d5158ee54a01dc4588377";
   "172b3ace53308aebc0a1219562d3f796f1f3e8a3bf443645a9d3439421be80c8";
   "995b407ebad8f37697d9db8c1b696976f821f3a4430b11d8e70eedb36750fcbc"].
Proof. vm_compute. reflexivity. Qed.

Lemma vector_commitment_text : string_of (hexText (Commit seed1)) =
  "5e188f4cb340f1c0e94c8821b8f72279b339f5698c66e659b22d32b3f9b29065".
Proof. vm_compute. reflexivity. Qed.

Lemma vector_deck :
  foldr (fun c s => " " +:+ Card_String c +:+ s) "" (default [] (Shuffle 1 seed1)) =
  " Ks 8h 7s 3s Jd 2h 4c 5d 7h Qh 3c 8s Ah 8d Th 9d Td 3h Jh Qs Ts 7c 5s 6d 2d 5h Tc Ad 9s 9h 2c 6s 6c 3d As 4h Kh Js Jc 5c Kd Kc 8c Ac 7d 4s 9c Qc 4d 2s 6h Qd".
Proof. vm_compute. reflexivity. Qed.

(** Round 1 played out: blocked after 48 moves with 32 cards cleared. *)
Lemma vector_round : forall b e, Replay 1 seed1 moves1 = Some (b, e) ->
  e = None /\ Over b = Some (Some FBlocked) /\ Score b = 3200 /\ Card_String <$> WasteCard b = Some "Qd".
Proof. intros b e H. vm_compute in H. simplify_eq. split_and!; vm_compute; reflexivity. Qed.

Lemma deal1 : Deal 1 seed1 = Some board1.
Proof. vm_compute. reflexivity. Qed.
Lemma board1_wf : board_wf board1.
Proof. apply (Deal_wf 1 seed1), deal1. Qed.

(** A source of draws that never rejects, for the witness of the shuffle. *)
Definition lcg (st : Z) : Z * Z := (st mod 2 ^ 31, (st * 1103515245 + 12345) mod 2 ^ 31).

Lemma lcg_fair : fair lcg 1.
Proof.
  intros n st Hn. exists O. split; [lia|]. unfold draw_limit, draws, lcg. simpl fst.
  pose proof (Z.mod_pos_bound st (2 ^ 31)). pose proof (Z.mod_pos_bound (2 ^ 32) n). lia.
Qed.

Lemma shuffle_permutes_witness : exists deck, shuffleWith lcg 1 7 = Some deck /\ deck ≡ₚ canonical_deck.
Proof. exact (shuffle_permutes lcg 1 7 lcg_fair). Defined.

Lemma over_iff_no_move_witness :
  Over board1 = Some None /\
  ((exists r, Over board1 = Some (Some r)) <-> forall m, exists e, Check board1 m = Some (Some e)).
Proof. split; [vm_compute; reflexivity|exact (over_iff_no_move board1 board1_wf)]. Defined.

Lemma apply_conserves_cards_witness : exists b' r,
  Apply board1 (mkMove Draw NoColumn) = Some (b', r) /\ board_wf b' /\ Score board1 <= Score b' /\
  match r with
  | Some e => b' = board1 /\ Check board1 (mkMove Draw NoColumn) = Some (Some e)
  | None => Moves b' = Moves board1 + 1 /\ legal board1 (mkMove Draw NoColumn)
  end.
Proof. exact (apply_conserves_cards board1 (mkMove Draw NoColumn) board1_wf). Defined.

Lemma replay_sound_witness : exists b e, Replay 1 seed1 moves1 = Some (b, e) /\ board_wf b /\
  0 <= Score b <= MaxRoundScore /\ 0 <= Moves b <= 51 /\ (e = None -> len moves1 <= 51).
Proof. exact (replay_sound 1 seed1 moves1 board1 deal1). Defined.

Lemma card_round_trip_witness : let _ := ascii_unicode in ParseCard "Ts" = inl 39.
Proof. intros U. apply (card_round_trip "Ts" 39). split; [unfold DeckSize; lia|reflexivity]. Defined.
