(* ===== verification/Records.v ===== *)
(** The data of package [tournament] (internal/tournament/tournament.go,
    play.go): identifiers, rules, commands, results, tournament records and
    the records of the play commands, with the reads that are methods of
    those types. *)

From S2P Require Import Prelude GoStd Paxos Ledger Game.

Abbreviation TournamentID := string (only parsing).
Abbreviation PlayerID := string (only parsing).
Abbreviation DeviceID := string (only parsing).
Abbreviation IdempotencyKey := string (only parsing).
Abbreviation Digest := bytes (only parsing).
Abbreviation TieBreak := string (only parsing).

(** * Status *)

Inductive Status := Open | Closed | Voided | Settled.

#[export] Instance Status_eq_dec : EqDecision Status.
Proof. solve_decision. Defined.

Definition Status_String (s : Status) : string :=
  match s with Open => "open" | Closed => "closed" | Voided => "voided" | Settled => "settled" end.

Definition Status_UnmarshalText `{Unicode} (b : string) : Status + error :=
  match list_find (fun s => Status_String s = b) [Open; Closed; Voided; Settled] with
  | Some (_, s) => inl s
  | None => inr ("tournament: unknown status " +:+ quote b)
  end.

(** * Rules and players *)

Definition EarliestSubmission : TieBreak := "earliest_submission".
Definition Split : TieBreak := "split".

Record Exclusions := mkExclusions { ex_version : Z; ex_jurisdictions : list string }.

Definition Contains (e : Exclusions) (j : string) : bool := bool_decide (j ∈ ex_jurisdictions e).

Record Player := mkPlayer { pl_id : PlayerID; pl_jurisdiction : string; pl_age : Z }.

Record Rules := mkRules {
  r_entry_fee : Money;
  r_rake_bps : Z;
  r_prize_bps : list Z;
  r_min_entrants : Z;
  r_max_entrants : Z;
  r_max_score : Z;
  r_min_age : Z;
  r_tie_break : TieBreak;
  r_exclusions : Exclusions;
  r_game : string;
}.

(** * Commands *)

Inductive Op :=
| CreateTournament (id : TournamentID) (seed : Z) (rules : Rules)
| Join (tournament : TournamentID) (player : Player)
| SubmitScore (tournament : TournamentID) (player : PlayerID) (score deal_seed : Z) (input_digest : Digest)
| Close (tournament : TournamentID)
| Settle (tournament : TournamentID) (exclusions : Exclusions)
| OpenSession (device : DeviceID) (verifier : Digest) (player : PlayerID) (jurisdiction : string) (age : Z)
| Enter (tournament : TournamentID) (player : PlayerID) (seq : Z)
| StartRound (tournament : TournamentID) (player : PlayerID) (seq round : Z) (seed : Seed)
| PlayMove (tournament : TournamentID) (player : PlayerID) (seq round move_index : Z) (move : Move)
| FinishRound (tournament : TournamentID) (player : PlayerID) (seq round : Z)
| ClaimPayout (tournament : TournamentID) (player : PlayerID) (seq : Z).

(** A nil [Op] is [None]. *)
Record Command := mkCommand { cmd_key : IdempotencyKey; cmd_received_at : Z; cmd_op : option Op }.

(** * Results *)

Inductive Code :=
| OK | KeyReused | InvalidKey | OutOfOrder | InvalidOp | InvalidRules | TournamentExists
| UnknownTournament | NotOpen | TournamentFull | AlreadyJoined | JurisdictionExcluded | Underage
| InvalidPlayer | NotJoined | AlreadyScored | SeedMismatch | ScoreOutOfRange | NotClosed
| InvalidExclusions | LedgerConflict
| InvalidDevice | DeviceMismatch | PlayerExists | UnknownPlayer | StaleSeq | SeqGap
| NotPlayTournament | PlayIntentRequired | InvalidRound | RoundAlreadyStarted
| PreviousRoundUnfinished | RoundNotStarted | RoundFinished | RoundExpired | MoveIndexMismatch
| IllegalMove | NotSettled | NoPayout | AlreadyClaimed.

#[export] Instance Code_eq_dec : EqDecision Code.
Proof. solve_decision. Defined.

Definition code_text (c : Code) : string :=
  match c with
  | OK => "ok" | KeyReused => "key_reused" | InvalidKey => "invalid_key" | OutOfOrder => "out_of_order"
  | InvalidOp => "invalid_op" | InvalidRules => "invalid_rules"
  | TournamentExists => "tournament_exists" | UnknownTournament => "unknown_tournament"
  | NotOpen => "not_open" | TournamentFull => "tournament_full" | AlreadyJoined => "already_joined"
  | JurisdictionExcluded => "jurisdiction_excluded" | Underage => "underage"
  | InvalidPlayer => "invalid_player" | NotJoined => "not_joined" | AlreadyScored => "already_scored"
  | SeedMismatch => "seed_mismatch" | ScoreOutOfRange => "score_out_of_range"
  | NotClosed => "not_closed" | InvalidExclusions => "invalid_exclusions"
  | LedgerConflict => "ledger_conflict"
  | InvalidDevice => "invalid_device" | DeviceMismatch => "device_mismatch"
  | PlayerExists => "player_exists" | UnknownPlayer => "unknown_player" | StaleSeq => "stale_seq"
  | SeqGap => "seq_gap" | NotPlayTournament => "not_play_tournament"
  | PlayIntentRequired => "play_intent_required" | InvalidRound => "invalid_round"
  | RoundAlreadyStarted => "round_already_started"
  | PreviousRoundUnfinished => "previous_round_unfinished" | RoundNotStarted => "round_not_started"
  | RoundFinished => "round_finished" | RoundExpired => "round_expired"
  | MoveIndexMismatch => "move_index_mismatch" | IllegalMove => "illegal_move"
  | NotSettled => "not_settled" | NoPayout => "no_payout" | AlreadyClaimed => "already_claimed"
  end.

Record PlayOutcome := mkPlayOutcome {
  po_player : PlayerID;
  po_new_player : bool;
  po_issued_at_ms : Z;
  po_next_seq : Z;
  po_round : Z;
  po_move_index : Z;
  po_join_seq : Z;
  po_amount : Money;
}.

Definition zero_outcome : PlayOutcome := mkPlayOutcome "" false 0 0 0 0 0 0.

#[export] Instance PlayOutcome_eq_dec : EqDecision PlayOutcome.
Proof. solve_decision. Defined.

Record Result := mkResult {
  res_code : Code;
  res_replayed : bool;
  res_detail : string;
  res_slot : Slot;
  res_seed : Z;
  res_play : PlayOutcome;
}.

#[export] Instance Result_eq_dec : EqDecision Result.
Proof. solve_decision. Defined.

Definition zero_result : Result := mkResult OK false "" 0 0 zero_outcome.

Definition Result_OK (r : Result) : bool := bool_decide (res_code r = OK).

(** Result literals of the source: [Result{Code, Detail, Slot}],
    [Result{Code: OK, Play: out}] and field updates. *)
Definition result_at (c : Code) (detail : string) (slot : Slot) : Result :=
  mkResult c false detail slot 0 zero_outcome.
Definition reject (c : Code) (detail : string) : Result := result_at c detail 0.
Definition playReject (c : Code) (detail : string) (out : PlayOutcome) : Result :=
  mkResult c false detail 0 0 out.
Definition play_ok (out : PlayOutcome) : Result := mkResult OK false "" 0 0 out.
Definition with_slot (r : Result) (slot : Slot) : Result :=
  mkResult (res_code r) (res_replayed r) (res_detail r) slot (res_seed r) (res_play r).
Definition with_replayed (r : Result) : Result :=
  mkResult (res_code r) true (res_detail r) (res_slot r) (res_seed r) (res_play r).
Definition with_res_seed (r : Result) (seed : Z) : Result :=
  mkResult (res_code r) (res_replayed r) (res_detail r) (res_slot r) seed (res_play r).
Definition with_play (r : Result) (out : PlayOutcome) : Result :=
  mkResult (res_code r) (res_replayed r) (res_detail r) (res_slot r) (res_seed r) out.

Definition with_round (o : PlayOutcome) (r : Z) : PlayOutcome :=
  mkPlayOutcome (po_player o) (po_new_player o) (po_issued_at_ms o) (po_next_seq o) r
    (po_move_index o) (po_join_seq o) (po_amount o).
Definition with_move_index (o : PlayOutcome) (i : Z) : PlayOutcome :=
  mkPlayOutcome (po_player o) (po_new_player o) (po_issued_at_ms o) (po_next_seq o) (po_round o)
    i (po_join_seq o) (po_amount o).
Definition with_join_seq (o : PlayOutcome) (j : Z) : PlayOutcome :=
  mkPlayOutcome (po_player o) (po_new_player o) (po_issued_at_ms o) (po_next_seq o) (po_round o)
    (po_move_index o) j (po_amount o).
Definition with_amount (o : PlayOutcome) (a : Money) : PlayOutcome :=
  mkPlayOutcome (po_player o) (po_new_player o) (po_issued_at_ms o) (po_next_seq o) (po_round o)
    (po_move_index o) (po_join_seq o) a.

(** * Tournament records *)

Record Entry := mkEntry {
  e_player : Player;
  e_join_seq : Z;
  e_exclusion_version : Z;
  e_scored : bool;
  e_score : Z;
  e_submit_seq : Z;
  e_input_digest : Digest;
}.

Definition zero_player : Player := mkPlayer "" "" 0.
Definition zero_entry : Entry := mkEntry zero_player 0 0 false 0 0 zero32.

Record Standing := mkStanding {
  s_place : Z;
  s_player : PlayerID;
  s_score : Z;
  s_scored : bool;
  s_submit_seq : Z;
}.

Record Payout := mkPayout {
  p_player : PlayerID;
  p_place : Z;
  p_amount : Money;
  p_withheld : bool;
  p_reason : string;
  p_exclusion_version : Z;
  p_key : PostingKey;
}.

(** [Standings] and [Payouts] are nil before Close and Settle: [None]. *)
Record Tournament := mkTournament {
  t_id : TournamentID;
  t_seed : Z;
  t_rules : Rules;
  t_status : Status;
  t_entries : list Entry;
  t_fees : Money;
  t_rake : Money;
  t_pool : Money;
  t_standings : option (list Standing);
  t_payouts : option (list Payout);
  t_created_at : Slot;
  t_closed_at : Slot;
  t_settled_at : Slot;
  t_ballot : Ballot;
}.

(** [Tournament.Entry]: the first entry of a player. *)
Definition find_entry (t : Tournament) (id : PlayerID) : option Entry :=
  List.find (fun e => String.eqb (pl_id (e_player e)) id) (t_entries t).

(** The index search of [score] and [roundFor]: the position of that entry,
    [None] for -1. *)
Fixpoint entry_index_from (i : nat) (es : list Entry) (id : PlayerID) : option nat :=
  match es with
  | [] => None
  | e :: es' => if String.eqb (pl_id (e_player e)) id then Some i else entry_index_from (S i) es' id
  end.
Definition entry_index (t : Tournament) (id : PlayerID) : option nat :=
  entry_index_from 0 (t_entries t) id.

Definition ScoredCount (t : Tournament) : Z :=
  len (List.filter e_scored (t_entries t)).

Definition Voids (t : Tournament) : bool := ScoredCount t <? r_min_entrants (t_rules t).

(** Field updates of a record in the store. *)
Definition set_entries (t : Tournament) (es : list Entry) : Tournament :=
  mkTournament (t_id t) (t_seed t) (t_rules t) (t_status t) es (t_fees t) (t_rake t) (t_pool t)
    (t_standings t) (t_payouts t) (t_created_at t) (t_closed_at t) (t_settled_at t) (t_ballot t).
Definition scored_entry (e : Entry) (score submit_seq : Z) (digest : Digest) : Entry :=
  mkEntry (e_player e) (e_join_seq e) (e_exclusion_version e) true score submit_seq digest.
Definition close_record (t : Tournament) (status : Status) (st : list Standing)
    (money : Money * Money * Money) (slot : Slot) : Tournament :=
  let '(fees, rake, pool) := money in
  mkTournament (t_id t) (t_seed t) (t_rules t) status (t_entries t) fees rake pool
    (Some st) (t_payouts t) (t_created_at t) slot (t_settled_at t) (t_ballot t).
Definition settle_record (t : Tournament) (ps : list Payout) (slot : Slot) (b : Ballot) : Tournament :=
  mkTournament (t_id t) (t_seed t) (t_rules t) Settled (t_entries t) (t_fees t) (t_rake t) (t_pool t)
    (t_standings t) (Some ps) (t_created_at t) (t_closed_at t) slot b.
Definition clear_ballot (t : Tournament) : Tournament :=
  mkTournament (t_id t) (t_seed t) (t_rules t) (t_status t) (t_entries t) (t_fees t) (t_rake t) (t_pool t)
    (t_standings t) (t_payouts t) (t_created_at t) (t_closed_at t) (t_settled_at t) zero_ballot.

(** * Records of the play commands *)

Record Binding := mkBinding {
  b_device : DeviceID;
  b_verifier : Digest;
  b_player : PlayerID;
  b_jurisdiction : string;
  b_age : Z;
  b_bound_at : Slot;
}.

Record PlayerRecord := mkPlayerRecord { pr_binding : Binding; pr_last_seq : Z }.

Definition RoundInPlay : string := "playing".
Definition RoundDone : string := "finished".

Record RoundRecord := mkRoundRecord {
  rr_tournament : TournamentID;
  rr_player : PlayerID;
  rr_round : Z;
  rr_seed : Seed;
  rr_moves : list Move;
  rr_status : string;
  rr_reason : string;
  rr_cleared : Z;
  rr_score : Z;
  rr_started_at : Slot;
  rr_started_at_ms : Z;
  rr_deadline_ms : Z;
  rr_finished_at : Slot;
  rr_updated_at : Slot;
}.

Definition add_move (r : RoundRecord) (m : Move) (slot : Slot) : RoundRecord :=
  mkRoundRecord (rr_tournament r) (rr_player r) (rr_round r) (rr_seed r) (rr_moves r ++ [m])
    (rr_status r) (rr_reason r) (rr_cleared r) (rr_score r) (rr_started_at r) (rr_started_at_ms r)
    (rr_deadline_ms r) (rr_finished_at r) slot.
Definition done_record (r : RoundRecord) (reason : string) (cleared score : Z) (slot : Slot) : RoundRecord :=
  mkRoundRecord (rr_tournament r) (rr_player r) (rr_round r) (rr_seed r) (rr_moves r)
    RoundDone reason cleared score (rr_started_at r) (rr_started_at_ms r)
    (rr_deadline_ms r) slot slot.

Definition EventTournamentStatus : string := "tournament_status".
Definition EventLeaderboardChanged : string := "leaderboard_changed".
Definition EventRoundStarted : string := "round_started".
Definition EventRoundFinished : string := "round_finished".
Definition EventEntryScored : string := "entry_scored".
Definition EventPayoutAvailable : string := "payout_available".
Definition EventPayoutClaimed : string := "payout_claimed".

Record EventRecord := mkEvent {
  ev_slot : Slot;
  ev_type : string;
  ev_tournament : TournamentID;
  ev_player : PlayerID;
  ev_round : Z;
  ev_status : string;
  ev_score : Z;
  ev_total_score : Z;
  ev_rounds_finished : Z;
  ev_amount : Money;
  ev_time_ms : Z;
}.

(** [EventRecord{Slot, Type, Tournament, Player}] with the other fields zero,
    and the stamp of [recordEvent]. *)
Definition event (slot : Slot) (type : string) (t : TournamentID) (p : PlayerID) : EventRecord :=
  mkEvent slot type t p 0 "" 0 0 0 0 0.
Definition stamp (ev : EventRecord) (ms : Z) : EventRecord :=
  mkEvent (ev_slot ev) (ev_type ev) (ev_tournament ev) (ev_player ev) (ev_round ev) (ev_status ev)
    (ev_score ev) (ev_total_score ev) (ev_rounds_finished ev) (ev_amount ev) ms.
