(* ===== verification/Codec.v ===== *)
(** The canonical encodings and the shape checks of package [tournament]
    (internal/tournament/codec.go): operation names, [Canonical], [Encode],
    [Fingerprint], the JSON of every record that enters the hash chain, and
    the validators.  The theorems: which idempotency keys are accepted, when
    two commands have the same fingerprint input, and what the accepted rules
    guarantee to the rest of the state machine. *)

From S2P Require Import Prelude GoStd Paxos Ledger Game Records.

(** * Operations on the wire *)

Definition OpName (op : option Op) : string :=
  match op with
  | Some (CreateTournament _ _ _) => "create_tournament"
  | Some (Join _ _) => "join"
  | Some (SubmitScore _ _ _ _ _) => "submit_score"
  | Some (Close _) => "close"
  | Some (Settle _ _) => "settle"
  | Some (OpenSession _ _ _ _ _) => "open_session"
  | Some (Enter _ _ _) => "enter"
  | Some (StartRound _ _ _ _ _) => "start_round"
  | Some (PlayMove _ _ _ _ _ _) => "play_move"
  | Some (FinishRound _ _ _ _) => "finish_round"
  | Some (ClaimPayout _ _ _) => "claim_payout"
  | None => ""
  end.

Definition TournamentOf (op : option Op) : TournamentID :=
  match op with
  | Some (CreateTournament id _ _) => id
  | Some (Join t _) => t
  | Some (SubmitScore t _ _ _ _) => t
  | Some (Close t) => t
  | Some (Settle t _) => t
  | Some (Enter t _ _) => t
  | Some (StartRound t _ _ _ _) => t
  | Some (PlayMove t _ _ _ _ _) => t
  | Some (FinishRound t _ _ _) => t
  | Some (ClaimPayout t _ _) => t
  | _ => ""
  end.

(** * Canonical form *)

(** The loop that keeps the first occurrence of each code. *)
Fixpoint dedup (seen : gset string) (l : list string) : list string :=
  match l with
  | [] => []
  | j :: l' => if bool_decide (j ∈ seen) then dedup seen l' else j :: dedup ({[j]} ∪ seen) l'
  end.

Definition canonicalExclusions (e : Exclusions) : Exclusions :=
  mkExclusions (ex_version e) (stable_sort String.ltb (dedup ∅ (ex_jurisdictions e))).

Definition set_exclusions (r : Rules) (e : Exclusions) : Rules :=
  mkRules (r_entry_fee r) (r_rake_bps r) (r_prize_bps r) (r_min_entrants r) (r_max_entrants r)
    (r_max_score r) (r_min_age r) (r_tie_break r) e (r_game r).

Definition Canonical_op (op : Op) : Op :=
  match op with
  | CreateTournament id seed r =>
      CreateTournament id seed (set_exclusions r (canonicalExclusions (r_exclusions r)))
  | Settle t e => Settle t (canonicalExclusions e)
  | _ => op
  end.
Definition Canonical (op : option Op) : option Op := Canonical_op <$> op.

(** * JSON of the commands *)

Definition exclusions_json (e : Exclusions) : json :=
  JObj [("version", JNum (ex_version e)); ("jurisdictions", JArr (map JStr (ex_jurisdictions e)))].

Definition player_json (p : Player) : json :=
  JObj [("id", JStr (pl_id p)); ("jurisdiction", JStr (pl_jurisdiction p)); ("age", JNum (pl_age p))].

Definition rules_json (r : Rules) : json :=
  JObj ([("entry_fee", JNum (r_entry_fee r)); ("rake_bps", JNum (r_rake_bps r));
         ("prize_bps", JArr (map JNum (r_prize_bps r))); ("min_entrants", JNum (r_min_entrants r));
         ("max_entrants", JNum (r_max_entrants r)); ("max_score", JNum (r_max_score r));
         ("min_age", JNum (r_min_age r)); ("tie_break", JStr (r_tie_break r));
         ("exclusions", exclusions_json (r_exclusions r))]
        ++ omitempty (String.eqb (r_game r) "") "game" (JStr (r_game r))).

Definition move_json (m : Move) : json :=
  JObj [("kind", JStr (mv_kind m)); ("column", JNum (mv_column m))].

Definition op_json (op : Op) : json :=
  match op with
  | CreateTournament id seed r => JObj [("id", JStr id); ("seed", JNum seed); ("rules", rules_json r)]
  | Join t p => JObj [("tournament", JStr t); ("player", player_json p)]
  | SubmitScore t p score seed digest =>
      JObj [("tournament", JStr t); ("player", JStr p); ("score", JNum score); ("deal_seed", JNum seed);
            ("input_digest", JHex digest)]
  | Close t => JObj [("tournament", JStr t)]
  | Settle t e => JObj [("tournament", JStr t); ("exclusions", exclusions_json e)]
  | OpenSession d v p j a =>
      JObj [("device", JStr d); ("verifier", JHex v); ("player", JStr p); ("jurisdiction", JStr j); ("age", JNum a)]
  | Enter t p n => JObj [("tournament", JStr t); ("player", JStr p); ("seq", JNum n)]
  | StartRound t p n r seed =>
      JObj [("tournament", JStr t); ("player", JStr p); ("seq", JNum n); ("round", JNum r); ("seed", JHex seed)]
  | PlayMove t p n r i mv =>
      JObj [("tournament", JStr t); ("player", JStr p); ("seq", JNum n); ("round", JNum r);
            ("move_index", JNum i); ("move", move_json mv)]
  | FinishRound t p n r =>
      JObj [("tournament", JStr t); ("player", JStr p); ("seq", JNum n); ("round", JNum r)]
  | ClaimPayout t p n => JObj [("tournament", JStr t); ("player", JStr p); ("seq", JNum n)]
  end.

(** [Encode]: the body is marshalled before it is embedded, which is the
    nested value. *)
Definition Encode (c : Command) : bytes + error :=
  match Canonical (cmd_op c) with
  | None => inr "tournament: cannot encode op of type <nil>"
  | Some op =>
      inl (marshal (JObj [("key", JStr (cmd_key c)); ("received_at", JNum (cmd_received_at c));
                          ("op", JStr (OpName (Some op))); ("body", op_json op)]))
  end.

(** The values a server draws, cleared. *)
Definition clear_drawn (op : Op) : Op :=
  match op with
  | CreateTournament id _ r => CreateTournament id 0 r
  | OpenSession d v _ j a => OpenSession d v "" j a
  | StartRound t p n r _ => StartRound t p n r zero32
  | _ => op
  end.

(** The bytes [Fingerprint] hashes. *)
Definition fingerprint_input (op : option Op) : bytes :=
  let op := clear_drawn <$> Canonical op in
  bytes_of (OpName op) ++ [0] ++ match op with Some o => marshal (op_json o) | None => [] end.

Definition Fingerprint (c : Command) : bytes := sha256 (fingerprint_input (cmd_op c)).

(** * JSON of the records *)

Definition outcome_json (o : PlayOutcome) : json :=
  JObj [("player", JStr (po_player o)); ("new_player", JBool (po_new_player o));
        ("issued_at_ms", JNum (po_issued_at_ms o)); ("next_seq", JNum (po_next_seq o));
        ("round", JNum (po_round o)); ("move_index", JNum (po_move_index o));
        ("join_seq", JNum (po_join_seq o)); ("amount", JNum (po_amount o))].

Definition result_json (r : Result) : json :=
  JObj ([("code", JStr (code_text (res_code r))); ("replayed", JBool (res_replayed r))]
        ++ omitempty (String.eqb (res_detail r) "") "detail" (JStr (res_detail r))
        ++ [("slot", JNum (res_slot r))]
        ++ omitempty (res_seed r =? 0) "seed" (JNum (res_seed r))
        ++ omitempty (bool_decide (res_play r = zero_outcome)) "play" (outcome_json (res_play r))).

Definition entry_json (e : Entry) : json :=
  JObj [("player", player_json (e_player e)); ("join_seq", JNum (e_join_seq e));
        ("exclusion_version", JNum (e_exclusion_version e)); ("scored", JBool (e_scored e));
        ("score", JNum (e_score e)); ("submit_seq", JNum (e_submit_seq e));
        ("input_digest", JHex (e_input_digest e))].

Definition standing_json (s : Standing) : json :=
  JObj [("place", JNum (s_place s)); ("player", JStr (s_player s)); ("score", JNum (s_score s));
        ("scored", JBool (s_scored s)); ("submit_seq", JNum (s_submit_seq s))].

Definition payout_json (p : Payout) : json :=
  JObj ([("player", JStr (p_player p)); ("place", JNum (p_place p)); ("amount", JNum (p_amount p));
         ("withheld", JBool (p_withheld p))]
        ++ omitempty (String.eqb (p_reason p) "") "reason" (JStr (p_reason p))
        ++ [("exclusion_version", JNum (p_exclusion_version p)); ("key", JStr (p_key p))]).

(** A slice: nil is null.  [Entries] is nil exactly while it is empty. *)
Definition slice_json {A} (f : A -> json) (l : option (list A)) : json :=
  match l with None => JNull | Some l => JArr (map f l) end.
Definition nil_when_empty {A} (l : list A) : option (list A) :=
  match l with [] => None | _ => Some l end.

Definition tournament_json (t : Tournament) : json :=
  JObj [("id", JStr (t_id t)); ("seed", JNum (t_seed t)); ("rules", rules_json (t_rules t));
        ("status", JStr (Status_String (t_status t)));
        ("entries", slice_json entry_json (nil_when_empty (t_entries t)));
        ("fees", JNum (t_fees t)); ("rake", JNum (t_rake t)); ("pool", JNum (t_pool t));
        ("standings", slice_json standing_json (t_standings t));
        ("payouts", slice_json payout_json (t_payouts t));
        ("created_at", JNum (t_created_at t)); ("closed_at", JNum (t_closed_at t));
        ("settled_at", JNum (t_settled_at t)); ("ballot", ballot_json (t_ballot t))].

Definition EncodeTournament (t : Tournament) : bytes := marshal (tournament_json (clear_ballot t)).

Definition clear_posting_ballot (p : Posting) : Posting :=
  mkPosting (post_seq p) (post_key p) (post_kind p) (post_debit p) (post_credit p) (post_amount p)
    (post_tournament p) (post_player p) (post_place p) (post_exclusion_version p)
    (post_slot p) zero_ballot.

(** [None] is the panic of [mustMarshal] on an unknown posting kind. *)
Definition EncodePostings (ps : list Posting) : option bytes :=
  lines ← mapM (fun p => j ← posting_json (clear_posting_ballot p); Some (marshal j ++ [10])) ps;
  Some (concat lines).

Definition binding_json (b : Binding) : json :=
  JObj [("device", JStr (b_device b)); ("verifier", JHex (b_verifier b)); ("player", JStr (b_player b));
        ("jurisdiction", JStr (b_jurisdiction b)); ("age", JNum (b_age b)); ("bound_at", JNum (b_bound_at b))].

Definition player_record_json (p : PlayerRecord) : json :=
  JObj [("binding", binding_json (pr_binding p)); ("last_seq", JNum (pr_last_seq p))].

Definition round_json (r : RoundRecord) : json :=
  JObj [("tournament", JStr (rr_tournament r)); ("player", JStr (rr_player r)); ("round", JNum (rr_round r));
        ("seed", JHex (rr_seed r)); ("moves", JArr (map move_json (rr_moves r)));
        ("status", JStr (rr_status r)); ("reason", JStr (rr_reason r)); ("cleared", JNum (rr_cleared r));
        ("score", JNum (rr_score r)); ("started_at", JNum (rr_started_at r));
        ("started_at_ms", JNum (rr_started_at_ms r)); ("deadline_ms", JNum (rr_deadline_ms r));
        ("finished_at", JNum (rr_finished_at r)); ("updated_at", JNum (rr_updated_at r))].

Definition event_json (e : EventRecord) : json :=
  JObj [("slot", JNum (ev_slot e)); ("type", JStr (ev_type e)); ("tournament", JStr (ev_tournament e));
        ("player", JStr (ev_player e)); ("round", JNum (ev_round e)); ("status", JStr (ev_status e));
        ("score", JNum (ev_score e)); ("total_score", JNum (ev_total_score e));
        ("rounds_finished", JNum (ev_rounds_finished e)); ("amount", JNum (ev_amount e));
        ("time_ms", JNum (ev_time_ms e))].

(** * Shape checks *)

Definition MaxKeyLen : Z := 128.
Definition MaxIDLen : Z := 64.
Definition MaxEntryFee : Z := 1000000000000.
Definition MaxEntrantsBound : Z := 1000000.
Definition MaxPrizePlaces : Z := 1000.
Definition MaxJurisdictions : Z := 1000.

(** The first byte of a key outside ['!'..'~'], with its position. *)
Fixpoint bad_key_byte (i : Z) (b : bytes) : option (Z * Z) :=
  match b with
  | [] => None
  | c :: b' => if (c <=? 32) || (126 <? c) then Some (i, c) else bad_key_byte (i + 1) b'
  end.

Definition ValidateKey (k : IdempotencyKey) : option error :=
  exit_if slen k =? 0 with Some "idempotency key is empty";
  exit_if MaxKeyLen <? slen k
    with Some ("idempotency key is " +:+ itoa (slen k) +:+ " bytes, limit " +:+ itoa MaxKeyLen);
  match bad_key_byte 0 (bytes_of k) with
  | Some (i, c) => Some ("idempotency key has a byte 0x" +:+ hex02 c +:+ " at position " +:+ itoa i
                         +:+ " that is not printable ASCII")
  | None => None
  end.

Definition id_byte (c : Z) : bool :=
  ((97 <=? c) && (c <=? 122)) || ((65 <=? c) && (c <=? 90)) || ((48 <=? c) && (c <=? 57))
  || (c =? 46) || (c =? 95) || (c =? 45).

Definition validID (s : string) : bool :=
  if (slen s <? 1) || (MaxIDLen <? slen s) then false else forallb id_byte (bytes_of s).

Definition idRule : string := "1 to 64 characters from A-Z, a-z, 0-9, '.', '_' and '-'".

Definition ValidateTournamentID (id : TournamentID) : option error :=
  if negb (validID id) then Some ("tournament id must be " +:+ idRule) else None.

Definition validJurisdiction (j : string) : bool :=
  if (slen j <? 2) || (8 <? slen j) then false
  else forallb (fun c => negb ((c <? 65) || (90 <? c))) (bytes_of j).

(** The scan of [ValidateRules] over the prize shares: the index of the first
    zero share, or their sum. *)
Fixpoint prize_sum (i sum : Z) (l : list Z) : Z + Z :=
  match l with
  | [] => inr sum
  | b :: l' => if b =? 0 then inl i else prize_sum (i + 1) (u64 (sum + b)) l'
  end.

Section Validate.
Context `{U : Unicode}.

Definition ValidateExclusions (e : Exclusions) : option error :=
  exit_if MaxJurisdictions <? len (ex_jurisdictions e)
    with Some ("exclusion list has " +:+ itoa (len (ex_jurisdictions e)) +:+ " jurisdictions, limit "
               +:+ itoa MaxJurisdictions);
  match List.find (fun j => negb (validJurisdiction j)) (ex_jurisdictions e) with
  | Some j => Some ("jurisdiction " +:+ quote j +:+ " is not 2 to 8 upper-case letters")
  | None => None
  end.

Definition ValidatePlayer (p : Player) : option error :=
  exit_if negb (validID (pl_id p)) with Some ("player id must be " +:+ idRule);
  exit_if negb (validJurisdiction (pl_jurisdiction p))
    with Some ("jurisdiction " +:+ quote (pl_jurisdiction p) +:+ " is not 2 to 8 upper-case letters");
  exit_if (pl_age p <? 0) || (150 <? pl_age p)
    with Some ("age " +:+ itoa (pl_age p) +:+ " is outside 0..150");
  None.

(** The [switch] on the game at the end of [ValidateRules]. *)
Definition validate_game (r : Rules) : option error :=
  if String.eqb (r_game r) "" then None
  else if String.eqb (r_game r) LadderV1 then
    if negb (r_max_score r =? MaxTotalScore)
    then Some ("max_score " +:+ itoa (r_max_score r) +:+ " must be " +:+ itoa MaxTotalScore
               +:+ " for game " +:+ quote (r_game r))
    else None
  else Some ("game " +:+ quote (r_game r) +:+ " is not " +:+ quote LadderV1).

Definition ValidateRules (r : Rules) : option error :=
  exit_if r_entry_fee r <=? 0 with Some "entry_fee must be positive";
  exit_if MaxEntryFee <? r_entry_fee r
    with Some ("entry_fee " +:+ itoa (r_entry_fee r) +:+ " exceeds the limit " +:+ itoa MaxEntryFee);
  exit_if 9999 <? r_rake_bps r with Some ("rake_bps " +:+ itoa (r_rake_bps r) +:+ " exceeds 9999");
  exit_if len (r_prize_bps r) =? 0 with Some "prize_bps must have at least one place";
  exit_if MaxPrizePlaces <? len (r_prize_bps r)
    with Some ("prize_bps has " +:+ itoa (len (r_prize_bps r)) +:+ " places, limit " +:+ itoa MaxPrizePlaces);
  match prize_sum 0 0 (r_prize_bps r) with
  | inl i => Some ("prize_bps[" +:+ itoa i +:+ "] is zero")
  | inr sum =>
      exit_if negb (sum =? 10000) with Some ("prize_bps sum to " +:+ itoa sum +:+ ", want 10000");
      exit_if r_min_entrants r <? len (r_prize_bps r)
        with Some ("min_entrants " +:+ itoa (r_min_entrants r) +:+ " is below the "
                   +:+ itoa (len (r_prize_bps r)) +:+ " prize places");
      exit_if r_max_entrants r <? r_min_entrants r
        with Some ("max_entrants " +:+ itoa (r_max_entrants r) +:+ " is below min_entrants "
                   +:+ itoa (r_min_entrants r));
      exit_if MaxEntrantsBound <? r_max_entrants r
        with Some ("max_entrants " +:+ itoa (r_max_entrants r) +:+ " exceeds the limit "
                   +:+ itoa MaxEntrantsBound);
      exit_if r_max_score r <? 0 with Some "max_score must not be negative";
      exit_if r_min_age r <? 0 with Some "min_age must not be negative";
      exit_if negb (String.eqb (r_tie_break r) EarliestSubmission) && negb (String.eqb (r_tie_break r) Split)
        with Some ("tie_break " +:+ quote (r_tie_break r) +:+ " is not " +:+ quote EarliestSubmission
                   +:+ " or " +:+ quote Split);
      match ValidateExclusions (r_exclusions r) with
      | Some err => Some err
      | None => validate_game r
      end
  end.
End Validate.

(** * Digests *)

(** [Digest.UnmarshalText]: unlike a seed, a digest may be upper case.  The
    text of [encoding/hex]'s own error, which the source appends, is left out. *)
Definition Digest_UnmarshalText (dst b : bytes) : Digest * option error :=
  exit_if negb (len b =? 64)
    with (dst, Some ("tournament: digest must be 64 hex characters, got " +:+ itoa (len b)));
  match hex_decode b with
  | None => (dst, Some "tournament: digest")
  | Some tmp => (tmp, None)
  end.

(** * What the validators guarantee *)

(** The types of the fields: unsigned 32-bit shares. *)
Definition rules_typed (r : Rules) : Prop := in_u32 (r_rake_bps r) /\ Forall in_u32 (r_prize_bps r).

Definition exclusions_ok (e : Exclusions) : Prop :=
  len (ex_jurisdictions e) <= MaxJurisdictions /\ Forall (fun j => validJurisdiction j = true) (ex_jurisdictions e).

Record rules_ok (r : Rules) : Prop := {
  ro_fee : 0 < r_entry_fee r <= MaxEntryFee;
  ro_rake : 0 <= r_rake_bps r <= 9999;
  ro_places : 1 <= len (r_prize_bps r) <= MaxPrizePlaces;
  ro_positive : Forall (fun b => 0 < b) (r_prize_bps r);
  ro_sum : zsum (r_prize_bps r) = 10000;
  ro_min : len (r_prize_bps r) <= r_min_entrants r;
  ro_max : r_min_entrants r <= r_max_entrants r <= MaxEntrantsBound;
  ro_score : 0 <= r_max_score r;
  ro_age : 0 <= r_min_age r;
  ro_tie : r_tie_break r = EarliestSubmission \/ r_tie_break r = Split;
  ro_exclusions : exclusions_ok (r_exclusions r);
  ro_game : r_game r = "" \/ (r_game r = LadderV1 /\ r_max_score r = MaxTotalScore);
}.

Lemma find_none_Forall {A} (f : A -> bool) l :
  List.find (fun x => negb (f x)) l = None <-> Forall (fun x => f x = true) l.
Proof.
  induction l as [|x l IH]; simpl; [done|]. rewrite Forall_cons. destruct (f x); simpl; [naive_solver|].
  split; [done|]. by intros [? _].
Qed.

(** The 64-bit sum of the scan is exact: 1000 shares below 2^32 stay below 2^42. *)
Lemma prize_sum_spec i sum l z :
  Forall in_u32 l -> 0 <= sum -> sum + len l * 2 ^ 32 < 2 ^ 64 ->
  prize_sum i sum l = inr z <-> Forall (fun b => 0 < b) l /\ z = sum + zsum l.
Proof.
  revert i sum. induction l as [|b l IH]; intros i sum Ht H0 Hb; simpl.
  { split; [intros [= <-]; split; [done|lia]|intros [_ ->]; f_equal; lia]. }
  apply Forall_cons in Ht as [Hu Ht]. unfold in_u32 in Hu. rewrite len_cons in Hb.
  pose proof (len_nonneg l). rewrite Forall_cons. destruct (Z.eqb_spec b 0) as [->|Hne].
  - split; [done|]. intros [[? _] _]. lia.
  - rewrite u64_id by (unfold in_u64; lia). rewrite IH by (done || lia). intuition lia.
Qed.

Section ValidateSpec.
Context `{U : Unicode}.

Lemma ValidateExclusions_None e : ValidateExclusions e = None <-> exclusions_ok e.
Proof.
  unfold ValidateExclusions, exclusions_ok. rewrite <- find_none_Forall.
  destruct (Z.ltb_spec MaxJurisdictions (len (ex_jurisdictions e))); [split; [done|lia]|].
  destruct (List.find _ _); split; intros Hq; (done || (split; [lia|done]) || by destruct Hq).
Qed.

Lemma ValidatePlayer_None p : ValidatePlayer p = None <->
  validID (pl_id p) = true /\ validJurisdiction (pl_jurisdiction p) = true /\ 0 <= pl_age p <= 150.
Proof.
  unfold ValidatePlayer. destruct (validID (pl_id p)), (validJurisdiction (pl_jurisdiction p)),
    (Z.ltb_spec (pl_age p) 0), (Z.ltb_spec 150 (pl_age p)); simpl; split; intros; (done || lia || naive_solver lia).
Qed.

Lemma validate_game_None r : validate_game r = None <->
  r_game r = "" \/ (r_game r = LadderV1 /\ r_max_score r = MaxTotalScore).
Proof.
  unfold validate_game. destruct (String.eqb_spec (r_game r) "") as [|Hn]; [naive_solver|].
  destruct (String.eqb_spec (r_game r) LadderV1); [|naive_solver].
  destruct (Z.eqb_spec (r_max_score r) MaxTotalScore); naive_solver.
Qed.

Lemma ValidateRules_None (r : Rules) : rules_typed r -> (ValidateRules r = None <-> rules_ok r).
Proof.
  intros [Hr Hp]. unfold in_u32 in Hr. unfold ValidateRules.
  destruct (Z.leb_spec (r_entry_fee r) 0); [split; [done|intros []; lia]|].
  destruct (Z.ltb_spec MaxEntryFee (r_entry_fee r)); [split; [done|intros []; lia]|].
  destruct (Z.ltb_spec 9999 (r_rake_bps r)); [split; [done|intros []; lia]|].
  destruct (Z.eqb_spec (len (r_prize_bps r)) 0); [split; [done|intros []; lia]|].
  destruct (Z.ltb_spec MaxPrizePlaces (len (r_prize_bps r))) as [|Hl]; [split; [done|intros []; lia]|].
  pose proof (len_nonneg (r_prize_bps r)).
  assert (Hs : forall z, prize_sum 0 0 (r_prize_bps r) = inr z <->
                 Forall (fun b => 0 < b) (r_prize_bps r) /\ z = 0 + zsum (r_prize_bps r)).
  { intros z. apply prize_sum_spec; [done|lia|]. unfold MaxPrizePlaces in Hl. lia. }
  destruct (prize_sum 0 0 (r_prize_bps r)) as [i|z] eqn:E.
  { split; [done|]. intros W. by discriminate (proj2 (Hs _) (conj (ro_positive r W) eq_refl)). }
  destruct (proj1 (Hs z) eq_refl) as [Hpos ->]. clear Hs E.
  destruct (Z.eqb_spec (0 + zsum (r_prize_bps r)) 10000); simpl; [|split; [done|intros []; lia]].
  destruct (Z.ltb_spec (r_min_entrants r) (len (r_prize_bps r))); [split; [done|intros []; lia]|].
  destruct (Z.ltb_spec (r_max_entrants r) (r_min_entrants r)); [split; [done|intros []; lia]|].
  destruct (Z.ltb_spec MaxEntrantsBound (r_max_entrants r)); [split; [done|intros []; lia]|].
  destruct (Z.ltb_spec (r_max_score r) 0); [split; [done|intros []; lia]|].
  destruct (Z.ltb_spec (r_min_age r) 0); [split; [done|intros []; lia]|].
  destruct (String.eqb_spec (r_tie_break r) EarliestSubmission) as [Ht|Ht];
    destruct (String.eqb_spec (r_tie_break r) Split) as [Ht'|Ht']; simpl;
    try (split; [done|intros []; naive_solver]).
  all: destruct (ValidateExclusions (r_exclusions r)) eqn:E;
    [split; [done|]; intros [? ? ? ? ? ? ? ? ? ? Hx ?]; apply ValidateExclusions_None in Hx; congruence|].
  all: apply ValidateExclusions_None in E; rewrite validate_game_None.
  all: split; [intros Hg; split; auto; lia|by intros []].
Qed.

(** [ValidateRules] accepts exactly the rules within every documented
    bound, whatever 32-bit shares a client sends: the sum of the prize shares
    is the exact sum, not a wrapped one. *)
Theorem validate_rules_exact (r : Rules) : rules_typed r -> (ValidateRules r = None <-> rules_ok r).
Proof. exact (ValidateRules_None r). Qed.
End ValidateSpec.

(** * Canonical form *)

Lemma dedup_elem seen l j : j ∈ dedup seen l <-> j ∈ l /\ j ∉ seen.
Proof.
  revert seen. induction l as [|x l IH]; intros seen; simpl; [set_solver|].
  case_bool_decide as Hx; rewrite ?elem_of_cons, IH, ?elem_of_cons; [set_solver|].
  destruct (decide (j = x)); set_solver.
Qed.

Lemma dedup_NoDup seen l : NoDup (dedup seen l).
Proof.
  revert seen. induction l as [|x l IH]; intros seen; simpl; [constructor|].
  case_bool_decide; [done|]. constructor; [|done]. rewrite dedup_elem. set_solver.
Qed.

Lemma dedup_length seen l : (length (dedup seen l) <= length l)%nat.
Proof. revert seen. induction l as [|x l IH]; intros seen; simpl; [done|]. case_bool_decide; simpl; [specialize (IH seen)|specialize (IH ({[x]} ∪ seen))]; lia. Qed.

Lemma ltb_asym a b : String.ltb a b = true -> String.ltb b a = false.
Proof. unfold String.ltb. rewrite (String.compare_antisym a b). by destruct (String.compare b a). Qed.

Lemma compare_refl s : String.compare s s = Eq.
Proof. pose proof (String.compare_antisym s s) as H. by destruct (String.compare s s). Qed.

Lemma compare_trans s1 s2 s3 :
  String.compare s1 s2 = Lt -> String.compare s2 s3 = Lt -> String.compare s1 s3 = Lt.
Proof.
  revert s2 s3. induction s1 as [|a s1 IH]; intros [|b s2] [|c s3]; simpl; try done.
  unfold Ascii.compare. destruct (N.compare_spec (Ascii.N_of_ascii a) (Ascii.N_of_ascii b)) as [Hab|Hab|Hab];
    destruct (N.compare_spec (Ascii.N_of_ascii b) (Ascii.N_of_ascii c)) as [Hbc|Hbc|Hbc]; try done;
    destruct (N.compare_spec (Ascii.N_of_ascii a) (Ascii.N_of_ascii c)); intros; try done; try lia; eauto.
Qed.

Lemma string_le_cases a b : sort_le String.ltb a b <-> a = b \/ String.ltb a b = true.
Proof.
  unfold sort_le, String.ltb. rewrite (String.compare_antisym b a).
  destruct (String.compare a b) eqn:E; simpl; split; intros H; try done; auto.
  - left. by apply String.compare_eq_iff.
  - destruct H as [->|H]; [|done]. by rewrite compare_refl in E.
Qed.

Lemma string_le_trans a b c : sort_le String.ltb a b -> sort_le String.ltb b c -> sort_le String.ltb a c.
Proof.
  rewrite !string_le_cases. intros [->|H1] [->|H2]; auto. right. unfold String.ltb in *.
  destruct (String.compare a b) eqn:E1; try done. destruct (String.compare b c) eqn:E2; try done.
  by rewrite (compare_trans _ _ _ E1 E2).
Qed.

Lemma string_le_antisym a b : sort_le String.ltb a b -> sort_le String.ltb b a -> a = b.
Proof.
  rewrite !string_le_cases. intros [->|H1] [H|H2]; auto. apply ltb_asym in H1. congruence.
Qed.

Lemma canonical_elem e j :
  j ∈ ex_jurisdictions (canonicalExclusions e) <-> j ∈ ex_jurisdictions e.
Proof. simpl. rewrite stable_sort_Permutation, dedup_elem. set_solver. Qed.

Lemma canonical_sorted e :
  StronglySorted (sort_le String.ltb) (ex_jurisdictions (canonicalExclusions e)) /\
  NoDup (ex_jurisdictions (canonicalExclusions e)).
Proof.
  simpl. split; [exact (stable_sort_sorted _ ltb_asym string_le_trans _)|].
  rewrite stable_sort_Permutation. apply dedup_NoDup.
Qed.

Lemma canonical_ok e : exclusions_ok e -> exclusions_ok (canonicalExclusions e).
Proof.
  intros [Hl Hf]. split.
  - simpl. rewrite (len_Permutation _ _ (stable_sort_Permutation _ _)).
    pose proof (dedup_length ∅ (ex_jurisdictions e)). unfold len in *. lia.
  - rewrite Forall_forall in *. intros j Hj. apply Hf. by rewrite <- canonical_elem.
Qed.

Lemma canonical_unique (e1 e2 : Exclusions) :
  canonicalExclusions e1 = canonicalExclusions e2 <->
  ex_version e1 = ex_version e2 /\ forall j, j ∈ ex_jurisdictions e1 <-> j ∈ ex_jurisdictions e2.
Proof.
  split.
  - intros H. split; [exact (f_equal ex_version H)|]. intros j. by rewrite <- (canonical_elem e1), <- (canonical_elem e2), H.
  - intros [Hv Hj]. destruct (canonical_sorted e1) as [S1 N1], (canonical_sorted e2) as [S2 N2].
    assert (Hl : ex_jurisdictions (canonicalExclusions e1) = ex_jurisdictions (canonicalExclusions e2)).
    { apply (sorted_unique String.ltb); [exact string_le_antisym|done|done|].
      apply NoDup_Permutation; [done|done|]. intros j. by rewrite !canonical_elem. }
    unfold canonicalExclusions in *. cbn [ex_jurisdictions] in Hl. by rewrite Hv, Hl.
Qed.

(** The canonical form of an exclusion list depends only on its version
    and its set of codes, and tells apart any two lists that differ in those. *)
Theorem canonical_exclusions_normal (e1 e2 : Exclusions) :
  canonicalExclusions e1 = canonicalExclusions e2 <->
  ex_version e1 = ex_version e2 /\ forall j, j ∈ ex_jurisdictions e1 <-> j ∈ ex_jurisdictions e2.
Proof. exact (canonical_unique e1 e2). Qed.

Lemma canonical_idempotent e : canonicalExclusions (canonicalExclusions e) = canonicalExclusions e.
Proof. apply canonical_unique. split; [done|]. apply canonical_elem. Qed.

Lemma Contains_canonical e j : Contains (canonicalExclusions e) j = Contains e j.
Proof. unfold Contains. apply bool_decide_ext, canonical_elem. Qed.

(** * Fingerprints *)

Definition same_exclusions (e1 e2 : Exclusions) : Prop :=
  ex_version e1 = ex_version e2 /\ forall j, j ∈ ex_jurisdictions e1 <-> j ∈ ex_jurisdictions e2.

(** The requests the state machine does not tell apart: equal up to the
    values a server draws and to the order and repetition of exclusion codes. *)
Inductive same_request : Op -> Op -> Prop :=
| same_refl op : same_request op op
| same_create id s1 s2 r e1 e2 : same_exclusions e1 e2 ->
    same_request (CreateTournament id s1 (set_exclusions r e1)) (CreateTournament id s2 (set_exclusions r e2))
| same_settle t e1 e2 : same_exclusions e1 e2 -> same_request (Settle t e1) (Settle t e2)
| same_session d v p1 p2 j a : same_request (OpenSession d v p1 j a) (OpenSession d v p2 j a)
| same_start t p n r s1 s2 : same_request (StartRound t p n r s1) (StartRound t p n r s2).

(** A retry is the same command: two commands for the same request, sent
    at different times through different leaders that drew different seeds,
    players or deals, have the same fingerprint. *)
Theorem fingerprint_same_request (c1 c2 : Command) (o1 o2 : Op) :
  cmd_op c1 = Some o1 -> cmd_op c2 = Some o2 -> same_request o1 o2 -> Fingerprint c1 = Fingerprint c2.
Proof.
  unfold Fingerprint, fingerprint_input. intros -> -> H. f_equal.
  destruct H as [op|id s1 s2 r e1 e2 He|t e1 e2 He| |]; try done; simpl;
    by rewrite (proj2 (canonical_unique e1 e2) He).
Qed.

(** * Witnesses *)

Definition sample_rules : Rules :=
  mkRules 500 250 [7000; 3000] 2 10 9000 18 Split (mkExclusions 4 ["WA"; "AZ"; "WA"]) "".

Lemma sample_rules_ok : rules_ok sample_rules.
Proof. by split; try (vm_compute; by intuition); repeat constructor; auto. Qed.

Lemma validate_rules_exact_witness : ValidateRules (U := ascii_unicode) sample_rules = None.
Proof.
  apply (validate_rules_exact (U := ascii_unicode) sample_rules); [|exact sample_rules_ok].
  split; [split; (discriminate || reflexivity)|]. repeat constructor; discriminate.
Defined.

Lemma fingerprint_same_request_witness :
  let cmd seed codes := mkCommand "k" 0 (Some (CreateTournament "t" seed (set_exclusions sample_rules (mkExclusions 4 codes)))) in
  Fingerprint (cmd 1 ["WA"; "AZ"]) = Fingerprint (cmd 2 ["AZ"; "WA"; "AZ"]).
Proof.
  intros cmd. eapply (fingerprint_same_request (cmd 1 ["WA"; "AZ"]) (cmd 2 ["AZ"; "WA"; "AZ"])); [reflexivity..|].
  apply same_create. split; [done|]. intros j. cbn [ex_jurisdictions]. rewrite !elem_of_cons. tauto.
Defined.
