(* ===== verification/Commands.v ===== *)
(** Reading commands (internal/tournament/codec.go, [Decode] and [DecodeOp]):
    the wire structs of the eleven operations, and the round trip with
    [Codec.Encode].  The theorems: a command is decoded from its encoding in
    canonical form, whatever decodes has a valid key and every field in the
    range of its Go type, and decoding never changes what a command asks for
    ([Fingerprint]). *)

From S2P Require Import Prelude GoStd Base64 Json Unmarshal Paxos Ledger Game Records Codec.

(** * Fields that are text *)

(** A 32-byte value as hexadecimal text. *)
Definition is_32 (b : bytes) : Prop := len b = 32 /\ Forall is_byte b.

Definition unmarshal_with (f : bytes -> bytes * option error) (b : bytes) : option bytes :=
  match f b with (v, None) => Some v | _ => None end.

Definition digest_codec : Codec Digest :=
  text_of zero32 (fun d => string_of (hex_encode d)) (unmarshal_with (Digest_UnmarshalText zero32)) is_32.
Definition seed_codec : Codec Seed :=
  text_of zero32 (fun s => string_of (hexText s)) (unmarshal_with (fun b => parseHex32 zero32 b "seed")) is_32.

(** * The structs, field by field *)

Definition exclusions_codec : Codec Exclusions :=
  struct (field "version" (uint 64) (field "jurisdictions" (slice text) no_fields))
    (fun '(v, (j, _)) => mkExclusions v j) (fun e => (ex_version e, (ex_jurisdictions e, tt))).

Definition player_codec : Codec Player :=
  struct (field "id" text (field "jurisdiction" text (field "age" (sint 64) no_fields)))
    (fun '(i, (j, (a, _))) => mkPlayer i j a) (fun p => (pl_id p, (pl_jurisdiction p, (pl_age p, tt)))).

Definition rules_codec : Codec Rules :=
  struct (field "entry_fee" (sint 64) (field "rake_bps" (uint 32) (field "prize_bps" (slice (uint 32))
      (field "min_entrants" (sint 64) (field "max_entrants" (sint 64) (field "max_score" (sint 64)
      (field "min_age" (sint 64) (field "tie_break" text (field "exclusions" exclusions_codec
      (field_omit "game" (fun g => String.eqb g "") text no_fields))))))))))
    (fun '(f, (k, (b, (m, (x, (s, (a, (t, (e, (g, _)))))))))) => mkRules f k b m x s a t e g)
    (fun r => (r_entry_fee r, (r_rake_bps r, (r_prize_bps r, (r_min_entrants r, (r_max_entrants r, (r_max_score r,
      (r_min_age r, (r_tie_break r, (r_exclusions r, (r_game r, tt))))))))))).

Definition move_codec : Codec Move :=
  struct (field "kind" text (field "column" (sint 64) no_fields))
    (fun '(k, (c, _)) => mkMove k c) (fun m => (mv_kind m, (mv_column m, tt))).

Definition create_codec : Codec (TournamentID * Z * Rules) :=
  struct (field "id" text (field "seed" (uint 64) (field "rules" rules_codec no_fields)))
    (fun '(i, (s, (r, _))) => (i, s, r)) (fun '(i, s, r) => (i, (s, (r, tt)))).

Definition join_codec : Codec (TournamentID * Player) :=
  struct (field "tournament" text (field "player" player_codec no_fields))
    (fun '(t, (p, _)) => (t, p)) (fun '(t, p) => (t, (p, tt))).

Definition score_codec : Codec (TournamentID * PlayerID * Z * Z * Digest) :=
  struct (field "tournament" text (field "player" text (field "score" (sint 64) (field "deal_seed" (uint 64)
      (field "input_digest" digest_codec no_fields)))))
    (fun '(t, (p, (s, (d, (i, _))))) => (t, p, s, d, i)) (fun '(t, p, s, d, i) => (t, (p, (s, (d, (i, tt)))))).

Definition close_codec : Codec TournamentID :=
  struct (field "tournament" text no_fields) (fun '(t, _) => t) (fun t => (t, tt)).

Definition settle_codec : Codec (TournamentID * Exclusions) :=
  struct (field "tournament" text (field "exclusions" exclusions_codec no_fields))
    (fun '(t, (e, _)) => (t, e)) (fun '(t, e) => (t, (e, tt))).

Definition open_session_codec : Codec (DeviceID * Digest * PlayerID * string * Z) :=
  struct (field "device" text (field "verifier" digest_codec (field "player" text (field "jurisdiction" text
      (field "age" (sint 64) no_fields)))))
    (fun '(d, (v, (p, (j, (a, _))))) => (d, v, p, j, a)) (fun '(d, v, p, j, a) => (d, (v, (p, (j, (a, tt)))))).

Definition enter_codec : Codec (TournamentID * PlayerID * Z) :=
  struct (field "tournament" text (field "player" text (field "seq" (uint 64) no_fields)))
    (fun '(t, (p, (n, _))) => (t, p, n)) (fun '(t, p, n) => (t, (p, (n, tt)))).

Definition start_round_codec : Codec (TournamentID * PlayerID * Z * Z * Seed) :=
  struct (field "tournament" text (field "player" text (field "seq" (uint 64) (field "round" (sint 64)
      (field "seed" seed_codec no_fields)))))
    (fun '(t, (p, (n, (r, (s, _))))) => (t, p, n, r, s)) (fun '(t, p, n, r, s) => (t, (p, (n, (r, (s, tt)))))).

Definition play_move_codec : Codec (TournamentID * PlayerID * Z * Z * Z * Move) :=
  struct (field "tournament" text (field "player" text (field "seq" (uint 64) (field "round" (sint 64)
      (field "move_index" (sint 64) (field "move" move_codec no_fields))))))
    (fun '(t, (p, (n, (r, (i, (m, _)))))) => (t, p, n, r, i, m)) (fun '(t, p, n, r, i, m) => (t, (p, (n, (r, (i, (m, tt))))))).

Definition finish_round_codec : Codec (TournamentID * PlayerID * Z * Z) :=
  struct (field "tournament" text (field "player" text (field "seq" (uint 64) (field "round" (sint 64) no_fields))))
    (fun '(t, (p, (n, (r, _)))) => (t, p, n, r)) (fun '(t, p, n, r) => (t, (p, (n, (r, tt))))).

Definition claim_payout_codec : Codec (TournamentID * PlayerID * Z) :=
  struct (field "tournament" text (field "player" text (field "seq" (uint 64) no_fields)))
    (fun '(t, (p, (n, _))) => (t, p, n)) (fun '(t, p, n) => (t, (p, (n, tt)))).

(** * Decoding *)

Definition command_keys : list string := ["key"; "received_at"; "op"; "body"].

(** [wireCommand]; the body is the value its raw text holds, as in LogWire.v. *)
Record wireCommand := mkWireCommand { wc_key : IdempotencyKey; wc_received_at : Z; wc_op : string; wc_body : option jval }.

Definition read_command (b : bytes) : option wireCommand :=
  v ← DecodeStrict b;
  ms ← fields command_keys [v];
  key ← of_json text (at_key "key" ms);
  at_ ← of_json (sint 64) (at_key "received_at" ms);
  op ← of_json text (at_key "op" ms);
  Some (mkWireCommand key at_ op (last (at_key "body" ms))).

(** The [switch] of [Decode]. *)
Definition read_op (op : string) (body : jval) : option (option Op) :=
  if String.eqb op "create_tournament" then Some ((fun '(i, s, r) => CreateTournament i s r) <$> of_json create_codec [body])
  else if String.eqb op "join" then Some ((fun '(t, p) => Join t p) <$> of_json join_codec [body])
  else if String.eqb op "submit_score" then
    Some ((fun '(t, p, s, d, i) => SubmitScore t p s d i) <$> of_json score_codec [body])
  else if String.eqb op "close" then Some (Close <$> of_json close_codec [body])
  else if String.eqb op "settle" then Some ((fun '(t, e) => Settle t e) <$> of_json settle_codec [body])
  else if String.eqb op "open_session" then
    Some ((fun '(d, v, p, j, a) => OpenSession d v p j a) <$> of_json open_session_codec [body])
  else if String.eqb op "enter" then Some ((fun '(t, p, n) => Enter t p n) <$> of_json enter_codec [body])
  else if String.eqb op "start_round" then
    Some ((fun '(t, p, n, r, s) => StartRound t p n r s) <$> of_json start_round_codec [body])
  else if String.eqb op "play_move" then
    Some ((fun '(t, p, n, r, i, m) => PlayMove t p n r i m) <$> of_json play_move_codec [body])
  else if String.eqb op "finish_round" then
    Some ((fun '(t, p, n, r) => FinishRound t p n r) <$> of_json finish_round_codec [body])
  else if String.eqb op "claim_payout" then
    Some ((fun '(t, p, n) => ClaimPayout t p n) <$> of_json claim_payout_codec [body])
  else None.

(** The text of [encoding/json]'s own error, which the source appends, is left
    out. *)
Definition Decode `{Unicode} (b : bytes) : Command + error :=
  match read_command b with
  | None => inr "tournament: decode command"
  | Some w =>
      match ValidateKey (wc_key w) with
      | Some err => inr ("tournament: decode command: " +:+ err)
      | None =>
          match wc_body w with
          | None => inr "tournament: decode command: missing body"
          | Some body =>
              match read_op (wc_op w) body with
              | None => inr ("tournament: decode command: unknown op " +:+ quote (wc_op w))
              | Some None => inr ("tournament: decode " +:+ wc_op w +:+ " body")
              | Some (Some op) => inl (mkCommand (wc_key w) (wc_received_at w) (Some op))
              end
          end
      end
  end.

(** The nesting of a value. *)
Fixpoint vdepth (v : jval) : Z :=
  match v with
  | VArr l => 1 + foldr Z.max 0 (map vdepth l)
  | VObj l => 1 + foldr Z.max 0 (map (fun p => vdepth p.2) l)
  | _ => 0
  end.

(** [DecodeOp]: [mustMarshal] embeds the body, one level deeper, after
    checking that it is one JSON value, and panics ([None]) when it is not;
    [Decode] then reads back the key [k], no receipt time, the name as JSON
    writes it, and the body.  A nil body is written as null. *)
Definition DecodeOp `{Unicode} (name : string) (body : option bytes) : option (Op + error) :=
  v ← match body with None => Some VNull | Some b => DecodeStrict b end;
  exit_if maxNestingDepth <? 1 + vdepth v with Some (inr "tournament: decode command");
  let op := to_valid name in
  Some (match read_op op v with
        | None => inr ("tournament: decode command: unknown op " +:+ quote op)
        | Some None => inr ("tournament: decode " +:+ op +:+ " body")
        | Some (Some o) => inl o
        end).

(** * Fields in range *)

Definition op_fits (op : Op) : Prop :=
  match op with
  | CreateTournament i s r => fits create_codec (i, s, r)
  | Join t p => fits join_codec (t, p)
  | SubmitScore t p s d i => fits score_codec (t, p, s, d, i)
  | Close t => fits close_codec t
  | Settle t e => fits settle_codec (t, e)
  | OpenSession d v p j a => fits open_session_codec (d, v, p, j, a)
  | Enter t p n => fits enter_codec (t, p, n)
  | StartRound t p n r s => fits start_round_codec (t, p, n, r, s)
  | PlayMove t p n r i m => fits play_move_codec (t, p, n, r, i, m)
  | FinishRound t p n r => fits finish_round_codec (t, p, n, r)
  | ClaimPayout t p n => fits claim_payout_codec (t, p, n)
  end.

(** What a command must be to be read: a valid key, the receipt time of its
    type, and an operation whose fields are of their types. *)
Record command_fits (c : Command) (op : Op) : Prop := {
  cf_key : ValidateKey (cmd_key c) = None;
  cf_time : in_i64 (cmd_received_at c);
  cf_op : cmd_op c = Some op;
  cf_fields : op_fits op;
}.

(** * Laws *)

Lemma hex_decode_bytes t b : hex_decode t = Some b -> Forall is_byte b /\ len t = 2 * len b.
Proof.
  revert b. induction t as [|c|h l t IH] using pairs_ind; intros b Hd; [by simplify_eq/=|done|].
  cbn [hex_decode] in Hd. destruct (from_hex_char h) as [x|] eqn:Hx; [|done].
  destruct (from_hex_char l) as [y|] eqn:Hy; [|done]. cbn in Hd.
  destruct (hex_decode t) as [r|] eqn:Hr; [|done]. injection Hd as <-.
  apply from_hex_char_range in Hx, Hy. destruct (IH r eq_refl) as [H1 H2]. rewrite !len_cons.
  split; [constructor; [unfold is_byte; lia|done]|lia].
Qed.

Lemma hex_ascii b : Forall is_byte b -> forallb (fun c => c <? 128) (hex_encode b) = true /\ Forall is_byte (hex_encode b).
Proof.
  intros H. destruct (hex_round_trip b H) as (_ & L & _). rewrite forallb_forall in L.
  assert (F : forall c, c ∈ hex_encode b -> 0 <= c < 128).
  { intros c Hc. apply list_elem_of_In, L in Hc. unfold is_lower_hex in Hc. lia. }
  split; [apply forallb_forall; intros c Hc; apply list_elem_of_In, F in Hc; lia|].
  apply Forall_forall. intros c Hc. apply F in Hc. unfold is_byte. lia.
Qed.

Lemma hex_text_valid b : Forall is_byte b ->
  valid_utf8 (string_of (hex_encode b)) = true /\ bytes_of (string_of (hex_encode b)) = hex_encode b.
Proof.
  intros H. destruct (hex_ascii b H) as [Ha Hb]. rewrite <- (bytes_of_string_of _ Hb) in Ha.
  split; [by apply ascii_valid|by apply bytes_of_string_of].
Qed.

Lemma zero32_is : is_32 zero32.
Proof. split; [done|]. apply Forall_forall. intros c Hc%list_elem_of_In%repeat_spec. by subst. Qed.

#[export] Instance digest_lawful : Lawful digest_codec.
Proof.
  apply text_of_lawful.
  - exact zero32_is.
  - intros d [Hl Hd]. destruct (hex_text_valid d Hd) as [Hv He]. split; [done|]. rewrite He.
    destruct (hex_round_trip d Hd) as (E & _ & L). unfold unmarshal_with, Digest_UnmarshalText.
    rewrite L, Hl. change (negb (2 * 32 =? 64)) with false. cbv iota. by rewrite E.
  - intros b d. unfold unmarshal_with, Digest_UnmarshalText. destruct (Z.eqb_spec (len b) 64); [|done]. cbn [negb].
    destruct (hex_decode b) as [r|] eqn:E; [|done]. intros [= <-]. apply hex_decode_bytes in E as [E L]. split; [lia|done].
Qed.

#[export] Instance seed_lawful : Lawful seed_codec.
Proof.
  apply text_of_lawful.
  - exact zero32_is.
  - intros d [Hl Hd]. destruct (hex_text_valid d Hd) as [Hv He]. split; [done|]. unfold hexText. rewrite He.
    destruct (hex_round_trip d Hd) as (E & H & L). unfold unmarshal_with, parseHex32.
    rewrite L, Hl. change (negb (2 * 32 =? 64)) with false. cbv iota. by rewrite H, E.
  - intros b d. unfold unmarshal_with, parseHex32. destruct (Z.eqb_spec (len b) 64); [|done]. cbn [negb].
    destruct (negb (forallb is_lower_hex b)); [done|].
    destruct (hex_decode b) as [r|] eqn:E; [|done]. intros [= <-]. apply hex_decode_bytes in E as [E L]. split; [lia|done].
Qed.

#[export] Instance game_omits : Omits (fun g => String.eqb g "") text.
Proof. by intros g ->%String.eqb_eq. Qed.

#[export] Instance exclusions_lawful : Lawful exclusions_codec.
Proof. unfold exclusions_codec. apply _. Qed.
#[export] Instance player_lawful : Lawful player_codec.
Proof. unfold player_codec. apply _. Qed.
#[export] Instance rules_lawful : Lawful rules_codec.
Proof. unfold rules_codec. apply _. Qed.
#[export] Instance move_lawful : Lawful move_codec.
Proof. unfold move_codec. apply _. Qed.
#[export] Instance create_lawful : Lawful create_codec.
Proof. unfold create_codec. apply _. Qed.
#[export] Instance join_lawful : Lawful join_codec.
Proof. unfold join_codec. apply _. Qed.
#[export] Instance score_lawful : Lawful score_codec.
Proof. unfold score_codec. apply _. Qed.
#[export] Instance close_lawful : Lawful close_codec.
Proof. unfold close_codec. apply _. Qed.
#[export] Instance settle_lawful : Lawful settle_codec.
Proof. unfold settle_codec. apply _. Qed.
#[export] Instance open_session_lawful : Lawful open_session_codec.
Proof. unfold open_session_codec. apply _. Qed.
#[export] Instance enter_lawful : Lawful enter_codec.
Proof. unfold enter_codec. apply _. Qed.
#[export] Instance start_round_lawful : Lawful start_round_codec.
Proof. unfold start_round_codec. apply _. Qed.
#[export] Instance play_move_lawful : Lawful play_move_codec.
Proof. unfold play_move_codec. apply _. Qed.
#[export] Instance finish_round_lawful : Lawful finish_round_codec.
Proof. unfold finish_round_codec. apply _. Qed.
#[export] Instance claim_payout_lawful : Lawful claim_payout_codec.
Proof. unfold claim_payout_codec. apply _. Qed.

(** [op_json] of Codec.v writes what the structs declare. *)
Lemma rules_json_codec r : rules_json r = to_json rules_codec r.
Proof. unfold rules_json, omitempty. cbn. by destruct (String.eqb (r_game r) ""). Qed.

Ltac op_codec op :=
  match op with
  | CreateTournament ?i ?s ?r => constr:(to_json create_codec (i, s, r))
  | Join ?t ?p => constr:(to_json join_codec (t, p))
  | SubmitScore ?t ?p ?s ?d ?i => constr:(to_json score_codec (t, p, s, d, i))
  | Close ?t => constr:(to_json close_codec t)
  | Settle ?t ?e => constr:(to_json settle_codec (t, e))
  | OpenSession ?d ?v ?p ?j ?a => constr:(to_json open_session_codec (d, v, p, j, a))
  | Enter ?t ?p ?n => constr:(to_json enter_codec (t, p, n))
  | StartRound ?t ?p ?n ?r ?s => constr:(to_json start_round_codec (t, p, n, r, s))
  | PlayMove ?t ?p ?n ?r ?i ?m => constr:(to_json play_move_codec (t, p, n, r, i, m))
  | FinishRound ?t ?p ?n ?r => constr:(to_json finish_round_codec (t, p, n, r))
  | ClaimPayout ?t ?p ?n => constr:(to_json claim_payout_codec (t, p, n))
  end.

Lemma read_op_back op : op_fits op -> read_op (OpName (Some op)) (val_of (op_json op)) = Some (Some op).
Proof.
  destruct op; cbn [op_fits OpName]; intros F; unfold read_op; cbn [String.eqb Ascii.eqb Bool.eqb];
    match goal with |- context [op_json ?op] => let j := op_codec op in
      replace (op_json op) with j by (cbn [op_json]; rewrite ?rules_json_codec; reflexivity) end;
    match goal with |- context [of_json ?c [val_of (to_json ?c ?a)]] => by rewrite (read_back (c := c) a F) end.
Qed.

Lemma read_op_fits name body op : jval_ok body = true -> read_op name body = Some (Some op) -> op_fits op /\ name = OpName (Some op).
Proof.
  intros Hb. unfold read_op.
  assert (B : forallb jval_ok [body] = true) by (cbn; by rewrite Hb).
  repeat match goal with |- context [String.eqb name ?n] => destruct (String.eqb_spec name n) as [->|_] end; [..|done];
    match goal with |- Some (_ <$> of_json ?c _) = _ -> _ =>
      destruct (of_json c [body]) as [x|] eqn:E; [|done]; apply (read_fits (c := c) _ _ B) in E end;
    repeat match goal with x : _ * _ |- _ => destruct x end; intros [= <-]; (split; [exact E|done]).
Qed.

Lemma op_depth op : jdepth (op_json op) <= 10.
Proof.
  destruct op; match goal with |- context [op_json ?op] => let j := op_codec op in
      replace (op_json op) with j by (cbn [op_json]; rewrite ?rules_json_codec; reflexivity) end;
    match goal with |- jdepth (to_json ?c ?a) <= _ =>
      etrans; [refine (depth (c := c) (d := _) a); unfold c; apply _|done] end.
Qed.

Lemma canonical_fits op : op_fits op -> op_fits (Canonical_op op).
Proof.
  assert (E : forall e, fits exclusions_codec e -> fits exclusions_codec (canonicalExclusions e)).
  { intros e (Hv & Hj & _). split; [exact Hv|]. split; [|done]. cbn in *. rewrite Forall_forall in *.
    intros j Hj'. apply Hj. by apply canonical_elem in Hj'. }
  destruct op; cbn [op_fits Canonical_op]; try done.
  - cbn. intuition. by apply E.
  - cbn. intuition. by apply E.
Qed.

Lemma read_command_back key time op : valid_utf8 key = true -> in_i64 time ->
  read_command (marshal (JObj [("key", JStr key); ("received_at", JNum time); ("op", JStr (OpName (Some op))); ("body", op_json op)]))
    = Some (mkWireCommand key time (OpName (Some op)) (Some (val_of (op_json op)))).
Proof.
  intros Hk Ht. unfold read_command, marshal. rewrite DecodeStrict_marshal.
  2: { cbn [jdepth map snd foldr]. pose proof (op_depth op). unfold maxNestingDepth. lia. }
  cbn [mbind option_bind]. rewrite fields_read by (done || set_solver). cbn [mbind option_bind].
  unfold vals. cbn [map fst snd].
  repeat rewrite at_key_cons. cbn [String.eqb Ascii.eqb Bool.eqb]. change (at_key _ []) with (@nil jval).
  rewrite !(read_back (c := text)) by (exact Hk || by destruct op). cbn [mbind option_bind].
  by rewrite (read_back (c := sint 64)) by exact Ht.
Qed.

(** A key that is accepted is printable ASCII. *)
Lemma valid_key_utf8 k : ValidateKey k = None -> valid_utf8 k = true.
Proof.
  unfold ValidateKey. destruct (slen k =? 0); [done|]. destruct (MaxKeyLen <? slen k); [done|].
  intros H. apply ascii_valid. revert H. generalize 0. generalize (bytes_of k). intros b.
  induction b as [|c b IH]; intros i; [done|].
  cbn. destruct ((c <=? 32) || (126 <? c)) eqn:E; [done|]. intros H. b2p. apply IH in H. rewrite H. lia.
Qed.

Lemma command_back `{Unicode} c op : command_fits c op ->
  exists b, Encode c = inl b /\ Decode b = inl (mkCommand (cmd_key c) (cmd_received_at c) (Some (Canonical_op op))).
Proof.
  intros [Hk Ht Ho Hf]. unfold Encode. rewrite Ho. cbn [Canonical fmap option_fmap option_map]. eexists. split; [done|].
  unfold Decode. rewrite read_command_back by (done || by apply valid_key_utf8). cbn [wc_key wc_body wc_op wc_received_at].
  rewrite Hk, read_op_back; [done|by apply canonical_fits].
Qed.

Lemma command_in_range `{Unicode} b c : Decode b = inl c -> exists op, command_fits c op.
Proof.
  unfold Decode, read_command. destruct (DecodeStrict b) as [v|] eqn:E; [|done]. cbn [mbind option_bind].
  apply DecodeStrict_ok in E. destruct (fields _ _) as [ms|] eqn:Em; [|done]. cbn [mbind option_bind].
  assert (Hm : forallb (fun p => jval_ok p.2) ms = true) by (eapply fields_ok; [|exact Em]; cbn; by rewrite E).
  destruct (of_json text (at_key "key" ms)) as [key|] eqn:E1; [|done]. cbn [mbind option_bind].
  destruct (of_json (sint 64) _) as [time|] eqn:E2; [|done]. cbn [mbind option_bind].
  apply read_fits in E2; [|by apply at_key_ok].
  destruct (of_json text (at_key "op" ms)) as [name|] eqn:E3; [|done]. cbn [mbind option_bind wc_key wc_body wc_op wc_received_at].
  destruct (ValidateKey key) eqn:Ek; [done|]. destruct (last (at_key "body" ms)) as [body|] eqn:El; [|done].
  destruct (read_op name body) as [[op|]|] eqn:Eo; [|done..]. intros [= <-].
  apply last_Some_elem_of in El. pose proof (at_key_ok "body" ms Hm) as Hb. rewrite forallb_forall in Hb.
  apply read_op_fits in Eo as [Eo _]; [|by apply Hb, list_elem_of_In]. by exists op.
Qed.

Lemma canonical_op_idempotent op : Canonical_op (Canonical_op op) = Canonical_op op.
Proof.
  destruct op; try done; cbn; [|by rewrite canonical_idempotent].
  unfold set_exclusions. cbn. by rewrite canonical_idempotent.
Qed.

(** A command goes through the log unchanged: one that fits its Go types
    and has a valid key is encoded and decoded to its canonical form, which has
    the same fingerprint and encodes to the same bytes; and whatever bytes
    decode give a command that fits, with a valid key. *)
Theorem commands_survive_log `{Unicode} (c : Command) (op : Op) :
  (command_fits c op -> exists b c', Encode c = inl b /\ Decode b = inl c' /\ cmd_op c' = Some (Canonical_op op) /\
    cmd_key c' = cmd_key c /\ cmd_received_at c' = cmd_received_at c /\ Fingerprint c' = Fingerprint c /\ Encode c' = inl b) /\
  (forall b, Decode b = inl c -> exists op', command_fits c op').
Proof.
  split; [|intros b; apply command_in_range].
  intros F. destruct (command_back c op F) as (b & E & D). destruct F as [Hk Ht Ho Hf].
  eexists b, _. split; [done|]. split; [exact D|]. cbn [cmd_op cmd_key cmd_received_at]. split_and!; [done..| |].
  - unfold Fingerprint, fingerprint_input. cbn [cmd_op]. rewrite Ho. cbn [Canonical fmap option_fmap option_map].
    by rewrite canonical_op_idempotent.
  - rewrite <- E. unfold Encode. cbn [cmd_op cmd_key cmd_received_at]. rewrite Ho.
    cbn [Canonical fmap option_fmap option_map]. by rewrite canonical_op_idempotent.
Qed.

Lemma commands_survive_log_witness : let _ := ascii_unicode in
  let c := mkCommand "k1" 1700000000 (Some (Settle "cup" (mkExclusions 3 ["US"; "TR"; "US"]))) in
  exists b c', Encode c = inl b /\ Decode b = inl c' /\ cmd_op c' = Some (Settle "cup" (mkExclusions 3 ["TR"; "US"])).
Proof.
  intros U c. destruct (proj1 (commands_survive_log (H := U) c (Settle "cup" (mkExclusions 3 ["US"; "TR"; "US"])))) as (b & c' & E & D & O & _).
  - split; [reflexivity|unfold in_i64; cbn; lia|reflexivity|].
    cbn. repeat split; try reflexivity; try lia. repeat (constructor; [reflexivity|]). constructor.
  - exists b, c'. split; [exact E|]. split; [exact D|]. rewrite O. by vm_compute.
Defined.

(** The body [DecodeOp] embeds must be JSON: it panics where [Decode] reports
    an error. *)
Lemma DecodeOp_panics `{Unicode} name body : DecodeOp name body = None <-> exists b, body = Some b /\ DecodeStrict b = None.
Proof.
  unfold DecodeOp. destruct body as [b|]; [|by split; [|intros (b & [= ] & _)]].
  destruct (DecodeStrict b) as [v|] eqn:E; cbn [mbind option_bind].
  - split; [intros N; by case_hyp N|intros (b' & [= <-] & E')]. congruence.
  - split; [|done]. intros _. by exists b.
Qed.

(** What [Encode] returns is bytes. *)
Lemma Encode_bytes c b : Encode c = inl b -> Forall is_byte b.
Proof.
  unfold Encode. destruct (Canonical (cmd_op c)); [|done]. intros [= <-]. apply json_print_bytes.
Qed.
