(* ===== verification/Compute.v ===== *)
(** The pure computations of package [tournament]
    (internal/tournament/compute.go): the basis-point product, the ranking,
    the prize pool and the payouts, in wrapped 64-bit arithmetic.  The
    theorems: [bps] is the exact floor within the module's money bounds and
    never overflows, the ranking is a sorted permutation of the entries, and
    the payouts are non-negative and sum to the pool, or to the fees. *)

From S2P Require Import Prelude GoStd Paxos Ledger Game Records Codec.

(** [x/10000] and [x%10000] truncate towards zero. *)
Definition bps (x : Money) (b : Z) : Money :=
  let q := Z.quot x 10000 in
  let r := Z.rem x 10000 in
  i64 (i64 (q * b) + Z.quot (i64 (r * b)) 10000).

(** * Standings *)

Definition scored_less (a b : Entry) : bool :=
  if negb (e_score a =? e_score b) then e_score b <? e_score a
  else e_submit_seq a <? e_submit_seq b.

Definition unscored_less (a b : Entry) : bool := e_join_seq a <? e_join_seq b.

(** The loop over the scored entries from position [i], after an entry with
    the given score that stands in the given place. *)
Fixpoint place_scored (split : bool) (i : Z) (prev : option (Z * Z)) (es : list Entry) : list Standing :=
  match es with
  | [] => []
  | e :: es' =>
      let place :=
        match prev with
        | Some (score, p) => if split && (e_score e =? score) then p else i + 1
        | None => i + 1
        end in
      mkStanding place (pl_id (e_player e)) (e_score e) true (e_submit_seq e)
      :: place_scored split (i + 1) (Some (e_score e, place)) es'
  end.

Fixpoint place_unscored (i : Z) (es : list Entry) : list Standing :=
  match es with
  | [] => []
  | e :: es' => mkStanding (i + 1) (pl_id (e_player e)) 0 false 0 :: place_unscored (i + 1) es'
  end.

Definition ComputeStandings (t : Tournament) : list Standing :=
  let scored := stable_sort scored_less (List.filter e_scored (t_entries t)) in
  let unscored := stable_sort unscored_less (List.filter (fun e => negb (e_scored e)) (t_entries t)) in
  let out := place_scored (String.eqb (r_tie_break (t_rules t)) Split) 0 None scored in
  out ++ place_unscored (len out) unscored.

(** * The pool *)

Definition ComputePool (t : Tournament) : Money * Money * Money :=
  let fees := i64 (r_entry_fee (t_rules t) * len (t_entries t)) in
  if Voids t then (fees, 0, fees)
  else let rake := bps fees (r_rake_bps (t_rules t)) in (fees, rake, i64 (fees - rake)).

(** * Payouts *)

Definition sum64 (l : list Money) : Money := foldl (fun s x => i64 (s + x)) 0 l.

(** The shares of the [n] prize places, the remainder on the first. *)
Definition shares (pool : Money) (prize : list Z) : list Money :=
  let share := map (bps pool) prize in
  match share with
  | [] => []
  | s0 :: rest => i64 (s0 + i64 (pool - sum64 share)) :: rest
  end.

(** The places tied with [s] at the front of a list. *)
Definition tied (s s' : Standing) : bool :=
  (s_score s' =? s_score s) && Bool.eqb (s_scored s') (s_scored s).
Fixpoint tie_run (s : Standing) (l : list (Standing * Money)) : list Money * list (Standing * Money) :=
  match l with
  | (s', m) :: l' =>
      if tied s s' then let '(g, r) := tie_run s l' in (m :: g, r) else ([], l)
  | [] => ([], [])
  end.

(** One group of [cnt] places, from place [k] of the group on. *)
Definition split_amounts (group : list Money) : list Money :=
  let total := sum64 group in
  let cnt := len group in
  let each := Z.quot total cnt in
  let rem := Z.rem total cnt in
  imap (fun k _ => if Z.of_nat k <? rem then i64 (each + 1) else each) group.
#[global] Arguments split_amounts : simpl never.

(** The group loop; each step consumes a place, so the number of places is
    fuel enough. *)
Fixpoint split_groups (fuel : nat) (l : list (Standing * Money)) : list Money :=
  match fuel, l with
  | S fuel', (s, m) :: l' =>
      let '(g, rest) := tie_run s l' in split_amounts (m :: g) ++ split_groups fuel' rest
  | _, _ => []
  end.

(** One payout of a prize place. *)
Definition prize_payout (t : Tournament) (ex : Exclusions) (s : Standing) (amount : Money) : Payout :=
  let e := default zero_entry (find_entry t (s_player s)) in
  if Contains ex (pl_jurisdiction (e_player e))
  then mkPayout (s_player s) (s_place s) amount true (code_text JurisdictionExcluded) (ex_version ex)
         (WithheldKey (t_id t) (s_player s) (s_place s))
  else mkPayout (s_player s) (s_place s) amount false "" (ex_version ex)
         (PrizeKey (t_id t) (s_player s) (s_place s)).

Definition refund_payout (t : Tournament) (ex : Exclusions) (e : Entry) : Payout :=
  mkPayout (pl_id (e_player e)) 0 (r_entry_fee (t_rules t)) false "" (ex_version ex)
    (RefundKey (t_id t) (pl_id (e_player e))).

Definition ComputePayouts (t : Tournament) (ex : Exclusions) : list Payout :=
  if Voids t then map (refund_payout t ex) (t_entries t)
  else
    let '(_, _, pool) := ComputePool t in
    let standings := match t_standings t with
                     | Some (s :: l) => s :: l
                     | _ => ComputeStandings t
                     end in
    let standings := take (length (r_prize_bps (t_rules t))) standings in
    let share := shares pool (take (length standings) (r_prize_bps (t_rules t))) in
    let amounts := if String.eqb (r_tie_break (t_rules t)) Split
                   then split_groups (length standings) (zip standings share)
                   else share in
    zip_with (prize_payout t ex) standings amounts.

(** * The basis-point product *)

Lemma bps_floor (x : Money) (b : Z) :
  0 <= x < 2 ^ 63 -> 0 <= b <= 10000 -> bps x b = x * b / 10000 /\ 0 <= bps x b <= x.
Proof.
  intros Hx Hb. unfold bps. rewrite Z.quot_div_nonneg, Z.rem_mod_nonneg by lia.
  pose proof (Z.div_mod x 10000 ltac:(lia)) as Hd. pose proof (Z.mod_pos_bound x 10000 ltac:(lia)) as Hm.
  set (q := x / 10000) in *. set (r := x mod 10000) in *.
  assert (Hq : 0 <= q) by (apply Z.div_pos; lia).
  assert (Hqb : 0 <= q * b <= q * 10000) by nia. assert (Hrb : 0 <= r * b <= r * 10000) by nia.
  rewrite (i64_id (q * b)), (i64_id (r * b)) by (unfold in_i64; lia).
  rewrite Z.quot_div_nonneg by lia.
  assert (Hr : 0 <= r * b / 10000 <= r) by (split; [apply Z.div_pos|apply Z.div_le_upper_bound]; lia).
  rewrite i64_id by (unfold in_i64; lia).
  assert (E : x * b / 10000 = q * b + r * b / 10000).
  { rewrite Hd. replace ((10000 * q + r) * b) with (r * b + (q * b) * 10000) by lia.
    rewrite Z.div_add by lia. lia. }
  rewrite E. split; [done|lia].
Qed.

(** [bps] never overflows and is the exact floor of the fraction, for
    every amount an [int64] holds and every share up to the whole. *)
Theorem bps_exact (x : Money) (b : Z) :
  0 <= x < 2 ^ 63 -> 0 <= b <= 10000 -> bps x b = x * b / 10000 /\ 0 <= bps x b <= x.
Proof. exact (bps_floor x b). Qed.

(** * Standings *)

(** What ranks scored entries: score descending, then submission order. *)
Lemma scored_less_spec a b : scored_less a b = true <->
  e_score b < e_score a \/ (e_score a = e_score b /\ e_submit_seq a < e_submit_seq b).
Proof.
  unfold scored_less. destruct (Z.eqb_spec (e_score a) (e_score b)); simpl; rewrite Z.ltb_lt; lia.
Qed.

Lemma scored_le_spec a b : sort_le scored_less a b <->
  e_score b < e_score a \/ (e_score a = e_score b /\ e_submit_seq a <= e_submit_seq b).
Proof. unfold sort_le. rewrite <- not_true_iff_false, scored_less_spec. lia. Qed.

Lemma scored_sorted l : StronglySorted (sort_le scored_less) (stable_sort scored_less l).
Proof.
  apply stable_sort_sorted.
  - intros a b H. apply scored_less_spec in H. apply scored_le_spec. lia.
  - intros a b c H1%scored_le_spec H2%scored_le_spec. apply scored_le_spec. lia.
Qed.

Lemma unscored_sorted l : StronglySorted (sort_le unscored_less) (stable_sort unscored_less l).
Proof.
  apply stable_sort_sorted; unfold sort_le, unscored_less; intros.
  - rewrite Z.ltb_lt in *. apply Z.ltb_ge. lia.
  - rewrite Z.ltb_ge in *. lia.
Qed.

(** The number of entries ranked strictly above a score. *)
Definition above (s : Z) (es : list Entry) : Z := len (List.filter (fun e => s <? e_score e) es).

Lemma above_app s es es' : above s (es ++ es') = above s es + above s es'.
Proof. unfold above. by rewrite List.filter_app, len_app. Qed.

Lemma above_all s es : (forall e, e ∈ es -> s < e_score e) -> above s es = len es.
Proof.
  unfold above. induction es as [|e es IH]; intros H; simpl; [done|].
  rewrite (proj2 (Z.ltb_lt _ _)) by (apply H; by left). rewrite !len_cons, IH; [done|].
  intros e' He'. apply H. by right.
Qed.

Lemma above_none s es : (forall e, e ∈ es -> e_score e <= s) -> above s es = 0.
Proof.
  unfold above. induction es as [|e es IH]; intros H; simpl; [done|].
  rewrite (proj2 (Z.ltb_ge _ _)) by (apply H; by left). apply IH. intros e' He'. apply H. by right.
Qed.

(** The place the rules give the scored entry at 0-based position [i] of the
    ranking [sc]: its position, or under Split one more than the number of
    entries with a higher score. *)
Definition place_of (split : bool) (sc : list Entry) (i : nat) (e : Entry) : Z :=
  if split then above (e_score e) sc + 1 else Z.of_nat i + 1.

Definition scored_row (split : bool) (sc : list Entry) (i : nat) (e : Entry) : Standing :=
  mkStanding (place_of split sc i e) (pl_id (e_player e)) (e_score e) true (e_submit_seq e).

Lemma place_scored_head (split : bool) sc pre e es prev :
  StronglySorted (sort_le scored_less) sc -> sc = pre ++ e :: es ->
  match prev with
  | None => pre = []
  | Some (s, p) => exists pre' x, pre = pre' ++ [x] /\ s = e_score x /\ p = place_of split sc (length pre') x
  end ->
  match prev with
  | Some (score, p) => if split && (e_score e =? score) then p else len pre + 1
  | None => len pre + 1
  end = place_of split sc (length pre) e.
Proof.
  intros Hs Hsc Hp. rewrite Hsc in Hs. apply StronglySorted_app in Hs as (Hc & Hpre & Hs').
  apply StronglySorted_inv in Hs' as [_ Hes]. rewrite Forall_forall in Hes.
  unfold place_of in *. destruct split; simpl; [|by destruct prev as [[??]|]].
  assert (Hlow : above (e_score e) (e :: es) = 0).
  { apply above_none. intros x [->|Hx]%elem_of_cons; [lia|]. apply Hes in Hx.
    apply scored_le_spec in Hx. lia. }
  destruct prev as [[s p]|]; [|subst pre sc; simpl app; rewrite Hlow; done].
  destruct Hp as (pre' & x & -> & -> & ->).
  assert (Hxe : sort_le scored_less x e) by (apply Hc; [apply elem_of_snoc; by right|by left]).
  apply scored_le_spec in Hxe. destruct (Z.eqb_spec (e_score e) (e_score x)) as [E|E]; [by rewrite E|].
  rewrite Hsc, above_app, Hlow, above_all; [lia|].
  intros y [Hy| ->]%elem_of_snoc; [|lia].
  apply StronglySorted_app in Hpre as (Hpx & _ & _).
  assert (Hyx : sort_le scored_less y x) by (apply Hpx; [done|by left]).
  apply scored_le_spec in Hyx. lia.
Qed.

Lemma place_scored_spec (split : bool) sc pre es prev :
  StronglySorted (sort_le scored_less) sc -> sc = pre ++ es ->
  match prev with
  | None => pre = []
  | Some (s, p) => exists pre' x, pre = pre' ++ [x] /\ s = e_score x /\ p = place_of split sc (length pre') x
  end ->
  place_scored split (len pre) prev es = imap (fun i e => scored_row split sc (length pre + i) e) es.
Proof.
  intros Hs. revert pre prev. induction es as [|e es IH]; intros pre prev Hsc Hp; simpl; [done|].
  rewrite (place_scored_head split sc pre e es prev Hs Hsc Hp).
  unfold scored_row at 1. rewrite Nat.add_0_r. f_equal.
  replace (len pre + 1) with (len (pre ++ [e])) by by rewrite len_app.
  rewrite (IH (pre ++ [e])).
  - apply imap_ext. intros i x _. simpl. f_equal. rewrite length_app. simpl. lia.
  - by rewrite <- app_assoc.
  - eauto.
Qed.

(** The row of the unscored entry at 0-based position [i]. *)
Definition unscored_row (i : nat) (e : Entry) : Standing :=
  mkStanding (Z.of_nat i + 1) (pl_id (e_player e)) 0 false 0.

Lemma place_unscored_spec n es :
  place_unscored (Z.of_nat n) es = imap (fun i e => unscored_row (n + i) e) es.
Proof.
  revert n. induction es as [|e es IH]; intros n; simpl; [done|]. unfold unscored_row at 1.
  rewrite Nat.add_0_r. f_equal. replace (Z.of_nat n + 1) with (Z.of_nat (S n)) by lia. rewrite IH.
  apply imap_ext. intros i x _. simpl. f_equal. lia.
Qed.

Lemma filter_split_Permutation {A} (f : A -> bool) l :
  List.filter f l ++ List.filter (fun x => negb (f x)) l ≡ₚ l.
Proof.
  induction l as [|x l IH]; simpl; [done|]. destruct (f x); simpl; [by rewrite IH|].
  by rewrite <- Permutation_middle, IH.
Qed.

Lemma ComputeStandings_rank (t : Tournament) :
  let split := String.eqb (r_tie_break (t_rules t)) Split in
  exists sc un,
    sc ++ un ≡ₚ t_entries t /\ Forall (fun e => e_scored e = true) sc /\ Forall (fun e => e_scored e = false) un /\
    StronglySorted (sort_le scored_less) sc /\ StronglySorted (sort_le unscored_less) un /\
    ComputeStandings t = imap (scored_row split sc) sc ++ imap (fun i e => unscored_row (length sc + i) e) un.
Proof.
  intros split. exists (stable_sort scored_less (List.filter e_scored (t_entries t))),
    (stable_sort unscored_less (List.filter (fun e => negb (e_scored e)) (t_entries t))).
  split_and!.
  - rewrite !stable_sort_Permutation. apply filter_split_Permutation.
  - rewrite stable_sort_Permutation. apply Forall_forall. intros e He.
    by apply list_elem_of_In, filter_In in He as [_ He].
  - rewrite stable_sort_Permutation. apply Forall_forall. intros e He.
    apply list_elem_of_In, filter_In in He as [_ He]. by destruct (e_scored e).
  - apply scored_sorted.
  - apply unscored_sorted.
  - unfold ComputeStandings. fold split.
    set (sc := stable_sort scored_less _). set (un := stable_sort unscored_less _).
    pose proof (place_scored_spec split sc [] sc None (scored_sorted _) eq_refl eq_refl) as Hp.
    change (len []) with 0 in Hp. rewrite Hp.
    f_equal. unfold len. rewrite length_imap. apply place_unscored_spec.
Qed.

(** The ranking: the standings list the entries, scored ones first by
    score descending and submission order, then unscored ones in join order;
    a place is the position, except that under Split equal scores share the
    place after all higher scores. *)
Theorem standings_rank_entries (t : Tournament) :
  let split := String.eqb (r_tie_break (t_rules t)) Split in
  exists sc un,
    sc ++ un ≡ₚ t_entries t /\ Forall (fun e => e_scored e = true) sc /\ Forall (fun e => e_scored e = false) un /\
    StronglySorted (sort_le scored_less) sc /\ StronglySorted (sort_le unscored_less) un /\
    ComputeStandings t = imap (scored_row split sc) sc ++ imap (fun i e => unscored_row (length sc + i) e) un.
Proof. exact (ComputeStandings_rank t). Qed.

(** * Sums of shares *)

Definition nonneg (l : list Money) : Prop := Forall (fun x => 0 <= x) l.

Lemma zsum_le_elem l x : nonneg l -> x ∈ l -> x <= zsum l.
Proof.
  intros H. induction H as [|y l Hy Hl IH]; simpl; intros Hx; [by apply not_elem_of_nil in Hx|].
  pose proof (zsum_nonneg l Hl). apply elem_of_cons in Hx as [->|Hx]; [lia|]. specialize (IH Hx). lia.
Qed.

Lemma sum64_exact l : nonneg l -> zsum l < 2 ^ 63 -> sum64 l = zsum l.
Proof.
  induction l as [|x l IH] using rev_ind; intros Hn Hs; [done|].
  apply Forall_app in Hn as [Hn Hx]. apply Forall_cons in Hx as [Hx _].
  rewrite zsum_app in *. simpl in *. pose proof (zsum_nonneg l Hn).
  unfold sum64 in *. rewrite foldl_app. simpl. rewrite IH by (done || lia).
  rewrite i64_id; [lia|unfold in_i64; lia].
Qed.

Lemma bps_shares pool prize : 0 <= pool < 2 ^ 63 -> Forall (fun b => 0 <= b) prize -> zsum prize <= 10000 ->
  nonneg (map (bps pool) prize) /\ zsum (map (bps pool) prize) <= pool.
Proof.
  intros Hp Hb Hs. assert (H : forall b, b ∈ prize -> 0 <= bps pool b /\ 10000 * bps pool b <= pool * b).
  { intros b Hin. pose proof (zsum_le_elem prize b Hb Hin). rewrite Forall_forall in Hb.
    destruct (bps_floor pool b Hp) as [E ?]; [specialize (Hb b Hin); lia|]. split; [lia|].
    rewrite E. apply Z.mul_div_le. lia. }
  split.
  - apply Forall_map, Forall_forall. intros b Hin. by apply H.
  - assert (10000 * zsum (map (bps pool) prize) <= pool * zsum prize); [|nia].
    clear Hb Hs. induction prize as [|b prize IH]; simpl; [lia|].
    destruct (H b) as [_ Hx]; [by left|]. specialize (IH ltac:(intros; apply H; by right)). lia.
Qed.

Lemma shares_spec pool prize :
  0 <= pool < 2 ^ 63 -> Forall (fun b => 0 <= b) prize -> zsum prize <= 10000 -> prize <> [] ->
  nonneg (shares pool prize) /\ zsum (shares pool prize) = pool /\ length (shares pool prize) = length prize.
Proof.
  intros Hp Hb Hs Hne. destruct (bps_shares pool prize Hp Hb Hs) as [Hn Hz].
  unfold shares. rewrite (sum64_exact _ Hn) by lia.
  destruct prize as [|b prize]; [done|]. simpl in *. apply Forall_cons in Hn as [H0 Hn].
  pose proof (zsum_nonneg _ Hn). rewrite !i64_id; unfold in_i64; try rewrite i64_id; unfold in_i64; try lia.
  split; [constructor; [lia|done]|]. split; [lia|]. by rewrite length_map.
Qed.

(** * Tie groups *)

Lemma split_sum (each rem : Z) (l : list Money) :
  0 <= rem -> zsum (imap (fun k _ => if Z.of_nat k <? rem then each + 1 else each) l) = each * len l + Z.min rem (len l).
Proof.
  intros Hr. induction l as [|x l IH] using rev_ind; [simpl; unfold len; simpl; lia|].
  rewrite imap_app, zsum_app, IH, len_app. simpl. rewrite Nat.add_0_r. change (len [x]) with 1.
  unfold len. destruct (Z.ltb_spec (Z.of_nat (length l)) rem); lia.
Qed.

(** A tie group is paid exactly what its places carry, in parts that differ by
    at most one unit, the larger ones first. *)
Lemma split_amounts_spec group : nonneg group -> group <> [] -> zsum group < 2 ^ 63 ->
  zsum (split_amounts group) = zsum group /\ length (split_amounts group) = length group /\
  nonneg (split_amounts group) /\
  (forall i a, split_amounts group !! i = Some a ->
     zsum group / len group <= a <= zsum group / len group + 1).
Proof.
  intros Hn Hne Hs. pose proof (zsum_nonneg _ Hn) as H0.
  assert (Hl : 0 < len group) by (destruct group; [done|]; rewrite len_cons; pose proof (len_nonneg group); lia).
  unfold split_amounts. rewrite (sum64_exact _ Hn Hs).
  rewrite Z.quot_div_nonneg, Z.rem_mod_nonneg by lia.
  set (each := zsum group / len group). set (rem := zsum group mod len group).
  pose proof (Z.div_mod (zsum group) (len group) ltac:(lia)) as Hd. fold each rem in Hd.
  pose proof (Z.mod_pos_bound (zsum group) (len group) Hl) as Hm. fold rem in Hm.
  assert (0 <= each) by (apply Z.div_pos; lia). assert (0 < rem -> each + 1 <= zsum group) by nia.
  assert (E : imap (fun k (_ : Money) => if Z.of_nat k <? rem then i64 (each + 1) else each) group =
              imap (fun k _ => if Z.of_nat k <? rem then each + 1 else each) group).
  { apply imap_ext. intros i x _. destruct (Z.ltb_spec (Z.of_nat i) rem); [|done].
    apply i64_id. unfold in_i64. lia. }
  rewrite E. split_and!.
  - rewrite split_sum by lia. lia.
  - apply length_imap.
  - apply Forall_lookup. intros i a Ha. rewrite list_lookup_imap in Ha.
    destruct (group !! i); simplify_eq/=. case_goal; lia.
  - intros i a Ha. rewrite list_lookup_imap in Ha. destruct (group !! i); simplify_eq/=. case_goal; lia.
Qed.

Lemma tie_run_spec s l g rest : tie_run s l = (g, rest) ->
  map snd l = g ++ map snd rest /\ (length l = length g + length rest)%nat.
Proof.
  revert g rest. induction l as [|[s' m] l IH]; intros g rest H; simpl in *; [by simplify_eq|].
  destruct (tied s s'); [|by simplify_eq]. destruct (tie_run s l) as [g' r'] eqn:E.
  destruct (IH _ _ eq_refl) as [-> ?]. simplify_eq/=. auto with lia.
Qed.

Lemma split_groups_spec fuel l :
  (length l <= fuel)%nat -> nonneg (map snd l) -> zsum (map snd l) < 2 ^ 63 ->
  zsum (split_groups fuel l) = zsum (map snd l) /\ length (split_groups fuel l) = length l /\
  nonneg (split_groups fuel l).
Proof.
  revert l. induction fuel as [|fuel IH]; intros [|[s m] l] Hf Hn Hs; try done; [simpl in Hf; lia|].
  cbn [split_groups map snd] in *. cbn [length] in Hf. change (zsum (m :: map snd l)) with (m + zsum (map snd l)) in *.
  destruct (tie_run s l) as [g rest] eqn:E. apply tie_run_spec in E as [Hm Hl].
  rewrite Hm in *. apply Forall_cons in Hn as [H0 Hn]. apply Forall_app in Hn as [Hg Hr].
  rewrite zsum_app in *. pose proof (zsum_nonneg _ Hg). pose proof (zsum_nonneg _ Hr).
  destruct (split_amounts_spec (m :: g)) as (S1 & S2 & S3 & _); [by constructor|done|simpl; lia|].
  destruct (IH rest) as (I1 & I2 & I3); [lia|done|lia|].
  rewrite ?zsum_app, length_app, S1, S2, I1, I2. cbn [length]. change (zsum (m :: g)) with (m + zsum g).
  split_and!; [lia|lia|by apply Forall_app].
Qed.

(** * The money of a tournament *)

(** A tournament the state machine may settle: validated rules, no more
    entries than they allow, and standings that are the computed ones. *)
Record payable (t : Tournament) : Prop := {
  pay_rules : rules_ok (t_rules t);
  pay_entries : len (t_entries t) <= r_max_entrants (t_rules t);
  pay_standings : t_standings t = None \/ t_standings t = Some (ComputeStandings t);
}.

Lemma fees_exact t : payable t ->
  r_entry_fee (t_rules t) * len (t_entries t) <= 10 ^ 18 /\
  i64 (r_entry_fee (t_rules t) * len (t_entries t)) = r_entry_fee (t_rules t) * len (t_entries t).
Proof.
  intros [W He _]. pose proof (ro_fee _ W) as Hf. pose proof (ro_max _ W) as Hm.
  unfold MaxEntryFee, MaxEntrantsBound in *. pose proof (len_nonneg (t_entries t)).
  assert (r_entry_fee (t_rules t) * len (t_entries t) <= 10 ^ 18) by nia.
  split; [done|]. apply i64_id. unfold in_i64. nia.
Qed.

Lemma ComputePool_exact (t : Tournament) (fees rake pool : Money) :
  payable t -> ComputePool t = (fees, rake, pool) ->
  fees = r_entry_fee (t_rules t) * len (t_entries t) /\ fees = rake + pool /\
  0 <= pool <= 10 ^ 18 /\ 0 <= rake /\
  rake = (if Voids t then 0 else fees * r_rake_bps (t_rules t) / 10000).
Proof.
  intros P H. destruct (fees_exact t P) as [Hb Hf]. unfold ComputePool in H. rewrite Hf in H.
  pose proof (ro_fee _ (pay_rules t P)) as Hfee. pose proof (ro_rake _ (pay_rules t P)) as Hrake.
  pose proof (len_nonneg (t_entries t)). set (f := r_entry_fee (t_rules t) * len (t_entries t)) in *.
  assert (0 <= f) by (unfold f; nia).
  destruct (Voids t); injection H as <- <- <-; [split_and!; lia|].
  destruct (bps_floor f (r_rake_bps (t_rules t))) as [E B]; [lia..|].
  rewrite i64_id by (unfold in_i64; lia). split_and!; lia.
Qed.

(** The pool is exact: fees are the entry fee times the entries, the rake
    is the floor of its share, zero for a tournament that voids, and the pool
    is the rest; nothing overflows. *)
Theorem pool_splits_fees (t : Tournament) (fees rake pool : Money) :
  payable t -> ComputePool t = (fees, rake, pool) ->
  fees = r_entry_fee (t_rules t) * len (t_entries t) /\ fees = rake + pool /\
  0 <= pool <= 10 ^ 18 /\ 0 <= rake /\
  rake = (if Voids t then 0 else fees * r_rake_bps (t_rules t) / 10000).
Proof. exact (ComputePool_exact t fees rake pool). Qed.

Lemma standings_length t : length (ComputeStandings t) = length (t_entries t).
Proof.
  destruct (ComputeStandings_rank t) as (sc & un & Hp & _ & _ & _ & _ & ->).
  by rewrite length_app, !length_imap, <- Hp, length_app.
Qed.

Lemma ScoredCount_le t : ScoredCount t <= len (t_entries t).
Proof.
  unfold ScoredCount, len. pose proof (List.filter_length_le e_scored (t_entries t)). lia.
Qed.

(** The standings that are paid: one per prize place. *)
Definition paid_standings (t : Tournament) : list Standing :=
  take (length (r_prize_bps (t_rules t))) (ComputeStandings t).

Lemma paid_standings_length t : payable t -> Voids t = false ->
  length (paid_standings t) = length (r_prize_bps (t_rules t)).
Proof.
  intros P Hv. unfold paid_standings. rewrite length_take, standings_length.
  unfold Voids in Hv. apply Z.ltb_ge in Hv. pose proof (ScoredCount_le t).
  pose proof (ro_min _ (pay_rules t P)). unfold len in *. lia.
Qed.

(** The amounts by place. *)
Definition prize_amounts (t : Tournament) (pool : Money) : list Money :=
  let share := shares pool (r_prize_bps (t_rules t)) in
  if String.eqb (r_tie_break (t_rules t)) Split
  then split_groups (length (paid_standings t)) (zip (paid_standings t) share) else share.

Lemma ComputePayouts_prizes t ex fees rake pool : payable t -> Voids t = false ->
  ComputePool t = (fees, rake, pool) ->
  ComputePayouts t ex = zip_with (prize_payout t ex) (paid_standings t) (prize_amounts t pool).
Proof.
  intros P Hv Hp. unfold ComputePayouts. rewrite Hv, Hp.
  assert (E : match t_standings t with Some (s :: l) => s :: l | _ => ComputeStandings t end = ComputeStandings t).
  { destruct (pay_standings t P) as [->| ->]; [done|]. by destruct (ComputeStandings t). }
  rewrite E. fold (paid_standings t). unfold prize_amounts.
  by rewrite (paid_standings_length t P Hv), take_ge by done.
Qed.

Lemma prize_amounts_spec t fees rake pool : payable t -> Voids t = false ->
  ComputePool t = (fees, rake, pool) ->
  zsum (prize_amounts t pool) = pool /\ nonneg (prize_amounts t pool) /\
  length (prize_amounts t pool) = length (paid_standings t).
Proof.
  intros P Hv Hp. destruct (ComputePool_exact t fees rake pool P Hp) as (_ & _ & Hb & _).
  pose proof (ro_positive _ (pay_rules t P)) as Hpos. pose proof (ro_sum _ (pay_rules t P)) as Hsum.
  pose proof (ro_places _ (pay_rules t P)) as Hpl. pose proof (paid_standings_length t P Hv) as Hl.
  destruct (shares_spec pool (r_prize_bps (t_rules t))) as (S1 & S2 & S3); [lia| |lia| |].
  { eapply Forall_impl; [exact Hpos|]. simpl. intros; lia. }
  { intros E. rewrite E in Hpl. change (len []) with 0 in Hpl. lia. }
  unfold prize_amounts. case_goal; [|split_and!; [done..|congruence]].
  assert (Hz : map snd (zip (paid_standings t) (shares pool (r_prize_bps (t_rules t)))) =
               shares pool (r_prize_bps (t_rules t))).
  { apply snd_zip. lia. }
  destruct (split_groups_spec (length (paid_standings t))
    (zip (paid_standings t) (shares pool (r_prize_bps (t_rules t))))) as (G1 & G2 & G3).
  - rewrite length_zip_with. lia.
  - by rewrite Hz.
  - rewrite Hz, S2. lia.
  - rewrite G1, G2, Hz, length_zip_with. split_and!; [done..|lia].
Qed.

Lemma zip_with_amounts t ex ss ms : length ms = length ss ->
  map p_amount (zip_with (prize_payout t ex) ss ms) = ms.
Proof.
  revert ms. induction ss as [|s ss IH]; intros [|m ms] H; simplify_eq/=; [done|].
  f_equal; [|by apply IH]. unfold prize_payout. by case_goal.
Qed.

Lemma ComputePayouts_exact (t : Tournament) (ex : Exclusions) (fees rake pool : Money) :
  payable t -> ComputePool t = (fees, rake, pool) ->
  nonneg (map p_amount (ComputePayouts t ex)) /\
  zsum (map p_amount (ComputePayouts t ex)) = pool /\
  length (ComputePayouts t ex) = (if Voids t then length (t_entries t) else length (r_prize_bps (t_rules t))).
Proof.
  intros P Hp. destruct (Voids t) eqn:Hv.
  - destruct (ComputePool_exact t fees rake pool P Hp) as (Hf & Hs & _ & _ & Hr). rewrite Hv in Hr.
    unfold ComputePayouts. rewrite Hv, length_map, map_map.
    change (map (fun x => p_amount (refund_payout t ex x)) (t_entries t))
      with (map (fun _ : Entry => r_entry_fee (t_rules t)) (t_entries t)).
    rewrite zsum_map_const. split_and!; [|lia|done].
    apply Forall_map, Forall_forall. intros. pose proof (ro_fee _ (pay_rules t P)). simpl. lia.
  - rewrite (ComputePayouts_prizes t ex fees rake pool P Hv Hp).
    destruct (prize_amounts_spec t fees rake pool P Hv Hp) as (A1 & A2 & A3).
    rewrite (zip_with_amounts t ex _ _ A3), length_zip_with, A3, (paid_standings_length t P Hv).
    split_and!; [done..|lia].
Qed.

(** Every unit of the pool is paid, once: the payouts of a tournament
    that does not void are non-negative, one per prize place, and sum to the
    pool under both tie rules; those of a tournament that voids refund every
    entry its fee and sum to the fees. *)
Theorem payouts_sum_to_pool (t : Tournament) (ex : Exclusions) (fees rake pool : Money) :
  payable t -> ComputePool t = (fees, rake, pool) ->
  nonneg (map p_amount (ComputePayouts t ex)) /\
  zsum (map p_amount (ComputePayouts t ex)) = pool /\
  length (ComputePayouts t ex) = (if Voids t then length (t_entries t) else length (r_prize_bps (t_rules t))).
Proof. exact (ComputePayouts_exact t ex fees rake pool). Qed.

(** * Witnesses *)

Lemma bps_exact_witness : bps 9223372036854775807 9999 = 9223372036854775807 * 9999 / 10000.
Proof. apply (bps_exact 9223372036854775807 9999); split; (discriminate || reflexivity). Defined.

(** Three entrants, two of them tied on the best score. *)
Definition sample_entry (id : PlayerID) (seq score : Z) : Entry :=
  mkEntry (mkPlayer id "CA" 30) seq 4 true score seq [].
Definition sample_tournament : Tournament :=
  mkTournament "t" 7 sample_rules Closed [sample_entry "a" 1 10; sample_entry "b" 2 40; sample_entry "c" 3 40]
    0 0 0 None None 1 2 0 zero_ballot.

Lemma sample_payable : payable sample_tournament.
Proof. split; [exact sample_rules_ok|discriminate|by left]. Qed.

Lemma pool_splits_fees_witness : 1500 = 500 * len (t_entries sample_tournament) /\ 1500 = 37 + 1463.
Proof.
  destruct (pool_splits_fees sample_tournament 1500 37 1463 sample_payable eq_refl) as (H1 & H2 & _). by split.
Defined.

Lemma payouts_sum_to_pool_witness :
  map p_amount (ComputePayouts sample_tournament (mkExclusions 5 [])) = [732; 731] /\
  zsum (map p_amount (ComputePayouts sample_tournament (mkExclusions 5 []))) = 1463.
Proof.
  split; [reflexivity|].
  apply (payouts_sum_to_pool sample_tournament (mkExclusions 5 []) 1500 37 1463 sample_payable eq_refl).
Defined.
