(* ===== verification/State.v ===== *)
(** The replicated state machine of package [tournament]
    (internal/tournament/state.go, play_state.go): the state, every command,
    [Apply] with its results table and hash chain, and the reads.

    A Go pointer into one of the state's maps is the key it is stored under:
    [t *Tournament] is [k] with [deref s k], [rec *RoundRecord] is its round
    key, [ps *playerState] its player, so that a field written through one
    pointer is seen through every other.  [None] of an [option State] is a
    run-time panic. *)

From S2P Require Import Prelude GoStd Paxos Ledger Game Records Codec Compute.

(** * The state *)

Abbreviation roundKey := (string * string * Z)%type (only parsing).

Record playerState := mkPlayerState { pst_rec : PlayerRecord; pst_entered : list TournamentID }.

Record playState := mkPlayState {
  bindings : gmap DeviceID Binding;
  players : gmap PlayerID playerState;
  rounds : gmap roundKey RoundRecord;
  events : list EventRecord;
  shared : gmap TournamentID (list nat);
  own : gmap PlayerID (list nat);
  boardAt : gmap TournamentID Slot;
  dirtyBindings : list DeviceID;
  dirtyPlayers : list PlayerID;
  dirtyRounds : list roundKey;
  eventsBefore : nat;
}.

Definition newPlayState : playState := mkPlayState ∅ ∅ ∅ [] ∅ ∅ ∅ [] [] [] 0.

Record record := mkRecord { rec_fingerprint : bytes; rec_result : Result }.

Record State := mkState {
  tournaments : gmap TournamentID Tournament;
  order : list TournamentID;
  results : gmap IdempotencyKey record;
  book : Book;
  applied : Slot;
  hash : bytes;
  commands : Z;
  mutations : Z;
  play : playState;
  clock : Z;
}.

Definition NewState : State := mkState ∅ [] ∅ NewBook 0 zero32 0 0 newPlayState 0.

(** ** Assignments to fields *)

Definition set_play (s : State) (p : playState) : State :=
  mkState (tournaments s) (order s) (results s) (book s) (applied s) (hash s) (commands s)
    (mutations s) p (clock s).
Definition set_book (s : State) (b : Book) : State :=
  mkState (tournaments s) (order s) (results s) b (applied s) (hash s) (commands s)
    (mutations s) (play s) (clock s).
Definition set_hash (s : State) (h : bytes) : State :=
  mkState (tournaments s) (order s) (results s) (book s) (applied s) h (commands s)
    (mutations s) (play s) (clock s).
Definition set_applied (s : State) (slot : Slot) : State :=
  mkState (tournaments s) (order s) (results s) (book s) slot (hash s) (commands s)
    (mutations s) (play s) (clock s).
Definition put_tournament (s : State) (k : TournamentID) (t : Tournament) : State :=
  mkState (<[k := t]> (tournaments s)) (order s) (results s) (book s) (applied s) (hash s) (commands s)
    (mutations s) (play s) (clock s).
Definition put_result (s : State) (k : IdempotencyKey) (r : record) (m : Z) : State :=
  mkState (tournaments s) (order s) (<[k := r]> (results s)) (book s) (applied s) (hash s) (commands s)
    m (play s) (clock s).

Definition put_player (p : playState) (id : PlayerID) (x : playerState) : playState :=
  mkPlayState (bindings p) (<[id := x]> (players p)) (rounds p) (events p) (shared p) (own p) (boardAt p)
    (dirtyBindings p) (dirtyPlayers p) (dirtyRounds p) (eventsBefore p).
Definition put_round (p : playState) (k : roundKey) (r : RoundRecord) : playState :=
  mkPlayState (bindings p) (players p) (<[k := r]> (rounds p)) (events p) (shared p) (own p) (boardAt p)
    (dirtyBindings p) (dirtyPlayers p) (dirtyRounds p) (eventsBefore p).
Definition put_binding (p : playState) (d : DeviceID) (b : Binding) : playState :=
  mkPlayState (<[d := b]> (bindings p)) (players p) (rounds p) (events p) (shared p) (own p) (boardAt p)
    (dirtyBindings p ++ [d]) (dirtyPlayers p) (dirtyRounds p) (eventsBefore p).

(** ** Change tracking *)

Definition begin (p : playState) : playState :=
  mkPlayState (bindings p) (players p) (rounds p) (events p) (shared p) (own p) (boardAt p)
    [] [] [] (length (events p)).

(** Append unless present. *)
Definition add_once {A} `{EqDecision A} (l : list A) (x : A) : list A :=
  if decide (x ∈ l) then l else l ++ [x].

Definition touchPlayer (p : playState) (id : PlayerID) : playState :=
  mkPlayState (bindings p) (players p) (rounds p) (events p) (shared p) (own p) (boardAt p)
    (dirtyBindings p) (add_once (dirtyPlayers p) id) (dirtyRounds p) (eventsBefore p).
Definition touchRound (p : playState) (k : roundKey) : playState :=
  mkPlayState (bindings p) (players p) (rounds p) (events p) (shared p) (own p) (boardAt p)
    (dirtyBindings p) (dirtyPlayers p) (add_once (dirtyRounds p) k) (eventsBefore p).

(** ** Events *)

(** [m[k] = append(m[k], i)]. *)
Definition push (m : gmap string (list nat)) (k : string) (i : nat) : gmap string (list nat) :=
  <[k := default [] (m !! k) ++ [i]]> m.

Definition recordEvent (s : State) (ev : EventRecord) : State :=
  let p := play s in
  let idx := length (events p) in
  set_play s (mkPlayState (bindings p) (players p) (rounds p) (events p ++ [stamp ev (clock s)])
    (if String.eqb (ev_player ev) "" then push (shared p) (ev_tournament ev) idx else shared p)
    (if String.eqb (ev_player ev) "" then own p else push (own p) (ev_player ev) idx)
    (boardAt p) (dirtyBindings p) (dirtyPlayers p) (dirtyRounds p) (eventsBefore p)).

Definition set_boardAt (p : playState) (tid : TournamentID) (slot : Slot) : playState :=
  mkPlayState (bindings p) (players p) (rounds p) (events p) (shared p) (own p)
    (<[tid := slot]> (boardAt p)) (dirtyBindings p) (dirtyPlayers p) (dirtyRounds p) (eventsBefore p).

Definition recordLeaderboard (s : State) (slot : Slot) (tid : TournamentID) : State :=
  if decide (boardAt (play s) !! tid = Some slot) then s
  else recordEvent (set_play s (set_boardAt (play s) tid slot)) (event slot EventLeaderboardChanged tid "").

(** * Reads *)

Record EntryProgress := mkProgress {
  pg_dealt : Z; pg_finished : Z; pg_total : Z; pg_reached_at : Slot; pg_in_play : Z; pg_next : Z;
}.

(** One iteration of the loop over the rounds, with its local [next]. *)
Definition progress_step (p : playState) (t : TournamentID) (pl : PlayerID)
    (acc : Z * EntryProgress) (r : Z) : Z * EntryProgress :=
  let '(next, out) := acc in
  match rounds p !! (t, pl, r) with
  | None => (if (next =? 0) && (pg_in_play out =? 0) then r else next, out)
  | Some rec =>
      if String.eqb (rr_status rec) RoundDone then
        (next, mkProgress (pg_dealt out + 1) (pg_finished out + 1) (i64 (pg_total out + rr_score rec))
          (if pg_reached_at out <? rr_finished_at rec then rr_finished_at rec else pg_reached_at out)
          (pg_in_play out) (pg_next out))
      else (next, mkProgress (pg_dealt out + 1) (pg_finished out) (pg_total out) (pg_reached_at out)
              r (pg_next out))
  end.

Definition Progress (p : playState) (t : TournamentID) (pl : PlayerID) : EntryProgress :=
  let '(next, out) := foldl (progress_step p t pl) (0, mkProgress 0 0 0 0 0 0) [1; 2; 3] in
  if pg_in_play out =? 0
  then mkProgress (pg_dealt out) (pg_finished out) (pg_total out) (pg_reached_at out) (pg_in_play out) next
  else out.

(** The binary search of [firstAfter] and [sort.Search]; [lo] and [hi] close
    in by at least one each step. *)
Fixpoint search (evs : list EventRecord) (list : list nat) (after : Slot) (fuel lo hi : nat) : option nat :=
  match fuel with
  | O => if (lo <? hi)%nat then None else Some lo
  | S fuel' =>
      if (lo <? hi)%nat then
        let mid := Nat.div2 (lo + hi) in
        i ← list !! mid; ev ← evs !! i;
        if after <? ev_slot ev then search evs list after fuel' lo mid
        else search evs list after fuel' (S mid) hi
      else Some lo
  end.
Definition firstAfter (evs : list EventRecord) (list : list nat) (after : Slot) : option nat :=
  search evs list after (length list) 0 (length list).

(** The pick loop of [Events] over the rest of one index. *)
Fixpoint pick (evs : list EventRecord) (t : TournamentID) (max n : Z) (last : Slot)
    (l : list nat) : option (list nat) :=
  match l with
  | [] => Some []
  | i :: l' =>
      ev ← evs !! i;
      if negb (String.eqb t "") && negb (String.eqb (ev_tournament ev) t) then pick evs t max n last l'
      else if (0 <? max) && (max <=? n) && negb (ev_slot ev =? last) then Some []
      else r ← pick evs t max (n + 1) (ev_slot ev) l'; Some (i :: r)
  end.

(** The final loop of [Events]: stop at the first slot beyond [max] events. *)
Fixpoint emit (evs : list EventRecord) (max i : Z) (last : option Slot) (picked : list nat)
    : option (list EventRecord) :=
  match picked with
  | [] => Some []
  | idx :: picked' =>
      ev ← evs !! idx;
      let stop := (0 <? max) && (max <=? i) in
      prev ← (if stop then last else Some (ev_slot ev));
      if stop && negb (ev_slot ev =? prev) then Some []
      else r ← emit evs max (i + 1) (Some (ev_slot ev)) picked'; Some (ev :: r)
  end.

Definition event_lists (p : playState) (ps : playerState) (t : TournamentID) (pl : PlayerID) : list (list nat) :=
  default [] (own p !! pl)
  :: omap (fun tid => if String.eqb t "" || String.eqb tid t then Some (default [] (shared p !! tid)) else None)
       (pst_entered ps).

(** [Events]; a nil result for an unknown player reads as the empty list. *)
Definition Events (p : playState) (after : Slot) (t : TournamentID) (pl : PlayerID) (max : Z)
    : option (list EventRecord) :=
  match players p !! pl with
  | None => Some []
  | Some ps =>
      picked ← mapM (fun l => i ← firstAfter (events p) l after; pick (events p) t max 0 0 (drop i l))
                 (event_lists p ps t pl);
      emit (events p) max 0 None (stable_sort Nat.ltb (concat picked))
  end.

(** The two loops of [HasEvents]. *)
Fixpoint has_own (evs : list EventRecord) (t : TournamentID) (l : list nat) : option bool :=
  match l with
  | [] => Some false
  | i :: l' => ev ← evs !! i;
      if String.eqb t "" || String.eqb (ev_tournament ev) t then Some true else has_own evs t l'
  end.
Fixpoint has_shared (p : playState) (after : Slot) (t : TournamentID) (entered : list TournamentID) : option bool :=
  match entered with
  | [] => Some false
  | tid :: entered' =>
      if String.eqb t "" || String.eqb tid t then
        let list := default [] (shared p !! tid) in
        i ← firstAfter (events p) list after;
        if (i <? length list)%nat then Some true else has_shared p after t entered'
      else has_shared p after t entered'
  end.

Definition HasEvents (p : playState) (after : Slot) (t : TournamentID) (pl : PlayerID) : option bool :=
  match players p !! pl with
  | None => Some false
  | Some ps =>
      let own := default [] (own p !! pl) in
      i ← firstAfter (events p) own after;
      b ← has_own (events p) t (drop i own);
      if (b : bool) then Some true else has_shared p after t (pst_entered ps)
  end.

Definition EventCount (s : State) : Z := len (events (play s)).

Definition Recorded (s : State) : Z := Z.of_nat (size (results s)).
Definition TournamentCount (s : State) : Z := len (order s).
Definition ReadResult (s : State) (k : IdempotencyKey) : option Result := rec_result <$> results s !! k.
Definition ReadRound (s : State) (t : TournamentID) (p : PlayerID) (r : Z) : option RoundRecord :=
  rounds (play s) !! (t, p, r).
Definition ReadBinding (s : State) (d : DeviceID) : option Binding := bindings (play s) !! d.
Definition ReadPlayer (s : State) (id : PlayerID) : option PlayerRecord := pst_rec <$> players (play s) !! id.

(** [State.Entry]: (entry, joined, exists). *)
Definition ReadEntry (s : State) (t : TournamentID) (p : PlayerID) : Entry * bool * bool :=
  match tournaments s !! t with
  | None => (zero_entry, false, false)
  | Some tr => match find_entry tr p with
               | Some e => (e, true, true)
               | None => (zero_entry, false, true)
               end
  end.

(** [clone]: copies through nil turn an empty slice into a nil one. *)
Definition clone (t : Tournament) : Tournament :=
  mkTournament (t_id t) (t_seed t) (t_rules t) (t_status t) (t_entries t) (t_fees t) (t_rake t) (t_pool t)
    (nil_when_empty (default [] (t_standings t))) (nil_when_empty (default [] (t_payouts t)))
    (t_created_at t) (t_closed_at t) (t_settled_at t) (t_ballot t).
Definition ReadTournament (s : State) (id : TournamentID) : option Tournament := clone <$> tournaments s !! id.

Record TournamentHeader := mkHeader {
  hd_id : TournamentID; hd_rules : Rules; hd_status : Status; hd_entrants : Z; hd_pool : Money; hd_created_at : Slot;
}.
Definition Header (s : State) (id : TournamentID) : option TournamentHeader :=
  (fun t => mkHeader (t_id t) (t_rules t) (t_status t) (len (t_entries t)) (t_pool t) (t_created_at t))
  <$> tournaments s !! id.

Definition ClaimableAmount (t : Tournament) (p : PlayerID) : Money :=
  foldl (fun sum po => if String.eqb (p_player po) p && negb (p_withheld po) then i64 (sum + p_amount po) else sum)
    0 (default [] (t_payouts t)).

(** * Commands *)

(** The dereference of a tournament pointer. *)
Definition deref (s : State) (k : TournamentID) : option Tournament := tournaments s !! k.

(** Scoring the entry at position [i]: the count of scored entries after
    this one is its submission number. *)
Definition mark_scored (t : Tournament) (i : nat) (score : Z) (digest : Digest) : option Tournament :=
  e ← t_entries t !! i;
  let n := u32 (ScoredCount (set_entries t (<[i := scored_entry e score (e_submit_seq e) digest]> (t_entries t)))) in
  Some (set_entries t (<[i := scored_entry e score n digest]> (t_entries t))).

Definition deviceIDLen : Z := 32.

Definition validLowerHex (s : string) (n : Z) : bool :=
  if negb (slen s =? n) then false else forallb is_lower_hex (bytes_of s).

Definition validRound (r : Z) : bool := (1 <=? r) && (r <=? Rounds).

Section Commands.
Context `{U : Unicode}.
(** [fuel] bounds the rejected draws of a deal (see [Game.Shuffle]). *)
Context (fuel : nat).

Definition create (s : State) (slot : Slot) (id : TournamentID) (seed : Z) (r : Rules) : State * Result :=
  match ValidateTournamentID id with
  | Some err => (s, reject InvalidRules err)
  | None =>
  match ValidateRules r with
  | Some err => (s, reject InvalidRules err)
  | None =>
  match tournaments s !! id with
  | Some _ => (s, reject TournamentExists ("tournament " +:+ quote id +:+ " exists"))
  | None =>
      let r := set_exclusions r (canonicalExclusions (r_exclusions r)) in
      let t := mkTournament id seed r Open [] 0 0 0 None None slot 0 0 zero_ballot in
      let s := put_tournament s id t in
      (mkState (tournaments s) (order s ++ [id]) (results s) (book s) (applied s) (hash s) (commands s)
         (mutations s) (play s) (clock s), reject OK "")
  end end end.

(** [checkFresh], with the keys seen so far. *)
Fixpoint checkFresh_from (b : Book) (seen : gset PostingKey) (ps : list Posting) : option error :=
  match ps with
  | [] => None
  | p :: ps' =>
      if Has b (post_key p) || bool_decide (post_key p ∈ seen)
      then Some ("posting key " +:+ quote (post_key p) +:+ " already exists")
      else checkFresh_from b ({[post_key p]} ∪ seen) ps'
  end.
Definition checkFresh (s : State) (ps : list Posting) : option error := checkFresh_from (book s) ∅ ps.

Definition fee_posting (t : Tournament) (pid : PlayerID) (slot : Slot) (ballot : Ballot) : Posting :=
  mkPosting 0 (FeeKey (t_id t) pid) EntryFee (PlayerAccount pid) (PoolAccount (t_id t))
    (r_entry_fee (t_rules t)) (t_id t) pid 0 (ex_version (r_exclusions (t_rules t))) slot ballot.

Definition admit_entry (t : Tournament) (player : Player) : Entry :=
  mkEntry player (u32 (len (t_entries t) + 1)) (ex_version (r_exclusions (t_rules t))) false 0 0 zero32.

Definition not_open (t : Tournament) : string :=
  "tournament " +:+ quote (t_id t) +:+ " is " +:+ Status_String (t_status t).

(** [admit_entrant] is [admit] of the source.  The rules of it before the fee is posted. *)
Definition admit_refusal (t : Tournament) (player : Player) : option Result :=
  exit_if negb (bool_decide (t_status t = Open)) with Some (reject NotOpen (not_open t));
  exit_if r_max_entrants (t_rules t) <=? len (t_entries t)
    with Some (reject TournamentFull ("tournament " +:+ quote (t_id t) +:+ " has "
                                      +:+ itoa (len (t_entries t)) +:+ " entrants"));
  exit_if bool_decide (is_Some (find_entry t (pl_id player)))
    with Some (reject AlreadyJoined ("player " +:+ quote (pl_id player) +:+ " has entered"));
  exit_if Contains (r_exclusions (t_rules t)) (pl_jurisdiction player)
    with Some (reject JurisdictionExcluded ("jurisdiction " +:+ quote (pl_jurisdiction player)
               +:+ " is excluded by list version " +:+ itoa (ex_version (r_exclusions (t_rules t)))));
  exit_if pl_age player <? r_min_age (t_rules t)
    with Some (reject Underage ("age " +:+ itoa (pl_age player) +:+ " is below the minimum "
                                +:+ itoa (r_min_age (t_rules t))));
  None.

Definition admit_entrant (s : State) (slot : Slot) (ballot : Ballot) (k : TournamentID) (player : Player)
    : option (State * Result) :=
  t ← deref s k;
  match admit_refusal t player with
  | Some res => Some (s, res)
  | None =>
  let fee := fee_posting t (pl_id player) slot ballot in
  match checkFresh s [fee] with
  | Some err => Some (s, reject LedgerConflict err)
  | None =>
      '(b, (_, posted, err)) ← Post (book s) fee;
      let s := set_book s b in
      match err with
      | Some err => Some (s, reject InvalidRules ("entry fee posting rejected: " +:+ err))
      | None =>
          if negb posted
          then Some (s, reject LedgerConflict ("posting key " +:+ quote (post_key fee) +:+ " already exists"))
          else Some (put_tournament s k (set_entries t (t_entries t ++ [admit_entry t player])), reject OK "")
      end
  end end.

Definition join (s : State) (slot : Slot) (ballot : Ballot) (tid : TournamentID) (player : Player)
    : option (State * Result) :=
  match ValidatePlayer player with
  | Some err => Some (s, reject InvalidPlayer err)
  | None =>
  match tournaments s !! tid with
  | None => Some (s, reject UnknownTournament ("no tournament " +:+ quote tid))
  | Some t =>
      exit_if negb (String.eqb (r_game (t_rules t)) "")
        with Some (s, reject PlayIntentRequired ("tournament " +:+ quote (t_id t) +:+ " plays "
                      +:+ r_game (t_rules t) +:+ ": entries come from play intents"));
      '(s, res) ← admit_entrant s slot ballot tid player;
      Some (s, if decide (res_code res = OK) then with_res_seed res (t_seed t) else res)
  end end.

Definition score (s : State) (tid : TournamentID) (player : PlayerID) (score deal_seed : Z) (digest : Digest)
    : option (State * Result) :=
  match tournaments s !! tid with
  | None => Some (s, reject UnknownTournament ("no tournament " +:+ quote tid))
  | Some t =>
      exit_if negb (String.eqb (r_game (t_rules t)) "")
        with Some (s, reject PlayIntentRequired ("tournament " +:+ quote (t_id t) +:+ " plays "
                      +:+ r_game (t_rules t) +:+ ": scores come from the rounds played"));
      exit_if negb (bool_decide (t_status t = Open)) with Some (s, reject NotOpen (not_open t));
      match entry_index t player with
      | None => Some (s, reject NotJoined ("player " +:+ quote player +:+ " has not entered"))
      | Some i =>
          e ← t_entries t !! i;
          exit_if e_scored e
            with Some (s, reject AlreadyScored ("player " +:+ quote player +:+ " already has a score"));
          exit_if negb (deal_seed =? t_seed t)
            with Some (s, reject SeedMismatch "deal seed does not match the tournament's seed");
          exit_if (score <? 0) || (r_max_score (t_rules t) <? score)
            with Some (s, reject ScoreOutOfRange ("score " +:+ itoa score +:+ " is outside 0.."
                                                  +:+ itoa (r_max_score (t_rules t))));
          t' ← mark_scored t i score digest;
          Some (put_tournament s tid t', reject OK "")
      end
  end.

(** ** Play commands *)

Definition openSession (s : State) (slot : Slot) (receivedAt : Z) (device : DeviceID) (verifier : Digest)
    (player : PlayerID) (jurisdiction : string) (age : Z) : option (State * Result) :=
  exit_if negb (validLowerHex device deviceIDLen) || bool_decide (verifier = zero32)
    with Some (s, reject InvalidDevice
           "the device id must be 32 lower-case hex characters and the verifier not zero");
  match bindings (play s) !! device with
  | Some b =>
      exit_if negb (bool_decide (b_verifier b = verifier))
        with Some (s, reject DeviceMismatch "the device secret does not match the device's binding");
      ps ← players (play s) !! b_player b;
      Some (s, play_ok (mkPlayOutcome (b_player b) false receivedAt
                          (u64 (pr_last_seq (pst_rec ps) + 1)) 0 0 0 0))
  | None =>
      match ValidatePlayer (mkPlayer player jurisdiction age) with
      | Some err => Some (s, reject InvalidPlayer err)
      | None =>
          exit_if bool_decide (is_Some (players (play s) !! player))
            with Some (s, reject PlayerExists ("player " +:+ quote player +:+ " is bound to another device"));
          let b := mkBinding device verifier player jurisdiction age slot in
          let p := put_binding (play s) device b in
          let p := put_player p player (mkPlayerState (mkPlayerRecord b 0) []) in
          Some (set_play s (touchPlayer p player), play_ok (mkPlayOutcome player true receivedAt 1 0 0 0 0))
      end
  end.

(** [PlayOutcome{Player, NextSeq}]. *)
Definition seq_outcome (pid : PlayerID) (next : Z) : PlayOutcome := mkPlayOutcome pid false 0 next 0 0 0 0.

(** [sequenced]: the state after the sequence number is consumed, and the
    rejection, [None] when the command may go on with the player [pid] and
    the tournament [tid]. *)
Definition sequenced (s : State) (pid : PlayerID) (seq : Z) (tid : TournamentID) : State * option Result :=
  match players (play s) !! pid with
  | None => (s, Some (playReject UnknownPlayer ("no device is bound to player " +:+ quote pid)
                        (seq_outcome pid 0)))
  | Some ps =>
      let last := pr_last_seq (pst_rec ps) in
      let out := seq_outcome pid (u64 (last + 1)) in
      exit_if seq <=? last
        with (s, Some (playReject StaleSeq ("seq " +:+ itoa seq +:+ " is not above the last consumed "
                                            +:+ itoa last) out));
      exit_if u64 (last + 1) <? seq
        with (s, Some (playReject SeqGap ("seq " +:+ itoa seq +:+ " skips from the last consumed "
                                          +:+ itoa last) out));
      let ps' := mkPlayerState (mkPlayerRecord (pr_binding (pst_rec ps)) seq) (pst_entered ps) in
      let s := set_play s (touchPlayer (put_player (play s) pid ps') pid) in
      let out := seq_outcome pid (u64 (seq + 1)) in
      match tournaments s !! tid with
      | None => (s, Some (playReject UnknownTournament ("no tournament " +:+ quote tid) out))
      | Some t =>
          exit_if String.eqb (r_game (t_rules t)) ""
            with (s, Some (playReject NotPlayTournament
                       ("tournament " +:+ quote tid +:+ " takes client-reported scores") out));
          (s, None)
      end
  end.

Definition outcome (s : State) (pid : PlayerID) : option PlayOutcome :=
  ps ← players (play s) !! pid;
  Some (seq_outcome pid (u64 (pr_last_seq (pst_rec ps) + 1))).

Definition enterPlay (s : State) (slot : Slot) (ballot : Ballot) (tid : TournamentID) (player : PlayerID)
    (seq : Z) : option (State * Result) :=
  match sequenced s player seq tid with
  | (s, Some rej) => Some (s, rej)
  | (s, None) =>
      ps ← players (play s) !! player;
      let b := pr_binding (pst_rec ps) in
      '(s, res) ← admit_entrant s slot ballot tid (mkPlayer player (b_jurisdiction b) (b_age b));
      out ← outcome s player;
      if decide (res_code res = OK) then
        t ← deref s tid;
        e ← last (t_entries t);
        let ps' := mkPlayerState (pst_rec ps) (pst_entered ps ++ [t_id t]) in
        Some (set_play s (put_player (play s) player ps'),
              with_play res (with_join_seq out (e_join_seq e)))
      else Some (s, with_play res out)
  end.

Definition round_started (t : Tournament) (op_player : PlayerID) (round : Z) (slot : Slot) : EventRecord :=
  mkEvent slot EventRoundStarted (t_id t) op_player round RoundInPlay 0 0 0 0 0.

Definition new_round (s : State) (slot : Slot) (tid : TournamentID) (player : PlayerID) (round : Z)
    (seed : Seed) : RoundRecord :=
  mkRoundRecord tid player round seed [] RoundInPlay "" 0 0 slot (clock s)
    (i64 (clock s + RoundTimeLimitMs)) 0 slot.

(** The round before [round] is not finished. *)
Definition previous_unfinished (s : State) (t : Tournament) (player : PlayerID) (round : Z) : bool :=
  (1 <? round) &&
  match rounds (play s) !! (t_id t, player, round - 1) with
  | Some prev => negb (String.eqb (rr_status prev) RoundDone)
  | None => true
  end.

Definition startRound (s : State) (slot : Slot) (tid : TournamentID) (player : PlayerID)
    (seq round : Z) (seed : Seed) : option (State * Result) :=
  match sequenced s player seq tid with
  | (s, Some rej) => Some (s, rej)
  | (s, None) =>
      t ← deref s tid;
      out ← outcome s player;
      let out := with_round out round in
      exit_if negb (bool_decide (t_status t = Open)) with Some (s, playReject NotOpen (not_open t) out);
      exit_if negb (bool_decide (is_Some (find_entry t player)))
        with Some (s, playReject NotJoined ("player " +:+ quote player +:+ " has not entered") out);
      exit_if negb (validRound round)
        with Some (s, playReject InvalidRound ("round " +:+ itoa round +:+ " is outside 1.." +:+ itoa Rounds) out);
      let key := (t_id t, player, round) in
      exit_if bool_decide (is_Some (rounds (play s) !! key))
        with Some (s, playReject RoundAlreadyStarted ("round " +:+ itoa round +:+ " was dealt before") out);
      exit_if previous_unfinished s t player round
        with Some (s, playReject PreviousRoundUnfinished
                        ("round " +:+ itoa (round - 1) +:+ " is not finished") out);
      let rec := new_round s slot (t_id t) player round seed in
      let s := set_play s (touchRound (put_round (play s) key rec) key) in
      Some (recordEvent s (round_started t player round slot), play_ok out)
  end.

(** [roundFor]: the round's key and the entry's index, or the rejection. *)
Definition roundFor (s : State) (t : Tournament) (pid : PlayerID) (round : Z) (out : PlayOutcome)
    : (roundKey * nat) + Result :=
  match entry_index t pid with
  | None => inr (playReject NotJoined ("player " +:+ quote pid +:+ " has not entered") out)
  | Some idx =>
      exit_if negb (validRound round)
        with inr (playReject InvalidRound ("round " +:+ itoa round +:+ " is outside 1.." +:+ itoa Rounds) out);
      match rounds (play s) !! (t_id t, pid, round) with
      | None => inr (playReject RoundNotStarted ("round " +:+ itoa round +:+ " was never dealt") out)
      | Some _ => inl ((t_id t, pid, round), idx)
      end
  end.

Definition scoreEntry (s : State) (slot : Slot) (k : TournamentID) (i : nat) : option State :=
  t ← deref s k;
  e ← t_entries t !! i;
  let prog := Progress (play s) (t_id t) (pl_id (e_player e)) in
  t' ← mark_scored t i (pg_total prog) (e_input_digest e);
  Some (recordEvent (put_tournament s k t')
          (mkEvent slot EventEntryScored (t_id t) (pl_id (e_player e)) 0 "" 0
             (pg_total prog) (pg_finished prog) 0 0)).

Definition finishRound (s : State) (slot : Slot) (k : TournamentID) (entry : nat) (rk : roundKey)
    (board : option Board) (reason : string) (closing : bool) : option State :=
  t ← deref s k;
  rec ← rounds (play s) !! rk;
  b ← match board with
      | Some b => Some b
      | None => fst <$> Replay fuel (rr_seed rec) (rr_moves rec)
      end;
  let rec := done_record rec reason (Cleared b) (Score b) slot in
  let s := set_play s (touchRound (put_round (play s) rk rec) (rr_tournament rec, rr_player rec, rr_round rec)) in
  let prog := Progress (play s) (t_id t) (rr_player rec) in
  let s := recordEvent s (mkEvent slot EventRoundFinished (t_id t) (rr_player rec) (rr_round rec) RoundDone
                            (rr_score rec) (pg_total prog) (pg_finished prog) 0 0) in
  let s := if closing then s else recordLeaderboard s slot (t_id t) in
  if rr_round rec =? Rounds then
    e ← t_entries t !! entry;
    if e_scored e then Some s else scoreEntry s slot k entry
  else Some s.

Definition playMove (s : State) (slot : Slot) (tid : TournamentID) (player : PlayerID)
    (seq round move_index : Z) (move : Move) : option (State * Result) :=
  match sequenced s player seq tid with
  | (s, Some rej) => Some (s, rej)
  | (s, None) =>
      t ← deref s tid;
      out ← outcome s player;
      let out := with_round out round in
      exit_if negb (bool_decide (t_status t = Open)) with Some (s, playReject NotOpen (not_open t) out);
      match roundFor s t player round out with
      | inr rej => Some (s, rej)
      | inl (rk, idx) =>
          rec ← rounds (play s) !! rk;
          let out := with_move_index out (len (rr_moves rec)) in
          exit_if String.eqb (rr_status rec) RoundDone
            with Some (s, playReject RoundFinished ("round " +:+ itoa round +:+ " finished ("
                                                    +:+ rr_reason rec +:+ ")") out);
          exit_if rr_deadline_ms rec <? clock s
            with Some (s, playReject RoundExpired ("the deadline " +:+ itoa (rr_deadline_ms rec)
                            +:+ " has passed (clock " +:+ itoa (clock s) +:+ ")") out);
          exit_if negb (move_index =? len (rr_moves rec))
            with Some (s, playReject MoveIndexMismatch ("move_index " +:+ itoa move_index
                            +:+ ", the round has " +:+ itoa (len (rr_moves rec)) +:+ " accepted moves") out);
          '(board, err) ← Replay fuel (rr_seed rec) (rr_moves rec);
          match err with
          | Some err => Some (s, playReject IllegalMove err out)
          | None =>
              '(board, err) ← Apply board move;
              match err with
              | Some err => Some (s, playReject IllegalMove (move_err_text err) out)
              | None =>
                  let rec := add_move rec move slot in
                  let s := set_play s (touchRound (put_round (play s) rk rec) (t_id t, player, round)) in
                  let out := with_move_index out (len (rr_moves rec)) in
                  over ← Over board;
                  s ← match over with
                      | Some reason => finishRound s slot tid idx rk (Some board) reason false
                      | None => Some s
                      end;
                  Some (s, play_ok out)
              end
          end
      end
  end.

Definition finish_reason (s : State) (rec : RoundRecord) (otherwise : string) : string :=
  if rr_deadline_ms rec <? clock s then FExpired else otherwise.

Definition finishRoundCmd (s : State) (slot : Slot) (tid : TournamentID) (player : PlayerID)
    (seq round : Z) : option (State * Result) :=
  match sequenced s player seq tid with
  | (s, Some rej) => Some (s, rej)
  | (s, None) =>
      t ← deref s tid;
      out ← outcome s player;
      let out := with_round out round in
      match roundFor s t player round out with
      | inr rej => Some (s, rej)
      | inl (rk, idx) =>
          rec ← rounds (play s) !! rk;
          let out := with_move_index out (len (rr_moves rec)) in
          exit_if String.eqb (rr_status rec) RoundDone with Some (s, play_ok out);
          exit_if negb (bool_decide (t_status t = Open)) with Some (s, playReject NotOpen (not_open t) out);
          s ← finishRound s slot tid idx rk None (finish_reason s rec FResigned) false;
          Some (s, play_ok out)
      end
  end.

(** ** Close and Settle *)

(** The body of the first loop of [closeRounds] for entry [i], round [r]. *)
Definition close_round (slot : Slot) (k : TournamentID) (i : nat) (s : State) (r : Z) : option State :=
  t ← deref s k;
  e ← t_entries t !! i;
  let rk := (t_id t, pl_id (e_player e), r) in
  match rounds (play s) !! rk with
  | None => Some s
  | Some rec =>
      if String.eqb (rr_status rec) RoundDone then Some s
      else finishRound s slot k i rk None (finish_reason s rec FClosed) true
  end.

(** The body of its second loop. *)
Definition close_entry (slot : Slot) (k : TournamentID) (s : State) (i : nat) : option State :=
  t ← deref s k;
  e ← t_entries t !! i;
  if e_scored e then Some s
  else if 0 <? pg_dealt (Progress (play s) (t_id t) (pl_id (e_player e))) then scoreEntry s slot k i
  else Some s.

Definition closeRounds (s : State) (slot : Slot) (k : TournamentID) : option State :=
  t ← deref s k;
  let idxs := seq 0 (length (t_entries t)) in
  s ← foldM (fun s i => foldM (close_round slot k i) s [1; 2; 3]) s idxs;
  foldM (close_entry slot k) s idxs.

Definition recordStatus (s : State) (slot : Slot) (k : TournamentID) : option State :=
  t ← deref s k;
  let s := recordEvent s (mkEvent slot EventTournamentStatus (t_id t) "" 0 (Status_String (t_status t)) 0 0 0 0 0) in
  Some (recordLeaderboard s slot (t_id t)).

Definition close (s : State) (slot : Slot) (tid : TournamentID) : option (State * Result) :=
  match tournaments s !! tid with
  | None => Some (s, reject UnknownTournament ("no tournament " +:+ quote tid))
  | Some t =>
      exit_if negb (bool_decide (t_status t = Open)) with Some (s, reject NotOpen (not_open t));
      s ← (if String.eqb (r_game (t_rules t)) "" then Some s else closeRounds s slot tid);
      t ← deref s tid;
      let t' := close_record t (if Voids t then Voided else Closed) (ComputeStandings t) (ComputePool t) slot in
      let s := put_tournament s tid t' in
      s ← (if String.eqb (r_game (t_rules t')) "" then Some s else recordStatus s slot tid);
      Some (s, reject OK "")
  end.

Definition rake_posting (t : Tournament) (ex : Exclusions) (slot : Slot) (ballot : Ballot) : Posting :=
  mkPosting 0 (RakeKey (t_id t)) Rake (PoolAccount (t_id t)) (RakeAccount (t_id t)) (t_rake t)
    (t_id t) "" 0 (ex_version ex) slot ballot.

Definition payout_posting (t : Tournament) (ex : Exclusions) (slot : Slot) (ballot : Ballot) (p : Payout) : Posting :=
  let '(kind, credit) :=
    if bool_decide (t_status t = Voided) then (Refund, PlayerAccount (p_player p))
    else if p_withheld p then (Withheld, WithheldAccount (t_id t))
    else (Prize, PlayerAccount (p_player p)) in
  mkPosting 0 (p_key p) kind (PoolAccount (t_id t)) credit (p_amount p) (t_id t) (p_player p) (p_place p)
    (ex_version ex) slot ballot.

Definition settle_postings (t : Tournament) (ex : Exclusions) (slot : Slot) (ballot : Ballot)
    (payouts : list Payout) : list Posting :=
  (if bool_decide (t_status t = Closed) && (0 <? t_rake t) then [rake_posting t ex slot ballot] else [])
  ++ map (payout_posting t ex slot ballot) (List.filter (fun p => negb (p_amount p <=? 0)) payouts).

(** Posting a list; a posting that is refused or not appended panics. *)
Definition post_new_only (b : Book) (p : Posting) : option Book :=
  '(b', (_, posted, err)) ← Post b p;
  match err with
  | None => if (posted : bool) then Some b' else None
  | Some _ => None
  end.

Definition payout_available (t : Tournament) (slot : Slot) (p : Payout) : EventRecord :=
  mkEvent slot EventPayoutAvailable (t_id t) (p_player p) 0 "" 0 0 0 (p_amount p) 0.

Definition settle (s : State) (slot : Slot) (ballot : Ballot) (tid : TournamentID) (exclusions : Exclusions)
    : option (State * Result) :=
  match ValidateExclusions exclusions with
  | Some err => Some (s, reject InvalidExclusions err)
  | None =>
  match tournaments s !! tid with
  | None => Some (s, reject UnknownTournament ("no tournament " +:+ quote tid))
  | Some t =>
      exit_if negb (bool_decide (t_status t = Closed)) && negb (bool_decide (t_status t = Voided))
        with Some (s, reject NotClosed (not_open t));
      let ex := canonicalExclusions exclusions in
      let payouts := ComputePayouts t ex in
      let ps := settle_postings t ex slot ballot payouts in
      match first_error Validate ps with
      | Some err => Some (s, reject InvalidRules ("payout posting rejected: " +:+ err))
      | None =>
      match checkFresh s ps with
      | Some err => Some (s, reject LedgerConflict err)
      | None =>
          b ← foldM post_new_only (book s) ps;
          let t' := settle_record t payouts slot ballot in
          let s := put_tournament (set_book s b) tid t' in
          s ← (if String.eqb (r_game (t_rules t')) "" then Some s
               else
                 s ← recordStatus s slot tid;
                 Some (foldl (fun s p =>
                   if negb (p_withheld p) && (0 <? p_amount p)
                   then recordEvent s (payout_available t' slot p) else s) s payouts));
          Some (s, reject OK "")
      end end
  end end.

Definition claim_posting (tid : TournamentID) (pid : PlayerID) (amount : Money) (slot : Slot) (ballot : Ballot) : Posting :=
  mkPosting 0 (ClaimKey tid pid) Claim (PlayerAccount pid) (ClaimsAccount tid) amount tid pid 0 0 slot ballot.

Definition claimPayout (s : State) (slot : Slot) (ballot : Ballot) (tid : TournamentID) (player : PlayerID)
    (seq : Z) : option (State * Result) :=
  match sequenced s player seq tid with
  | (s, Some rej) => Some (s, rej)
  | (s, None) =>
      t ← deref s tid;
      out ← outcome s player;
      exit_if negb (bool_decide (is_Some (find_entry t player)))
        with Some (s, playReject NotJoined ("player " +:+ quote player +:+ " has not entered") out);
      exit_if negb (bool_decide (t_status t = Settled))
        with Some (s, playReject NotSettled (not_open t) out);
      let amount := ClaimableAmount t player in
      exit_if amount <=? 0
        with Some (s, playReject NoPayout ("player " +:+ quote player +:+ " has nothing to claim") out);
      let key := ClaimKey (t_id t) player in
      exit_if Has (book s) key
        with Some (s, playReject AlreadyClaimed ("posting " +:+ quote key +:+ " exists") out);
      '(b, (_, posted, err)) ← Post (book s) (claim_posting (t_id t) player amount slot ballot);
      let s := set_book s b in
      exit_if bool_decide (is_Some err) || negb posted
        with Some (s, playReject LedgerConflict ("claim posting " +:+ quote key +:+ " not appended ("
                        +:+ default "<nil>" err +:+ ")") out);
      Some (recordEvent s (mkEvent slot EventPayoutClaimed (t_id t) player 0 "" 0 0 0 amount 0),
            play_ok (with_amount out amount))
  end.

(** * Apply *)

(** The type switch of [execute]; [None] of the operation is its default case. *)
Definition dispatch (s : State) (slot : Slot) (ballot : Ballot) (received_at : Z) (op : Op)
    : option (State * Result) :=
  match op with
  | CreateTournament id seed r => Some (create s slot id seed r)
  | Join t p => join s slot ballot t p
  | SubmitScore t p sc seed digest => score s t p sc seed digest
  | Close t => close s slot t
  | Settle t e => settle s slot ballot t e
  | OpenSession d v p j a => openSession s slot received_at d v p j a
  | Enter t p n => enterPlay s slot ballot t p n
  | StartRound t p n r seed => startRound s slot t p n r seed
  | PlayMove t p n r i mv => playMove s slot t p n r i mv
  | FinishRound t p n r => finishRoundCmd s slot t p n r
  | ClaimPayout t p n => claimPayout s slot ballot t p n
  end.

Definition key_reused : string := "idempotency key was used with a different command".

Definition execute (s : State) (slot : Slot) (ballot : Ballot) (cmd : Command) : option (State * Result) :=
  match ValidateKey (cmd_key cmd) with
  | Some err => Some (s, result_at InvalidKey err slot)
  | None =>
      let fp := Fingerprint cmd in
      match results s !! cmd_key cmd with
      | Some rec =>
          if negb (bool_decide (rec_fingerprint rec = fp))
          then Some (s, result_at KeyReused key_reused slot)
          else Some (s, with_replayed (rec_result rec))
      | None =>
          match cmd_op cmd with
          | None => Some (s, result_at InvalidOp "unknown op <nil>" slot)
          | Some op =>
              '(s, res) ← dispatch s slot ballot (cmd_received_at cmd) op;
              let res := with_slot res slot in
              let m := if decide (res_code res = OK) then u64 (mutations s + 1) else mutations s in
              Some (put_result s (cmd_key cmd) (mkRecord fp res) m, res)
          end
      end
  end.

(** The lines of [mixPlay]: a nil pointer marshals as null, a nil player
    record panics. *)
Definition play_line (prefix : string) (j : json) : bytes := bytes_of prefix ++ marshal j ++ [10].
Definition mixPlay (p : playState) : option bytes :=
  ps ← mapM (fun id => ps ← players p !! id; Some (play_line "player:" (player_record_json (pst_rec ps)))) (dirtyPlayers p);
  Some (flat_map (fun d => play_line "binding:" (match bindings p !! d with Some b => binding_json b | None => JNull end)) (dirtyBindings p)
        ++ concat ps
        ++ flat_map (fun k => play_line "round:" (match rounds p !! k with Some r => round_json r | None => JNull end)) (dirtyRounds p)
        ++ flat_map (fun ev => play_line "event:" (event_json ev)) (drop (eventsBefore p) (events p))).

(** What [mix] writes after the previous hash. *)
Definition mix_input (s : State) (slot : Slot) (cmd : Command) (res : Result) (postingsBefore : Z) : option bytes :=
  ps ← EncodePostings (PostingsSince (book s) postingsBefore);
  pl ← mixPlay (play s);
  Some (bytes_of ("slot:" +:+ itoa slot) ++ [10]
        ++ match Encode cmd with inl enc => enc | inr err => bytes_of ("unencodable:" +:+ err) end ++ [10]
        ++ marshal (result_json res) ++ [10]
        ++ match tournaments s !! TournamentOf (cmd_op cmd) with
           | Some t => EncodeTournament t ++ [10] | None => [] end
        ++ ps ++ pl).
Definition mix (s : State) (slot : Slot) (cmd : Command) (res : Result) (postingsBefore : Z) : option State :=
  w ← mix_input s slot cmd res postingsBefore; Some (set_hash s (sha256 (hash s ++ w))).

(** The counters, the clock and the change tracking at the start of [Apply]. *)
Definition start_slot (s : State) (slot : Slot) (cmd : Command) : State :=
  mkState (tournaments s) (order s) (results s) (book s) slot (hash s) (i64 (commands s + 1)) (mutations s)
    (begin (play s)) (if clock s <? cmd_received_at cmd then cmd_received_at cmd else clock s).

Definition Apply (s : State) (slot : Slot) (ballot : Ballot) (cmd : Command) : option (State * Result) :=
  if slot <=? applied s
  then Some (s, result_at OutOfOrder ("slot " +:+ itoa slot +:+ " is not above the applied slot "
                                      +:+ itoa (applied s)) slot)
  else
    let before := Len (book s) in
    '(s, res) ← execute (start_slot s slot cmd) slot ballot cmd;
    s ← mix s slot cmd res before;
    Some (s, res).

Definition Skip (s : State) (slot : Slot) : State :=
  if slot <=? applied s then s
  else set_hash (set_applied s slot) (sha256 (hash s ++ bytes_of ("skip:" +:+ itoa slot))).

(** [State.Replay]: the answer a host gives a retry without proposing it. *)
Definition Replay_result (s : State) (cmd : Command) : option Result :=
  rec ← results s !! cmd_key cmd;
  Some (if negb (bool_decide (rec_fingerprint rec = Fingerprint cmd))
        then result_at KeyReused key_reused 0
        else with_replayed (rec_result rec)).
End Commands.
