(* ===== verification/Changes.v ===== *)
(** The elementary changes of the tournament state, and the refinement that
    every command of [State.v] is a sequence of them.

    [change] is the abstract specification of the state machine: thirteen
    guarded updates (create, admit an entrant, score, close, settle, bind, consume a
    sequence number, enter, deal, move, finish a round, claim, record an
    event), each with the rule that must hold for it.  The invariants of the
    later files are proved once per change; [Machine.v] shows that on every
    reachable state each command runs to an end and does nothing but changes,
    and that a rejected command does at most consume a sequence number. *)

From S2P Require Import Prelude GoStd Paxos Ledger Game Records Codec Compute State.

(** A tournament as [create] stores it. *)
Definition new_tournament (slot : Slot) (id : TournamentID) (seed : Z) (r : Rules) : Tournament :=
  mkTournament id seed r Open [] 0 0 0 None None slot 0 0 zero_ballot.

Definition add_tournament (s : State) (id : TournamentID) (t : Tournament) : State :=
  let s := put_tournament s id t in
  mkState (tournaments s) (order s ++ [id]) (results s) (book s) (applied s) (hash s) (commands s)
    (mutations s) (play s) (clock s).

(** No round of tournament [k] is in play. *)
Definition no_round_in_play (s : State) (k : TournamentID) : Prop :=
  forall p r rec, rounds (play s) !! (k, p, r) = Some rec -> rr_status rec = RoundDone.

Definition no_entry_in_play (s : State) (k : TournamentID) (p : PlayerID) : Prop :=
  forall r rec, rounds (play s) !! (k, p, r) = Some rec -> rr_status rec = RoundDone.

(** The score an entry may be given: one in range, or in a play tournament
    the total of rounds that are all finished, once the last round was dealt
    or while the tournament is being closed. *)
Definition score_allowed (closing : option TournamentID) (s : State) (k : TournamentID) (t : Tournament)
    (pid : PlayerID) (score : Z) : Prop :=
  if String.eqb (r_game (t_rules t)) "" then 0 <= score <= r_max_score (t_rules t)
  else score = pg_total (Progress (play s) k pid) /\ no_entry_in_play s k pid /\
       (closing = Some k \/ is_Some (rounds (play s) !! (k, pid, Rounds))).

(** No entry of the player is scored. *)
Definition entry_unscored (t : Tournament) (pid : PlayerID) : Prop :=
  forall e, e ∈ t_entries t -> pl_id (e_player e) = pid -> e_scored e = false.

Section Change.
(** [closing] names the tournament a Close command is working on. *)
Context `{U : Unicode} (fuel : nat) (slot : Slot) (ballot : Ballot) (closing : option TournamentID).

Inductive change (s : State) : State -> Prop :=
| ch_create id seed r :
    tournaments s !! id = None -> validID id = true -> rules_ok r ->
    canonicalExclusions (r_exclusions r) = r_exclusions r ->
    change s (add_tournament s id (new_tournament slot id seed r))
| ch_admit k t player b q :
    deref s k = Some t -> admit_refusal t player = None ->
    validID (pl_id player) = true ->
    Post (book s) (fee_posting t (pl_id player) slot ballot) = Some (b, (q, true, None)) ->
    change s (put_tournament (set_book s b) k (set_entries t (t_entries t ++ [admit_entry t player])))
| ch_score k t t' i e score digest :
    deref s k = Some t -> t_status t = Open -> t_entries t !! i = Some e -> e_scored e = false ->
    score_allowed closing s k t (pl_id (e_player e)) score ->
    mark_scored t i score digest = Some t' ->
    change s (put_tournament s k t')
| ch_close k t :
    deref s k = Some t -> t_status t = Open -> no_round_in_play s k ->
    change s (put_tournament s k
      (close_record t (if Voids t then Voided else Closed) (ComputeStandings t) (ComputePool t) slot))
| ch_settle k t ex b :
    deref s k = Some t -> t_status t = Closed \/ t_status t = Voided -> exclusions_ok ex ->
    foldM post_new_only (book s) (settle_postings t ex slot ballot (ComputePayouts t ex)) = Some b ->
    change s (put_tournament (set_book s b) k (settle_record t (ComputePayouts t ex) slot ballot))
| ch_bind b :
    bindings (play s) !! b_device b = None -> players (play s) !! b_player b = None ->
    ValidatePlayer (mkPlayer (b_player b) (b_jurisdiction b) (b_age b)) = None -> b_bound_at b = slot ->
    change s (set_play s (touchPlayer (put_player (put_binding (play s) (b_device b) b) (b_player b)
                                         (mkPlayerState (mkPlayerRecord b 0) [])) (b_player b)))
| ch_seq pid ps :
    players (play s) !! pid = Some ps -> pr_last_seq (pst_rec ps) + 1 < 2 ^ 64 ->
    change s (set_play s (touchPlayer (put_player (play s) pid
      (mkPlayerState (mkPlayerRecord (pr_binding (pst_rec ps)) (pr_last_seq (pst_rec ps) + 1)) (pst_entered ps))) pid))
| ch_enter k t pid ps :
    deref s k = Some t -> is_Some (find_entry t pid) -> players (play s) !! pid = Some ps -> k ∉ pst_entered ps ->
    change s (set_play s (put_player (play s) pid (mkPlayerState (pst_rec ps) (pst_entered ps ++ [k]))))
| ch_deal k t pid round seed :
    deref s k = Some t -> t_status t = Open -> r_game (t_rules t) <> "" -> is_Some (find_entry t pid) -> entry_unscored t pid ->
    validRound round = true -> rounds (play s) !! (k, pid, round) = None ->
    previous_unfinished s t pid round = false -> is_Some (Deal fuel seed) ->
    change s (set_play s (touchRound (put_round (play s) (k, pid, round) (new_round s slot k pid round seed))
                            (k, pid, round)))
| ch_move k t pid round rec b m b' :
    deref s k = Some t -> t_status t = Open -> rounds (play s) !! (k, pid, round) = Some rec ->
    rr_status rec <> RoundDone -> clock s <= rr_deadline_ms rec ->
    Replay fuel (rr_seed rec) (rr_moves rec) = Some (b, None) -> Game.Apply b m = Some (b', None) ->
    change s (set_play s (touchRound (put_round (play s) (k, pid, round) (add_move rec m slot)) (k, pid, round)))
| ch_finish k t pid round rec b reason :
    deref s k = Some t -> t_status t = Open -> rounds (play s) !! (k, pid, round) = Some rec ->
    rr_status rec <> RoundDone -> Replay fuel (rr_seed rec) (rr_moves rec) = Some (b, None) ->
    change s (set_play s (touchRound (put_round (play s) (k, pid, round)
                                        (done_record rec reason (Cleared b) (Score b) slot)) (k, pid, round)))
| ch_claim k t pid b q :
    deref s k = Some t -> t_status t = Settled -> is_Some (find_entry t pid) ->
    0 < ClaimableAmount t pid -> Has (book s) (ClaimKey k pid) = false ->
    Post (book s) (claim_posting k pid (ClaimableAmount t pid) slot ballot) = Some (b, (q, true, None)) ->
    change s (set_book s b)
| ch_event ev : ev_slot ev = slot -> change s (recordEvent s ev)
| ch_board tid : change s (set_play s (set_boardAt (play s) tid slot)).

Definition changes : State -> State -> Prop := rtc change.
End Change.
