(* ===== verification/TournamentInv.v ===== *)
(** The well-formedness of tournament records, kept by every change: distinct
    eligible entrants in join order, submission numbers without gaps, scores
    in range, and for each status exactly the fields it fixes. *)

From S2P Require Import Prelude GoStd Paxos Ledger Game Records Codec Compute State Changes.

(** * The record invariant *)

Definition entry_id (e : Entry) : PlayerID := pl_id (e_player e).
Definition scored_entries (t : Tournament) : list Entry := List.filter e_scored (t_entries t).

Record entry_ok (t : Tournament) (i : nat) (e : Entry) : Prop := {
  eo_seq : e_join_seq e = Z.of_nat i + 1;
  eo_id : validID (entry_id e) = true;
  eo_score : e_scored e = true -> 0 <= e_score e <= r_max_score (t_rules t);
  eo_unscored : e_scored e = false -> e_score e = 0 /\ e_submit_seq e = 0;
  eo_excluded : Contains (r_exclusions (t_rules t)) (pl_jurisdiction (e_player e)) = false;
  eo_age : r_min_age (t_rules t) <= pl_age (e_player e);
}.

(** What Close computed is in the record. *)
Definition closed_fields (t : Tournament) : Prop :=
  t_standings t = Some (ComputeStandings t) /\ (t_fees t, t_rake t, t_pool t) = ComputePool t.

(** The fields each status fixes. *)
Definition phase_ok (t : Tournament) : Prop :=
  match t_status t with
  | Open => t_standings t = None /\ t_payouts t = None /\ t_fees t = 0 /\ t_rake t = 0 /\ t_pool t = 0 /\
            t_closed_at t = 0 /\ t_settled_at t = 0
  | Closed => Voids t = false /\ closed_fields t /\ t_payouts t = None /\ t_settled_at t = 0
  | Voided => Voids t = true /\ closed_fields t /\ t_payouts t = None /\ t_settled_at t = 0
  | Settled => closed_fields t /\ exists ex, exclusions_ok ex /\ t_payouts t = Some (ComputePayouts t ex)
  end.

Record tournament_ok (k : TournamentID) (t : Tournament) : Prop := {
  to_id : t_id t = k;
  to_valid : validID k = true;
  to_rules : rules_ok (t_rules t);
  to_canonical : canonicalExclusions (r_exclusions (t_rules t)) = r_exclusions (t_rules t);
  to_full : len (t_entries t) <= r_max_entrants (t_rules t);
  to_nodup : NoDup (map entry_id (t_entries t));
  to_entries : forall i e, t_entries t !! i = Some e -> entry_ok t i e;
  to_seqs : map e_submit_seq (scored_entries t) ≡ₚ map Z.of_nat (seq 1 (length (scored_entries t)));
  to_phase : phase_ok t;
}.

(** * Entries *)

Lemma find_entry_None t id : find_entry t id = None <-> id ∉ map entry_id (t_entries t).
Proof.
  unfold find_entry. induction (t_entries t) as [|e es IH]; simpl; [split; [by intros _ ?%not_elem_of_nil|done]|].
  destruct (String.eqb_spec (pl_id (e_player e)) id) as [<-|Hn].
  - split; [done|]. intros H. destruct H. by left.
  - rewrite IH, not_elem_of_cons. unfold entry_id. naive_solver.
Qed.

Lemma find_entry_Some t id e :
  NoDup (map entry_id (t_entries t)) -> find_entry t id = Some e <-> e ∈ t_entries t /\ entry_id e = id.
Proof.
  unfold find_entry. induction (t_entries t) as [|x es IH]; simpl; intros N.
  - split; [done|]. by intros [?%not_elem_of_nil _].
  - apply NoDup_cons in N as [Hx N]. destruct (String.eqb_spec (pl_id (e_player x)) id) as [E|Hn].
    + split; [intros [= <-]; split; [by left|done]|]. intros [[->|He]%elem_of_cons Hid]; [done|].
      destruct Hx. rewrite list_elem_of_fmap. exists e. unfold entry_id in *. by rewrite E, Hid.
    + rewrite IH by done. rewrite elem_of_cons. unfold entry_id in *. naive_solver.
Qed.

Lemma find_entry_is_Some t id : is_Some (find_entry t id) <-> id ∈ map entry_id (t_entries t).
Proof.
  rewrite <- not_eq_None_Some, find_entry_None. destruct (decide (id ∈ map entry_id (t_entries t))); tauto.
Qed.

Lemma entry_index_from_spec i es id :
  match entry_index_from i es id with
  | Some j => exists e, es !! (j - i)%nat = Some e /\ (i <= j)%nat /\ entry_id e = id
  | None => id ∉ map entry_id es
  end.
Proof.
  revert i. induction es as [|e es IH]; intros i; simpl; [apply not_elem_of_nil|].
  destruct (String.eqb_spec (pl_id (e_player e)) id) as [E|Hn].
  - exists e. by rewrite Nat.sub_diag.
  - specialize (IH (S i)). destruct (entry_index_from (S i) es id) as [j|].
    + destruct IH as (e' & He & Hj & Hid). exists e'. replace (j - i)%nat with (S (j - S i)) by lia.
      split_and!; [done|lia|done].
    + rewrite not_elem_of_cons. unfold entry_id at 1. naive_solver.
Qed.

Lemma entry_index_Some t id i : entry_index t id = Some i ->
  exists e, t_entries t !! i = Some e /\ entry_id e = id.
Proof.
  unfold entry_index. intros H. pose proof (entry_index_from_spec 0 (t_entries t) id) as S. rewrite H in S.
  destruct S as (e & He & _ & Hid). rewrite Nat.sub_0_r in He. eauto.
Qed.

Lemma entry_index_is_Some t id : is_Some (entry_index t id) <-> is_Some (find_entry t id).
Proof.
  rewrite find_entry_is_Some. unfold entry_index. pose proof (entry_index_from_spec 0 (t_entries t) id) as S.
  destruct (entry_index_from 0 (t_entries t) id) as [j|].
  - destruct S as (e & He & _ & <-). split; [|eauto]. intros _. apply list_elem_of_fmap.
    exists e. split; [done|]. by eapply list_elem_of_lookup_2.
  - split; [by intros [? ?]|done].
Qed.

(** * Scoring one entry *)

Lemma filter_insert_scored (es : list Entry) i e e' :
  es !! i = Some e -> e_scored e = false -> e_scored e' = true ->
  List.filter e_scored (<[i := e']> es) ≡ₚ e' :: List.filter e_scored es.
Proof.
  intros Hi He He'. pose proof (insert_Permutation es i e e' Hi) as Hp.
  assert (Hf : List.filter e_scored (e :: <[i := e']> es) ≡ₚ List.filter e_scored (e' :: es)).
  { by apply filter_Permutation. }
  simpl in Hf. by rewrite He, He' in Hf.
Qed.

Definition scored_count (es : list Entry) : Z := len (List.filter e_scored es).

(** [mark_scored] on an unscored entry: the next submission number, no wrap. *)
Lemma mark_scored_spec t i e score digest :
  t_entries t !! i = Some e -> e_scored e = false -> len (t_entries t) < 2 ^ 32 ->
  mark_scored t i score digest =
    Some (set_entries t (<[i := scored_entry e score (ScoredCount t + 1) digest]> (t_entries t))).
Proof.
  intros Hi He Hl. unfold mark_scored. rewrite Hi. simpl. do 3 f_equal.
  assert (Hs : ScoredCount (set_entries t (<[i:=scored_entry e score (e_submit_seq e) digest]> (t_entries t)))
               = ScoredCount t + 1).
  { unfold ScoredCount. cbn [set_entries t_entries].
    rewrite (len_Permutation _ _ (filter_insert_scored (t_entries t) i e
      (scored_entry e score (e_submit_seq e) digest) Hi He eq_refl)). by rewrite len_cons. }
  rewrite Hs, u32_id; [done|]. rewrite <- Hs. unfold ScoredCount, in_u32. simpl.
  set (es := <[i:=_]> (t_entries t)).
  pose proof (List.filter_length_le e_scored es) as Hf. unfold len in *. unfold es in *.
  rewrite length_insert in Hf. lia.
Qed.

(** * Preservation *)

Lemma new_tournament_ok slot id seed r :
  validID id = true -> rules_ok r -> canonicalExclusions (r_exclusions r) = r_exclusions r ->
  tournament_ok id (new_tournament slot id seed r).
Proof.
  intros Hv Hr Hc. split; simpl; try done.
  - pose proof (ro_max r Hr). pose proof (ro_min r Hr). pose proof (len_nonneg (r_prize_bps r)).
    change (len []) with 0. lia.
  - constructor.
Qed.

(** What [admit_entrant] checked. *)
Lemma admit_refusal_None `{U : Unicode} t player : admit_refusal t player = None <->
  t_status t = Open /\ len (t_entries t) < r_max_entrants (t_rules t) /\ find_entry t (pl_id player) = None /\
  Contains (r_exclusions (t_rules t)) (pl_jurisdiction player) = false /\ r_min_age (t_rules t) <= pl_age player.
Proof.
  unfold admit_refusal. rewrite (eq_None_not_Some (find_entry t _)).
  case_bool_decide; simpl; [|naive_solver].
  destruct (Z.leb_spec (r_max_entrants (t_rules t)) (len (t_entries t))); [naive_solver lia|].
  case_bool_decide as Hf; [naive_solver|].
  destruct (Contains _ _); [naive_solver|].
  destruct (Z.ltb_spec (pl_age player) (r_min_age (t_rules t))); [naive_solver lia|]. naive_solver lia.
Qed.

Lemma open_phase t : phase_ok t -> t_status t = Open ->
  t_standings t = None /\ t_payouts t = None /\ t_fees t = 0 /\ t_rake t = 0 /\ t_pool t = 0 /\
  t_closed_at t = 0 /\ t_settled_at t = 0.
Proof. unfold phase_ok. intros H E. by rewrite E in H. Qed.

Lemma entries_len k t : tournament_ok k t -> len (t_entries t) <= 1000000.
Proof.
  intros W. pose proof (to_full k t W). pose proof (ro_max _ (to_rules k t W)).
  unfold MaxEntrantsBound in *. lia.
Qed.

Lemma admit_entry_ok `{U : Unicode} k t player :
  tournament_ok k t -> admit_refusal t player = None -> validID (pl_id player) = true ->
  entry_ok t (length (t_entries t)) (admit_entry t player).
Proof.
  intros W H Hv. apply admit_refusal_None in H as (_ & Hl & _ & Hx & Ha). pose proof (entries_len k t W).
  split; simpl; try done. apply u32_id. unfold in_u32, len in *. lia.
Qed.

Lemma admit_ok `{U : Unicode} k t player :
  tournament_ok k t -> admit_refusal t player = None -> validID (pl_id player) = true ->
  tournament_ok k (set_entries t (t_entries t ++ [admit_entry t player])).
Proof.
  intros W H Hv. pose proof (admit_entry_ok k t player W H Hv) as He.
  apply admit_refusal_None in H as (Ho & Hl & Hf & _ & _).
  destruct W as [W1 W2 W3 W4 W5 W6 W7 W8 W9]. split; simpl; auto.
  - rewrite len_app. change (len [_]) with 1. lia.
  - rewrite map_app. simpl. apply NoDup_app. split_and!; [done| |apply NoDup_singleton].
    intros x Hx ->%list_elem_of_singleton. by apply find_entry_None in Hf.
  - intros i e [Hi|[Hi Hs]]%lookup_app_Some; [by destruct (W7 i e Hi)|].
    apply list_lookup_singleton_Some in Hs as [Hi' <-].
    replace i with (length (t_entries t)) by lia. by destruct He.
  - unfold scored_entries in *. simpl. rewrite List.filter_app. simpl. by rewrite app_nil_r.
  - unfold phase_ok in *. simpl. by rewrite Ho in *.
Qed.

Lemma mark_scored_ok k t t' i e score digest :
  tournament_ok k t -> t_status t = Open -> t_entries t !! i = Some e -> e_scored e = false ->
  0 <= score <= r_max_score (t_rules t) -> mark_scored t i score digest = Some t' ->
  tournament_ok k t'.
Proof.
  intros W Ho Hi He Hs Hm. pose proof (entries_len k t W) as Hlen.
  rewrite (mark_scored_spec t i e score digest Hi He) in Hm by lia. injection Hm as <-.
  set (e' := scored_entry e score (ScoredCount t + 1) digest).
  assert (Hid : map entry_id (<[i := e']> (t_entries t)) = map entry_id (t_entries t)).
  { rewrite list_fmap_insert. apply list_insert_id. by rewrite list_lookup_fmap, Hi. }
  pose proof (filter_insert_scored (t_entries t) i e e' Hi He eq_refl) as Hp.
  destruct W as [W1 W2 W3 W4 W5 W6 W7 W8 W9]. split; simpl; auto.
  - unfold len. by rewrite length_insert.
  - by rewrite Hid.
  - intros j x [(<- & <- & _)|[Hne Hx]]%list_lookup_insert_Some; [|by destruct (W7 j x Hx)].
    destruct (W7 i e Hi). split; simpl; auto. done.
  - unfold scored_entries in *. cbn [set_entries t_entries]. rewrite Hp. cbn [map length]. rewrite seq_S, map_app, W8.
    unfold ScoredCount. simpl. rewrite <- Permutation_cons_append. unfold len.
    replace (Z.of_nat (S (length (List.filter e_scored (t_entries t))))) with
      (Z.of_nat (length (List.filter e_scored (t_entries t))) + 1) by lia. done.
  - unfold phase_ok in *. simpl. by rewrite Ho in *.
Qed.

(** Close and Settle keep the entries and the rules, on which the
    computations depend. *)
Lemma computed_ext t t' :
  t_id t' = t_id t -> t_entries t' = t_entries t -> t_rules t' = t_rules t ->
  Voids t' = Voids t /\ ComputeStandings t' = ComputeStandings t /\ ComputePool t' = ComputePool t /\
  (t_standings t' = t_standings t -> forall ex, ComputePayouts t' ex = ComputePayouts t ex).
Proof.
  intros Hi He Hr. assert (Hv : Voids t' = Voids t) by (unfold Voids, ScoredCount; by rewrite He, Hr).
  assert (Hs : ComputeStandings t' = ComputeStandings t) by (unfold ComputeStandings; by rewrite He, Hr).
  assert (Hp : ComputePool t' = ComputePool t) by (unfold ComputePool; by rewrite Hv, He, Hr).
  split_and!; [done..|]. intros Hst ex. unfold ComputePayouts. rewrite Hv, Hp, Hst, He, Hr, Hs.
  unfold refund_payout, prize_payout, find_entry. by rewrite He, Hi, Hr.
Qed.

Lemma close_record_fields t st sd m slot :
  let t' := close_record t st sd m slot in
  t_id t' = t_id t /\ t_entries t' = t_entries t /\ t_rules t' = t_rules t /\ t_status t' = st /\
  t_standings t' = Some sd /\ (t_fees t', t_rake t', t_pool t') = m /\ t_payouts t' = t_payouts t /\
  t_settled_at t' = t_settled_at t /\ t_closed_at t' = slot.
Proof. unfold close_record. by destruct m as [[f r] p]. Qed.

Lemma close_ok k t slot :
  tournament_ok k t -> t_status t = Open ->
  tournament_ok k (close_record t (if Voids t then Voided else Closed) (ComputeStandings t) (ComputePool t) slot).
Proof.
  intros W Ho. destruct (open_phase t (to_phase k t W) Ho) as (_ & Hp & _ & _ & _ & _ & Hsa).
  destruct (close_record_fields t (if Voids t then Voided else Closed) (ComputeStandings t) (ComputePool t) slot)
    as (F1 & F2 & F3 & F4 & F5 & F6 & F7 & F8 & F9).
  set (t' := close_record _ _ _ _ _) in *.
  destruct (computed_ext t t' F1 F2 F3) as (C1 & C2 & C3 & _).
  destruct W as [W1 W2 W3 W4 W5 W6 W7 W8 W9]. split; unfold scored_entries; rewrite ?F1, ?F2, ?F3; auto.
  - intros i e Hi. destruct (W7 i e Hi). split; rewrite ?F3; auto.
  - unfold phase_ok, closed_fields. rewrite F4, C1, C2, C3, F5, F6, F7, F8. by destruct (Voids t).
Qed.

Lemma settle_ok k t ex slot ballot :
  tournament_ok k t -> t_status t = Closed \/ t_status t = Voided -> exclusions_ok ex ->
  tournament_ok k (settle_record t (ComputePayouts t ex) slot ballot).
Proof.
  intros W Hst Hx. assert (Hc : closed_fields t).
  { pose proof (to_phase k t W) as Hp. unfold phase_ok in Hp. destruct Hst as [E|E]; rewrite E in Hp; tauto. }
  destruct W as [W1 W2 W3 W4 W5 W6 W7 W8 W9]. split; simpl; auto.
  - intros i e Hi. destruct (W7 i e Hi). by split.
  - unfold phase_ok. simpl. split; [exact Hc|]. exists ex. by split.
Qed.

(** * All records *)

Definition tournaments_ok (s : State) : Prop :=
  (forall k t, tournaments s !! k = Some t -> tournament_ok k t) /\
  NoDup (order s) /\ (forall k, k ∈ order s <-> is_Some (tournaments s !! k)).
