(* ===== verification/PlayInv.v ===== *)
(** The invariants of the play state: device bindings and player records
    agree, every round belongs to an entry of a play tournament and replays to
    the board its record describes, rounds follow one another, and a scored
    entry's score is the total of its finished rounds. *)

From S2P Require Import Prelude GoStd Paxos Ledger Game Records Codec Compute State Changes TournamentInv.

(** * Progress *)

(** What round [r] adds to an entry's total. *)
Definition round_score (rs : gmap roundKey RoundRecord) (k : TournamentID) (p : PlayerID) (r : Z) : Z :=
  match rs !! (k, p, r) with
  | Some rec => if String.eqb (rr_status rec) RoundDone then rr_score rec else 0
  | None => 0
  end.

Definition total_score (rs : gmap roundKey RoundRecord) (k : TournamentID) (p : PlayerID) : Z :=
  round_score rs k p 1 + round_score rs k p 2 + round_score rs k p 3.

Definition scores_bounded (rs : gmap roundKey RoundRecord) : Prop :=
  forall key rec, rs !! key = Some rec -> 0 <= rr_score rec <= MaxRoundScore.

Lemma round_score_bounds rs k p r : scores_bounded rs -> 0 <= round_score rs k p r <= MaxRoundScore.
Proof.
  intros B. unfold round_score. destruct (rs !! (k, p, r)) as [rec|] eqn:E; [|by vm_compute].
  case_goal; [by apply (B _ _ E)|by vm_compute].
Qed.

(** 1 when round [r] was dealt. *)
Definition dealt (rs : gmap roundKey RoundRecord) (k : TournamentID) (p : PlayerID) (r : Z) : Z :=
  match rs !! (k, p, r) with Some _ => 1 | None => 0 end.

(** One step of the loop of [Progress]. *)
Lemma progress_step_total p k pid acc r :
  in_i64 (pg_total acc.2) ->
  pg_total (progress_step p k pid acc r).2 = i64 (pg_total acc.2 + round_score (rounds p) k pid r) /\
  pg_dealt (progress_step p k pid acc r).2 = pg_dealt acc.2 + dealt (rounds p) k pid r.
Proof.
  intros B. unfold progress_step, round_score, dealt. destruct acc as [next out].
  destruct (rounds p !! (k, pid, r)) as [rec|]; [case_goal|]; simpl in *;
    rewrite ?Z.add_0_r, ?i64_id by done; auto.
Qed.

(** The loop of [Progress] sums the finished rounds and counts the dealt ones. *)
Lemma Progress_loop p k pid :
  pg_total (Progress p k pid) = i64 (total_score (rounds p) k pid) /\
  pg_dealt (Progress p k pid) = dealt (rounds p) k pid 1 + dealt (rounds p) k pid 2 + dealt (rounds p) k pid 3.
Proof.
  unfold Progress. cbn [foldl]. set (a0 := (0, mkProgress 0 0 0 0 0 0)).
  destruct (progress_step_total p k pid a0 1) as [T1 D1]; [done|].
  destruct (progress_step_total p k pid (progress_step p k pid a0 1) 2) as [T2 D2]; [rewrite T1; apply i64_range|].
  destruct (progress_step_total p k pid (progress_step p k pid (progress_step p k pid a0 1) 2) 3) as [T3 D3];
    [rewrite T2; apply i64_range|].
  rewrite T1, i64_add_l in T2. rewrite T2, i64_add_l in T3. rewrite D2, D1 in D3.
  change (pg_total a0.2) with 0 in T3. change (pg_dealt a0.2) with 0 in D3.
  destruct (progress_step p k pid (progress_step p k pid (progress_step p k pid a0 1) 2) 3) as [next out].
  cbn [snd] in T3, D3. unfold total_score.
  destruct (pg_in_play out =? 0); cbn [pg_total pg_dealt]; rewrite T3, D3; (split; [f_equal; lia|lia]).
Qed.

Lemma Progress_total p k pid : scores_bounded (rounds p) ->
  pg_total (Progress p k pid) = total_score (rounds p) k pid /\
  0 <= total_score (rounds p) k pid <= MaxTotalScore.
Proof.
  intros B. assert (H : 0 <= total_score (rounds p) k pid <= MaxTotalScore).
  { unfold total_score, MaxTotalScore, Rounds. pose proof (round_score_bounds _ k pid 1 B).
    pose proof (round_score_bounds _ k pid 2 B). pose proof (round_score_bounds _ k pid 3 B). lia. }
  split; [|done]. rewrite (proj1 (Progress_loop p k pid)). apply i64_id. unfold in_i64.
  change MaxTotalScore with 14400 in H. lia.
Qed.

(** * The invariants *)

Definition bindings_ok (p : playState) : Prop :=
  (forall d b, bindings p !! d = Some b ->
     b_device b = d /\ exists ps, players p !! b_player b = Some ps /\ pr_binding (pst_rec ps) = b) /\
  (forall id ps, players p !! id = Some ps ->
     let b := pr_binding (pst_rec ps) in
     b_player b = id /\ bindings p !! b_device b = Some b /\
     validID id = true /\ validJurisdiction (b_jurisdiction b) = true /\ 0 <= b_age b <= 150 /\
     0 <= pr_last_seq (pst_rec ps) < 2 ^ 64).

Section Rounds.
Context (fuel : nat).

(** The board a record describes. *)
Definition board_of (rec : RoundRecord) (b : Board) : Prop :=
  Replay fuel (rr_seed rec) (rr_moves rec) = Some (b, None).

Record round_ok (ts : gmap TournamentID Tournament) (rs : gmap roundKey RoundRecord)
    (k : TournamentID) (p : PlayerID) (r : Z) (rec : RoundRecord) : Prop := {
  rk_fields : rr_tournament rec = k /\ rr_player rec = p /\ rr_round rec = r;
  rk_range : 1 <= r <= 3;
  rk_status : rr_status rec = RoundInPlay \/ rr_status rec = RoundDone;
  rk_board : exists b, board_of rec b /\
    (rr_status rec = RoundDone -> rr_cleared rec = Cleared b /\ rr_score rec = Score b) /\
    (rr_status rec <> RoundDone -> rr_score rec = 0);
  rk_entry : exists t, ts !! k = Some t /\ r_game (t_rules t) <> "" /\ is_Some (find_entry t p) /\
    (rr_status rec <> RoundDone -> t_status t = Open);
  rk_prev : 1 < r -> exists prev, rs !! (k, p, r - 1) = Some prev /\ rr_status prev = RoundDone;
}.

Definition rounds_ok (ts : gmap TournamentID Tournament) (rs : gmap roundKey RoundRecord) : Prop :=
  forall k p r rec, rs !! (k, p, r) = Some rec -> round_ok ts rs k p r rec.

Lemma board_of_wf rec b : board_of rec b -> board_wf b.
Proof.
  unfold board_of, Replay. destruct (Deal fuel (rr_seed rec)) as [b0|] eqn:D; [|done]. simpl. intros H.
  destruct (replay_from_wf 0 b0 (rr_moves rec) (Deal_wf _ _ _ D)) as (b' & e & H' & W & _). congruence.
Qed.

Lemma rounds_ok_bounded ts rs : rounds_ok ts rs -> scores_bounded rs.
Proof.
  intros R [[k p] r] rec H. destruct (rk_board _ _ _ _ _ _ (R k p r rec H)) as (b & Hb & Hd & Hi).
  destruct (decide (rr_status rec = RoundDone)) as [E|E].
  - destruct (Hd E) as [_ ->]. apply Score_bounds. by apply (board_of_wf rec).
  - rewrite (Hi E). by vm_compute.
Qed.

(** Replacing a tournament record by one with the same rules and at least the
    same entrants, which stays open while a round is in play. *)
Lemma rounds_ok_put ts rs k t t' :
  ts !! k = Some t -> t_rules t' = t_rules t ->
  (forall id, is_Some (find_entry t id) -> is_Some (find_entry t' id)) ->
  (t_status t = Open -> t_status t' = Open \/ forall p r rec, rs !! (k, p, r) = Some rec -> rr_status rec = RoundDone) ->
  rounds_ok ts rs -> rounds_ok (<[k := t']> ts) rs.
Proof.
  intros Ht Hr He Hs R k' p r rec H. destruct (R k' p r rec H) as [F1 F2 F3 F4 (x & Hx & Hg & Hj & Ho) F6].
  split; auto. destruct (decide (k = k')) as [<-|Hk].
  - exists t'. rewrite lookup_insert_eq. simplify_eq. rewrite Hr. split_and!; auto.
    intros Hn. specialize (Ho Hn). destruct (Hs Ho) as [|Hd]; [done|]. destruct Hn. eauto.
  - exists x. by rewrite lookup_insert_ne.
Qed.

Lemma rounds_ok_create ts rs k t : ts !! k = None -> rounds_ok ts rs -> rounds_ok (<[k := t]> ts) rs.
Proof.
  intros Hk R k' p r rec H. destruct (R k' p r rec H) as [F1 F2 F3 F4 (x & Hx & Hq) F6]. split; auto.
  exists x. rewrite lookup_insert_ne by congruence. auto.
Qed.

(** Replacing the record of a round in play. *)
Lemma rounds_ok_update ts rs k p r rec rec' :
  rs !! (k, p, r) = Some rec -> rr_status rec <> RoundDone ->
  (rr_tournament rec', rr_player rec', rr_round rec') = (rr_tournament rec, rr_player rec, rr_round rec) ->
  rr_status rec' = rr_status rec \/ rr_status rec' = RoundDone ->
  (exists b, board_of rec' b /\ (rr_status rec' = RoundDone -> rr_cleared rec' = Cleared b /\ rr_score rec' = Score b) /\
     (rr_status rec' <> RoundDone -> rr_score rec' = rr_score rec)) ->
  rounds_ok ts rs -> rounds_ok ts (<[(k, p, r) := rec']> rs).
Proof.
  intros Hrec Hn Hf Hst Hb R. simplify_eq. assert (Hprev : forall k' p' r', 1 < r' ->
    (exists prev, rs !! (k', p', r' - 1) = Some prev /\ rr_status prev = RoundDone) ->
    exists prev, <[(k, p, r) := rec']> rs !! (k', p', r' - 1) = Some prev /\ rr_status prev = RoundDone).
  { intros k' p' r' _ (prev & Hp & Hd). exists prev. split; [|done].
    rewrite lookup_insert_ne; [done|]. intros E. rewrite <- E in Hp. congruence. }
  intros k' p' r' x Hx. rewrite lookup_insert in Hx. case_decide as Hk; simplify_eq.
  - destruct (R _ _ _ _ Hrec) as [(F1 & F1' & F1'') F2 F3 (b0 & _ & _ & Hi) (t & Ht & Hg & Hj & Ho) F6].
    split; auto.
    + split_and!; congruence.
    + destruct Hst as [->|]; auto.
    + destruct Hb as (b & Hb & Hd & Hi'). exists b. split_and!; auto. intros E. rewrite Hi' by done. auto.
    + exists t. auto.
  - destruct (R _ _ _ _ Hx) as [F1 F2 F3 F4 F5 F6]. split; auto.
Qed.

Lemma rounds_ok_deal ts rs k p r rec t :
  rs !! (k, p, r) = None -> ts !! k = Some t -> r_game (t_rules t) <> "" -> is_Some (find_entry t p) ->
  t_status t = Open -> 1 <= r <= 3 ->
  (1 < r -> exists prev, rs !! (k, p, r - 1) = Some prev /\ rr_status prev = RoundDone) ->
  rr_tournament rec = k -> rr_player rec = p -> rr_round rec = r -> rr_status rec = RoundInPlay ->
  rr_score rec = 0 -> (exists b, board_of rec b) -> rounds_ok ts rs -> rounds_ok ts (<[(k, p, r) := rec]> rs).
Proof.
  intros Hnew Ht Hg Hj Ho Hr Hp <- <- <- Hs Hz [b Hb] R.
  assert (Hprev : forall k' p' r',
    (exists prev, rs !! (k', p', r') = Some prev /\ rr_status prev = RoundDone) ->
    exists prev, <[(rr_tournament rec, rr_player rec, rr_round rec) := rec]> rs !! (k', p', r') = Some prev
      /\ rr_status prev = RoundDone).
  { intros k' p' r' (prev & Hpr & Hd). exists prev. split; [|done]. rewrite lookup_insert_ne; [done|]. congruence. }
  intros k' p' r' x Hx. rewrite lookup_insert in Hx. case_decide as Hk; simplify_eq.
  - split; auto.
    + exists b. split_and!; auto. rewrite Hs. done.
    + exists t. auto.
  - destruct (R _ _ _ _ Hx) as [F1 F2 F3 F4 F5 F6]. split; auto.
Qed.
End Rounds.

Definition entered_ok (ts : gmap TournamentID Tournament) (ps : gmap PlayerID playerState) : Prop :=
  forall id x k, ps !! id = Some x -> k ∈ pst_entered x ->
    exists t, ts !! k = Some t /\ is_Some (find_entry t id).

(** A scored entry of a play tournament; [closing] is exempt from having its
    last round dealt. *)
Definition scored_ok (closing : option TournamentID) (ts : gmap TournamentID Tournament)
    (rs : gmap roundKey RoundRecord) : Prop :=
  forall k t e, ts !! k = Some t -> r_game (t_rules t) <> "" -> e ∈ t_entries t -> e_scored e = true ->
    (forall r rec, rs !! (k, entry_id e, r) = Some rec -> rr_status rec = RoundDone) /\
    e_score e = total_score rs k (entry_id e) /\
    (t_status t = Open -> closing <> Some k -> is_Some (rs !! (k, entry_id e, 3))).

Lemma scored_ok_put closing ts rs k t t' :
  ts !! k = Some t -> t_rules t' = t_rules t -> (t_status t' = Open -> t_status t = Open) ->
  (forall e, e ∈ t_entries t' -> e_scored e = true -> e ∈ t_entries t \/
     (r_game (t_rules t) <> "" ->
      (forall r rec, rs !! (k, entry_id e, r) = Some rec -> rr_status rec = RoundDone) /\
      e_score e = total_score rs k (entry_id e) /\
      (closing = Some k \/ is_Some (rs !! (k, entry_id e, 3))))) ->
  scored_ok closing ts rs -> scored_ok closing (<[k := t']> ts) rs.
Proof.
  intros Ht Hr Hs He S k' x e Hx Hg Hin Hsc. rewrite lookup_insert in Hx. case_decide as Hk; simplify_eq; [|eauto].
  rewrite Hr in Hg. destruct (He e Hin Hsc) as [Hold|Hnew].
  - destruct (S k' t e Ht Hg Hold Hsc) as (S1 & S2 & S3). eauto.
  - destruct (Hnew Hg) as (S1 & S2 & S3). split_and!; auto. intros _ Hc. by destruct S3.
Qed.

Lemma scored_ok_create closing ts rs k t :
  ts !! k = None -> t_entries t = [] -> scored_ok closing ts rs -> scored_ok closing (<[k := t]> ts) rs.
Proof.
  intros Hk He S k' x e Hx Hg Hin Hsc. rewrite lookup_insert in Hx. case_decide; simplify_eq; [|eauto].
  rewrite He in Hin. by apply not_elem_of_nil in Hin.
Qed.

(** Changing a round of an entry that is not scored. *)
Lemma scored_ok_round closing ts rs k p r rec :
  (forall t, ts !! k = Some t -> entry_unscored t p) ->
  scored_ok closing ts rs -> scored_ok closing ts (<[(k, p, r) := rec]> rs).
Proof.
  intros Hu S k' t e Ht Hg Hin Hsc. destruct (S k' t e Ht Hg Hin Hsc) as (S1 & S2 & S3).
  assert (Hne : forall r', (k, p, r) <> (k', entry_id e, r')).
  { intros r' E. simplify_eq. specialize (Hu t Ht e Hin eq_refl). congruence. }
  split_and!.
  - intros r' x. rewrite lookup_insert_ne by apply Hne. eauto.
  - rewrite S2. unfold total_score, round_score. by rewrite !lookup_insert_ne by apply Hne.
  - intros Ho Hc. rewrite lookup_insert_ne by apply Hne. auto.
Qed.

(** A round in play belongs to an entry that is not scored. *)
Lemma in_play_unscored closing ts rs k t p r rec :
  scored_ok closing ts rs -> ts !! k = Some t -> r_game (t_rules t) <> "" ->
  rs !! (k, p, r) = Some rec -> rr_status rec <> RoundDone -> entry_unscored t p.
Proof.
  intros S Ht Hg Hr Hn e Hin Hid. destruct (e_scored e) eqn:E; [|done].
  destruct (S k t e Ht Hg Hin E) as (S1 & _). unfold entry_id in S1. rewrite Hid in S1. by destruct Hn; eauto.
Qed.

Lemma entered_ok_put ts ps k t t' :
  ts !! k = Some t -> (forall id, is_Some (find_entry t id) -> is_Some (find_entry t' id)) ->
  entered_ok ts ps -> entered_ok (<[k := t']> ts) ps.
Proof.
  intros Ht He E id x k' Hx Hk. destruct (E id x k' Hx Hk) as (y & Hy & Hj).
  destruct (decide (k = k')) as [<-|Hne].
  - exists t'. rewrite lookup_insert_eq. simplify_eq. auto.
  - exists y. by rewrite lookup_insert_ne.
Qed.

Lemma entered_ok_player ts ps id x :
  (forall k, k ∈ pst_entered x -> exists t, ts !! k = Some t /\ is_Some (find_entry t id)) ->
  entered_ok ts ps -> entered_ok ts (<[id := x]> ps).
Proof.
  intros Hx E id' y k Hy Hk. rewrite lookup_insert in Hy. case_decide; simplify_eq; eauto.
Qed.

(** ** Entrants are never lost *)

Lemma find_entry_snoc t e id :
  is_Some (find_entry t id) -> is_Some (find_entry (set_entries t (t_entries t ++ [e])) id).
Proof.
  rewrite !find_entry_is_Some. simpl. rewrite map_app, elem_of_app. auto.
Qed.

Lemma mark_scored_entries t t' i e score digest :
  t_entries t !! i = Some e -> mark_scored t i score digest = Some t' ->
  t_id t' = t_id t /\ t_rules t' = t_rules t /\ t_status t' = t_status t /\
  map entry_id (t_entries t') = map entry_id (t_entries t) /\
  (forall x, x ∈ t_entries t' -> x ∈ t_entries t \/
     (entry_id x = entry_id e /\ e_score x = score)) /\
  (exists x, t_entries t' !! i = Some x /\ e_scored x = true) /\
  (forall j, j <> i -> t_entries t' !! j = t_entries t !! j).
Proof.
  unfold mark_scored. intros Hi. rewrite Hi. intros Hm. injection Hm as <-. simpl. split_and!; auto.
  - rewrite list_fmap_insert. apply list_insert_id. by rewrite list_lookup_fmap, Hi.
  - intros x [j Hx]%list_elem_of_lookup. apply list_lookup_insert_Some in Hx as [(<- & <- & _)|[_ Hx]]; auto.
    left. by eapply list_elem_of_lookup_2.
  - eexists. split; [apply list_lookup_insert_eq; by eapply lookup_lt_Some|done].
  - intros j Hj. by rewrite list_lookup_insert_ne.
Qed.

Lemma find_entry_same_ids t t' id :
  map entry_id (t_entries t') = map entry_id (t_entries t) ->
  is_Some (find_entry t id) -> is_Some (find_entry t' id).
Proof. rewrite !find_entry_is_Some. by intros ->. Qed.

(** * Preservation *)

Section Preservation.
Context `{U : Unicode} (fuel : nat) (slot : Slot) (ballot : Ballot) (closing : option TournamentID).

Record play_inv (s : State) : Prop := {
  pv_bindings : bindings_ok (play s);
  pv_rounds : rounds_ok fuel (tournaments s) (rounds (play s));
  pv_entered : entered_ok (tournaments s) (players (play s));
  pv_scored : scored_ok closing (tournaments s) (rounds (play s));
}.

Lemma validRound_spec r : validRound r = true <-> 1 <= r <= 3.
Proof. unfold validRound, Rounds. rewrite andb_true_iff, !Z.leb_le. lia. Qed.

Lemma previous_unfinished_spec s t k pid round :
  t_id t = k -> previous_unfinished s t pid round = false <->
  (1 < round -> exists prev, rounds (play s) !! (k, pid, round - 1) = Some prev /\ rr_status prev = RoundDone).
Proof.
  intros <-. unfold previous_unfinished. destruct (Z.ltb_spec 1 round); simpl.
  - destruct (rounds (play s) !! _) as [prev|].
    + rewrite negb_false_iff, String.eqb_eq. split; [eauto|]. intros Hp. destruct Hp as (x & ? & ?); [done|]. by simplify_eq.
    + split; [done|]. intros Hp. by destruct Hp as (x & ? & ?).
  - split; [lia|done].
Qed.

(** A change of tournament [k] that keeps its rules and entrants and does not
    score anybody keeps the play invariant. *)
Lemma play_inv_put s s' k t t' :
  play s' = play s -> tournaments s' = <[k := t']> (tournaments s) ->
  tournaments s !! k = Some t -> t_rules t' = t_rules t -> 
  (forall id, is_Some (find_entry t id) -> is_Some (find_entry t' id)) ->
  (t_status t = Open -> t_status t' = Open \/ no_round_in_play s k) ->
  (t_status t' = Open -> t_status t = Open) ->
  (forall e, e ∈ t_entries t' -> e_scored e = true -> e ∈ t_entries t \/
     (r_game (t_rules t) <> "" ->
      no_entry_in_play s k (entry_id e) /\ e_score e = total_score (rounds (play s)) k (entry_id e) /\
      (closing = Some k \/ is_Some (rounds (play s) !! (k, entry_id e, 3))))) ->
  play_inv s -> play_inv s'.
Proof.
  intros Hp Ht' Ht Hr He Ho Ho' Hs [P1 P2 P3 P4]. split; rewrite ?Hp, ?Ht'; [done|..].
  - by apply (rounds_ok_put fuel _ _ k t t').
  - by apply (entered_ok_put _ _ k t t').
  - by apply (scored_ok_put closing _ _ k t t').
Qed.

Lemma bindings_ok_update p id x x' :
  players p !! id = Some x -> pr_binding (pst_rec x') = pr_binding (pst_rec x) ->
  0 <= pr_last_seq (pst_rec x') < 2 ^ 64 -> bindings_ok p -> bindings_ok (put_player p id x').
Proof.
  intros Hx Hb Hs [B1 B2]. split; simpl.
  - intros d b Hd. destruct (B1 d b Hd) as (E & ps & Hp & Hpb). split; [done|].
    rewrite lookup_insert. case_decide as Hid; [|eauto]. subst id. exists x'. split; [done|]. congruence.
  - intros id' ps. rewrite lookup_insert. case_decide as Hid; [|apply B2]. intros [= <-]. subst id'.
    destruct (B2 id x Hx) as (H1 & H2 & H3 & H4 & H5 & _). rewrite Hb. auto 10.
Qed.

Lemma bindings_ok_bind p b :
  bindings p !! b_device b = None -> players p !! b_player b = None ->
  ValidatePlayer (mkPlayer (b_player b) (b_jurisdiction b) (b_age b)) = None -> bindings_ok p ->
  bindings_ok (put_player (put_binding p (b_device b) b) (b_player b) (mkPlayerState (mkPlayerRecord b 0) [])).
Proof.
  intros Hd Hp Hv [B1 B2]. apply ValidatePlayer_None in Hv as (V1 & V2 & V3). simpl in V1, V2, V3. split; simpl.
  - intros d b' Hd'. rewrite lookup_insert in Hd'. case_decide as E; simplify_eq.
    + split; [done|]. rewrite lookup_insert_eq. eauto.
    + destruct (B1 d b' Hd') as (Hb & ps & Hps & Hpb). split; [done|].
      exists ps. rewrite lookup_insert_ne; [done|]. congruence.
  - intros id ps. rewrite lookup_insert. case_decide as E.
    + intros [= <-]. subst id. simpl. rewrite lookup_insert_eq. split_and!; auto; lia.
    + intros Hps. destruct (B2 id ps Hps) as (H1 & H2 & H3). split_and!; auto; try apply H3.
      rewrite lookup_insert_ne; [done|]. congruence.
Qed.

Lemma entered_ok_create ts ps k t : ts !! k = None -> entered_ok ts ps -> entered_ok (<[k := t]> ts) ps.
Proof.
  intros Hk E id x k' Hx Hin. destruct (E id x k' Hx Hin) as (y & Hy & Hj). exists y.
  rewrite lookup_insert_ne by congruence. auto.
Qed.

Lemma add_tournament_play_inv s id t :
  tournaments s !! id = None -> t_entries t = [] -> play_inv s -> play_inv (add_tournament s id t).
Proof.
  intros Hk He [P1 P2 P3 P4]. split; simpl; [done|by apply rounds_ok_create|by apply entered_ok_create|].
  by apply scored_ok_create.
Qed.

Lemma score_play_inv s k t t' i e sc digest :
  tournaments s !! k = Some t -> t_entries t !! i = Some e ->
  score_allowed closing s k t (entry_id e) sc -> mark_scored t i sc digest = Some t' ->
  play_inv s -> play_inv (put_tournament s k t').
Proof.
  intros Ht Hi Ha Hm P. pose proof (rounds_ok_bounded _ _ _ (pv_rounds s P)) as B.
  destruct (mark_scored_entries t t' i e sc digest Hi Hm) as (M1 & M2 & M3 & M4 & M5 & _).
  apply (play_inv_put s (put_tournament s k t') k t t'); auto.
  - intros id. by apply find_entry_same_ids.
  - rewrite M3. auto.
  - congruence.
  - intros x Hx Hxs. destruct (M5 x Hx) as [|[Hid Hsx]]; [by left|right]. intros Hg.
    unfold score_allowed in Ha. destruct (String.eqb_spec (r_game (t_rules t)) ""); [done|].
    destruct Ha as (Hsc & Hn & Hc). rewrite Hid, Hsx, Hsc, (proj1 (Progress_total _ _ _ B)). auto.
Qed.

Lemma deal_play_inv s k t pid round seed :
  tournament_ok k t -> tournaments s !! k = Some t -> t_status t = Open -> r_game (t_rules t) <> "" ->
  is_Some (find_entry t pid) -> entry_unscored t pid -> validRound round = true ->
  rounds (play s) !! (k, pid, round) = None -> previous_unfinished s t pid round = false ->
  is_Some (Deal fuel seed) -> play_inv s ->
  play_inv (set_play s (touchRound (put_round (play s) (k, pid, round) (new_round s slot k pid round seed))
                          (k, pid, round))).
Proof.
  intros W Ht Ho Hg Hj Hu Hr Hnew Hprev [b Hb] [P1 P2 P3 P4]. split; simpl; try done.
  - apply (rounds_ok_deal fuel _ _ _ _ _ _ t); auto.
    + by apply validRound_spec.
    + by apply (previous_unfinished_spec s t k pid round (to_id k t W)).
    + exists b. unfold board_of, Replay, new_round. simpl. by rewrite Hb.
  - apply scored_ok_round; [|done]. intros t' Ht'. by simplify_eq.
Qed.

(** A new record for a round in play. *)
Lemma round_play_inv s k t pid round rec rec' :
  tournaments s !! k = Some t -> rounds (play s) !! (k, pid, round) = Some rec ->
  rr_status rec <> RoundDone ->
  (rr_tournament rec', rr_player rec', rr_round rec') = (rr_tournament rec, rr_player rec, rr_round rec) ->
  rr_status rec' = rr_status rec \/ rr_status rec' = RoundDone ->
  (exists b, board_of fuel rec' b /\
     (rr_status rec' = RoundDone -> rr_cleared rec' = Cleared b /\ rr_score rec' = Score b) /\
     (rr_status rec' <> RoundDone -> rr_score rec' = rr_score rec)) ->
  play_inv s -> play_inv (set_play s (touchRound (put_round (play s) (k, pid, round) rec') (k, pid, round))).
Proof.
  intros Ht Hr Hn Hf Hst Hb [P1 P2 P3 P4]. split; simpl; try done.
  - by apply (rounds_ok_update fuel _ _ _ _ _ rec).
  - apply scored_ok_round; [|done]. intros t' Ht'. simplify_eq.
    destruct (rk_entry _ _ _ _ _ _ _ (P2 _ _ _ _ Hr)) as (t' & Ht' & Hg & _). simplify_eq.
    by eapply in_play_unscored.
Qed.

Lemma change_play_inv s s' :
  tournaments_ok s -> play_inv s -> change fuel slot ballot closing s s' -> play_inv s'.
Proof.
  intros [T _] P C.
  destruct C as [id seed r Hk|k t player b q Ht|k t t' i e sc digest Ht Ho Hi He Hsa Hm|k t Ht Ho Hn|k t ex b Ht Hst
    |b Hb Hp Hv|pid ps Hp Hsq|k t pid ps Ht Hj Hp|k t pid round seed Ht Ho Hg Hj Hu Hr Hnew Hprev Hd
    |k t pid round rec b m b' Ht Ho Hr Hn _ Hrep Ha|k t pid round rec b reason Ht Ho Hr Hn Hrep|k t pid b q|ev|tid].
  - by apply add_tournament_play_inv.
  - apply (play_inv_put s _ k t (set_entries t (t_entries t ++ [admit_entry t player]))); auto.
    + intros i. apply find_entry_snoc.
    + intros e [He| ->]%elem_of_snoc Hs; [by left|done].
  - by apply (score_play_inv s k t t' i e sc digest).
  - destruct (close_record_fields t (if Voids t then Voided else Closed) (ComputeStandings t) (ComputePool t) slot)
      as (F1 & F2 & F3 & F4 & _).
    eapply (play_inv_put s _ k t); try done; rewrite ?F2, ?F3, ?F4; auto.
    + intros id. apply find_entry_same_ids. by rewrite F2.
  - eapply (play_inv_put s _ k t); simpl; try done; auto. intros E. destruct Hst; congruence.
  - destruct P as [P1 P2 P3 P4]. split; simpl; try done.
    + by apply bindings_ok_bind.
    + apply entered_ok_player; [|done]. simpl. by intros k ?%not_elem_of_nil.
  - destruct P as [P1 P2 P3 P4]. destruct (proj2 P1 pid ps Hp) as (_ & _ & _ & _ & _ & Hl).
    split; simpl; try done.
    + apply (bindings_ok_update _ pid ps); simpl; [done..|lia|done].
    + apply entered_ok_player; [|done]. simpl. intros k. by apply P3.
  - destruct P as [P1 P2 P3 P4]. destruct (proj2 P1 pid ps Hp) as (_ & _ & _ & _ & _ & Hl).
    split; simpl; try done.
    + by apply (bindings_ok_update _ pid ps).
    + apply entered_ok_player; [|done]. simpl. intros k' [Hk| ->]%elem_of_snoc; [by eapply P3|eauto].
  - eapply deal_play_inv; eauto.
  - apply (round_play_inv s k t pid round rec); [done|done|done|done|by left| |done].
    exists b'. split_and!; simpl; try done. unfold board_of, Replay in *. simpl.
    destruct (Deal fuel (rr_seed rec)); [|done]. simpl in *. by eapply replay_from_snoc.
  - apply (round_play_inv s k t pid round rec); [done|done|done|done|by right| |done].
    exists b. split_and!; simpl; done.
  - by destruct P.
  - by destruct P.
  - by destruct P.
Qed.

(** ** Tournament records *)

Lemma tournaments_ok_put s s' k t t' :
  tournaments s' = <[k := t']> (tournaments s) -> order s' = order s ->
  tournaments s !! k = Some t -> tournament_ok k t' -> tournaments_ok s -> tournaments_ok s'.
Proof.
  unfold tournaments_ok. intros -> -> Ht W (T & N & O). split_and!; [|done|].
  - intros k' x. rewrite lookup_insert. case_decide; intros; simplify_eq; eauto.
  - intros k'. rewrite O, lookup_insert. case_decide as E; [|done]. subst k'. rewrite Ht. split; intros; eauto.
Qed.

Lemma tournaments_ok_create s id t :
  tournaments s !! id = None -> tournament_ok id t -> tournaments_ok s -> tournaments_ok (add_tournament s id t).
Proof.
  intros Hid W (T & N & O). split_and!; simpl.
  - intros k' x. rewrite lookup_insert. case_decide; intros; simplify_eq; eauto.
  - apply NoDup_app. split_and!; [done| |apply NoDup_singleton].
    intros x Hx ->%list_elem_of_singleton. apply O in Hx. rewrite Hid in Hx. by destruct Hx.
  - intros k'. rewrite elem_of_snoc, O, lookup_insert. case_decide as E.
    + subst k'. split; [eauto|by right].
    + split; [|auto]. intros [?| ->]; done.
Qed.

(** The score a change gives is one the rules allow. *)
Lemma score_allowed_range s k t pid sc :
  tournament_ok k t -> play_inv s -> score_allowed closing s k t pid sc -> 0 <= sc <= r_max_score (t_rules t).
Proof.
  intros W P. unfold score_allowed. destruct (String.eqb_spec (r_game (t_rules t)) ""); [done|].
  intros (-> & _). destruct (Progress_total (play s) k pid (rounds_ok_bounded _ _ _ (pv_rounds s P))) as [-> Hb].
  destruct (ro_game _ (to_rules k t W)) as [|[_ ->]]; done.
Qed.

Lemma change_tournaments_ok s s' :
  tournaments_ok s -> play_inv s -> change fuel slot ballot closing s s' -> tournaments_ok s'.
Proof.
  intros T P C. pose proof (proj1 T) as W. destruct C as
    [id seed r Hk Hv Hr Hc|k t player b q Ht Ha Hv|k t t' i e sc digest Ht Ho Hi He Hsa Hm|k t Ht Ho|k t ex b Ht Hst Hx
    | | | | | | | | |]; try exact T.
  - apply tournaments_ok_create; auto using new_tournament_ok.
  - eapply (tournaments_ok_put s _ k t); [done..| |done]. apply admit_ok; auto.
  - eapply (tournaments_ok_put s _ k t t'); [done..| |done].
    eapply mark_scored_ok; eauto. by apply (score_allowed_range s k t (entry_id e)); auto.
  - eapply (tournaments_ok_put s _ k t); [done..| |done]. by apply close_ok; auto.
  - eapply (tournaments_ok_put s _ k t); [done..| |done]. by apply settle_ok; auto.
Qed.
End Preservation.
