(* ===== verification/LedgerInv.v ===== *)
(** The money of the state machine: account and key spellings never collide
    for valid identifiers, the postings in the book are exactly the ones the
    records call for, and the pool account of a tournament holds its entry
    fees until it is settled and nothing afterwards. *)

From Stdlib Require Import Ascii.
From S2P Require Import Prelude GoStd Paxos Ledger Game Records Codec Compute State Changes.
From S2P Require Import TournamentInv PlayInv.

(** * Spellings *)

(** A string without the separator of the keys. *)
Fixpoint no_colon (s : string) : bool :=
  match s with
  | EmptyString => true
  | String c s' => negb (Ascii.eqb c ":"%char) && no_colon s'
  end.

Lemma validID_no_colon s : validID s = true -> no_colon s = true.
Proof.
  unfold validID. case_goal; [done|]. intros H. clear E.
  induction s as [|c s IH]; [done|]. cbn [bytes_of forallb] in H. apply andb_true_iff in H as [Hc H].
  simpl. rewrite (IH H), andb_true_r. apply negb_true_iff. apply Ascii.eqb_neq. intros ->. done.
Qed.

Lemma append_inj_l a x y : a +:+ x = a +:+ y -> x = y.
Proof. induction a as [|c a IH]; [done|]. intros H. apply IH. by injection H. Qed.

(** A separated pair determines its parts. *)
Lemma colon_inj a b x y :
  no_colon a = true -> no_colon b = true -> a +:+ ":" +:+ x = b +:+ ":" +:+ y -> a = b /\ x = y.
Proof.
  revert b. induction a as [|c a IH]; intros [|d b] Ha Hb H.
  - split; [done|]. by injection H.
  - exfalso. simpl in Hb. apply andb_true_iff in Hb as [Hd _]. injection H as <- _. done.
  - exfalso. simpl in Ha. apply andb_true_iff in Ha as [Hc _]. injection H as -> _. done.
  - simpl in Ha, Hb. apply andb_true_iff in Ha as [_ Ha]. apply andb_true_iff in Hb as [_ Hb].
    injection H as -> H. destruct (IH b Ha Hb H) as [-> ->]. done.
Qed.

Lemma keys_injective (t t' p p' : string) (n n' : Z) :
  validID t = true -> validID t' = true -> validID p = true -> validID p' = true ->
  (FeeKey t p = FeeKey t' p' -> t = t' /\ p = p') /\
  (PrizeKey t p n = PrizeKey t' p' n' -> t = t' /\ p = p' /\ n = n') /\
  (WithheldKey t p n = WithheldKey t' p' n' -> t = t' /\ p = p' /\ n = n') /\
  (RefundKey t p = RefundKey t' p' -> t = t' /\ p = p') /\
  (ClaimKey t p = ClaimKey t' p' -> t = t' /\ p = p') /\
  (RakeKey t = RakeKey t' -> t = t') /\
  NoDup [FeeKey t p; RakeKey t'; PrizeKey t p n; WithheldKey t p n; RefundKey t p; ClaimKey t p].
Proof.
  intros Ht%validID_no_colon Ht'%validID_no_colon Hp%validID_no_colon Hp'%validID_no_colon.
  assert (Hpair : forall pre, pre +:+ t +:+ ":" +:+ p = pre +:+ t' +:+ ":" +:+ p' -> t = t' /\ p = p').
  { intros pre H. apply colon_inj; try done. by apply append_inj_l in H. }
  assert (Htriple : forall pre, pre +:+ t +:+ ":" +:+ p +:+ ":" +:+ itoa n = pre +:+ t' +:+ ":" +:+ p' +:+ ":" +:+ itoa n' ->
                   t = t' /\ p = p' /\ n = n').
  { intros pre H. apply append_inj_l in H. apply colon_inj in H as [-> H]; try done.
    apply colon_inj in H as [-> H]; try done. split_and!; try done. by apply (inj (pretty : Z -> string)). }
  split_and!; [apply (Hpair "fee:")|apply (Htriple "prize:")|apply (Htriple "withheld:")|apply (Hpair "refund:")
    |apply (Hpair "claim:")| |].
  - intros H. by apply (append_inj_l "rake:").
  - repeat (constructor; [rewrite !not_elem_of_cons; split_and!; (discriminate || apply not_elem_of_nil)|]).
    apply NoDup_singleton.
Qed.

(** Account names and posting keys are unambiguous: over valid
    identifiers the key functions are injective and their ranges disjoint, so
    no two money movements of different purpose can share a key. *)
Theorem keys_unambiguous (t t' p p' : string) (n n' : Z) :
  validID t = true -> validID t' = true -> validID p = true -> validID p' = true ->
  (FeeKey t p = FeeKey t' p' -> t = t' /\ p = p') /\
  (PrizeKey t p n = PrizeKey t' p' n' -> t = t' /\ p = p' /\ n = n') /\
  (WithheldKey t p n = WithheldKey t' p' n' -> t = t' /\ p = p' /\ n = n') /\
  (RefundKey t p = RefundKey t' p' -> t = t' /\ p = p') /\
  (ClaimKey t p = ClaimKey t' p' -> t = t' /\ p = p') /\
  (RakeKey t = RakeKey t' -> t = t') /\
  NoDup [FeeKey t p; RakeKey t'; PrizeKey t p n; WithheldKey t p n; RefundKey t p; ClaimKey t p].
Proof. exact (keys_injective t t' p p' n n'). Qed.

Lemma PoolAccount_inj a b : PoolAccount a = PoolAccount b -> a = b.
Proof. apply append_inj_l. Qed.

(** * Postings up to their number *)

Definition unnumbered (p : Posting) : Posting := with_seq p 0.

Lemma delta_unnumbered a p q : unnumbered p = unnumbered q -> delta a p = delta a q.
Proof.
  intros H. unfold delta. pose proof (f_equal post_credit H) as E1. pose proof (f_equal post_debit H) as E2.
  pose proof (f_equal post_amount H) as E3. simpl in *. by rewrite E1, E2, E3.
Qed.

Lemma net_unnumbered a ps qs : map unnumbered ps = map unnumbered qs -> net a ps = net a qs.
Proof.
  revert qs. induction ps as [|p ps IH]; intros [|q qs] H; try done.
  cbn [map] in H.
  pose proof (f_equal head H) as H1. pose proof (f_equal tail H) as H2. cbn [head tail] in H1, H2.
  apply (inj Some) in H1. change (delta a p + net a ps = delta a q + net a qs).
  by rewrite (IH _ H2), (delta_unnumbered a p q H1).
Qed.

Section PostLists.
Context `{U : Unicode}.

(** What a successful [Post] of a new posting did. *)
Lemma Post_appended b p b' q : book_wf b -> Post b p = Some (b', (q, true, None)) ->
  valid_posting p /\ Has b (post_key p) = false /\
  postings b' = postings b ++ [q] /\ unnumbered q = unnumbered p.
Proof.
  intros W H. destruct (Post_outcome b p W) as (b1 & r & H1 & O). rewrite H in H1. simplify_eq.
  inversion O; subst. done.
Qed.

Lemma Post_new b p : book_wf b -> valid_posting p -> Has b (post_key p) = false ->
  exists b' q, Post b p = Some (b', (q, true, None)).
Proof.
  intros W V H. destruct (Post_outcome b p W) as (b1 & r & H1 & O).
  destruct O as [err Hv|q' _ Hq Hk|]; [|exfalso|by eauto].
  - apply Validate_None in V. congruence.
  - apply not_true_iff_false in H. apply H. apply Has_spec; [done|]. eauto.
Qed.

Lemma Has_append b b' q k : book_wf b -> book_wf b' -> postings b' = postings b ++ [q] ->
  Has b' k = true <-> Has b k = true \/ post_key q = k.
Proof.
  intros W W' H. rewrite !Has_spec by done. rewrite H. setoid_rewrite elem_of_snoc. split.
  - intros (p & [Hp| ->] & Hk); eauto.
  - intros [(p & Hp & Hk)|Hk]; eauto.
Qed.

Lemma post_new_only_Some b p b' : book_wf b -> post_new_only b p = Some b' <->
  exists q, Post b p = Some (b', (q, true, None)).
Proof.
  intros W. unfold post_new_only. destruct (Post b p) as [[b1 [[q posted] err]]|]; simpl.
  - destruct err as [e|]; [split; [done|by intros (? & ?)]|]. destruct posted.
    + split; [intros [= ->]; eauto|]. intros (? & ?). congruence.
    + split; [done|]. intros (? & ?). congruence.
  - split; [done|]. by intros (? & ?).
Qed.

(** Posting a list appends all of it, in order. *)
Lemma post_list_appended b ps b' : book_wf b -> foldM post_new_only b ps = Some b' ->
  book_wf b' /\ exists qs, postings b' = postings b ++ qs /\ map unnumbered qs = map unnumbered ps /\
  Forall valid_posting ps.
Proof.
  revert b. induction ps as [|p ps IH]; intros b W H; simpl in H.
  { injection H as <-. split; [done|]. exists []. by rewrite app_nil_r. }
  destruct (post_new_only b p) as [b1|] eqn:E; [|done]. apply post_new_only_Some in E as [q E]; [|done].
  pose proof (Post_wf _ _ _ _ W E) as W1. destruct (Post_appended _ _ _ _ W E) as (V & _ & Hp & Hq).
  destruct (IH b1 W1 H) as (W' & qs & Hqs & Hm & F). split; [done|]. exists (q :: qs). split_and!.
  - by rewrite Hqs, Hp, <- app_assoc.
  - simpl. by rewrite Hm, Hq.
  - by constructor.
Qed.

(** Posting valid postings under new, distinct keys succeeds. *)
Lemma post_list_new b ps : book_wf b -> Forall valid_posting ps -> NoDup (map post_key ps) ->
  (forall p, p ∈ ps -> Has b (post_key p) = false) -> exists b', foldM post_new_only b ps = Some b'.
Proof.
  revert b. induction ps as [|p ps IH]; intros b W V N H; simpl; [eauto|].
  apply Forall_cons in V as [Vp V]. apply NoDup_cons in N as [Np N].
  destruct (Post_new b p W Vp) as (b1 & q & E); [apply H; by left|].
  rewrite (proj2 (post_new_only_Some b p b1 W)) by eauto. simpl.
  pose proof (Post_wf _ _ _ _ W E) as W1. destruct (Post_appended _ _ _ _ W E) as (_ & _ & Hp & Hq).
  apply IH; [done..|]. intros x Hx. apply not_true_iff_false. rewrite (Has_append b b1 q _ W W1 Hp).
  intros [Hb|Hk]; [rewrite H in Hb; [done|by right]|]. apply Np. apply list_elem_of_fmap. exists x. split; [|done].
  rewrite <- Hk. apply (f_equal post_key) in Hq. done.
Qed.

Lemma checkFresh_from_None b seen ps :
  checkFresh_from b seen ps = None <->
  (forall p, p ∈ ps -> Has b (post_key p) = false /\ post_key p ∉ seen) /\ NoDup (map post_key ps).
Proof.
  revert seen. induction ps as [|p ps IH]; intros seen; cbn [checkFresh_from map].
  { split; [|done]. intros _. split; [by intros p ?%not_elem_of_nil|constructor]. }
  rewrite NoDup_cons. destruct (Has b (post_key p)) eqn:E; simpl.
  { split; [done|]. intros [Hf _]. destruct (Hf p) as [? _]; [by left|congruence]. }
  case_bool_decide as Hs.
  { split; [done|]. intros [Hf _]. by destruct (Hf p) as [_ []]; [left|]. }
  rewrite IH. split.
  - intros [Hf N]. split_and!; [|intros (x & Hx & Hin)%list_elem_of_fmap|done].
    + intros x [->|Hx]%elem_of_cons; [done|]. destruct (Hf x Hx) as [? Hn]. split; [done|]. set_solver.
    + destruct (Hf x Hin) as [_ Hn]. rewrite Hx in Hn. set_solver.
  - intros (Hf & Hn & N). split; [|done]. intros x Hx. destruct (Hf x) as [? Hseen]; [by right|].
    split; [done|]. rewrite not_elem_of_union, not_elem_of_singleton. split; [|done].
    intros E'. apply Hn. rewrite <- E'. by apply list_elem_of_fmap_2.
Qed.

Lemma checkFresh_None s ps :
  checkFresh s ps = None <->
  (forall p, p ∈ ps -> Has (book s) (post_key p) = false) /\ NoDup (map post_key ps).
Proof.
  unfold checkFresh. rewrite checkFresh_from_None. split; intros [H N]; (split; [|done]); intros p Hp.
  - by apply H.
  - split; [by apply H|]. apply not_elem_of_empty.
Qed.
End PostLists.

(** * Where the postings come from *)

(** The status a settled tournament had when it was settled. *)
Definition reopen (t : Tournament) : Tournament :=
  mkTournament (t_id t) (t_seed t) (t_rules t) (if Voids t then Voided else Closed) (t_entries t)
    (t_fees t) (t_rake t) (t_pool t) (t_standings t) (t_payouts t) (t_created_at t) (t_closed_at t)
    (t_settled_at t) (t_ballot t).

(** Every posting is an entry fee, part of a settlement, or a claim. *)
Inductive origin (ts : gmap TournamentID Tournament) (q : Posting) : Prop :=
| or_fee k t e slot ballot :
    ts !! k = Some t -> e ∈ t_entries t -> unnumbered q = fee_posting t (entry_id e) slot ballot -> origin ts q
| or_settle k t ex slot ballot ps :
    ts !! k = Some t -> t_status t = Settled -> t_payouts t = Some ps ->
    unnumbered q ∈ settle_postings (reopen t) ex slot ballot ps -> origin ts q
| or_claim k t pid slot ballot :
    ts !! k = Some t -> t_status t = Settled -> is_Some (find_entry t pid) ->
    unnumbered q = claim_posting k pid (ClaimableAmount t pid) slot ballot -> origin ts q.

Lemma origin_put ts k t t' q :
  ts !! k = Some t -> t_id t' = t_id t -> t_rules t' = t_rules t ->
  (forall id, is_Some (find_entry t id) -> is_Some (find_entry t' id)) ->
  t_status t <> Settled -> origin ts q -> origin (<[k := t']> ts) q.
Proof.
  intros Ht Hi Hr He Hs [k' x e slot ballot Hx Hin Hq|k' x ex slot ballot ps Hx Hst Hps Hq|k' x pid slot ballot Hx Hst Hj Hq].
  - destruct (decide (k = k')) as [<-|Hne].
    + simplify_eq. assert (Hj : is_Some (find_entry t (entry_id e))).
      { apply find_entry_is_Some, list_elem_of_fmap_2, Hin. }
      apply He, find_entry_is_Some, list_elem_of_fmap in Hj as (e' & Hid & Hin').
      apply (or_fee _ _ k t' e' slot ballot); [by rewrite lookup_insert_eq|done|].
      rewrite Hq, <- Hid. unfold fee_posting. by rewrite Hi, Hr.
    + apply (or_fee _ _ k' x e slot ballot); [by rewrite lookup_insert_ne|done..].
  - apply (or_settle _ _ k' x ex slot ballot ps); [|done..]. rewrite lookup_insert_ne; [done|]. congruence.
  - apply (or_claim _ _ k' x pid slot ballot); [|done..]. rewrite lookup_insert_ne; [done|]. congruence.
Qed.

Lemma origin_create ts k t q : ts !! k = None -> origin ts q -> origin (<[k := t]> ts) q.
Proof.
  intros Hk [k' x e slot ballot Hx Hin Hq|k' x ex slot ballot ps Hx Hst Hps Hq|k' x pid slot ballot Hx Hst Hj Hq];
    [apply (or_fee _ _ k' x e slot ballot)|apply (or_settle _ _ k' x ex slot ballot ps)
    |apply (or_claim _ _ k' x pid slot ballot)]; try done; by rewrite lookup_insert_ne by congruence.
Qed.

(** * Keys of a settlement *)

Definition payout_key_ok (k : TournamentID) (p : Payout) : Prop :=
  p_key p = RefundKey k (p_player p) \/ p_key p = PrizeKey k (p_player p) (p_place p) \/
  p_key p = WithheldKey k (p_player p) (p_place p).

Lemma prize_payout_key t ex s m : payout_key_ok (t_id t) (prize_payout t ex s m).
Proof. unfold prize_payout, payout_key_ok. case_goal; simpl; auto. Qed.

Lemma elem_of_zip_with {A B C} (f : A -> B -> C) l k z : z ∈ zip_with f l k -> exists x y, x ∈ l /\ y ∈ k /\ z = f x y.
Proof.
  intros [i Hi]%list_elem_of_lookup. apply lookup_zip_with_Some in Hi as (x & y & -> & Hx & Hy).
  exists x, y. split_and!; eauto using list_elem_of_lookup_2.
Qed.

Lemma ComputePayouts_keys t ex p : p ∈ ComputePayouts t ex -> payout_key_ok (t_id t) p.
Proof.
  unfold ComputePayouts. destruct (Voids t).
  - intros (e & -> & _)%list_elem_of_fmap. by left.
  - destruct (ComputePool t) as [[f r] pool]. intros (s & m & _ & _ & ->)%elem_of_zip_with. apply prize_payout_key.
Qed.

Lemma settle_postings_elem t ex slot ballot ps q :
  q ∈ settle_postings t ex slot ballot ps <->
  (t_status t = Closed /\ 0 < t_rake t /\ q = rake_posting t ex slot ballot) \/
  (exists p, p ∈ ps /\ 0 < p_amount p /\ q = payout_posting t ex slot ballot p).
Proof.
  unfold settle_postings. rewrite elem_of_app, list_elem_of_fmap.
  assert (Hf : forall p, p ∈ List.filter (fun p => negb (p_amount p <=? 0)) ps <-> p ∈ ps /\ 0 < p_amount p).
  { intros p. rewrite !list_elem_of_In, filter_In. rewrite negb_true_iff, Z.leb_gt. done. }
  setoid_rewrite Hf. case_bool_decide as Hs; simpl.
  - destruct (Z.ltb_spec 0 (t_rake t)).
    + rewrite list_elem_of_singleton. naive_solver.
    + rewrite elem_of_nil. naive_solver lia.
  - rewrite elem_of_nil. naive_solver.
Qed.

Lemma payout_posting_key t ex slot ballot p : post_key (payout_posting t ex slot ballot p) = p_key p.
Proof. unfold payout_posting. by repeat case_goal. Qed.

Lemma payout_posting_amount t ex slot ballot p : post_amount (payout_posting t ex slot ballot p) = p_amount p.
Proof. unfold payout_posting. by repeat case_goal. Qed.

(** The payees of a settlement, each once. *)
Lemma standings_players t : map s_player (ComputeStandings t) ≡ₚ map entry_id (t_entries t).
Proof.
  destruct (ComputeStandings_rank t) as (sc & un & Hp & _ & _ & _ & _ & ->).
  rewrite <- Hp, !map_app. by rewrite !(map_imap_const s_player _ entry_id) by done.
Qed.

Lemma ComputePayouts_players t ex : payable t -> NoDup (map entry_id (t_entries t)) ->
  NoDup (map p_player (ComputePayouts t ex)).
Proof.
  intros P N. destruct (Voids t) eqn:Hv.
  - unfold ComputePayouts. rewrite Hv, map_map. exact N.
  - destruct (ComputePool t) as [[f r] pool] eqn:Hp.
    rewrite (ComputePayouts_prizes t ex f r pool P Hv Hp).
    destruct (prize_amounts_spec t f r pool P Hv Hp) as (_ & _ & Hl).
    assert (E : map p_player (zip_with (prize_payout t ex) (paid_standings t) (prize_amounts t pool))
                = map s_player (paid_standings t)).
    { revert Hl. generalize (prize_amounts t pool). induction (paid_standings t) as [|s ss IH]; intros [|m ms] Hl;
        simplify_eq/=; [done|]. f_equal; [|by apply IH]. unfold prize_payout. by case_goal. }
    rewrite E. unfold paid_standings. change (NoDup (s_player <$> take (length (r_prize_bps (t_rules t))) (ComputeStandings t))).
    rewrite fmap_take.
    eapply sublist_NoDup; [|apply sublist_take]. by rewrite standings_players.
Qed.

(** * A settlement *)

(** A closed or voided record that is ready to settle. *)
Definition settleable (k : TournamentID) (t : Tournament) : Prop :=
  tournament_ok k t /\ (t_status t = Closed \/ t_status t = Voided).

Lemma settleable_facts k t : settleable k t ->
  payable t /\ closed_fields t /\ t_status t = (if Voids t then Voided else Closed) /\ t_id t = k.
Proof.
  intros [W Hs]. pose proof (to_phase k t W) as Hp. unfold phase_ok in Hp.
  assert (Hc : closed_fields t /\ t_status t = (if Voids t then Voided else Closed)).
  { destruct Hs as [E|E]; rewrite E in Hp |- *; destruct Hp as (-> & ? & _); done. }
  destruct Hc as [Hc He]. split_and!; [|done|done|by apply to_id].
  split; [apply (to_rules k t W)|apply (to_full k t W)|right; apply Hc].
Qed.

Lemma entry_valid k t id : tournament_ok k t -> id ∈ map entry_id (t_entries t) -> validID id = true.
Proof.
  intros W (e & -> & [i Hi]%list_elem_of_lookup)%list_elem_of_fmap. by destruct (to_entries k t W i e Hi).
Qed.

Lemma ComputePayouts_player_valid k t ex p : tournament_ok k t -> payable t -> p ∈ ComputePayouts t ex ->
  p_player p ∈ map entry_id (t_entries t) /\ validID (p_player p) = true.
Proof.
  intros W P Hp. assert (Hin : p_player p ∈ map entry_id (t_entries t)).
  { destruct (Voids t) eqn:Hv.
    - unfold ComputePayouts in Hp. rewrite Hv in Hp. apply list_elem_of_fmap in Hp as (e & -> & He).
      exact (list_elem_of_fmap_2 entry_id _ e He).
    - destruct (ComputePool t) as [[f r] pool] eqn:Hpl.
      rewrite (ComputePayouts_prizes t ex f r pool P Hv Hpl) in Hp.
      apply elem_of_zip_with in Hp as (s & m & Hs & _ & ->). apply elem_of_take in Hs as (i & Hs & _).
      rewrite <- standings_players. unfold prize_payout.
      case_goal; exact (list_elem_of_fmap_2 s_player _ s (list_elem_of_lookup_2 _ _ _ Hs)). }
  split; [done|]. by eapply entry_valid.
Qed.

Lemma rake_posting_valid t ex slot ballot : 0 < t_rake t -> valid_posting (rake_posting t ex slot ballot).
Proof. intros H. split_and!; simpl; done. Qed.

Lemma payout_posting_valid t ex slot ballot p :
  payout_key_ok (t_id t) p -> 0 < p_amount p -> valid_posting (payout_posting t ex slot ballot p).
Proof.
  intros Hk Ha. unfold payout_posting, valid_posting.
  assert (Hne : p_key p <> "") by (destruct Hk as [-> |[-> | ->]]; done).
  case_bool_decide; [|destruct (p_withheld p)]; simpl; split_and!; done.
Qed.

Lemma settle_postings_valid t ex slot ballot :
  Forall valid_posting (settle_postings t ex slot ballot (ComputePayouts t ex)).
Proof.
  apply Forall_forall. intros q Hq. apply settle_postings_elem in Hq as [(_ & Hr & ->)|(p & Hp & Ha & ->)].
  - by apply rake_posting_valid.
  - apply payout_posting_valid; [by apply (ComputePayouts_keys t ex)|done].
Qed.

Lemma payout_key_player k p1 p2 : validID k = true -> validID (p_player p1) = true -> validID (p_player p2) = true ->
  payout_key_ok k p1 -> payout_key_ok k p2 -> p_key p1 = p_key p2 -> p_player p1 = p_player p2.
Proof.
  intros Hk H1 H2 [E1|[E1|E1]] [E2|[E2|E2]] E; rewrite E1, E2 in E; try discriminate;
    destruct (keys_injective k k (p_player p1) (p_player p2) (p_place p1) (p_place p2) Hk Hk H1 H2)
      as (_ & K2 & K3 & K4 & _).
  - by apply K4.
  - by apply K2.
  - by apply K3.
Qed.

Lemma NoDup_fmap_filter {A B} (f : A -> B) (g : A -> bool) l : NoDup (map f l) -> NoDup (map f (List.filter g l)).
Proof.
  induction l as [|x l IH]; simpl; [done|]. intros [Hx N]%NoDup_cons.
  destruct (g x); simpl; [|auto]. constructor; [|auto].
  intros (y & Hy & Hin)%list_elem_of_fmap. apply Hx. rewrite Hy. apply list_elem_of_fmap_2.
  apply list_elem_of_In, filter_In in Hin as [Hin _]. by apply list_elem_of_In.
Qed.

Lemma settle_postings_keys k t ex slot ballot : settleable k t ->
  NoDup (map post_key (settle_postings t ex slot ballot (ComputePayouts t ex))).
Proof.
  intros S. destruct (settleable_facts k t S) as (P & _ & _ & Hid). destruct S as [W _].
  assert (N : NoDup (map p_key (List.filter (fun p => negb (p_amount p <=? 0)) (ComputePayouts t ex)))).
  { pose proof (ComputePayouts_players t ex P (to_nodup k t W)) as N.
    apply (NoDup_fmap_filter p_player (fun p => negb (p_amount p <=? 0))) in N. revert N.
    set (l := List.filter _ _). assert (Hl : forall p, p ∈ l -> p ∈ ComputePayouts t ex).
    { intros p Hp. apply list_elem_of_In, filter_In in Hp as [Hp _]. by apply list_elem_of_In. }
    induction l as [|p l IH]; simpl; [done|]. intros [Hp N]%NoDup_cons. constructor.
    - intros (p' & E & Hin)%list_elem_of_fmap. apply Hp. apply list_elem_of_fmap. exists p'. split; [|done].
      destruct (ComputePayouts_player_valid k t ex p W P) as [_ V1]; [apply Hl; by left|].
      destruct (ComputePayouts_player_valid k t ex p' W P) as [_ V2]; [apply Hl; by right|].
      apply (payout_key_player k); [by apply (to_valid k t W)|done|done| | |done];
        rewrite <- Hid; apply (ComputePayouts_keys t ex), Hl; [by left|by right].
    - apply IH; [|done]. intros x Hx. apply Hl. by right. }
  unfold settle_postings. rewrite map_app, map_map.
  rewrite (map_ext (fun x => post_key (payout_posting t ex slot ballot x)) p_key) by apply payout_posting_key.
  apply NoDup_app. split_and!; [by repeat case_goal; repeat constructor; intros ?%not_elem_of_nil| |done].
  intros x Hx (p & Hpk & Hp)%list_elem_of_fmap. apply list_elem_of_In, filter_In in Hp as [Hp _].
  apply list_elem_of_In in Hp. case_hyp Hx; [|by apply not_elem_of_nil in Hx].
  apply list_elem_of_singleton in Hx. simpl in Hx.
  destruct (ComputePayouts_keys t ex p Hp) as [K|[K|K]]; rewrite K in Hpk; subst x; discriminate.
Qed.

(** * What a settlement moves *)

Definition withheld_part (p : Payout) : Z := if p_withheld p then p_amount p else 0.

Lemma eqb_empty_app a b : String.eqb ("" +:+ a) ("" +:+ b) = String.eqb a b.
Proof. done. Qed.

(** Per posting: the pool pays it, the withheld account gets the withheld
    prizes, the rake account nothing. *)
Lemma delta_payout t ex slot ballot p k :
  (t_status t = Voided -> p_withheld p = false) ->
  delta (PoolAccount k) (payout_posting t ex slot ballot p) = (if String.eqb (t_id t) k then - p_amount p else 0) /\
  delta (RakeAccount k) (payout_posting t ex slot ballot p) = 0 /\
  delta (WithheldAccount k) (payout_posting t ex slot ballot p) = (if String.eqb (t_id t) k then withheld_part p else 0).
Proof.
  intros Hv. unfold payout_posting, delta, withheld_part. case_bool_decide as Hs.
  - rewrite (Hv Hs). simpl. rewrite ?eqb_empty_app. destruct (String.eqb (t_id t) k); split_and!; lia.
  - destruct (p_withheld p); simpl; rewrite ?eqb_empty_app; destruct (String.eqb (t_id t) k); split_and!; lia.
Qed.

Lemma delta_rake t ex slot ballot k :
  delta (PoolAccount k) (rake_posting t ex slot ballot) = (if String.eqb (t_id t) k then - t_rake t else 0) /\
  delta (RakeAccount k) (rake_posting t ex slot ballot) = (if String.eqb (t_id t) k then t_rake t else 0) /\
  delta (WithheldAccount k) (rake_posting t ex slot ballot) = 0.
Proof. unfold delta. simpl. rewrite ?eqb_empty_app. destruct (String.eqb (t_id t) k); split_and!; lia. Qed.

Lemma delta_fee t pid slot ballot k :
  delta (PoolAccount k) (fee_posting t pid slot ballot) = (if String.eqb (t_id t) k then r_entry_fee (t_rules t) else 0) /\
  delta (RakeAccount k) (fee_posting t pid slot ballot) = 0 /\
  delta (WithheldAccount k) (fee_posting t pid slot ballot) = 0.
Proof. unfold delta. simpl. rewrite ?eqb_empty_app. destruct (String.eqb (t_id t) k); split_and!; lia. Qed.

Lemma delta_claim k' pid amount slot ballot k :
  delta (PoolAccount k) (claim_posting k' pid amount slot ballot) = 0 /\
  delta (RakeAccount k) (claim_posting k' pid amount slot ballot) = 0 /\
  delta (WithheldAccount k) (claim_posting k' pid amount slot ballot) = 0.
Proof. split_and!; reflexivity. Qed.

(** The rake a settlement posts. *)
Definition rake_moved (t : Tournament) : Z := if bool_decide (t_status t = Closed) && (0 <? t_rake t) then t_rake t else 0.

Lemma net_settle t ex slot ballot ps k :
  Forall (fun p => 0 <= p_amount p /\ (t_status t = Voided -> p_withheld p = false)) ps ->
  net (PoolAccount k) (settle_postings t ex slot ballot ps)
    = (if String.eqb (t_id t) k then - (rake_moved t + zsum (map p_amount ps)) else 0) /\
  net (RakeAccount k) (settle_postings t ex slot ballot ps)
    = (if String.eqb (t_id t) k then rake_moved t else 0) /\
  net (WithheldAccount k) (settle_postings t ex slot ballot ps)
    = (if String.eqb (t_id t) k then zsum (map withheld_part ps) else 0).
Proof.
  intros F. unfold settle_postings. rewrite !net_app.
  assert (Hp : forall a c (f : Payout -> Z),
    (forall p, p ∈ ps -> delta a (payout_posting t ex slot ballot p) = (if String.eqb (t_id t) k then c * f p else 0)) ->
    (forall p, p ∈ ps -> p_amount p = 0 -> f p = 0) ->
    net a (map (payout_posting t ex slot ballot) (List.filter (fun p => negb (p_amount p <=? 0)) ps))
    = (if String.eqb (t_id t) k then c * zsum (map f ps) else 0)).
  { intros a c f Hd Hz. clear -F Hd Hz. induction F as [|p ps [Hp _] _ IH]; simpl; [destruct (String.eqb _ _); unfold net; simpl; lia|].
    specialize (IH ltac:(intros; apply Hd; by right) ltac:(intros; apply Hz; [by right|done])).
    destruct (Z.leb_spec (p_amount p) 0) as [H0|H0]; simpl.
    - rewrite IH, (Hz p) by (by left || lia). destruct (String.eqb _ _); lia.
    - change (net a (?x :: ?l)) with (delta a x + net a l). unfold net in *. simpl. rewrite IH, (Hd p) by by left.
      destruct (String.eqb _ _); lia. }
  assert (Hd : forall p, p ∈ ps -> t_status t = Voided -> p_withheld p = false).
  { intros p Hin. rewrite Forall_forall in F. by apply (F p Hin). }
  rewrite (Hp (PoolAccount k) (-1) p_amount), (Hp (RakeAccount k) 0 p_amount), (Hp (WithheldAccount k) 1 withheld_part).
  - destruct (delta_rake t ex slot ballot k) as (R1 & R2 & R3). unfold rake_moved.
    case_goal; [change (net ?a [?x]) with (delta a x + 0)|]; unfold net; simpl; rewrite ?R1, ?R2, ?R3;
      destruct (String.eqb (t_id t) k); split_and!; lia.
  - intros p Hin. destruct (delta_payout t ex slot ballot p k (Hd p Hin)) as (_ & _ & ->). destruct (String.eqb _ _); lia.
  - intros p _ E. unfold withheld_part. by case_goal.
  - intros p Hin. destruct (delta_payout t ex slot ballot p k (Hd p Hin)) as (_ & -> & _). destruct (String.eqb _ _); lia.
  - done.
  - intros p Hin. destruct (delta_payout t ex slot ballot p k (Hd p Hin)) as (-> & _ & _). destruct (String.eqb _ _); lia.
  - done.
Qed.

(** * The ledger invariant *)

(** What each account of tournament [k] holds. *)
Definition pool_due (o : option Tournament) : Z :=
  match o with
  | Some t => if decide (t_status t = Settled) then 0 else r_entry_fee (t_rules t) * len (t_entries t)
  | None => 0
  end.
Definition rake_due (o : option Tournament) : Z :=
  match o with Some t => if decide (t_status t = Settled) then t_rake t else 0 | None => 0 end.
Definition withheld_due (o : option Tournament) : Z :=
  match o with
  | Some t => if decide (t_status t = Settled) then zsum (map withheld_part (default [] (t_payouts t))) else 0
  | None => 0
  end.

Record accounts_ok (ts : gmap TournamentID Tournament) (ps : list Posting) : Prop := {
  ac_pool : forall k, net (PoolAccount k) ps = pool_due (ts !! k);
  ac_rake : forall k, net (RakeAccount k) ps = rake_due (ts !! k);
  ac_withheld : forall k, net (WithheldAccount k) ps = withheld_due (ts !! k);
}.

Record ledger_inv (s : State) : Prop := {
  li_wf : book_wf (book s);
  li_origin : forall q, q ∈ postings (book s) -> origin (tournaments s) q;
  li_fees : forall k t e, tournaments s !! k = Some t -> e ∈ t_entries t ->
    exists slot ballot q, q ∈ postings (book s) /\ unnumbered q = fee_posting t (entry_id e) slot ballot;
  li_settled : forall k t ps, tournaments s !! k = Some t -> t_status t = Settled -> t_payouts t = Some ps ->
    exists ex slot ballot, forall p, p ∈ settle_postings (reopen t) ex slot ballot ps ->
      exists q, q ∈ postings (book s) /\ unnumbered q = p;
  li_accounts : accounts_ok (tournaments s) (postings (book s));
}.

Lemma accounts_ok_put ts ps qs k t' :
  net (PoolAccount k) qs = pool_due (Some t') - pool_due (ts !! k) ->
  net (RakeAccount k) qs = rake_due (Some t') - rake_due (ts !! k) ->
  net (WithheldAccount k) qs = withheld_due (Some t') - withheld_due (ts !! k) ->
  (forall k', k' <> k -> net (PoolAccount k') qs = 0 /\ net (RakeAccount k') qs = 0 /\ net (WithheldAccount k') qs = 0) ->
  accounts_ok ts ps -> accounts_ok (<[k := t']> ts) (ps ++ qs).
Proof.
  intros H1 H2 H3 Hne [A1 A2 A3]. split; intros k'; rewrite net_app, lookup_insert;
    case_decide as E; try (subst k'; rewrite ?A1, ?A2, ?A3, ?H1, ?H2, ?H3; lia).
  all: destruct (Hne k') as (N1 & N2 & N3); [congruence|]; rewrite ?A1, ?A2, ?A3, ?N1, ?N2, ?N3; lia.
Qed.

Lemma accounts_ok_same ts ps k t t' :
  ts !! k = Some t -> pool_due (Some t') = pool_due (Some t) -> rake_due (Some t') = rake_due (Some t) ->
  withheld_due (Some t') = withheld_due (Some t) -> accounts_ok ts ps -> accounts_ok (<[k := t']> ts) ps.
Proof.
  intros Ht H1 H2 H3 A. rewrite <- (app_nil_r ps). apply accounts_ok_put; [..|by intros|done];
    rewrite Ht, ?H1, ?H2, ?H3; unfold net; simpl map; simpl zsum; lia.
Qed.

Section Preservation.
Context `{U : Unicode} (fuel : nat) (slot : Slot) (ballot : Ballot) (closing : option TournamentID).

(** A record changes without money moving: no entry added, not settled. *)
Lemma ledger_inv_same s s' k t t' :
  book s' = book s -> tournaments s' = <[k := t']> (tournaments s) -> tournaments s !! k = Some t ->
  t_id t' = t_id t -> t_rules t' = t_rules t -> map entry_id (t_entries t') = map entry_id (t_entries t) ->
  t_status t <> Settled -> t_status t' <> Settled -> ledger_inv s -> ledger_inv s'.
Proof.
  intros Hb Ht' Ht Hi Hr Hids Hs Hs' [L1 L2 L3 L4 L5].
  assert (Hlen : len (t_entries t') = len (t_entries t)).
  { unfold len. by rewrite <- (length_map entry_id), Hids, length_map. }
  split; rewrite ?Hb, ?Ht'; auto.
  - intros q Hq. apply (origin_put _ k t t'); auto. intros id. by apply find_entry_same_ids.
  - intros k' x e Hx Hin. rewrite lookup_insert in Hx. case_decide as E; simplify_eq; [|eauto].
    assert (He : entry_id e ∈ map entry_id (t_entries t)) by (rewrite <- Hids; by apply list_elem_of_fmap_2).
    apply list_elem_of_fmap in He as (e' & -> & He'). destruct (L3 _ _ _ Ht He') as (sl & bl & q & Hq & Hu).
    exists sl, bl, q. split; [done|]. rewrite Hu. unfold fee_posting. by rewrite Hi, Hr.
  - intros k' x ps Hx Hst Hps. rewrite lookup_insert in Hx. case_decide; simplify_eq; eauto.
  - apply (accounts_ok_same _ _ k t t'); auto; unfold pool_due, rake_due, withheld_due;
      repeat case_decide; try done. by rewrite Hr, Hlen.
Qed.

Lemma ledger_inv_create s id r seed :
  tournaments s !! id = None -> ledger_inv s -> ledger_inv (add_tournament s id (new_tournament slot id seed r)).
Proof.
  intros Hid [L1 L2 L3 L4 L5]. split; simpl; auto.
  - intros q Hq. by apply origin_create; auto.
  - intros k t e Hk Hin. rewrite lookup_insert in Hk. case_decide; simplify_eq; [|eauto]. by apply not_elem_of_nil in Hin.
  - intros k t ps Hk Hst Hps. rewrite lookup_insert in Hk. case_decide; simplify_eq; eauto.
  - destruct L5 as [A1 A2 A3]. split; intros k; rewrite ?A1, ?A2, ?A3, lookup_insert; case_decide as E; try done;
      subst k; rewrite Hid; simpl; change (len []) with 0; lia.
Qed.

(** The postings kept when a book grows. *)
Lemma li_settled_grow s b qs :
  postings b = postings (book s) ++ qs -> ledger_inv s ->
  forall k t ps, tournaments s !! k = Some t -> t_status t = Settled -> t_payouts t = Some ps ->
    exists ex slot ballot, forall p, p ∈ settle_postings (reopen t) ex slot ballot ps ->
      exists q, q ∈ postings b /\ unnumbered q = p.
Proof.
  intros Hb L k t ps Ht Hs Hps. destruct (li_settled s L k t ps Ht Hs Hps) as (ex & sl & bl & H).
  exists ex, sl, bl. intros p Hp. destruct (H p Hp) as (q & Hq & Hu). exists q. rewrite Hb, elem_of_app. auto.
Qed.

Lemma li_fees_grow s b qs :
  postings b = postings (book s) ++ qs -> ledger_inv s ->
  forall k t e, tournaments s !! k = Some t -> e ∈ t_entries t ->
    exists slot ballot q, q ∈ postings b /\ unnumbered q = fee_posting t (entry_id e) slot ballot.
Proof.
  intros Hb L k t e Ht He. destruct (li_fees s L k t e Ht He) as (sl & bl & q & Hq & Hu).
  exists sl, bl, q. rewrite Hb, elem_of_app. auto.
Qed.

Lemma ledger_inv_admit s k t player b q :
  tournament_ok k t -> tournaments s !! k = Some t -> t_status t = Open ->
  Post (book s) (fee_posting t (pl_id player) slot ballot) = Some (b, (q, true, None)) ->
  ledger_inv s ->
  ledger_inv (put_tournament (set_book s b) k (set_entries t (t_entries t ++ [admit_entry t player]))).
Proof.
  intros W Ht Ho Hpost L. set (t' := set_entries t _). pose proof (to_id k t W) as Hid.
  destruct (Post_appended _ _ _ _ (li_wf s L) Hpost) as (_ & _ & Hp & Hq).
  assert (Hne : t_status t <> Settled) by (rewrite Ho; done).
  split; simpl.
  - by eapply Post_wf; [apply L|].
  - intros x Hx. rewrite Hp in Hx. apply elem_of_snoc in Hx as [Hx| ->].
    + apply (origin_put _ k t t'); auto; [|by apply L]. intros id. apply find_entry_snoc.
    + apply (or_fee _ _ k t' (admit_entry t player) slot ballot); [by rewrite lookup_insert_eq| |done].
      simpl. apply elem_of_snoc. by right.
  - intros k' x e Hx Hin. rewrite lookup_insert in Hx. case_decide as E; [|by eapply (li_fees_grow s b [q])].
    injection Hx as <-. subst k'. simpl in Hin. apply elem_of_snoc in Hin as [Hin| ->].
    + by apply (li_fees_grow s b [q] Hp L k t e).
    + exists slot, ballot, q. rewrite Hp, elem_of_snoc. auto.
  - intros k' x ps Hx Hst Hps. rewrite lookup_insert in Hx. case_decide; [injection Hx as <-; done|].
    by apply (li_settled_grow s b [q] Hp L k' x ps).
  - rewrite Hp. assert (Hn : forall a, net a [q] = delta a (fee_posting t (pl_id player) slot ballot)).
    { intros a. rewrite (net_unnumbered a [q] [fee_posting t (pl_id player) slot ballot]) by (simpl; by rewrite Hq).
      unfold net. simpl. lia. }
    assert (Hd : forall c, net (PoolAccount c) [q] = (if String.eqb (t_id t) c then r_entry_fee (t_rules t) else 0) /\
                           net (RakeAccount c) [q] = 0 /\ net (WithheldAccount c) [q] = 0).
    { intros c. rewrite !Hn. apply delta_fee. }
    destruct (Hd k) as (D1 & D2 & D3). rewrite Hid, String.eqb_refl in D1.
    apply accounts_ok_put; [| | | |apply L]; rewrite ?Ht.
    + rewrite D1. unfold pool_due. simpl. rewrite !decide_False by done. rewrite len_app. change (len [_]) with 1. lia.
    + rewrite D2. unfold rake_due. simpl. by rewrite !decide_False.
    + rewrite D3. unfold withheld_due. simpl. by rewrite !decide_False.
    + intros k' Hk. destruct (Hd k') as (E1 & E2 & E3). rewrite E1. destruct (String.eqb_spec (t_id t) k'); [congruence|done].
Qed.

(** The money of a settlement. *)
Lemma settle_money k t ex :
  settleable k t ->
  Forall (fun p => 0 <= p_amount p /\ (t_status t = Voided -> p_withheld p = false)) (ComputePayouts t ex) /\
  rake_moved t = t_rake t /\
  t_rake t + zsum (map p_amount (ComputePayouts t ex)) = r_entry_fee (t_rules t) * len (t_entries t).
Proof.
  intros S. destruct (settleable_facts k t S) as (P & [_ Hm] & Hst & Hid). symmetry in Hm.
  destruct (ComputePool_exact t _ _ _ P Hm) as (Hf & Hs & _ & H0 & Hr).
  destruct (ComputePayouts_exact t ex _ _ _ P Hm) as (Hn & Hsum & _). split_and!.
  - apply Forall_forall. intros p Hp. split.
    + unfold nonneg in Hn. rewrite Forall_map, Forall_forall in Hn. by apply Hn.
    + intros E. rewrite E in Hst. destruct (Voids t) eqn:Hv; [|done]. unfold ComputePayouts in Hp. rewrite Hv in Hp.
      by apply list_elem_of_fmap in Hp as (e & -> & _).
  - unfold rake_moved. rewrite Hst. destruct (Voids t); [by rewrite Hr|]. simpl.
    destruct (Z.ltb_spec 0 (t_rake t)); lia.
  - rewrite Hsum. lia.
Qed.

Lemma ledger_inv_settle s k t ex b :
  tournament_ok k t -> tournaments s !! k = Some t -> t_status t = Closed \/ t_status t = Voided ->
  foldM post_new_only (book s) (settle_postings t ex slot ballot (ComputePayouts t ex)) = Some b ->
  ledger_inv s ->
  ledger_inv (put_tournament (set_book s b) k (settle_record t (ComputePayouts t ex) slot ballot)).
Proof.
  intros W Ht Hst Hpost L. set (t' := settle_record t _ _ _). pose proof (to_id k t W) as Hid.
  assert (S : settleable k t) by done.
  destruct (post_list_appended _ _ _ (li_wf s L) Hpost) as (Wb & qs & Hp & Hq & _).
  assert (Hne : t_status t <> Settled) by (destruct Hst; congruence).
  assert (Hre : settle_postings (reopen t') ex slot ballot (ComputePayouts t ex)
                = settle_postings t ex slot ballot (ComputePayouts t ex)).
  { destruct (settleable_facts k t S) as (_ & _ & E & _). unfold settle_postings, payout_posting.
    change (t_status (reopen t')) with (if Voids t then Voided else Closed). by rewrite <- E. }
  split; simpl.
  - done.
  - intros x Hx. rewrite Hp, elem_of_app in Hx. destruct Hx as [Hx|Hx].
    + apply (origin_put _ k t t'); auto. by apply L.
    + apply (or_settle _ _ k t' ex slot ballot (ComputePayouts t ex)); [by rewrite lookup_insert_eq|done|done|].
      rewrite Hre. apply (list_elem_of_fmap_2 unnumbered) in Hx. change (unnumbered <$> qs) with (map unnumbered qs) in Hx.
      rewrite Hq in Hx. apply list_elem_of_fmap in Hx as (y & Hy & Hin).
      assert (Hz : unnumbered y = y); [|by rewrite Hy, Hz].
      apply settle_postings_elem in Hin as [(_ & _ & ->)|(p & _ & _ & ->)]; [done|].
      unfold payout_posting. by repeat case_goal.
  - intros k' x e Hx Hin. rewrite lookup_insert in Hx. case_decide as E; [|by eapply (li_fees_grow s b qs)].
    injection Hx as <-. subst k'. by apply (li_fees_grow s b qs Hp L k t e).
  - intros k' x ps Hx Hs' Hps. rewrite lookup_insert in Hx. case_decide as E; [|by eapply (li_settled_grow s b qs)].
    injection Hx as <-. injection Hps as <-. exists ex, slot, ballot. rewrite Hre. intros p Hin.
    assert (Hu : unnumbered p ∈ map unnumbered qs) by (rewrite Hq; by apply list_elem_of_fmap_2).
    apply list_elem_of_fmap in Hu as (q & Hu & Hqin). exists q. rewrite Hp, elem_of_app. split; [by right|].
    rewrite <- Hu. apply settle_postings_elem in Hin as [(_ & _ & ->)|(p' & _ & _ & ->)]; [done|].
    unfold payout_posting. by repeat case_goal.
  - rewrite Hp. destruct (settle_money k t ex S) as (F & Hrk & Hsum).
    assert (Hd : forall c, _ /\ _ /\ _) by (intros c; exact (net_settle t ex slot ballot (ComputePayouts t ex) c F)).
    setoid_rewrite <- (net_unnumbered _ qs _ Hq) in Hd.
    destruct (Hd k) as (D1 & D2 & D3). rewrite Hid, String.eqb_refl in D1, D2, D3.
    apply accounts_ok_put; [| | | |apply L]; rewrite ?Ht.
    + rewrite D1, Hrk, Hsum. unfold pool_due. simpl. rewrite decide_False by done. lia.
    + rewrite D2, Hrk. unfold rake_due. simpl. rewrite decide_False by done. lia.
    + rewrite D3. unfold withheld_due. simpl. rewrite decide_False by done. lia.
    + intros k' Hk. destruct (Hd k') as (E1 & E2 & E3). rewrite E1, E2, E3.
      destruct (String.eqb_spec (t_id t) k'); [congruence|done].
Qed.

Lemma ledger_inv_claim s k t pid b q :
  tournaments s !! k = Some t -> t_status t = Settled -> is_Some (find_entry t pid) ->
  Post (book s) (claim_posting k pid (ClaimableAmount t pid) slot ballot) = Some (b, (q, true, None)) ->
  ledger_inv s -> ledger_inv (set_book s b).
Proof.
  intros Ht Hst Hj Hpost L. destruct (Post_appended _ _ _ _ (li_wf s L) Hpost) as (_ & _ & Hp & Hq).
  split; simpl.
  - by eapply Post_wf; [apply L|].
  - intros x Hx. rewrite Hp in Hx. apply elem_of_snoc in Hx as [Hx| ->]; [by apply L|]. by eapply or_claim.
  - by apply (li_fees_grow s b [q]).
  - by apply (li_settled_grow s b [q]).
  - assert (Hn : forall a, net a [q] = delta a (claim_posting k pid (ClaimableAmount t pid) slot ballot)).
    { intros a. rewrite (net_unnumbered a [q] [claim_posting k pid (ClaimableAmount t pid) slot ballot]) by (simpl; by rewrite Hq).
      unfold net. simpl. lia. }
    destruct (li_accounts s L) as [A1 A2 A3]. rewrite Hp. split; intros k'; rewrite net_app, Hn;
      destruct (delta_claim k pid (ClaimableAmount t pid) slot ballot k') as (D1 & D2 & D3);
      rewrite ?A1, ?A2, ?A3, ?D1, ?D2, ?D3; lia.
Qed.

Lemma change_ledger_inv s s' :
  tournaments_ok s -> ledger_inv s -> change fuel slot ballot closing s s' -> ledger_inv s'.
Proof.
  intros [T _] L C. destruct C as
    [id seed r Hk|k t player b q Ht Ha Hv Hp|k t t' i e sc digest Ht Ho Hi He Hsa Hm|k t Ht Ho|k t ex b Ht Hst Hx Hp
    | | | | | | |k t pid b q Ht Hst Hj _ _ Hp| |]; try (destruct L; by split).
  - by apply ledger_inv_create.
  - apply admit_refusal_None in Ha as [Ho _]. by eapply ledger_inv_admit; eauto.
  - destruct (mark_scored_entries t t' i e sc digest Hi Hm) as (M1 & M2 & M3 & M4 & _).
    apply (ledger_inv_same s _ k t t'); auto; rewrite ?M3; congruence.
  - destruct (close_record_fields t (if Voids t then Voided else Closed) (ComputeStandings t) (ComputePool t) slot)
      as (F1 & F2 & F3 & F4 & _).
    eapply (ledger_inv_same s _ k t); try done; rewrite ?F2, ?F4; [done|congruence|by destruct (Voids t)].
  - by apply ledger_inv_settle; auto.
  - by eapply ledger_inv_claim.
Qed.
End Preservation.

(** * New keys *)

Section Fresh.
Context `{U : Unicode}.

Lemma Has_origin s key : tournaments_ok s -> ledger_inv s -> Has (book s) key = true ->
  exists k t, tournaments s !! k = Some t /\ tournament_ok k t /\
    ((exists e, e ∈ t_entries t /\ key = FeeKey k (entry_id e)) \/
     (t_status t = Settled /\ (key = RakeKey k \/
        (exists p, payout_key_ok k p /\ key = p_key p) \/ exists pid, is_Some (find_entry t pid) /\ key = ClaimKey k pid))).
Proof.
  intros [T _] L H. apply Has_spec in H as (q & Hq & <-); [|apply L].
  assert (Hk : forall p, unnumbered q = p -> post_key q = post_key p) by (by intros p <-).
  destruct (li_origin s L q Hq) as [k t e sl bl Ht Hin Hu|k t ex sl bl ps Ht Hst Hps Hu|k t pid sl bl Ht Hst Hj Hu];
    exists k, t; (split; [done|]); pose proof (T k t Ht) as W; (split; [done|]).
  - left. exists e. split; [done|]. rewrite (Hk _ Hu). simpl. by rewrite (to_id k t W).
  - right. split; [done|]. apply settle_postings_elem in Hu as [(_ & _ & Hu)|(p & Hp & _ & Hu)].
    + left. rewrite (Hk _ Hu). simpl. by rewrite (to_id k t W).
    + right. left. exists p. split; [|by rewrite (Hk _ Hu), payout_posting_key].
      pose proof (to_phase k t W) as Hph. unfold phase_ok in Hph. rewrite Hst in Hph.
      destruct Hph as (_ & ex' & _ & E). rewrite E in Hps. injection Hps as <-.
      rewrite <- (to_id k t W). by eapply ComputePayouts_keys.
  - right. split; [done|]. right. right. exists pid. split; [done|]. by rewrite (Hk _ Hu).
Qed.

(** The fee of a player who has no entry is new. *)
Lemma fee_key_new s k t pid : tournaments_ok s -> ledger_inv s -> tournaments s !! k = Some t ->
  validID pid = true -> find_entry t pid = None -> Has (book s) (FeeKey k pid) = false.
Proof.
  intros T L Ht Hv Hf. apply not_true_iff_false. intros H.
  apply (Has_origin s _ T L) in H as (k' & t' & Ht' & W' & [(e & He & E)|(_ & [E|[(p & Hp & E)|(pid' & _ & E)]])]).
  - pose proof (proj1 T k t Ht) as W.
    destruct (keys_injective k k' pid (entry_id e) 0 0 (to_valid k t W) (to_valid k' t' W') Hv) as (K & _).
    { eapply entry_valid; [exact W'|by apply list_elem_of_fmap_2]. }
    apply K in E as [<- ->]. simplify_eq. apply find_entry_None in Hf. apply Hf. by apply list_elem_of_fmap_2.
  - discriminate.
  - destruct Hp as [Hp|[Hp|Hp]]; rewrite Hp in E; discriminate.
  - discriminate.
Qed.

Lemma payout_key_tournament k k' p p' : validID k = true -> validID k' = true ->
  payout_key_ok k p -> payout_key_ok k' p' -> p_key p = p_key p' -> k = k'.
Proof.
  intros V1%validID_no_colon V2%validID_no_colon [E1|[E1|E1]] [E2|[E2|E2]] E; rewrite E1, E2 in E; try discriminate.
  all: apply append_inj_l in E; by apply colon_inj in E as [-> _].
Qed.

(** The keys of a settlement are new before it. *)
Lemma settle_keys_new s k t ex slot ballot q : tournaments_ok s -> ledger_inv s -> tournaments s !! k = Some t ->
  settleable k t -> q ∈ settle_postings t ex slot ballot (ComputePayouts t ex) ->
  Has (book s) (post_key q) = false.
Proof.
  intros T L Ht S Hq. apply not_true_iff_false. intros H. destruct S as [W Hst].
  assert (Hkind : post_key q = RakeKey k \/ exists p, payout_key_ok k p /\ post_key q = p_key p).
  { apply settle_postings_elem in Hq as [(_ & _ & ->)|(p & Hp & _ & ->)].
    - left. simpl. by rewrite (to_id k t W).
    - right. exists p. rewrite payout_posting_key. split; [|done]. rewrite <- (to_id k t W).
      by eapply ComputePayouts_keys. }
  apply (Has_origin s _ T L) in H as (k' & t' & Ht' & W' & [(e & He & E)|(Hst' & E)]).
  { destruct Hkind as [Hk|(p & Hp & Hk)]; rewrite E in Hk; [discriminate|].
    destruct Hp as [Hp|[Hp|Hp]]; rewrite Hp in Hk; discriminate. }
  assert (Hkk : k = k' -> False) by (intros <-; simplify_eq; destruct Hst; congruence).
  apply Hkk. destruct Hkind as [Hk|(p & Hp & Hk)]; rewrite Hk in E; destruct E as [E|[(p' & Hp' & E)|(pid & _ & E)]].
  - by apply (append_inj_l "rake:").
  - destruct Hp' as [Hp'|[Hp'|Hp']]; rewrite Hp' in E; discriminate.
  - discriminate.
  - destruct Hp as [Hp|[Hp|Hp]]; rewrite Hp in E; discriminate.
  - eapply payout_key_tournament; [apply (to_valid k t W)|apply (to_valid k' t' W')|exact Hp|exact Hp'|done].
  - destruct Hp as [Hp|[Hp|Hp]]; rewrite Hp in E; discriminate.
Qed.
End Fresh.

(** * Witness *)

Lemma keys_unambiguous_witness : FeeKey "t1" "p1" <> PrizeKey "t1" "p1" 1.
Proof.
  destruct (keys_unambiguous "t1" "t1" "p1" "p1" 1 1 eq_refl eq_refl eq_refl eq_refl) as (_ & _ & _ & _ & _ & _ & H).
  intros E. apply NoDup_cons in H as [H _]. apply H. rewrite E. right. left.
Defined.
