(* ===== verification/Machine.v ===== *)
(** Every command of the tournament state machine, run on a state of the
    invariant, ends without a panic and does a sequence of the guarded changes
    of [Changes.v]; a rejected one changes nothing, or consumes the player's
    sequence number and nothing else.  From this: the invariant of reachable
    states, and the totality of [Apply]. *)

From S2P Require Import Prelude GoStd Paxos Ledger Game Records Codec Compute State Changes.
From S2P Require Import TournamentInv PlayInv LedgerInv.

Section Machine.
Context `{U : Unicode} (fuel : nat).

Record Inv (closing : option TournamentID) (s : State) : Prop := {
  inv_tournaments : tournaments_ok s;
  inv_play : play_inv fuel closing s;
  inv_ledger : ledger_inv s;
}.

Section Slot.
Context (slot : Slot) (ballot : Ballot).

Abbreviation step := (change fuel slot ballot) (only parsing).
Abbreviation steps closing := (rtc (change fuel slot ballot closing)) (only parsing).

Lemma step_inv closing s s' : Inv closing s -> step closing s s' -> Inv closing s'.
Proof.
  intros [T P L] C. split; [by eapply change_tournaments_ok|by eapply change_play_inv|by eapply change_ledger_inv].
Qed.

Lemma steps_inv closing s s' : Inv closing s -> steps closing s s' -> Inv closing s'.
Proof. intros I H. induction H; eauto using step_inv. Qed.

(** Entering and leaving the closing phase of a tournament. *)
Lemma Inv_closing s k : Inv None s -> Inv (Some k) s.
Proof.
  intros [T [P1 P2 P3 P4] L]. split; [done| |done]. split; [done..|].
  intros k' t e Ht Hg Hin Hs. destruct (P4 k' t e Ht Hg Hin Hs) as (S1 & S2 & S3). (split_and!; [done|done|]). intros Ho _. by apply S3.
Qed.

Lemma Inv_closed s k : Inv (Some k) s -> (forall t, tournaments s !! k = Some t -> t_status t <> Open) -> Inv None s.
Proof.
  intros [T [P1 P2 P3 P4] L] Hc. split; [done| |done]. split; [done..|].
  intros k' t e Ht Hg Hin Hs. destruct (P4 k' t e Ht Hg Hin Hs) as (S1 & S2 & S3). split_and!; auto. intros Ho _.
  apply S3; [done|]. intros [= <-]. by apply (Hc t).
Qed.

(** Only the events and their indexes may differ. *)
Definition same_but_events (s s' : State) : Prop :=
  tournaments s' = tournaments s /\ order s' = order s /\ results s' = results s /\ book s' = book s /\
  rounds (play s') = rounds (play s) /\ players (play s') = players (play s) /\ bindings (play s') = bindings (play s) /\
  clock s' = clock s /\ applied s' = applied s /\ mutations s' = mutations s.

Lemma record_event_steps closing s ev : ev_slot ev = slot ->
  steps closing s (recordEvent s ev) /\ same_but_events s (recordEvent s ev).
Proof. intros He. split; [by apply rtc_once, ch_event|]. repeat split. Qed.

Lemma record_leaderboard_steps closing s tid :
  steps closing s (recordLeaderboard s slot tid) /\ same_but_events s (recordLeaderboard s slot tid).
Proof.
  unfold recordLeaderboard. case_decide; [split; [done|repeat split]|]. split.
  - eapply rtc_l; [by apply ch_board|]. by apply rtc_once, ch_event.
  - repeat split.
Qed.

Lemma record_status_steps closing s k t : tournaments s !! k = Some t ->
  exists s', recordStatus s slot k = Some s' /\ steps closing s s' /\ same_but_events s s'.
Proof.
  intros Ht. unfold recordStatus, deref. rewrite Ht. simpl. eexists. split; [done|].
  destruct (record_leaderboard_steps closing
    (recordEvent s (mkEvent slot EventTournamentStatus (t_id t) "" 0 (Status_String (t_status t)) 0 0 0 0 0)) (t_id t)) as [S E].
  split; [|done]. etrans; [|exact S]. by apply rtc_once, ch_event.
Qed.

(** * Scores and rounds *)

Lemma score_entry_steps closing s k t i e :
  Inv closing s -> tournaments s !! k = Some t -> t_status t = Open -> r_game (t_rules t) <> "" ->
  t_entries t !! i = Some e -> e_scored e = false -> no_entry_in_play s k (entry_id e) ->
  closing = Some k \/ is_Some (rounds (play s) !! (k, entry_id e, 3)) ->
  exists s' t', scoreEntry s slot k i = Some s' /\ steps closing s s' /\
    tournaments s' = <[k := t']> (tournaments s) /\ rounds (play s') = rounds (play s) /\
    t_status t' = Open /\ t_rules t' = t_rules t /\ map entry_id (t_entries t') = map entry_id (t_entries t) /\
    clock s' = clock s.
Proof.
  intros I Ht Ho Hg Hi He Hn Hc. pose proof (proj1 (inv_tournaments _ _ I) k t Ht) as W.
  pose proof (entries_len k t W) as Hl. pose proof (to_id k t W) as Hid.
  unfold scoreEntry, deref. rewrite Ht. simpl. rewrite Hi. simpl.
  rewrite (mark_scored_spec t i e _ (e_input_digest e) Hi He) by lia. simpl.
  set (t' := set_entries t _). set (ev := mkEvent slot _ _ _ _ _ _ _ _ _ _).
  assert (Hm : mark_scored t i (pg_total (Progress (play s) (t_id t) (pl_id (e_player e)))) (e_input_digest e) = Some t')
    by (apply mark_scored_spec; [done..|lia]).
  destruct (mark_scored_entries _ _ _ _ _ _ Hi Hm) as (M1 & M2 & M3 & M4 & _).
  eexists _, t'. split; [done|]. split_and!; try done.
  eapply rtc_l; [|by apply rtc_once, ch_event].
  eapply (ch_score fuel slot ballot closing s k t t' i e); [done..| |exact Hm].
  unfold score_allowed. destruct (String.eqb_spec (r_game (t_rules t)) ""); [done|]. by rewrite Hid.
Qed.

(** What finishing a round leaves behind. *)
Record finished (closing : option TournamentID) (k : TournamentID) (rk : roundKey) (s s' : State) : Prop := {
  fi_steps : steps closing s s';
  fi_done : exists rec, rounds (play s') !! rk = Some rec /\ rr_status rec = RoundDone;
  fi_others : forall key, key <> rk -> rounds (play s') !! key = rounds (play s) !! key;
  fi_tournament : forall t, tournaments s !! k = Some t -> exists t', tournaments s' !! k = Some t' /\
     t_status t' = Open /\ t_rules t' = t_rules t /\ map entry_id (t_entries t') = map entry_id (t_entries t);
  fi_clock : clock s' = clock s;
}.

(** When the last round is done, every round of the entry is. *)
Lemma last_round_done s k pid rec closing :
  Inv closing s -> rounds (play s) !! (k, pid, 3) = Some rec -> rr_status rec = RoundDone -> no_entry_in_play s k pid.
Proof.
  intros I Hr Hd r x Hx. pose proof (pv_rounds _ _ _ (inv_play _ _ I)) as R.
  destruct (rk_prev _ _ _ _ _ _ _ (R _ _ _ _ Hr)) as (r2 & H2 & D2); [lia|]. change (3 - 1) with 2 in H2.
  destruct (rk_prev _ _ _ _ _ _ _ (R _ _ _ _ H2)) as (r1 & H1 & D1); [lia|]. change (2 - 1) with 1 in H1.
  pose proof (rk_range _ _ _ _ _ _ _ (R _ _ _ _ Hx)).
  assert (r = 1 \/ r = 2 \/ r = 3) as [->|[->| ->]] by lia; congruence.
Qed.

Lemma finish_round_steps closing s k t pid r rec i e board reason flag :
  Inv closing s -> tournaments s !! k = Some t -> t_status t = Open ->
  rounds (play s) !! (k, pid, r) = Some rec -> rr_status rec <> RoundDone ->
  t_entries t !! i = Some e -> entry_id e = pid ->
  (forall b, board = Some b -> Replay fuel (rr_seed rec) (rr_moves rec) = Some (b, None)) ->
  exists s', finishRound fuel s slot k i (k, pid, r) board reason flag = Some s' /\
    finished closing k (k, pid, r) s s'.
Proof.
  intros I Ht Ho Hr Hn Hi He Hb. pose proof (pv_rounds _ _ _ (inv_play _ _ I)) as R.
  destruct (R _ _ _ _ Hr) as [(F1 & F2 & F3) F4 F5 (b0 & Hb0 & _) (t0 & Ht0 & Hg & _) F6].
  assert (t0 = t) as -> by congruence. clear Ht0. subst k pid r.
  unfold finishRound, deref. rewrite Ht. simpl. rewrite Hr. simpl.
  assert (Hbd : match board with Some b => Some b | None => fst <$> Replay fuel (rr_seed rec) (rr_moves rec) end = Some b0).
  { unfold board_of in Hb0. destruct board as [b|]; [rewrite (Hb b eq_refl) in Hb0; congruence|]. by rewrite Hb0. }
  rewrite Hbd. simpl. rewrite F2. set (key := (rr_tournament rec, entry_id e, rr_round rec)) in *.
  set (rec' := done_record rec reason (Cleared b0) (Score b0) slot).
  set (s1 := set_play s (touchRound (put_round (play s) key rec') key)).
  assert (C1 : step closing s s1)
    by exact (ch_finish fuel slot ballot closing s _ t _ _ rec b0 reason Ht Ho Hr Hn Hb0).
  assert (I1 : Inv closing s1) by (by eapply step_inv).
  set (ev := mkEvent slot _ _ _ _ _ _ _ _ _ _). set (s2 := recordEvent s1 ev).
  set (s3 := if flag then s2 else recordLeaderboard s2 slot (t_id t)).
  assert (C3 : steps closing s1 s3 /\ same_but_events s1 s3).
  { destruct (record_event_steps closing s1 ev eq_refl) as [A B]. unfold s3. destruct flag; [by split|].
    destruct (record_leaderboard_steps closing s2 (t_id t)) as [A' B']. split; [by etrans|].
    unfold same_but_events in *. unfold s2. intuition congruence. }
  destruct C3 as [C3 (E1 & _ & _ & _ & E5 & _ & _ & E8 & _)].
  assert (Hd3 : rounds (play s3) !! key = Some rec') by (rewrite E5; simpl; by rewrite lookup_insert_eq).
  assert (Hfin : finished closing (rr_tournament rec) key s s3).
  { split; [by eapply rtc_l| | | |].
    - exists rec'. by split.
    - intros key' Hk. rewrite E5. simpl. by rewrite lookup_insert_ne.
    - intros t' Ht'. exists t'. rewrite E1. simpl. split_and!; try done. congruence.
    - by rewrite E8. }
  destruct (Z.eqb_spec (rr_round rec) Rounds) as [H3|]; [|by exists s3].
  rewrite Hi. simpl. destruct (e_scored e) eqn:Hes; [by exists s3|].
  assert (I3 : Inv closing s3) by (by eapply steps_inv).
  change Rounds with 3 in H3. subst key. rewrite H3 in *.
  destruct (score_entry_steps closing s3 (rr_tournament rec) t i e) as (s4 & t4 & Hs4 & C4 & T4 & R4 & S4 & U4 & M4 & K4);
    try done.
  - by rewrite E1.
  - eapply last_round_done; [exact I3|exact Hd3|done].
  - right. rewrite Hd3. eauto.
  - exists s4. split; [done|]. destruct Hfin as [G1 (x & Hx & Dx) G3 G4 G5]. split; [by etrans| | | |].
    + exists x. by rewrite R4.
    + intros key Hk. rewrite R4. by apply G3.
    + intros t' Ht'. simplify_eq. exists t4. rewrite T4, lookup_insert_eq. by split_and!.
    + congruence.
Qed.

(** * The outcome of a command *)

(** The change that consumes the next sequence number of player [pid]. *)
Definition consume (s : State) (pid : PlayerID) (ps : playerState) : State :=
  set_play s (touchPlayer (put_player (play s) pid
    (mkPlayerState (mkPlayerRecord (pr_binding (pst_rec ps)) (pr_last_seq (pst_rec ps) + 1)) (pst_entered ps))) pid).

Inductive outcome_of (closing : option TournamentID) (s s' : State) (res : Result) : Prop :=
| oc_rejected : s' = s -> res_code res <> OK -> outcome_of closing s s' res
| oc_consumed pid ps : players (play s) !! pid = Some ps -> pr_last_seq (pst_rec ps) + 1 < 2 ^ 64 ->
    s' = consume s pid ps -> res_code res <> OK -> outcome_of closing s s' res
| oc_done : steps closing s s' -> res_code res = OK -> outcome_of closing s s' res.

Definition no_conflict (res : Result) : Prop := res_code res <> LedgerConflict /\ res_replayed res = false.

(** [r] is a run to the end with that outcome. *)
Definition runs (closing : option TournamentID) (s : State) (r : option (State * Result)) : Prop :=
  exists s' res, r = Some (s', res) /\ outcome_of closing s s' res /\ no_conflict res.

Lemma runs_reject closing s res : res_code res <> OK -> no_conflict res -> runs closing s (Some (s, res)).
Proof. intros H1 H2. exists s, res. split_and!; [done| |done]. by apply oc_rejected. Qed.

(** ** Entries *)

Lemma admit_runs s k t player :
  Inv None s -> tournaments s !! k = Some t -> validID (pl_id player) = true ->
  exists s' res, admit_entrant s slot ballot k player = Some (s', res) /\ no_conflict res /\
    ((s' = s /\ res_code res <> OK /\ admit_refusal t player = Some res) \/
     (res = reject OK "" /\ step None s s' /\ play s' = play s /\
      tournaments s' !! k = Some (set_entries t (t_entries t ++ [admit_entry t player])) /\
      admit_refusal t player = None)).
Proof.
  intros I Ht Hv. pose proof (proj1 (inv_tournaments _ _ I) k t Ht) as W.
  unfold admit_entrant, deref. rewrite Ht. simpl. destruct (admit_refusal t player) as [res|] eqn:Ha.
  { exists s, res. split; [done|]. unfold no_conflict. revert Ha. unfold admit_refusal.
    repeat case_goal; intros Hq; simplify_eq/=; auto. }
  pose proof (proj1 (admit_refusal_None t player) Ha) as (_ & _ & Hf & _).
  pose proof (fee_key_new s k t (pl_id player) (inv_tournaments _ _ I) (inv_ledger _ _ I) Ht Hv Hf) as Hnew.
  rewrite <- (to_id k t W) in Hnew at 1.
  assert (Hcf : checkFresh s [fee_posting t (pl_id player) slot ballot] = None).
  { apply checkFresh_None. split; [|repeat constructor; by intros ?%not_elem_of_nil].
    intros p ->%list_elem_of_singleton. exact Hnew. }
  rewrite Hcf. destruct (Post_new (book s) (fee_posting t (pl_id player) slot ballot)) as (b & q & Hp).
  { apply (li_wf _ (inv_ledger _ _ I)). }
  { split_and!; simpl; try done. pose proof (ro_fee _ (to_rules k t W)). lia. }
  { exact Hnew. }
  rewrite Hp. simpl. eexists _, _. split; [done|]. split; [done|]. right.
  split_and!; [done|by eapply ch_admit|done|simpl; by rewrite lookup_insert_eq|done].
Qed.

Lemma join_runs s tid player : Inv None s -> runs None s (join s slot ballot tid player).
Proof.
  intros I. unfold join. destruct (ValidatePlayer player) eqn:Hv; [by apply runs_reject|].
  destruct (tournaments s !! tid) as [t|] eqn:Ht; [|by apply runs_reject].
  destruct (negb (String.eqb (r_game (t_rules t)) "")); [by apply runs_reject|].
  apply ValidatePlayer_None in Hv as (Hv & _).
  destruct (admit_runs s tid t player I Ht Hv) as (s' & res & -> & Hnc & [(-> & Hc & _)|(-> & C & _)]); simpl.
  - rewrite decide_False by done. by apply runs_reject.
  - eexists _, _. split; [done|]. split; [|done]. apply oc_done; [by apply rtc_once|done].
Qed.

Lemma create_runs s id seed r : rules_typed r -> Inv None s -> runs None s (Some (create s slot id seed r)).
Proof.
  intros Hty I. unfold create. unfold ValidateTournamentID. destruct (validID id) eqn:Hv; simpl; [|by apply runs_reject].
  destruct (ValidateRules r) eqn:Hr; [by apply runs_reject|]. apply ValidateRules_None in Hr; [|done].
  destruct (tournaments s !! id) eqn:Ht; [by apply runs_reject|].
  eexists _, _. split; [done|]. split; [|done]. apply oc_done; [|done]. apply rtc_once.
  apply (ch_create fuel slot ballot None s id seed (set_exclusions r (canonicalExclusions (r_exclusions r)))); auto.
  - destruct Hr. split; auto. simpl. by apply canonical_ok.
  - apply canonical_idempotent.
Qed.

Lemma score_runs s tid player sc seed digest : Inv None s -> runs None s (score s tid player sc seed digest).
Proof.
  intros I. unfold score. destruct (tournaments s !! tid) as [t|] eqn:Ht; [|by apply runs_reject].
  destruct (String.eqb_spec (r_game (t_rules t)) "") as [Hg|]; simpl; [|by apply runs_reject].
  case_bool_decide as Ho; simpl; [|by apply runs_reject].
  destruct (entry_index t player) as [i|] eqn:Hi; [|by apply runs_reject].
  apply entry_index_Some in Hi as (e & Hi & Hid). rewrite Hi. simpl.
  destruct (e_scored e) eqn:He; [by apply runs_reject|].
  destruct (seed =? t_seed t); simpl; [|by apply runs_reject].
  destruct (Z.ltb_spec sc 0), (Z.ltb_spec (r_max_score (t_rules t)) sc); simpl; try by apply runs_reject.
  pose proof (entries_len tid t (proj1 (inv_tournaments _ _ I) tid t Ht)) as Hl.
  pose proof (mark_scored_spec t i e sc digest Hi He ltac:(lia)) as Hm. rewrite Hm. simpl.
  eexists _, _. split; [done|]. split; [|done]. apply oc_done; [|done]. apply rtc_once.
  eapply ch_score; eauto. unfold score_allowed. by rewrite Hg.
Qed.

(** ** Close and Settle *)

(** Rounds in play only disappear; the record of [k] stays open with the same
    entrants and rules. *)
Record closing_step (k : TournamentID) (s s' : State) : Prop := {
  cs_steps : steps (Some k) s s';
  cs_in_play : forall key rec, rounds (play s') !! key = Some rec -> rr_status rec <> RoundDone ->
    exists rec0, rounds (play s) !! key = Some rec0 /\ rr_status rec0 <> RoundDone;
  cs_tournament : forall t, tournaments s !! k = Some t -> exists t', tournaments s' !! k = Some t' /\
    t_status t' = t_status t /\ t_rules t' = t_rules t /\ map entry_id (t_entries t') = map entry_id (t_entries t);
}.

#[local] Instance closing_step_refl k : Reflexive (closing_step k).
Proof. intros s. split; [done|eauto|]. intros t Ht. eauto. Qed.

#[local] Instance closing_step_trans k : Transitive (closing_step k).
Proof.
  intros s1 s2 s3 [A1 A2 A3] [B1 B2 B3]. split; [by etrans| |].
  - intros key rec H Hn. destruct (B2 key rec H Hn) as (r & Hr & Hrn). by eapply A2.
  - intros t Ht. destruct (A3 t Ht) as (t2 & H2 & E1 & E2 & E3). destruct (B3 t2 H2) as (t3 & H3 & F1 & F2 & F3).
    exists t3. split_and!; congruence.
Qed.

Lemma finished_closing k rk s s' : finished (Some k) k rk s s' ->
  (forall rec, rounds (play s) !! rk = Some rec -> rr_status rec <> RoundDone) ->
  (forall t, tournaments s !! k = Some t -> t_status t = Open) -> closing_step k s s'.
Proof.
  intros [F1 (rec & Hr & Hd) F3 F4 F5] Hin Ho. split; [done| |].
  - intros key x Hx Hn. destruct (decide (key = rk)) as [->|Hne]; [congruence|].
    rewrite F3 in Hx by done. eauto.
  - intros t Ht. destruct (F4 t Ht) as (t' & H1 & H2 & H3 & H4). exists t'. rewrite (Ho t Ht). auto.
Qed.

(** Tournament [k], open, a play tournament, with the given entrants. *)
Definition closing_record (k : TournamentID) (ids : list PlayerID) (s : State) : Prop :=
  Inv (Some k) s /\ exists t, tournaments s !! k = Some t /\ t_status t = Open /\ r_game (t_rules t) <> "" /\
    map entry_id (t_entries t) = ids.

Lemma closing_record_step k ids s s' : closing_record k ids s -> closing_step k s s' -> closing_record k ids s'.
Proof.
  intros (I & t & Ht & Ho & Hg & He) [C1 _ C3]. split; [by eapply steps_inv|].
  destruct (C3 t Ht) as (t' & H1 & H2 & H3 & H4). exists t'. split_and!; congruence.
Qed.

Lemma entry_at k ids s t i pid : closing_record k ids s -> tournaments s !! k = Some t -> ids !! i = Some pid ->
  exists e, t_entries t !! i = Some e /\ entry_id e = pid.
Proof.
  intros (_ & t' & Ht' & _ & _ & He) Ht Hi. simplify_eq. change (map entry_id ?l) with (entry_id <$> l) in Hi.
  apply list_lookup_fmap_Some in Hi as (e & -> & Hi). eauto.
Qed.

Lemma close_round_step k ids i pid s r :
  closing_record k ids s -> ids !! i = Some pid ->
  exists s', close_round fuel slot k i s r = Some s' /\ closing_record k ids s' /\ closing_step k s s' /\
    (forall rec, rounds (play s') !! (k, pid, r) = Some rec -> rr_status rec = RoundDone).
Proof.
  intros P Hpid. pose proof P as (I & t & Ht & Ho & Hg & He).
  destruct (entry_at k ids s t i pid P Ht Hpid) as (e & Hi & Hid).
  pose proof (to_id k t (proj1 (inv_tournaments _ _ I) k t Ht)) as Hk.
  unfold close_round, deref. rewrite Ht. simpl. rewrite Hi. simpl. rewrite Hk. change (pl_id (e_player e)) with (entry_id e).
  rewrite Hid. destruct (rounds (play s) !! (k, pid, r)) as [rec|] eqn:Hr.
  2:{ exists s. split_and!; [done|done|done|]. intros rec Hrec. congruence. }
  destruct (String.eqb_spec (rr_status rec) RoundDone) as [Hd|Hn].
  { exists s. split_and!; [done|done|done|]. intros rec' Hrec. congruence. }
  destruct (finish_round_steps (Some k) s k t pid r rec i e None (finish_reason s rec FClosed) true)
    as (s' & -> & F); try done.
  assert (C : closing_step k s s').
  { apply (finished_closing k (k, pid, r) s s' F); intros; congruence. }
  exists s'. split_and!; [done|by eapply closing_record_step|done|].
  intros rec' Hrec'. destruct (fi_done _ _ _ _ _ F) as (x & Hx & Hd). congruence.
Qed.

Lemma close_entry_step k ids i pid s :
  closing_record k ids s -> ids !! i = Some pid -> no_round_in_play s k ->
  exists s', close_entry slot k s i = Some s' /\ closing_record k ids s' /\ closing_step k s s' /\
    rounds (play s') = rounds (play s).
Proof.
  intros P Hpid Hn. pose proof P as (I & t & Ht & Ho & Hg & He).
  destruct (entry_at k ids s t i pid P Ht Hpid) as (e & Hi & Hid).
  unfold close_entry, deref. rewrite Ht. simpl. rewrite Hi. simpl.
  destruct (e_scored e) eqn:Hs; [by exists s|]. case_goal; [|by exists s].
  destruct (score_entry_steps (Some k) s k t i e) as (s' & t' & -> & C & T & R & S & U' & M & K); try done; [..|by left|].
  { intros r rec. apply Hn. }
  assert (Cs : closing_step k s s').
  { split; [done|by rewrite R; eauto|]. intros t0 Ht0. simplify_eq. exists t'. rewrite T, lookup_insert_eq.
    split_and!; congruence. }
  exists s'. split_and!; [done|by eapply closing_record_step|done|done].
Qed.

Lemma close_rounds_steps s k t :
  Inv (Some k) s -> tournaments s !! k = Some t -> t_status t = Open -> r_game (t_rules t) <> "" ->
  exists s', closeRounds fuel s slot k = Some s' /\ closing_step k s s' /\ no_round_in_play s' k.
Proof.
  intros I Ht Ho Hg. set (ids := map entry_id (t_entries t)).
  assert (P : closing_record k ids s) by (split; [done|]; exists t; done).
  unfold closeRounds, deref. rewrite Ht. cbn [mbind option_bind].
  assert (Hids : forall i, i ∈ seq 0 (length (t_entries t)) -> exists pid, ids !! i = Some pid).
  { intros i Hi. apply elem_of_seq in Hi. destruct (lookup_lt_is_Some_2 ids i) as [pid ?]; [|eauto].
    unfold ids. rewrite length_map. lia. }
  destruct (foldM_each (closing_record k ids) (closing_step k)
    (fun i s => forall pid r rec, ids !! i = Some pid -> 1 <= r <= 3 -> rounds (play s) !! (k, pid, r) = Some rec -> rr_status rec = RoundDone)
    (fun s i => foldM (close_round fuel slot k i) s [1; 2; 3]) (seq 0 (length (t_entries t))) s)
    as (s1 & E1 & P1 & R1 & Q1); try apply _; [|done| |].
  { intros i b1 b2 _ [_ C _] Q pid r rec Hi Hr Hx. destruct (decide (rr_status rec = RoundDone)) as [|Hn]; [done|].
    destruct (C _ _ Hx Hn) as (rec0 & H0 & Hn0). destruct Hn0. eauto. }
  { intros b i Hi Pb. destruct (Hids i Hi) as [pid Hpid].
    destruct (foldM_each (closing_record k ids) (closing_step k)
      (fun r s => forall rec, rounds (play s) !! (k, pid, r) = Some rec -> rr_status rec = RoundDone)
      (close_round fuel slot k i) [1; 2; 3] b) as (b' & E' & P' & R' & Q'); try apply _; [|done| |].
    - intros r b1 b2 _ [_ C _] Q rec Hx. destruct (decide (rr_status rec = RoundDone)) as [|Hn]; [done|].
      destruct (C _ _ Hx Hn) as (rec0 & H0 & Hn0). destruct Hn0. eauto.
    - intros b1 r _ Pb1. by apply close_round_step.
    - exists b'. split_and!; [done|done|done|]. intros pid' r rec Hpid' Hr Hx. simplify_eq.
      apply (Q' r); [|done]. assert (r = 1 \/ r = 2 \/ r = 3) as [->|[->| ->]] by lia; set_solver. }
  assert (N1 : no_round_in_play s1 k).
  { intros p r rec Hx. destruct P1 as (I1 & t1 & Ht1 & Ho1 & _ & He1).
    pose proof (pv_rounds _ _ _ (inv_play _ _ I1) _ _ _ _ Hx) as [_ F2 _ _ (t1' & Ht1' & _ & Hj & _) _].
    assert (t1' = t1) as -> by congruence.
    apply find_entry_is_Some in Hj. rewrite He1 in Hj. apply list_elem_of_lookup in Hj as [i Hi].
    apply (Q1 i) with (pid := p) (r := r); try done. apply elem_of_seq. apply lookup_lt_Some in Hi.
    unfold ids in Hi. rewrite length_map in Hi. lia. }
  rewrite E1. cbn [mbind option_bind].
  destruct (foldM_each (fun s => closing_record k ids s /\ no_round_in_play s k) (closing_step k) (fun _ _ => True)
    (close_entry slot k) (seq 0 (length (t_entries t))) s1) as (s2 & E2 & [P2 N2] & R2 & _); try apply _; [done|done| |].
  { intros b i Hi [Pb Nb]. destruct (Hids i Hi) as [pid Hpid].
    destruct (close_entry_step k ids i pid b Pb Hpid Nb) as (b' & E' & P' & C' & R'). exists b'. split_and!; try done.
    intros p r rec. rewrite R'. apply Nb. }
  exists s2. split_and!; [done|by etrans|done].
Qed.

Lemma close_runs s tid : Inv None s -> runs (Some tid) s (close fuel s slot tid) /\
  (forall s' res, close fuel s slot tid = Some (s', res) -> Inv None s').
Proof.
  intros I. unfold close. destruct (tournaments s !! tid) as [t|] eqn:Ht.
  2:{ split; [by apply runs_reject|]. by intros s' res [= <- _]. }
  case_bool_decide as Ho; simpl.
  2:{ split; [by apply runs_reject|]. by intros s' res [= <- _]. }
  pose proof (Inv_closing s tid I) as I'.
  assert (H1 : exists s1 t1, (if String.eqb (r_game (t_rules t)) "" then Some s else closeRounds fuel s slot tid) = Some s1 /\
    steps (Some tid) s s1 /\ tournaments s1 !! tid = Some t1 /\ t_status t1 = Open /\ no_round_in_play s1 tid).
  { destruct (String.eqb_spec (r_game (t_rules t)) "") as [Hg|Hg].
    - exists s, t. split_and!; try done. intros p r rec Hr.
      pose proof (pv_rounds _ _ _ (inv_play _ _ I) _ _ _ _ Hr) as [_ _ _ _ (t' & Ht' & Hg' & _) _]. congruence.
    - destruct (close_rounds_steps s tid t I' Ht Ho Hg) as (s1 & E1 & [C1 _ C3] & N1).
      destruct (C3 t Ht) as (t1 & Ht1 & Hs1 & _). exists s1, t1. split_and!; (done || congruence). }
  destruct H1 as (s1 & t1 & -> & C1 & Ht1 & Ho1 & N1). simpl. unfold deref. rewrite Ht1. simpl.
  set (t' := close_record t1 _ _ _ slot). set (s2 := put_tournament s1 tid t').
  assert (C2 : step (Some tid) s1 s2) by (by apply ch_close).
  assert (Ht2 : tournaments s2 !! tid = Some t') by apply lookup_insert_eq.
  assert (Hcl : t_status t' <> Open).
  { destruct (close_record_fields t1 (if Voids t1 then Voided else Closed) (ComputeStandings t1) (ComputePool t1) slot)
      as (_ & _ & _ & E & _). unfold t'. rewrite E. by destruct (Voids t1). }
  assert (H3 : exists s3, (if String.eqb (r_game (t_rules t')) "" then Some s2 else recordStatus s2 slot tid) = Some s3 /\
    steps (Some tid) s2 s3 /\ tournaments s3 = tournaments s2).
  { destruct (String.eqb (r_game (t_rules t')) ""); [by exists s2|].
    destruct (record_status_steps (Some tid) s2 tid t' Ht2) as (s3 & E3 & C3 & (T3 & _)). eauto. }
  destruct H3 as (s3 & -> & C3 & T3). simpl.
  assert (C : steps (Some tid) s s3) by (etrans; [exact C1|]; by eapply rtc_l).
  split.
  - eexists _, _. split; [done|]. split; [|done]. by apply oc_done.
  - intros s' res [= <- _]. apply (Inv_closed s3 tid); [by eapply steps_inv|].
    intros t3. rewrite T3, Ht2. by intros [= <-].
Qed.

Lemma settle_runs s tid exclusions : Inv None s -> runs None s (settle s slot ballot tid exclusions).
Proof.
  intros I. unfold settle. destruct (ValidateExclusions exclusions) eqn:Hx; [by apply runs_reject|].
  apply ValidateExclusions_None in Hx. destruct (tournaments s !! tid) as [t|] eqn:Ht; [|by apply runs_reject].
  destruct (negb (bool_decide (t_status t = Closed)) && negb (bool_decide (t_status t = Voided))) eqn:Hst;
    [by apply runs_reject|].
  assert (Hst' : t_status t = Closed \/ t_status t = Voided).
  { apply andb_false_iff in Hst as [Hst|Hst]; apply negb_false_iff, bool_decide_eq_true in Hst; auto. }
  clear Hst. set (ex := canonicalExclusions exclusions). set (ps := settle_postings t ex slot ballot _).
  pose proof (inv_tournaments _ _ I) as T. pose proof (inv_ledger _ _ I) as L.
  assert (S : settleable tid t) by (split; [by apply T|done]).
  assert (Hval : Forall valid_posting ps) by apply settle_postings_valid.
  assert (Hnew : forall p, p ∈ ps -> Has (book s) (post_key p) = false).
  { intros p Hp. by apply (settle_keys_new s tid t ex slot ballot p T L Ht S). }
  assert (Hnd : NoDup (map post_key ps)) by (by apply (settle_postings_keys tid)).
  assert (Hfe : first_error Validate ps = None).
  { apply first_error_None. intros p Hp. apply Validate_None. by rewrite Forall_forall in Hval; apply Hval. }
  rewrite Hfe, (proj2 (checkFresh_None s ps)) by done.
  destruct (post_list_new (book s) ps (li_wf _ L) Hval Hnd Hnew) as [b Hb]. rewrite Hb. simpl.
  set (s1 := put_tournament (set_book s b) tid _).
  assert (C1 : step None s s1) by (apply (ch_settle fuel slot ballot None s tid t ex b); auto; by apply canonical_ok).
  assert (Hev : forall s0 l, steps None s0 (foldl (fun s p => if negb (p_withheld p) && (0 <? p_amount p)
      then recordEvent s (payout_available (settle_record t (ComputePayouts t ex) slot ballot) slot p) else s) s0 l)).
  { intros s0 l. revert s0. induction l as [|p l IH]; intros s0; simpl; [done|]. case_goal; [|apply IH].
    eapply rtc_l; [|apply IH]. by apply ch_event. }
  destruct (String.eqb (r_game (t_rules t)) "").
  - simpl. eexists _, _. split; [done|]. split; [|done]. apply oc_done; [by apply rtc_once|done].
  - destruct (record_status_steps None s1 tid _ (lookup_insert_eq _ _ _)) as (s2 & E2 & C2 & _).
    rewrite E2. simpl. eexists _, _. split; [done|]. split; [|done]. apply oc_done; [|done].
    eapply rtc_l; [exact C1|]. etrans; [exact C2|]. apply Hev.
Qed.

(** ** Play commands *)

Lemma open_session_runs s received device verifier player jur age :
  Inv None s -> runs None s (openSession s slot received device verifier player jur age).
Proof.
  intros I. destruct (pv_bindings _ _ _ (inv_play _ _ I)) as [B1 B2]. unfold openSession.
  destruct (negb (validLowerHex device deviceIDLen) || bool_decide (verifier = zero32)); [by apply runs_reject|].
  destruct (bindings (play s) !! device) as [b|] eqn:Hb.
  - case_bool_decide; simpl; [|by apply runs_reject].
    destruct (B1 device b Hb) as (_ & ps & -> & _). simpl.
    eexists _, _. split; [done|]. split; [|done]. by apply oc_done.
  - destruct (ValidatePlayer _) eqn:Hv; [by apply runs_reject|].
    case_bool_decide as Hp; [by apply runs_reject|]. apply eq_None_not_Some in Hp.
    eexists _, _. split; [done|]. split; [|done]. apply oc_done; [|done]. apply rtc_once.
    by apply (ch_bind fuel slot ballot None s (mkBinding device verifier player jur age slot)).
Qed.

Lemma sequenced_spec s pid seq tid : Inv None s ->
  match sequenced s pid seq tid with
  | (s', Some rej) => outcome_of None s s' rej /\ no_conflict rej
  | (s', None) => exists ps t, players (play s) !! pid = Some ps /\ pr_last_seq (pst_rec ps) + 1 < 2 ^ 64 /\
      seq = pr_last_seq (pst_rec ps) + 1 /\ s' = consume s pid ps /\
      tournaments s !! tid = Some t /\ r_game (t_rules t) <> ""
  end.
Proof.
  intros I. destruct (pv_bindings _ _ _ (inv_play _ _ I)) as [_ B2]. unfold sequenced.
  destruct (players (play s) !! pid) as [ps|] eqn:Hp; [|split; [by apply oc_rejected|done]].
  destruct (B2 pid ps Hp) as (_ & _ & _ & _ & _ & Hl). set (last := pr_last_seq (pst_rec ps)) in *.
  destruct (Z.leb_spec seq last); [split; [by apply oc_rejected|done]|].
  destruct (Z.ltb_spec (u64 (last + 1)) seq) as [|Hs]; [split; [by apply oc_rejected|done]|].
  assert (Hnw : last + 1 < 2 ^ 64).
  { destruct (Z.eq_dec (last + 1) (2 ^ 64)) as [E|]; [|lia]. rewrite E in Hs. change (u64 (2 ^ 64)) with 0 in Hs. lia. }
  rewrite u64_id in Hs by (unfold in_u64; lia). assert (seq = last + 1) as -> by lia.
  change (set_play s _) with (consume s pid ps). simpl.
  destruct (tournaments s !! tid) as [t|] eqn:Ht.
  - destruct (String.eqb_spec (r_game (t_rules t)) ""); [split; [by eapply oc_consumed|done]|]. by exists ps, t.
  - split; [by eapply oc_consumed|done].
Qed.

Lemma consume_step closing s pid ps :
  players (play s) !! pid = Some ps -> pr_last_seq (pst_rec ps) + 1 < 2 ^ 64 -> step closing s (consume s pid ps).
Proof. intros. by eapply ch_seq. Qed.

(** The outcome of the rest of a sequenced command. *)
Definition goes_on (s : State) (r : option (State * Result)) : Prop :=
  exists s' res, r = Some (s', res) /\ no_conflict res /\
    ((s' = s /\ res_code res <> OK) \/ (steps None s s' /\ res_code res = OK)).

Lemma goes_on_reject s res : res_code res <> OK -> no_conflict res -> goes_on s (Some (s, res)).
Proof. intros H1 H2. exists s, res. auto. Qed.

Lemma goes_on_done s s' res :
  steps None s s' -> res_code res = OK /\ res_replayed res = false -> goes_on s (Some (s', res)).
Proof. intros H1 [H2 H3]. exists s', res. unfold no_conflict. rewrite H2. auto. Qed.

(** How a sequenced command goes on: [f] runs on the state after the number is
    consumed. *)
Lemma sequenced_runs s pid seq tid (f : State -> option (State * Result)) :
  Inv None s ->
  (forall ps t, players (play s) !! pid = Some ps -> tournaments s !! tid = Some t -> r_game (t_rules t) <> "" ->
     tournament_ok tid t -> Inv None (consume s pid ps) ->
     outcome (consume s pid ps) pid = Some (seq_outcome pid (u64 (pr_last_seq (pst_rec ps) + 1 + 1))) ->
     goes_on (consume s pid ps) (f (consume s pid ps))) ->
  runs None s (match sequenced s pid seq tid with (s', Some rej) => Some (s', rej) | (s', None) => f s' end).
Proof.
  intros I Hf. pose proof (sequenced_spec s pid seq tid I) as H.
  destruct (sequenced s pid seq tid) as [s' [rej|]]; [destruct H; by exists s', rej|].
  destruct H as (ps & t & Hp & Hl & -> & -> & Ht & Hg).
  pose proof (consume_step None s pid ps Hp Hl) as C. pose proof (step_inv _ _ _ I C) as I1.
  destruct (Hf ps t Hp Ht Hg (proj1 (inv_tournaments _ _ I) tid t Ht) I1) as (s2 & res & E & Hn & O).
  { unfold outcome, consume. simpl. by rewrite lookup_insert_eq. }
  exists s2, res. split_and!; [done| |done]. destruct O as [[-> Hc]|[C2 Hc]].
  - by eapply oc_consumed.
  - apply oc_done; [by eapply rtc_l|done].
Qed.

Lemma enter_runs s tid player seq : Inv None s -> runs None s (enterPlay s slot ballot tid player seq).
Proof.
  intros I. unfold enterPlay. apply sequenced_runs; [done|]. intros ps t Hp Ht Hg W I1 Hout.
  set (s1 := consume s player ps) in *.
  assert (Hp1 : players (play s1) !! player = Some (mkPlayerState
    (mkPlayerRecord (pr_binding (pst_rec ps)) (pr_last_seq (pst_rec ps) + 1)) (pst_entered ps)))
    by (simpl; by rewrite lookup_insert_eq).
  rewrite Hp1. simpl. set (pl := mkPlayer player _ _).
  assert (Ht1 : tournaments s1 !! tid = Some t) by done.
  assert (Hv : validID (pl_id pl) = true).
  { by destruct (proj2 (pv_bindings _ _ _ (inv_play _ _ I)) player ps Hp) as (_ & _ & ? & _). }
  destruct (admit_runs s1 tid t pl I1 Ht1 Hv) as (s2 & res & -> & Hnc & [(-> & Hc & _)|(-> & C & Hpl & Ht2 & Ha)]); simpl.
  - rewrite Hout. simpl. rewrite decide_False by done. by apply goes_on_reject.
  - unfold outcome in *. rewrite Hpl, Hp1. simpl. unfold deref. rewrite Ht2. simpl. rewrite last_snoc. simpl.
    apply goes_on_done; [|done]. eapply rtc_l; [exact C|]. apply rtc_once. rewrite (to_id tid t W).
    assert (Hj : is_Some (find_entry (set_entries t (t_entries t ++ [admit_entry t pl])) player)).
    { apply find_entry_is_Some. simpl. rewrite map_app, elem_of_app. right. by left. }
    assert (Hnew : tid ∉ pst_entered ps).
    { intros Hin. destruct (pv_entered _ _ _ (inv_play _ _ I) player ps tid Hp Hin) as (t' & Ht' & He).
      apply admit_refusal_None in Ha as (_ & _ & Hf & _). simplify_eq. change (pl_id pl) with player in Hf. rewrite Hf in He. by destruct He. }
    pose proof (ch_enter fuel slot ballot None s2 tid _ player _ Ht2 Hj (eq_trans (f_equal (fun p => players p !! player) Hpl) Hp1) Hnew) as Ce.
    rewrite Hpl in Ce. exact Ce.
Qed.

(** In an open tournament a player without a round [r] is not scored. *)
Lemma undealt_unscored s k t pid r : Inv None s -> tournaments s !! k = Some t -> t_status t = Open ->
  r_game (t_rules t) <> "" -> validRound r = true -> rounds (play s) !! (k, pid, r) = None -> entry_unscored t pid.
Proof.
  intros I Ht Ho Hg Hr Hn e Hin Hid. destruct (e_scored e) eqn:Hs; [|done]. exfalso.
  destruct (pv_scored _ _ _ (inv_play _ _ I) k t e Ht Hg Hin Hs) as (_ & _ & H3). unfold entry_id in H3. rewrite Hid in H3.
  destruct (H3 Ho ltac:(done)) as [r3 H]. pose proof (pv_rounds _ _ _ (inv_play _ _ I)) as R.
  destruct (rk_prev _ _ _ _ _ _ _ (R _ _ _ _ H)) as (r2 & H2 & D2); [lia|]. change (3 - 1) with 2 in H2.
  destruct (rk_prev _ _ _ _ _ _ _ (R _ _ _ _ H2)) as (r1 & H1 & D1); [lia|]. change (2 - 1) with 1 in H1.
  apply validRound_spec in Hr. assert (r = 1 \/ r = 2 \/ r = 3) as [->|[->| ->]] by lia; congruence.
Qed.

Lemma start_round_runs s tid player seq round seed :
  is_Some (Deal fuel seed) -> Inv None s -> runs None s (startRound s slot tid player seq round seed).
Proof.
  intros Hd I. unfold startRound. apply sequenced_runs; [done|]. intros ps t Hp Ht Hg W I1 Hout.
  set (s1 := consume s player ps) in *. assert (Ht1 : tournaments s1 !! tid = Some t) by done. clearbody s1.
  unfold deref. rewrite Ht1, Hout. simpl.
  case_bool_decide as Ho; simpl; [|by apply goes_on_reject].
  case_bool_decide as Hj; simpl; [|by apply goes_on_reject].
  destruct (validRound round) eqn:Hr; simpl; [|by apply goes_on_reject].
  rewrite (to_id tid t W). case_bool_decide as Hnew; simpl; [by apply goes_on_reject|].
  apply eq_None_not_Some in Hnew. destruct (previous_unfinished _ t player round) eqn:Hprev; [by apply goes_on_reject|].
  apply goes_on_done; [|done]. eapply rtc_l; [|by apply rtc_once, ch_event].
  eapply (ch_deal fuel slot ballot None s1 tid t player round seed); try done.
  by apply (undealt_unscored s1 tid t player round).
Qed.

(** What [roundFor] found. *)
Lemma roundFor_spec s t k pid round out : t_id t = k ->
  match roundFor s t pid round out with
  | inl (rk, i) => rk = (k, pid, round) /\ exists e rec, t_entries t !! i = Some e /\ entry_id e = pid /\
      rounds (play s) !! rk = Some rec
  | inr rej => res_code rej <> OK /\ no_conflict rej
  end.
Proof.
  intros <-. unfold roundFor. destruct (entry_index t pid) as [i|] eqn:Hi; [|done].
  apply entry_index_Some in Hi as (e & Hi & Hid). destruct (validRound round); simpl; [|done].
  destruct (rounds (play s) !! (t_id t, pid, round)) as [rec|] eqn:Hr; [|done]. eauto 10.
Qed.

Lemma finish_runs s tid player seq round : Inv None s -> runs None s (finishRoundCmd fuel s slot tid player seq round).
Proof.
  intros I. unfold finishRoundCmd. apply sequenced_runs; [done|]. intros ps t Hp Ht Hg W I1 Hout.
  set (s1 := consume s player ps) in *. assert (Ht1 : tournaments s1 !! tid = Some t) by done. clearbody s1.
  unfold deref. rewrite Ht1, Hout. simpl. set (out := with_round _ round).
  pose proof (roundFor_spec s1 t tid player round out (to_id tid t W)) as Hrf.
  destruct (roundFor s1 t player round out) as [[rk i]|rej]; [|by apply goes_on_reject; apply Hrf].
  destruct Hrf as (-> & e & rec & Hi & Hid & Hr). rewrite Hr. simpl.
  destruct (String.eqb_spec (rr_status rec) RoundDone) as [Hd|Hnd]; [by apply goes_on_done|].
  case_bool_decide as Ho; simpl; [|by apply goes_on_reject].
  destruct (finish_round_steps None s1 tid t player round rec i e None (finish_reason s1 rec FResigned) false)
    as (s2 & -> & F); try done. simpl.
  apply goes_on_done; [apply F|done].
Qed.

Lemma play_move_runs s tid player seq round index mv :
  Inv None s -> runs None s (playMove fuel s slot tid player seq round index mv).
Proof.
  intros I. unfold playMove. apply sequenced_runs; [done|]. intros ps t Hp Ht Hg W I1 Hout.
  set (s1 := consume s player ps) in *. assert (Ht1 : tournaments s1 !! tid = Some t) by done. clearbody s1.
  unfold deref. rewrite Ht1, Hout. simpl. set (out := with_round _ round).
  case_bool_decide as Ho; simpl; [|by apply goes_on_reject].
  pose proof (roundFor_spec s1 t tid player round out (to_id tid t W)) as Hrf.
  destruct (roundFor s1 t player round out) as [[rk i]|rej]; [|by apply goes_on_reject; apply Hrf].
  destruct Hrf as (-> & e & rec & Hi & Hid & Hr). rewrite Hr. simpl.
  destruct (String.eqb_spec (rr_status rec) RoundDone) as [Hd|Hnd]; [by apply goes_on_reject|].
  destruct (Z.ltb_spec (rr_deadline_ms rec) (clock s1)); [by apply goes_on_reject|].
  destruct (index =? len (rr_moves rec)); simpl; [|by apply goes_on_reject].
  destruct (rk_board _ _ _ _ _ _ _ (pv_rounds _ _ _ (inv_play _ _ I1) _ _ _ _ Hr)) as (b & Hb & _).
  pose proof (board_of_wf fuel rec b Hb) as Wb. unfold board_of in Hb. rewrite Hb. simpl.
  destruct (apply_board_wf b mv Wb) as [(err & _ & Ha)|(_ & b' & Ha & Wb' & _)]; rewrite Ha; simpl;
    [by apply goes_on_reject|].
  rewrite (to_id tid t W). set (rec' := add_move rec mv slot).
  set (s2 := set_play s1 (touchRound (put_round (play s1) (tid, player, round) rec') (tid, player, round))).
  assert (C2 : step None s1 s2) by (by eapply (ch_move fuel slot ballot None s1 tid t player round rec b mv b')).
  destruct (Over_wf b' Wb') as [o Ho']. rewrite Ho'. simpl. destruct o as [reason|].
  - assert (Hrep : Replay fuel (rr_seed rec') (rr_moves rec') = Some (b', None)).
    { unfold Replay in *. simpl. destruct (Deal fuel (rr_seed rec)); [|done]. simpl in *. by eapply replay_from_snoc. }
    destruct (finish_round_steps None s2 tid t player round rec' i e (Some b') reason false)
      as (s3 & E3 & F); try done.
    + by eapply step_inv.
    + simpl. by rewrite lookup_insert_eq.
    + by intros ? [= <-].
    + rewrite E3. simpl. apply goes_on_done; [|done]. eapply rtc_l; [exact C2|]. apply F.
  - simpl. apply goes_on_done; [by apply rtc_once|done].
Qed.

Lemma claim_runs s tid player seq : Inv None s -> runs None s (claimPayout s slot ballot tid player seq).
Proof.
  intros I. unfold claimPayout. apply sequenced_runs; [done|]. intros ps t Hp Ht Hg W I1 Hout.
  set (s1 := consume s player ps) in *. assert (Ht1 : tournaments s1 !! tid = Some t) by done. clearbody s1.
  unfold deref. rewrite Ht1, Hout. simpl.
  case_bool_decide as Hj; simpl; [|by apply goes_on_reject].
  case_bool_decide as Hs; simpl; [|by apply goes_on_reject].
  destruct (Z.leb_spec (ClaimableAmount t player) 0) as [|Ha]; [by apply goes_on_reject|].
  rewrite (to_id tid t W). destruct (Has (book s1) (ClaimKey tid player)) eqn:Hh; [by apply goes_on_reject|].
  destruct (Post_new (book s1) (claim_posting tid player (ClaimableAmount t player) slot ballot)) as (b & q & Hpost).
  { apply (li_wf _ (inv_ledger _ _ I1)). }
  { split_and!; done. }
  { exact Hh. }
  rewrite Hpost. simpl. apply goes_on_done; [|done].
  eapply rtc_l; [|by apply rtc_once, ch_event]. by eapply (ch_claim fuel slot ballot None s1 tid t player).
Qed.
End Slot.
End Machine.
