(* ===== verification/Reach.v ===== *)
(** [Apply] on reachable states: it never panics, keeps the invariant, makes
    each idempotency key execute at most once, and changes nothing on a replay
    or a rejection; what is final stays final (settled tournaments, finished
    rounds, device bindings, recorded results, posted money). *)

From S2P Require Import Prelude GoStd Paxos Ledger Game Records Codec Compute State Changes.
From S2P Require Import TournamentInv PlayInv LedgerInv Machine.

(** * What changes leave alone *)

Section Frame.
Context `{U : Unicode} (fuel : nat) (slot : Slot) (ballot : Ballot) (closing : option TournamentID).

(** The fields only [Apply] and [Skip] write. *)
Definition same_counters (s s' : State) : Prop :=
  results s' = results s /\ applied s' = applied s /\ hash s' = hash s /\ commands s' = commands s /\
  mutations s' = mutations s /\ clock s' = clock s.

Lemma change_counters s s' : change fuel slot ballot closing s s' -> same_counters s s'.
Proof. by intros []. Qed.

Lemma steps_counters s s' : rtc (change fuel slot ballot closing) s s' -> same_counters s s'.
Proof.
  induction 1 as [|s1 s2 s3 C _ IH]; [done|]. apply change_counters in C. unfold same_counters in *. intuition congruence.
Qed.

(** What never changes once it is there. *)
Record preserved (s s' : State) : Prop := {
  pr_settled : forall k t, tournaments s !! k = Some t -> t_status t = Settled -> tournaments s' !! k = Some t;
  pr_known : forall k t, tournaments s !! k = Some t -> exists t', tournaments s' !! k = Some t' /\
     t_seed t' = t_seed t /\ t_rules t' = t_rules t /\ t_created_at t' = t_created_at t;
  pr_done : forall key rec, rounds (play s) !! key = Some rec -> rr_status rec = RoundDone ->
     rounds (play s') !! key = Some rec;
  pr_deal : forall key rec, rounds (play s) !! key = Some rec -> exists rec' more, rounds (play s') !! key = Some rec' /\
     rr_seed rec' = rr_seed rec /\ rr_deadline_ms rec' = rr_deadline_ms rec /\ rr_moves rec' = rr_moves rec ++ more;
  pr_bound : forall d b, bindings (play s) !! d = Some b -> bindings (play s') !! d = Some b;
  pr_seq : forall id ps, players (play s) !! id = Some ps -> exists ps', players (play s') !! id = Some ps' /\
     pr_binding (pst_rec ps') = pr_binding (pst_rec ps) /\ pr_last_seq (pst_rec ps) <= pr_last_seq (pst_rec ps') /\
     pst_entered ps `prefix_of` pst_entered ps';
  pr_book : exists more, postings (book s') = postings (book s) ++ more;
  pr_events : exists more, events (play s') = events (play s) ++ more;
}.

Lemma preserved_same s s' :
  tournaments s' = tournaments s -> rounds (play s') = rounds (play s) -> bindings (play s') = bindings (play s) ->
  players (play s') = players (play s) -> postings (book s') = postings (book s) -> events (play s') = events (play s) ->
  preserved s s'.
Proof.
  intros E1 E2 E3 E4 E5 E6. split; rewrite ?E1, ?E2, ?E3, ?E4, ?E5, ?E6; auto.
  - intros k t Ht. by exists t.
  - intros key rec Hr. exists rec, []. by rewrite app_nil_r.
  - intros id ps Hp. by exists ps.
  - exists []. by rewrite app_nil_r.
  - exists []. by rewrite app_nil_r.
Qed.

#[export] Instance preserved_refl : Reflexive preserved.
Proof. intros s. by apply preserved_same. Qed.

#[export] Instance preserved_trans : Transitive preserved.
Proof.
  intros s1 s2 s3 [A1 A2 A3 A4 A5 A6 A7 A8] [B1 B2 B3 B4 B5 B6 B7 B8]. split; auto.
  - intros k t Ht. destruct (A2 k t Ht) as (t2 & H2 & E1 & E2 & E3). destruct (B2 k t2 H2) as (t3 & H3 & F1 & F2 & F3).
    exists t3. split_and!; congruence.
  - intros key rec Hr. destruct (A4 key rec Hr) as (r2 & m2 & H2 & E1 & E2 & E3).
    destruct (B4 key r2 H2) as (r3 & m3 & H3 & F1 & F2 & F3). exists r3, (m2 ++ m3).
    split_and!; try congruence. by rewrite F3, E3, app_assoc.
  - intros id ps Hp. destruct (A6 id ps Hp) as (p2 & H2 & E1 & E2 & E3). destruct (B6 id p2 H2) as (p3 & H3 & F1 & F2 & F3).
    exists p3. split_and!; [done|congruence|lia|by etrans].
  - destruct A7 as [m1 E1], B7 as [m2 E2]. exists (m1 ++ m2). by rewrite E2, E1, app_assoc.
  - destruct A8 as [m1 E1], B8 as [m2 E2]. exists (m1 ++ m2). by rewrite E2, E1, app_assoc.
Qed.

(** A record that is not settled is replaced. *)
Lemma preserved_put s s' k t t' :
  tournaments s' = <[k := t']> (tournaments s) -> play s' = play s -> tournaments s !! k = Some t ->
  t_status t <> Settled -> t_seed t' = t_seed t -> t_rules t' = t_rules t -> t_created_at t' = t_created_at t ->
  (exists more, postings (book s') = postings (book s) ++ more) -> preserved s s'.
Proof.
  intros E1 E2 Ht Hn H1 H2 H3 Hb. split; rewrite ?E1, ?E2; auto.
  - intros k' x Hx Hs. rewrite lookup_insert_ne; [done|]. congruence.
  - intros k' x Hx. rewrite lookup_insert. case_decide as E; [|by exists x]. subst k'. exists t'. simplify_eq. auto.
  - intros key rec Hr. exists rec, []. by rewrite app_nil_r.
  - intros id ps Hp. by exists ps.
  - exists []. by rewrite app_nil_r.
Qed.

(** The play state is updated; [f] of the player or round that is replaced. *)
Lemma preserved_round s key rec' :
  (forall rec, rounds (play s) !! key = Some rec -> rr_status rec <> RoundDone /\ rr_seed rec' = rr_seed rec /\
     rr_deadline_ms rec' = rr_deadline_ms rec /\ exists more, rr_moves rec' = rr_moves rec ++ more) ->
  preserved s (set_play s (touchRound (put_round (play s) key rec') key)).
Proof.
  intros H. split; simpl; auto.
  - intros k t Ht. by exists t.
  - intros key' rec Hr Hd. rewrite lookup_insert. case_decide as E; [|done]. subst key'. by destruct (H rec Hr).
  - intros key' rec Hr. rewrite lookup_insert. case_decide as E.
    + subst key'. destruct (H rec Hr) as (_ & E1 & E2 & m & E3). by exists rec', m.
    + exists rec, []. by rewrite app_nil_r.
  - intros id ps Hp. by exists ps.
  - exists []. by rewrite app_nil_r.
  - exists []. by rewrite app_nil_r.
Qed.

Lemma preserved_player s s' id x' :
  tournaments s' = tournaments s -> rounds (play s') = rounds (play s) -> book s' = book s ->
  events (play s') = events (play s) -> players (play s') = <[id := x']> (players (play s)) ->
  (forall d b, bindings (play s) !! d = Some b -> bindings (play s') !! d = Some b) ->
  (forall x, players (play s) !! id = Some x -> pr_binding (pst_rec x') = pr_binding (pst_rec x) /\
     pr_last_seq (pst_rec x) <= pr_last_seq (pst_rec x') /\ pst_entered x `prefix_of` pst_entered x') -> preserved s s'.
Proof.
  intros E1 E2 E3 E4 E5 Hb Hx. split; rewrite ?E1, ?E2, ?E3, ?E4, ?E5; auto.
  - intros k t Ht. by exists t.
  - intros key rec Hr. exists rec, []. by rewrite app_nil_r.
  - intros id' ps Hp. rewrite lookup_insert. case_decide as E; [|by exists ps].
    subst id'. exists x'. split; [done|]. by apply Hx.
  - exists []. by rewrite app_nil_r.
  - exists []. by rewrite app_nil_r.
Qed.

Lemma change_preserved s s' : Inv fuel closing s -> change fuel slot ballot closing s s' -> preserved s s'.
Proof.
  intros I C. pose proof (li_wf _ (inv_ledger _ _ _ I)) as Wb. destruct C as
    [id seed r Hk|k t player b q Ht Ha Hv Hp|k t t' i e sc digest Ht Ho Hi He Hsa Hm|k t Ht Ho Hn|k t ex b Ht Hst _ Hb
    |b Hb Hp Hv|pid ps Hp Hsq|k t pid ps Ht Hj Hp|k t pid round seed Ht Ho Hg Hj Hu Hr Hnew Hprev Hd
    |k t pid round rec b m b' Ht Ho Hr Hn _ Hrep Ha|k t pid round rec b reason Ht Ho Hr Hn Hrep|k t pid b q _ _ _ _ _ Hp|ev|tid].
  - split; simpl; auto.
    + intros k t Ht _. rewrite lookup_insert_ne; [done|]. congruence.
    + intros k t Ht. exists t. rewrite lookup_insert_ne; [done|]. congruence.
    + intros key rec Hr. exists rec, []. by rewrite app_nil_r.
    + intros x ps Hp. by exists ps.
    + exists []. by rewrite app_nil_r.
    + exists []. by rewrite app_nil_r.
  - apply admit_refusal_None in Ha as [Ho _]. destruct (Post_appended _ _ _ _ Wb Hp) as (_ & _ & E & _).
    eapply (preserved_put s _ k t); simpl; try done; [congruence|eauto].
  - destruct (mark_scored_entries t t' i e sc digest Hi Hm) as (M1 & M2 & M3 & _).
    assert (t_seed t' = t_seed t /\ t_created_at t' = t_created_at t) as [? ?].
    { unfold mark_scored in Hm. rewrite Hi in Hm. by injection Hm as <-. }
    eapply (preserved_put s _ k t); simpl; try done; [congruence|]. exists []. by rewrite app_nil_r.
  - destruct (ComputePool t) as [[f r] p] eqn:E.
    eapply (preserved_put s _ k t); simpl; rewrite ?E; try done; [congruence|]. exists []. by rewrite app_nil_r.
  - destruct (post_list_appended _ _ _ Wb Hb) as (_ & qs & E & _).
    eapply (preserved_put s _ k t); simpl; try done; [destruct Hst; congruence|eauto].
  - eapply (preserved_player s _ (b_player b)); simpl; try done.
    + intros d b' Hd. rewrite lookup_insert_ne; [done|]. congruence.
    + intros x Hx. congruence.
  - eapply (preserved_player s _ pid); simpl; try done. intros x Hx. simplify_eq. simpl. split_and!; [done|lia|done].
  - eapply (preserved_player s _ pid); simpl; try done. intros x Hx. simplify_eq. simpl. split_and!; [done..|by eexists].
  - apply preserved_round. intros rec Hrec. congruence.
  - apply preserved_round. intros rec' Hrec'. simplify_eq. split_and!; try done. by exists [m].
  - apply preserved_round. intros rec' Hrec'. simplify_eq. split_and!; try done. exists []. by rewrite app_nil_r.
  - destruct (Post_appended _ _ _ _ Wb Hp) as (_ & _ & E & _). split; simpl; auto.
    + intros k' x Hx. by exists x.
    + intros key rec Hr. exists rec, []. by rewrite app_nil_r.
    + intros id ps Hx. by exists ps.
    + eauto.
    + exists []. by rewrite app_nil_r.
  - split; simpl; auto.
    + intros k' x Hx. by exists x.
    + intros key rec Hr. exists rec, []. by rewrite app_nil_r.
    + intros id ps Hx. by exists ps.
    + exists []. by rewrite app_nil_r.
    + eauto.
  - by apply preserved_same.
Qed.

Lemma steps_preserved s s' : Inv fuel closing s -> rtc (change fuel slot ballot closing) s s' -> preserved s s'.
Proof.
  intros I H. induction H as [|s1 s2 s3 C _ IH]; [done|].
  etrans; [by eapply change_preserved|]. apply IH. by eapply step_inv.
Qed.
End Frame.

(** * Running one command *)

Section Apply.
Context `{U : Unicode} (fuel : nat).

(** What decoding and the deal fuel guarantee of a command: 32-bit shares,
    and a seed whose shuffle does not reject [fuel] draws in a row. *)
Definition command_ok (cmd : Command) : Prop :=
  match cmd_op cmd with
  | Some (CreateTournament _ _ r) => rules_typed r
  | Some (StartRound _ _ _ _ seed) => is_Some (Deal fuel seed)
  | _ => True
  end.

Definition closing_of (op : Op) : option TournamentID :=
  match op with Close t => Some t | _ => None end.

Lemma runs_inv slot ballot s r s' res :
  Inv fuel None s -> runs fuel slot ballot None s r -> r = Some (s', res) -> Inv fuel None s'.
Proof.
  intros I (s1 & res1 & E & O & _) Hr. rewrite E in Hr. injection Hr as <- <-. destruct O as [-> _|pid ps Hp Hl -> _|C _].
  - done.
  - eapply step_inv; [exact I|]. by eapply (consume_step fuel slot ballot None).
  - by eapply steps_inv.
Qed.

Lemma dispatch_runs s slot ballot received op :
  Inv fuel None s -> command_ok (mkCommand "" received (Some op)) ->
  runs fuel slot ballot (closing_of op) s (dispatch fuel s slot ballot received op) /\
  forall s' res, dispatch fuel s slot ballot received op = Some (s', res) -> Inv fuel None s'.
Proof.
  intros I Hok. assert (H : forall r, runs fuel slot ballot None s r ->
    runs fuel slot ballot None s r /\ forall s' res, r = Some (s', res) -> Inv fuel None s').
  { intros r Hr. split; [done|]. intros s' res E. by eapply runs_inv. }
  destruct op; simpl in *; try apply H; eauto using join_runs, score_runs, settle_runs, open_session_runs,
    enter_runs, finish_runs, play_move_runs, claim_runs, start_round_runs, create_runs, close_runs.
Qed.

(** ** The hash input is total *)

Definition dirty_ok (p : playState) : Prop := forall id, id ∈ dirtyPlayers p -> is_Some (players p !! id).

Lemma add_once_elem `{EqDecision A} (l : list A) x y : y ∈ add_once l x <-> y ∈ l \/ y = x.
Proof. unfold add_once. case_decide; [|apply elem_of_snoc]. naive_solver. Qed.

Lemma dirty_put p id x : dirty_ok p -> dirty_ok (touchPlayer (put_player p id x) id).
Proof.
  intros D y Hy. simpl in *. apply add_once_elem in Hy as [Hy| ->]; [|rewrite lookup_insert_eq; eauto].
  rewrite lookup_insert. case_decide; [eauto|by apply D].
Qed.

Lemma change_dirty slot ballot closing s s' :
  change fuel slot ballot closing s s' -> dirty_ok (play s) -> dirty_ok (play s').
Proof.
  intros C D. destruct C; try exact D; try (by apply dirty_put).
  intros y Hy. simpl in *. rewrite lookup_insert. case_decide; [eauto|by apply D].
Qed.

Lemma outcome_dirty slot ballot closing s s' res :
  outcome_of fuel slot ballot closing s s' res -> dirty_ok (play s) -> dirty_ok (play s').
Proof.
  intros [-> _|pid ps Hp Hl -> _|C _] D; [done|by apply dirty_put|].
  induction C as [|s1 s2 s3 C _ IH]; [done|]. apply IH. by eapply change_dirty.
Qed.

Lemma mapM_total {A B} (f : A -> option B) l : (forall x, x ∈ l -> is_Some (f x)) -> is_Some (mapM f l).
Proof.
  intros H. apply mapM_is_Some_2, Forall_forall. exact H.
Qed.

Lemma mix_total s slot cmd res n : book_wf (book s) -> dirty_ok (play s) ->
  exists w, mix_input s slot cmd res n = Some w /\ mix s slot cmd res n = Some (set_hash s (sha256 (hash s ++ w))).
Proof.
  intros W D. assert (H : is_Some (mix_input s slot cmd res n)).
  { unfold mix_input, EncodePostings, mixPlay.
    destruct (mapM_total (fun p => j ← posting_json (clear_posting_ballot p); Some (marshal j ++ [10]))
      (PostingsSince (book s) n)) as [ls ->].
    - intros p Hp. assert (Hin : p ∈ postings (book s)).
      { unfold PostingsSince in Hp. case_hyp Hp; [by apply not_elem_of_nil in Hp|]. apply list_elem_of_lookup in Hp as [i Hp].
        rewrite lookup_drop in Hp. by eapply list_elem_of_lookup_2. }
      destruct (wf_valid _ W p Hin) as (_ & _ & _ & _ & _ & Hk). unfold posting_json. simpl.
      destruct (kindNames (post_kind p)); [simpl; eauto|done].
    - simpl. destruct (mapM_total (fun id => ps ← players (play s) !! id;
        Some (play_line "player:" (player_record_json (pst_rec ps)))) (dirtyPlayers (play s))) as [pl ->].
      + intros id Hid. destruct (D id Hid) as [ps ->]. simpl. eauto.
      + simpl. eauto. }
  destruct H as [w Hw]. exists w. split; [done|]. unfold mix. by rewrite Hw.
Qed.

(** ** Apply *)

(** The invariant does not look at the counters, the hash, the results, the
    events and the change tracking. *)
Lemma Inv_ext s s' :
  tournaments s' = tournaments s -> order s' = order s -> book s' = book s ->
  bindings (play s') = bindings (play s) -> players (play s') = players (play s) ->
  rounds (play s') = rounds (play s) -> Inv fuel None s -> Inv fuel None s'.
Proof.
  intros E1 E2 E3 E4 E5 E6 [T [P1 P2 P3 P4] [L1 L2 L3 L4 L5]].
  split; [|split|split]; unfold tournaments_ok, bindings_ok in *; by rewrite ?E1, ?E2, ?E3, ?E4, ?E5, ?E6.
Qed.

Lemma start_slot_inv s slot cmd : Inv fuel None s -> Inv fuel None (start_slot s slot cmd).
Proof. by apply Inv_ext. Qed.

(** What [execute] does on a state of the invariant. *)
Inductive executed (s : State) (slot : Slot) (ballot : Ballot) (cmd : Command) (s' : State) (res : Result) : Prop :=
| ex_invalid_key err : ValidateKey (cmd_key cmd) = Some err -> s' = s -> res = result_at InvalidKey err slot ->
    executed s slot ballot cmd s' res
| ex_key_reused rec : results s !! cmd_key cmd = Some rec -> rec_fingerprint rec <> Fingerprint cmd -> s' = s ->
    res = result_at KeyReused key_reused slot -> executed s slot ballot cmd s' res
| ex_replayed rec : results s !! cmd_key cmd = Some rec -> rec_fingerprint rec = Fingerprint cmd -> s' = s ->
    res = with_replayed (rec_result rec) -> executed s slot ballot cmd s' res
| ex_invalid_op : ValidateKey (cmd_key cmd) = None -> results s !! cmd_key cmd = None -> cmd_op cmd = None ->
    s' = s -> res = result_at InvalidOp "unknown op <nil>" slot -> executed s slot ballot cmd s' res
| ex_run op s1 r : ValidateKey (cmd_key cmd) = None -> results s !! cmd_key cmd = None -> cmd_op cmd = Some op ->
    outcome_of fuel slot ballot (closing_of op) s s1 r -> no_conflict r -> res = with_slot r slot ->
    s' = put_result s1 (cmd_key cmd) (mkRecord (Fingerprint cmd) res)
           (if decide (res_code r = OK) then u64 (mutations s1 + 1) else mutations s1) ->
    executed s slot ballot cmd s' res.

Lemma execute_total s slot ballot cmd : Inv fuel None s -> command_ok cmd ->
  exists s' res, execute fuel s slot ballot cmd = Some (s', res) /\ executed s slot ballot cmd s' res /\ Inv fuel None s'.
Proof.
  intros I Hok. unfold execute. destruct (ValidateKey (cmd_key cmd)) as [err|] eqn:Hk.
  { eexists _, _. split; [done|]. split; [|done]. by eapply ex_invalid_key. }
  destruct (results s !! cmd_key cmd) as [rec|] eqn:Hr.
  { case_bool_decide as Hf; simpl; (eexists _, _; split; [done|]; split; [|done]);
      [by eapply ex_replayed|by eapply ex_key_reused]. }
  destruct (cmd_op cmd) as [op|] eqn:Hop.
  2:{ eexists _, _. split; [done|]. split; [|done]. by apply ex_invalid_op. }
  destruct (dispatch_runs s slot ballot (cmd_received_at cmd) op I) as [(s1 & r & E & O & Hn) Hi].
  { unfold command_ok in *. by rewrite Hop in Hok. }
  rewrite E. simpl. eexists _, _. split; [done|]. split.
  - by eapply (ex_run _ _ _ _ _ _ op s1 r).
  - by apply (Inv_ext s1), (Hi s1 r E).
Qed.

(** [Apply] above the applied slot: [execute] from the started slot, then the
    hash of everything it changed. *)
Lemma Apply_total s slot ballot cmd : Inv fuel None s -> command_ok cmd ->
  (slot <= applied s /\ exists detail, Apply fuel s slot ballot cmd = Some (s, result_at OutOfOrder detail slot)) \/
  (applied s < slot /\ exists s1 res h, Apply fuel s slot ballot cmd = Some (set_hash s1 h, res) /\
     executed (start_slot s slot cmd) slot ballot cmd s1 res /\ Inv fuel None (set_hash s1 h)).
Proof.
  intros I Hok. unfold Apply. destruct (Z.leb_spec slot (applied s)); [left; eauto|right]. split; [done|].
  destruct (execute_total (start_slot s slot cmd) slot ballot cmd (start_slot_inv _ _ _ I) Hok) as (s1 & res & -> & X & I1).
  simpl. assert (D : dirty_ok (play s1)).
  { assert (D0 : dirty_ok (play (start_slot s slot cmd))) by (intros id Hid; by apply not_elem_of_nil in Hid).
    destruct X as [err _ -> _|rec _ _ -> _|rec _ _ -> _|_ _ _ -> _|op s2 r _ _ _ O _ _ ->]; try done.
    exact (outcome_dirty _ _ _ _ _ _ O D0). }
  destruct (mix_total s1 slot cmd res (Len (book s)) (li_wf _ (inv_ledger _ _ _ I1)) D) as (w & _ & ->). simpl.
  exists s1, res, (sha256 (hash s1 ++ w)). split_and!; [done|done|].
  by apply (Inv_ext s1).
Qed.
End Apply.

(** * Reachable states *)

Section Reachable.
Context `{U : Unicode} (fuel : nat).

(** One slot of the log: a command applied under some ballot, or a skip. *)
Inductive slot_step (s : State) : State -> Prop :=
| st_apply slot ballot cmd s' res :
    command_ok fuel cmd -> Apply fuel s slot ballot cmd = Some (s', res) -> slot_step s s'
| st_skip slot : slot_step s (Skip s slot).

Definition later : State -> State -> Prop := rtc slot_step.
Definition reachable (s : State) : Prop := later NewState s.

Lemma NewState_inv : Inv fuel None NewState.
Proof.
  split; [|split|split].
  - split_and!; [by intros|constructor|]. intros k. split; [by intros ?%not_elem_of_nil|]. by intros [].
  - by split.
  - by intros ?.
  - by intros ?.
  - by intros ?.
  - apply NewBook_wf.
  - by intros q ?%not_elem_of_nil.
  - by intros ?.
  - by intros ?.
  - by split.
Qed.

(** Recorded results: valid keys, not replayed, never a ledger conflict. *)
Definition results_ok (s : State) : Prop := forall k rec, results s !! k = Some rec ->
  ValidateKey k = None /\ res_code (rec_result rec) <> LedgerConflict /\ res_replayed (rec_result rec) = false.

Lemma outcome_counters slot ballot closing s s' res :
  outcome_of fuel slot ballot closing s s' res -> same_counters s s'.
Proof. intros [-> _|pid ps _ _ -> _|C _]; [done|done|by eapply steps_counters]. Qed.

Lemma outcome_preserved slot ballot op s s' res : Inv fuel None s ->
  outcome_of fuel slot ballot (closing_of op) s s' res -> preserved s s'.
Proof.
  intros I [-> _|pid ps Hp Hl -> _|C _]; [done| |].
  - eapply change_preserved; [exact I|]. by apply (consume_step fuel 0 zero_ballot None).
  - assert (Ic : Inv fuel (closing_of op) s) by (destruct op; try done; by apply Inv_closing).
    by eapply steps_preserved.
Qed.

Lemma executed_preserved s slot ballot cmd s' res : Inv fuel None s ->
  executed fuel s slot ballot cmd s' res -> preserved s s'.
Proof.
  intros I [err _ -> _|rec _ _ -> _|rec _ _ -> _|_ _ _ -> _|op s1 r _ _ _ O _ _ ->]; try done.
  etrans; [by eapply outcome_preserved|]. by apply preserved_same.
Qed.

(** The results table only grows. *)
Lemma executed_results s slot ballot cmd s' res k rec :
  executed fuel s slot ballot cmd s' res -> results s !! k = Some rec -> results s' !! k = Some rec.
Proof.
  intros [err _ -> _|rec' _ _ -> _|rec' _ _ -> _|_ _ _ -> _|op s1 r _ Hn _ O _ _ ->] H; try done.
  simpl. destruct (outcome_counters _ _ _ _ _ _ O) as (E & _). rewrite lookup_insert_ne; [by rewrite E|congruence].
Qed.

Lemma executed_results_ok s slot ballot cmd s' res :
  executed fuel s slot ballot cmd s' res -> results_ok s -> results_ok s'.
Proof.
  intros [err _ -> _|rec' _ _ -> _|rec' _ _ -> _|_ _ _ -> _|op s1 r Hv Hn _ O Hc -> ->] H; try done.
  intros k rec. simpl. destruct (outcome_counters _ _ _ _ _ _ O) as (E & _). rewrite lookup_insert, E.
  case_decide as Hk; [|apply H]. intros [= <-]. subst k. simpl. destruct Hc. by split_and!.
Qed.

(** The results table of a step of the log only grows. *)
Lemma slot_step_spec s s' : Inv fuel None s -> results_ok s -> slot_step s s' ->
  Inv fuel None s' /\ results_ok s' /\ preserved s s' /\ results s ⊆ results s'.
Proof.
  intros I R [slot ballot cmd s1 res Hok H|slot].
  - destruct (Apply_total fuel s slot ballot cmd I Hok) as [(_ & d & E)|(_ & s2 & r & h & E & X & I2)];
      rewrite E in H; injection H as <- <-; [done|].
    split_and!; [done| | |].
    + exact (executed_results_ok _ _ _ _ _ _ X R).
    + etrans; [by apply (preserved_same s (start_slot s slot cmd))|].
      etrans; [by eapply executed_preserved, X; apply start_slot_inv|]. by apply preserved_same.
    + apply map_subseteq_spec. intros k rec. exact (executed_results _ _ _ _ _ _ k rec X).
  - unfold Skip. case_goal; [done|]. split_and!; [by apply (Inv_ext fuel s)|done|by apply preserved_same|done].
Qed.

Lemma later_spec s s' : Inv fuel None s -> results_ok s -> later s s' ->
  Inv fuel None s' /\ results_ok s' /\ preserved s s' /\ results s ⊆ results s'.
Proof.
  intros I R H. induction H as [|s1 s2 s3 C _ IH]; [done|].
  destruct (slot_step_spec _ _ I R C) as (I2 & R2 & P2 & S2). destruct (IH I2 R2) as (I3 & R3 & P3 & S3).
  split_and!; [done..|by etrans|by etrans].
Qed.

Lemma reachable_good s : reachable s -> Inv fuel None s /\ results_ok s.
Proof. intros H. destruct (later_spec NewState s NewState_inv) as (I & R & _); [by intros ?|done|done]. Qed.

(** Everything but the applied slot, the clock, the hash, the command count
    and the change tracking. *)
Record same_data (s s' : State) : Prop := {
  sd_tournaments : tournaments s' = tournaments s;
  sd_order : order s' = order s;
  sd_results : results s' = results s;
  sd_book : book s' = book s;
  sd_mutations : mutations s' = mutations s;
  sd_bindings : bindings (play s') = bindings (play s);
  sd_players : players (play s') = players (play s);
  sd_rounds : rounds (play s') = rounds (play s);
  sd_events : events (play s') = events (play s) /\ shared (play s') = shared (play s) /\
    own (play s') = own (play s) /\ boardAt (play s') = boardAt (play s);
}.

(** What [Apply] does above the applied slot, by the recorded results. *)
Lemma Apply_recorded s slot ballot cmd rec : Inv fuel None s -> results_ok s -> command_ok fuel cmd -> applied s < slot ->
  results s !! cmd_key cmd = Some rec ->
  exists s', Apply fuel s slot ballot cmd =
    Some (s', if bool_decide (rec_fingerprint rec = Fingerprint cmd) then with_replayed (rec_result rec)
              else result_at KeyReused key_reused slot) /\ same_data s s'.
Proof.
  intros I R Hok Hs Hr. pose proof (proj1 (R _ _ Hr)) as Hv.
  destruct (Apply_total fuel s slot ballot cmd I Hok) as [(? & _)|(_ & s2 & r & h & E & X & _)]; [lia|].
  exists (set_hash s2 h). rewrite E. destruct X as [err Hk|rec' Hr' Hf -> ->|rec' Hr' Hf -> ->|? Hn _ -> _|op s1 r' _ Hn _ _ _ _ _].
  - congruence.
  - simpl in Hr'. simplify_eq. rewrite bool_decide_eq_false_2 by done. split; [done|]. by split.
  - simpl in Hr'. simplify_eq. rewrite bool_decide_eq_true_2 by done. split; [done|]. by split.
  - simpl in *. congruence.
  - simpl in *. congruence.
Qed.
(** A command above the applied slot is applied there. *)
Lemma Apply_reaches s slot ballot cmd : reachable s -> command_ok fuel cmd -> applied s < slot ->
  exists s' res, Apply fuel s slot ballot cmd = Some (s', res) /\ applied s' = slot.
Proof.
  intros Hr Hok Hlt. destruct (reachable_good s Hr) as [I R].
  destruct (Apply_total fuel s slot ballot cmd I Hok) as [(? & _)|(_ & s1 & res & h & E & X & _)]; [lia|].
  exists (set_hash s1 h), res. split; [done|]. simpl.
  destruct X as [err _ -> _|rec _ _ -> _|rec _ _ -> _|_ _ _ -> _|op s2 r _ _ _ O _ _ ->]; try done.
  by destruct (outcome_counters _ _ _ _ _ _ O) as (_ & C1 & _ & C2 & _ & C3).
Qed.
End Reachable.
