(* ===== verification/Guarantees.v ===== *)
(** What the tournament service guarantees, for every state a log of commands
    can reach: [Apply] is total, executes a key once, changes no data on a
    rejection but one sequence number, and never takes anything back; records are well formed, scores
    are the replayed rounds, and the ledger holds exactly the money the records
    call for.  A log that creates, plays, closes, settles and claims a
    tournament shows that the hypotheses hold. *)

From S2P Require Import Prelude GoStd Paxos Ledger Game Records Codec Compute State Changes.
From S2P Require Import TournamentInv PlayInv LedgerInv Machine Reach.

(** * A concrete log *)

Section Log.
Context `{U : Unicode} (fuel : nat).

(** Commands applied at consecutive slots from [slot], all under one ballot. *)
Fixpoint apply_log (s : State) (slot : Slot) (ballot : Ballot) (cmds : list Command) : option (State * list Result) :=
  match cmds with
  | [] => Some (s, [])
  | cmd :: cmds' =>
      '(s, res) ← Apply fuel s slot ballot cmd;
      '(s, more) ← apply_log s (slot + 1) ballot cmds';
      Some (s, res :: more)
  end.

Lemma apply_log_later s slot ballot cmds s' rs :
  Forall (command_ok fuel) cmds -> apply_log s slot ballot cmds = Some (s', rs) -> later fuel s s'.
Proof.
  intros H. revert s slot rs. induction H as [|cmd cmds Hc _ IH]; intros s slot rs E; simpl in E; [by injection E as <- _|].
  destruct (Apply fuel s slot ballot cmd) as [[s1 res]|] eqn:A; [|done]. simpl in E.
  destruct (apply_log s1 (slot + 1) ballot cmds) as [[s2 more]|] eqn:L; [|done]. simpl in E. injection E as <- _.
  eapply rtc_l; [by eapply st_apply|]. by eapply IH.
Qed.
End Log.

Section Demo.
#[local] Existing Instance ascii_unicode.

Definition demo_rules : Rules :=
  mkRules 500 1000 [10000] 1 2 14400 18 EarliestSubmission (mkExclusions 1 ["WA"; "AZ"; "WA"]) LadderV1.
Definition demo_device : DeviceID := "00112233445566778899aabbccddeeff".
Definition demo_draw : Move := nth 0 moves1 (mkMove "draw" 0).

Definition demo_ops : list Op :=
  [CreateTournament "t1" 7 demo_rules;
   OpenSession demo_device (replicate 32 1) "p1" "CA" 30;
   Enter "t1" "p1" 1;
   StartRound "t1" "p1" 2 1 seed1;
   PlayMove "t1" "p1" 3 1 0 demo_draw;
   FinishRound "t1" "p1" 4 1;
   Close "t1";
   Settle "t1" (mkExclusions 2 []);
   ClaimPayout "t1" "p1" 5].

(** The command of slot [i]. *)
Definition demo_cmd (i : Z) (op : Op) : Command := mkCommand ("k" +:+ itoa i) (1000 * i) (Some op).
Definition demo_cmds : list Command := imap (fun i op => demo_cmd (Z.of_nat i + 1) op) demo_ops.
Definition demo_ballot : Ballot := mkBallot 1 2.

Lemma demo_commands_ok : Forall (command_ok 1) demo_cmds.
Proof.
  unfold demo_cmds, demo_ops. cbn [imap].
  repeat (apply Forall_cons; split; [try exact I|]); [..|apply Forall_nil; exact I].
  - split; [done|]. by repeat constructor.
  - exact (mk_is_Some _ _ deal1).
Qed.

(** The first [n] commands of the log lead to a state that passes [ok]. *)
Lemma demo_run (n : nat) (ok : State -> list Result -> bool) :
  match apply_log 1 NewState 1 demo_ballot (take n demo_cmds) with Some (s, rs) => ok s rs | None => false end = true ->
  exists s rs, reachable 1 s /\ ok s rs = true.
Proof.
  destruct (apply_log 1 NewState 1 demo_ballot (take n demo_cmds)) as [[s rs]|] eqn:E; [|done].
  intros H. exists s, rs. split; [|done]. eapply apply_log_later; [|exact E].
  apply Forall_take, demo_commands_ok.
Qed.

Definition all_ok (rs : list Result) : bool := forallb (fun r => bool_decide (res_code r = OK)) rs.

(** The whole log: settled and claimed. *)
Definition demo_settled (s : State) (rs : list Result) : bool :=
  all_ok rs && (applied s =? 9) &&
  match tournaments s !! "t1" with
  | Some t => bool_decide (t_status t = Settled) && (ClaimableAmount t "p1" =? 450) && negb (String.eqb (r_game (t_rules t)) "")
              && match t_entries t with [e] => e_scored e && String.eqb (entry_id e) "p1" | _ => false end
  | None => false
  end &&
  match rounds (play s) !! ("t1", "p1", 1) with
  | Some rec => String.eqb (rr_status rec) RoundDone && (len (rr_moves rec) =? 1) | None => false end &&
  match results s !! "k9" with
  | Some rec => bool_decide (rec_fingerprint rec = Fingerprint (demo_cmd 9 (ClaimPayout "t1" "p1" 5))) | None => false end &&
  match list_find (fun q => post_kind q = Claim) (postings (book s)) with Some _ => true | None => false end.

Lemma demo_settled_run :
  match apply_log 1 NewState 1 demo_ballot demo_cmds with Some (s, rs) => demo_settled s rs | None => false end = true.
Proof. vm_compute. reflexivity. Qed.

Lemma demo_settled_state : exists s rs, reachable 1 s /\ demo_settled s rs = true.
Proof. apply (demo_run 9). exact demo_settled_run. Qed.
End Demo.

(** * Apply *)

Section Guarantees.
Context `{U : Unicode} (fuel : nat).

(** C21. [Apply] never panics and never runs into a ledger conflict: on every
    reachable state it ends for every decoded command at every slot, with a
    code other than LedgerConflict; below the applied slot it answers
    OutOfOrder and leaves the state alone, above it the slot is applied. *)
Theorem apply_total (s : State) (slot : Slot) (ballot : Ballot) (cmd : Command) :
  reachable fuel s -> command_ok fuel cmd ->
  exists s' res, Apply fuel s slot ballot cmd = Some (s', res) /\ reachable fuel s' /\
    res_code res <> LedgerConflict /\
    (slot <= applied s -> s' = s /\ res_code res = OutOfOrder) /\
    (applied s < slot -> applied s' = slot /\ commands s' = i64 (commands s + 1) /\
       clock s' = Z.max (clock s) (cmd_received_at cmd)).
Proof.
  intros Hr Hok. destruct (reachable_good fuel s Hr) as [I R].
  destruct (Apply_total fuel s slot ballot cmd I Hok) as [(Hle & d & E)|(Hlt & s1 & res & h & E & X & _)].
  - exists s, (result_at OutOfOrder d slot). split_and!; [done..| |lia]. by split.
  - exists (set_hash s1 h), res. split_and!; [done| | |lia|].
    + eapply rtc_r; [exact Hr|]. by eapply st_apply.
    + destruct X as [err _ _ ->|rec _ _ _ ->|rec Hk _ _ ->|_ _ _ _ ->|op s2 r _ _ _ _ [Hc _] -> _]; try done.
      simpl in *. by apply (R _ _ Hk).
    + intros _. assert (C : applied s1 = slot /\ commands s1 = i64 (commands s + 1) /\
        clock s1 = if clock s <? cmd_received_at cmd then cmd_received_at cmd else clock s).
      { destruct X as [err _ -> _|rec _ _ -> _|rec _ _ -> _|_ _ _ -> _|op s2 r _ _ _ O _ _ ->]; try done.
        destruct (outcome_counters fuel _ _ _ _ _ _ O) as (_ & C1 & _ & C2 & _ & C3). simpl in *. auto. }
      simpl. destruct C as (-> & -> & ->). split_and!; [done..|].
      destruct (Z.ltb_spec (clock s) (cmd_received_at cmd)); lia.
Qed.

(** What [Apply] does with a key it has not seen. *)
Lemma Apply_fresh s slot ballot cmd op : reachable fuel s -> command_ok fuel cmd -> applied s < slot ->
  ValidateKey (cmd_key cmd) = None -> results s !! cmd_key cmd = None -> cmd_op cmd = Some op ->
  exists s0 s1 res, Apply fuel s slot ballot cmd = Some (s1, res) /\ reachable fuel s1 /\
    outcome_of fuel slot ballot (closing_of op) (start_slot s slot cmd) s0 res /\ no_conflict res /\ res_slot res = slot /\
    results s1 = <[cmd_key cmd := mkRecord (Fingerprint cmd) res]> (results s) /\
    mutations s1 = (if decide (res_code res = OK) then u64 (mutations s + 1) else mutations s) /\
    tournaments s1 = tournaments s0 /\ order s1 = order s0 /\ book s1 = book s0 /\ play s1 = play s0.
Proof.
  intros Hr Hok Hlt Hv Hk Hop. destruct (reachable_good fuel s Hr) as [I R].
  destruct (Apply_total fuel s slot ballot cmd I Hok) as [(? & _)|(_ & s1 & res & h & E & X & _)]; [lia|].
  destruct X as [err Hv'|rec Hk' _|rec Hk' _|_ _ Hop' _|op' s0 r _ _ Hop' O Hn Hres Hs1];
    [congruence|simpl in *; congruence..|].
  assert (op' = op) as -> by congruence. exists s0, (set_hash s1 h), res. split_and!; [done| |..].
  - eapply rtc_r; [exact Hr|]. by eapply st_apply.
  - subst res. destruct O as [-> Hc|pid ps Hp Hl -> Hc|C Hc]; [by apply oc_rejected|by eapply oc_consumed|by apply oc_done].
  - by subst res.
  - by subst res.
  - subst s1. simpl. by destruct (outcome_counters fuel _ _ _ _ _ _ O) as (-> & _).
  - subst s1 res. simpl. by destruct (outcome_counters fuel _ _ _ _ _ _ O) as (_ & _ & _ & _ & -> & _).
  - by subst s1.
  - by subst s1.
  - by subst s1.
  - by subst s1.
Qed.

(** C6. A key executes at most once.  After a command was applied under a new
    key, any later command with that key changes no data, at whatever slot
    and under whatever leader: a retry with the same fingerprint gets the
    first result marked as replayed, any other command is told the key is
    taken, and a host gives the same answer without proposing it. *)
Theorem apply_exactly_once (s s1 s2 : State) (slot slot' : Slot) (ballot ballot' : Ballot) (cmd cmd' : Command)
    (res : Result) :
  reachable fuel s -> command_ok fuel cmd -> command_ok fuel cmd' -> applied s < slot ->
  ValidateKey (cmd_key cmd) = None -> results s !! cmd_key cmd = None -> is_Some (cmd_op cmd) ->
  Apply fuel s slot ballot cmd = Some (s1, res) -> later fuel s1 s2 ->
  cmd_key cmd' = cmd_key cmd -> applied s2 < slot' ->
  let answer other := if bool_decide (Fingerprint cmd = Fingerprint cmd') then with_replayed res else other in
  res_replayed res = false /\
  (exists s3, Apply fuel s2 slot' ballot' cmd' = Some (s3, answer (result_at KeyReused key_reused slot')) /\ same_data s2 s3) /\
  Replay_result s2 cmd' = Some (answer (result_at KeyReused key_reused 0)).
Proof.
  intros Hr Hok Hok' Hlt Hv Hk [op Hop] E L Hkey Hlt' answer.
  destruct (Apply_fresh s slot ballot cmd op Hr Hok Hlt Hv Hk Hop) as (s0 & x & res' & E' & Hr1 & _ & [_ Hrep] & _ & Hres & _).
  rewrite E in E'. injection E' as <- <-. split; [done|].
  destruct (reachable_good fuel s1 Hr1) as [I1 R1]. destruct (later_spec fuel s1 s2 I1 R1 L) as (I2 & R2 & _ & Hsub).
  assert (Hrec : results s2 !! cmd_key cmd' = Some (mkRecord (Fingerprint cmd) res)).
  { rewrite Hkey. eapply lookup_weaken; [|exact Hsub]. rewrite Hres. apply lookup_insert_eq. }
  split; [exact (Apply_recorded fuel s2 slot' ballot' cmd' _ I2 R2 Hok' Hlt' Hrec)|].
  unfold Replay_result. rewrite Hrec. simpl. unfold answer. by case_bool_decide.
Qed.

(** The state after a rejected command, field by field: [pls] are its players,
    [dirty] the players whose records enter the hash.  Everything but the
    table of results, the applied slot, the command counter, the clock and the
    change tracking of the slot is that of [s]; the hash is still to be mixed. *)
Definition rejected_state (s : State) (slot : Slot) (cmd : Command) (res : Result)
    (pls : gmap PlayerID playerState) (dirty : list PlayerID) : State :=
  mkState (tournaments s) (order s) (<[cmd_key cmd := mkRecord (Fingerprint cmd) res]> (results s)) (book s)
    slot (hash s) (i64 (commands s + 1)) (mutations s)
    (mkPlayState (bindings (play s)) pls (rounds (play s)) (events (play s)) (shared (play s)) (own (play s))
       (boardAt (play s)) [] dirty [] (length (events (play s))))
    (Z.max (clock s) (cmd_received_at cmd)).

(** The player's record with the next sequence number consumed. *)
Definition consumed (ps : playerState) : playerState :=
  mkPlayerState (mkPlayerRecord (pr_binding (pst_rec ps)) (pr_last_seq (pst_rec ps) + 1)) (pst_entered ps).

(** [Apply] is [execute] from the started slot and the hash of what it wrote. *)
Lemma Apply_mixed s slot ballot cmd s1 res : applied s < slot -> Apply fuel s slot ballot cmd = Some (s1, res) ->
  exists s0 w, execute fuel (start_slot s slot cmd) slot ballot cmd = Some (s0, res) /\
    mix_input s0 slot cmd res (Len (book s)) = Some w /\ s1 = set_hash s0 (sha256 (hash s0 ++ w)).
Proof.
  intros Hlt. unfold Apply. destruct (Z.leb_spec slot (applied s)); [lia|].
  intros ([s0 r] & He & E)%bind_Some. apply bind_Some in E as (s2 & E & [= <- <-]). unfold mix in E.
  apply bind_Some in E as (w & Hw & [= <-]). by exists s0, w.
Qed.

(** C40. The whole effect of a rejected command: when [Apply] answers a new
    key with a code other than OK, the state it leaves is the old one with the
    answer recorded under the key, the slot applied, the command counted, the
    clock advanced to the command's time where that is later, the slot's change
    tracking restarted and the hash mixed over what [mix] writes.  Tournaments,
    their order, the book, the mutation counter, bindings, rounds, events and
    every index over the events are the same, and so are the players, but that
    a refused play intent may have consumed the next sequence number of one of
    them, whose record then enters the hash. *)
Theorem apply_rejected_unchanged (s s1 : State) (slot : Slot) (ballot : Ballot) (cmd : Command) (res : Result) :
  reachable fuel s -> command_ok fuel cmd -> applied s < slot ->
  ValidateKey (cmd_key cmd) = None -> results s !! cmd_key cmd = None -> is_Some (cmd_op cmd) ->
  Apply fuel s slot ballot cmd = Some (s1, res) -> res_code res <> OK ->
  exists pls dirty w, let s0 := rejected_state s slot cmd res pls dirty in
    mix_input s0 slot cmd res (Len (book s)) = Some w /\ s1 = set_hash s0 (sha256 (hash s ++ w)) /\
    (pls = players (play s) /\ dirty = [] \/
     exists pid ps, players (play s) !! pid = Some ps /\ pr_last_seq (pst_rec ps) + 1 < 2 ^ 64 /\
       pls = <[pid := consumed ps]> (players (play s)) /\ dirty = [pid]).
Proof.
  intros Hr Hok Hlt Hv Hk [op Hop] E Hc. destruct (reachable_good fuel s Hr) as [I _].
  destruct (Apply_mixed s slot ballot cmd s1 res Hlt E) as (s0 & w & Ex & Hw & ->).
  destruct (execute_total fuel (start_slot s slot cmd) slot ballot cmd (start_slot_inv _ _ _ _ I) Hok) as (x & r & Ex' & X & _).
  rewrite Ex in Ex'. injection Ex' as <- <-.
  assert (C : (if clock s <? cmd_received_at cmd then cmd_received_at cmd else clock s) = Z.max (clock s) (cmd_received_at cmd))
    by (destruct (Z.ltb_spec (clock s) (cmd_received_at cmd)); lia).
  destruct X as [err Hv'|rec Hk' _|rec Hk' _|_ _ Hop' _|op' s2 r _ _ _ O _ Hres Hs0]; [congruence|simpl in *; congruence..|].
  assert (Hc' : res_code r <> OK) by (by subst res). rewrite decide_False in Hs0 by done.
  destruct O as [-> _|pid ps Hp Hl -> _|_ ?]; [| |done].
  - exists (players (play s)), [], w. unfold rejected_state. rewrite <- C. split_and!; [by rewrite Hs0 in Hw|by rewrite Hs0|by left].
  - exists (<[pid := consumed ps]> (players (play s))), [pid], w. unfold rejected_state. rewrite <- C.
    split_and!; [by rewrite Hs0 in Hw|by rewrite Hs0|]. right. by exists pid, ps.
Qed.

(** C38. A fresh command that is answered OK counts one mutation, and what it
    did is a sequence of the guarded changes of [Changes.v]: the detailed
    machine refines that specification. *)
Theorem apply_refines_changes (s s1 : State) (slot : Slot) (ballot : Ballot) (cmd : Command) (op : Op) (res : Result) :
  reachable fuel s -> command_ok fuel cmd -> applied s < slot ->
  ValidateKey (cmd_key cmd) = None -> results s !! cmd_key cmd = None -> cmd_op cmd = Some op ->
  Apply fuel s slot ballot cmd = Some (s1, res) -> res_code res = OK ->
  mutations s1 = u64 (mutations s + 1) /\ res_slot res = slot /\
  exists s0, rtc (change fuel slot ballot (closing_of op)) (start_slot s slot cmd) s0 /\
    tournaments s1 = tournaments s0 /\ order s1 = order s0 /\ book s1 = book s0 /\ play s1 = play s0.
Proof.
  intros Hr Hok Hlt Hv Hk Hop E Hc.
  destruct (Apply_fresh s slot ballot cmd op Hr Hok Hlt Hv Hk Hop)
    as (s0 & x & res' & E' & _ & O & _ & Hsl & Hres & Hm & Ht & Ho & Hb & Hp).
  rewrite E in E'. injection E' as <- <-. rewrite decide_True in Hm by done. split_and!; [done|done|].
  exists s0. split_and!; [|done..]. by destruct O as [_ ?|pid ps _ _ _ ?|? _].
Qed.

(** * What stays *)

(** What is final stays final: in every later state a settled record is
    the same record, a finished round is the same round, a deal keeps its seed,
    deadline and accepted moves, a device keeps its player, sequence numbers do
    not go back, the journal and the events only grow, and every recorded
    result stays. *)
Theorem final_stays_final (s s' : State) :
  reachable fuel s -> later fuel s s' -> preserved s s' /\ results s ⊆ results s'.
Proof.
  intros Hr L. destruct (reachable_good fuel s Hr) as [I R].
  destruct (later_spec fuel s s' I R L) as (_ & _ & P & S). by split.
Qed.

(** * Records *)

(** C39. Every tournament record is well formed in every reachable state: its
    rules are within bounds, its entrants distinct, eligible and no more than
    the limit, join and submission numbers without gaps, scores in range, and
    exactly the fields of its status are set, with the values Close and Settle
    compute. *)
Theorem records_well_formed (s : State) : reachable fuel s -> tournaments_ok s.
Proof. intros Hr. apply (inv_tournaments fuel None s), (reachable_good fuel s Hr). Qed.

(** C30. No score is made up: every round record of a reachable state replays
    its accepted moves on the deal of its seed without an illegal move, a
    finished round's cleared count and score are those of the replayed board,
    rounds are finished in order, and a scored entry of a play tournament has
    the total of its finished rounds as its score. *)
Theorem rounds_replay (s : State) : reachable fuel s ->
  rounds_ok fuel (tournaments s) (rounds (play s)) /\
  forall k t e, tournaments s !! k = Some t -> r_game (t_rules t) <> "" -> e ∈ t_entries t -> e_scored e = true ->
    no_entry_in_play s k (entry_id e) /\
    e_score e = total_score (rounds (play s)) k (entry_id e) /\ 0 <= e_score e <= MaxTotalScore.
Proof.
  intros Hr. destruct (inv_play _ _ _ (proj1 (reachable_good fuel s Hr))) as [_ R _ S]. split; [exact R|].
  intros k t e Ht Hg He Hs. destruct (S k t e Ht Hg He Hs) as (S1 & S2 & _). split_and!; [exact S1|exact S2|..].
  all: rewrite S2; apply (Progress_total (play s) k (entry_id e)), (rounds_ok_bounded fuel _ _ R).
Qed.

(** Device bindings: a device and its player name each other, and every
    player record is bound, valid and counts its commands within 64 bits. *)
Theorem bindings_agree (s : State) : reachable fuel s -> bindings_ok (play s).
Proof. intros Hr. apply (pv_bindings fuel None s), (inv_play fuel None s), (reachable_good fuel s Hr). Qed.

(** * Money *)

Lemma pool_due_bounds s k : tournaments_ok s -> 0 <= pool_due (tournaments s !! k) <= 10 ^ 18.
Proof.
  intros [T _]. unfold pool_due. destruct (tournaments s !! k) as [t|] eqn:Ht; [|lia].
  pose proof (T k t Ht) as W. pose proof (ro_fee _ (to_rules k t W)). pose proof (entries_len k t W).
  pose proof (len_nonneg (t_entries t)). unfold MaxEntryFee in *. case_decide; [lia|]. nia.
Qed.

(** What a settled record fixes. *)
Lemma settled_facts k t : tournament_ok k t -> t_status t = Settled ->
  payable t /\ closed_fields t /\ exists ex, t_payouts t = Some (ComputePayouts t ex).
Proof.
  intros W Hs. pose proof (to_phase k t W) as P. unfold phase_ok in P. rewrite Hs in P. destruct P as (C & ex & _ & E).
  split_and!; [|done|by exists ex]. split; [apply (to_rules k t W)|apply (to_full k t W)|right; apply C].
Qed.

Lemma withheld_le ps : nonneg (map p_amount ps) -> 0 <= zsum (map withheld_part ps) <= zsum (map p_amount ps).
Proof.
  unfold nonneg. induction ps as [|p ps IH]; simpl; [lia|]. intros [Hp H]%Forall_cons. specialize (IH H).
  unfold withheld_part at 1 3. destruct (p_withheld p); lia.
Qed.

Lemma settled_exact k t : tournament_ok k t -> t_status t = Settled ->
  exists ps, t_payouts t = Some ps /\ nonneg (map p_amount ps) /\ 0 <= t_rake t /\
    t_fees t = r_entry_fee (t_rules t) * len (t_entries t) /\
    t_fees t = t_rake t + zsum (map p_amount ps) /\
    NoDup (map p_player ps) /\ forall p, p ∈ ps -> is_Some (find_entry t (p_player p)).
Proof.
  intros W Hs.
  destruct (settled_facts k t W Hs) as (P & [_ Hp] & ex & E). symmetry in Hp.
  destruct (ComputePool_exact t _ _ _ P Hp) as (F1 & F2 & F3 & F4 & _).
  destruct (ComputePayouts_exact t ex _ _ _ P Hp) as (A1 & A2 & _).
  exists (ComputePayouts t ex). split_and!; [done..|lia| |].
  - apply ComputePayouts_players; [done|apply (to_nodup k t W)].
  - intros p Hin. apply find_entry_is_Some. by apply (ComputePayouts_player_valid k t ex p W P Hin).
Qed.

(** C23. The payouts of a settled tournament are exact: the fees are the entry
    fee of every entry, rake and payouts are together the fees to the unit,
    no payout is negative, and every payee entered and is paid once. *)
Theorem settled_payouts_exact (s : State) (k : TournamentID) (t : Tournament) :
  reachable fuel s -> tournaments s !! k = Some t -> t_status t = Settled ->
  exists ps, t_payouts t = Some ps /\ nonneg (map p_amount ps) /\ 0 <= t_rake t /\
    t_fees t = r_entry_fee (t_rules t) * len (t_entries t) /\
    t_fees t = t_rake t + zsum (map p_amount ps) /\
    NoDup (map p_player ps) /\ forall p, p ∈ ps -> is_Some (find_entry t (p_player p)).
Proof.
  intros Hr Ht. apply (settled_exact k), (inv_tournaments fuel None s (proj1 (reachable_good fuel s Hr))), Ht.
Qed.

(** C22. The ledger holds exactly the money the records call for: its own
    consistency check passes, and the balances of a tournament's accounts are
    its entry fees until it is settled, and afterwards nothing in the pool,
    the rake in the rake account and the withheld prizes in theirs. *)
Theorem ledger_matches_records (s : State) (k : TournamentID) :
  reachable fuel s ->
  Ledger.Check (book s) = None /\
  Balance (book s) (PoolAccount k) = pool_due (tournaments s !! k) /\
  Balance (book s) (RakeAccount k) = rake_due (tournaments s !! k) /\
  Balance (book s) (WithheldAccount k) = withheld_due (tournaments s !! k).
Proof.
  intros Hr. destruct (reachable_good fuel s Hr) as [[T _ L] _]. pose proof (li_wf s L) as W.
  destruct (li_accounts s L) as [A1 A2 A3]. rewrite !(Balance_net _ _ W), A1, A2, A3.
  assert (B : 0 <= rake_due (tournaments s !! k) <= 10 ^ 18 /\ 0 <= withheld_due (tournaments s !! k) <= 10 ^ 18).
  { destruct (tournaments s !! k) as [t|] eqn:Ht; simpl; [|lia]. case_decide as Hs; [|lia].
    destruct (settled_exact k t (proj1 T k t Ht) Hs) as (ps & -> & N & Hk & Hf & Hsum & _). simpl.
    pose proof (withheld_le ps N). pose proof (proj1 T k t Ht) as Wt.
    pose proof (ro_fee _ (to_rules k t Wt)). pose proof (entries_len k t Wt). pose proof (len_nonneg (t_entries t)).
    unfold MaxEntryFee in *. assert (t_fees t <= 10 ^ 18) by nia. lia. }
  pose proof (pool_due_bounds s k T). split_and!; [by apply Check_wf|apply i64_id; unfold in_i64; lia..].
Qed.

(** Every posting has a cause and every cause its posting: the journal of a
    reachable state holds one entry fee for each entry, the rake and payouts
    of each settled tournament, claims of entrants of settled tournaments, and
    nothing else; no two postings share a key. *)
Theorem postings_accounted (s : State) :
  reachable fuel s ->
  (forall q, q ∈ postings (book s) -> origin (tournaments s) q) /\
  NoDup (map post_key (postings (book s))) /\
  (forall k t e, tournaments s !! k = Some t -> e ∈ t_entries t ->
     exists slot ballot q, q ∈ postings (book s) /\ unnumbered q = fee_posting t (entry_id e) slot ballot) /\
  (forall k t ps, tournaments s !! k = Some t -> t_status t = Settled -> t_payouts t = Some ps ->
     exists ex slot ballot, forall p, p ∈ settle_postings (reopen t) ex slot ballot ps ->
       exists q, q ∈ postings (book s) /\ unnumbered q = p).
Proof.
  intros Hr. destruct (inv_ledger _ _ _ (proj1 (reachable_good fuel s Hr))) as [W O F S _].
  split_and!; [exact O|exact (wf_nodup _ W)|exact F|exact S].
Qed.

Definition claimable_of (pid : PlayerID) (p : Payout) : bool := String.eqb (p_player p) pid && negb (p_withheld p).

Lemma claimable_step pid ps a : pid ∉ map p_player ps ->
  foldl (fun sum po => if claimable_of pid po then i64 (sum + p_amount po) else sum) a ps = a.
Proof.
  revert a. induction ps as [|p ps IH]; intros a H; simpl; [done|]. cbn [map] in H.
  apply not_elem_of_cons in H as [Hn H]. unfold claimable_of at 2. destruct (String.eqb_spec (p_player p) pid); [done|].
  simpl. by apply IH.
Qed.

(** With one payout per player the claimable amount is that payout's. *)
Lemma claimable_payout pid ps : NoDup (map p_player ps) -> Forall in_i64 (map p_amount ps) ->
  0 < foldl (fun sum po => if claimable_of pid po then i64 (sum + p_amount po) else sum) 0 ps ->
  exists p, p ∈ ps /\ p_player p = pid /\ p_withheld p = false /\
    p_amount p = foldl (fun sum po => if claimable_of pid po then i64 (sum + p_amount po) else sum) 0 ps.
Proof.
  induction ps as [|p ps IH]; [simpl; lia|]. cbn [map foldl]. intros [Hn N]%NoDup_cons [Hb B]%Forall_cons.
  destruct (claimable_of pid p) eqn:E.
  - unfold claimable_of in E. apply andb_true_iff in E as [Hpid%String.eqb_eq Hw%negb_true_iff]. rewrite Hpid in Hn.
    rewrite claimable_step, Z.add_0_l, i64_id by done. intros H. exists p. split_and!; [left|done..].
  - intros H. destruct (IH N B H) as (x & Hx & ?). exists x. split; [by right|done].
Qed.

(** C29. A prize is claimed at most once and exactly: a claim in the journal is
    for a payout of a settled tournament that was not withheld, takes that
    payout's amount from the player's account, and is the only claim of that
    player and tournament. *)
Theorem claims_exact (s : State) (q : Posting) :
  reachable fuel s -> q ∈ postings (book s) -> post_kind q = Claim ->
  exists k t ps p, tournaments s !! k = Some t /\ t_status t = Settled /\ t_payouts t = Some ps /\ p ∈ ps /\
    p_withheld p = false /\ post_amount q = p_amount p /\ 0 < p_amount p /\
    post_debit q = PlayerAccount (p_player p) /\ post_credit q = ClaimsAccount k /\
    forall q', q' ∈ postings (book s) -> post_key q' = ClaimKey k (p_player p) -> q' = q.
Proof.
  intros Hr Hq Hkind. destruct (reachable_good fuel s Hr) as [[T _ L] _]. pose proof (li_wf s L) as W.
  assert (Hu : forall q', unnumbered q = q' -> post_kind q' = Claim) by (by intros ? <-).
  destruct (li_origin s L q Hq) as [k t e slot ballot Ht _ E|k t ex slot ballot ps Ht Hs Hps E|k t pid slot ballot Ht Hs Hj E].
  - by apply Hu in E.
  - apply settle_postings_elem in E as [(_ & _ & E)|(p & _ & _ & E)]; apply Hu in E; [done|].
    unfold payout_posting in E. by repeat case_hyp E.
  - assert (Hpos : 0 < ClaimableAmount t pid).
    { replace (ClaimableAmount t pid) with (post_amount q) by (change (post_amount q) with (post_amount (unnumbered q)); by rewrite E).
      apply (wf_valid _ W q Hq). }
    destruct (settled_exact k t (proj1 T k t Ht) Hs) as (ps & Hps & N & Hk & Hf & Hsum & Nd & _).
    unfold ClaimableAmount in *. rewrite Hps in *. simpl in *.
    destruct (claimable_payout pid ps Nd) as (p & Hp & <- & Hw & Ha); [|exact Hpos|].
    { pose proof (proj1 T k t Ht) as Wt. pose proof (ro_fee _ (to_rules k t Wt)). pose proof (entries_len k t Wt).
      pose proof (len_nonneg (t_entries t)). unfold MaxEntryFee in *. assert (t_fees t <= 10 ^ 18) by nia.
      apply Forall_forall. intros x Hx. pose proof (zsum_le_elem _ x N Hx).
      pose proof (proj1 (Forall_forall _ _) N x Hx). simpl in *. unfold in_i64. lia. }
    exists k, t, ps, p. split_and!; try done.
    + change (post_amount q) with (post_amount (unnumbered q)). by rewrite E, Ha.
    + by rewrite Ha.
    + change (post_debit q) with (post_debit (unnumbered q)). by rewrite E.
    + change (post_credit q) with (post_credit (unnumbered q)). by rewrite E.
    + intros q' Hq' Hkey. apply (wf_key_inj (book s)); [done..|]. rewrite Hkey.
      change (post_key q) with (post_key (unnumbered q)). by rewrite E.
Qed.
End Guarantees.

(** * Witnesses *)

Section Witnesses.
#[local] Existing Instance ascii_unicode.

(** What the whole log leads to. *)
Lemma demo_facts : exists s, reachable 1 s /\ applied s = 9 /\
  (exists t e, tournaments s !! "t1" = Some t /\ t_status t = Settled /\ r_game (t_rules t) <> "" /\
     t_entries t = [e] /\ e_scored e = true /\ entry_id e = "p1") /\
  exists q, q ∈ postings (book s) /\ post_kind q = Claim.
Proof.
  destruct demo_settled_state as (s & rs & Hr & H). exists s. split; [done|]. unfold demo_settled in H.
  apply andb_true_iff in H as [H Hc]. apply andb_true_iff in H as [H _]. apply andb_true_iff in H as [H _].
  apply andb_true_iff in H as [H Ht]. apply andb_true_iff in H as [_ Ha]. split; [lia|]. split.
  - destruct (tournaments s !! "t1") as [t|]; [|done]. apply andb_true_iff in Ht as [Ht He].
    apply andb_true_iff in Ht as [Ht Hg]. apply andb_true_iff in Ht as [Ht _]. apply bool_decide_eq_true in Ht.
    destruct (t_entries t) as [|e [|]] eqn:E; try done. apply andb_true_iff in He as [He Hid%String.eqb_eq].
    exists t, e. split_and!; try done. by apply negb_true_iff, String.eqb_neq in Hg.
  - destruct (list_find _ _) as [[i q]|] eqn:E; [|done]. apply list_find_Some in E as (Hi & Hk & _).
    exists q. split; [by eapply list_elem_of_lookup_2|done].
Qed.

Lemma apply_total_witness : exists s s' res, reachable 1 s /\ applied s = 9 /\
  Apply 1 s 10 demo_ballot (demo_cmd 10 (Close "t1")) = Some (s', res) /\ res_code res <> LedgerConflict /\ applied s' = 10.
Proof.
  destruct demo_facts as (s & Hr & Ha & _).
  destruct (apply_total 1 s 10 demo_ballot (demo_cmd 10 (Close "t1")) Hr I) as (s' & res & E & _ & Hc & _ & H).
  exists s, s', res. split_and!; try done. apply H. rewrite Ha. reflexivity.
Defined.

(** A claim, then its retry at a later time under another leader. *)
Lemma apply_exactly_once_witness : exists s s1 res s3, reachable 1 s /\
  Apply 1 s 9 demo_ballot (demo_cmd 9 (ClaimPayout "t1" "p1" 5)) = Some (s1, res) /\
  Apply 1 s1 12 (mkBallot 2 3) (mkCommand "k9" 77777 (Some (ClaimPayout "t1" "p1" 5))) = Some (s3, with_replayed res) /\
  same_data s1 s3.
Proof.
  destruct (demo_run 8 (fun s rs => (applied s =? 8) && bool_decide (results s !! "k9" = None))) as (s & rs & Hr & H);
    [vm_compute; reflexivity|].
  apply andb_true_iff in H as [Ha%Z.eqb_eq Hk%bool_decide_eq_true].
  set (cmd := demo_cmd 9 (ClaimPayout "t1" "p1" 5)). set (cmd' := mkCommand "k9" 77777 (Some (ClaimPayout "t1" "p1" 5))).
  assert (Hlt : applied s < 9) by (rewrite Ha; reflexivity).
  destruct (apply_total 1 s 9 demo_ballot cmd Hr I) as (s1 & res & E & Hr1 & _ & _ & H1).
  assert (Hlt' : applied s1 < 12) by (rewrite (proj1 (H1 Hlt)); reflexivity).
  destruct (apply_exactly_once 1 s s1 s1 9 12 demo_ballot (mkBallot 2 3) cmd cmd' res Hr I I Hlt eq_refl Hk
    (mk_is_Some _ _ eq_refl) E (rtc_refl _ _) eq_refl Hlt') as (_ & (s3 & E3 & D) & _).
  exists s, s1, res, s3. split_and!; [done|done| |done].
  rewrite bool_decide_eq_true_2 in E3 by reflexivity. exact E3.
Defined.

Definition answers (c : Code) (r : option (State * Result)) : bool :=
  match r with Some (_, res) => bool_decide (res_code res = c) | None => false end.

Lemma answers_Some c r : answers c r = true -> exists s res, r = Some (s, res) /\ res_code res = c.
Proof. unfold answers. destruct r as [[s res]|]; [|done]. intros H%bool_decide_eq_true. eauto. Qed.

Lemma apply_rejected_unchanged_witness : exists s1 res pls dirty w,
  let s0 := rejected_state NewState 1 (demo_cmd 1 (Close "t1")) res pls dirty in
  Apply 1 NewState 1 demo_ballot (demo_cmd 1 (Close "t1")) = Some (s1, res) /\ res_code res = UnknownTournament /\
  mix_input s0 1 (demo_cmd 1 (Close "t1")) res 0 = Some w /\ s1 = set_hash s0 (sha256 (hash NewState ++ w)) /\
  (pls = players (play NewState) /\ dirty = [] \/
   exists pid ps, players (play NewState) !! pid = Some ps /\ pr_last_seq (pst_rec ps) + 1 < 2 ^ 64 /\
     pls = <[pid := consumed ps]> (players (play NewState)) /\ dirty = [pid]).
Proof.
  destruct (answers_Some UnknownTournament (Apply 1 NewState 1 demo_ballot (demo_cmd 1 (Close "t1")))) as (s1 & res & E & Hc);
    [vm_compute; reflexivity|].
  destruct (apply_rejected_unchanged 1 NewState s1 1 demo_ballot (demo_cmd 1 (Close "t1")) res (rtc_refl _ _) I eq_refl eq_refl eq_refl
      (mk_is_Some _ _ eq_refl) E ltac:(rewrite Hc; discriminate)) as (pls & dirty & w & H).
  exists s1, res, pls, dirty, w. split; [exact E|]. split; [exact Hc|]. exact H.
Defined.

Lemma apply_refines_changes_witness : exists s1 res,
  Apply 1 NewState 1 demo_ballot (demo_cmd 1 (CreateTournament "t1" 7 demo_rules)) = Some (s1, res) /\ mutations s1 = 1.
Proof.
  destruct (answers_Some OK (Apply 1 NewState 1 demo_ballot (demo_cmd 1 (CreateTournament "t1" 7 demo_rules))))
    as (s1 & res & E & Hc); [vm_compute; reflexivity|].
  exists s1, res. split; [done|].
  exact (proj1 (apply_refines_changes 1 NewState s1 1 demo_ballot (demo_cmd 1 (CreateTournament "t1" 7 demo_rules)) _ res
    (rtc_refl _ _) (Forall_inv demo_commands_ok) eq_refl eq_refl eq_refl eq_refl E Hc)).
Defined.

Lemma final_stays_final_witness : exists s, reachable 1 s /\ preserved s (Skip s 12).
Proof.
  destruct demo_facts as (s & Hr & _). exists s. split; [done|].
  apply (final_stays_final 1 s (Skip s 12) Hr). apply rtc_once, st_skip.
Defined.

Lemma records_well_formed_witness : exists s t, reachable 1 s /\ tournaments s !! "t1" = Some t /\ tournament_ok "t1" t.
Proof.
  destruct demo_facts as (s & Hr & _ & (t & e & Ht & _) & _). exists s, t. split_and!; [done|done|].
  by apply (records_well_formed 1 s Hr).
Defined.

Lemma rounds_replay_witness : exists s t e, reachable 1 s /\ tournaments s !! "t1" = Some t /\ t_entries t = [e] /\
  e_score e = total_score (rounds (play s)) "t1" "p1".
Proof.
  destruct demo_facts as (s & Hr & _ & (t & e & Ht & _ & Hg & He & Hs & Hid) & _). exists s, t, e. split_and!; [done..|].
  rewrite <- Hid. apply (proj2 (rounds_replay 1 s Hr) "t1" t e Ht Hg); [|done]. rewrite He. left.
Defined.

Lemma bindings_agree_witness : exists s, reachable 1 s /\ bindings_ok (play s).
Proof. destruct demo_facts as (s & Hr & _). exists s. split; [done|]. exact (bindings_agree 1 s Hr). Defined.

Lemma settled_payouts_exact_witness : exists s t ps, reachable 1 s /\ tournaments s !! "t1" = Some t /\
  t_payouts t = Some ps /\ t_fees t = t_rake t + zsum (map p_amount ps).
Proof.
  destruct demo_facts as (s & Hr & _ & (t & e & Ht & Hs & _) & _).
  destruct (settled_payouts_exact 1 s "t1" t Hr Ht Hs) as (ps & Hps & _ & _ & _ & H & _). by exists s, t, ps.
Defined.

Lemma ledger_matches_records_witness : exists s, reachable 1 s /\ Balance (book s) (PoolAccount "t1") = 0.
Proof.
  destruct demo_facts as (s & Hr & _ & (t & e & Ht & Hs & _) & _). exists s. split; [done|].
  destruct (ledger_matches_records 1 s "t1" Hr) as (_ & -> & _). unfold pool_due. rewrite Ht. by rewrite decide_True.
Defined.

Lemma postings_accounted_witness : exists s q, reachable 1 s /\ q ∈ postings (book s) /\ origin (tournaments s) q.
Proof.
  destruct demo_facts as (s & Hr & _ & _ & (q & Hq & _)). exists s, q. split_and!; [done|done|].
  by apply (postings_accounted 1 s Hr).
Defined.

Lemma claims_exact_witness : exists s q k t, reachable 1 s /\ q ∈ postings (book s) /\ post_kind q = Claim /\
  tournaments s !! k = Some t /\ t_status t = Settled.
Proof.
  destruct demo_facts as (s & Hr & _ & _ & (q & Hq & Hk)).
  destruct (claims_exact 1 s q Hr Hq Hk) as (k & t & _ & _ & Ht & Hs & _). by exists s, q, k, t.
Defined.
End Witnesses.
