(* ===== verification/Blind.v ===== *)
(** Ballots are audit metadata.  Two replicas may learn a slot under different
    ballots, when a later leader proposes the chosen value again; the source
    keeps the ballot in the records and in the postings but leaves it out of
    the hash chain.  [blind] clears every ballot of a state: each command does
    the same to a blinded state, whatever its ballot, and [Apply] gives the
    same result and the same hash. *)

From S2P Require Import Prelude GoStd Paxos Ledger Game Records Codec Compute State Guarantees.

(** * Clearing the ballots *)

Definition blind_book (b : Book) : Book := mkBook (map clear_posting_ballot (postings b)) (byKey b) (balances b).

Definition blind (s : State) : State :=
  mkState (clear_ballot <$> tournaments s) (order s) (results s) (blind_book (book s)) (applied s) (hash s)
    (commands s) (mutations s) (play s) (clock s).

Definition blind_res (r : State * Result) : State * Result := (blind r.1, r.2).

Lemma blind_idem s : blind (blind s) = blind s.
Proof.
  unfold blind. simpl. f_equal.
  - rewrite <- map_fmap_compose. by apply map_fmap_ext.
  - unfold blind_book. simpl. by rewrite map_map.
Qed.

Lemma lookup_blind s k : tournaments (blind s) !! k = clear_ballot <$> tournaments s !! k.
Proof. apply lookup_fmap. Qed.

Lemma put_blind s k t : put_tournament (blind s) k (clear_ballot t) = blind (put_tournament s k t).
Proof. unfold put_tournament, blind. simpl. by rewrite fmap_insert. Qed.

Lemma set_book_blind s b : set_book (blind s) (blind_book b) = blind (set_book s b).
Proof. done. Qed.

Lemma append_blind b p : append_posting (blind_book b) (clear_posting_ballot p) = blind_book (append_posting b p).
Proof. unfold append_posting, blind_book. simpl. by rewrite map_app, length_map. Qed.

(** Step through a command and its blinded run in parallel. *)
Ltac unblind :=
  repeat (cbn [mbind option_bind fmap option_fmap option_map blind_res fst snd];
    first [ reflexivity
          | rewrite lookup_blind | rewrite put_blind | rewrite set_book_blind
          | case_goal ]).

Section Blind.
Context `{U : Unicode} (fuel : nat).
Implicit Types s : State.

Lemma Post_blind b p : Post (blind_book b) (clear_posting_ballot p) =
  (fun r => (blind_book r.1, (clear_posting_ballot r.2.1.1, r.2.1.2, r.2.2))) <$> Post b p.
Proof.
  unfold Post. change (Validate (clear_posting_ballot p)) with (Validate p).
  destruct (Validate p); [done|]. simpl. destruct (byKey b !! post_key p) as [i|].
  - rewrite list_lookup_fmap. by destruct (postings b !! i).
  - simpl. unfold len. rewrite length_map, <- append_blind. done.
Qed.

Lemma checkFresh_blind b seen ps : checkFresh_from (blind_book b) seen (map clear_posting_ballot ps) = checkFresh_from b seen ps.
Proof. revert seen. induction ps as [|p ps IH]; intros seen; simpl; [done|].
  change (Has (blind_book b)) with (Has b). by destruct (_ || _). Qed.

Lemma post_new_blind b p : post_new_only (blind_book b) (clear_posting_ballot p) = blind_book <$> post_new_only b p.
Proof. unfold post_new_only. rewrite Post_blind. by destruct (Post b p) as [[b1 [[q []] [err|]]]|]. Qed.

Lemma post_all_blind ps b : foldM post_new_only (blind_book b) (map clear_posting_ballot ps) = blind_book <$> foldM post_new_only b ps.
Proof.
  revert b. induction ps as [|p ps IH]; intros b; simpl; [done|]. rewrite post_new_blind.
  destruct (post_new_only b p); simpl; [apply IH|done].
Qed.

(** ** The operations *)

Lemma create_blind s slot id seed r : create (blind s) slot id seed r = blind_res (create s slot id seed r).
Proof.
  unfold create. rewrite lookup_blind. destruct (ValidateTournamentID id); [done|]. destruct (ValidateRules r); [done|].
  destruct (tournaments s !! id) as [t|]; [done|]. unfold blind_res, blind. simpl. by rewrite fmap_insert.
Qed.

Lemma admit_blind s slot ballot k p :
  admit_entrant (blind s) slot zero_ballot k p = blind_res <$> admit_entrant s slot ballot k p.
Proof.
  unfold admit_entrant, deref. rewrite lookup_blind. destruct (tournaments s !! k) as [t|]; [|done]. simpl.
  change (admit_refusal (clear_ballot t) p) with (admit_refusal t p). destruct (admit_refusal t p); [done|].
  change (fee_posting (clear_ballot t) (pl_id p) slot zero_ballot) with (clear_posting_ballot (fee_posting t (pl_id p) slot ballot)).
  unfold checkFresh. change [clear_posting_ballot ?q] with (map clear_posting_ballot [q]).
  change (book (blind s)) with (blind_book (book s)). rewrite checkFresh_blind, Post_blind.
  destruct (checkFresh_from _ _ _); [done|]. destruct (Post _ _) as [[b [[q posted] [err|]]]|]; [done| |done]. simpl.
  destruct posted; [|done]. simpl. unfold blind_res. simpl. by rewrite <- put_blind.
Qed.

Lemma join_blind s slot ballot tid p : join (blind s) slot zero_ballot tid p = blind_res <$> join s slot ballot tid p.
Proof.
  unfold join. destruct (ValidatePlayer p); [done|]. rewrite lookup_blind.
  destruct (tournaments s !! tid) as [t|]; [|done]. cbn [fmap option_fmap option_map].
  change (t_rules (clear_ballot t)) with (t_rules t). destruct (negb _); [done|].
  rewrite (admit_blind s slot ballot). by destruct (admit_entrant s slot ballot tid p) as [[s1 res]|].
Qed.

Lemma mark_scored_blind t i sc d : mark_scored (clear_ballot t) i sc d = clear_ballot <$> mark_scored t i sc d.
Proof. unfold mark_scored. change (t_entries (clear_ballot t)) with (t_entries t). by destruct (t_entries t !! i). Qed.

Lemma score_blind s tid p sc seed d : score (blind s) tid p sc seed d = blind_res <$> score s tid p sc seed d.
Proof.
  unfold score. rewrite lookup_blind. destruct (tournaments s !! tid) as [t|]; [|done]. cbn [fmap option_fmap option_map].
  change (t_rules (clear_ballot t)) with (t_rules t). change (t_status (clear_ballot t)) with (t_status t).
  change (t_entries (clear_ballot t)) with (t_entries t). change (t_seed (clear_ballot t)) with (t_seed t).
  change (entry_index (clear_ballot t) p) with (entry_index t p).
  do 2 (destruct (negb _); [done|]). destruct (entry_index t p) as [i|]; [|done].
  destruct (t_entries t !! i) as [e|]; [|done]. cbn [mbind option_bind]. do 3 (case_match; [done|]).
  rewrite mark_scored_blind. destruct (mark_scored t i sc d) as [t'|]; [|done]. simpl. unfold blind_res. simpl.
  by rewrite put_blind.
Qed.

Lemma openSession_blind s slot at_ d v p j a :
  openSession (blind s) slot at_ d v p j a = blind_res <$> openSession s slot at_ d v p j a.
Proof.
  unfold openSession. change (play (blind s)) with (play s). destruct (_ || _); [done|].
  destruct (bindings (play s) !! d) as [b|]; [|by repeat case_match].
  destruct (negb _); [done|]. by destruct (players (play s) !! b_player b).
Qed.

Lemma sequenced_blind s p q tid : sequenced (blind s) p q tid = (blind (sequenced s p q tid).1, (sequenced s p q tid).2).
Proof.
  unfold sequenced. change (play (blind s)) with (play s). destruct (players (play s) !! p) as [ps|]; [|done].
  destruct (_ <=? _); [done|]. destruct (_ <? _); [done|].
  set (p1 := touchPlayer _ _). change (set_play (blind s) p1) with (blind (set_play s p1)). rewrite lookup_blind.
  destruct (tournaments (set_play s p1) !! tid) as [t|]; [|done]. cbn [fmap option_fmap option_map].
  change (t_rules (clear_ballot t)) with (t_rules t). by destruct (String.eqb _ _).
Qed.

(** A play command: what follows the sequence check does the same. *)
Lemma sequenced_bind s p q tid (k k' : State -> option (State * Result)) :
  (forall s1, k' (blind s1) = blind_res <$> k s1) ->
  (match sequenced (blind s) p q tid with (s1, Some rej) => Some (s1, rej) | (s1, None) => k' s1 end) =
  blind_res <$> (match sequenced s p q tid with (s1, Some rej) => Some (s1, rej) | (s1, None) => k s1 end).
Proof. intros H. rewrite sequenced_blind. destruct (sequenced s p q tid) as [s1 [rej|]]; simpl; [done|apply H]. Qed.

Lemma deref_blind s k : deref (blind s) k = clear_ballot <$> deref s k.
Proof. apply lookup_blind. Qed.

Lemma enterPlay_blind s slot ballot tid p q : enterPlay (blind s) slot zero_ballot tid p q = blind_res <$> enterPlay s slot ballot tid p q.
Proof.
  apply sequenced_bind. intros s1. change (play (blind s1)) with (play s1).
  destruct (players (play s1) !! p) as [ps|]; [|done]. cbn [mbind option_bind].
  rewrite (admit_blind s1 slot ballot). destruct (admit_entrant s1 slot ballot tid _) as [[s2 res]|]; [|done].
  cbn [mbind option_bind fmap option_fmap option_map blind_res fst snd].
  change (outcome (blind s2) p) with (outcome s2 p). destruct (outcome s2 p) as [out|]; [|done]. cbn [mbind option_bind].
  destruct (decide _); [|done]. rewrite deref_blind. destruct (deref s2 tid) as [t|]; [|done].
  cbn [mbind option_bind fmap option_fmap option_map].
  change (t_entries (clear_ballot t)) with (t_entries t). by destruct (last (t_entries t)).
Qed.

Lemma startRound_blind s slot tid p q r seed :
  startRound (blind s) slot tid p q r seed = blind_res <$> startRound s slot tid p q r seed.
Proof.
  apply sequenced_bind. intros s1. rewrite deref_blind. destruct (deref s1 tid) as [t|]; [|done].
  cbn [mbind option_bind fmap option_fmap option_map].
  change (outcome (blind s1) p) with (outcome s1 p). destruct (outcome s1 p) as [out|]; [|done]. cbn [mbind option_bind].
  change (t_status (clear_ballot t)) with (t_status t). change (find_entry (clear_ballot t) p) with (find_entry t p).
  change (t_id (clear_ballot t)) with (t_id t). change (play (blind s1)) with (play s1).
  change (previous_unfinished (blind s1) (clear_ballot t) p r) with (previous_unfinished s1 t p r).
  by do 5 (case_match; [done|]).
Qed.

(** ** Rounds and scores *)

Lemma recordLeaderboard_blind s slot tid : recordLeaderboard (blind s) slot tid = blind (recordLeaderboard s slot tid).
Proof. unfold recordLeaderboard. change (play (blind s)) with (play s). by destruct (decide _). Qed.

Lemma scoreEntry_blind s slot k i : scoreEntry (blind s) slot k i = blind <$> scoreEntry s slot k i.
Proof.
  unfold scoreEntry. rewrite deref_blind. destruct (deref s k) as [t|]; [|done].
  cbn [mbind option_bind fmap option_fmap option_map]. change (t_entries (clear_ballot t)) with (t_entries t).
  destruct (t_entries t !! i) as [e|]; [|done]. cbn [mbind option_bind].
  change (play (blind s)) with (play s). change (t_id (clear_ballot t)) with (t_id t).
  rewrite mark_scored_blind. destruct (mark_scored t i _ _) as [t'|]; [|done].
  cbn [mbind option_bind fmap option_fmap option_map]. by rewrite put_blind.
Qed.

Lemma finishRound_blind s slot k i rk board reason closing :
  finishRound fuel (blind s) slot k i rk board reason closing = blind <$> finishRound fuel s slot k i rk board reason closing.
Proof.
  unfold finishRound. rewrite deref_blind. destruct (deref s k) as [t|]; [|done].
  cbn [mbind option_bind fmap option_fmap option_map]. change (t_entries (clear_ballot t)) with (t_entries t).
  change (play (blind s)) with (play s). change (t_id (clear_ballot t)) with (t_id t).
  destruct (rounds (play s) !! rk) as [rec|]; [|done]. cbn [mbind option_bind].
  destruct (match board with Some b => _ | None => _ end) as [b|]; [|done]. cbn [mbind option_bind].
  set (p1 := touchRound _ _). change (set_play (blind s) p1) with (blind (set_play s p1)).
  set (s1 := set_play s p1). set (ev := mkEvent _ _ _ _ _ _ _ _ _ _ _).
  change (recordEvent (blind s1) _) with (blind (recordEvent s1 ev)). set (s2 := recordEvent s1 ev).
  assert (E : (if closing then blind s2 else recordLeaderboard (blind s2) slot (t_id t)) =
    blind (if closing then s2 else recordLeaderboard s2 slot (t_id t))).
  { destruct closing; [done|apply recordLeaderboard_blind]. }
  rewrite E. destruct (_ =? Rounds); [|done]. destruct (t_entries t !! i) as [e|]; [|done]. cbn [mbind option_bind].
  destruct (e_scored e); [done|]. apply scoreEntry_blind.
Qed.

Lemma playMove_blind s slot tid p q r i mv :
  playMove fuel (blind s) slot tid p q r i mv = blind_res <$> playMove fuel s slot tid p q r i mv.
Proof.
  apply sequenced_bind. intros s1. rewrite deref_blind. destruct (deref s1 tid) as [t|]; [|done].
  cbn [mbind option_bind fmap option_fmap option_map].
  change (outcome (blind s1) p) with (outcome s1 p). destruct (outcome s1 p) as [out|]; [|done]. cbn [mbind option_bind].
  change (t_status (clear_ballot t)) with (t_status t). destruct (negb _); [done|].
  change (roundFor (blind s1) (clear_ballot t) p r) with (roundFor s1 t p r).
  destruct (roundFor s1 t p r _) as [[rk idx]|rej]; [|done]. change (play (blind s1)) with (play s1).
  destruct (rounds (play s1) !! rk) as [rec|]; [|done]. cbn [mbind option_bind]. change (clock (blind s1)) with (clock s1).
  do 3 (case_match; [done|]). destruct (Replay fuel _ _) as [[board [err|]]|]; [done| |done]. cbn [mbind option_bind].
  destruct (Game.Apply board mv) as [[board' [err|]]|]; [done| |done]. cbn [mbind option_bind].
  destruct (Over board') as [[reason|]|]; [|done|done]. cbn [mbind option_bind].
  change (t_id (clear_ballot t)) with (t_id t). set (p1 := touchRound _ _).
  change (set_play (blind s1) p1) with (blind (set_play s1 p1)). rewrite finishRound_blind.
  by destruct (finishRound _ _ _ _ _ _ _ _ _).
Qed.

Lemma finishRoundCmd_blind s slot tid p q r :
  finishRoundCmd fuel (blind s) slot tid p q r = blind_res <$> finishRoundCmd fuel s slot tid p q r.
Proof.
  apply sequenced_bind. intros s1. rewrite deref_blind. destruct (deref s1 tid) as [t|]; [|done].
  cbn [mbind option_bind fmap option_fmap option_map].
  change (outcome (blind s1) p) with (outcome s1 p). destruct (outcome s1 p) as [out|]; [|done]. cbn [mbind option_bind].
  change (roundFor (blind s1) (clear_ballot t) p r) with (roundFor s1 t p r).
  destruct (roundFor s1 t p r _) as [[rk idx]|rej]; [|done]. change (play (blind s1)) with (play s1).
  destruct (rounds (play s1) !! rk) as [rec|]; [|done]. cbn [mbind option_bind].
  destruct (String.eqb _ _); [done|]. change (t_status (clear_ballot t)) with (t_status t). destruct (negb _); [done|].
  change (finish_reason (blind s1)) with (finish_reason s1). rewrite finishRound_blind.
  by destruct (finishRound _ _ _ _ _ _ _ _ _).
Qed.

(** ** Close, Settle and ClaimPayout *)

Lemma foldM_blind {X} (f g : State -> X -> option State) l s :
  (forall s x, g (blind s) x = blind <$> f s x) -> foldM g (blind s) l = blind <$> foldM f s l.
Proof.
  intros H. revert s. induction l as [|x l IH]; intros s; simpl; [done|]. rewrite H. destruct (f s x); simpl; [apply IH|done].
Qed.

Lemma close_round_blind slot k i s r : close_round fuel slot k i (blind s) r = blind <$> close_round fuel slot k i s r.
Proof.
  unfold close_round. rewrite deref_blind. destruct (deref s k) as [t|]; [|done].
  cbn [mbind option_bind fmap option_fmap option_map]. change (t_entries (clear_ballot t)) with (t_entries t).
  destruct (t_entries t !! i) as [e|]; [|done]. cbn [mbind option_bind].
  change (play (blind s)) with (play s). change (t_id (clear_ballot t)) with (t_id t).
  destruct (rounds (play s) !! _) as [rec|]; [|done]. destruct (String.eqb _ _); [done|].
  change (finish_reason (blind s)) with (finish_reason s). apply finishRound_blind.
Qed.

Lemma close_entry_blind slot k s i : close_entry slot k (blind s) i = blind <$> close_entry slot k s i.
Proof.
  unfold close_entry. rewrite deref_blind. destruct (deref s k) as [t|]; [|done].
  cbn [mbind option_bind fmap option_fmap option_map]. change (t_entries (clear_ballot t)) with (t_entries t).
  destruct (t_entries t !! i) as [e|]; [|done]. cbn [mbind option_bind].
  change (play (blind s)) with (play s). change (t_id (clear_ballot t)) with (t_id t).
  destruct (e_scored e); [done|]. destruct (0 <? _); [apply scoreEntry_blind|done].
Qed.

Lemma closeRounds_blind s slot k : closeRounds fuel (blind s) slot k = blind <$> closeRounds fuel s slot k.
Proof.
  unfold closeRounds. rewrite deref_blind. destruct (deref s k) as [t|]; [|done].
  cbn [mbind option_bind fmap option_fmap option_map]. change (t_entries (clear_ballot t)) with (t_entries t).
  rewrite (foldM_blind (fun s i => foldM (close_round fuel slot k i) s [1; 2; 3]))
    by (intros s1 i; apply foldM_blind; intros; apply close_round_blind).
  destruct (foldM _ s _) as [s1|]; [|done]. cbn [mbind option_bind fmap option_fmap option_map].
  apply foldM_blind. intros. apply close_entry_blind.
Qed.

Lemma recordStatus_blind s slot k : recordStatus (blind s) slot k = blind <$> recordStatus s slot k.
Proof.
  unfold recordStatus. rewrite deref_blind. destruct (deref s k) as [t|]; [|done].
  cbn [mbind option_bind fmap option_fmap option_map]. set (ev := mkEvent _ _ _ _ _ _ _ _ _ _ _).
  change (recordEvent (blind s) _) with (blind (recordEvent s ev)). by rewrite recordLeaderboard_blind.
Qed.

Lemma close_blind s slot tid : close fuel (blind s) slot tid = blind_res <$> close fuel s slot tid.
Proof.
  unfold close. rewrite lookup_blind. destruct (tournaments s !! tid) as [t|]; [|done]. cbn [fmap option_fmap option_map].
  change (t_status (clear_ballot t)) with (t_status t). destruct (negb _); [done|].
  change (t_rules (clear_ballot t)) with (t_rules t).
  assert (E : (if String.eqb (r_game (t_rules t)) "" then Some (blind s) else closeRounds fuel (blind s) slot tid) =
    blind <$> (if String.eqb (r_game (t_rules t)) "" then Some s else closeRounds fuel s slot tid)).
  { destruct (String.eqb _ _); [done|apply closeRounds_blind]. }
  rewrite E. set (r1 := if String.eqb _ _ then Some s else closeRounds fuel s slot tid). destruct r1 as [s1|]; [|done].
  cbn [mbind option_bind fmap option_fmap option_map]. rewrite deref_blind. destruct (deref s1 tid) as [t1|]; [|done].
  cbn [mbind option_bind fmap option_fmap option_map].
  change (Voids (clear_ballot t1)) with (Voids t1). change (ComputeStandings (clear_ballot t1)) with (ComputeStandings t1).
  change (ComputePool (clear_ballot t1)) with (ComputePool t1). destruct (ComputePool t1) as [[fees rake] pool] eqn:Ep.
  set (t2 := close_record t1 _ _ _ slot). change (close_record (clear_ballot t1) _ _ _ slot) with (clear_ballot t2).
  rewrite put_blind. change (t_rules (clear_ballot t2)) with (t_rules t2).
  destruct (String.eqb (r_game (t_rules t2)) ""); [reflexivity|].
  rewrite recordStatus_blind. by destruct (recordStatus (put_tournament s1 tid t2) slot tid).
Qed.

Lemma settle_postings_blind t ex slot ballot ps :
  settle_postings (clear_ballot t) ex slot zero_ballot ps = map clear_posting_ballot (settle_postings t ex slot ballot ps).
Proof.
  unfold settle_postings. rewrite map_app, map_map. f_equal.
  - simpl. by destruct (_ && _).
  - apply map_ext. intros p. unfold payout_posting. simpl. by repeat case_match; simplify_eq.
Qed.

Lemma first_error_map {X Y} (f : X -> Y) (g : Y -> option error) l : first_error g (map f l) = first_error (fun x => g (f x)) l.
Proof. induction l as [|x l IH]; simpl; [done|]. by rewrite IH. Qed.

Lemma settle_blind s slot ballot tid ex : settle (blind s) slot zero_ballot tid ex = blind_res <$> settle s slot ballot tid ex.
Proof.
  unfold settle. destruct (ValidateExclusions ex); [done|]. rewrite lookup_blind.
  destruct (tournaments s !! tid) as [t|]; [|done]. cbn [fmap option_fmap option_map].
  change (t_status (clear_ballot t)) with (t_status t). destruct (_ && _); [done|].
  change (ComputePayouts (clear_ballot t)) with (ComputePayouts t). set (ps := ComputePayouts t _).
  rewrite (settle_postings_blind t _ slot ballot), first_error_map.
  change (fun x => Validate (clear_posting_ballot x)) with (fun x => Validate x).
  destruct (first_error _ _); [done|]. unfold checkFresh. change (book (blind s)) with (blind_book (book s)).
  rewrite checkFresh_blind. destruct (checkFresh_from _ _ _); [done|]. rewrite post_all_blind.
  destruct (foldM post_new_only _ _) as [b|]; [|done]. cbn [mbind option_bind fmap option_fmap option_map].
  change (settle_record (clear_ballot t) ps slot zero_ballot) with (clear_ballot (settle_record t ps slot ballot)).
  rewrite set_book_blind, put_blind. change (t_rules (clear_ballot t)) with (t_rules t).
  destruct (String.eqb _ _); [done|]. rewrite recordStatus_blind. destruct (recordStatus _ _ _) as [s1|]; [|done].
  cbn [mbind option_bind fmap option_fmap option_map]. unfold blind_res. simpl. do 2 f_equal.
  generalize s1. induction ps as [|p ps IH]; intros s2; simpl; [done|]. rewrite <- IH. f_equal. by destruct (_ && _).
Qed.

Lemma claimPayout_blind s slot ballot tid p q :
  claimPayout (blind s) slot zero_ballot tid p q = blind_res <$> claimPayout s slot ballot tid p q.
Proof.
  apply sequenced_bind. intros s1. rewrite deref_blind. destruct (deref s1 tid) as [t|]; [|done].
  cbn [mbind option_bind fmap option_fmap option_map].
  change (outcome (blind s1) p) with (outcome s1 p). destruct (outcome s1 p) as [out|]; [|done]. cbn [mbind option_bind].
  change (t_status (clear_ballot t)) with (t_status t). change (find_entry (clear_ballot t) p) with (find_entry t p).
  do 2 (case_match; [done|]). change (ClaimableAmount (clear_ballot t) p) with (ClaimableAmount t p).
  case_match; [done|]. change (t_id (clear_ballot t)) with (t_id t). change (book (blind s1)) with (blind_book (book s1)).
  change (Has (blind_book (book s1))) with (Has (book s1)). case_match; [done|].
  set (po := claim_posting _ _ _ slot ballot). change (claim_posting _ _ _ slot zero_ballot) with (clear_posting_ballot po).
  rewrite Post_blind. destruct (Post (book s1) po) as [[b [[x posted] err]]|]; [|done].
  cbn [mbind option_bind fmap option_fmap option_map fst snd]. rewrite set_book_blind. by destruct (_ || _).
Qed.

(** ** Apply *)

Lemma dispatch_blind s slot ballot at_ op :
  dispatch fuel (blind s) slot zero_ballot at_ op = blind_res <$> dispatch fuel s slot ballot at_ op.
Proof.
  destruct op; simpl.
  - by rewrite create_blind.
  - apply join_blind.
  - apply score_blind.
  - apply close_blind.
  - apply settle_blind.
  - apply openSession_blind.
  - apply enterPlay_blind.
  - apply startRound_blind.
  - apply playMove_blind.
  - apply finishRoundCmd_blind.
  - apply claimPayout_blind.
Qed.

Lemma execute_blind s slot ballot cmd : execute fuel (blind s) slot zero_ballot cmd = blind_res <$> execute fuel s slot ballot cmd.
Proof.
  unfold execute. destruct (ValidateKey (cmd_key cmd)); [done|]. change (results (blind s)) with (results s).
  destruct (results s !! cmd_key cmd) as [rec|]; [by destruct (negb _)|]. destruct (cmd_op cmd) as [op|]; [|done].
  rewrite (dispatch_blind s slot ballot). by destruct (dispatch _ _ _ _ _ _) as [[s1 res]|].
Qed.

Lemma EncodePostings_blind ps : EncodePostings (map clear_posting_ballot ps) = EncodePostings ps.
Proof.
  unfold EncodePostings. f_equal. induction ps as [|p ps IH]; simpl; [done|]. by rewrite IH.
Qed.

Lemma mix_input_blind s slot cmd res n : mix_input (blind s) slot cmd res n = mix_input s slot cmd res n.
Proof.
  unfold mix_input. assert (E : PostingsSince (book (blind s)) n = map clear_posting_ballot (PostingsSince (book s) n)).
  { unfold PostingsSince. simpl. unfold len. rewrite length_map. destruct (_ <=? _); [done|]. by rewrite skipn_map. }
  rewrite E, EncodePostings_blind, lookup_blind. change (play (blind s)) with (play s).
  by destruct (tournaments s !! _) as [t|].
Qed.

(** Blinding commutes with [Apply] under any ballot. *)
Lemma Apply_blind s slot ballot cmd : Apply fuel (blind s) slot zero_ballot cmd = blind_res <$> Apply fuel s slot ballot cmd.
Proof.
  unfold Apply. change (applied (blind s)) with (applied s). destruct (slot <=? applied s); [done|].
  change (start_slot (blind s) slot cmd) with (blind (start_slot s slot cmd)).
  rewrite (execute_blind _ slot ballot). assert (El : Len (book (blind s)) = Len (book s)) by (unfold Len, len; simpl; by rewrite length_map).
  rewrite El. destruct (execute _ _ _ _ _) as [[s1 res]|]; [|done].
  cbn [mbind option_bind fmap option_fmap option_map blind_res fst snd]. unfold mix. rewrite mix_input_blind.
  by destruct (mix_input s1 slot cmd res _).
Qed.

Lemma Skip_blind s slot : Skip (blind s) slot = blind (Skip s slot).
Proof. unfold Skip. change (applied (blind s)) with (applied s). by destruct (_ <=? _). Qed.

(** C24. The ballot a slot was chosen under never shows: on two states that
    differ only in recorded ballots, the same command applied at the same slot
    under any two ballots gives the same result, and states that again differ
    only in recorded ballots and have the same hash. *)
Theorem apply_ballot_blind (s s' : State) (slot : Slot) (ballot ballot' : Ballot) (cmd : Command) :
  blind s = blind s' ->
  match Apply fuel s slot ballot cmd, Apply fuel s' slot ballot' cmd with
  | Some (s1, res), Some (s1', res') => blind s1 = blind s1' /\ res = res' /\ hash s1 = hash s1'
  | None, None => True
  | _, _ => False
  end.
Proof.
  intros E. pose proof (Apply_blind s slot ballot cmd) as H. pose proof (Apply_blind s' slot ballot' cmd) as H'.
  rewrite E, H' in H. destruct (Apply fuel s slot ballot cmd) as [[s1 res]|],
    (Apply fuel s' slot ballot' cmd) as [[s1' res']|]; try done. injection H as H1 H2 H3 H4 H5 H6 H7 H8 H9 H10 H11.
  split_and!; [|done|done]. unfold blind, blind_book. simpl. congruence.
Qed.
End Blind.

#[local] Existing Instance ascii_unicode.

(** The session command of the sample log, learnt under two ballots. *)
Lemma apply_ballot_blind_witness : exists s1 s1' res,
  Apply 1 NewState 1 (mkBallot 1 1) (nth 1 demo_cmds (demo_cmd 2 (Close "t1"))) = Some (s1, res) /\
  Apply 1 NewState 1 (mkBallot 5 3) (nth 1 demo_cmds (demo_cmd 2 (Close "t1"))) = Some (s1', res) /\
  res_code res = OK /\ hash s1 = hash s1'.
Proof.
  pose proof (apply_ballot_blind 1 NewState NewState 1 (mkBallot 1 1) (mkBallot 5 3)
    (nth 1 demo_cmds (demo_cmd 2 (Close "t1"))) eq_refl) as H.
  assert (E : match Apply 1 NewState 1 (mkBallot 1 1) (nth 1 demo_cmds (demo_cmd 2 (Close "t1"))) with
              | Some (_, res) => bool_decide (res_code res = OK) | None => false end = true) by by vm_compute.
  destruct (Apply 1 NewState 1 (mkBallot 1 1) _) as [[s1 res]|]; [|done].
  destruct (Apply 1 NewState 1 (mkBallot 5 3) _) as [[s1' res']|]; [|done].
  destruct H as (_ & <- & Hh). exists s1, s1', res. apply bool_decide_eq_true in E. auto.
Defined.
