(* ===== verification/EventIndex.v ===== *)
(** The event feed of a player ([Events] and [HasEvents] of
    internal/tournament/play_state.go).

    The code keeps an index of events per player and per tournament, searches
    each by bisection, cuts each at the limit and merges them.  The
    specification filters the journal of events and cuts it once
    ([visible_events], [whole]).  They are the same in every reachable state
    ([events_merge_indexes], [has_events_exact]).  Polls.v builds on this how
    the pages of a client that reads on chain together. *)

From S2P Require Import Prelude GoStd Paxos Ledger Game Records Codec Compute State Changes.
From S2P Require Import TournamentInv PlayInv LedgerInv Machine Reach Guarantees.

(** * The specification *)

(** The longest prefix of at least [max] elements, or of all when there are
    fewer, that splits no slot. *)
Fixpoint whole {A} (slot : A -> Z) (max n last : Z) (l : list A) : list A :=
  match l with
  | [] => []
  | x :: l' => if (0 <? max) && (max <=? n) && negb (slot x =? last) then [] else x :: whole slot max (n + 1) (slot x) l'
  end.

(** A player sees its own events and those everybody sees of the tournaments it
    entered, of the tournament [t] when it is not empty. *)
Definition about (t : TournamentID) (ev : EventRecord) : bool := String.eqb t "" || String.eqb (ev_tournament ev) t.
Definition sees (pl : PlayerID) (entered : list TournamentID) (ev : EventRecord) : bool :=
  String.eqb (ev_player ev) pl || (String.eqb (ev_player ev) "" && bool_decide (ev_tournament ev ∈ entered)).

Definition visible_events (p : playState) (after : Slot) (t : TournamentID) (pl : PlayerID) : list EventRecord :=
  match players p !! pl with
  | None => []
  | Some ps => List.filter (fun ev => (after <? ev_slot ev) && about t ev && sees pl (pst_entered ps) ev) (events p)
  end.

(** * Whole prefixes *)

Section Whole.
Context {A : Type} (slot : A -> Z).
Notation whole := (whole slot).

Definition rising (l : list A) : Prop := StronglySorted (fun x y => slot x <= slot y) l.

Lemma whole_prefix max n last l : whole max n last l `prefix_of` l.
Proof.
  revert n last. induction l as [|x l IH]; intros n last; simpl; [done|]. case_goal; [apply prefix_nil|]. by apply prefix_cons.
Qed.

Lemma whole_all max n last l : max <= 0 -> whole max n last l = l.
Proof.
  intros H. revert n last. induction l as [|x l IH]; intros n last; simpl; [done|].
  rewrite (proj2 (Z.ltb_ge _ _)) by done. simpl. by rewrite IH.
Qed.

(** What is left out comes strictly later than what is kept. *)
Lemma whole_rest max n last l : rising l -> Forall (fun x => last <= slot x) l ->
  exists rest, l = whole max n last l ++ rest /\
    (rest <> [] -> max <= n + len (whole max n last l) /\ Forall (fun y => last < slot y /\ Forall (fun x => slot x < slot y) (whole max n last l)) rest).
Proof.
  intros Hs. revert n last. induction Hs as [|x l Hs IH Hx]; intros n last Hl; [by exists []|]. apply Forall_cons in Hl as [Hlx Hl]. simpl.
  destruct ((0 <? max) && (max <=? n) && negb (slot x =? last)) eqn:Hc.
  - exists (x :: l). split; [done|]. intros _. rewrite !andb_true_iff, negb_true_iff, Z.ltb_lt, Z.leb_le, Z.eqb_neq in Hc. split; [change (len []) with 0; lia|].
    constructor; [split; [lia|done]|]. eapply Forall_impl; [exact Hx|]. simpl. intros y Hy. split; [lia|done].
  - destruct (IH (n + 1) (slot x) Hx) as (rest & E & Hr). exists rest. split; [by rewrite E at 1|]. intros Hne. destruct (Hr Hne) as [Hn Hf].
    rewrite len_cons. split; [lia|]. eapply Forall_impl; [exact Hf|]. simpl. intros y [Hy Hf2]. split; [lia|]. by constructor.
Qed.

(** Before a kept element lie fewer than [max] of earlier slots. *)
Lemma whole_few max n last l x : rising l -> 0 < max -> x ∈ whole max n last l -> (n < max \/ Forall (fun y => last <= slot y) l) ->
  slot x = last \/ n + len (List.filter (fun y => slot y <? slot x) l) < max.
Proof.
  intros Hs Hm. revert n last. induction Hs as [|y l Hs IH Hy]; intros n last; simpl; [by intros ?%not_elem_of_nil|].
  assert (Hnone : forall z, slot z = slot y -> List.filter (fun y => slot y <? slot z) (y :: l) = []).
  { intros z Hz. assert (Hall : Forall (fun v => slot z <= slot v) (y :: l)) by (constructor; [lia|]; eapply Forall_impl; [exact Hy|]; simpl; lia).
    clear -Hall. induction Hall as [|v k Hv _ IH]; [done|]. simpl. by rewrite (proj2 (Z.ltb_ge _ _)). }
  destruct ((0 <? max) && (max <=? n) && negb (slot y =? last)) eqn:Hc; [by intros ?%not_elem_of_nil|].
  assert (Hc' : n < max \/ slot y = last).
  { rewrite !andb_false_iff, negb_false_iff, Z.ltb_ge, Z.leb_gt, Z.eqb_eq in Hc. lia. }
  intros [-> |Hin]%elem_of_cons _.
  - pose proof (Hnone y eq_refl) as E0. cbn [List.filter] in E0. rewrite E0. change (len []) with 0. lia.
  - destruct (IH (n + 1) (slot y) Hin (or_intror Hy)) as [E|E].
    + pose proof (Hnone x E) as E0. cbn [List.filter] in E0. rewrite E0. change (len []) with 0. lia.
    + right. destruct (slot y <? slot x); [rewrite len_cons|]; lia.
Qed.

(** What follows a whole prefix that is long enough, and comes later, is cut. *)
Lemma whole_app max n last w k : (k <> [] -> max <= n + len w) -> 0 < max -> whole max n last w = w ->
  Forall (fun y => last < slot y /\ Forall (fun x => slot x < slot y) w) k -> whole max n last (w ++ k) = w.
Proof.
  intros Hn Hm. revert n last Hn. induction w as [|x w IH]; intros n last Hn Hw Hk; simpl in *.
  - destruct k as [|y k]; [done|]. simpl. apply Forall_cons in Hk as [[Hy _] _]. change (len []) with 0 in Hn. specialize (Hn ltac:(done)).
    rewrite (proj2 (Z.ltb_lt _ _)), (proj2 (Z.leb_le _ _)), (proj2 (Z.eqb_neq _ _)) by lia. done.
  - destruct (_ && _ && _); [done|]. injection Hw as Hw. f_equal. apply IH; [|done|].
    + intros Hne. specialize (Hn Hne). rewrite len_cons in Hn. lia.
    + eapply Forall_impl; [exact Hk|]. simpl. intros y [_ [Hx Hf]%Forall_cons]. by split.
Qed.

Lemma whole_idem max n last l : whole max n last (whole max n last l) = whole max n last l.
Proof.
  revert n last. induction l as [|x l IH]; intros n last; simpl; [done|].
  destruct ((0 <? max) && (max <=? n) && negb (slot x =? last)) eqn:Hc; [done|]. simpl. by rewrite Hc, IH.
Qed.

(** At the start the last slot does not matter. *)
Lemma whole_start max last last' l : whole max 0 last l = whole max 0 last' l.
Proof. destruct l as [|x l]; [done|]. simpl. destruct (Z.ltb_spec 0 max), (Z.leb_spec max 0); try done; lia. Qed.

(** Leaving out elements of [l] none of which a page keeps leaves the page. *)
Lemma whole_filter max l (keep : A -> bool) : rising l -> 0 < max -> (forall x, x ∈ whole max 0 0 l -> keep x = true) ->
  whole max 0 0 (List.filter keep l) = whole max 0 0 l.
Proof.
  intros Hs Hm Hk. destruct l as [|x0 l0] eqn:El; [done|]. rewrite <- El in *. set (z := slot x0 - 1).
  rewrite (whole_start max 0 z l), (whole_start max 0 z (List.filter keep l)). rewrite (whole_start max 0 z l) in Hk.
  assert (Hl : Forall (fun x => z <= slot x) l).
  { rewrite El in *. inversion Hs as [|? ? _ Hx]. unfold z. constructor; [lia|]. eapply Forall_impl; [exact Hx|]. simpl. lia. }
  destruct (whole_rest max 0 z l Hs Hl) as (rest & E & Hr). rewrite E at 1. rewrite List.filter_app.
  assert (Ew : List.filter keep (whole max 0 z l) = whole max 0 z l).
  { revert Hk. generalize (whole max 0 z l) as w. induction w as [|x w IH]; intros Hk; [done|]. simpl. rewrite Hk by (by left). f_equal. apply IH. intros y Hy. apply Hk. by right. }
  rewrite Ew. destruct rest as [|y rest].
  - simpl. rewrite app_nil_r. apply whole_idem.
  - destruct (Hr ltac:(done)) as [Hn Hf]. apply whole_app; [by intros _; lia|done|apply whole_idem|].
    clear -Hf. induction Hf as [|v k Hv _ IH]; simpl; [constructor|]. destruct (keep v); [by constructor|done].
Qed.
End Whole.

Lemma whole_map {A B} (f : A -> B) (slot : B -> Z) max n last l : whole slot max n last (map f l) = map f (whole (fun x => slot (f x)) max n last l).
Proof. revert n last. induction l as [|x l IH]; intros n last; simpl; [done|]. case_goal; [done|]. simpl. by rewrite IH. Qed.

(** * Indexes *)

Definition ascending (l : list nat) : Prop := StronglySorted lt l.

Lemma ascending_filter (f : nat -> bool) l : ascending l -> ascending (List.filter f l).
Proof.
  induction 1 as [|x l Hl IH Hx]; simpl; [constructor|]. destruct (f x); [|done]. constructor; [done|].
  clear -Hx. induction Hx as [|y l Hy _ IH]; simpl; [done|]. destruct (f y); [by constructor|done].
Qed.

Lemma ascending_seq a n : ascending (seq a n).
Proof.
  revert a. induction n as [|n IH]; intros a; simpl; constructor; [apply IH|]. apply Forall_forall. intros x Hx%elem_of_seq. lia.
Qed.

Lemma ascending_unique l k : ascending l -> ascending k -> (forall x, x ∈ l <-> x ∈ k) -> l = k.
Proof.
  intros Hl. revert k. induction Hl as [|x l Hl IH Hx]; intros k Hk Hin.
  - destruct k as [|y k]; [done|]. exfalso. eapply not_elem_of_nil, (proj2 (Hin y)). by left.
  - destruct Hk as [|y k Hk Hy]; [exfalso; eapply not_elem_of_nil, (proj1 (Hin x)); by left|].
    rewrite Forall_forall in Hx. rewrite Forall_forall in Hy.
    assert (x = y) as ->.
    { destruct (proj1 (elem_of_cons _ _ _) (proj1 (Hin x) ltac:(by left))) as [->|Hxk]; [done|].
      destruct (proj1 (elem_of_cons _ _ _) (proj2 (Hin y) ltac:(by left))) as [->|Hyl]; [done|].
      specialize (Hx y Hyl). specialize (Hy x Hxk). lia. }
    f_equal. apply IH; [done|]. intros z. split; intros Hz.
    + destruct (proj1 (elem_of_cons _ _ _) (proj1 (Hin z) ltac:(by right))) as [->|]; [specialize (Hx y Hz); lia|done].
    + destruct (proj1 (elem_of_cons _ _ _) (proj2 (Hin z) ltac:(by right))) as [->|]; [specialize (Hy y Hz); lia|done].
Qed.

Lemma ascending_NoDup l : ascending l -> NoDup l.
Proof. induction 1 as [|x l _ IH Hx]; constructor; [|done]. intros H. rewrite Forall_forall in Hx. specialize (Hx x H). lia. Qed.

Lemma filter_elem {A} (f : A -> bool) l x : x ∈ List.filter f l <-> x ∈ l /\ f x = true.
Proof. by rewrite !list_elem_of_In, filter_In. Qed.

(** Sorting distinct indices. *)
Lemma sorted_ascending l : NoDup l -> ascending (stable_sort Nat.ltb l).
Proof.
  intros Hn. assert (Hs : StronglySorted (sort_le Nat.ltb) (stable_sort Nat.ltb l)).
  { apply stable_sort_sorted; unfold sort_le; intros; rewrite ?Nat.ltb_lt, ?Nat.ltb_ge in *; lia. }
  rewrite <- (stable_sort_Permutation Nat.ltb l) in Hn. revert Hs Hn. generalize (stable_sort Nat.ltb l) as k. clear.
  induction 1 as [|x k _ IH Hx]; [constructor|]. intros [Hn1 Hn2]%NoDup_cons. constructor; [by apply IH|].
  rewrite Forall_forall in Hx. apply Forall_forall. intros y Hy. specialize (Hx y Hy). unfold sort_le in Hx. apply Nat.ltb_ge in Hx.
  assert (x <> y) by congruence. lia.
Qed.

Lemma filter_filter_len {A} (f g : A -> bool) l : len (List.filter f (List.filter g l)) <= len (List.filter f l).
Proof.
  induction l as [|x l IH]; simpl; [lia|]. destruct (g x), (f x) eqn:Ef; simpl; rewrite ?Ef, ?len_cons; lia.
Qed.

Lemma rising_filter {A} (slot : A -> Z) f l : rising slot l -> rising slot (List.filter f l).
Proof.
  induction 1 as [|x l Hl IH Hx]; simpl; [constructor|]. destruct (f x); [|done]. constructor; [done|].
  clear -Hx. induction Hx as [|y l Hy _ IH]; simpl; [done|]. destruct (f y); [by constructor|done].
Qed.

(** Fewer than [max] elements of earlier slots come before a kept one. *)
Lemma whole_few_start {A} (slot : A -> Z) max l x : rising slot l -> 0 < max -> x ∈ whole slot max 0 0 l ->
  len (List.filter (fun y => slot y <? slot x) l) < max.
Proof.
  intros Hs Hm Hx. rewrite (whole_start slot max 0 (slot x - 1)) in Hx.
  destruct (whole_few slot max 0 (slot x - 1) l x Hs Hm Hx (or_introl Hm)); lia.
Qed.

(** A part of the list keeps what the whole list keeps of it. *)
Lemma whole_part {A} (slot : A -> Z) max l f x : rising slot l -> 0 < max -> x ∈ whole slot max 0 0 l -> f x = true ->
  x ∈ whole slot max 0 0 (List.filter f l).
Proof.
  intros Hs Hm Hx Hf. pose proof (whole_few_start slot max l x Hs Hm Hx) as Hfew.
  assert (Hin : x ∈ List.filter f l) by (apply filter_elem; split; [|done]; eapply elem_of_prefix; [exact Hx|apply whole_prefix]).
  pose proof (rising_filter slot f l Hs) as Hs'. pose proof (filter_filter_len (fun y => slot y <? slot x) f l) as Hle.
  revert Hin Hs' Hle. generalize (List.filter f l) as k. intros k Hin Hs' Hle. destruct k as [|x0 k0] eqn:Ek; [by apply not_elem_of_nil in Hin|]. rewrite <- Ek in *.
  set (z := slot x0 - 1). rewrite (whole_start slot max 0 z).
  assert (Hl : Forall (fun y => z <= slot y) k).
  { rewrite Ek in *. inversion Hs' as [|? ? _ Hall]. unfold z. constructor; [lia|]. eapply Forall_impl; [exact Hall|]. simpl. lia. }
  destruct (whole_rest slot max 0 z k Hs' Hl) as (rest & E & Hr). rewrite E in Hin. apply elem_of_app in Hin as [Hin|Hin]; [done|exfalso].
  destruct (Hr ltac:(intros ->; by apply not_elem_of_nil in Hin)) as [Hn Hall]. rewrite Forall_forall in Hall. destruct (Hall x Hin) as [_ Hw].
  rewrite E, List.filter_app, len_app in Hle. assert (Ew : List.filter (fun y => slot y <? slot x) (whole slot max 0 z k) = whole slot max 0 z k).
  { revert Hw. generalize (whole slot max 0 z k) as w. induction 1 as [|y w Hy _ IH]; [done|]. simpl. rewrite (proj2 (Z.ltb_lt _ _)) by done. by rewrite IH. }
  rewrite Ew in Hle. pose proof (len_nonneg (List.filter (fun y => slot y <? slot x) rest)). lia.
Qed.

(** Merging the cut parts of a list, and cutting again, is cutting the list. *)
Lemma merge_whole (slot : nat -> Z) max (fs : list (nat -> bool)) l :
  ascending l -> rising slot l -> NoDup (concat (map (fun f => List.filter f l) fs)) ->
  (forall x, x ∈ l -> exists f, f ∈ fs /\ f x = true) ->
  whole slot max 0 0 (stable_sort Nat.ltb (concat (map (fun f => whole slot max 0 0 (List.filter f l)) fs))) = whole slot max 0 0 l.
Proof.
  intros Ha Hs Hn Hc. set (picked := concat (map (fun f => whole slot max 0 0 (List.filter f l)) fs)).
  assert (Hsub : picked `sublist_of` concat (map (fun f => List.filter f l) fs)).
  { unfold picked. clear. induction fs as [|f fs IH]; simpl; [constructor|]. apply sublist_app; [|done].
    destruct (whole_prefix slot max 0 0 (List.filter f l)) as [k E]. rewrite E at 2. by apply sublist_inserts_r. }
  assert (Hin : forall x, x ∈ picked <-> exists f, f ∈ fs /\ x ∈ whole slot max 0 0 (List.filter f l)).
  { intros x. unfold picked. rewrite list_elem_of_In, in_concat. setoid_rewrite in_map_iff. split.
    - intros (k & (f & <- & Hf) & Hx). exists f. by rewrite !list_elem_of_In.
    - intros (f & Hf & Hx). eexists. split; [exists f; split; [done|by apply list_elem_of_In]|by apply list_elem_of_In]. }
  assert (Hkeep : stable_sort Nat.ltb picked = List.filter (fun x => bool_decide (x ∈ picked)) l).
  { apply ascending_unique; [by apply sorted_ascending, (sublist_NoDup _ _ Hn)|by apply ascending_filter|]. intros x.
    rewrite stable_sort_Permutation, filter_elem, bool_decide_eq_true. split; [|by intros []]. intros Hx. split; [|done].
    apply Hin in Hx as (f & _ & Hx). pose proof (elem_of_prefix _ _ _ Hx (whole_prefix _ _ _ _ _)) as Hx'. by apply filter_elem in Hx' as []. }
  rewrite Hkeep. destruct (Z.ltb_spec 0 max) as [Hm|Hm].
  - apply whole_filter; [done|done|]. intros x Hx. apply bool_decide_eq_true, Hin.
    destruct (Hc x) as (f & Hf & Hfx); [eapply elem_of_prefix; [exact Hx|apply whole_prefix]|]. exists f. split; [done|by apply whole_part].
  - rewrite !whole_all by done. apply ascending_unique; [by apply ascending_filter|done|]. intros x. rewrite filter_elem, bool_decide_eq_true, Hin.
    split; [by intros []|]. intros Hx. split; [done|]. destruct (Hc x Hx) as (f & Hf & Hfx). exists f. split; [done|]. rewrite whole_all by done. by apply filter_elem.
Qed.

(** * The journal and its indexes *)

Section Journal.
Context (evs : list EventRecord).

Definition slot_at (i : nat) : Slot := match evs !! i with Some ev => ev_slot ev | None => 0 end.
Definition sat (Q : EventRecord -> bool) (i : nat) : bool := match evs !! i with Some ev => Q ev | None => false end.
Definition indices (Q : EventRecord -> bool) : list nat := List.filter (sat Q) (seq 0 (length evs)).
Definition in_journal (l : list nat) : Prop := Forall (fun i => (i < length evs)%nat) l.

Lemma indices_ascending Q : ascending (indices Q).
Proof. apply ascending_filter, ascending_seq. Qed.

Lemma indices_spec Q i : i ∈ indices Q <-> sat Q i = true.
Proof.
  unfold indices. rewrite filter_elem, elem_of_seq. split; [by intros []|]. intros H. split; [|done]. unfold sat in H.
  destruct (evs !! i) eqn:E; [|done]. apply lookup_lt_Some in E. lia.
Qed.

Lemma indices_in Q : in_journal (indices Q).
Proof.
  apply Forall_forall. intros i Hi%indices_spec. unfold sat in Hi. destruct (evs !! i) eqn:E; [|done]. by apply lookup_lt_Some in E.
Qed.

Lemma indices_filter Q R : List.filter (sat Q) (indices R) = indices (fun ev => R ev && Q ev).
Proof.
  apply ascending_unique; [apply ascending_filter, indices_ascending|apply indices_ascending|]. intros i.
  rewrite filter_elem, !indices_spec. unfold sat. destruct (evs !! i); rewrite ?andb_true_iff; naive_solver.
Qed.

Lemma indices_ext Q R : (forall ev, Q ev = R ev) -> indices Q = indices R.
Proof.
  intros H. apply ascending_unique; [apply indices_ascending..|]. intros i. rewrite !indices_spec. unfold sat. destruct (evs !! i); [by rewrite H|done].
Qed.

Context (slots : forall i j ei ej, (i <= j)%nat -> evs !! i = Some ei -> evs !! j = Some ej -> ev_slot ei <= ev_slot ej).

Lemma ascending_rising l : ascending l -> in_journal l -> rising slot_at l.
Proof.
  induction 1 as [|x l Hl IH Hx]; intros Hin; [constructor|]. apply Forall_cons in Hin as [Hxi Hin]. constructor; [by apply IH|].
  apply Forall_forall. intros y Hy. rewrite Forall_forall in Hx, Hin. specialize (Hx y Hy). specialize (Hin y Hy). unfold slot_at.
  destruct (lookup_lt_is_Some_2 evs x Hxi) as [ex Ex]. destruct (lookup_lt_is_Some_2 evs y Hin) as [ey Ey]. rewrite Ex, Ey. eapply slots; [|done..]. lia.
Qed.

(** ** Bisection *)

Lemma search_spec l after fuel lo hi : in_journal l -> rising slot_at l -> (hi - lo <= fuel)%nat -> (lo <= hi <= length l)%nat ->
  (forall j i, l !! j = Some i -> (j < lo)%nat -> slot_at i <= after) ->
  (forall j i, l !! j = Some i -> (hi <= j)%nat -> after < slot_at i) ->
  exists k, search evs l after fuel lo hi = Some k /\ (forall j i, l !! j = Some i -> (j < k)%nat -> slot_at i <= after) /\
    (forall j i, l !! j = Some i -> (k <= j)%nat -> after < slot_at i).
Proof.
  intros Hin Hs. revert lo hi. induction fuel as [|fuel IH]; intros lo hi Hf Hlh Hlo Hhi; cbn [search].
  - assert (lo = hi) as -> by lia. rewrite Nat.ltb_irrefl. by exists hi.
  - destruct (Nat.ltb_spec lo hi) as [Hlt|Hge]; [|assert (lo = hi) as -> by lia; by exists hi]. cbv zeta.
    pose proof (Nat.div2_div (lo + hi)) as Hd. pose proof (Nat.div_mod_eq (lo + hi) 2). pose proof (Nat.mod_upper_bound (lo + hi) 2).
    rewrite <- Hd in *. set (mid := Nat.div2 (lo + hi)) in *.
    destruct (lookup_lt_is_Some_2 l mid) as [i Hi]; [lia|]. rewrite Hi. cbn [mbind option_bind].
    destruct (lookup_lt_is_Some_2 evs i) as [ev Hev]; [by apply (Forall_lookup_1 _ _ _ _ Hin Hi)|]. rewrite Hev. cbn [mbind option_bind].
    assert (Hsl : slot_at i = ev_slot ev) by (unfold slot_at; by rewrite Hev).
    assert (Hmono : forall j j' x y, (j <= j')%nat -> l !! j = Some x -> l !! j' = Some y -> slot_at x <= slot_at y).
    { clear -Hs. induction Hs as [|v k Hk IH Hv]; intros j j' x y Hle Hx Hy; [done|]. destruct j as [|j], j' as [|j']; simplify_eq/=; [lia| |lia|].
      - by apply (Forall_lookup_1 _ _ _ _ Hv Hy).
      - by apply (IH j j'); [lia|..]. }
    destruct (Z.ltb_spec after (ev_slot ev)).
    + apply IH; [lia|lia|done|]. intros j x Hj Hle. specialize (Hmono mid j i x Hle Hi Hj). lia.
    + apply IH; [lia|lia| |done]. intros j x Hj Hle. specialize (Hmono j mid x i ltac:(lia) Hj Hi). lia.
Qed.

Lemma firstAfter_spec l after : in_journal l -> rising slot_at l ->
  exists k, firstAfter evs l after = Some k /\ drop k l = List.filter (fun i => after <? slot_at i) l.
Proof.
  intros Hin Hs. destruct (search_spec l after (length l) 0 (length l) Hin Hs) as (k & E & H1 & H2); [lia|lia|lia| |].
  { intros j i Hj Hle. apply lookup_lt_Some in Hj. lia. }
  exists k. split; [exact E|]. rewrite <- (take_drop k l) at 2. rewrite List.filter_app.
  assert (E1 : List.filter (fun i => after <? slot_at i) (take k l) = []).
  { assert (Hall : Forall (fun i => slot_at i <= after) (take k l)).
    { apply Forall_lookup. intros j i [Hj Hlt]%lookup_take_Some. by apply (H1 j). }
    induction Hall as [|x w Hx _ IH]; [done|]. simpl. by rewrite (proj2 (Z.ltb_ge _ _)). }
  assert (E2 : List.filter (fun i => after <? slot_at i) (drop k l) = drop k l).
  { assert (Hall : Forall (fun i => after < slot_at i) (drop k l)).
    { apply Forall_lookup. intros j i Hj. rewrite lookup_drop in Hj. apply (H2 _ _ Hj). lia. }
    induction Hall as [|x w Hx _ IH]; [done|]. simpl. rewrite (proj2 (Z.ltb_lt _ _)) by done. by rewrite IH. }
  by rewrite E1, E2.
Qed.

(** ** The loops of [Events] *)

Lemma pick_spec t max n last l : in_journal l -> pick evs t max n last l = Some (whole slot_at max n last (List.filter (sat (about t)) l)).
Proof.
  intros Hin. revert n last. induction Hin as [|i l Hi _ IH]; intros n last; [done|]. cbn [pick List.filter].
  destruct (lookup_lt_is_Some_2 evs i Hi) as [ev Hev]. rewrite Hev. cbn [mbind option_bind]. unfold sat at 1. rewrite Hev. unfold about.
  rewrite <- negb_orb. destruct (String.eqb t "" || String.eqb (ev_tournament ev) t); cbn [negb]; [|apply IH].
  cbn [whole]. assert (Hsl : slot_at i = ev_slot ev) by (unfold slot_at; by rewrite Hev). rewrite Hsl.
  destruct ((0 <? max) && (max <=? n) && negb (ev_slot ev =? last)); [done|]. by rewrite IH.
Qed.

Definition no_event : EventRecord := mkEvent 0 "" "" "" 0 "" 0 0 0 0 0.
Definition event_at (i : nat) : EventRecord := default no_event (evs !! i).

Lemma emit_spec max i z l : in_journal l -> 0 < i \/ max <= 0 ->
  emit evs max i (Some z) l = Some (map event_at (whole slot_at max i z l)).
Proof.
  intros Hin. revert i z. induction Hin as [|x l Hx _ IH]; intros i z Hi; [done|]. cbn [emit].
  destruct (lookup_lt_is_Some_2 evs x Hx) as [ev Hev]. rewrite Hev. cbn [mbind option_bind].
  assert (Hsl : slot_at x = ev_slot ev) by (unfold slot_at; by rewrite Hev). assert (Hat : event_at x = ev) by (unfold event_at; by rewrite Hev).
  cbn [whole]. rewrite Hsl. destruct ((0 <? max) && (max <=? i)); cbn [mbind option_bind andb].
  - destruct (ev_slot ev =? z); cbn [negb]; [|done]. rewrite IH by lia. cbn [mbind option_bind map]. by rewrite Hat.
  - rewrite IH by lia. cbn [mbind option_bind map]. by rewrite Hat.
Qed.

Lemma emit_start max l : in_journal l -> emit evs max 0 None l = Some (map event_at (whole slot_at max 0 0 l)).
Proof.
  intros Hin. destruct Hin as [|x l Hx Hl]; [done|]. cbn [emit]. destruct (lookup_lt_is_Some_2 evs x Hx) as [ev Hev]. rewrite Hev. cbn [mbind option_bind].
  assert (Hc : (0 <? max) && (max <=? 0) = false) by (destruct (Z.ltb_spec 0 max), (Z.leb_spec max 0); (done || lia)).
  rewrite Hc. cbn [mbind option_bind andb]. rewrite emit_spec by (done || lia). cbn [mbind option_bind whole]. rewrite Hc. cbn [andb map].
  unfold event_at at 2. rewrite Hev. unfold slot_at at 3. by rewrite Hev.
Qed.

(** The events of an index. *)
Lemma indices_events Q : map event_at (indices Q) = List.filter Q evs.
Proof.
  unfold indices. assert (H : forall n k, (forall i, (i < n)%nat -> evs !! (k + i)%nat <> None) ->
    map event_at (List.filter (sat Q) (seq k n)) = List.filter Q (take n (drop k evs))).
  { induction n as [|n IH]; intros k Hk; [done|]. cbn [seq List.filter].
    destruct (evs !! k) as [ev|] eqn:Ev; [|exfalso; apply (Hk 0%nat); [lia|by rewrite Nat.add_0_r]].
    rewrite (drop_S _ _ _ Ev). cbn [take List.filter]. unfold sat at 1. rewrite Ev.
    assert (IH' := IH (S k)). rewrite <- IH' by (intros i Hi; specialize (Hk (S i)); rewrite Nat.add_succ_r in Hk; apply Hk; lia).
    destruct (Q ev); cbn [map]; [|done]. f_equal. unfold event_at. by rewrite Ev. }
  rewrite (H (length evs) 0%nat); [by rewrite drop_0, firstn_all|]. intros i Hi. simpl. destruct (lookup_lt_is_Some_2 evs i Hi) as [? ->]. done.
Qed.
End Journal.

(** * The indexes are right *)

Definition of_player (pl : PlayerID) (ev : EventRecord) : bool := String.eqb (ev_player ev) pl.
Definition of_tournament (tid : TournamentID) (ev : EventRecord) : bool := String.eqb (ev_player ev) "" && String.eqb (ev_tournament ev) tid.

(** The indexes of a state whose last slot is [now]. *)
Record index_ok (now : Slot) (p : playState) : Prop := {
  ix_slots : forall i j ei ej, (i <= j)%nat -> events p !! i = Some ei -> events p !! j = Some ej -> ev_slot ei <= ev_slot ej;
  ix_now : forall ev, ev ∈ events p -> ev_slot ev <= now;
  ix_own : forall pl, pl <> "" -> default [] (own p !! pl) = indices (events p) (of_player pl);
  ix_shared : forall tid, default [] (shared p !! tid) = indices (events p) (of_tournament tid);
  ix_entered : forall pl ps, players p !! pl = Some ps -> NoDup (pst_entered ps);
}.

Lemma indices_snoc evs ev Q : indices (evs ++ [ev]) Q = indices evs Q ++ (if Q ev then [length evs] else []).
Proof.
  unfold indices. rewrite length_app, Nat.add_1_r, seq_S, List.filter_app. f_equal.
  - apply filter_ext_in. intros i Hi%list_elem_of_In%elem_of_seq. unfold sat. by rewrite lookup_app_l by lia.
  - simpl. unfold sat. rewrite lookup_app_r, Nat.sub_diag by lia. done.
Qed.

Lemma push_lookup m k i k' : default [] (push m k i !! k') = default [] (m !! k') ++ (if String.eqb k k' then [i] else []).
Proof.
  unfold push. destruct (String.eqb_spec k k') as [<-|Hne]; [by rewrite lookup_insert_eq|]. rewrite lookup_insert_ne by done. by rewrite app_nil_r.
Qed.

Lemma recordEvent_index now s ev : ev_slot ev = now -> index_ok now (play s) -> index_ok now (play (recordEvent s ev)).
Proof.
  intros Hev [I1 I2 I3 I4 I5]. set (ev' := Records.stamp ev (clock s)). split; cbn [play recordEvent set_play events own shared players].
  - intros i j ei ej Hij [Hi|[Hi Ei]]%lookup_app_Some [Hj|[Hj Ej]]%lookup_app_Some.
    + by eapply I1.
    + apply list_lookup_singleton_Some in Ej as [_ <-]. simpl. rewrite Hev. by eapply I2, list_elem_of_lookup_2.
    + apply lookup_lt_Some in Hj. lia.
    + apply list_lookup_singleton_Some in Ei as [_ <-], Ej as [_ <-]. done.
  - intros e [He|He]%elem_of_app; [by apply I2|]. apply list_elem_of_singleton in He as ->. simpl. lia.
  - intros pl Hpl. rewrite indices_snoc, <- I3 by done. change (of_player pl _) with (String.eqb (ev_player ev) pl).
    destruct (String.eqb_spec (ev_player ev) "") as [E|E]; [|apply push_lookup].
    rewrite E. destruct (String.eqb_spec "" pl); [congruence|]. by rewrite app_nil_r.
  - intros tid. rewrite indices_snoc, <- I4. change (of_tournament tid _) with (String.eqb (ev_player ev) "" && String.eqb (ev_tournament ev) tid).
    destruct (String.eqb_spec (ev_player ev) "") as [E|E]; cbn [andb]; [apply push_lookup|]. by rewrite app_nil_r.
  - exact I5.
Qed.

(** A change that leaves the events and indexes alone. *)
Lemma index_same now p p' : index_ok now p -> events p' = events p -> own p' = own p -> shared p' = shared p ->
  (forall pl ps', players p' !! pl = Some ps' -> NoDup (pst_entered ps')) -> index_ok now p'.
Proof. intros [I1 I2 I3 I4 I5] E1 E2 E3 H. split; rewrite ?E1, ?E2, ?E3; done. Qed.

Lemma entered_insert (m : gmap PlayerID playerState) pid x : (forall pl ps, m !! pl = Some ps -> NoDup (pst_entered ps)) -> NoDup (pst_entered x) ->
  forall pl ps, <[pid := x]> m !! pl = Some ps -> NoDup (pst_entered ps).
Proof. intros H Hx pl ps. rewrite lookup_insert. case_decide; [by intros [= <-]|apply H]. Qed.

Section Index.
Context `{U : Unicode} (fuel : nat).

Lemma change_index slot ballot closing s s' : change fuel slot ballot closing s s' -> index_ok slot (play s) -> index_ok slot (play s').
Proof.
  intros C I. pose proof (ix_entered _ _ I) as N. destruct C as
    [id seed r Hk|k t player b q Ht Ha Hv Hp|k t t' i e sc digest Ht Ho Hi He Hsa Hm|k t Ht Ho Hn|k t ex b Ht Hst _ Hb
    |b Hb Hp Hv|pid ps Hp Hsq|k t pid ps Ht Hj Hp Hnew|k t pid round seed Ht Ho Hg Hj Hu Hr Hnew Hprev Hd
    |k t pid round rec b m b' Ht Ho Hr Hn _ Hrep Ha|k t pid round rec b reason Ht Ho Hr Hn Hrep|k t pid b q _ _ _ _ _ Hp|ev Hev|tid];
    try exact I; try (by apply recordEvent_index); (eapply index_same; [exact I|done..|]); cbn; try exact N.
  - apply entered_insert; [exact N|constructor].
  - apply entered_insert; [exact N|by apply (N pid ps)].
  - apply entered_insert; [exact N|]. cbn. apply NoDup_app. split_and!; [by apply (N pid ps)| |apply NoDup_singleton].
    by intros x Hx ->%list_elem_of_singleton.
Qed.

Lemma steps_index slot ballot closing s s' : rtc (change fuel slot ballot closing) s s' -> index_ok slot (play s) -> index_ok slot (play s').
Proof. induction 1 as [|s1 s2 s3 C _ IH]; [done|]. intros I. by eapply IH, change_index. Qed.

Lemma index_later now now' p : now <= now' -> index_ok now p -> index_ok now' p.
Proof. intros H [I1 I2 I3 I4 I5]. split; try done. intros ev Hev. specialize (I2 ev Hev). lia. Qed.

Lemma slot_step_index s s' : Inv fuel None s -> slot_step fuel s s' -> index_ok (applied s) (play s) -> index_ok (applied s') (play s').
Proof.
  intros I C X. destruct C as [slot ballot cmd s1 res Hok H|slot].
  - destruct (Apply_total fuel s slot ballot cmd I Hok) as [(_ & d & E)|(Hlt & s2 & r & h & E & Y & _)]; rewrite E in H; injection H as <- <-; [done|].
    pose proof (index_later (applied s) slot _ ltac:(lia) X) as X'.
    assert (X0 : index_ok slot (play (start_slot s slot cmd))) by (eapply index_same; [exact X'|done..|exact (ix_entered _ _ X')]).
    destruct Y as [err _ -> _|rec _ _ -> _|rec _ _ -> _|_ _ _ -> _|op s3 r' _ _ _ O _ _ ->]; try exact X0. simpl.
    destruct (outcome_counters fuel _ _ _ _ _ _ O) as (_ & -> & _). simpl. destruct O as [-> _|pid ps Hp _ -> _|C _]; [exact X0| |].
    + eapply index_same; [exact X0|done..|]. apply entered_insert; [exact (ix_entered _ _ X0)|by apply (ix_entered _ _ X0 pid ps)].
    + exact (steps_index _ _ _ _ _ C X0).
  - unfold Skip. destruct (Z.leb_spec slot (applied s)); [done|]. eapply index_later; [|exact X]. simpl. lia.
Qed.

Lemma reachable_index s : reachable fuel s -> index_ok (applied s) (play s).
Proof.
  intros H. destruct (reachable_good fuel NewState (rtc_refl _ _)) as [I0 R0].
  assert (X0 : index_ok (applied NewState) (play NewState)).
  { split; try (by intros). by intros ev ?%not_elem_of_nil. }
  revert I0 R0 X0. induction H as [|s1 s2 s3 C _ IH]; [done|]. intros I R X. destruct (slot_step_spec fuel s1 s2 I R C) as (I2 & R2 & _).
  apply (IH I2 R2). by apply (slot_step_index s1 s2).
Qed.
End Index.

(** * Reading the feed *)

Section Feed.
Context (now : Slot) (p : playState) (I : index_ok now p).
Context (pl : PlayerID) (ps : playerState) (Hps : players p !! pl = Some ps) (Hpl : pl <> "").
Notation evs := (events p).

(** The parts of the feed: the player's own index, and one per tournament it
    entered. *)
Definition asked (t : TournamentID) (tid : TournamentID) : bool := String.eqb t "" || String.eqb tid t.
Definition parts (t : TournamentID) : list (EventRecord -> bool) :=
  of_player pl :: map of_tournament (List.filter (asked t) (pst_entered ps)).

Lemma event_lists_parts t : event_lists p ps t pl = map (indices evs) (parts t).
Proof.
  unfold event_lists, parts. cbn [map]. rewrite (ix_own _ _ I) by done. f_equal. rewrite map_map.
  induction (pst_entered ps) as [|tid l IH]; [done|]. cbn [omap list_omap List.filter]. unfold asked at 1.
  destruct (String.eqb t "" || String.eqb tid t); [|exact IH]. cbn [map]. by rewrite IH, (ix_shared _ _ I).
Qed.

Definition seen (after : Slot) (t : TournamentID) (ev : EventRecord) : bool :=
  (after <? ev_slot ev) && about t ev && sees pl (pst_entered ps) ev.

Lemma part_seen t Q ev : Q ∈ parts t -> Q ev = true -> sees pl (pst_entered ps) ev = true.
Proof.
  unfold parts, sees. intros [->|(tid & -> & Htid)%list_elem_of_fmap]%elem_of_cons H; [apply orb_true_iff; by left|].
  apply andb_true_iff in H as [H1 H2%String.eqb_eq]. apply orb_true_iff. right. rewrite H1, bool_decide_eq_true_2; [done|].
  rewrite H2. by apply filter_elem in Htid as [].
Qed.

Lemma seen_part after t ev : seen after t ev = true -> exists Q, Q ∈ parts t /\ Q ev = true.
Proof.
  unfold seen, sees. rewrite !andb_true_iff, orb_true_iff, andb_true_iff, bool_decide_eq_true. intros [[_ Ha] [H|[H1 H2]]].
  - exists (of_player pl). split; [by left|done].
  - exists (of_tournament (ev_tournament ev)). split; [|unfold of_tournament; by rewrite H1, String.eqb_refl].
    right. apply list_elem_of_fmap. exists (ev_tournament ev). split; [done|]. by apply filter_elem.
Qed.

(** One index, searched and picked. *)
Lemma part_picked after t max Q : Q ∈ parts t ->
  (i ← firstAfter evs (indices evs Q) after; pick evs t max 0 0 (drop i (indices evs Q))) =
  Some (whole (slot_at evs) max 0 0 (List.filter (sat evs Q) (indices evs (seen after t)))).
Proof.
  intros HQ. destruct (firstAfter_spec evs (indices evs Q) after) as (k & -> & Hk).
  { apply indices_in. }
  { apply ascending_rising; [exact (ix_slots _ _ I)|apply indices_ascending|apply indices_in]. }
  cbn [mbind option_bind]. rewrite Hk, pick_spec by (by apply Forall_forall; intros i [Hi _]%filter_elem; eapply Forall_forall in Hi; [|apply indices_in]).
  do 2 f_equal. apply ascending_unique; [by do 2 apply ascending_filter; apply indices_ascending|apply ascending_filter, indices_ascending|].
  intros i. rewrite !filter_elem, !indices_spec. unfold sat, slot_at, seen. destruct (evs !! i) as [ev|]; [|naive_solver].
  rewrite !andb_true_iff. pose proof (part_seen t Q ev HQ). naive_solver.
Qed.

Lemma tournaments_apart l tids : NoDup tids -> ascending l -> NoDup (concat (map (fun tid => List.filter (sat evs (of_tournament tid)) l) tids)).
Proof.
  intros Hn Hl. induction Hn as [|tid tids Hnew _ IH]; [constructor|]. cbn [map concat]. apply NoDup_app. split_and!; [by apply ascending_NoDup, ascending_filter| |done].
  intros i [_ Hi]%filter_elem. rewrite list_elem_of_In, in_concat. intros (k & (tid' & <- & Htid%list_elem_of_In)%in_map_iff & Hk%list_elem_of_In).
  apply filter_elem in Hk as [_ Hk]. unfold sat, of_tournament in *. destruct (evs !! i); [|done].
  apply andb_true_iff in Hi as [_ Hi%String.eqb_eq], Hk as [_ Hk%String.eqb_eq]. apply Hnew. by rewrite <- Hi, Hk.
Qed.

Lemma parts_apart after t : NoDup (concat (map (fun Q => List.filter (sat evs Q) (indices evs (seen after t))) (parts t))).
Proof.
  unfold parts. cbn [map concat]. rewrite map_map. apply NoDup_app. split_and!.
  - apply ascending_NoDup, ascending_filter, indices_ascending.
  - intros i [_ Hi]%filter_elem. rewrite list_elem_of_In, in_concat. intros (k & (tid' & <- & _)%in_map_iff & Hk%list_elem_of_In).
    apply filter_elem in Hk as [_ Hk]. unfold sat, of_tournament, of_player in *. destruct (evs !! i); [|done].
    apply String.eqb_eq in Hi. apply andb_true_iff in Hk as [Hk%String.eqb_eq _]. congruence.
  - apply tournaments_apart; [|apply indices_ascending]. apply NoDup_ListNoDup, List.NoDup_filter, NoDup_ListNoDup. exact (ix_entered _ _ I pl ps Hps).
Qed.

Lemma visible_indices after t : map (event_at evs) (indices evs (seen after t)) = visible_events p after t pl.
Proof. rewrite indices_events. unfold visible_events. by rewrite Hps. Qed.

Lemma Events_spec after t max : Events p after t pl max = Some (whole ev_slot max 0 0 (visible_events p after t pl)).
Proof.
  unfold Events. rewrite Hps, event_lists_parts. set (M := indices evs (seen after t)).
  assert (Em : mapM (fun l => i ← firstAfter evs l after; pick evs t max 0 0 (drop i l)) (map (indices evs) (parts t)) =
    Some (map (fun Q => whole (slot_at evs) max 0 0 (List.filter (sat evs Q) M)) (parts t))).
  { apply mapM_Some_2, Forall2_fmap_l, Forall2_fmap_r. apply Forall_Forall2_diag, Forall_forall. intros Q HQ. by apply part_picked. }
  rewrite Em. cbn [mbind option_bind]. rewrite emit_start.
  2:{ apply Forall_forall. intros i. rewrite stable_sort_Permutation, list_elem_of_In, in_concat. intros (k & (Q & <- & HQ)%in_map_iff & Hi%list_elem_of_In).
      pose proof (elem_of_prefix _ _ _ Hi (whole_prefix _ _ _ _ _)) as Hi'.
      apply filter_elem in Hi' as [Hi' _]. by eapply Forall_forall in Hi'; [|apply indices_in]. }
  f_equal. rewrite <- visible_indices, whole_map. fold M.
  assert (Hsl : forall i, ev_slot (event_at evs i) = slot_at evs i) by (intros i; unfold event_at, slot_at; by destruct (evs !! i)).
  assert (Hw : forall n last l, whole (fun i => ev_slot (event_at evs i)) max n last l = whole (slot_at evs) max n last l).
  { intros n last l. revert n last. induction l as [|i l IH]; intros n last; [done|]. cbn [whole]. by rewrite IH, Hsl. }
  rewrite Hw. f_equal. pose proof (merge_whole (slot_at evs) max (map (sat evs) (parts t)) M) as Hmw. rewrite !map_map in Hmw. apply Hmw.
  - apply indices_ascending.
  - apply ascending_rising; [exact (ix_slots _ _ I)|apply indices_ascending|apply indices_in].
  - apply parts_apart.
  - intros i Hi. apply indices_spec in Hi. unfold sat in Hi. destruct (evs !! i) as [ev|] eqn:Ev; [|done].
    destruct (seen_part after t ev Hi) as (Q & HQ & Hev). exists (sat evs Q). split; [by apply list_elem_of_fmap; exists Q|]. unfold sat. by rewrite Ev.
Qed.

(** ** [HasEvents] *)

Lemma has_own_spec t l : in_journal evs l -> has_own evs t l = Some (existsb (sat evs (about t)) l).
Proof.
  intros Hin. induction Hin as [|i l Hi _ IH]; [done|]. cbn [has_own existsb].
  destruct (lookup_lt_is_Some_2 evs i Hi) as [ev Hev]. rewrite Hev. cbn [mbind option_bind]. unfold sat at 1. rewrite Hev. unfold about.
  by destruct (String.eqb t "" || String.eqb (ev_tournament ev) t).
Qed.

(** What an index has after a slot. *)
Definition beyond (after : Slot) (i : nat) : bool := after <? slot_at evs i.

Lemma index_after Q after : exists k, firstAfter evs (indices evs Q) after = Some k /\
  drop k (indices evs Q) = List.filter (beyond after) (indices evs Q).
Proof.
  apply firstAfter_spec; [apply indices_in|]. apply ascending_rising; [exact (ix_slots _ _ I)|apply indices_ascending|apply indices_in].
Qed.

Lemma existsb_filter {A} (f : A -> bool) l : existsb f l = match List.filter f l with [] => false | _ => true end.
Proof. induction l as [|x l IH]; [done|]. simpl. by destruct (f x). Qed.

Lemma has_shared_spec after t entered : has_shared p after t entered =
  Some (existsb (fun tid => asked t tid && existsb (beyond after) (indices evs (of_tournament tid))) entered).
Proof.
  induction entered as [|tid l IH]; [done|]. cbn [has_shared existsb].
  change (String.eqb t "" || String.eqb tid t) with (asked t tid). destruct (asked t tid); cbn [andb orb]; [|exact IH].
  cbv zeta. rewrite (ix_shared _ _ I). destruct (index_after (of_tournament tid) after) as (k & -> & Hk). cbn [mbind option_bind].
  rewrite existsb_filter, <- Hk. destruct (Nat.ltb_spec k (length (indices evs (of_tournament tid)))) as [Hlt|Hge].
  - destruct (drop k _) eqn:Ed; [|done]. apply (f_equal length) in Ed. rewrite length_drop in Ed. simpl in Ed. lia.
  - rewrite skipn_all2 by done. exact IH.
Qed.

Lemma HasEvents_spec after t : HasEvents p after t pl = Some (match visible_events p after t pl with [] => false | _ => true end).
Proof.
  unfold HasEvents. rewrite Hps, (ix_own _ _ I) by done. destruct (index_after (of_player pl) after) as (k & -> & Hk). cbn [mbind option_bind].
  assert (Hin : in_journal evs (List.filter (beyond after) (indices evs (of_player pl)))).
  { apply Forall_forall. intros i [Hi _]%filter_elem. by eapply Forall_forall in Hi; [|apply indices_in]. }
  cbv zeta. rewrite Hk, has_own_spec by exact Hin. cbn [mbind option_bind]. rewrite has_shared_spec.
  assert (Hor : forall a b : bool, (if a then Some true else Some b) = Some (a || b)) by by intros [].
  rewrite Hor. f_equal. unfold visible_events. rewrite Hps. fold (seen after t). rewrite <- existsb_filter.
  apply eq_true_iff_eq. rewrite orb_true_iff, !existsb_exists. setoid_rewrite andb_true_iff. setoid_rewrite existsb_exists.
  setoid_rewrite <- list_elem_of_In. split.
  - intros [(i & [Hi Hb]%filter_elem & Ha)|(tid & Htid & Hask & i & Hi & Hb)]; apply indices_spec in Hi; unfold sat, beyond, slot_at in *;
      destruct (evs !! i) as [ev|] eqn:Ev; try done; exists ev; (split; [by eapply list_elem_of_lookup_2|]);
      rewrite ?andb_true_iff; split_and!; try done.
    + by apply (part_seen t (of_player pl)); [left|].
    + unfold of_tournament in Hi. apply andb_true_iff in Hi as [_ Hi%String.eqb_eq]. unfold about. by rewrite Hi.
    + apply (part_seen t (of_tournament tid)); [|done]. right. apply list_elem_of_fmap. exists tid. split; [done|]. by apply filter_elem.
  - intros (ev & [i Hi]%list_elem_of_lookup & Hev). destruct (seen_part after t ev (proj2 (andb_true_iff _ _) Hev)) as (Q & HQ & HQev).
    destruct Hev as [[Hb Ha]%andb_true_iff _]. unfold parts in HQ. apply elem_of_cons in HQ as [->|HQ].
    + left. exists i. rewrite filter_elem, indices_spec. unfold sat, beyond, slot_at. by rewrite Hi.
    + right. apply list_elem_of_fmap in HQ as (tid & -> & [Hin' Hask]%filter_elem). exists tid. split; [done|]. split; [done|]. exists i.
      rewrite indices_spec. unfold sat, beyond, slot_at. by rewrite Hi.
Qed.
End Feed.

(** * What a client reads *)

Section Guarantees.
Context `{U : Unicode} (fuel : nat).

(** ** Later events *)

Definition grown (n : Slot) (old new : list EventRecord) : Prop := exists more, new = old ++ more /\ Forall (fun ev => n < ev_slot ev) more.

Lemma grown_refl n l : grown n l l.
Proof. exists []. by rewrite app_nil_r. Qed.

Lemma grown_trans n m l1 l2 l3 : n <= m -> grown n l1 l2 -> grown m l2 l3 -> grown n l1 l3.
Proof.
  intros Hnm (m1 & -> & F1) (m2 & -> & F2). exists (m1 ++ m2). rewrite app_assoc. split; [done|]. apply Forall_app. split; [done|].
  eapply Forall_impl; [exact F2|]. simpl. lia.
Qed.

Lemma steps_events n slot ballot closing s s' : n < slot -> rtc (change fuel slot ballot closing) s s' -> grown n (events (play s)) (events (play s')).
Proof.
  intros Hn. induction 1 as [|s1 s2 s3 C _ IH]; [apply grown_refl|]. eapply grown_trans; [reflexivity| |exact IH].
  destruct C; try apply grown_refl. eexists. split; [done|]. constructor; [simpl; lia|done].
Qed.

Lemma later_grow_applied s s' : Inv fuel None s -> slot_step fuel s s' -> applied s <= applied s' /\ grown (applied s) (events (play s)) (events (play s')).
Proof.
  intros I [slot ballot cmd s1 res Hok H|slot].
  - destruct (Apply_total fuel s slot ballot cmd I Hok) as [(_ & d & E)|(Hlt & s2 & r & h & E & X & _)]; rewrite E in H; injection H as <- <-; [split; [done|apply grown_refl]|].
    destruct X as [err _ -> _|rec _ _ -> _|rec _ _ -> _|_ _ _ -> _|op s3 r' _ _ _ O _ _ ->]; simpl; try (split; [lia|apply grown_refl]).
    split; [destruct (outcome_counters fuel _ _ _ _ _ _ O) as (_ & -> & _); simpl; lia|].
    destruct O as [-> _|pid ps _ _ -> _|C _]; try apply grown_refl. exact (steps_events _ slot ballot (closing_of op) (start_slot s slot cmd) _ Hlt C).
  - unfold Skip. destruct (Z.leb_spec slot (applied s)); simpl; (split; [lia|apply grown_refl]).
Qed.

Lemma later_events s s' : Inv fuel None s -> results_ok s -> later fuel s s' -> grown (applied s) (events (play s)) (events (play s')).
Proof.
  intros I R H. induction H as [|s1 s2 s3 C L IH]; [apply grown_refl|]. destruct (slot_step_spec fuel s1 s2 I R C) as (I2 & R2 & _).
  destruct (later_grow_applied s1 s2 I C) as [Hle G]. eapply grown_trans; [exact Hle|exact G|by apply IH].
Qed.

Lemma known_player s pl ps : reachable fuel s -> players (play s) !! pl = Some ps -> pl <> "".
Proof.
  intros Hr Hp. destruct (reachable_good fuel s Hr) as [I _].
  destruct (proj2 (pv_bindings _ _ _ (inv_play _ _ _ I)) pl ps Hp) as (_ & _ & Hv & _). by intros ->.
Qed.

(** C18. The merged indexes are the journal.  In every reachable state, for
    every player, cursor, tournament and limit, [Events] returns exactly the
    events the player sees after the cursor, in the order they were recorded,
    cut where the limit is reached and the slot ends: the bisection of each
    index, its cut and the merge lose nothing, repeat nothing and split no
    slot. *)
Theorem events_merge_indexes s after t pl max : reachable fuel s ->
  Events (play s) after t pl max = Some (whole ev_slot max 0 0 (visible_events (play s) after t pl)).
Proof.
  intros Hr. destruct (players (play s) !! pl) as [ps|] eqn:Ep.
  - exact (Events_spec _ _ (reachable_index fuel s Hr) pl ps Ep (known_player s pl ps Hr Ep) after t max).
  - unfold Events, visible_events. by rewrite Ep.
Qed.

(** [HasEvents], which a waiting request asks again for every slot, is true
    exactly when there is an event to read. *)
Theorem has_events_exact s after t pl : reachable fuel s ->
  HasEvents (play s) after t pl = Some (match visible_events (play s) after t pl with [] => false | _ => true end).
Proof.
  intros Hr. destruct (players (play s) !! pl) as [ps|] eqn:Ep.
  - exact (HasEvents_spec _ _ (reachable_index fuel s Hr) pl ps Ep (known_player s pl ps Hr Ep) after t).
  - unfold HasEvents, visible_events. by rewrite Ep.
Qed.
End Guarantees.

(** * The hypotheses hold *)

Section Witnesses.
#[local] Existing Instance ascii_unicode.

(** The feed of the log's player, two events at a time. *)
Lemma events_merge_indexes_witness : exists s, reachable 1 s /\ (4 < length (events (play s)))%nat /\
  Events (play s) 4 "" "p1" 2 = Some (whole ev_slot 2 0 0 (visible_events (play s) 4 "" "p1")).
Proof.
  destruct (demo_run 9 (fun s _ => (4 <? length (events (play s)))%nat)) as (s & rs & Hr & H%Nat.ltb_lt); [vm_compute; reflexivity|].
  exists s. exact (conj Hr (conj H (events_merge_indexes 1 s 4 "" "p1" 2 Hr))).
Defined.

Lemma has_events_exact_witness : exists s, reachable 1 s /\
  HasEvents (play s) 4 "" "p1" = Some (match visible_events (play s) 4 "" "p1" with [] => false | _ => true end).
Proof.
  destruct (demo_run 9 (fun s _ => applied s =? 9)) as (s & rs & Hr & _); [vm_compute; reflexivity|].
  exists s. exact (conj Hr (has_events_exact 1 s 4 "" "p1" Hr)).
Defined.
End Witnesses.
