(* ===== verification/Store.v ===== *)
(** What a node of the replicated log keeps on disk (internal/replog/store.go):
    the durable state, the interface every store implements with the laws a
    node relies on, and the in-memory store.  Wal.v implements the same
    interface on an append-only file. *)

From S2P Require Import Prelude GoStd Paxos.

(** One chosen slot (message.go). *)
Record Entry := mkEntry { en_slot : Slot; en_ballot : Ballot; en_value : Value }.

#[export] Instance Entry_eq_dec : EqDecision Entry.
Proof. solve_decision. Defined.

(** A gap fill or a leadership marker. *)
Definition NoOp (e : Entry) : bool := slen (en_value e) =? 0.

Record Durable := mkDurable {
  d_promised : Ballot;
  d_max_round : Z;
  d_accepted : list PValue;
  d_chosen : list Entry;
}.

(** The fields of [MemStore]; also the contents of any other store. *)
Record MemStore := mkMemStore {
  ms_promised : Ballot;
  ms_max_round : Z;
  ms_accepted : gmap Slot PValue;
  ms_chosen : gmap Slot Entry;
}.

Definition NewMemStore : MemStore := mkMemStore zero_ballot 0 ∅ ∅.

(** What one Save call records. *)
Inductive Saved :=
| SPromised (b : Ballot)
| SMaxRound (r : Z)
| SAccepted (pv : PValue)
| SChosen (e : Entry).

Definition SavePromised (s : MemStore) (b : Ballot) : MemStore :=
  mkMemStore b (ms_max_round s) (ms_accepted s) (ms_chosen s).
Definition SaveMaxRound (s : MemStore) (r : Z) : MemStore :=
  mkMemStore (ms_promised s) r (ms_accepted s) (ms_chosen s).
Definition SaveAccepted (s : MemStore) (pv : PValue) : MemStore :=
  mkMemStore (ms_promised s) (ms_max_round s) (<[pv_slot pv := pv]> (ms_accepted s)) (ms_chosen s).
Definition SaveChosen (s : MemStore) (e : Entry) : MemStore :=
  mkMemStore (ms_promised s) (ms_max_round s) (ms_accepted s) (<[en_slot e := e]> (ms_chosen s)).

Definition save_rec (s : MemStore) (x : Saved) : MemStore :=
  match x with
  | SPromised b => SavePromised s b
  | SMaxRound r => SaveMaxRound s r
  | SAccepted pv => SaveAccepted s pv
  | SChosen e => SaveChosen s e
  end.

(** The values of a map in slot order. *)
Definition slot_order {A} (slot : A -> Slot) (m : gmap Slot A) : list A :=
  stable_sort (fun x y => slot x <? slot y) (map snd (map_to_list m)).

Definition Load (s : MemStore) : Durable :=
  mkDurable (ms_promised s) (ms_max_round s) (slot_order pv_slot (ms_accepted s)) (slot_order en_slot (ms_chosen s)).

(** * The interface

    [contents] is what the store holds.  A Save call that returns an error may
    or may not have reached the disk. *)

Class Store (T : Type) := {
  contents : T -> MemStore;
  store_load : T -> Durable + error;
  store_save : T -> Saved -> T * option error;
  store_load_ok : forall s d, store_load s = inl d -> d = Load (contents s);
  store_save_ok : forall s x s', store_save s x = (s', None) -> contents s' = save_rec (contents s) x;
  store_save_err : forall s x s' err, store_save s x = (s', Some err) ->
    contents s' = contents s \/ contents s' = save_rec (contents s) x;
}.

(** The in-memory store never fails. *)
#[export, refine] Instance MemStore_Store : Store MemStore := {|
  contents s := s;
  store_load s := inl (Load s);
  store_save s x := (save_rec s x, None);
|}.
Proof.
  - by intros s d [= <-].
  - by intros s x s' [= <-].
  - by intros s x s' err [= ].
Defined.

(** * Loading *)

(** The maps a node rebuilds from the loaded lists. *)
Definition accepted_of (l : list PValue) : gmap Slot PValue := foldl (fun m pv => <[pv_slot pv := pv]> m) ∅ l.
Definition chosen_of (l : list Entry) : gmap Slot Entry := foldl (fun m e => <[en_slot e := e]> m) ∅ l.

(** Every value of a map is stored under its own slot. *)
Definition keyed {A} (slot : A -> Slot) (m : gmap Slot A) : Prop := forall s x, m !! s = Some x -> slot x = s.

Record contents_ok (s : MemStore) : Prop := {
  co_accepted : keyed pv_slot (ms_accepted s);
  co_chosen : keyed en_slot (ms_chosen s);
}.

Lemma keyed_insert {A} (slot : A -> Slot) (m : gmap Slot A) x : keyed slot m -> keyed slot (<[slot x := x]> m).
Proof. intros K s y. rewrite lookup_insert. case_decide; [by intros [= <-]|apply K]. Qed.

Lemma save_rec_ok s x : contents_ok s -> contents_ok (save_rec s x).
Proof. intros [A C]. destruct x; split; simpl; auto using keyed_insert. Qed.

Lemma foldl_insert_keyed {A} (slot : A -> Slot) (l : list A) (m : gmap Slot A) :
  NoDup (map slot l) ->
  forall s, foldl (fun (m : gmap Slot A) x => <[slot x := x]> m) m l !! s =
    match List.find (fun x => slot x =? s) l with Some x => Some x | None => m !! s end.
Proof.
  revert m. induction l as [|x l IH]; intros m N s; [done|]. cbn [map foldl List.find] in *.
  apply NoDup_cons in N as [Hx N]. rewrite IH by done. destruct (Z.eqb_spec (slot x) s) as [<-|Hn].
  - destruct (List.find _ l) as [y|] eqn:E; [|by rewrite lookup_insert_eq].
    apply find_some in E as [Hy Hs%Z.eqb_eq]. exfalso. apply Hx. rewrite <- Hs.
    apply list_elem_of_fmap_2, list_elem_of_In, Hy.
  - destruct (List.find _ l); [done|]. by rewrite lookup_insert_ne.
Qed.

Lemma slot_order_elem {A} (slot : A -> Slot) (m : gmap Slot A) x : keyed slot m -> x ∈ slot_order slot m <-> m !! slot x = Some x.
Proof.
  intros K. unfold slot_order. rewrite stable_sort_Permutation.
  change (map snd (map_to_list m)) with ((map_to_list m).*2). rewrite list_elem_of_fmap. split.
  - intros ([s y] & -> & Hy%elem_of_map_to_list). simpl. by rewrite (K s y Hy).
  - intros H. exists (slot x, x). split; [done|]. by apply elem_of_map_to_list.
Qed.

Lemma slot_order_NoDup {A} (slot : A -> Slot) (m : gmap Slot A) : keyed slot m -> NoDup (map slot (slot_order slot m)).
Proof.
  intros K. unfold slot_order. change (map slot ?l) with (slot <$> l). rewrite stable_sort_Permutation.
  replace (slot <$> map snd (map_to_list m)) with ((map_to_list m).*1); [apply NoDup_fst_map_to_list|].
  change (map snd (map_to_list m)) with ((map_to_list m).*2). rewrite <- list_fmap_compose.
  apply list_fmap_ext. intros i [s x] Hi. simpl. symmetry. apply K, elem_of_map_to_list.
  by eapply list_elem_of_lookup_2.
Qed.

Lemma rebuild {A} (slot : A -> Slot) (m : gmap Slot A) : keyed slot m ->
  foldl (fun (m : gmap Slot A) x => <[slot x := x]> m) ∅ (slot_order slot m) = m.
Proof.
  intros K. apply map_eq. intros s. rewrite foldl_insert_keyed by by apply slot_order_NoDup.
  destruct (List.find _ _) as [x|] eqn:E.
  - apply find_some in E as [Hx Hs%Z.eqb_eq]. apply list_elem_of_In, (slot_order_elem slot m x K) in Hx.
    by rewrite Hs in Hx.
  - rewrite lookup_empty. destruct (m !! s) as [x|] eqn:Hx; [|done]. exfalso.
    pose proof (K s x Hx) as Hs. rewrite <- Hs in Hx. apply (slot_order_elem slot m x K), list_elem_of_In in Hx.
    apply (find_none _ _ E) in Hx. rewrite Z.eqb_neq in Hx. done.
Qed.

(** A node restarted from its store has what the store held. *)
Lemma Load_accepted s : contents_ok s -> accepted_of (d_accepted (Load s)) = ms_accepted s.
Proof. intros [K _]. by apply (rebuild pv_slot). Qed.

Lemma Load_chosen s : contents_ok s -> chosen_of (d_chosen (Load s)) = ms_chosen s.
Proof. intros [_ K]. by apply (rebuild en_slot). Qed.

Lemma NewMemStore_ok : contents_ok NewMemStore.
Proof. by split. Qed.
