(* ===== verification/Replog.v ===== *)
(** The replicated log (internal/replog/message.go, config.go, node.go): the
    messages, the configuration, and the node with every handler as the code
    has it.

    A handler is a function from the node to the node.  A message a node
    sends to itself is processed inline, so the handlers take the inline
    [handle] as the argument [inline]; [handle] ties the knot on fuel.  [None]
    is a run-time panic or fuel that ran out; [log_calls_return] in LogSafety.v
    shows that neither happens.  Time is an argument, and the random source is a stream of
    numbers, each reduced to the range the caller asks for. *)

From S2P Require Import Prelude GoStd Paxos Store.

(** * Messages (message.go) *)

Record PromiseMsg := mkPromiseMsg { p_ballot : Ballot; p_accepted : list PValue; p_commit : Slot }.

#[export] Instance PromiseMsg_eq_dec : EqDecision PromiseMsg.
Proof. solve_decision. Defined.

Inductive Message :=
| Prepare (ballot : Ballot) (fromSlot : Slot)
| Promise (p : PromiseMsg)
| Accept (ballot : Ballot) (slot : Slot) (value : Value)
| Accepted (ballot : Ballot) (slot : Slot)
| Nack (ballot promised : Ballot) (slot : Slot) (leaseRemaining : Z)
| Learn (slot : Slot) (ballot : Ballot) (value : Value)
| LearnRequest (fromSlot : Slot) (maxCount : Z)
| Heartbeat (ballot : Ballot) (commitIndex : Slot) (readSeq : Z)
| HeartbeatAck (ballot promised : Ballot) (commitIndex : Slot) (readSeq : Z).

#[export] Instance Message_eq_dec : EqDecision Message.
Proof. solve_decision. Defined.

Record Envelope := mkEnvelope { env_from : NodeID; env_to : NodeID; env_msg : Message }.

#[export] Instance Envelope_eq_dec : EqDecision Envelope.
Proof. solve_decision. Defined.

(** The wire name; a value outside the nine messages does not exist here. *)
Definition TypeName (m : Message) : string :=
  match m with
  | Prepare _ _ => "prepare"
  | Promise _ => "promise"
  | Accept _ _ _ => "accept"
  | Accepted _ _ => "accepted"
  | Nack _ _ _ _ => "nack"
  | Learn _ _ _ => "learn"
  | LearnRequest _ _ => "learn_request"
  | Heartbeat _ _ _ => "heartbeat"
  | HeartbeatAck _ _ _ _ => "heartbeat_ack"
  end.

(** [NotLeaderError]. *)
Record NotLeaderError := mkNotLeaderError { nle_leader : NodeID }.

Definition NotLeaderError_Error (e : NotLeaderError) : error :=
  if nle_leader e =? 0 then "replog: not the leader (leader unknown)"
  else "replog: not the leader (leader is node " +:+ itoa (nle_leader e) +:+ ")".

Inductive Event :=
| LeaderChanged (leader : NodeID) (ballot : Ballot) (self : bool)
| ReadReady (seq : Z) (index : Slot)
| ReadFailed (seq : Z) (err : NotLeaderError)
| LearnConflict (slot : Slot) (have got : Entry).

Definition ErrNotReady : error := "replog: leader has not committed its leadership no-op".
Definition ErrBusy : error := "replog: the leader's proposal queue is full".
Definition ErrValueTooLarge : error := "replog: value is too large to replicate".

(** What [Propose] and [ReadIndex] return besides success. *)
Inductive CallError :=
| EFailed (e : error)
| ENotLeader (e : NotLeaderError)
| ENotReady
| EBusy
| EValueTooLarge (size : Z).

(** * Roles and configuration (config.go) *)

Inductive Role := Follower | Candidate | Leader.

#[export] Instance Role_eq_dec : EqDecision Role.
Proof. solve_decision. Defined.

(** The [uint8] behind a role. *)
Definition role_u8 (r : Role) : Z := match r with Follower => 0 | Candidate => 1 | Leader => 2 end.

Definition Role_String (r : Z) : string :=
  if r =? 0 then "follower" else if r =? 1 then "candidate" else if r =? 2 then "leader"
  else "role(" +:+ itoa r +:+ ")".

Definition Role_MarshalText (r : Z) : string + error :=
  if role_u8 Leader <? r then inr ("replog: unknown role " +:+ itoa r) else inl (Role_String r).

Definition Role_UnmarshalText `{Unicode} (b : string) : Role + error :=
  match List.find (fun role => String.eqb (Role_String (role_u8 role)) b) [Follower; Candidate; Leader] with
  | Some role => inl role
  | None => inr ("replog: unknown role " +:+ quote b)
  end.

Record UnsafeKnobs := mkUnsafeKnobs {
  AcceptBelowPromise : bool;
  IgnorePhase1Reports : bool;
  SkipLeadershipNoOp : bool;
  ForgetAcceptedOnRestart : bool;
}.

(** Durations are [int64] nanoseconds. *)
Definition Millisecond : Z := 1000000.
Definition DefaultHeartbeatInterval := 50 * Millisecond.
Definition DefaultElectionTimeoutMin := 150 * Millisecond.
Definition DefaultElectionTimeoutMax := 300 * Millisecond.
Definition DefaultLeaseDuration := 150 * Millisecond.
Definition DefaultWindow := 64.
Definition DefaultLearnBatch := 256.
Definition DefaultQueueLimit := 1024.
Definition MaxValueBytes := 2 ^ 20.

Record Config := mkConfig {
  Self : NodeID;
  Peers : list NodeID;
  HeartbeatInterval : Z;
  ElectionTimeoutMin : Z;
  ElectionTimeoutMax : Z;
  LeaseDuration : Z;
  Window : Z;
  LearnBatch : Z;
  QueueLimit : Z;
  Unsafe : option UnsafeKnobs;
}.

Definition DefaultConfig (self : NodeID) (peers : list NodeID) : Config :=
  mkConfig self peers DefaultHeartbeatInterval DefaultElectionTimeoutMin DefaultElectionTimeoutMax
    DefaultLeaseDuration DefaultWindow DefaultLearnBatch DefaultQueueLimit None.

Definition withDefaults (c : Config) : Config :=
  let dflt x d := if x =? 0 then d else x in
  mkConfig (Self c) (Peers c) (dflt (HeartbeatInterval c) DefaultHeartbeatInterval)
    (dflt (ElectionTimeoutMin c) DefaultElectionTimeoutMin)
    (dflt (ElectionTimeoutMax c) DefaultElectionTimeoutMax) (LeaseDuration c)
    (dflt (Window c) DefaultWindow) (dflt (LearnBatch c) DefaultLearnBatch)
    (dflt (QueueLimit c) DefaultQueueLimit) (Unsafe c).

(** The loop of [Validate] over [Peers]: the first error, or whether [self]
    was seen. *)
Fixpoint check_peers (self : NodeID) (seen : list NodeID) (selfSeen : bool) (peers : list NodeID) : bool + error :=
  match peers with
  | [] => inl selfSeen
  | p :: peers' =>
      exit_if p =? 0 with inr "replog: Peers contains the invalid node 0";
      exit_if bool_decide (p ∈ seen) with inr ("replog: Peers contains node " +:+ itoa p +:+ " twice");
      check_peers self (p :: seen) (selfSeen || (p =? self)) peers'
  end.

Definition Validate (c : Config) : option error :=
  let c := withDefaults c in
  exit_if Self c =? 0 with Some "replog: Self must be non-zero";
  exit_if len (Peers c) =? 0 with Some "replog: Peers must not be empty";
  match check_peers (Self c) [] false (Peers c) with
  | inr e => Some e
  | inl false => Some ("replog: Self " +:+ itoa (Self c) +:+ " is not in Peers")
  | inl true =>
      exit_if HeartbeatInterval c <=? 0 with Some "replog: HeartbeatInterval must be positive";
      exit_if ElectionTimeoutMin c <? HeartbeatInterval c
        with Some "replog: ElectionTimeoutMin must be at least HeartbeatInterval";
      exit_if ElectionTimeoutMax c <? ElectionTimeoutMin c
        with Some "replog: ElectionTimeoutMax must be at least ElectionTimeoutMin";
      exit_if LeaseDuration c <? 0 with Some "replog: LeaseDuration must not be negative";
      exit_if ElectionTimeoutMin c <? LeaseDuration c
        with Some "replog: LeaseDuration must not exceed ElectionTimeoutMin";
      exit_if Window c <? 1 with Some "replog: Window must be at least 1";
      exit_if LearnBatch c <? 1 with Some "replog: LearnBatch must be at least 1";
      exit_if QueueLimit c <? 1 with Some "replog: QueueLimit must be at least 1";
      None
  end.

(** * The node (node.go) *)

(** The injected random source. *)
Record Rng := mkRng { rng_stream : nat -> Z; rng_pos : nat }.

(** [rand.Int64N]: a number in [0, n).  Go panics on [n < 1],
    which no node ever asks for ([timeout_span_positive], [running_validated]). *)
Definition Int64N (r : Rng) (n : Z) : Z * Rng :=
  (rng_stream r (rng_pos r) mod n, mkRng (rng_stream r) (S (rng_pos r))).

Record proposal := mkProposal { value : Value; accepts : gset NodeID; lastSent : Z }.

#[export] Instance proposal_fields : Fields proposal := fun p => mkProposal (value p) (accepts p) (lastSent p).

(** [promises] is [None] while the Go map is nil. *)
Record phase1State := mkPhase1State {
  fromSlot : Slot;
  promises : option (gmap NodeID PromiseMsg);
  deadline : Z;
  p1_lastSent : Z;
}.

#[export] Instance phase1State_fields : Fields phase1State :=
  fun p => mkPhase1State (fromSlot p) (promises p) (deadline p) (p1_lastSent p).

Definition zero_phase1 : phase1State := mkPhase1State 0 None 0 0.

Record read := mkRead { index : Slot; acks : gset NodeID }.

(** The fields of [Node] under their Go names; [n_contacts] is [None] while the
    Go map is nil. *)
Record Node {T : Type} := mkNode {
  n_cfg : Config;
  n_store : T;
  n_rng : Rng;
  n_quorum : Z;
  n_promised : Ballot;
  n_maxRound : Z;
  n_accepted : gmap Slot PValue;
  n_chosen : gmap Slot Entry;
  n_commitIndex : Slot;
  n_leaseHolder : NodeID;
  n_leaseUntil : Z;
  n_leaderHint : NodeID;
  n_leaderBallot : Ballot;
  n_electionDeadline : Z;
  n_started : bool;
  n_learnReqAfter : Z;
  n_role : Role;
  n_ballot : Ballot;
  n_phase1 : phase1State;
  n_proposals : gmap Slot proposal;
  n_nextSlot : Slot;
  n_firstOwnSlot : Slot;
  n_queue : list Value;
  n_contacts : option (gmap NodeID Z);
  n_leaderSince : Z;
  n_lastHeartbeat : Z;
  n_readSeq : Z;
  n_reads : gmap Z read;
  n_out : list Envelope;
  n_events : list Event;
  n_failed : option error;
}.
#[global] Arguments Node : clear implicits.
#[global] Arguments mkNode {T}.

#[export] Instance Node_fields {T} : Fields (Node T) := fun n =>
  mkNode (n_cfg n) (n_store n) (n_rng n) (n_quorum n) (n_promised n) (n_maxRound n) (n_accepted n)
    (n_chosen n) (n_commitIndex n) (n_leaseHolder n) (n_leaseUntil n) (n_leaderHint n)
    (n_leaderBallot n) (n_electionDeadline n) (n_started n) (n_learnReqAfter n) (n_role n)
    (n_ballot n) (n_phase1 n) (n_proposals n) (n_nextSlot n) (n_firstOwnSlot n) (n_queue n)
    (n_contacts n) (n_leaderSince n) (n_lastHeartbeat n) (n_readSeq n) (n_reads n) (n_out n)
    (n_events n) (n_failed n).

Section Node.
Context {T : Type} `{ST : Store T}.
Implicit Types n : Node T.

Definition is_failed n : bool := match n_failed n with Some _ => true | None => false end.
Definition is_role n (r : Role) : bool := bool_decide (n_role n = r).
Definition unsafe n (knob : UnsafeKnobs -> bool) : bool :=
  match Unsafe (n_cfg n) with Some k => knob k | None => false end.

(** [Leader], [Ready] and [Pending]; the other getters are the fields. *)
Definition Leader_known n : NodeID * Ballot * bool :=
  if is_role n Leader then (Self (n_cfg n), n_ballot n, true)
  else (n_leaderHint n, n_leaderBallot n, negb (n_leaderHint n =? 0)).

Definition Ready n : bool :=
  exit_if negb (is_role n Leader) with false;
  exit_if unsafe n SkipLeadershipNoOp with true;
  n_firstOwnSlot n <=? n_commitIndex n.

Definition Pending n : Z * Z := (Z.of_nat (size (n_proposals n)), len (n_queue n)).

(** ** Plumbing *)

Definition fail n (err : error) : Node T :=
  match n_failed n with
  | Some _ => n
  | None => n <| n_failed := Some ("replog: node " +:+ itoa (Self (n_cfg n)) +:+ " store failure: " +:+ err) |>
  end.

(** [if err := n.store.Save...; err != nil { n.fail(err); return }]: the flag
    is false when the handler has to return. *)
Definition save n (x : Saved) : Node T * bool :=
  let '(st, err) := store_save (n_store n) x in
  let n := n <| n_store := st |> in
  match err with Some e => (fail n e, false) | None => (n, true) end.

Definition emit n (ev : Event) : Node T := n <| n_events := n_events n ++ [ev] |>.

Definition isPeer n (id : NodeID) : bool := bool_decide (id ∈ Peers (n_cfg n)).

Definition randomElectionTimeout n : Node T * Z :=
  let span := i64 (ElectionTimeoutMax (n_cfg n) - ElectionTimeoutMin (n_cfg n)) in
  let '(d, r) := Int64N (n_rng n) (i64 (span + 1)) in
  (n <| n_rng := r |>, i64 (ElectionTimeoutMin (n_cfg n) + d)).

(** [n.electionDeadline = at + n.randomElectionTimeout()]. *)
Definition set_election_timer (at_ : Z) n : Node T :=
  let '(n, d) := randomElectionTimeout n in n <| n_electionDeadline := i64 (at_ + d) |>.

Definition begin (now : Z) n : Node T :=
  if n_started n then n else set_election_timer now (n <| n_started := true |>).

Definition finish n : Node T * list Envelope :=
  if is_failed n then (n <| n_out := [] |> <| n_events := [] |>, [])
  else (n <| n_out := [] |>, n_out n).

(** [Events] drains the events. *)
Definition Events n : Node T * list Event := (n <| n_events := [] |>, n_events n).

(** Keys of a map in ascending order ([sortedSlots], [sortedSeqs],
    [sortedNodes]). *)
Definition sorted_keys {A} (m : gmap Z A) : list Z := stable_sort Z.ltb (map fst (map_to_list m)).

Definition maxPendingRead n : Z :=
  foldl (fun m seq => if m <? seq then seq else m) 0 (map fst (map_to_list (n_reads n))).

(** [None] is the index panic of [times[n.quorum-1]]. *)
Definition quorumContact (now : Z) n : option Z :=
  let contact p :=
    if p =? Self (n_cfg n) then [now]
    else match n_contacts n ≫= lookup p with Some t => [t] | None => [] end in
  let times := flat_map contact (Peers (n_cfg n)) in
  exit_if len times <? n_quorum n with Some (n_leaderSince n);
  stable_sort (fun a b => b <? a) times !! Z.to_nat (n_quorum n - 1).

(** [advanceCommit]: every round of the loop finds another chosen slot, so the
    number of chosen slots bounds it ([advance_stops]). *)
Fixpoint advance (fuel : nat) (chosen : gmap Slot Entry) (c : Slot) : Slot :=
  match fuel with
  | O => c
  | S fuel' => match chosen !! u64 (c + 1) with
               | Some _ => advance fuel' chosen (u64 (c + 1))
               | None => c
               end
  end.

Definition advanceCommit n : Node T :=
  n <| n_commitIndex := advance (S (size (n_chosen n))) (n_chosen n) (n_commitIndex n) |>.

(** [New] on a store and a random source that are not nil. *)
Definition New (cfg : Config) (store : T) (rng : Rng) : Node T + error :=
  let cfg := withDefaults cfg in
  match Validate cfg with
  | Some e => inr e
  | None =>
      match store_load store with
      | inr e => inr ("replog: New: load durable state: " +:+ e)
      | inl d =>
          let forget := match Unsafe cfg with Some k => ForgetAcceptedOnRestart k | None => false end in
          let n := mkNode cfg store rng (Quorum (len (Peers cfg)))
            (d_promised d) (d_max_round d) (if forget then ∅ else accepted_of (d_accepted d)) (chosen_of (d_chosen d))
            0 0 0 0 zero_ballot 0 false 0 Follower zero_ballot zero_phase1 ∅ 0 0 [] None 0 0 0 ∅ [] [] None in
          let n := advanceCommit n in
          inl (if n_maxRound n <? bal_round (n_promised n)
               then n <| n_maxRound := bal_round (n_promised n) |> else n)
      end
  end.

(** ** Leaving office *)

(** [stepDown]: pending reads fail, proposals and queued values are dropped,
    the next election waits [wait] longer. *)
Definition stepDown (now : Z) (leader : NodeID) (lb : Ballot) (wait : Z) n : Node T :=
  let n := foldl (fun n seq => emit n (ReadFailed seq (mkNotLeaderError leader))) n (sorted_keys (n_reads n)) in
  let n := n <| n_role := Follower |> <| n_proposals := ∅ |> <| n_reads := ∅ |> <| n_queue := [] |>
             <| n_contacts := None |> <| n_phase1 := zero_phase1 |> in
  let n := set_election_timer (i64 (now + wait)) n in
  let n := n <| n_leaderHint := leader |> <| n_leaderBallot := lb |> in
  emit n (LeaderChanged leader lb false).

(** Raises [maxRound] to that of [b], on disk first; the flag is false when
    the caller has to return. *)
Definition note_round (b : Ballot) n : Node T * bool :=
  if n_maxRound n <? bal_round b
  then let n := n <| n_maxRound := bal_round b |> in save n (SMaxRound (n_maxRound n))
  else (n, true).

Definition setPromised (now : Z) (b : Ballot) n : Node T :=
  let '(n, ok) := note_round b n in
  exit_if negb ok with n;
  let n := n <| n_promised := b |> in
  let '(n, ok) := save n (SPromised b) in
  exit_if negb ok with n;
  if negb (is_role n Follower) && Less (n_ballot n) b then stepDown now (bal_node b) b 0 n else n.

Definition refreshLease (now : Z) (b : Ballot) n : Node T :=
  n <| n_leaseHolder := bal_node b |> <| n_leaseUntil := i64 (now + LeaseDuration (n_cfg n)) |>.

Definition noteLeader (now : Z) (b : Ballot) n : Node T :=
  let n := set_election_timer now n in
  if negb (n_leaderHint n =? bal_node b) || negb (bool_decide (n_leaderBallot n = b))
  then emit (n <| n_leaderHint := bal_node b |> <| n_leaderBallot := b |>) (LeaderChanged (bal_node b) b false)
  else n.

(** The accepted pvalues from a slot on, in slot order. *)
Definition acceptedFrom n (from : Slot) : list PValue :=
  slot_order pv_slot (filter (fun kv => from <= kv.1) (n_accepted n)).

(** The slots of [for s := from; s < limit; s++]. *)
Definition slots_between (from limit : Slot) : list Slot :=
  map (fun i => from + Z.of_nat i) (seq 0 (Z.to_nat (limit - from))).

(** ** Handlers

    [now] is the time of the call and [inline] processes a message of the node
    to itself. *)

Section Handlers.
Context (now : Z) (inline : Node T -> Message -> option (Node T)).

Definition send n (to : NodeID) (m : Message) : option (Node T) :=
  exit_if is_failed n with Some n;
  if to =? Self (n_cfg n) then inline n m
  else Some (n <| n_out := n_out n ++ [mkEnvelope (Self (n_cfg n)) to m] |>).

Definition broadcast n (m : Message) (includeSelf : bool) : option (Node T) :=
  foldM (fun n p => if (p =? Self (n_cfg n)) && negb includeSelf then Some n else send n p m)
    n (Peers (n_cfg n)).

(** *** Acceptor and learner *)

Definition onPrepare n (from : NodeID) (b : Ballot) (fromSlot : Slot) : option (Node T) :=
  let answer n :=
    let n := if from =? Self (n_cfg n) then n else noteLeader now b (refreshLease now b n) in
    send n from (Promise (mkPromiseMsg b (acceptedFrom n fromSlot) (n_commitIndex n))) in
  exit_if IsZero b with Some n;
  exit_if bool_decide (b = n_promised n) with answer n;
  exit_if negb (MayPromise (n_promised n) b) with send n from (Nack b (n_promised n) 0 0);
  exit_if (0 <? LeaseDuration (n_cfg n)) && (now <? n_leaseUntil n) && negb (bal_node b =? n_leaseHolder n)
    with send n from (Nack b (n_promised n) 0 (i64 (n_leaseUntil n - now)));
  let n := setPromised now b n in
  exit_if is_failed n with Some n;
  answer n.

Definition onAccept n (from : NodeID) (b : Ballot) (slot : Slot) (v : Value) : option (Node T) :=
  exit_if IsZero b || (slot =? 0) with Some n;
  let allow := unsafe n AcceptBelowPromise || MayAccept (n_promised n) b in
  exit_if negb allow with send n from (Nack b (n_promised n) slot 0);
  let n := if Less (n_promised n) b then setPromised now b n else n in
  exit_if is_failed n with Some n;
  let pv := mkPValue b slot v in
  let '(n, ok) := save n (SAccepted pv) in
  exit_if negb ok with Some n;
  let n := n <| n_accepted := <[slot := pv]> (n_accepted n) |> in
  let n := refreshLease now b n in
  let n := if from =? Self (n_cfg n) then n else noteLeader now b n in
  send n from (Accepted b slot).

Definition onHeartbeat n (from : NodeID) (b : Ballot) (commit : Slot) (readSeq : Z) : option (Node T) :=
  exit_if IsZero b with Some n;
  exit_if Less b (n_promised n)
    with send n from (HeartbeatAck b (n_promised n) (n_commitIndex n) readSeq);
  let n := if Less (n_promised n) b then setPromised now b n else n in
  exit_if is_failed n with Some n;
  let n := refreshLease now b n in
  let n := if from =? Self (n_cfg n) then n else noteLeader now b n in
  n ← send n from (HeartbeatAck b (n_promised n) (n_commitIndex n) readSeq);
  if negb (from =? Self (n_cfg n)) && (n_commitIndex n <? commit) && (n_learnReqAfter n <=? now)
  then
    let n := n <| n_learnReqAfter := i64 (now + HeartbeatInterval (n_cfg n)) |> in
    send n from (LearnRequest (u64 (n_commitIndex n + 1)) (LearnBatch (n_cfg n)))
  else Some n.

(** The leader's own acceptor handles the [Accept] inline. *)
Definition propose n (s : Slot) (v : Value) : option (Node T) :=
  let n := n <| n_proposals := <[s := mkProposal v ∅ now]> (n_proposals n) |> in
  broadcast n (Accept (n_ballot n) s v) true.

(** Every round takes a value from the queue, so its length bounds them. *)
Fixpoint drainQueue_fuel (fuel : nat) n : option (Node T) :=
  match n_queue n with
  | v :: queue =>
      if (Z.of_nat (size (n_proposals n)) <? Window (n_cfg n)) && is_role n Leader && negb (is_failed n)
      then match fuel with
           | O => None
           | S fuel' =>
               n ← propose (n <| n_queue := queue |>) (n_nextSlot n) v;
               drainQueue_fuel fuel' (n <| n_nextSlot := u64 (n_nextSlot n + 1) |>)
           end
      else Some n
  | [] => Some n
  end.
Definition drainQueue n : option (Node T) := drainQueue_fuel (length (n_queue n)) n.

(** Records a chosen entry, on disk first. *)
Definition learn n (e : Entry) : option (Node T) :=
  let '(n, ok) := save n (SChosen e) in
  exit_if negb ok with Some n;
  let n := n <| n_chosen := <[en_slot e := e]> (n_chosen n) |>
             <| n_proposals := delete (en_slot e) (n_proposals n) |> in
  let n := advanceCommit n in
  if is_role n Leader then drainQueue n else Some n.

Definition onLearn n (from : NodeID) (slot : Slot) (b : Ballot) (v : Value) : option (Node T) :=
  exit_if slot =? 0 with Some n;
  let got := mkEntry slot b v in
  match n_chosen n !! slot with
  | Some have => Some (if ValueEqual (en_value have) v then n else emit n (LearnConflict slot have got))
  | None => learn n got
  end.

Definition onLearnRequest n (from : NodeID) (fromSlot : Slot) (maxCount : Z) : option (Node T) :=
  exit_if (from =? Self (n_cfg n)) || (fromSlot =? 0) with Some n;
  let count := if (maxCount <? 1) || (LearnBatch (n_cfg n) <? maxCount) then LearnBatch (n_cfg n) else maxCount in
  foldM (fun n s => match n_chosen n !! s with
                    | Some e => send n from (Learn s (en_ballot e) (en_value e))
                    | None => Some n
                    end) n (slots_between fromSlot (u64 (fromSlot + u64 count))).

(** *** Candidate and leader *)

Definition startElection n : option (Node T) :=
  let n := n <| n_maxRound := u64 (n_maxRound n + 1) |> in
  let '(n, ok) := save n (SMaxRound (n_maxRound n)) in
  exit_if negb ok with Some n;
  let n := n <| n_ballot := mkBallot (n_maxRound n) (Self (n_cfg n)) |> <| n_role := Candidate |> in
  let '(n, d) := randomElectionTimeout n in
  let n := n <| n_phase1 := mkPhase1State (u64 (n_commitIndex n + 1)) (Some ∅) (i64 (now + d)) now |> in
  broadcast n (Prepare (n_ballot n) (fromSlot (n_phase1 n))) true.

(** The highest slot reported from [from] on or chosen here. *)
Definition takeover_top n (ps : list (NodeID * PromiseMsg)) : Slot :=
  let from := fromSlot (n_phase1 n) in
  let up top s := if top <? s then s else top in
  let top := foldl up (u64 (from - 1))
    (List.filter (fun s => from <=? s) (flat_map (fun kv => map pv_slot (p_accepted kv.2)) ps)) in
  foldl up top (map fst (map_to_list (n_chosen n))).

(** [reports[s]]. *)
Definition reports_at (ps : list (NodeID * PromiseMsg)) (s : Slot) : list PValue :=
  List.filter (fun pv => pv_slot pv =? s) (flat_map (fun kv => p_accepted kv.2) ps).

(** The loop over the slots to take over; the flag is false when the handler
    has to return. *)
Fixpoint reproposals (ps : list (NodeID * PromiseMsg)) (slots : list Slot) n : option (Node T * bool) :=
  match slots with
  | [] => Some (n, true)
  | s :: slots' =>
      match n_chosen n !! s with
      | Some _ => reproposals ps slots' n
      | None =>
          let v := if unsafe n IgnorePhase1Reports then "" else Choose (reports_at ps s) "" in
          n ← propose n s v;
          exit_if is_failed n || negb (is_role n Leader) with Some (n, false);
          reproposals ps slots' n
      end
  end.

(** The promises in the order of their senders. *)
Definition sorted_promises (m : gmap NodeID PromiseMsg) : list (NodeID * PromiseMsg) :=
  omap (fun id => p ← m !! id; Some (id, p)) (sorted_keys m).

(** The assignments of [becomeLeader]. *)
Definition crowned n (ps : list (NodeID * PromiseMsg)) (top : Slot) : Node T :=
  let n := n <| n_role := Leader |> <| n_leaderHint := Self (n_cfg n) |> <| n_leaderBallot := n_ballot n |>
             <| n_leaderSince := now |> <| n_lastHeartbeat := now |> <| n_proposals := ∅ |> <| n_reads := ∅ |>
             <| n_contacts := Some (list_to_map (map (fun kv => (kv.1, now)) ps)) |> in
  let n := emit n (LeaderChanged (Self (n_cfg n)) (n_ballot n) true) in
  let own := u64 (top + 1) in
  n <| n_firstOwnSlot := own |> <| n_nextSlot := u64 (own + 1) |>.

Definition becomeLeader n : option (Node T) :=
  let ps := sorted_promises (default ∅ (promises (n_phase1 n))) in
  let top := takeover_top n ps in
  let n := crowned n ps top in
  exit_if top =? 2 ^ 64 - 1 with None;
  '(n, go_on) ← reproposals ps (slots_between (fromSlot (n_phase1 n)) (top + 1)) n;
  exit_if negb go_on with Some n;
  n ← propose n (n_firstOwnSlot n) "";
  exit_if is_failed n || negb (is_role n Leader) with Some n;
  drainQueue n.

Definition onPromise n (from : NodeID) (m : PromiseMsg) : option (Node T) :=
  exit_if negb (is_role n Candidate) || negb (bool_decide (p_ballot m = n_ballot n)) with Some n;
  ps ← promises (n_phase1 n);
  let ps := <[from := m]> ps in
  let n := n <| n_phase1 := n_phase1 n <| promises := Some ps |> |> in
  if n_quorum n <=? Z.of_nat (size ps) then becomeLeader n else Some n.

Definition onAccepted n (from : NodeID) (b : Ballot) (slot : Slot) : option (Node T) :=
  exit_if negb (is_role n Leader) || negb (bool_decide (b = n_ballot n)) with Some n;
  match n_proposals n !! slot with
  | None => Some n
  | Some p =>
      let p := p <| accepts := {[from]} ∪ accepts p |> in
      let n := n <| n_proposals := <[slot := p]> (n_proposals n) |> in
      exit_if Z.of_nat (size (accepts p)) <? n_quorum n with Some n;
      let e := mkEntry slot (n_ballot n) (value p) in
      n ← learn n e;
      exit_if is_failed n with Some n;
      broadcast n (Learn (en_slot e) (en_ballot e) (en_value e)) false
  end.

Definition onNack n (from : NodeID) (b promised : Ballot) (leaseRemaining : Z) : Node T :=
  exit_if is_role n Follower || negb (bool_decide (b = n_ballot n)) with n;
  exit_if negb (Less (n_ballot n) promised) with n;
  let '(n, ok) := note_round promised n in
  exit_if negb ok with n;
  stepDown now (bal_node promised) promised leaseRemaining n.

(** One acknowledgement counted for the pending reads up to [readSeq]. *)
Definition ack_read (from : NodeID) (readSeq : Z) n (seq : Z) : Node T :=
  exit_if readSeq <? seq with n;
  match n_reads n !! seq with
  | None => n
  | Some r =>
      let r := mkRead (index r) ({[from]} ∪ acks r) in
      if n_quorum n <=? Z.of_nat (size (acks r))
      then (emit n (ReadReady seq (index r))) <| n_reads := delete seq (n_reads n) |>
      else n <| n_reads := <[seq := r]> (n_reads n) |>
  end.

Definition onHeartbeatAck n (from : NodeID) (b promised : Ballot) (readSeq : Z) : option (Node T) :=
  exit_if is_role n Follower with Some n;
  exit_if Less (n_ballot n) promised with
    (let '(n, ok) := note_round promised n in
     exit_if negb ok with Some n;
     Some (stepDown now (bal_node promised) promised 0 n));
  exit_if negb (is_role n Leader) || negb (bool_decide (b = n_ballot n)) with Some n;
  contacts ← n_contacts n;
  let n := n <| n_contacts := Some (<[from := now]> contacts) |> in
  exit_if negb (bool_decide (promised = n_ballot n)) with Some n;
  Some (foldl (ack_read from readSeq) n (sorted_keys (n_reads n))).

(** *** Timers *)

(** The retransmissions of the leader; the flag is false when the handler has
    to return. *)
Fixpoint retransmit (slots : list Slot) n : option (Node T * bool) :=
  match slots with
  | [] => Some (n, true)
  | s :: slots' =>
      p ← n_proposals n !! s;
      if i64 (lastSent p + HeartbeatInterval (n_cfg n)) <=? now
      then
        let n := n <| n_proposals := <[s := p <| lastSent := now |>]> (n_proposals n) |> in
        n ← broadcast n (Accept (n_ballot n) s (value p)) false;
        exit_if negb (is_role n Leader) with Some (n, false);
        retransmit slots' n
      else retransmit slots' n
  end.

Definition tick n : option (Node T) :=
  match n_role n with
  | Follower =>
      if (n_electionDeadline n <=? now) && ((LeaseDuration (n_cfg n) =? 0) || (n_leaseUntil n <=? now))
      then startElection n else Some n
  | Candidate =>
      exit_if deadline (n_phase1 n) <=? now with
        Some (set_election_timer now (n <| n_role := Follower |> <| n_phase1 := zero_phase1 |>));
      if i64 (p1_lastSent (n_phase1 n) + HeartbeatInterval (n_cfg n)) <=? now
      then
        let n := n <| n_phase1 := n_phase1 n <| p1_lastSent := now |> |> in
        foldM (fun n p =>
            if (p =? Self (n_cfg n)) || bool_decide (p ∈ dom (default ∅ (promises (n_phase1 n)))) then Some n
            else send n p (Prepare (n_ballot n) (fromSlot (n_phase1 n))))
          n (Peers (n_cfg n))
      else Some n
  | Leader =>
      n ← (if i64 (n_lastHeartbeat n + HeartbeatInterval (n_cfg n)) <=? now
           then
             let n := n <| n_lastHeartbeat := now |> in
             broadcast n (Heartbeat (n_ballot n) (n_commitIndex n) (maxPendingRead n)) true
           else Some n);
      exit_if negb (is_role n Leader) with Some n;
      '(n, go_on) ← retransmit (sorted_keys (n_proposals n)) n;
      exit_if negb go_on with Some n;
      t ← quorumContact now n;
      Some (if ElectionTimeoutMax (n_cfg n) <? i64 (now - t) then stepDown now 0 zero_ballot 0 n else n)
  end.

End Handlers.

Fixpoint handle (fuel : nat) (now : Z) n (from : NodeID) (m : Message) : option (Node T) :=
  match fuel with
  | O => None
  | S fuel' =>
      exit_if is_failed n with Some n;
      let inline n m := handle fuel' now n (Self (n_cfg n)) m in
      match m with
      | Prepare b s => onPrepare now inline n from b s
      | Promise p => onPromise now inline n from p
      | Accept b s v => onAccept now inline n from b s v
      | Accepted b s => onAccepted now inline n from b s
      | Nack b p _ w => Some (onNack now n from b p w)
      | Learn s b v => onLearn now inline n from s b v
      | LearnRequest s c => onLearnRequest inline n from s c
      | Heartbeat b c r => onHeartbeat now inline n from b c r
      | HeartbeatAck b p _ r => onHeartbeatAck now n from b p r
      end
  end.

(** A message from outside, or four that the node sends itself, one within the
    other: [self_handle_ok] in Inline.v and [handle_spec] in Drive.v show that
    this is enough to return, whatever waits in the queue. *)
Definition handle_fuel n : nat := 2 * length (n_queue n) + 4.

Definition inline_of (now : Z) n : Node T -> Message -> option (Node T) :=
  let fuel := handle_fuel n in fun n m => handle fuel now n (Self (n_cfg n)) m.

(** ** The driving methods *)

Definition Step (now : Z) (env : Envelope) n : option (Node T * list Envelope) :=
  exit_if is_failed n with Some (n, []);
  let n := begin now n in
  n ← (if (env_to env =? Self (n_cfg n)) && isPeer n (env_from env)
       then handle (handle_fuel n) now n (env_from env) (env_msg env) else Some n);
  Some (finish n).

Definition Tick (now : Z) n : option (Node T * list Envelope) :=
  exit_if is_failed n with Some (n, []);
  let n := begin now n in
  n ← tick now (inline_of now n) n;
  Some (finish n).

Definition Propose (now : Z) (v : Value) n : option (Node T * list Envelope * option CallError) :=
  match n_failed n with
  | Some e => Some (n, [], Some (EFailed e))
  | None =>
      let n := begin now n in
      exit_if MaxValueBytes <? slen v with Some (n, [], Some (EValueTooLarge (slen v)));
      exit_if negb (is_role n Leader) with Some (n, [], Some (ENotLeader (mkNotLeaderError (n_leaderHint n))));
      if Window (n_cfg n) <=? Z.of_nat (size (n_proposals n)) then
        exit_if QueueLimit (n_cfg n) <=? len (n_queue n) with Some (finish n, Some EBusy);
        Some (finish (n <| n_queue := n_queue n ++ [v] |>), None)
      else
        n ← propose now (inline_of now n) n (n_nextSlot n) v;
        Some (finish (n <| n_nextSlot := u64 (n_nextSlot n + 1) |>), None)
  end.

Definition ReadIndex (now : Z) n : option (Node T * Z * list Envelope * option CallError) :=
  match n_failed n with
  | Some e => Some (n, 0, [], Some (EFailed e))
  | None =>
      let n := begin now n in
      exit_if negb (is_role n Leader) with Some (n, 0, [], Some (ENotLeader (mkNotLeaderError (n_leaderHint n))));
      exit_if negb (Ready n) with Some (n, 0, [], Some ENotReady);
      let n := n <| n_readSeq := u64 (n_readSeq n + 1) |> in
      let seq := n_readSeq n in
      let n := n <| n_reads := <[seq := mkRead (n_commitIndex n) {[Self (n_cfg n)]}]> (n_reads n) |>
                 <| n_lastHeartbeat := now |> in
      n ← broadcast (inline_of now n) n (Heartbeat (n_ballot n) (n_commitIndex n) seq) true;
      let '(n, out) := finish n in
      Some (n, seq, out, None)
  end.

End Node.
