(* ===== verification/LogWire.v ===== *)
(** The wire form of the replicated log's messages (internal/replog/codec.go):
    the JSON of the identifiers and of the nine messages, [Encode] and
    [Decode].  The theorems: a message whose fields are in the range of their
    Go types is decoded from its encoding, and whatever decodes is such a
    message. *)

From S2P Require Import Prelude GoStd Base64 Json Unmarshal Paxos Ledger Store Replog.

(** * The structs, field by field *)

Definition ballot_codec : Codec Ballot :=
  struct (field "round" (uint 64) (field "node" (uint 32) no_fields))
    (fun '(r, (n, _)) => mkBallot r n) (fun b => (bal_round b, (bal_node b, tt))).

Definition pvalue_codec : Codec PValue :=
  struct (field "ballot" ballot_codec (field "slot" (uint 64) (field "value" byte_slice no_fields)))
    (fun '(b, (s, (v, _))) => mkPValue b s v) (fun p => (pv_ballot p, (pv_slot p, (pv_value p, tt)))).

Definition entry_codec : Codec Entry :=
  struct (field "slot" (uint 64) (field "ballot" ballot_codec (field "value" byte_slice no_fields)))
    (fun '(s, (b, (v, _))) => mkEntry s b v) (fun e => (en_slot e, (en_ballot e, (en_value e, tt)))).

(** The message bodies. *)
Definition prepare_codec : Codec (Ballot * Slot) :=
  struct (field "ballot" ballot_codec (field "from_slot" (uint 64) no_fields))
    (fun '(b, (s, _)) => (b, s)) (fun '(b, s) => (b, (s, tt))).

Definition promise_codec : Codec PromiseMsg :=
  struct (field "ballot" ballot_codec (field "accepted" (nil_slice pvalue_codec) (field "commit_index" (uint 64) no_fields)))
    (fun '(b, (l, (c, _))) => mkPromiseMsg b l c) (fun p => (p_ballot p, (p_accepted p, (p_commit p, tt)))).

Definition accept_codec : Codec (Ballot * Slot * Value) :=
  struct (field "ballot" ballot_codec (field "slot" (uint 64) (field "value" byte_slice no_fields)))
    (fun '(b, (s, (v, _))) => (b, s, v)) (fun '(b, s, v) => (b, (s, (v, tt)))).

Definition accepted_codec : Codec (Ballot * Slot) :=
  struct (field "ballot" ballot_codec (field "slot" (uint 64) no_fields))
    (fun '(b, (s, _)) => (b, s)) (fun '(b, s) => (b, (s, tt))).

Definition nack_codec : Codec (Ballot * Ballot * Slot * Z) :=
  struct (field "ballot" ballot_codec (field "promised" ballot_codec (field "slot" (uint 64)
      (field "lease_remaining" (sint 64) no_fields))))
    (fun '(b, (p, (s, (l, _)))) => (b, p, s, l)) (fun '(b, p, s, l) => (b, (p, (s, (l, tt))))).

Definition learn_codec : Codec (Slot * Ballot * Value) :=
  struct (field "slot" (uint 64) (field "ballot" ballot_codec (field "value" byte_slice no_fields)))
    (fun '(s, (b, (v, _))) => (s, b, v)) (fun '(s, b, v) => (s, (b, (v, tt)))).

Definition learn_request_codec : Codec (Slot * Z) :=
  struct (field "from_slot" (uint 64) (field "max_count" (sint 64) no_fields))
    (fun '(s, (n, _)) => (s, n)) (fun '(s, n) => (s, (n, tt))).

Definition heartbeat_codec : Codec (Ballot * Slot * Z) :=
  struct (field "ballot" ballot_codec (field "commit_index" (uint 64) (field "read_seq" (uint 64) no_fields)))
    (fun '(b, (c, (q, _))) => (b, c, q)) (fun '(b, c, q) => (b, (c, (q, tt)))).

Definition heartbeat_ack_codec : Codec (Ballot * Ballot * Slot * Z) :=
  struct (field "ballot" ballot_codec (field "promised" ballot_codec (field "commit_index" (uint 64)
      (field "read_seq" (uint 64) no_fields))))
    (fun '(b, (p, (c, (q, _)))) => (b, p, c, q)) (fun '(b, p, c, q) => (b, (p, (c, (q, tt))))).

(** * Encoding and decoding *)

Definition body_json (m : Message) : json :=
  match m with
  | Prepare b s => to_json prepare_codec (b, s)
  | Promise p => to_json promise_codec p
  | Accept b s v => to_json accept_codec (b, s, v)
  | Accepted b s => to_json accepted_codec (b, s)
  | Nack b p s l => to_json nack_codec (b, p, s, l)
  | Learn s b v => to_json learn_codec (s, b, v)
  | LearnRequest s n => to_json learn_request_codec (s, n)
  | Heartbeat b c q => to_json heartbeat_codec (b, c, q)
  | HeartbeatAck b p c q => to_json heartbeat_ack_codec (b, p, c, q)
  end.

(** [Encode]: the body is marshalled first and embedded as it is; a message
    outside the nine types does not exist here. *)
Definition Encode (env : Envelope) : bytes :=
  marshal (JObj [("from", JNum (env_from env)); ("to", JNum (env_to env)); ("type", JStr (TypeName (env_msg env)));
                 ("body", body_json (env_msg env))]).

Definition envelope_keys : list string := ["from"; "to"; "type"; "body"].

(** [wireEnvelope].  A [json.RawMessage] holds the text of one value, which
    decoding it strictly reads again; the model keeps the value, the last one
    the key was given, and [None] for the empty message. *)
Record wireEnvelope := mkWire { w_from : Z; w_to : Z; w_type : string; w_body : option jval }.

Definition read_envelope (b : bytes) : option wireEnvelope :=
  v ← DecodeStrict b;
  ms ← fields envelope_keys [v];
  from ← of_json (uint 32) (at_key "from" ms);
  to ← of_json (uint 32) (at_key "to" ms);
  typ ← of_json text (at_key "type" ms);
  Some (mkWire from to typ (last (at_key "body" ms))).

(** The [switch] of [Decode]: [None] for an unknown type, [Some None] for a
    body that does not decode. *)
Definition read_body (typ : string) (body : jval) : option (option Message) :=
  if String.eqb typ "prepare" then Some ((fun '(b, s) => Prepare b s) <$> of_json prepare_codec [body])
  else if String.eqb typ "promise" then Some (Promise <$> of_json promise_codec [body])
  else if String.eqb typ "accept" then Some ((fun '(b, s, v) => Accept b s v) <$> of_json accept_codec [body])
  else if String.eqb typ "accepted" then Some ((fun '(b, s) => Accepted b s) <$> of_json accepted_codec [body])
  else if String.eqb typ "nack" then Some ((fun '(b, p, s, l) => Nack b p s l) <$> of_json nack_codec [body])
  else if String.eqb typ "learn" then Some ((fun '(s, b, v) => Learn s b v) <$> of_json learn_codec [body])
  else if String.eqb typ "learn_request" then Some ((fun '(s, n) => LearnRequest s n) <$> of_json learn_request_codec [body])
  else if String.eqb typ "heartbeat" then Some ((fun '(b, c, q) => Heartbeat b c q) <$> of_json heartbeat_codec [body])
  else if String.eqb typ "heartbeat_ack" then
    Some ((fun '(b, p, c, q) => HeartbeatAck b p c q) <$> of_json heartbeat_ack_codec [body])
  else None.

(** The text of [encoding/json]'s own error, which the source appends, is left
    out. *)
Definition Decode `{Unicode} (b : bytes) : Envelope + error :=
  match read_envelope b with
  | None => inr "replog: decode envelope"
  | Some w =>
      exit_if (w_from w =? 0) || (w_to w =? 0) with inr "replog: decode envelope: from and to must be non-zero";
      match w_body w with
      | None => inr "replog: decode envelope: missing body"
      | Some body =>
          match read_body (w_type w) body with
          | None => inr ("replog: decode envelope: unknown message type " +:+ quote (w_type w))
          | Some None => inr ("replog: decode " +:+ w_type w +:+ " body")
          | Some (Some m) => inl (mkEnvelope (w_from w) (w_to w) m)
          end
      end
  end.

(** The fields of a message in the range of their Go types. *)
Definition body_fits (m : Message) : Prop :=
  match m with
  | Prepare b s => fits prepare_codec (b, s)
  | Promise p => fits promise_codec p
  | Accept b s v => fits accept_codec (b, s, v)
  | Accepted b s => fits accepted_codec (b, s)
  | Nack b p s l => fits nack_codec (b, p, s, l)
  | Learn s b v => fits learn_codec (s, b, v)
  | LearnRequest s n => fits learn_request_codec (s, n)
  | Heartbeat b c q => fits heartbeat_codec (b, c, q)
  | HeartbeatAck b p c q => fits heartbeat_ack_codec (b, p, c, q)
  end.

Record envelope_fits (env : Envelope) : Prop := {
  ef_from : 0 < env_from env < 2 ^ 32;
  ef_to : 0 < env_to env < 2 ^ 32;
  ef_body : body_fits (env_msg env);
}.

(** * Round trips *)

#[export] Instance ballot_lawful : Lawful ballot_codec.
Proof. unfold ballot_codec. apply _. Qed.
#[export] Instance pvalue_lawful : Lawful pvalue_codec.
Proof. unfold pvalue_codec. apply _. Qed.
#[export] Instance entry_lawful : Lawful entry_codec.
Proof. unfold entry_codec. apply _. Qed.

(** The same JSON as the records of the chain and the book write. *)
Lemma ballot_json_codec b : ballot_json b = to_json ballot_codec b.
Proof. done. Qed.

#[export] Instance prepare_lawful : Lawful prepare_codec.
Proof. unfold prepare_codec. apply _. Qed.
#[export] Instance promise_lawful : Lawful promise_codec.
Proof. unfold promise_codec. apply _. Qed.
#[export] Instance accept_lawful : Lawful accept_codec.
Proof. unfold accept_codec. apply _. Qed.
#[export] Instance accepted_lawful : Lawful accepted_codec.
Proof. unfold accepted_codec. apply _. Qed.
#[export] Instance nack_lawful : Lawful nack_codec.
Proof. unfold nack_codec. apply _. Qed.
#[export] Instance learn_lawful : Lawful learn_codec.
Proof. unfold learn_codec. apply _. Qed.
#[export] Instance learn_request_lawful : Lawful learn_request_codec.
Proof. unfold learn_request_codec. apply _. Qed.
#[export] Instance heartbeat_lawful : Lawful heartbeat_codec.
Proof. unfold heartbeat_codec. apply _. Qed.
#[export] Instance heartbeat_ack_lawful : Lawful heartbeat_ack_codec.
Proof. unfold heartbeat_ack_codec. apply _. Qed.

Lemma read_body_back m : body_fits m -> read_body (TypeName m) (val_of (body_json m)) = Some (Some m).
Proof.
  destruct m; cbn [body_fits TypeName body_json]; intros F; unfold read_body; cbn [String.eqb Ascii.eqb Bool.eqb];
    match goal with |- context [of_json ?c [val_of (to_json ?c ?a)]] => by rewrite (read_back (c := c) a F) end.
Qed.

Lemma read_body_fits typ body m : jval_ok body = true -> read_body typ body = Some (Some m) -> body_fits m /\ typ = TypeName m.
Proof.
  intros Hb. unfold read_body.
  assert (B : forallb jval_ok [body] = true) by (cbn; by rewrite Hb).
  repeat match goal with |- context [String.eqb typ ?n] => destruct (String.eqb_spec typ n) as [->|_] end; [..|done];
    match goal with |- Some (_ <$> of_json ?c _) = _ -> _ =>
      destruct (of_json c [body]) as [x|] eqn:E; [|done]; apply (read_fits (c := c) _ _ B) in E end;
    repeat match goal with x : _ * _ |- _ => destruct x end; intros [= <-]; (split; [exact E|done]).
Qed.

Lemma body_depth m : jdepth (body_json m) <= 10.
Proof.
  destruct m; cbn [body_json]; match goal with |- jdepth (to_json ?c ?a) <= _ =>
    etrans; [refine (depth (c := c) (d := _) a); unfold c; apply _|done] end.
Qed.

Lemma read_envelope_back env : envelope_fits env ->
  read_envelope (Encode env) = Some (mkWire (env_from env) (env_to env) (TypeName (env_msg env)) (Some (val_of (body_json (env_msg env))))).
Proof.
  intros [Hf Ht Hb]. unfold read_envelope, Encode, marshal. rewrite DecodeStrict_marshal.
  2: { cbn [jdepth map snd foldr]. pose proof (body_depth (env_msg env)). unfold maxNestingDepth. lia. }
  cbn [mbind option_bind]. rewrite fields_read by (done || set_solver). cbn [mbind option_bind].
  unfold vals. cbn [map fst snd].
  repeat rewrite at_key_cons. cbn [String.eqb Ascii.eqb Bool.eqb]. change (at_key _ []) with (@nil jval).
  rewrite !(read_back (c := uint 32)) by (cbn; lia). cbn [mbind option_bind].
  rewrite (read_back (c := text)) by (by destruct (env_msg env)). done.
Qed.

Lemma envelope_back `{Unicode} env : envelope_fits env -> Decode (Encode env) = inl env.
Proof.
  intros F. unfold Decode. rewrite read_envelope_back by done. destruct F as [Hf Ht Hb]. cbn [w_from w_to w_body w_type].
  replace ((env_from env =? 0) || (env_to env =? 0)) with false by lia.
  rewrite read_body_back by done. by destruct env.
Qed.

Lemma envelope_in_range `{Unicode} b env : Decode b = inl env -> envelope_fits env.
Proof.
  unfold Decode, read_envelope. destruct (DecodeStrict b) as [v|] eqn:E; [|done]. cbn [mbind option_bind].
  apply DecodeStrict_ok in E. destruct (fields _ _) as [ms|] eqn:Em; [|done]. cbn [mbind option_bind].
  assert (Hm : forallb (fun p => jval_ok p.2) ms = true) by (eapply fields_ok; [|exact Em]; cbn; by rewrite E).
  destruct (of_json (uint 32) (at_key "from" ms)) as [from|] eqn:E1; [|done]. cbn [mbind option_bind].
  destruct (of_json (uint 32) (at_key "to" ms)) as [to|] eqn:E2; [|done]. cbn [mbind option_bind].
  apply read_fits in E1, E2; [|by apply at_key_ok..]. cbn in E1, E2.
  destruct (of_json text _) as [typ|] eqn:E3; [|done]. cbn [mbind option_bind w_from w_to w_body w_type].
  destruct ((from =? 0) || (to =? 0)) eqn:Ez; [done|]. destruct (last (at_key "body" ms)) as [body|] eqn:El; [|done].
  destruct (read_body typ body) as [[m|]|] eqn:Eb; [|done..]. intros [= <-].
  apply last_Some_elem_of in El. pose proof (at_key_ok "body" ms Hm) as Hk. rewrite forallb_forall in Hk.
  apply read_body_fits in Eb as [Eb _]; [|by apply Hk, list_elem_of_In]. b2p. split; cbn; [lia|lia|done].
Qed.

(** What a node sends is what the other receives: an envelope is decoded
    from its encoding exactly when its identifiers are not zero and every
    field is in the range of its Go type, with any bytes as values; and
    nothing that decodes, however it is written, lies outside those ranges. *)
Theorem messages_survive_wire `{Unicode} (env : Envelope) :
  (Decode (Encode env) = inl env <-> envelope_fits env) /\
  (forall b, Decode b = inl env -> envelope_fits env).
Proof.
  split; [split; [apply envelope_in_range|apply envelope_back]|intros b; apply envelope_in_range].
Qed.

Lemma messages_survive_wire_witness : let _ := ascii_unicode in
  let env := mkEnvelope 1 2 (Promise (mkPromiseMsg (mkBallot 7 1) [mkPValue (mkBallot 3 2) 4 "set x"; mkPValue (mkBallot 3 2) 5 ""] 3)) in
  Decode (Encode env) = inl env.
Proof.
  intros U env. apply (messages_survive_wire (H := U) env).
  split; [by vm_compute|by vm_compute|]. cbn. repeat split; cbn; try lia. 
  repeat (constructor; [repeat split; cbn; lia|]). constructor.
Defined.
