(* ===== verification/Wal.v ===== *)
(** The write-ahead log (internal/replog/wal/wal.go): an implementation of the
    Store interface of Store.v on an append-only file.

    The file is its bytes; every system call that can fail is an outcome the
    model is given.  Records are JSON payloads framed by their length and
    their CRC-32C.  The theorems: whatever was written is scanned back, with at
    most the record of an interrupted write lost ([wal_recovers]); the file
    implements the interface, failed writes included ([wal_Store]); damage to
    one byte of a record that is followed by another is refused
    ([wal_damage_refused]), except damage to a length, which the scan takes for
    a torn tail ([wal_length_damage_drops]); and a file stays with the replica
    it was bound to ([wal_bound]). *)

From S2P Require Import Prelude GoStd Base64 Json Unmarshal Paxos Ledger Store Replog LogWire.

(** * Records *)

Record Membership := mkMembership { mb_self : NodeID; mb_peers : list NodeID }.

#[export] Instance Membership_eq_dec : EqDecision Membership.
Proof. solve_decision. Defined.

(** One payload; exactly one field is set. *)
Record record := mkRecord {
  rec_membership : option Membership;
  rec_promised : option Ballot;
  rec_max_round : option Z;
  rec_accepted : option PValue;
  rec_chosen : option Entry;
}.

Definition is_set {A} (o : option A) : bool := match o with Some _ => true | None => false end.
Definition is_nil {A} (o : option A) : bool := negb (is_set o).

Definition rec_fields (r : record) : Z :=
  len (List.filter id [is_set (rec_membership r); is_set (rec_promised r); is_set (rec_max_round r);
                       is_set (rec_accepted r); is_set (rec_chosen r)]).

Definition membership_codec : Codec Membership :=
  struct (field "self" (uint 32) (field "peers" (slice (uint 32)) no_fields))
    (fun '(s, (p, _)) => mkMembership s p) (fun m => (mb_self m, (mb_peers m, tt))).

Definition record_codec : Codec record :=
  struct (field_omit "membership" is_nil (pointer membership_codec) (field_omit "promised" is_nil (pointer ballot_codec)
      (field_omit "max_round" is_nil (pointer (uint 64)) (field_omit "accepted" is_nil (pointer pvalue_codec)
      (field_omit "chosen" is_nil (pointer entry_codec) no_fields)))))
    (fun '(m, (p, (r, (a, (c, _))))) => mkRecord m p r a c)
    (fun r => (rec_membership r, (rec_promised r, (rec_max_round r, (rec_accepted r, (rec_chosen r, tt)))))).

(** The record of a Save call, and of [Bind]. *)
Definition saved_record (x : Saved) : record :=
  match x with
  | SPromised b => mkRecord None (Some b) None None None
  | SMaxRound r => mkRecord None None (Some r) None None
  | SAccepted pv => mkRecord None None None (Some pv) None
  | SChosen e => mkRecord None None None None (Some e)
  end.
Definition membership_record (m : Membership) : record := mkRecord (Some m) None None None None.

(** * CRC-32C *)

(** [crc32.Checksum] with the Castagnoli table: the bitwise form of the
    reflected algorithm, whose table holds eight steps per byte. *)
Definition castagnoli : Z := 2197175160.
Definition crc_bit (c : Z) : Z := if Z.odd c then Z.lxor (Z.shiftr c 1) castagnoli else Z.shiftr c 1.
Definition crc_byte (c b : Z) : Z := Nat.iter 8 crc_bit (Z.lxor c b).
Definition crc_flip : Z := 4294967295.
Definition checksum (b : bytes) : Z := Z.lxor (foldl crc_byte crc_flip b) crc_flip.

Example checksum_vector : checksum (bytes_of "123456789") = 3808858755.
Proof. vm_compute. reflexivity. Qed.

(** * Frames and the scan *)

Definition headerBytes : Z := 8.
Definition maxRecordBytes : Z := 4 * MaxValueBytes + 2 ^ 16.

Definition frame (payload : bytes) : bytes := put_be32 (len payload) ++ put_be32 (checksum payload) ++ payload.

Definition allZero (b : bytes) : bool := forallb (fun c => c =? 0) b.

Definition ErrCorrupt : error := "wal: file is corrupt".
Definition corrupt_at (what : string) (off : Z) : error := ErrCorrupt +:+ ": " +:+ what +:+ " at offset " +:+ itoa off.

Definition cons_rec (r : record) (x : (list record * Z) + error) : (list record * Z) + error :=
  match x with inl (l, off) => inl (r :: l, off) | inr e => inr e end.

(** The loop of [scan] on what is left of the file at offset [off]: the
    records and the length of the valid prefix. *)
Fixpoint scan_from (fuel : nat) (off : Z) (rest : bytes) : (list record * Z) + error :=
  match fuel, rest with
  | S f, _ :: _ =>
      exit_if len rest <? headerBytes with inl ([], off);
      let n := get_be (take 4 rest) in
      let sum := get_be (take 4 (drop 4 rest)) in
      exit_if n =? 0 with if allZero rest then inl ([], off) else inr (corrupt_at "empty record" off);
      exit_if (maxRecordBytes <? n) || (len rest <? headerBytes + n) with inl ([], off);
      let payload := take (Z.to_nat n) (drop 8 rest) in
      let last := headerBytes + n =? len rest in
      exit_if negb (checksum payload =? sum)
        with if last then inl ([], off) else inr (corrupt_at "checksum mismatch" off);
      match decode_into record_codec payload with
      | Some r =>
          exit_if negb (rec_fields r =? 1) with inr (corrupt_at "undecodable record" off);
          cons_rec r (scan_from f (off + headerBytes + n) (drop (8 + Z.to_nat n) rest))
      | None => inr (corrupt_at "undecodable record" off)
      end
  | _, _ => inl ([], off)
  end.

(** Every round consumes a header. *)
Definition scan (b : bytes) : (list record * Z) + error := scan_from (length b) 0 b.

(** * The file *)

(** What the system calls of one append do: the write of the whole buffer, or
    of its first bytes before an error; the truncation after a failed write;
    the sync. *)
Record append_io := mkAppendIO { io_written : option nat; io_truncated : bool; io_synced : bool }.
Definition io_fine : append_io := mkAppendIO None true true.

(** [File]; [f_disk] is what the open file holds, [f_open] whether [f] is not
    nil, and [f_io] the outcomes of the appends to come. *)
Record File := mkFile {
  f_open : bool;
  f_path : string;
  f_size : Z;
  f_member : option Membership;
  f_err : option error;
  f_disk : bytes;
  f_io : list append_io;
}.

#[export] Instance File_Fields : Fields File :=
  fun f => mkFile (f_open f) (f_path f) (f_size f) (f_member f) (f_err f) (f_disk f) (f_io f).

(** [WriteAt]. *)
Definition write_at (disk : bytes) (off : Z) (b : bytes) : bytes :=
  take (Z.to_nat off) disk ++ b ++ drop (Z.to_nat off + length b) disk.

Definition next_io (w : File) : append_io * File :=
  match f_io w with [] => (io_fine, w) | x :: l => (x, w <| f_io := l |>) end.

Definition appendLocked (w : File) (r : record) : File * option error :=
  match f_err w with
  | Some e => (w, Some e)
  | None =>
      exit_if negb (f_open w) with (w, Some "wal: file is closed");
      let payload := marshal (to_json record_codec r) in
      exit_if maxRecordBytes <? len payload
        with (w, Some ("wal: record of " +:+ itoa (len payload) +:+ " bytes exceeds the limit " +:+ itoa maxRecordBytes));
      let buf := frame payload in
      let '(io, w) := next_io w in
      match io_written io with
      | Some k =>
          let disk := write_at (f_disk w) (f_size w) (take k buf) in
          let disk := if io_truncated io then take (Z.to_nat (f_size w)) disk else disk in
          let err := Some "wal: write" in
          (w <| f_disk := disk |> <| f_err := err |>, err)
      | None =>
          let w := w <| f_disk := write_at (f_disk w) (f_size w) buf |> in
          exit_if negb (io_synced io) with (w <| f_err := Some "wal: sync" |>, Some "wal: sync");
          (w <| f_size := f_size w + len buf |>, None)
      end
  end.

(** [SavePromised], [SaveMaxRound], [SaveAccepted] and [SaveChosen]. *)
Definition Save (w : File) (x : Saved) : File * option error := appendLocked w (saved_record x).

Definition Path (w : File) : string := f_path w.
Definition File_Membership (w : File) : option Membership := f_member w.

Definition member_text (m : Membership) : string :=
  itoa (mb_self m) +:+ " of [" +:+ String.concat " " (map itoa (mb_peers m)) +:+ "]".

Definition Bind (w : File) (self : NodeID) (peers : list NodeID) : File * option error :=
  let want := mkMembership self (stable_sort Z.ltb peers) in
  match f_member w with
  | Some m =>
      exit_if negb (mb_self m =? mb_self want) || negb (bool_decide (mb_peers m = mb_peers want))
        with (w, Some ("wal: " +:+ f_path w +:+ " belongs to node " +:+ member_text m +:+ ", not node " +:+ member_text want));
      (w, None)
  | None =>
      exit_if 0 <? f_size w with (w, Some ("wal: " +:+ f_path w +:+ " holds log records but no membership"));
      match appendLocked w (membership_record want) with
      | (w, Some err) => (w, Some err)
      | (w, None) => (w <| f_member := Some want |>, None)
      end
  end.

(** The [switch] of [Load] over the records, oldest first. *)
Definition replay_rec (s : MemStore) (r : record) : MemStore :=
  match rec_promised r with
  | Some b => SavePromised s b
  | None =>
      match rec_max_round r with
      | Some n => SaveMaxRound s n
      | None =>
          match rec_accepted r with
          | Some pv => SaveAccepted s pv
          | None => match rec_chosen r with Some e => SaveChosen s e | None => s end
          end
      end
  end.
Definition replay (rs : list record) : MemStore := foldl replay_rec NewMemStore rs.

Definition File_Load (w : File) : Durable + error :=
  exit_if negb (f_open w) with inr "wal: file is closed";
  match f_err w with
  | Some err => inr ("wal: a write failed; reopen the file: " +:+ err)
  | None =>
      match scan (f_disk w) with
      | inr err => inr err
      | inl (recs, valid) =>
          exit_if negb (valid =? f_size w)
            with inr (ErrCorrupt +:+ ": valid prefix is " +:+ itoa valid +:+ " bytes, " +:+ itoa (f_size w) +:+ " were written");
          inl (Load (replay recs))
      end
  end.

(** [closed] is whether the system's close succeeds; the file is closed either
    way. *)
Definition Close (closed : bool) (w : File) : File * option error :=
  exit_if negb (f_open w) with (w, None);
  (w <| f_open := false |>, if closed then None else Some "close").

(** * Opening *)

(** What the system calls of [Open] do. *)
Record open_io := mkOpenIO {
  oi_open : bool;
  oi_syncdir : bool;
  oi_stat : bool;
  oi_read : bool;
  oi_stat2 : bool;
  oi_truncate : bool;
  oi_sync : bool;
}.
Definition open_fine : open_io := mkOpenIO true true true true true true true.

(** The first membership record that is not the first record, by position. *)
Fixpoint stray_member (i : Z) (rs : list record) : option Z :=
  match rs with
  | [] => None
  | r :: rs' => if is_set (rec_membership r) && negb (i =? 0) then Some (i + 1) else stray_member (i + 1) rs'
  end.

Definition first_member (rs : list record) : option Membership :=
  match rs with r :: _ => rec_membership r | [] => None end.

(** [Open] on what the path holds, [None] when it does not exist: what it holds
    afterwards, and the file or the error. *)
Definition Open (io : open_io) (appends : list append_io) (path : string) (disk : option bytes) : option bytes * (File + error) :=
  exit_if negb (oi_open io) with (disk, inr "wal: open");
  let b := default [] disk in
  exit_if negb (is_set disk) && negb (oi_syncdir io) with (Some b, inr "wal: sync directory");
  exit_if negb (oi_stat io) with (Some b, inr "wal: stat");
  exit_if negb (len b =? 0) && negb (oi_read io) with (Some b, inr "wal: read");
  match scan b with
  | inr err => (Some b, inr err)
  | inl (recs, valid) =>
      exit_if negb (oi_stat2 io) with (Some b, inr "wal: stat");
      let torn := valid <? len b in
      exit_if torn && negb (oi_truncate io) with (Some b, inr ("wal: truncate torn tail at " +:+ itoa valid));
      let b := if torn then take (Z.to_nat valid) b else b in
      exit_if torn && negb (oi_sync io) with (Some b, inr "wal: sync after truncation");
      match stray_member 0 recs with
      | Some i => (Some b, inr (ErrCorrupt +:+ ": membership record at position " +:+ itoa i))
      | None => (Some b, inl (mkFile true path valid (first_member recs) None b appends))
      end
  end.

(** * Big-endian numbers and the CRC *)

Lemma get_put_be32 z : in_u32 z -> get_be (put_be32 z) = z.
Proof.
  unfold in_u32, put_be32, put_be, get_be. intros H. cbn [seq map foldl].
  change (256 ^ Z.of_nat (4 - 1 - 0)) with 16777216. change (256 ^ Z.of_nat (4 - 1 - 1)) with 65536.
  change (256 ^ Z.of_nat (4 - 1 - 2)) with 256. change (256 ^ Z.of_nat (4 - 1 - 3)) with 1.
  Z.div_mod_to_equations. lia.
Qed.

Lemma log2_u32 x : in_u32 x -> Z.log2 x < 32.
Proof. unfold in_u32. intros H. destruct (Z.eq_dec x 0) as [-> |]; [done|]. apply Z.log2_lt_pow2; lia. Qed.

Lemma lxor_u32 a b : in_u32 a -> in_u32 b -> in_u32 (Z.lxor a b).
Proof.
  intros Ha Hb. pose proof (log2_u32 a Ha). pose proof (log2_u32 b Hb). unfold in_u32 in *.
  assert (Hn : 0 <= Z.lxor a b) by (apply Z.lxor_nonneg; lia). split; [done|].
  destruct (Z.eq_dec (Z.lxor a b) 0) as [-> |Hz]; [lia|].
  apply Z.log2_lt_pow2; [lia|]. pose proof (Z.log2_lxor a b). lia.
Qed.

Lemma crc_bit_range c : in_u32 c -> in_u32 (crc_bit c).
Proof.
  unfold in_u32, crc_bit. intros H.
  assert (0 <= Z.shiftr c 1 < 2 ^ 32) by (rewrite Z.shiftr_div_pow2 by lia; change (2 ^ 1) with 2; Z.div_mod_to_equations; lia).
  destruct (Z.odd c); [|done]. by apply lxor_u32.
Qed.

Lemma crc_iter_range n c : in_u32 c -> in_u32 (Nat.iter n crc_bit c).
Proof. intros H. induction n; [done|]. by apply crc_bit_range. Qed.

Lemma crc_byte_range c b : in_u32 c -> is_byte b -> in_u32 (crc_byte c b).
Proof. intros Hc Hb. apply crc_iter_range, lxor_u32; [done|]. unfold is_byte, in_u32 in *. lia. Qed.

Lemma crc_range b c : Forall is_byte b -> in_u32 c -> in_u32 (foldl crc_byte c b).
Proof. intros H. revert c. induction H as [|x b Hx _ IH]; intros c Hc; [done|]. cbn. by apply IH, crc_byte_range. Qed.

Lemma checksum_range b : Forall is_byte b -> in_u32 (checksum b).
Proof. intros H. apply lxor_u32; [by apply crc_range|done]. Qed.

(** A step of the CRC loses nothing: the polynomial's top bit is set, so the
    bit that was shifted out can be read off the result. *)
Lemma crc_bit_inj c d : in_u32 c -> in_u32 d -> crc_bit c = crc_bit d -> c = d.
Proof.
  unfold in_u32, crc_bit. intros Hc Hd E.
  assert (S : forall x, 0 <= x < 2 ^ 32 -> Z.testbit (Z.shiftr x 1) 31 = false).
  { intros x Hx. rewrite Z.shiftr_spec by lia. apply Z.bits_above_log2; [lia|].
    destruct (Z.eq_dec x 0) as [-> |]; [done|]. apply Z.log2_lt_pow2; lia. }
  assert (T : Z.odd c = Z.odd d).
  { apply (f_equal (fun z => Z.testbit z 31)) in E. specialize (S c Hc) as Sc. specialize (S d Hd) as Sd.
    destruct (Z.odd c), (Z.odd d); try done; rewrite ?Z.lxor_spec, Sc, Sd in E; by vm_compute in E. }
  rewrite T in E. assert (E2 : Z.shiftr c 1 = Z.shiftr d 1).
  { destruct (Z.odd d); [|done].
    apply (f_equal (fun z => Z.lxor z castagnoli)) in E. by rewrite !Z.lxor_assoc, Z.lxor_nilpotent, !Z.lxor_0_r in E. }
  rewrite !Z.shiftr_div_pow2 in E2 by lia. change (2 ^ 1) with 2 in E2. rewrite !Zodd_mod in T.
  destruct (Zeq_bool (c mod 2) 1) eqn:B1, (Zeq_bool (d mod 2) 1) eqn:B2; try done;
    rewrite ?Z.eqb_eq, ?Z.eqb_neq in *; Z.div_mod_to_equations; lia.
Qed.

Lemma crc_iter_inj n c d : in_u32 c -> in_u32 d -> Nat.iter n crc_bit c = Nat.iter n crc_bit d -> c = d.
Proof.
  intros Hc Hd. induction n as [|n IH]; [done|]. cbn. intros E. apply IH.
  apply crc_bit_inj; [by apply crc_iter_range..|exact E].
Qed.

Lemma lxor_cancel a b c : Z.lxor a b = Z.lxor a c -> b = c.
Proof. intros E. apply (f_equal (Z.lxor a)) in E. by rewrite <- !Z.lxor_assoc, Z.lxor_nilpotent, !Z.lxor_0_l in E. Qed.

Lemma byte_u32 b : is_byte b -> in_u32 b.
Proof. unfold is_byte, in_u32. lia. Qed.

Lemma crc_byte_inj c d x y : in_u32 c -> in_u32 d -> is_byte x -> is_byte y -> crc_byte c x = crc_byte d y ->
  Z.lxor c x = Z.lxor d y.
Proof. intros Hc Hd Hx Hy E. apply (crc_iter_inj 8); [apply lxor_u32; auto using byte_u32..|exact E]. Qed.

Lemma crc_suffix b c d : Forall is_byte b -> in_u32 c -> in_u32 d -> foldl crc_byte c b = foldl crc_byte d b -> c = d.
Proof.
  intros H. revert c d. induction H as [|x b Hx _ IH]; intros c d Hc Hd E; [done|]. cbn [foldl] in E.
  apply IH in E; [|by apply crc_byte_range..]. apply crc_byte_inj in E; [|done..].
  rewrite (Z.lxor_comm c), (Z.lxor_comm d) in E. by apply lxor_cancel in E.
Qed.

(** The checksum tells apart two texts that differ in one byte. *)
Lemma checksum_one_byte p x y q : Forall is_byte (p ++ x :: q) -> is_byte y -> x <> y ->
  checksum (p ++ x :: q) <> checksum (p ++ y :: q).
Proof.
  intros [Hp [Hx Hq]%Forall_cons]%Forall_app Hy Hne E. unfold checksum in E.
  rewrite (Z.lxor_comm _ crc_flip), (Z.lxor_comm (foldl _ _ (p ++ y :: q))) in E. apply lxor_cancel in E.
  rewrite !foldl_app in E. cbn [foldl] in E.
  assert (Hc : in_u32 (foldl crc_byte crc_flip p)) by by apply crc_range.
  apply crc_suffix in E; [|done|by apply crc_byte_range..].
  apply crc_byte_inj in E; [|done..]. by apply lxor_cancel in E.
Qed.

(** * Frames *)

Lemma frame_length p : len (frame p) = headerBytes + len p.
Proof. unfold frame, headerBytes. rewrite !len_app. unfold len. rewrite !put_be32_length. lia. Qed.

(** The header of a frame, with anything after it. *)
Lemma frame_header p t : Forall is_byte p -> len p < 2 ^ 32 ->
  get_be (take 4 (frame p ++ t)) = len p /\ get_be (take 4 (drop 4 (frame p ++ t))) = checksum p /\
  drop 8 (frame p ++ t) = p ++ t.
Proof.
  intros Hp Hl. unfold frame. rewrite <- !app_assoc. split_and!.
  - rewrite take_app_length' by done. apply get_put_be32. pose proof (len_nonneg p). unfold in_u32. lia.
  - rewrite drop_app_length' by done. rewrite take_app_length' by done. apply get_put_be32, checksum_range, Hp.
  - rewrite app_assoc. by apply drop_app_length'.
Qed.

(** A payload that is decoded to a record. *)
Definition payload_of (p : bytes) (r : record) : Prop :=
  Forall is_byte p /\ 0 < len p <= maxRecordBytes /\ decode_into record_codec p = Some r /\ rec_fields r = 1.

Lemma scan_step f off t : (0 < length t)%nat -> scan_from (S f) off t =
  (exit_if len t <? headerBytes with inl ([], off);
   let n := get_be (take 4 t) in
   let sum := get_be (take 4 (drop 4 t)) in
   exit_if n =? 0 with if allZero t then inl ([], off) else inr (corrupt_at "empty record" off);
   exit_if (maxRecordBytes <? n) || (len t <? headerBytes + n) with inl ([], off);
   let payload := take (Z.to_nat n) (drop 8 t) in
   exit_if negb (checksum payload =? sum)
     with if headerBytes + n =? len t then inl ([], off) else inr (corrupt_at "checksum mismatch" off);
   match decode_into record_codec payload with
   | Some r =>
       exit_if negb (rec_fields r =? 1) with inr (corrupt_at "undecodable record" off);
       cons_rec r (scan_from f (off + headerBytes + n) (drop (8 + Z.to_nat n) t))
   | None => inr (corrupt_at "undecodable record" off)
   end).
Proof. destruct t; [simpl; lia|done]. Qed.

Lemma to_nat_len {A} (l : list A) : Z.to_nat (len l) = length l.
Proof. unfold len. lia. Qed.

Lemma scan_frame f off p r t : payload_of p r ->
  scan_from (S f) off (frame p ++ t) = cons_rec r (scan_from f (off + len (frame p)) t).
Proof.
  intros (Hp & Hl & Hd & Hf).
  assert (H32 : len p < 2 ^ 32) by (unfold maxRecordBytes, MaxValueBytes in Hl; lia).
  destruct (frame_header p t Hp H32) as (E1 & E2 & E3).
  pose proof (frame_length p) as FL. pose proof (len_nonneg t) as Ht. unfold headerBytes in FL.
  rewrite scan_step by (rewrite length_app; unfold len in *; lia).
  rewrite len_app, E1, E2, E3. unfold headerBytes.
  destruct (Z.ltb_spec (len (frame p) + len t) 8); [lia|]. cbv zeta.
  destruct (Z.eqb_spec (len p) 0); [lia|]. destruct (Z.ltb_spec maxRecordBytes (len p)); [lia|].
  destruct (Z.ltb_spec (len (frame p) + len t) (8 + len p)); [lia|]. cbn [orb].
  rewrite to_nat_len, take_app_length, Z.eqb_refl. cbn [negb]. rewrite Hd, Hf. cbn [negb Z.eqb Pos.eqb].
  f_equal. f_equal; [lia|]. apply drop_app_length'. unfold len in FL. lia.
Qed.

(** A frame that was not written to its end is not read. *)
Lemma scan_torn f off p k : Forall is_byte p -> 0 < len p <= maxRecordBytes -> (k < length (frame p))%nat ->
  scan_from f off (take k (frame p)) = inl ([], off).
Proof.
  intros Hp Hl Hk. destruct f as [|f]; [done|]. destruct k as [|k]; [done|].
  pose proof (frame_length p) as FL. unfold headerBytes in FL. unfold len in FL, Hl.
  set (t := take (S k) (frame p)).
  assert (Lt : length t = S k) by (unfold t; rewrite length_take; lia).
  rewrite scan_step by lia. unfold headerBytes. unfold len at 1. rewrite Lt.
  destruct (Z.ltb_spec (Z.of_nat (S k)) 8) as [|H8]; [done|]. cbv zeta.
  assert (E1 : get_be (take 4 t) = len p).
  { unfold t. rewrite take_take, Nat.min_l by lia. unfold frame. rewrite take_app_length' by done. apply get_put_be32.
    unfold in_u32, len. unfold maxRecordBytes, MaxValueBytes in Hl. lia. }
  rewrite E1. unfold len at 1. destruct (Z.eqb_spec (Z.of_nat (length p)) 0); [lia|].
  replace (len t <? 8 + len p) with true by (unfold len; lia). by rewrite orb_true_r.
Qed.

(** ** Files of records *)

Definition payload (r : record) : bytes := marshal (to_json record_codec r).
Definition file_of (rs : list record) : bytes := concat (map (fun r => frame (payload r)) rs).

(** A record [appendLocked] writes. *)
Definition writable (r : record) : Prop := fits record_codec r /\ rec_fields r = 1 /\ len (payload r) <= maxRecordBytes.

#[export] Instance membership_lawful : Lawful membership_codec.
Proof. unfold membership_codec. apply _. Qed.
#[export] Instance pointer_omits {A} (c : Codec A) : Omits is_nil (pointer c).
Proof. by intros [a|]. Qed.
#[export] Instance uint_not_null w : NotNull (uint w).
Proof. done. Qed.
#[export] Instance record_lawful : Lawful record_codec.
Proof. unfold record_codec. apply _. Qed.

Lemma record_depth : Depth record_codec 10.
Proof. intros r. etrans; [refine (depth (c := record_codec) (d := _) r); unfold record_codec; apply _|done]. Qed.

Lemma writable_payload r : writable r -> payload_of (payload r) r.
Proof.
  intros (Hf & H1 & Hl). split_and!; [apply json_print_bytes| |done| |done].
  - unfold payload, marshal. destruct (print_head true (to_json record_codec r)) as (c & t & -> & _).
    rewrite len_cons. pose proof (len_nonneg t). lia.
  - apply (decode_into_marshal record_codec true r Hf). pose proof (record_depth r). unfold maxNestingDepth. lia.
Qed.

Lemma file_of_app rs r : file_of (rs ++ [r]) = file_of rs ++ frame (payload r).
Proof. unfold file_of. rewrite map_app, concat_app. cbn [map concat]. by rewrite app_nil_r. Qed.

Definition app_recs (rs : list record) (x : (list record * Z) + error) : (list record * Z) + error :=
  match x with inl (l, off) => inl (rs ++ l, off) | inr e => inr e end.

(** A scan reads the records in front and goes on behind them. *)
Lemma scan_records rs t f off : Forall writable rs -> (length (file_of rs) <= f)%nat ->
  exists f', (f - length (file_of rs) <= f')%nat /\
    scan_from f off (file_of rs ++ t) = app_recs rs (scan_from f' (off + len (file_of rs)) t).
Proof.
  revert f off. induction rs as [|r rs IH]; intros f off W Hf.
  - exists f. split; [simpl; lia|]. cbn. rewrite Z.add_0_r. by destruct (scan_from f off t) as [[]|].
  - apply Forall_cons in W as [W1 W]. change (file_of (r :: rs)) with (frame (payload r) ++ file_of rs) in *.
    pose proof (frame_length (payload r)) as FL. unfold headerBytes in FL. pose proof (len_nonneg (payload r)).
    rewrite length_app in Hf. destruct f as [|f]; [unfold len in *; lia|].
    rewrite <- app_assoc, (scan_frame f off _ r) by by apply writable_payload.
    destruct (IH f (off + len (frame (payload r))) W) as (f' & Hf' & E); [unfold len in *; lia|].
    exists f'. split; [rewrite length_app; unfold len in *; lia|]. rewrite E, len_app.
    rewrite Z.add_assoc. by destruct (scan_from f' _ t) as [[]|].
Qed.

(** * What the scan finds *)

Lemma scan_file rs t : Forall writable rs -> (forall f off, scan_from f off t = inl ([], off)) ->
  scan (file_of rs ++ t) = inl (rs, len (file_of rs)).
Proof.
  intros W Ht. unfold scan. destruct (scan_records rs t (length (file_of rs ++ t)) 0 W) as (f' & _ & ->).
  - rewrite length_app. lia.
  - rewrite Ht. cbn [app_recs]. by rewrite app_nil_r.
Qed.

(** What a crash in the middle of writing [r] leaves behind the records
    before it: some first bytes of its frame, a run of zeros, or its frame with
    other bytes in the place of the payload. *)
Inductive torn (r : record) : bytes -> Prop :=
| torn_cut k : (k < length (frame (payload r)))%nat -> torn r (take k (frame (payload r)))
| torn_zeros k : torn r (repeat 0 k)
| torn_payload q : length q = length (payload r) -> checksum q <> checksum (payload r) ->
    torn r (put_be32 (len (payload r)) ++ put_be32 (checksum (payload r)) ++ q).

Lemma get_be_zeros k : get_be (repeat 0 k) = 0.
Proof. unfold get_be. induction k as [|k IH]; [done|exact IH]. Qed.

Lemma torn_scan r t f off : writable r -> torn r t -> scan_from f off t = inl ([], off).
Proof.
  intros W T. pose proof (writable_payload r W) as (Hp & Hl & _ & _). destruct T as [k Hk|k|q Hq Hc].
  - by apply scan_torn.
  - destruct f as [|f]; [done|]. destruct k as [|k]; [done|]. rewrite scan_step by (rewrite repeat_length; lia).
    unfold headerBytes. destruct (Z.ltb_spec (len (repeat 0 (S k))) 8) as [|H8]; [done|]. cbv zeta.
    assert (E : take 4 (repeat 0 (S k)) = repeat 0 4).
    { unfold len in H8. rewrite repeat_length in H8. by do 4 (destruct k as [|k]; [lia|]). }
    rewrite E, get_be_zeros. cbn [Z.eqb].
    assert (A : allZero (repeat 0 (S k)) = true); [|by rewrite A].
    apply forallb_forall. intros c Hc%repeat_spec. by subst.
  - destruct f as [|f]; [done|].
    set (t := put_be32 (len (payload r)) ++ put_be32 (checksum (payload r)) ++ q).
    assert (Lt : len t = 8 + len q) by (unfold t; rewrite !len_app; unfold len; rewrite !put_be32_length; lia).
    assert (Lq : len q = len (payload r)) by (unfold len; by rewrite Hq).
    rewrite scan_step by (unfold len in *; lia). unfold headerBytes. rewrite Lt.
    destruct (Z.ltb_spec (8 + len q) 8); [unfold len in *; lia|]. cbv zeta.
    assert (E1 : get_be (take 4 t) = len (payload r)).
    { unfold t. rewrite take_app_length' by done. apply get_put_be32. unfold in_u32, len in *.
      unfold maxRecordBytes, MaxValueBytes in Hl. lia. }
    assert (E2 : get_be (take 4 (drop 4 t)) = checksum (payload r)).
    { unfold t. rewrite drop_app_length' by done. rewrite take_app_length' by done. by apply get_put_be32, checksum_range. }
    assert (E3 : drop 8 t = q) by (unfold t; rewrite app_assoc; by apply drop_app_length').
    rewrite E1, E2, E3, <- Lq. rewrite <- Lq in Hl.
    destruct (Z.eqb_spec (len q) 0); [lia|]. destruct (Z.ltb_spec maxRecordBytes (len q)); [lia|].
    destruct (Z.ltb_spec (8 + len q) (8 + len q)); [lia|]. cbn [orb].
    rewrite to_nat_len, firstn_all, Z.eqb_refl. destruct (Z.eqb_spec (checksum q) (checksum (payload r))); [done|]. done.
Qed.

(** The file a fresh [Open] returns on [rs]. *)
Definition opened (path : string) (appends : list append_io) (rs : list record) : File :=
  mkFile true path (len (file_of rs)) (first_member rs) None (file_of rs) appends.

Lemma Open_scan path appends rs b : stray_member 0 rs = None -> scan b = inl (rs, len (file_of rs)) ->
  len (file_of rs) <= len b -> take (length (file_of rs)) b = file_of rs ->
  Open open_fine appends path (Some b) = (Some (file_of rs), inl (opened path appends rs)).
Proof.
  intros Hm Hs Hl Ht. unfold Open. cbn [oi_open oi_syncdir oi_stat oi_read oi_stat2 oi_truncate oi_sync open_fine is_set negb andb default].
  unfold id. rewrite andb_false_r, Hs. rewrite !andb_false_r, Hm, to_nat_len, Ht.
  destruct (Z.ltb_spec (len (file_of rs)) (len b)) as [|Hge]; [done|].
  assert (b = file_of rs) as ->; [|done].
  rewrite <- Ht. symmetry. apply take_ge. unfold len in *. lia.
Qed.

Lemma recover path appends rs r t : Forall writable rs -> stray_member 0 rs = None -> writable r -> torn r t ->
  Open open_fine appends path (Some (file_of rs ++ t)) = (Some (file_of rs), inl (opened path appends rs)).
Proof.
  intros W Hm Wr T. apply Open_scan; [done| | |].
  - apply scan_file; [done|]. intros f off. by eapply torn_scan.
  - rewrite len_app. pose proof (len_nonneg t). lia.
  - apply take_app_length.
Qed.

Lemma reopen path appends rs : Forall writable rs -> stray_member 0 rs = None ->
  Open open_fine appends path (Some (file_of rs)) = (Some (file_of rs), inl (opened path appends rs)).
Proof.
  intros W Hm. apply Open_scan; [done| |done|apply firstn_all].
  rewrite <- (app_nil_r (file_of rs)) at 1. apply scan_file; [done|]. by intros [] off.
Qed.

(** * Damage *)

Lemma get_be4_inj a b : length a = 4%nat -> length b = 4%nat -> Forall is_byte a -> Forall is_byte b -> get_be a = get_be b -> a = b.
Proof.
  intros La Lb Ha Hb. destruct a as [|a1 [|a2 [|a3 [|a4 []]]]]; try done. destruct b as [|b1 [|b2 [|b3 [|b4 []]]]]; try done.
  repeat match goal with H : Forall _ (_ :: _) |- _ => apply Forall_cons in H as [? H] end. unfold is_byte in *.
  unfold get_be. cbn [foldl]. intros E. assert (a1 = b1 /\ a2 = b2 /\ a3 = b3 /\ a4 = b4) as (-> & -> & -> & ->) by lia. done.
Qed.

(** A frame whose checksum does not match, with more data behind it. *)
Lemma scan_mismatch f off c q n t : length c = 4%nat -> 0 < n <= maxRecordBytes -> len q = n -> t <> [] ->
  get_be c <> checksum q ->
  scan_from (S f) off (put_be32 n ++ c ++ q ++ t) = inr (corrupt_at "checksum mismatch" off).
Proof.
  intros Lc Hn Hq Ht Hc. set (b := put_be32 n ++ c ++ q ++ t).
  assert (0 < len t) by (destruct t; [done|rewrite len_cons; pose proof (len_nonneg t); lia]).
  assert (Lb : len b = 8 + n + len t).
  { unfold b. rewrite !len_app. unfold len in *. rewrite put_be32_length, Lc. lia. }
  rewrite scan_step by (unfold len in *; lia). unfold headerBytes. rewrite Lb.
  destruct (Z.ltb_spec (8 + n + len t) 8); [lia|]. cbv zeta.
  assert (E1 : get_be (take 4 b) = n).
  { unfold b. rewrite take_app_length' by done. apply get_put_be32. unfold in_u32. unfold maxRecordBytes, MaxValueBytes in Hn. lia. }
  assert (E2 : take 4 (drop 4 b) = c) by (unfold b; rewrite drop_app_length' by done; by apply take_app_length').
  assert (E3 : drop 8 b = q ++ t).
  { unfold b. rewrite app_assoc. apply drop_app_length'. rewrite length_app, put_be32_length, Lc. done. }
  rewrite E1, E2, E3. destruct (Z.eqb_spec n 0); [lia|]. destruct (Z.ltb_spec maxRecordBytes n); [lia|].
  destruct (Z.ltb_spec (8 + n + len t) (8 + n)); [lia|]. cbn [orb]. rewrite <- Hq, to_nat_len, take_app_length.
  destruct (Z.eqb_spec (checksum q) (get_be c)); [done|]. cbn [negb].
  destruct (Z.eqb_spec (8 + len q) (8 + len q + len t)); [lia|done].
Qed.

(** A damaged record in the middle of a file. *)
Lemma scan_damaged rs c q n t : Forall writable rs -> length c = 4%nat -> 0 < n <= maxRecordBytes -> len q = n -> t <> [] ->
  get_be c <> checksum q ->
  scan (file_of rs ++ put_be32 n ++ c ++ q ++ t) = inr (corrupt_at "checksum mismatch" (len (file_of rs))).
Proof.
  intros W Lc Hn Hq Ht Hc. unfold scan.
  destruct (scan_records rs (put_be32 n ++ c ++ q ++ t) (length (file_of rs ++ put_be32 n ++ c ++ q ++ t)) 0 W) as (f' & Hf & ->).
  { rewrite length_app. lia. }
  rewrite !length_app, put_be32_length in Hf. destruct f' as [|f']; [lia|]. by rewrite scan_mismatch.
Qed.

Lemma Open_error io appends path b err : oi_open io = true -> oi_stat io = true -> oi_read io = true -> scan b = inr err ->
  Open io appends path (Some b) = (Some b, inr err).
Proof.
  intros H1 H2 H3 H4. unfold Open. cbn [is_set negb andb default]. unfold id. by rewrite H1, H2, H3, H4, andb_false_r.
Qed.

(** One byte of a payload or of a stored checksum changed. *)
Lemma one_byte_mismatch p i y : Forall is_byte p -> is_byte y -> (4 <= i < length (frame p))%nat -> frame p !! i <> Some y ->
  exists c q, <[i := y]> (frame p) = put_be32 (len p) ++ c ++ q /\ length c = 4%nat /\ length q = length p /\ get_be c <> checksum q.
Proof.
  intros Hp Hy Hi Hne. unfold frame in *. rewrite insert_app_r_alt in * by (rewrite put_be32_length; lia).
  rewrite lookup_app_r in Hne by (rewrite put_be32_length; lia). rewrite put_be32_length in *.
  rewrite !length_app, !put_be32_length in Hi.
  destruct (decide (i < 8)%nat) as [H8|H8].
  - rewrite insert_app_l by (rewrite put_be32_length; lia). rewrite lookup_app_l in Hne by (rewrite put_be32_length; lia).
    eexists _, p. split; [done|]. rewrite length_insert. split; [done|]. split; [done|]. intros E.
    assert (E2 : <[(i - 4)%nat := y]> (put_be32 (checksum p)) = put_be32 (checksum p)).
    { apply get_be4_inj; [by rewrite length_insert|done| |apply put_be32_bytes|].
      - apply Forall_insert; [apply put_be32_bytes|done].
      - by rewrite E, get_put_be32 by by apply checksum_range. }
    apply Hne. rewrite <- E2. apply list_lookup_insert_eq. rewrite put_be32_length. lia.
  - rewrite insert_app_r_alt by (rewrite put_be32_length; lia). rewrite lookup_app_r in Hne by (rewrite put_be32_length; lia).
    rewrite put_be32_length in *. set (j := (i - 4 - 4)%nat) in *.
    eexists _, _. split; [done|]. rewrite length_insert. split; [done|]. split; [done|].
    rewrite get_put_be32 by by apply checksum_range.
    destruct (lookup_lt_is_Some_2 p j) as [x Hx]; [unfold j; lia|].
    rewrite (insert_take_drop p j y) by (unfold j; lia). rewrite <- (take_drop_middle p j x Hx) at 1.
    apply checksum_one_byte; [by rewrite take_drop_middle|done|]. intros ->. by apply Hne.
Qed.

(** Corruption is refused: change one byte of the payload or of the stored
    checksum of any record that is followed by another, and [Open] returns
    [ErrCorrupt] with the offset of that record and leaves the file as it is,
    whatever the record holds and whatever the byte becomes. *)
Theorem wal_damage_refused (rs rs' : list record) (r : record) (i : nat) (y : Z) path appends :
  Forall writable rs -> writable r -> rs' <> [] -> is_byte y ->
  (4 <= i < length (frame (payload r)))%nat -> frame (payload r) !! i <> Some y ->
  let damaged := file_of rs ++ <[i := y]> (frame (payload r)) ++ file_of rs' in
  Open open_fine appends path (Some damaged) =
    (Some damaged, inr (ErrCorrupt +:+ ": checksum mismatch at offset " +:+ itoa (len (file_of rs)))).
Proof.
  intros W Wr Hne Hy Hi Hd damaged. apply Open_error; [done..|].
  pose proof (writable_payload r Wr) as (Hp & Hl & _ & _).
  destruct (one_byte_mismatch (payload r) i y Hp Hy Hi Hd) as (c & q & E & Lc & Lq & Hc).
  unfold damaged. rewrite E, <- !app_assoc. apply scan_damaged; try done.
  - unfold len. by rewrite Lq.
  - destruct rs' as [|r' rs']; [done|]. change (file_of (r' :: rs')) with (frame (payload r') ++ file_of rs').
    intros H%(f_equal length). pose proof (frame_length (payload r')) as FL. unfold headerBytes, len in FL.
    rewrite length_app in H. simpl in H. lia.
Qed.

(** A length that reaches beyond the file, or the limit, is taken for a torn
    tail wherever it stands. *)
Lemma scan_long f off h t : length h = 4%nat -> Forall is_byte h -> (4 <= length t)%nat -> get_be h <> 0 ->
  maxRecordBytes < get_be h \/ len t < 4 + get_be h -> scan_from f off (h ++ t) = inl ([], off).
Proof.
  intros Lh Hb Lt H0 Hl. destruct f as [|f]; [done|]. rewrite scan_step by (rewrite length_app; lia). unfold headerBytes.
  destruct (Z.ltb_spec (len (h ++ t)) 8); [done|]. cbv zeta. rewrite take_app_length' by done.
  destruct (Z.eqb_spec (get_be h) 0); [done|].
  replace ((maxRecordBytes <? get_be h) || (len (h ++ t) <? 8 + get_be h)) with true; [done|].
  symmetry. rewrite len_app. unfold len at 1. rewrite Lh. apply orb_true_iff. rewrite !Z.ltb_lt. lia.
Qed.

(** Damage to a length is not refused: when the length of a record in the
    middle of the file becomes one that exceeds the limit or the rest of the
    file, [Open] takes that record for a torn tail, succeeds, and cuts off it
    and every record behind it, promises and accepted values included. *)
Theorem wal_length_damage_drops (rs rs' : list record) (r : record) (h : bytes) path appends :
  Forall writable rs -> stray_member 0 rs = None -> length h = 4%nat -> Forall is_byte h -> get_be h <> 0 ->
  maxRecordBytes < get_be h \/ len (frame (payload r) ++ file_of rs') < headerBytes + get_be h ->
  Open open_fine appends path (Some (file_of rs ++ h ++ drop 4 (frame (payload r)) ++ file_of rs')) =
    (Some (file_of rs), inl (opened path appends rs)).
Proof.
  intros W Hm Lh Hb H0 Hl. apply Open_scan; [done| | |].
  - apply scan_file; [done|]. intros f off. pose proof (frame_length (payload r)) as FL. unfold headerBytes, len in FL.
    apply scan_long; [done|done| |done|].
    + rewrite length_app, length_drop. lia.
    + rewrite len_app in *. unfold headerBytes, len in *. rewrite length_drop. lia.
  - rewrite len_app. pose proof (len_nonneg (h ++ drop 4 (frame (payload r)) ++ file_of rs')). lia.
  - apply take_app_length.
Qed.

(** * The Store interface *)

(** What Go's types let a Save call be given. *)
Definition ballot_ok (b : Ballot) : Prop := in_u64 (bal_round b) /\ in_u32 (bal_node b).
Definition saved_fits (x : Saved) : Prop :=
  match x with
  | SPromised b => ballot_ok b
  | SMaxRound r => in_u64 r
  | SAccepted pv => ballot_ok (pv_ballot pv) /\ in_u64 (pv_slot pv)
  | SChosen e => in_u64 (en_slot e) /\ ballot_ok (en_ballot e)
  end.

#[export] Instance in_u64_dec z : Decision (in_u64 z).
Proof. unfold in_u64. apply _. Defined.
#[export] Instance in_u32_dec z : Decision (in_u32 z).
Proof. unfold in_u32. apply _. Defined.
#[export] Instance saved_fits_dec x : Decision (saved_fits x).
Proof. destruct x; unfold saved_fits, ballot_ok; apply _. Defined.

Lemma saved_record_fits x : saved_fits x -> fits record_codec (saved_record x) /\ rec_fields (saved_record x) = 1.
Proof. destruct x; cbn; unfold ballot_ok, in_u64, in_u32; intuition. Qed.

(** What the file holds: the records the scan finds, replayed. *)
Definition file_contents (w : File) : MemStore :=
  match scan (f_disk w) with inl (rs, _) => replay rs | inr _ => NewMemStore end.

(** The records [rs] are in the file, and behind them, once a write has failed,
    possibly the torn rest of one. *)
Record file_at (w : File) (rs : list record) : Prop := {
  fa_writable : Forall writable rs;
  fa_member_first : stray_member 0 rs = None;
  fa_member : f_member w = first_member rs \/ f_err w <> None;
  fa_disk : exists t, f_disk w = file_of rs ++ t /\ (t = [] \/ f_err w <> None /\ exists r, writable r /\ torn r t);
  fa_size : f_err w = None -> f_size w = len (file_of rs);
}.
Definition file_ok (w : File) : Prop := exists rs, file_at w rs.

Lemma file_at_contents w rs : file_at w rs -> file_contents w = replay rs.
Proof.
  intros [W _ _ (t & E & T) _]. unfold file_contents. rewrite E, scan_file; [done..|]. intros f off.
  destruct T as [->|(_ & r & Wr & T)]; [by destruct f|by eapply torn_scan].
Qed.

Lemma replay_snoc rs r : replay (rs ++ [r]) = replay_rec (replay rs) r.
Proof. unfold replay. by rewrite foldl_app. Qed.

Lemma replay_saved s x : replay_rec s (saved_record x) = save_rec s x.
Proof. by destruct x. Qed.

Lemma stray_snoc i rs r : rec_membership r = None \/ (i = 0 /\ rs = []) -> stray_member i rs = None -> stray_member i (rs ++ [r]) = None.
Proof.
  intros Hr. revert i Hr. induction rs as [|r' rs IH]; intros i Hr H; cbn in *.
  - destruct Hr as [-> |[-> _]]; [done|]. by rewrite andb_false_r.
  - destruct (is_set (rec_membership r') && negb (i =? 0)); [done|]. apply IH; [|done]. destruct Hr as [|[_ [=]]]; by left.
Qed.

Lemma write_at_end disk b : write_at disk (len disk) b = disk ++ b.
Proof. unfold write_at. rewrite to_nat_len, firstn_all, drop_ge by lia. by rewrite app_nil_r. Qed.

(** How [appendLocked] ends on a file that holds [rs]: with the record, without
    a change, or poisoned, with or without the record. *)
Inductive appended (w : File) (rs : list record) (r : record) : File -> option error -> Prop :=
| ap_done w' : f_disk w' = file_of (rs ++ [r]) -> f_size w' = len (file_of (rs ++ [r])) -> f_err w' = None ->
    f_member w' = f_member w -> f_open w' = true -> writable r -> appended w rs r w' None
| ap_refused err : appended w rs r w (Some err)
| ap_lost w' t err : f_disk w' = file_of rs ++ t -> t = [] \/ torn r t -> f_err w' = Some err -> f_member w' = f_member w ->
    writable r -> appended w rs r w' (Some err)
| ap_kept w' err : f_disk w' = file_of (rs ++ [r]) -> f_err w' = Some err -> f_member w' = f_member w ->
    writable r -> appended w rs r w' (Some err).

Lemma append_spec w rs r w' err : f_err w = None -> f_disk w = file_of rs -> f_size w = len (file_of rs) ->
  fits record_codec r -> rec_fields r = 1 -> appendLocked w r = (w', err) -> appended w rs r w' err.
Proof.
  intros He Hd Hs Hf H1. unfold appendLocked. rewrite He.
  destruct (f_open w) eqn:Ho; cbn [negb]; [|intros [= <- <-]; apply ap_refused]. fold (payload r).
  destruct (Z.ltb_spec maxRecordBytes (len (payload r))) as [|Hl]; [intros [= <- <-]; apply ap_refused|].
  assert (Wr : writable r) by done.
  assert (En : f_disk (next_io w).2 = file_of rs /\ f_size (next_io w).2 = len (file_of rs) /\ f_err (next_io w).2 = None
    /\ f_member (next_io w).2 = f_member w /\ f_open (next_io w).2 = true).
  { unfold next_io. by destruct (f_io w). }
  destruct (next_io w) as [io w1]. cbn [snd] in En. destruct En as (Hd1 & Hs1 & He1 & Hm1 & Ho1).
  rewrite Hd1, Hs1. destruct (io_written io) as [k|].
  - rewrite write_at_end. destruct (io_truncated io).
    { intros [= <- <-]. apply (ap_lost _ _ _ _ []); try done; [|by left].
      cbn. by rewrite to_nat_len, take_app_length, app_nil_r. }
    intros [= <- <-]. destruct (decide (k < length (frame (payload r)))%nat) as [Hk|Hk].
    + apply (ap_lost _ _ _ _ (take k (frame (payload r)))); try done. right. by constructor.
    + apply ap_kept; try done. etrans; [|symmetry; apply file_of_app]. apply (f_equal (app (file_of rs))). apply take_ge. lia.
  - rewrite write_at_end, <- file_of_app. destruct (io_synced io); cbn [negb].
    + intros [= <- <-]. apply ap_done; try done. etrans; [|symmetry; by rewrite file_of_app, len_app].
      by rewrite <- Hs1.
    + intros [= <- <-]. by apply ap_kept.
Qed.

(** [Save] on a file in order. *)
Lemma Save_spec w x w' err : file_ok w -> saved_fits x -> Save w x = (w', err) ->
  file_ok w' /\ match err with
                | None => file_contents w' = save_rec (file_contents w) x
                | Some _ => file_contents w' = file_contents w \/ file_contents w' = save_rec (file_contents w) x
                end.
Proof.
  intros [rs A] Hx E. destruct (saved_record_fits x Hx) as [Hf H1]. rewrite (file_at_contents w rs A).
  assert (Hm : rec_membership (saved_record x) = None) by by destruct x.
  destruct (f_err w) as [e|] eqn:He.
  { unfold Save, appendLocked in E. rewrite He in E. injection E as <- <-. split; [by exists rs|]. left. by apply file_at_contents. }
  pose proof A as [W St Mb (t & Hd & T) Hs]. destruct T as [->|[? _]]; [|done]. rewrite app_nil_r in Hd.
  destruct Mb as [Mb|]; [|done].
  apply (append_spec w rs) in E; [|by auto..].
  assert (K : forall w', writable (saved_record x) -> f_disk w' = file_of (rs ++ [saved_record x]) ->
    f_member w' = first_member (rs ++ [saved_record x]) \/ f_err w' <> None ->
    (f_err w' = None -> f_size w' = len (file_of (rs ++ [saved_record x]))) -> file_at w' (rs ++ [saved_record x])).
  { intros w1 Wx D Mb1 S1. split; [|by apply stray_snoc; [left|]|done|exists []; rewrite app_nil_r; auto|done].
    apply Forall_app. auto. }
  assert (C : replay (rs ++ [saved_record x]) = save_rec (replay rs) x) by by rewrite replay_snoc, replay_saved.
  destruct E as [w1 D S1 E1 M1 _ Wx|err|w1 t err D T E1 M1 Wx|w1 err D E1 M1 Wx].
  - assert (A1 : file_at w1 (rs ++ [saved_record x])).
    { apply K; [done..| |done]. left. rewrite M1, Mb. destruct rs; [exact (eq_sym Hm)|done]. }
    split; [by eexists|]. by rewrite (file_at_contents _ _ A1).
  - split; [by exists rs|]. left. by apply file_at_contents.
  - assert (A1 : file_at w1 rs).
    { split; [done|done|right; by rewrite E1| |by rewrite E1]. exists t. split; [done|]. destruct T as [T|T]; [by left|right].
      rewrite E1. eauto. }
    split; [by eexists|]. left. by apply file_at_contents.
  - assert (A1 : file_at w1 (rs ++ [saved_record x])) by (apply K; [done..|right; by rewrite E1|by rewrite E1]).
    split; [by eexists|]. right. by rewrite (file_at_contents _ _ A1).
Qed.

(** A file in order is a store. *)
Definition Log : Type := { w : File | file_ok w }.

(** A Save call is only ever given values of Go's types. *)
Definition log_save (l : Log) (x : Saved) : Log * option error :=
  match decide (saved_fits x) with
  | left H => (exist _ (Save (proj1_sig l) x).1 (proj1 (Save_spec _ x _ _ (proj2_sig l) H (surjective_pairing _))),
               (Save (proj1_sig l) x).2)
  | right _ => (l, Some "wal: not a value of the field's type")
  end.

#[export, refine] Instance wal_Store : Store Log := {|
  contents l := file_contents (proj1_sig l);
  store_load l := File_Load (proj1_sig l);
  store_save := log_save;
|}.
Proof.
  - intros [w H] d. cbn. unfold File_Load, file_contents. destruct (f_open w); [|done]. cbn [negb].
    destruct (f_err w); [done|]. destruct (scan (f_disk w)) as [[rs v]|]; [|done]. destruct (negb _); [done|]. by intros [= <-].
  - intros [w H] x l'. unfold log_save. destruct (decide _) as [Hx|]; [|done]. intros [= <- E]. cbn.
    destruct (Save_spec w x _ _ H Hx (surjective_pairing _)) as [_ S]. by rewrite E in S.
  - intros [w H] x l' err. unfold log_save. destruct (decide _) as [Hx|]; [|intros [= <- _]; by left]. intros [= <- E]. cbn.
    destruct (Save_spec w x _ _ H Hx (surjective_pairing _)) as [_ S]. by rewrite E in S.
Defined.

(** * Crashes and restarts *)

(** A run of Save calls that all succeed. *)
Inductive saves : File -> list Saved -> File -> Prop :=
| saves_nil w : saves w [] w
| saves_cons w x w1 xs w2 : saved_fits x -> Save w x = (w1, None) -> saves w1 xs w2 -> saves w (x :: xs) w2.

(** A file whose writes all succeeded. *)
Definition clean (w : File) (rs : list record) : Prop := file_at w rs /\ f_err w = None.

Lemma clean_disk w rs : clean w rs -> f_disk w = file_of rs /\ f_size w = len (file_of rs) /\ f_member w = first_member rs.
Proof.
  intros [[_ _ M (t & D & T) S] E]. destruct T as [->|[? _]]; [|done]. rewrite app_nil_r in D.
  destruct M as [M|]; [|done]. split_and!; [done|by apply S|done].
Qed.

Lemma append_clean w rs r w' : clean w rs -> fits record_codec r -> rec_fields r = 1 ->
  rec_membership r = None \/ rs = [] -> appendLocked w r = (w', None) ->
  writable r /\ f_disk w' = file_of (rs ++ [r]) /\ f_member w' = f_member w /\
  forall m, m = first_member (rs ++ [r]) -> clean (w' <| f_member := m |>) (rs ++ [r]).
Proof.
  intros C Hf H1 Hr E. pose proof C as [A He]. destruct (clean_disk w rs C) as (D & S & M).
  apply (append_spec w rs) in E; [|done..].
  inversion E as [w1 D1 S1 E1 M1 O1 Wr Ew| | |]; subst w1.
  split_and!; [done..|]. intros m ->. destruct A as [W St _ _ _]. split; [|exact E1]. split.
  - apply Forall_app. auto.
  - apply stray_snoc; [|done]. destruct Hr as [Hr| ->]; auto.
  - by left.
  - exists []. rewrite app_nil_r. split; [exact D1|by left].
  - intros _. exact S1.
Qed.

Lemma assign_member w : w <| f_member := f_member w |> = w.
Proof. by destruct w. Qed.

Lemma first_member_snoc rs r : rec_membership r = None -> first_member (rs ++ [r]) = first_member rs.
Proof. by destruct rs. Qed.

Lemma saves_clean w xs w' rs : clean w rs -> saves w xs w' ->
  clean w' (rs ++ map saved_record xs) /\ f_member w' = f_member w.
Proof.
  intros C S. revert rs C. induction S as [w|w x w1 xs w2 Hx E _ IH]; intros rs C.
  { cbn. by rewrite app_nil_r. }
  destruct (saved_record_fits x Hx) as [Hf H1]. assert (Hm : rec_membership (saved_record x) = None) by by destruct x.
  destruct (clean_disk w rs C) as (_ & _ & M).
  destruct (append_clean w rs _ w1 C Hf H1 (or_introl Hm) E) as (_ & _ & M1 & C1).
  specialize (C1 (f_member w1)). rewrite assign_member in C1.
  destruct (IH (rs ++ [saved_record x])) as [C2 M2]. { apply C1. by rewrite M1, M, first_member_snoc. }
  split; [|by rewrite M2]. cbn [map]. by rewrite <- app_assoc in C2.
Qed.

Lemma replay_saves rs xs : replay (rs ++ map saved_record xs) = foldl save_rec (replay rs) xs.
Proof.
  revert rs. induction xs as [|x xs IH]; intros rs; cbn [map foldl]; [by rewrite app_nil_r|].
  change (rs ++ saved_record x :: map saved_record xs) with (rs ++ [saved_record x] ++ map saved_record xs).
  by rewrite app_assoc, IH, replay_snoc, replay_saved.
Qed.

Lemma load_opened path appends rs : Forall writable rs -> File_Load (opened path appends rs) = inl (Load (replay rs)).
Proof.
  intros W. unfold File_Load, opened. cbn [f_open f_err f_disk f_size negb].
  rewrite <- (app_nil_r (file_of rs)) at 1. rewrite (scan_file rs []) by (done || by intros []). by rewrite Z.eqb_refl.
Qed.

(** C32. A crash loses at most the record being written: after any Save calls
    that succeeded, a crash that leaves behind them a cut, zeroed or garbled
    frame of one more record, or nothing, opens again, with the torn bytes cut
    off, the same membership, and a Load of exactly the values saved. *)
Theorem wal_recovers (w w' : File) (xs : list Saved) (rs : list record) (r : record) (t : bytes) path appends :
  clean w rs -> saves w xs w' -> writable r -> torn r t ->
  exists w2, Open open_fine appends path (Some (f_disk w' ++ t)) = (Some (f_disk w'), inl w2) /\
    File_Load w2 = inl (Load (foldl save_rec (file_contents w) xs)) /\
    File_Membership w2 = File_Membership w /\ clean w2 (rs ++ map saved_record xs).
Proof.
  intros C S Wr T. destruct (saves_clean w xs w' rs C S) as [C' M]. destruct (clean_disk _ _ C') as (D & _ & M').
  pose proof (fa_writable _ _ (proj1 C')) as W. pose proof (fa_member_first _ _ (proj1 C')) as St.
  exists (opened path appends (rs ++ map saved_record xs)). rewrite D. split_and!.
  - by apply (recover _ _ _ r).
  - rewrite (file_at_contents w rs (proj1 C)), <- replay_saves. by apply load_opened.
  - unfold File_Membership. by rewrite <- M, M'.
  - split; [|done]. split; [done|done|by left| |done]. exists []. rewrite app_nil_r. split; [done|by left].
Qed.

(** ** Membership *)

Lemma ltb_sort_eq (l k : list Z) : stable_sort Z.ltb l = stable_sort Z.ltb k <-> l ≡ₚ k.
Proof.
  split; intros H.
  - by rewrite <- (stable_sort_Permutation Z.ltb l), H, stable_sort_Permutation.
  - assert (As : forall a b : Z, (a <? b) = true -> (b <? a) = false) by (intros; b2p; lia).
    assert (Tr : forall a b c : Z, sort_le Z.ltb a b -> sort_le Z.ltb b c -> sort_le Z.ltb a c).
    { unfold sort_le. intros; b2p; lia. }
    apply (sorted_unique Z.ltb); [|by apply stable_sort_sorted..|].
    + unfold sort_le. intros; b2p; lia.
    + by rewrite !stable_sort_Permutation.
Qed.

Lemma Open_fresh path appends : Open open_fine appends path None = (Some [], inl (opened path appends [])).
Proof. done. Qed.

Lemma membership_record_fits m : in_u32 (mb_self m) -> Forall in_u32 (mb_peers m) -> fits record_codec (membership_record m).
Proof. intros Hs Hp. by refine (conj (conj Hs (conj Hp I)) (conj I (conj I (conj I (conj I I))))). Qed.

Lemma Bind_empty path appends self peers w : in_u32 self -> Forall in_u32 peers ->
  Bind (opened path appends []) self peers = (w, None) ->
  clean w [membership_record (mkMembership self (stable_sort Z.ltb peers))].
Proof.
  intros Hs Hp E. set (want := mkMembership self (stable_sort Z.ltb peers)) in *.
  unfold Bind in E. cbn [opened first_member f_member f_size file_of map concat] in E. change (0 <? len []) with false in E.
  cbv iota zeta in E. destruct (appendLocked _ _) as [w1 [err|]] eqn:A; [done|]. injection E as <-.
  assert (C : clean (opened path appends []) []).
  { split; [|done]. split; [done|done|by left| |done]. exists []. split; [done|by left]. }
  apply (append_clean _ [] _ _ C) in A as (_ & _ & _ & K); [by apply K| |done|by right].
  apply membership_record_fits; [done|]. eapply Permutation_Forall; [symmetry; apply stable_sort_Permutation|exact Hp].
Qed.

(** [Bind] on a file that has a membership compares and changes nothing. *)
Lemma Bind_bound w m self peers : f_member w = Some m ->
  exists err, Bind w self peers = (w, err) /\ (err = None <-> self = mb_self m /\ stable_sort Z.ltb peers = mb_peers m).
Proof.
  intros E. unfold Bind. rewrite E. cbn [mb_self mb_peers].
  destruct (Z.eqb_spec (mb_self m) self) as [Es|Es]; cbn [negb orb]; [|eexists; split; [done|split; [done|intros [-> _]; done]]].
  destruct (bool_decide_reflect (mb_peers m = stable_sort Z.ltb peers)) as [Ep|Ep]; cbn [negb].
  - exists None. split; [done|]. split; [|done]. intros _. by rewrite Ep.
  - eexists. split; [done|]. split; [done|]. intros [_ H]. by rewrite H in Ep.
Qed.

(** A log stays with its replica: once a fresh file was bound to a node and
    a set of peers, after any successful Save calls, a crash and a reopening,
    [Bind] succeeds for the same node with the same peers in any order and for
    nothing else, and never changes the file. *)
Theorem wal_bound path appends appends' self peers w0 w1 xs w' r t :
  in_u32 self -> Forall in_u32 peers -> Open open_fine appends path None = (Some [], inl w0) ->
  Bind w0 self peers = (w1, None) -> saves w1 xs w' -> writable r -> torn r t ->
  exists w2, Open open_fine appends' path (Some (f_disk w' ++ t)) = (Some (f_disk w'), inl w2) /\
    forall self' peers', exists err, Bind w2 self' peers' = (w2, err) /\ (err = None <-> self' = self /\ peers' ≡ₚ peers).
Proof.
  intros Hs Hp O B S Wr T. rewrite Open_fresh in O. injection O as <-.
  pose proof (Bind_empty _ _ _ _ _ Hs Hp B) as C. destruct (saves_clean _ _ _ _ C S) as [C' _].
  destruct (clean_disk _ _ C') as (D & _ & _).
  eexists. rewrite D. split; [by apply (recover path appends' _ r); [apply C'..|done|done]|].
  intros self' peers'. edestruct Bind_bound as (err & -> & H); [reflexivity|]. exists err. split; [done|].
  rewrite H. cbn [mb_self mb_peers]. by rewrite ltb_sort_eq.
Qed.

(** * Concrete runs *)

Definition first_records : list record :=
  [membership_record (mkMembership 1 [1; 2; 3]); saved_record (SPromised (mkBallot 4 2))].
Definition last_record : record := saved_record (SAccepted (mkPValue (mkBallot 4 2) 9 "v")).

Lemma first_writable : Forall writable first_records.
Proof.
  apply Forall_cons. split; [|apply Forall_cons; split; [|done]]; (split; [|split; [done|by vm_compute]]).
  - apply membership_record_fits; [done|]. repeat constructor; done.
  - by apply saved_record_fits.
Qed.

Lemma last_writable : writable last_record.
Proof. split; [by apply saved_record_fits|split; [done|by vm_compute]]. Qed.

Lemma wal_damage_refused_witness :
  Open open_fine [] "1.wal" (Some (file_of first_records ++ <[20%nat := 0]> (frame (payload last_record)) ++ file_of [last_record])) =
    (Some (file_of first_records ++ <[20%nat := 0]> (frame (payload last_record)) ++ file_of [last_record]),
     inr (ErrCorrupt +:+ ": checksum mismatch at offset " +:+ itoa (len (file_of first_records)))).
Proof.
  apply (wal_damage_refused first_records [last_record] last_record 20 0 "1.wal" []);
    [exact first_writable|exact last_writable|done|unfold is_byte; lia|vm_compute; lia|by vm_compute].
Defined.

Lemma wal_length_damage_drops_witness :
  Open open_fine [] "1.wal" (Some (file_of first_records ++ [0; 0; 2; 0] ++ drop 4 (frame (payload last_record)) ++ file_of [last_record]))
    = (Some (file_of first_records), inl (opened "1.wal" [] first_records)).
Proof.
  apply (wal_length_damage_drops first_records [last_record] last_record [0; 0; 2; 0] "1.wal" []);
    [exact first_writable|done|done|repeat constructor; lia|done|right; by vm_compute].
Defined.

Definition bound_file : File := (Bind (opened "1.wal" [] []) 1 [3; 1; 2]).1.

Lemma bound_run : Bind (opened "1.wal" [] []) 1 [3; 1; 2] = (bound_file, None).
Proof. by vm_compute. Qed.

Lemma bound_clean : clean bound_file [membership_record (mkMembership 1 [1; 2; 3])].
Proof. refine (Bind_empty "1.wal" [] 1 [3; 1; 2] _ _ _ bound_run); [done|repeat constructor; done]. Qed.

Definition saved_values : list Saved := [SPromised (mkBallot 4 2); SAccepted (mkPValue (mkBallot 4 2) 9 "v")].
Definition saved_file : File := foldl (fun w x => (Save w x).1) bound_file saved_values.

Lemma saves_run : saves bound_file saved_values saved_file.
Proof.
  repeat (eapply saves_cons; [by vm_compute|by vm_compute|]). apply saves_nil.
Qed.

Lemma wal_recovers_witness : exists w2,
  Open open_fine [] "1.wal" (Some (f_disk saved_file ++ take 11 (frame (payload last_record)))) = (Some (f_disk saved_file), inl w2) /\
  File_Load w2 = inl (Load (foldl save_rec (file_contents bound_file) saved_values)) /\
  File_Membership w2 = File_Membership bound_file /\
  clean w2 ([membership_record (mkMembership 1 [1; 2; 3])] ++ map saved_record saved_values).
Proof.
  apply (wal_recovers bound_file saved_file saved_values _ last_record _ "1.wal" []);
    [exact bound_clean|exact saves_run|exact last_writable|apply torn_cut; vm_compute; lia].
Defined.

Lemma wal_bound_witness : exists w2,
  Open open_fine [] "1.wal" (Some (f_disk saved_file ++ repeat 0 5)) = (Some (f_disk saved_file), inl w2) /\
  forall self' peers', exists err, Bind w2 self' peers' = (w2, err) /\ (err = None <-> self' = 1 /\ peers' ≡ₚ [3; 1; 2]).
Proof.
  apply (wal_bound "1.wal" [] [] 1 [3; 1; 2] (opened "1.wal" [] []) bound_file saved_values saved_file last_record);
    [done|repeat constructor; done|apply Open_fresh|exact bound_run|exact saves_run|exact last_writable|apply torn_zeros].
Defined.
