(* ===== verification/LogSpec.v ===== *)
(** Multi-Paxos over a log, abstractly: what a node of the replicated log may
    do to its disk and say to the others, one small step at a time, with the
    guard each step needs.  Nothing here has clocks, timers, leases, queues or
    inline messages: those are the business of node.go, whose handlers are
    shown to be sequences of these steps in NodeSteps.v.

    The safety invariant of the steps is proved here and in LogInv.v, slot by
    slot, from the voting argument of Voting.v. *)

From stdpp Require Import functions.
From S2P Require Import Prelude GoStd Paxos Voting Store Replog.

(** * Nodes *)

(** What matters of a node: its disk, whether the process is alive, and the
    state of its candidacy.  [a_props] has the value and the acceptances of
    every slot in flight; [a_conflict] is set if a [Learn] ever contradicted a
    chosen entry; [a_known] has the entries the process holds in memory and
    [a_commit] its commit index. *)
Record ANode := mkANode {
  a_disk : MemStore;
  a_max : Z;
  a_live : bool;
  a_role : Role;
  a_ballot : Ballot;
  a_from : Slot;
  a_promises : gmap NodeID PromiseMsg;
  a_props : gmap Slot (Value * gset NodeID);
  a_conflict : bool;
  a_known : gmap Slot Entry;
  a_commit : Slot;
}.

#[export] Instance ANode_fields : Fields ANode := fun x =>
  mkANode (a_disk x) (a_max x) (a_live x) (a_role x) (a_ballot x) (a_from x) (a_promises x) (a_props x)
    (a_conflict x) (a_known x) (a_commit x).

(** Every message ever said, by its sender, and every vote that ever reached a
    disk, by its acceptor. *)
Abbreviation sent_t := (NodeID -> Message -> Prop) (only parsing).
Abbreviation votes_t := (NodeID -> PValue -> Prop) (only parsing).

Definition say (a : NodeID) (m : Message) (G : sent_t) : sent_t := fun c k => G c k \/ (c = a /\ k = m).
Definition vote (a : NodeID) (pv : PValue) (V : votes_t) : votes_t := fun c k => V c k \/ (c = a /\ k = pv).

(** Messages no safety argument depends on. *)
Definition chatter (m : Message) : bool :=
  match m with Nack _ _ _ _ | LearnRequest _ _ | Heartbeat _ _ _ | HeartbeatAck _ _ _ _ => true | _ => false end.

Definition is_accept (m : Message) : bool := match m with Accept _ _ _ => true | _ => false end.

(** What a promise for the slots from [f] on reports. *)
Definition accepted_from (m : gmap Slot PValue) (f : Slot) : list PValue :=
  slot_order pv_slot (filter (fun kv => f <= kv.1) m).

(** The reports for slot [s] among promises [ms]. *)
Definition reports_for (ms : list PromiseMsg) (s : Slot) : list PValue :=
  List.filter (fun pv => pv_slot pv =? s) (flat_map p_accepted ms).

(** * Steps *)

Record Local := mkLocal { l_node : ANode; l_sent : sent_t; l_votes : votes_t }.

Section Group.
Context (A : gset NodeID).

(** What may be proposed: the values of clients and the no-op. *)
Context (W : Value -> Prop).

Definition majority : Z := Quorum (Z.of_nat (size A)).

Inductive nstep (a : NodeID) : Local -> Local -> Prop :=
| s_fail x y G V : a_disk y = a_disk x -> a_live y = false -> (a_conflict y = true -> a_conflict x = true) ->
    a_known y = a_known x -> a_commit y = a_commit x ->
    nstep a (mkLocal x G V) (mkLocal y G V)
| s_down x y G V : a_disk y = a_disk x -> a_max y = a_max x -> a_live y = a_live x ->
    a_role y = Follower -> a_conflict y = a_conflict x -> a_known y = a_known x -> a_commit y = a_commit x ->
    nstep a (mkLocal x G V) (mkLocal y G V)
| s_drain x G V : nstep a (mkLocal x G V) (mkLocal (x <| a_conflict := false |>) G V)
| s_round x G V r : a_live x = true -> a_max x < r ->
    nstep a (mkLocal x G V) (mkLocal (x <| a_disk := SaveMaxRound (a_disk x) r |> <| a_max := r |>) G V)
| s_promise x G V b : Less (ms_promised (a_disk x)) b = true -> bal_round b <= a_max x ->
    nstep a (mkLocal x G V) (mkLocal (x <| a_disk := SavePromised (a_disk x) b |>) G V)
| s_elect x G V f : a_live x = true ->
    nstep a (mkLocal x G V)
      (mkLocal (x <| a_disk := SaveMaxRound (a_disk x) (a_max x + 1) |> <| a_max := a_max x + 1 |>
                  <| a_role := Candidate |> <| a_ballot := mkBallot (a_max x + 1) a |>
                  <| a_from := f |> <| a_promises := ∅ |>) G V)
| s_prepare x G V : a_live x = true -> a_role x = Candidate ->
    nstep a (mkLocal x G V) (mkLocal x (say a (Prepare (a_ballot x) (a_from x)) G) V)
| s_reply x G V l b f c : G l (Prepare b f) -> ms_promised (a_disk x) = b ->
    nstep a (mkLocal x G V)
      (mkLocal x (say a (Promise (mkPromiseMsg b (accepted_from (ms_accepted (a_disk x)) f) c)) G) V)
| s_accept x G V l b s v : G l (Accept b s v) -> ms_promised (a_disk x) = b ->
    nstep a (mkLocal x G V)
      (mkLocal (x <| a_disk := SaveAccepted (a_disk x) (mkPValue b s v) |>) G (vote a (mkPValue b s v) V))
| s_accepted x G V b s v : V a (mkPValue b s v) ->
    nstep a (mkLocal x G V) (mkLocal x (say a (Accepted b s) G) V)
| s_collect x G V c m : a_live x = true -> a_role x = Candidate -> c ∈ A -> G c (Promise m) ->
    p_ballot m = a_ballot x ->
    nstep a (mkLocal x G V) (mkLocal (x <| a_promises := <[c := m]> (a_promises x) |>) G V)
| s_lead x G V : a_live x = true -> a_role x = Candidate -> majority <= Z.of_nat (size (a_promises x)) ->
    nstep a (mkLocal x G V) (mkLocal (x <| a_role := Leader |> <| a_props := ∅ |>) G V)
| s_propose x G V s w ms : a_live x = true -> a_role x = Leader -> a_from x <= s ->
    (forall v, ~ G a (Accept (a_ballot x) s v)) -> ms ≡ₚ (map_to_list (a_promises x)).*2 -> W w ->
    let v := Choose (reports_for ms s) w in
    nstep a (mkLocal x G V)
      (mkLocal (x <| a_props := <[s := (v, ∅)]> (a_props x) |>) (say a (Accept (a_ballot x) s v) G) V)
| s_count x G V c s v acc : a_live x = true -> a_role x = Leader -> c ∈ A -> G c (Accepted (a_ballot x) s) ->
    a_props x !! s = Some (v, acc) ->
    nstep a (mkLocal x G V) (mkLocal (x <| a_props := <[s := (v, {[c]} ∪ acc)]> (a_props x) |>) G V)
| s_drop x G V s : nstep a (mkLocal x G V) (mkLocal (x <| a_props := delete s (a_props x) |>) G V)
| s_learn x G V e :
    ((exists l, G l (Learn (en_slot e) (en_ballot e) (en_value e))) \/
     (a_live x = true /\ a_role x = Leader /\ en_ballot e = a_ballot x /\
      exists acc, a_props x !! en_slot e = Some (en_value e, acc) /\ majority <= Z.of_nat (size acc))) ->
    nstep a (mkLocal x G V) (mkLocal (x <| a_disk := SaveChosen (a_disk x) e |>) G V)
| s_note x G V e c : ms_chosen (a_disk x) !! en_slot e = Some e -> a_commit x <= c ->
    (forall k, a_commit x < k <= c -> is_Some (<[en_slot e := e]> (a_known x) !! k)) ->
    nstep a (mkLocal x G V)
      (mkLocal (x <| a_known := <[en_slot e := e]> (a_known x) |> <| a_commit := c |>) G V)
| s_tell x G V s e : ms_chosen (a_disk x) !! s = Some e ->
    nstep a (mkLocal x G V) (mkLocal x (say a (Learn s (en_ballot e) (en_value e)) G) V)
| s_conflict x G V l s b v e : G l (Learn s b v) -> ms_chosen (a_disk x) !! s = Some e -> en_value e <> v ->
    nstep a (mkLocal x G V) (mkLocal (x <| a_conflict := true |>) G V)
| s_chatter x G V m : chatter m = true -> nstep a (mkLocal x G V) (mkLocal x (say a m G) V).

(** * The system *)

Record World := mkWorld { nodes : NodeID -> ANode; sent : sent_t; votes : votes_t }.

Definition set_local (w : World) (a : NodeID) (l : Local) : World :=
  mkWorld (<[a := l_node l]> (nodes w)) (l_sent l) (l_votes l).

Definition local_of (w : World) (a : NodeID) : Local := mkLocal (nodes w a) (sent w) (votes w).

(** A node restarted from its disk. *)
Definition restarted (x y : ANode) : Prop :=
  a_disk y = a_disk x /\ a_live y = true /\ a_role y = Follower /\ a_conflict y = false /\
  a_max y = Z.max (ms_max_round (a_disk x)) (bal_round (ms_promised (a_disk x))) /\
  a_known y = ms_chosen (a_disk x) /\ (forall k, 0 < k <= a_commit y -> is_Some (a_known y !! k)).

Inductive wstep (w : World) : World -> Prop :=
| w_local a l : a ∈ A -> nstep a (local_of w a) l -> wstep w (set_local w a l)
| w_restart a y : a ∈ A -> a_live (nodes w a) = false -> restarted (nodes w a) y ->
    wstep w (set_local w a (mkLocal y (sent w) (votes w))).

(** A node before its first start. *)
Definition blank : ANode := mkANode NewMemStore 0 false Follower zero_ballot 0 ∅ ∅ false ∅ 0.
Definition w_init : World := mkWorld (fun _ => blank) (fun _ _ => False) (fun _ _ => False).

(** * The invariant *)

Definition voted_in (V : votes_t) (s : Slot) (a : NodeID) (b : Ballot) (v : Value) : Prop := V a (mkPValue b s v).
Definition proposed_in (G : sent_t) (s : Slot) (b : Ballot) (v : Value) : Prop := exists l, G l (Accept b s v).
Definition chosen_in (V : votes_t) (s : Slot) : Ballot -> Value -> Prop := chosen_at A (voted_in V s).

(** The report for slot [s] in a promise. *)
Definition slot_report (m : PromiseMsg) (s : Slot) : list PValue :=
  List.filter (fun pv => pv_slot pv =? s) (p_accepted m).

(** A promise for ballot [b]: its promiser will vote no more below [b], and the
    report covers what it voted from slot [f] on. *)
Record promise_ok (P : NodeID -> Ballot) (G : sent_t) (V : votes_t) (c : NodeID) (m : PromiseMsg) (f : Slot) : Prop := {
  pm_promised : Less (P c) (p_ballot m) = false;
  pm_sent : forall pv, pv ∈ p_accepted m ->
    proposed_in G (pv_slot pv) (pv_ballot pv) (pv_value pv) /\ Less (p_ballot m) (pv_ballot pv) = false;
  pm_covers : forall s d w, f <= s -> voted_in V s c d w -> Less d (p_ballot m) = true ->
    exists pv, pv ∈ slot_report m s /\ Less (pv_ballot pv) d = false;
}.

Record node_ok (P : NodeID -> Ballot) (G : sent_t) (V : votes_t) (a : NodeID) (x : ANode) : Prop := {
  no_max : 0 <= ms_max_round (a_disk x) /\
    (a_live x = true -> ms_max_round (a_disk x) <= a_max x);
  no_prepare : forall b f, G a (Prepare b f) ->
    bal_node b = a /\ 1 <= bal_round b <= ms_max_round (a_disk x);
  no_accept : forall b s v, G a (Accept b s v) ->
    bal_node b = a /\ 1 <= bal_round b <= ms_max_round (a_disk x);
  no_from : forall b f f', G a (Prepare b f) -> G a (Prepare b f') -> f = f';
  no_ballot : a_live x = true -> a_role x <> Follower ->
    bal_node (a_ballot x) = a /\ 1 <= bal_round (a_ballot x) <= ms_max_round (a_disk x) /\
    forall f, G a (Prepare (a_ballot x) f) -> f = a_from x;
  no_fresh : a_live x = true -> a_role x = Candidate -> forall s v, ~ G a (Accept (a_ballot x) s v);
  no_coll : a_live x = true -> a_role x <> Follower -> forall c m, a_promises x !! c = Some m ->
    c ∈ A /\ p_ballot m = a_ballot x /\ promise_ok P G V c m (a_from x) /\
    forall pv, pv ∈ p_accepted m -> Less (pv_ballot pv) (a_ballot x) = true;
  no_lead : a_live x = true -> a_role x = Leader -> majority <= Z.of_nat (size (a_promises x));
  no_props : a_live x = true -> a_role x = Leader -> forall s v acc, a_props x !! s = Some (v, acc) ->
    G a (Accept (a_ballot x) s v) /\ forall c, c ∈ acc -> c ∈ A /\ voted_in V s c (a_ballot x) v;
  no_disk : contents_ok (a_disk x);
  no_accepted : forall s pv, ms_accepted (a_disk x) !! s = Some pv -> V a pv;
  no_votes : forall pv, V a pv -> Less (ms_promised (a_disk x)) (pv_ballot pv) = false /\
    exists pv', ms_accepted (a_disk x) !! pv_slot pv = Some pv' /\ Less (pv_ballot pv') (pv_ballot pv) = false;
  no_chosen : forall s e, ms_chosen (a_disk x) !! s = Some e -> chosen_in V s (en_ballot e) (en_value e);
  no_conflict : a_conflict x = false;
  no_known : forall s e, a_known x !! s = Some e ->
    exists e', ms_chosen (a_disk x) !! s = Some e' /\ en_value e' = en_value e;
  no_commit : forall k, 0 < k <= a_commit x -> is_Some (a_known x !! k);
}.

Record says_ok (P : NodeID -> Ballot) (G : sent_t) (V : votes_t) : Prop := {
  so_vote : forall a s b v, voted_in V s a b v -> a ∈ A /\ proposed_in G s b v;
  so_wanted : forall s b v, proposed_in G s b v -> W v;
  so_one : forall s b v w, proposed_in G s b v -> proposed_in G s b w -> v = w;
  so_safe : forall s b v, proposed_in G s b v -> ballot_ok b /\ b <> zero_ballot /\
    safe_with A (voted_in V s) (proposed_in G s) P b v;
  so_promise : forall c m, G c (Promise m) -> exists l f, G l (Prepare (p_ballot m) f) /\ promise_ok P G V c m f;
  so_accepted : forall c b s, G c (Accepted b s) -> exists v, voted_in V s c b v;
  so_learn : forall c s b v, G c (Learn s b v) -> chosen_in V s b v;
}.

Definition disk_promise (w : World) (a : NodeID) : Ballot := ms_promised (a_disk (nodes w a)).

Record WInv (w : World) : Prop := {
  wi_nodes : forall a, node_ok (disk_promise w) (sent w) (votes w) a (nodes w a);
  wi_says : says_ok (disk_promise w) (sent w) (votes w);
}.

End Group.
