(* ===== verification/LogInv.v ===== *)
(** The steps of LogSpec.v keep its invariant, hence every two entries chosen
    for a slot agree. *)

From stdpp Require Import functions.
From S2P Require Import Prelude GoStd Paxos Voting Store Replog LogSpec.

Section Group.
Context (A : gset NodeID) (A_nonneg : forall a, a ∈ A -> 0 <= a) (W : Value -> Prop).
Implicit Types (P : NodeID -> Ballot) (G : NodeID -> Message -> Prop) (V : NodeID -> PValue -> Prop).

(** * Growth

    Promises rise, messages and votes accumulate, and a new vote is at or
    above the promise of its acceptor. *)

Record later P G V P' G' V' : Prop := {
  la_promised : forall c, Less (P' c) (P c) = false;
  la_sent : forall c m, G c m -> G' c m;
  la_votes : forall c pv, V c pv -> V' c pv;
  la_new : forall c pv, V' c pv -> V c pv \/ Less (pv_ballot pv) (P c) = false;
}.

Lemma proposed_later P G V P' G' V' s b v : later P G V P' G' V' -> proposed_in G s b v -> proposed_in G' s b v.
Proof. intros L [l H]. exists l. by apply (la_sent _ _ _ _ _ _ L). Qed.

Lemma chosen_later P G V P' G' V' s b v : later P G V P' G' V' -> chosen_in A V s b v -> chosen_in A V' s b v.
Proof. intros L (Q & HQ & H). exists Q. split; [done|]. intros a Ha. by apply (la_votes _ _ _ _ _ _ L), H. Qed.

Lemma promise_ok_later P G V P' G' V' c m f :
  later P G V P' G' V' -> promise_ok P G V c m f -> promise_ok P' G' V' c m f.
Proof.
  intros L [H1 H2 H3]. split.
  - pose proof (la_promised _ _ _ _ _ _ L c). ballots.
  - intros pv Hpv. destruct (H2 pv Hpv). split; [by eapply proposed_later|done].
  - intros s d w Hs Hv Hd. destruct (la_new _ _ _ _ _ _ L _ _ Hv) as [Ho|Hn]; [by eapply H3|]. simpl in Hn. ballots.
Qed.

(** A node that said and voted nothing new. *)
Lemma node_ok_later P G V P' G' V' a x :
  later P G V P' G' V' -> (forall m, G' a m -> G a m) -> (forall pv, V' a pv -> V a pv) ->
  node_ok A P G V a x -> node_ok A P' G' V' a x.
Proof.
  intros L HG HV []. split; eauto.
  - intros Hl Hr. destruct (no_ballot Hl Hr) as (? & ? & ?). eauto.
  - intros Hl Hr s v Hs. by eapply no_fresh, HG.
  - intros Hl Hr c m Hm. destruct (no_coll Hl Hr c m Hm) as (? & ? & ? & ?).
    split_and!; eauto using promise_ok_later.
  - intros Hl Hr s v acc Hp. destruct (no_props Hl Hr s v acc Hp) as [Hs Hacc].
    split; [by apply (la_sent _ _ _ _ _ _ L)|]. intros c Hc. destruct (Hacc c Hc). split; [done|].
    by apply (la_votes _ _ _ _ _ _ L).
  - intros s pv Hpv. by apply (la_votes _ _ _ _ _ _ L), (no_accepted s).
  - intros s e He. by eapply chosen_later, no_chosen.
Qed.

(** No new message; new votes are for proposed values. *)
Lemma says_ok_later P G V P' V' :
  later P G V P' G V' -> (forall c s b v, voted_in V' s c b v -> c ∈ A /\ proposed_in G s b v) ->
  says_ok A W P G V -> says_ok A W P' G V'.
Proof.
  intros L Hnew []. split; auto.
  - intros s b v Hp. destruct (so_safe s b v Hp) as (? & ? & Hs). split_and!; [done..|].
    eapply safe_with_mono; [..|exact Hs]; [apply (la_promised _ _ _ _ _ _ L)|done|].
    intros c d w Hw. by apply (la_new _ _ _ _ _ _ L) in Hw.
  - intros c m Hm. destruct (so_promise c m Hm) as (l & f & ? & ?). eauto using promise_ok_later.
  - intros c b s Hs. destruct (so_accepted c b s Hs) as [v Hv]. exists v. by apply (la_votes _ _ _ _ _ _ L).
  - intros c s b v Hc. by eapply chosen_later, so_learn.
Qed.

(** ** One more message *)

Lemma later_say P G V a m : later P G V P (say a m G) V.
Proof. split; auto with paxos. by left. Qed.

Lemma proposed_say a m G s b v : is_accept m = false -> proposed_in (say a m G) s b v <-> proposed_in G s b v.
Proof.
  intros Hm. split; intros [l H]; exists l; [|by left].
  destruct H as [H|[_ H]]; [done|]. by subst m.
Qed.

(** What the message itself has to satisfy. *)
Definition message_ok P G V (a : NodeID) (m : Message) : Prop :=
  match m with
  | Accept _ _ _ => False
  | Promise p => exists l f, G l (Prepare (p_ballot p) f) /\ promise_ok P G V a p f
  | Accepted b s => exists v, voted_in V s a b v
  | Learn s b v => chosen_in A V s b v
  | _ => True
  end.

Lemma says_ok_say P G V a m : message_ok P G V a m -> says_ok A W P G V -> says_ok A W P (say a m G) V.
Proof.
  intros Hm []. assert (Ha : is_accept m = false) by by destruct m.
  assert (Hp : forall s b v, proposed_in (say a m G) s b v <-> proposed_in G s b v) by (intros; by apply proposed_say).
  assert (L := later_say P G V a m). split.
  - intros c s b v Hv. destruct (so_vote c s b v Hv). by rewrite Hp.
  - intros s b v. rewrite Hp. apply so_wanted.
  - intros s b v w. rewrite !Hp. apply so_one.
  - intros s b v. rewrite Hp. intros Hs. destruct (so_safe s b v Hs) as (? & ? & Hsafe). split_and!; [done..|].
    eapply safe_with_mono; [..|exact Hsafe]; auto with paxos. intros. by apply Hp.
  - intros c p [Hc|[-> <-]]; [|simpl in Hm; rename Hm into Hc].
    + destruct (so_promise c p Hc) as (l & f & ? & ?). exists l, f. split; [by left|by eapply promise_ok_later].
    + destruct Hc as (l & f & ? & ?). exists l, f. split; [by left|by eapply promise_ok_later].
  - intros c b s [Hc|[-> <-]]; eauto.
  - intros c s b v [Hc|[-> <-]]; eauto.
Qed.

(** ** One node at a time *)

Lemma step_frame w a x G' V' :
  let w' := set_local w a (mkLocal x G' V') in
  WInv A W w -> later (disk_promise w) (sent w) (votes w) (disk_promise w') G' V' ->
  (forall c m, c <> a -> G' c m -> sent w c m) -> (forall c pv, c <> a -> V' c pv -> votes w c pv) ->
  node_ok A (disk_promise w') G' V' a x -> says_ok A W (disk_promise w') G' V' ->
  WInv A W w'.
Proof.
  intros w' [Hn Hs] L HG HV Hx Hs'. split; simpl; [|done].
  intros c. destruct (decide (a = c)) as [<-|Hne].
  - by rewrite fn_lookup_insert.
  - rewrite fn_lookup_insert_ne by done. eapply node_ok_later; [exact L|..|exact (Hn c)]; eauto.
Qed.

Lemma disk_promise_set w a l c :
  disk_promise (set_local w a l) c = if decide (a = c) then ms_promised (a_disk (l_node l)) else disk_promise w c.
Proof.
  unfold disk_promise. simpl. case_decide as E; [subst|]; by rewrite ?fn_lookup_insert, ?fn_lookup_insert_ne.
Qed.

Lemma later_promise w a x G V :
  Less (ms_promised (a_disk x)) (disk_promise w a) = false ->
  later (disk_promise w) G V (disk_promise (set_local w a (mkLocal x G V))) G V.
Proof.
  intros H. split; auto. intros c. rewrite disk_promise_set. case_decide as E; [by subst|apply Less_irrefl].
Qed.

(** * Every step keeps the invariant *)

(** A node that says nothing and votes nothing. *)
Lemma WInv_quiet w a x :
  WInv A W w -> Less (ms_promised (a_disk x)) (disk_promise w a) = false ->
  node_ok A (disk_promise w) (sent w) (votes w) a x ->
  WInv A W (set_local w a (mkLocal x (sent w) (votes w))).
Proof.
  intros I HP Hx. pose proof (later_promise w a x (sent w) (votes w) HP) as L.
  apply step_frame; auto; [by eapply node_ok_later|].
  eapply says_ok_later; [done| |apply I]. intros c s b v. apply (so_vote _ _ _ _ _ (wi_says _ _ _ I)).
Qed.

(** A node that says something else than [Prepare] and [Accept]. *)
Lemma node_ok_say P G V a x m :
  is_accept m = false -> (forall b f, m = Prepare b f -> False) ->
  node_ok A P G V a x -> node_ok A P (say a m G) V a x.
Proof.
  intros Hm Hp Hx. assert (L := later_say P G V a m). destruct Hx. split; auto.
  - intros b f [H|[_ <-]]; [eauto|by destruct (Hp b f)].
  - intros b s v [H|[_ <-]]; [eauto|done].
  - intros b f f' [H|[_ <-]] [H'|[_ E]]; try subst; eauto; exfalso; eauto.
  - intros Hl Hr. destruct (no_ballot Hl Hr) as (? & ? & ?). split; [done|split; [done|]].
    intros f [H'|[_ <-]]; [eauto|by destruct (Hp (a_ballot x) f)].
  - intros Hl Hr s v [H|[_ <-]]; [by eapply no_fresh|done].
  - intros Hl Hr c k Hk. destruct (no_coll Hl Hr c k Hk) as (? & ? & ? & ?). split_and!; eauto using promise_ok_later.
  - intros Hl Hr s v acc H. destruct (no_props Hl Hr s v acc H). split; [by left|done].
Qed.

Lemma set_local_id w a G V : forall c, (nodes (set_local w a (mkLocal (nodes w a) G V))) c = nodes w c.
Proof.
  intros c. simpl. destruct (decide (a = c)) as [<-|?]; by rewrite ?fn_lookup_insert, ?fn_lookup_insert_ne.
Qed.

Lemma later_same w a G V G' V' :
  later (disk_promise w) G V (disk_promise w) G' V' ->
  later (disk_promise w) G V (disk_promise (set_local w a (mkLocal (nodes w a) G' V'))) G' V'.
Proof.
  intros [H1 H2 H3 H4]. split; auto. intros c. unfold disk_promise at 1. rewrite set_local_id. apply H1.
Qed.

Lemma WInv_say w a m :
  WInv A W w -> message_ok (disk_promise w) (sent w) (votes w) a m ->
  node_ok A (disk_promise w) (say a m (sent w)) (votes w) a (nodes w a) ->
  WInv A W (set_local w a (mkLocal (nodes w a) (say a m (sent w)) (votes w))).
Proof.
  intros I Hm Hx. set (G' := say a m (sent w)).
  assert (L : later (disk_promise w) G' (votes w)
                (disk_promise (set_local w a (mkLocal (nodes w a) G' (votes w)))) G' (votes w)).
  { apply later_same. split; auto with paxos. }
  apply step_frame; auto.
  - apply later_same, later_say.
  - by intros c k Hc [?|[-> _]].
  - by eapply node_ok_later.
  - pose proof (says_ok_say _ _ _ _ _ Hm (wi_says _ _ _ I)) as S.
    eapply says_ok_later; [exact L| |exact S]. intros c s b v. apply (so_vote _ _ _ _ _ S).
Qed.

Lemma WInv_tell w a m :
  WInv A W w -> is_accept m = false -> (forall b f, m = Prepare b f -> False) ->
  message_ok (disk_promise w) (sent w) (votes w) a m ->
  WInv A W (set_local w a (mkLocal (nodes w a) (say a m (sent w)) (votes w))).
Proof. intros I H1 H2 Hm. apply WInv_say; auto. apply node_ok_say; auto. apply I. Qed.

(** ** Messages *)

Lemma WInv_prepare w a :
  WInv A W w -> a_live (nodes w a) = true -> a_role (nodes w a) = Candidate ->
  WInv A W (set_local w a (mkLocal (nodes w a)
    (say a (Prepare (a_ballot (nodes w a)) (a_from (nodes w a))) (sent w)) (votes w))).
Proof.
  intros I Hl Hr. apply WInv_say; [done..|]. pose proof (wi_nodes _ _ _ I a) as N.
  set (m := Prepare _ _). assert (L := later_say (disk_promise w) (sent w) (votes w) a m).
  destruct N. assert (Hnf : a_role (nodes w a) <> Follower) by by rewrite Hr.
  destruct (no_ballot Hl Hnf) as (B1 & B2 & B3).
  assert (Hm : forall b f, say a m (sent w) a (Prepare b f) ->
                 sent w a (Prepare b f) \/ (b = a_ballot (nodes w a) /\ f = a_from (nodes w a))).
  { intros b f [H|[_ E]]; [by left|right]. by injection E. }
  split; auto.
  - intros b f [H| [-> ->]]%Hm; eauto.
  - intros b s v [H|[_ ?]]; [eauto|done].
  - intros b f f' [H|[-> ->]]%Hm [H'|[E ->]]%Hm; try subst b; eauto; symmetry; eauto.
  - intros _ _. split; [done|split; [done|]]. intros f [H|[_ ->]]%Hm; eauto.
  - intros _ _ s v [H|[_ ?]]; [by eapply no_fresh|done].
  - intros _ _ c k Hk. destruct (no_coll Hl Hnf c k Hk) as (? & ? & ? & ?). split_and!; eauto using promise_ok_later.
  - intros _ Hr'. congruence.
Qed.

Lemma accepted_from_elem (m : gmap Slot PValue) f pv : keyed pv_slot m ->
  pv ∈ accepted_from m f <-> m !! pv_slot pv = Some pv /\ f <= pv_slot pv.
Proof.
  intros K. unfold accepted_from.
  assert (K' : keyed pv_slot (filter (fun kv : Slot * PValue => f <= kv.1) m)).
  { intros s x [H _]%map_lookup_filter_Some. by apply K. }
  rewrite (slot_order_elem pv_slot _ _ K'), map_lookup_filter_Some. done.
Qed.

Lemma slot_report_elem m s pv : pv ∈ slot_report m s <-> pv ∈ p_accepted m /\ pv_slot pv = s.
Proof. unfold slot_report. by rewrite !list_elem_of_In, filter_In, Z.eqb_eq. Qed.

Lemma WInv_reply w a l b f c :
  WInv A W w -> sent w l (Prepare b f) -> ms_promised (a_disk (nodes w a)) = b ->
  let m := mkPromiseMsg b (accepted_from (ms_accepted (a_disk (nodes w a))) f) c in
  WInv A W (set_local w a (mkLocal (nodes w a) (say a (Promise m) (sent w)) (votes w))).
Proof.
  intros I Hp Hb m. apply WInv_tell; [done..|]. exists l, f. split; [done|].
  destruct (wi_nodes _ _ _ I a). destruct no_disk as [K _]. split.
  - simpl. unfold disk_promise. rewrite Hb. apply Less_irrefl.
  - intros pv [Hpv _]%(accepted_from_elem _ _ _ K). simpl.
    pose proof (no_accepted _ _ Hpv) as Hv. split.
    + apply (so_vote _ _ _ _ _ (wi_says _ _ _ I) a). by destruct pv.
    + rewrite <- Hb. by apply no_votes.
  - intros s d v Hs Hv _. destruct (no_votes _ Hv) as (_ & pv & Hpv & Hle). simpl in *.
    exists pv. split; [|done]. rewrite slot_report_elem. simpl.
    pose proof (K _ _ Hpv) as E. split; [|done]. apply accepted_from_elem; [done|]. by rewrite E.
Qed.

(** ** Disk writes *)

Lemma WInv_promise w a b :
  WInv A W w -> Less (ms_promised (a_disk (nodes w a))) b = true -> bal_round b <= a_max (nodes w a) ->
  WInv A W (set_local w a (mkLocal (nodes w a <| a_disk := SavePromised (a_disk (nodes w a)) b |>) (sent w) (votes w))).
Proof.
  intros I Hb Hr. apply WInv_quiet; [done|by apply Less_asym|].
  destruct (wi_nodes _ _ _ I a). split; auto.
  - by destruct no_disk.
  - intros pv Hv. destruct (no_votes pv Hv) as [? H]. simpl. split; [ballots|done].
Qed.

Lemma WInv_round w a r :
  WInv A W w -> a_live (nodes w a) = true -> a_max (nodes w a) < r ->
  WInv A W (set_local w a (mkLocal (nodes w a <| a_disk := SaveMaxRound (a_disk (nodes w a)) r |> <| a_max := r |>)
    (sent w) (votes w))).
Proof.
  intros I Hl Hr. apply WInv_quiet; [done|apply Less_irrefl|].
  destruct (wi_nodes _ _ _ I a). destruct no_max as [M0 M1]. specialize (M1 Hl).
  assert (Hup : forall b : Ballot, 1 <= bal_round b <= ms_max_round (a_disk (nodes w a)) -> 1 <= bal_round b <= r) by lia.
  split; auto; simpl.
  - split; intros; lia.
  - intros b f H. destruct (no_prepare b f H). auto.
  - intros b s v H. destruct (no_accept b s v H). auto.
  - intros _ Hn. destruct (no_ballot Hl Hn) as (? & ? & ?). auto.
  - by destruct no_disk.
Qed.

Lemma WInv_elect w a f :
  let x := nodes w a in
  WInv A W w -> a_live x = true ->
  WInv A W (set_local w a (mkLocal
    (x <| a_disk := SaveMaxRound (a_disk x) (a_max x + 1) |> <| a_max := a_max x + 1 |>
       <| a_role := Candidate |> <| a_ballot := mkBallot (a_max x + 1) a |> <| a_from := f |>
       <| a_promises := ∅ |>) (sent w) (votes w))).
Proof.
  intros x I Hl. subst x. apply WInv_quiet; [done|apply Less_irrefl|].
  destruct (wi_nodes _ _ _ I a). destruct no_max as [M0 M1]. specialize (M1 Hl).
  split; auto; simpl; try done.
  - split; intros; lia.
  - intros b g H. destruct (no_prepare b g H). split; [done|lia].
  - intros b s v H. destruct (no_accept b s v H). split; [done|lia].
  - intros _ _. split; [done|split; [lia|]]. intros g H. destruct (no_prepare _ _ H). simpl in *. lia.
  - intros _ _ s v H. destruct (no_accept _ _ _ H). simpl in *. lia.
  - by destruct no_disk.
Qed.

(** Every slot is a run of single-decree voting, so it has one chosen value. *)
Lemma voting_rules w s : WInv A W w -> VotingRules A (voted_in (votes w) s) (proposed_in (sent w) s).
Proof.
  intros [_ []]. split.
  - intros b v H. by apply so_safe in H as [? _].
  - intros a b v H. by apply so_vote in H as [_ ?].
  - apply so_one.
  - intros b v H. apply so_safe in H as (_ & _ & H). by eapply safe_with_shows.
Qed.

Lemma chosen_in_agree w s b v c u :
  WInv A W w -> chosen_in A (votes w) s b v -> chosen_in A (votes w) s c u -> v = u.
Proof. intros I. by apply (chosen_agree _ _ _ (voting_rules w s I)). Qed.

Lemma WInv_chosen w a e :
  let x := nodes w a in
  WInv A W w -> chosen_in A (votes w) (en_slot e) (en_ballot e) (en_value e) ->
  WInv A W (set_local w a (mkLocal (x <| a_disk := SaveChosen (a_disk x) e |>) (sent w) (votes w))).
Proof.
  intros x I He. subst x. apply WInv_quiet; [done|apply Less_irrefl|].
  destruct (wi_nodes _ _ _ I a). split; auto; simpl.
  - exact (save_rec_ok _ (SChosen e) no_disk).
  - intros s e'. rewrite lookup_insert. case_decide; [intros [= <-]; by subst|apply no_chosen].
  - intros s e' Hs. destruct (no_known s e' Hs) as (e0 & H0 & <-). rewrite lookup_insert. case_decide as D; [|eauto].
    exists e. subst s. split; [done|]. exact (chosen_in_agree w _ _ _ _ _ I He (no_chosen _ _ H0)).
Qed.

Lemma later_vote w a pv x :
  Less (pv_ballot pv) (disk_promise w a) = false -> ms_promised (a_disk x) = disk_promise w a ->
  later (disk_promise w) (sent w) (votes w)
    (disk_promise (set_local w a (mkLocal x (sent w) (vote a pv (votes w))))) (sent w) (vote a pv (votes w)).
Proof.
  intros H E. split; auto.
  - intros c. rewrite disk_promise_set. case_decide as D; [subst; simpl; rewrite E|]; apply Less_irrefl.
  - intros c k Hk. by left.
  - intros c k [Hk|[-> ->]]; auto.
Qed.

Lemma WInv_accept w a l b s v :
  let x := nodes w a in let pv := mkPValue b s v in
  WInv A W w -> a ∈ A -> sent w l (Accept b s v) -> ms_promised (a_disk x) = b ->
  WInv A W (set_local w a (mkLocal (x <| a_disk := SaveAccepted (a_disk x) pv |>) (sent w) (vote a pv (votes w)))).
Proof.
  intros x pv I Ha Hs Hb. subst x.
  assert (Hprom : disk_promise w a = b) by done.
  assert (Hge : Less (pv_ballot pv) (disk_promise w a) = false) by (rewrite Hprom; apply Less_irrefl).
  set (y := nodes w a <| a_disk := SaveAccepted (a_disk (nodes w a)) pv |>).
  assert (E : ms_promised (a_disk y) = disk_promise w a) by done.
  pose proof (later_vote w a pv y Hge E) as L.
  apply step_frame; auto.
  { by intros c k Hc [?|[-> _]]. }
  2: { eapply says_ok_later; [exact L| |apply I].
       intros c t d u [H|[-> [= -> -> ->]]]; [by apply (so_vote _ _ _ _ _ (wi_says _ _ _ I))|]. split; [done|by exists l]. }
  pose proof (wi_nodes _ _ _ I a) as N. destruct N. split; auto; simpl.
  - intros Hl Hn c m Hm. destruct (no_coll Hl Hn c m Hm) as (? & ? & ? & ?). split_and!; eauto using promise_ok_later.
  - intros Hl Hr t u acc Hp. destruct (no_props Hl Hr t u acc Hp) as [? Hacc]. split; [done|].
    intros c Hc. destruct (Hacc c Hc). split; [done|by left].
  - exact (save_rec_ok _ (SAccepted pv) no_disk).
  - intros t k. rewrite lookup_insert. case_decide; [intros [= <-]; by right|intros Hk; left; eauto].
  - intros k Hk. rewrite Hb.
    assert (Hle : Less b (pv_ballot k) = false).
    { destruct Hk as [Hk|[_ ->]]; [|apply Less_irrefl]. rewrite <- Hb. by apply no_votes. }
    split; [done|]. destruct Hk as [Hk|[_ ->]].
    + destruct (decide (s = pv_slot k)) as [->|Hne].
      * exists pv. by rewrite lookup_insert_eq.
      * rewrite lookup_insert_ne by done. by apply no_votes.
    + exists pv. simpl. rewrite lookup_insert_eq. split; [done|apply Less_irrefl].
  - intros t e He. destruct (no_chosen t e He) as (Q & HQ & H). exists Q. split; [done|]. intros c Hc. left. by apply H.
Qed.

(** ** Phase 2 *)

Lemma reports_for_elem ms s pv :
  pv ∈ reports_for ms s <-> exists m, m ∈ ms /\ pv ∈ slot_report m s.
Proof.
  unfold reports_for. rewrite list_elem_of_In, filter_In, in_flat_map, Z.eqb_eq. setoid_rewrite slot_report_elem.
  setoid_rewrite <- list_elem_of_In. naive_solver.
Qed.

(** The value a leader proposes for a slot is safe at its ballot. *)
Lemma propose_safe w a s u ms :
  let x := nodes w a in
  WInv A W w -> a_live x = true -> a_role x = Leader -> a_from x <= s -> ms ≡ₚ (map_to_list (a_promises x)).*2 ->
  safe_with A (voted_in (votes w) s) (proposed_in (sent w) s) (disk_promise w) (a_ballot x) (Choose (reports_for ms s) u).
Proof.
  intros x I Hl Hr Hs Hms. pose proof (wi_nodes _ _ _ I a) as N. fold x in N. destruct N, (wi_says _ _ _ I).
  assert (Hnf : a_role x <> Follower) by by rewrite Hr.
  pose proof (no_coll Hl Hnf) as Hc.
  assert (Hval : forall m, m ∈ ms <-> exists c, a_promises x !! c = Some m).
  { intros m. rewrite Hms, list_elem_of_fmap. split.
    - intros ([c k] & -> & H%elem_of_map_to_list). eauto.
    - intros [c H]. exists (c, m). split; [done|by apply elem_of_map_to_list]. }
  apply (takeover_safe _ _ _ _ _ (dom (a_promises x))
    (fun c => match a_promises x !! c with Some m => slot_report m s | None => [] end)).
  - split; [intros c [m Hm]%elem_of_dom; by apply (Hc c m)|]. rewrite size_dom. by apply no_lead.
  - intros c [m Hm]%elem_of_dom. rewrite Hm. destruct (Hc c m Hm) as (_ & Hb & [P1 P2 P3] & Hlt). split.
    + by rewrite <- Hb.
    + intros pv [Hpv <-]%slot_report_elem _. split; [by apply Hlt|]. by apply P2.
    + intros d v Hv Hd. rewrite <- Hb in Hd. destruct (P3 s d v Hs Hv Hd) as (pv & Hpv & Hle).
      exists pv. split_and!; [done| |done]. apply slot_report_elem in Hpv as [Hin <-].
      destruct (P2 pv Hin) as [Hp _]. by apply so_safe in Hp as (_ & ? & _).
  - intros pv (m & [c Hm]%Hval & Hpv)%reports_for_elem. exists c. split; [by apply elem_of_dom|by rewrite Hm].
  - intros c pv [m Hm]%elem_of_dom. rewrite Hm. intros Hpv _. apply reports_for_elem. exists m. split; [|done].
    apply Hval. eauto.
Qed.

Lemma picked_wanted w a s u ms :
  let x := nodes w a in
  WInv A W w -> a_live x = true -> a_role x = Leader -> ms ≡ₚ (map_to_list (a_promises x)).*2 -> W u ->
  W (Choose (reports_for ms s) u).
Proof.
  intros x I Hl Hr Hms Hu. destruct (Choose_spec (reports_for ms s) u) as [[-> _]|(r & Hr' & _ & -> & _)]; [done|].
  apply reports_for_elem in Hr' as (m & Hm & [Hpv <-]%slot_report_elem). rewrite Hms in Hm.
  apply list_elem_of_fmap in Hm as ([c m'] & -> & Hc%elem_of_map_to_list).
  assert (Hnf : a_role x <> Follower) by by rewrite Hr.
  destruct (no_coll _ _ _ _ _ _ (wi_nodes _ _ _ I a) Hl Hnf c m' Hc) as (_ & _ & [_ Hs _] & _).
  destruct (Hs r Hpv) as [Hp _]. by apply (so_wanted _ _ _ _ _ (wi_says _ _ _ I)) in Hp.
Qed.

Lemma says_ok_accept P G V a b s v :
  (forall w, ~ proposed_in G s b w) -> ballot_ok b -> b <> zero_ballot -> W v ->
  safe_with A (voted_in V s) (proposed_in G s) P b v -> says_ok A W P G V ->
  says_ok A W P (say a (Accept b s v) G) V.
Proof.
  intros Hfresh Hok Hnz Hw Hsafe []. set (G' := say _ _ _).
  assert (L := later_say P G V a (Accept b s v)). fold G' in L.
  assert (Hp : forall t d u, proposed_in G' t d u -> proposed_in G t d u \/ (t = s /\ d = b /\ u = v)).
  { intros t d u [l [H|[_ E]]]; [left; by exists l|right]. by injection E. }
  assert (Hs : forall t d u, safe_with A (voted_in V t) (proposed_in G t) P d u ->
            safe_with A (voted_in V t) (proposed_in G' t) P d u).
  { intros t d u. apply safe_with_mono; auto with paxos. intros c w. by eapply proposed_later. }
  split.
  - intros c t d u Hv. destruct (so_vote c t d u Hv). split; [done|by eapply proposed_later].
  - intros t d u [H|(_ & _ & ->)]%Hp; eauto.
  - intros t d u w [H|(-> & -> & ->)]%Hp [H'|(E1 & E2 & ->)]%Hp; subst; eauto; exfalso; by eapply Hfresh.
  - intros t d u [H|(-> & -> & ->)]%Hp; [|auto]. destruct (so_safe t d u H) as (? & ? & ?). auto.
  - intros c m [Hc|[_ ?]]; [|done]. destruct (so_promise c m Hc) as (l & f & ? & ?). exists l, f.
    split; [by left|by eapply promise_ok_later].
  - intros c d t [Hc|[_ ?]]; [eauto|done].
  - intros c t d u [Hc|[_ ?]]; [eauto|done].
Qed.

Lemma WInv_propose w a s u ms :
  let x := nodes w a in let v := Choose (reports_for ms s) u in
  WInv A W w -> a ∈ A -> a_live x = true -> a_role x = Leader -> a_from x <= s ->
  (forall v, ~ sent w a (Accept (a_ballot x) s v)) -> ms ≡ₚ (map_to_list (a_promises x)).*2 -> W u ->
  WInv A W (set_local w a (mkLocal (x <| a_props := <[s := (v, ∅)]> (a_props x) |>)
    (say a (Accept (a_ballot x) s v) (sent w)) (votes w))).
Proof.
  intros x v I Ha%A_nonneg Hl Hr Hs Hfresh Hms Hu. pose proof (wi_nodes _ _ _ I a) as N. fold x in N.
  pose proof (propose_safe w a s u ms I Hl Hr Hs Hms) as Hsafe. fold x v in Hsafe.
  assert (Hnf : a_role x <> Follower) by by rewrite Hr.
  destruct (no_ballot _ _ _ _ _ _ N Hl Hnf) as (B1 & B2 & _).
  assert (Hnew : forall u, ~ proposed_in (sent w) s (a_ballot x) u).
  { intros u' [l H]. destruct (no_accept _ _ _ _ _ _ (wi_nodes _ _ _ I l) _ _ _ H) as [E _].
    rewrite B1 in E. subst l. by apply (Hfresh u'). }
  set (m := Accept _ _ _). set (y := x <| a_props := _ |>).
  assert (Hdp : Less (ms_promised (a_disk y)) (disk_promise w a) = false) by apply Less_irrefl.
  pose proof (later_promise w a y (say a m (sent w)) (votes w) Hdp) as L'.
  assert (S := says_ok_accept _ _ _ a _ _ v Hnew ltac:(split; lia) ltac:(intros E; rewrite E in B2; simpl in B2; lia)
                 (picked_wanted w a s u ms I Hl Hr Hms Hu) Hsafe (wi_says _ _ _ I)). fold m in S.
  apply step_frame; [done| |by intros c k Hc [?|[-> _]]|done| |].
  { destruct L' as [L1 _ _ _]. split; auto with paxos. by left. }
  2: { eapply says_ok_later; [exact L'| |exact S]. intros c t d k. apply (so_vote _ _ _ _ _ S). }
  assert (L := later_say (disk_promise w) (sent w) (votes w) a m).
  eapply (node_ok_later (disk_promise w) (say a m (sent w)) (votes w)); [exact L'|done|done|].
  destruct N. split; auto; simpl.
  - intros b f [H|[_ ?]]; [eauto|done].
  - intros b t k [H|[_ E]]; [eauto|]. injection E as -> -> ->. auto.
  - intros b f f' [H|[_ ?]] [H'|[_ ?]]; eauto; done.
  - intros _ _. split; [done|split; [done|]]. intros f [H|[_ ?]]; [|done]. by apply no_ballot.
  - intros _ Hr'. subst x. congruence.
  - intros _ _ c k Hk. destruct (no_coll Hl Hnf c k Hk) as (? & ? & ? & ?). split_and!; eauto using promise_ok_later.
  - intros _ _ t k acc. rewrite lookup_insert. case_decide as D.
    + intros [= <- <-]. subst t. split; [by right|]. by intros c ?%not_elem_of_empty.
    + intros H. destruct (no_props Hl Hr t k acc H). split; [by left|done].
Qed.

(** ** The candidacy *)

(** What a process remembers of the chosen entries is right. *)
Definition recalls (y : ANode) : Prop :=
  (forall s e, a_known y !! s = Some e -> exists e', ms_chosen (a_disk y) !! s = Some e' /\ en_value e' = en_value e) /\
  (forall k, 0 < k <= a_commit y -> is_Some (a_known y !! k)).

Lemma recalls_same P G V a x y : node_ok A P G V a x ->
  a_disk y = a_disk x -> a_known y = a_known x -> a_commit y = a_commit x -> recalls y.
Proof. intros [] Hd Hk Hc. split; rewrite ?Hd, Hk, ?Hc; done. Qed.

Lemma recalls_disk y : a_known y = ms_chosen (a_disk y) -> (forall k, 0 < k <= a_commit y -> is_Some (a_known y !! k)) ->
  recalls y.
Proof. intros Hk Hc. split; [rewrite Hk; eauto|done]. Qed.

(** A node that is not a live candidate or leader needs only its disk. *)
Lemma node_ok_idle P G V a x y :
  node_ok A P G V a x -> a_disk y = a_disk x -> (a_live y = true -> a_role y = Follower) ->
  (a_live y = true -> ms_max_round (a_disk x) <= a_max y) -> a_conflict y = false -> recalls y -> node_ok A P G V a y.
Proof.
  intros [] Hd Hr Hm Hc [Hk Hi]. rewrite Hd in Hk. split; rewrite ?Hd; auto.
  - split; [by apply no_max|done].
  - intros Hl Hn. by destruct Hn; auto.
  - intros Hl Hn. rewrite Hr in Hn by done. done.
  - intros Hl Hn. by destruct Hn; auto.
  - intros Hl Hn. rewrite Hr in Hn by done. done.
  - intros Hl Hn. rewrite Hr in Hn by done. done.
Qed.

Lemma WInv_idle w a y :
  WInv A W w -> a_disk y = a_disk (nodes w a) -> (a_live y = true -> a_role y = Follower) ->
  (a_live y = true -> ms_max_round (a_disk (nodes w a)) <= a_max y) -> a_conflict y = false -> recalls y ->
  WInv A W (set_local w a (mkLocal y (sent w) (votes w))).
Proof.
  intros I Hd Hr Hm Hc Hk. apply WInv_quiet; [done|rewrite Hd; apply Less_irrefl|].
  eapply node_ok_idle; eauto. apply I.
Qed.

Lemma WInv_collect w a c m :
  let x := nodes w a in
  WInv A W w -> a_live x = true -> a_role x = Candidate -> c ∈ A -> sent w c (Promise m) -> p_ballot m = a_ballot x ->
  WInv A W (set_local w a (mkLocal (x <| a_promises := <[c := m]> (a_promises x) |>) (sent w) (votes w))).
Proof.
  intros x I Hl Hr Hc Hm Hb. apply WInv_quiet; [done|apply Less_irrefl|].
  pose proof (wi_nodes _ _ _ I) as N. pose proof (N a) as Na. fold x in Na. destruct Na.
  assert (Hnf : a_role x <> Follower) by by rewrite Hr.
  split; auto; simpl; [|congruence].
  intros _ _ d k. rewrite lookup_insert. case_decide; [intros [= <-]; subst d|by apply no_coll].
  destruct (so_promise _ _ _ _ _ (wi_says _ _ _ I) c m Hm) as (l & f & Hp & Hok).
  destruct (no_ballot Hl Hnf) as (B1 & _ & B3).
  rewrite Hb in Hp. destruct (LogSpec.no_prepare _ _ _ _ _ _ (N l) _ _ Hp) as [E _]. rewrite B1 in E. subst l.
  rewrite (B3 f Hp) in Hok. split_and!; [done..|]. intros pv Hpv.
  destruct (pm_sent _ _ _ _ _ _ Hok pv Hpv) as [[l Hs] Hle]. rewrite Hb in Hle. apply Less_neq; [done|]. intros E.
  destruct (LogSpec.no_accept _ _ _ _ _ _ (N l) _ _ _ Hs) as [E' _]. rewrite E, B1 in E'. subst l.
  rewrite E in Hs. by eapply no_fresh.
Qed.

Lemma WInv_lead w a :
  let x := nodes w a in
  WInv A W w -> a_live x = true -> a_role x = Candidate -> majority A <= Z.of_nat (size (a_promises x)) ->
  WInv A W (set_local w a (mkLocal (x <| a_role := Leader |> <| a_props := ∅ |>) (sent w) (votes w))).
Proof.
  intros x I Hl Hr Hq. apply WInv_quiet; [done|apply Less_irrefl|].
  pose proof (wi_nodes _ _ _ I a) as N. fold x in N. destruct N.
  assert (Hnf : a_role x <> Follower) by by rewrite Hr.
  split; simpl; auto; try (intros; by simplify_map_eq).
Qed.

Lemma WInv_count w a c s v acc :
  let x := nodes w a in
  WInv A W w -> a_live x = true -> a_role x = Leader -> c ∈ A -> sent w c (Accepted (a_ballot x) s) ->
  a_props x !! s = Some (v, acc) ->
  WInv A W (set_local w a (mkLocal (x <| a_props := <[s := (v, {[c]} ∪ acc)]> (a_props x) |>) (sent w) (votes w))).
Proof.
  intros x I Hl Hr Hc Hs Hp. apply WInv_quiet; [done|apply Less_irrefl|].
  pose proof (wi_nodes _ _ _ I a) as N. fold x in N. destruct N. split; auto; simpl.
  intros _ _ t u ac. rewrite lookup_insert. case_decide as D; [intros [= <- <-]; subst t|by apply no_props].
  destruct (no_props Hl Hr s v acc Hp) as [Ha Hacc]. split; [done|].
  intros d [->%elem_of_singleton|Hd]%elem_of_union; [|by apply Hacc]. split; [done|].
  destruct (so_accepted _ _ _ _ _ (wi_says _ _ _ I) c _ s Hs) as [u Hu].
  destruct (so_vote _ _ _ _ _ (wi_says _ _ _ I) _ _ _ _ Hu) as [_ Hpu].
  assert (u = v) as ->; [|done]. eapply (so_one _ _ _ _ _ (wi_says _ _ _ I)); [exact Hpu|by exists a].
Qed.

Lemma WInv_drop w a s :
  let x := nodes w a in
  WInv A W w -> WInv A W (set_local w a (mkLocal (x <| a_props := delete s (a_props x) |>) (sent w) (votes w))).
Proof.
  intros x I. apply WInv_quiet; [done|apply Less_irrefl|].
  pose proof (wi_nodes _ _ _ I a) as N. fold x in N. destruct N. split; auto; simpl.
  intros Hl Hr t u ac [_ H]%lookup_delete_Some. by apply no_props.
Qed.

(** A value a leader has a majority of acceptances for is chosen. *)
Lemma learnable w a e :
  let x := nodes w a in WInv A W w ->
  ((exists l, sent w l (Learn (en_slot e) (en_ballot e) (en_value e))) \/
   (a_live x = true /\ a_role x = Leader /\ en_ballot e = a_ballot x /\
    exists acc, a_props x !! en_slot e = Some (en_value e, acc) /\ majority A <= Z.of_nat (size acc))) ->
  chosen_in A (votes w) (en_slot e) (en_ballot e) (en_value e).
Proof.
  intros x I [[l H]|(Hl & Hr & Hb & acc & Hp & Hq)]; [by apply (so_learn _ _ _ _ _ (wi_says _ _ _ I) l)|].
  destruct (no_props _ _ _ _ _ _ (wi_nodes _ _ _ I a) Hl Hr _ _ _ Hp) as [_ Hacc].
  exists acc. rewrite Hb. split; [split; [intros c Hc; by apply Hacc|done]|]. intros c Hc. by apply Hacc.
Qed.

(** * Agreement *)

Lemma WInv_conflict w a l s b v e :
  let x := nodes w a in
  WInv A W w -> sent w l (Learn s b v) -> ms_chosen (a_disk x) !! s = Some e -> en_value e = v.
Proof.
  intros x I Hl He. pose proof (so_learn _ _ _ _ _ (wi_says _ _ _ I) l s b v Hl) as H1.
  pose proof (no_chosen _ _ _ _ _ _ (wi_nodes _ _ _ I a) s e He) as H2. by eapply chosen_in_agree.
Qed.

Lemma WInv_note w a e c :
  let x := nodes w a in
  WInv A W w -> ms_chosen (a_disk x) !! en_slot e = Some e -> a_commit x <= c ->
  (forall k, a_commit x < k <= c -> is_Some (<[en_slot e := e]> (a_known x) !! k)) ->
  WInv A W (set_local w a (mkLocal (x <| a_known := <[en_slot e := e]> (a_known x) |> <| a_commit := c |>) (sent w) (votes w))).
Proof.
  intros x I He Hc Hk. subst x. apply WInv_quiet; [done|apply Less_irrefl|]. destruct (wi_nodes _ _ _ I a). split; auto; simpl.
  - intros s e'. rewrite lookup_insert. case_decide; [subst s; intros [= <-]; eauto|apply no_known].
  - intros k Hk'. destruct (decide (k <= a_commit (nodes w a))); [|apply Hk; lia].
    rewrite lookup_insert. case_decide; [eauto|]. apply no_commit. lia.
Qed.

(** * Runs *)

Lemma nstep_inv w a l : WInv A W w -> a ∈ A -> nstep A W a (local_of w a) l -> WInv A W (set_local w a l).
Proof.
  intros I Ha Hst. pose proof (wi_nodes _ _ _ I a) as N. remember (local_of w a) as l0 eqn:E.
  destruct Hst as [x y G V Hd Hl Hc Hk Hi|x y G V Hd Hm Hl Hr Hc Hk Hi|x G V| | | | | | | | | | | | | | | |x G V l s b v e Hl He Hne|x G V m Hm];
    injection E as -> -> ->.
  - apply WInv_idle; auto; try congruence. rewrite (no_conflict _ _ _ _ _ _ N) in Hc.
    { destruct (a_conflict y); [by rewrite Hc|done]. } by eapply recalls_same.
  - apply WInv_idle; auto; try congruence; [rewrite Hm, Hl; apply N|rewrite Hc; apply N|by eapply recalls_same].
  - apply WInv_quiet; [done|apply Less_irrefl|]. by destruct N.
  - by apply WInv_round.
  - by apply WInv_promise.
  - by apply WInv_elect.
  - by apply WInv_prepare.
  - by eapply WInv_reply.
  - by eapply WInv_accept.
  - apply WInv_tell; try done. by eexists.
  - by apply WInv_collect.
  - by apply WInv_lead.
  - by apply WInv_propose.
  - by eapply WInv_count.
  - by apply WInv_drop.
  - apply WInv_chosen; [done|]. by eapply learnable.
  - by apply WInv_note.
  - apply WInv_tell; try done. by apply N.
  - by destruct Hne; eapply WInv_conflict.
  - apply WInv_tell; try done; destruct m; by try intros ??.
Qed.

Lemma wstep_inv w w' : WInv A W w -> wstep A W w w' -> WInv A W w'.
Proof.
  intros I [a l Ha Hl|a y Ha _ (H1 & H2 & H3 & H4 & H5 & H6 & H7)]; [by eapply nstep_inv|].
  apply WInv_idle; auto; [intros _; rewrite H5; lia|]. apply recalls_disk; [congruence|done].
Qed.

Lemma WInv_init : WInv A W w_init.
Proof.
  assert (L : forall (X : Type) (s : Slot) (x : X), (∅ : gmap Slot X) !! s = Some x -> False)
    by (intros X s x H; by rewrite lookup_empty in H).
  split.
  - intros a. split; try done; try (intros; exfalso; by eapply L). intros k Hk. simpl in Hk. lia.
  - split; [by intros a s b v []|by intros s b v [l []]|by intros s b v u [l []]|by intros s b v [l []]|by intros c m []|by intros c b s []|by intros c s b v []].
Qed.

Lemma wsteps_inv w w' : rtc (wstep A W) w w' -> WInv A W w -> WInv A W w'.
Proof. induction 1; eauto using wstep_inv. Qed.
End Group.
