(* ===== verification/NodeSteps.v ===== *)
(** Every handler of the log node (Replog.v) is a sequence of the abstract
    steps of LogSpec.v, and returns: no panic is reached and no fuel runs out.
    In a cluster of two nodes or more a node never has a majority on its own,
    so a message to itself never starts another proposal; a node alone in its
    cluster decides every proposal before the call that makes it is over, so
    between two calls it has none open and no value waits in its queue. *)

From S2P Require Import Prelude GoStd Paxos Voting Store Replog LogSpec.

(** A configuration of a node of the cluster [A]. *)
Record cluster_config (A : gset NodeID) (a : NodeID) (cfg : Config) : Prop := {
  cc_self : Self cfg = a;
  cc_nodup : NoDup (Peers cfg);
  cc_peers : list_to_set (Peers cfg) = A;
  cc_in : a ∈ Peers cfg;
  cc_safe : Unsafe cfg = None;
}.

Definition is_conflict (ev : Event) : bool := match ev with LearnConflict _ _ _ => true | _ => false end.

(** * What a node means *)

Section Abstraction.
Context {T : Type} `{ST : Store T}.
Implicit Types n : Node T.

Definition disk n : MemStore := contents (n_store n).
Definition props_of n : gmap Slot (Value * gset NodeID) := (fun p => (value p, accepts p)) <$> n_proposals n.
Definition promises_of n : gmap NodeID PromiseMsg := default ∅ (promises (n_phase1 n)).

Definition absn n : ANode :=
  mkANode (disk n) (n_maxRound n) (negb (is_failed n)) (n_role n) (n_ballot n) (fromSlot (n_phase1 n))
    (promises_of n) (props_of n) (existsb is_conflict (n_events n)) (n_chosen n) (n_commitIndex n).

(** The commit index leaves room for the next slots. *)
Definition counted n : Prop :=
  0 <= n_commitIndex n < 2 ^ 63 /\ forall s e, n_chosen n !! s = Some e -> s < 2 ^ 63.

(** The memory of a live node agrees with its disk. *)
Record mem_ok n : Prop := {
  mm_promised : n_promised n = ms_promised (disk n);
  mm_accepted : n_accepted n = ms_accepted (disk n);
  mm_chosen : n_chosen n = ms_chosen (disk n);
}.

Context (A : gset NodeID) (a : NodeID) (cfg : Config) (W : Value -> Prop).
Implicit Types (G : NodeID -> Message -> Prop) (V : NodeID -> PValue -> Prop).

Definition outs_ok (out : list Envelope) G : Prop :=
  forall env, env ∈ out -> env_from env = a /\ env_to env <> a /\ G a (env_msg env).

(** The bookkeeping of a live candidate or leader; [k] bounds the slots it has
    proposed at its ballot.  Values wait only where a majority takes other
    nodes. *)
Record tidy n G (k : Slot) : Prop := {
  td_contacts : n_role n = Leader -> is_Some (n_contacts n);
  td_promises : n_role n = Candidate -> is_Some (promises (n_phase1 n));
  td_from : n_role n <> Follower -> 1 <= fromSlot (n_phase1 n);
  td_fresh : n_role n = Candidate -> forall s v, ~ G a (Accept (n_ballot n) s v);
  td_bound : n_role n = Leader -> forall s v, G a (Accept (n_ballot n) s v) -> s < k;
  td_props : n_role n = Leader -> forall s p, n_proposals n !! s = Some p -> G a (Accept (n_ballot n) s (value p));
  td_queue : forall v, v ∈ n_queue n -> W v /\ 2 <= majority A;
  td_round : n_role n <> Follower -> IsZero (n_ballot n) = false;
}.

(** Slots the leader takes for new values lie above everything reported. *)
Definition above n (s : Slot) : Prop :=
  fromSlot (n_phase1 n) <= s /\
  forall c m pv, promises_of n !! c = Some m -> pv ∈ p_accepted m -> pv_slot pv < s.

Record good_at n G (k : Slot) : Prop := {
  g_cfg : n_cfg n = cfg;
  g_quorum : n_quorum n = majority A;
  g_out : outs_ok (n_out n) G;
  g_mem : is_failed n = false -> mem_ok n;
  g_tidy : is_failed n = false -> tidy n G k;
}.

(** Between two calls; a leader that is a majority by itself has decided all it
    has proposed. *)
Definition office n : Prop := above n (n_nextSlot n) /\ (majority A < 2 -> n_proposals n = ∅).

Record good n G : Prop := {
  g_at : good_at n G (n_nextSlot n);
  g_office : is_failed n = false -> n_role n = Leader -> office n;
}.

(** [r] returns a node that the abstract steps lead to. *)
Definition moves n G V n' G' V' : Prop := rtc (nstep A W a) (mkLocal (absn n) G V) (mkLocal (absn n') G' V').

Definition does n G V (Q : Node T -> (NodeID -> Message -> Prop) -> (NodeID -> PValue -> Prop) -> Prop)
    (r : option (Node T)) : Prop :=
  exists n' G' V', r = Some n' /\ moves n G V n' G' V' /\ Q n' G' V'.
End Abstraction.

Arguments good_at {T ST} A a cfg W n G k.
Arguments good {T ST} A a cfg W n G.
Arguments does {T ST} A a W n G V Q r.
Arguments moves {T ST} A a W n G V n' G' V'.

Section Steps.
Context {T : Type} `{ST : Store T} (A : gset NodeID) (a : NodeID) (cfg : Config) (cfg_ok : cluster_config A a cfg)
  (W : Value -> Prop) (W_noop : W "").
Implicit Types (n : Node T) (G : NodeID -> Message -> Prop) (V : NodeID -> PValue -> Prop).

Local Abbreviation good_at := (good_at A a cfg W).
Local Abbreviation good := (good A a cfg W).
Local Abbreviation does := (does A a W).
Local Abbreviation moves := (moves A a W).
Local Abbreviation outs_ok := (outs_ok a).

(** ** Composition *)

Lemma moves_refl n G V : moves n G V n G V.
Proof. apply rtc_refl. Qed.

Lemma moves_trans n G V n1 G1 V1 n2 G2 V2 :
  moves n G V n1 G1 V1 -> moves n1 G1 V1 n2 G2 V2 -> moves n G V n2 G2 V2.
Proof. unfold NodeSteps.moves. apply transitivity. Qed.

(** Fields the abstraction does not see. *)
Lemma moves_same n n' G V : absn n' = absn n -> moves n G V n' G V.
Proof. intros E. unfold NodeSteps.moves. rewrite E. apply rtc_refl. Qed.

Lemma moves_one n n' G V G' V' y :
  nstep A W a (mkLocal (absn n) G V) (mkLocal y G' V') -> absn n' = y -> moves n G V n' G' V'.
Proof. intros H <-. by apply rtc_once. Qed.

Lemma does_ret n G V (Q : Node T -> _ -> _ -> Prop) n' G' V' :
  moves n G V n' G' V' -> Q n' G' V' -> does n G V Q (Some n').
Proof. intros. by exists n', G', V'. Qed.

Lemma does_bind n G V Q R r (k : Node T -> option (Node T)) :
  does n G V Q r -> (forall n' G' V', moves n G V n' G' V' -> Q n' G' V' -> does n' G' V' R (k n')) ->
  does n G V R (r ≫= k).
Proof.
  intros (n1 & G1 & V1 & -> & M1 & H1) Hk. destruct (Hk n1 G1 V1 M1 H1) as (n2 & G2 & V2 & E & M2 & H2).
  exists n2, G2, V2. simpl. split_and!; [done|by eapply moves_trans|done].
Qed.

Lemma does_moves n G V n1 G1 V1 Q r : moves n G V n1 G1 V1 -> does n1 G1 V1 Q r -> does n G V Q r.
Proof. intros M (n2 & G2 & V2 & E & M2 & H2). exists n2, G2, V2. split_and!; [done|by eapply moves_trans|done]. Qed.

Lemma does_weaken n G V (Q R : Node T -> _ -> _ -> Prop) r :
  does n G V Q r -> (forall n' G' V', Q n' G' V' -> R n' G' V') -> does n G V R r.
Proof. intros (n' & G' & V' & E & M & HQ) HR. exists n', G', V'. auto. Qed.

Lemma nstep_grows l l' : nstep A W a l l' -> forall c m, l_sent l c m -> l_sent l' c m.
Proof. destruct 1; simpl; auto; by left. Qed.

Lemma nsteps_grow l l' : rtc (nstep A W a) l l' -> forall c m, l_sent l c m -> l_sent l' c m.
Proof. intros Hr. induction Hr as [|l1 l2 l3 S _ IH]; eauto using nstep_grows. Qed.

Lemma moves_grow n G V n' G' V' : moves n G V n' G' V' -> forall c m, G c m -> G' c m.
Proof. intros H. exact (nsteps_grow _ _ H). Qed.

(** ** The cluster *)

Lemma peers_in p : p ∈ Peers cfg <-> p ∈ A.
Proof. by rewrite <- (cc_peers _ _ _ cfg_ok), elem_of_list_to_set. Qed.

Lemma self_in : a ∈ A.
Proof. apply peers_in, cfg_ok. Qed.

Lemma majority_peers : majority A = Quorum (len (Peers cfg)).
Proof.
  unfold majority, len. rewrite <- (cc_peers _ _ _ cfg_ok), size_list_to_set; [done|apply cfg_ok].
Qed.

Lemma majority_one : 1 <= majority A.
Proof.
  rewrite majority_peers. unfold Quorum, len. pose proof (cc_in _ _ _ cfg_ok) as H.
  destruct (Peers cfg) as [|p l]; [by apply not_elem_of_nil in H|]. simpl. Z.div_mod_to_equations. lia.
Qed.

(** Another node makes a majority of two at least. *)
Lemma majority_two c : c ∈ A -> c <> a -> 2 <= majority A.
Proof.
  intros Hc Hne. unfold majority, Quorum. pose proof self_in as Ha.
  assert (H : (size ({[a; c]} : gset NodeID) <= size A)%nat) by (apply subseteq_size; set_solver).
  rewrite size_union, !size_singleton in H by set_solver. Z.div_mod_to_equations. lia.
Qed.

(** ** Failed nodes *)

Lemma good_failed n G k :
  is_failed n = true -> n_cfg n = cfg -> n_quorum n = majority A -> outs_ok (n_out n) G -> good_at n G k.
Proof. intros F. split; auto; congruence. Qed.

Lemma good_at_good n G : good_at n G (n_nextSlot n) -> (is_failed n = true \/ n_role n <> Leader) -> good n G.
Proof. intros H [F|F]; split; auto; congruence. Qed.

(** ** Saving *)

Lemma save_spec n r : is_failed n = false ->
  (exists st, save n r = (n <| n_store := st |>, true) /\ contents st = save_rec (disk n) r) \/
  (exists n', save n r = (n', false) /\ is_failed n' = true /\ n_cfg n' = n_cfg n /\ n_quorum n' = n_quorum n /\
     n_out n' = n_out n /\ n_events n' = n_events n /\ n_chosen n' = n_chosen n /\ n_commitIndex n' = n_commitIndex n /\ (disk n' = disk n \/ disk n' = save_rec (disk n) r)).
Proof.
  intros F. unfold save. destruct (store_save (n_store n) r) as [st [e|]] eqn:E; [right|left].
  - eexists. split; [done|]. unfold fail, is_failed in *. simpl. destruct (n_failed n); [done|].
    simpl. split_and!; try done. unfold disk. simpl. by eapply store_save_err.
  - exists st. split; [done|]. by apply store_save_ok.
Qed.

(** ** Events, timers, messages out *)

Lemma absn_emit n ev : is_conflict ev = false -> absn (emit n ev) = absn n.
Proof.
  intros E. unfold absn, emit. simpl. rewrite existsb_app. simpl. by rewrite E, !orb_false_r.
Qed.

Lemma existsb_emits (f : Z -> Event) l n : (forall s, is_conflict (f s) = false) ->
  foldl (fun n s => emit n (f s)) n l = n <| n_events := n_events n ++ map f l |>.
Proof.
  intros Hf. revert n. induction l as [|s l IH]; intros n; simpl.
  - rewrite app_nil_r. by destruct n.
  - rewrite IH. unfold emit. simpl. by rewrite <- app_assoc.
Qed.

(** Two nodes that differ only in timers, leases, hints, reads and the like. *)
Definition same_core n n' : Prop :=
  absn n' = absn n /\ n_cfg n' = n_cfg n /\ n_quorum n' = n_quorum n /\ n_out n' = n_out n /\
  n_promised n' = n_promised n /\ n_accepted n' = n_accepted n /\ n_chosen n' = n_chosen n /\
  n_contacts n' = n_contacts n /\ promises (n_phase1 n') = promises (n_phase1 n) /\
  n_proposals n' = n_proposals n /\ n_nextSlot n' = n_nextSlot n /\ n_queue n' = n_queue n /\
  n_firstOwnSlot n' = n_firstOwnSlot n.

Lemma absn_failed n n' : absn n' = absn n -> is_failed n' = is_failed n.
Proof. intros E. apply (f_equal a_live) in E. simpl in E. by destruct (is_failed n'), (is_failed n). Qed.

Lemma good_at_core n n' G k : same_core n n' -> good_at n G k -> good_at n' G k.
Proof.
  intros (E & E1 & E2 & E3 & E4 & E5 & E6 & E7 & E8 & E9 & _ & E11 & _) [].
  assert (EF := absn_failed _ _ E).
  assert (Ed : disk n' = disk n) by exact (f_equal a_disk E).
  assert (Er : n_role n' = n_role n) by exact (f_equal a_role E).
  assert (Eb : n_ballot n' = n_ballot n) by exact (f_equal a_ballot E).
  assert (Ef : fromSlot (n_phase1 n') = fromSlot (n_phase1 n)) by exact (f_equal a_from E).
  split; rewrite ?E1, ?E2, ?E3, ?EF; auto.
  - intros F. destruct (g_mem0 F). split; congruence.
  - intros F. destruct (g_tidy0 F). split; rewrite ?Er, ?Eb, ?E7, ?E8, ?E9, ?Ef, ?E11; auto.
Qed.

Lemma above_core n n' s : same_core n n' -> above n s -> above n' s.
Proof.
  intros (E & _) [H1 H2]. split.
  - change (fromSlot (n_phase1 n')) with (a_from (absn n')). by rewrite E.
  - change (promises_of n') with (a_promises (absn n')). by rewrite E.
Qed.

Lemma good_core n n' G : same_core n n' -> good n G -> good n' G.
Proof.
  intros C [H1 H2]. pose proof C as (E & _ & _ & _ & _ & _ & _ & _ & _ & E9 & E10 & _). split.
  - rewrite E10. by eapply good_at_core.
  - unfold office in *. rewrite (absn_failed _ _ E), E9, E10. change (n_role n') with (a_role (absn n')). rewrite E.
    intros F R. destruct (H2 F R). split; [by eapply above_core|done].
Qed.

Lemma moves_core n n' G V : same_core n n' -> moves n G V n' G V.
Proof. intros (E & _). by apply moves_same. Qed.

Lemma same_core_refl n : same_core n n.
Proof. by repeat split. Qed.

Lemma same_core_trans n n1 n2 : same_core n n1 -> same_core n1 n2 -> same_core n n2.
Proof. unfold same_core. intuition congruence. Qed.

Lemma emit_core n ev : is_conflict ev = false -> same_core n (emit n ev).
Proof. intros E. split; [by apply absn_emit|by repeat split]. Qed.

Lemma timer_core t n : same_core n (set_election_timer t n).
Proof. by repeat split. Qed.

Lemma begin_core now n : same_core n (begin now n).
Proof. unfold begin. destruct (n_started n); [apply same_core_refl|by repeat split]. Qed.

Lemma lease_core now b n : same_core n (refreshLease now b n).
Proof. by repeat split. Qed.

Lemma noteLeader_core now b n : same_core n (noteLeader now b n).
Proof.
  unfold noteLeader. set (n1 := set_election_timer now n).
  assert (C : same_core n n1) by apply timer_core. destruct (_ || _); [|done].
  eapply same_core_trans; [exact C|]. eapply same_core_trans; [|by apply emit_core]. by repeat split.
Qed.

(** ** Messages out *)

Lemma tidy_grow n G G' k :
  (forall c m, G c m -> G' c m) -> (forall b s v, G' a (Accept b s v) -> G a (Accept b s v)) ->
  tidy A a W n G k -> tidy A a W n G' k.
Proof.
  intros H1 H2 []. split; auto.
  - intros R s v H. by eapply td_fresh0, H2.
  - intros R s v H. by eapply td_bound0, H2.
Qed.

Lemma good_at_grow n G G' k :
  (forall c m, G c m -> G' c m) -> (forall b s v, G' a (Accept b s v) -> G a (Accept b s v)) ->
  good_at n G k -> good_at n G' k.
Proof.
  intros H1 H2 []. split; auto.
  - intros env He. destruct (g_out0 env He) as (? & ? & ?). auto.
  - intros F. eapply tidy_grow; eauto.
Qed.

Lemma good_grow n G G' :
  (forall c m, G c m -> G' c m) -> (forall b s v, G' a (Accept b s v) -> G a (Accept b s v)) ->
  good n G -> good n G'.
Proof. intros H1 H2 [H3 H4]. split; [by eapply good_at_grow|done]. Qed.

Lemma say_grow m G : forall c k, G c k -> say a m G c k.
Proof. by left. Qed.

Lemma say_accept m G b s v : is_accept m = false -> say a m G a (Accept b s v) -> G a (Accept b s v).
Proof. by intros Hm [H|[_ <-]]. Qed.

(** What [send] does for a list of other nodes. *)
Definition push n (l : list NodeID) (m : Message) : Node T :=
  if is_failed n then n else n <| n_out := n_out n ++ map (fun p => mkEnvelope a p m) l |>.

Lemma push_absn n l m : absn (push n l m) = absn n.
Proof. unfold push. by destruct (is_failed n). Qed.

Lemma push_failed n l m : is_failed (push n l m) = is_failed n.
Proof. apply (absn_failed _ _ (push_absn n l m)). Qed.

Lemma moves_push n l m G V : moves n G V (push n l m) G V.
Proof. apply moves_same, push_absn. Qed.

Lemma good_at_push n l m G k : good_at n G k -> a ∉ l -> G a m -> good_at (push n l m) G k.
Proof.
  intros H Hl Hm. unfold push. destruct (is_failed n) eqn:F; [done|]. destruct H. split; simpl; auto.
  - intros env [He|He]%elem_of_app; [auto|]. change (env ∈ (fun p => mkEnvelope a p m) <$> l) in He.
    apply list_elem_of_fmap in He as (p & -> & Hp). simpl. split_and!; [done| |done]. by intros ->.
  - intros _. by destruct (g_mem0 F).
  - intros _. by destruct (g_tidy0 F).
Qed.

Lemma good_push n l m G : good n G -> a ∉ l -> G a m -> good (push n l m) G.
Proof.
  intros [H1 H2] Hl Hm. split.
  - replace (n_nextSlot (push n l m)) with (n_nextSlot n); [by apply good_at_push|].
    unfold push. by destruct (is_failed n).
  - rewrite push_failed. unfold push, office in *. by destruct (is_failed n).
Qed.

Section Inline.
Context (now : Z) (inline : Node T -> Message -> option (Node T)).

Lemma send_peer n to m : n_cfg n = cfg -> to <> a -> send inline n to m = Some (push n [to] m).
Proof.
  intros E Ht. unfold send, push. rewrite E, (cc_self _ _ _ cfg_ok). destruct (is_failed n); [done|].
  by rewrite (proj2 (Z.eqb_neq _ _) Ht).
Qed.

(** A reply to another node that the abstract node may say. *)
Lemma send_reply n G V to m :
  good n G -> to <> a -> is_accept m = false -> nstep A W a (mkLocal (absn n) G V) (mkLocal (absn n) (say a m G) V) ->
  does n G V (fun n' G' _ => good n' G') (send inline n to m).
Proof.
  intros H Ht Hm St. rewrite send_peer by (done || apply H).
  eapply does_ret; [eapply moves_one; [exact St|apply push_absn]|].
  apply good_push; [|by intros ?%list_elem_of_singleton|by right].
  eapply good_grow; [apply say_grow| |done]. intros b s v. by apply say_accept.
Qed.

Lemma foldM_push n l m : n_cfg n = cfg -> a ∉ l ->
  foldM (fun n p => if (p =? Self (n_cfg n)) && false then Some n else send inline n p m) n l = Some (push n l m).
Proof.
  revert n. induction l as [|p l IH]; intros n E Hl; simpl.
  - unfold push. simpl. rewrite app_nil_r. by destruct (is_failed n), n.
  - apply not_elem_of_cons in Hl as [Hp Hl]. rewrite andb_false_r. rewrite send_peer by done.
    cbn [mbind option_bind]. rewrite IH; [|unfold push; by destruct (is_failed n)|done].
    unfold push. destruct (is_failed n) eqn:F; [by rewrite F|].
    change (is_failed (n <| n_out := n_out n ++ map (λ p0, mkEnvelope a p0 m) [p] |>)) with (is_failed n).
    rewrite F. simpl. by rewrite <- app_assoc.
Qed.

(** [broadcast] with the node itself: the inline message in the middle. *)
Lemma broadcast_self n m : n_cfg n = cfg -> is_failed n = false ->
  exists l1 l2, a ∉ l1 /\ a ∉ l2 /\
    (forall n', n_cfg n' = cfg -> inline (push n l1 m) m = Some n' -> broadcast inline n m true = Some (push n' l2 m)).
Proof.
  intros E F. pose proof (cc_in _ _ _ cfg_ok) as Hin. pose proof (cc_nodup _ _ _ cfg_ok) as N.
  apply list_elem_of_split in Hin as (l1 & l2 & El). exists l1, l2. rewrite El in N.
  apply NoDup_app in N as (N1 & N2 & N3). apply NoDup_cons in N3 as [N3 _].
  assert (H1 : a ∉ l1) by (intros H; apply (N2 a H); by left). split_and!; [done..|].
  intros n' E' Hi. unfold broadcast. rewrite E, El.
  rewrite foldM_app. change (negb true) with false. rewrite foldM_push by done. cbn [mbind option_bind foldM].
  rewrite andb_false_r. unfold send. rewrite push_failed, F.
  assert (Ec : n_cfg (push n l1 m) = cfg) by (unfold push; by rewrite F).
  rewrite Ec, (cc_self _ _ _ cfg_ok), Z.eqb_refl, Hi. cbn [mbind option_bind]. by apply foldM_push.
Qed.

Lemma broadcast_others n m : n_cfg n = cfg -> exists l, a ∉ l /\ broadcast inline n m false = Some (push n l m).
Proof.
  intros E. exists (List.filter (fun p => negb (p =? a)) (Peers cfg)). split.
  { rewrite list_elem_of_In, filter_In, Z.eqb_refl. by intros [_ ?]. }
  unfold broadcast. rewrite E. generalize (Peers cfg) as l. intros l. revert n E.
  induction l as [|p l IH]; intros n E; simpl.
  - unfold push. simpl. rewrite app_nil_r. by destruct (is_failed n), n.
  - rewrite E, (cc_self _ _ _ cfg_ok), andb_true_r. destruct (Z.eqb_spec p a) as [->|Hne]; simpl; [by apply IH|].
    rewrite send_peer by done. cbn [mbind option_bind]. rewrite IH by (unfold push; by destruct (is_failed n)).
    unfold push. destruct (is_failed n) eqn:F; [by rewrite F|].
    change (is_failed (n <| n_out := n_out n ++ map (λ p0, mkEnvelope a p0 m) [p] |>)) with (is_failed n).
    rewrite F. simpl. by rewrite <- app_assoc.
Qed.
End Inline.

(** ** Raising the promise, stepping down *)

(** The candidacy is as before. *)
Record kept n n' : Prop := {
  k_role : n_role n' = n_role n;
  k_ballot : n_ballot n' = n_ballot n;
  k_phase1 : n_phase1 n' = n_phase1 n;
  k_next : n_nextSlot n' = n_nextSlot n;
  k_queue : n_queue n' = n_queue n;
  k_own : n_firstOwnSlot n' = n_firstOwnSlot n;
}.

(** The node failed, stepped down, or carries on. *)
Definition calm n n' : Prop := is_failed n' = true \/ n_role n' = Follower \/ kept n n'.

Lemma kept_refl n : kept n n.
Proof. done. Qed.

Lemma kept_trans n n1 n2 : kept n n1 -> kept n1 n2 -> kept n n2.
Proof. intros [] []. split; congruence. Qed.

Lemma core_kept n n' : same_core n n' -> n_phase1 n' = n_phase1 n -> kept n n'.
Proof.
  intros (E & _ & _ & _ & _ & _ & _ & _ & _ & _ & E1 & E2 & E3) Ep. split; try done.
  - exact (f_equal a_role E).
  - exact (f_equal a_ballot E).
Qed.

Lemma good_at_any n G k k' : (is_failed n = true \/ n_role n <> Leader) -> good_at n G k -> good_at n G k'.
Proof. intros R []. split; auto. intros F. destruct R as [R|R]; [congruence|]. destruct (g_tidy0 F). by split. Qed.

(** A leader that is a majority by itself has the same proposals as before. *)
Definition still n n' : Prop :=
  majority A < 2 -> is_failed n' = false -> n_role n' = Leader -> n_proposals n' = n_proposals n.

Lemma still_two n n' : 2 <= majority A -> still n n'.
Proof. intros H H'. lia. Qed.

Lemma good_calm n n' G G' : good n G -> is_failed n = false -> calm n n' -> still n n' -> good_at n' G' (n_nextSlot n) -> good n' G'.
Proof.
  intros [_ Ha] F C S H. destruct C as [C|[C|C]].
  - split; [eapply good_at_any; eauto|congruence].
  - assert (n_role n' <> Leader) by congruence. split; [eapply good_at_any; eauto|congruence].
  - destruct C as [E1 _ E3 E4 _ _]. split; [by rewrite E4|]. intros F' R. destruct (Ha F ltac:(congruence)) as [H1 H2]. split.
    + rewrite E4. unfold above, promises_of in *. by rewrite E3.
    + intros Ho. rewrite (S Ho F' R). by apply H2.
Qed.

Lemma stepDown_absn now l lb w n :
  let y := absn (stepDown now l lb w n) in
  a_disk y = a_disk (absn n) /\ a_max y = a_max (absn n) /\ a_live y = a_live (absn n) /\ a_role y = Follower /\
  a_conflict y = a_conflict (absn n) /\ a_known y = a_known (absn n) /\ a_commit y = a_commit (absn n).
Proof.
  unfold stepDown. rewrite (existsb_emits (fun s => ReadFailed s (mkNotLeaderError l))) by done.
  unfold absn, disk, is_failed, emit, set_election_timer, randomElectionTimeout, Int64N. simpl.
  split_and!; try reflexivity. rewrite !existsb_app. simpl. rewrite orb_false_r.
  induction (sorted_keys (n_reads n)); simpl; [apply orb_false_r|done].
Qed.

Lemma stepDown_fields now l lb w n :
  let n' := stepDown now l lb w n in
  n_cfg n' = n_cfg n /\ n_quorum n' = n_quorum n /\ n_out n' = n_out n /\ n_promised n' = n_promised n /\
  n_accepted n' = n_accepted n /\ n_chosen n' = n_chosen n /\ n_role n' = Follower /\ n_failed n' = n_failed n /\
  n_store n' = n_store n /\ n_queue n' = [].
Proof.
  unfold stepDown. rewrite (existsb_emits (fun s => ReadFailed s (mkNotLeaderError l))) by done.
  unfold emit, set_election_timer, randomElectionTimeout, Int64N. simpl. by repeat split.
Qed.

Lemma stepDown_spec now l lb w n G V k :
  good_at n G k ->
  let n' := stepDown now l lb w n in
  moves n G V n' G V /\ good_at n' G k /\ is_failed n' = is_failed n /\ n_role n' = Follower.
Proof.
  intros H n'. destruct (stepDown_absn now l lb w n) as (E1 & E2 & E3 & E4 & E5 & E6 & E7).
  destruct (stepDown_fields now l lb w n) as (F1 & F2 & F3 & F4 & F5 & F6 & F7 & F8 & F9 & F11).
  fold n' in E1, E2, E3, E4, E5, E6, E7, F1, F2, F3, F4, F5, F6, F7, F8, F9, F11. clearbody n'.
  assert (F10 : is_failed n' = is_failed n) by (unfold is_failed; by rewrite F8).
  split_and!; [eapply moves_one; [by apply s_down|reflexivity]| |done|done].
  destruct H as [H1 H2 H3 H4 H5]. split; [congruence|congruence|by rewrite F3|..]; rewrite F10; intros F.
  - destruct (H4 F) as [M1 M2 M3]. unfold disk in *. split; unfold disk; congruence.
  - split; try congruence. rewrite F11. by intros v ?%not_elem_of_nil.
Qed.

(** What a save that comes with an abstract step leaves. *)
Lemma save_does n0 n r G V V1 y k :
  is_failed n = false -> good_at n0 G k -> n_cfg n = n_cfg n0 -> n_quorum n = n_quorum n0 -> n_out n = n_out n0 ->
  disk n = disk n0 -> (n_events n, n_chosen n, n_commitIndex n) = (n_events n0, n_chosen n0, n_commitIndex n0) ->
  nstep A W a (mkLocal (absn n0) G V) (mkLocal y G V1) -> a_disk y = save_rec (disk n) r ->
  (a_conflict y, a_known y, a_commit y) = (a_conflict (absn n0), a_known (absn n0), a_commit (absn n0)) ->
  (exists st, save n r = (n <| n_store := st |>, true) /\ contents st = save_rec (disk n) r) \/
  (exists n' V', save n r = (n', false) /\ is_failed n' = true /\ moves n0 G V n' G V' /\ good_at n' G k /\
     (V' = V \/ V' = V1)).
Proof.
  intros F [H1 H2 H3 _ _] Ec Eq Eo Ed [= Ee Ek Ei] St Ey [= Yc Yk Yi].
  destruct (save_spec n r F) as [(st & E & Es)|(n' & E & F' & E1 & E2 & E3 & E4 & E6 & E7 & [E5|E5])]; [left; eauto|right..].
  - exists n', V. split_and!; [done..| |apply good_failed; [done|congruence..|by rewrite E3, Eo]|auto].
    eapply moves_one; [|reflexivity]. apply s_fail; simpl; [congruence|by rewrite F'|by rewrite E4, Ee|congruence|congruence].
  - exists n', V1. split_and!; [done..| |apply good_failed; [done|congruence..|by rewrite E3, Eo]|auto].
    eapply rtc_l; [exact St|]. apply rtc_once, s_fail; simpl; [congruence|by rewrite F'| |congruence|congruence].
    by rewrite E4, Ee, Yc.
Qed.

Lemma note_round_spec b n G V k :
  is_failed n = false -> good_at n G k ->
  let '(n', ok) := note_round b n in
  moves n G V n' G V /\ good_at n' G k /\ is_failed n' = negb ok /\
  (ok = true -> kept n n' /\ n_promised n' = n_promised n /\ bal_round b <= n_maxRound n' /\
     n_proposals n' = n_proposals n /\ n_contacts n' = n_contacts n).
Proof.
  intros F H. unfold note_round. destruct (Z.ltb_spec (n_maxRound n) (bal_round b)) as [Hlt|Hge];
    [|split; [apply moves_refl|]; rewrite F; by split_and!].
  set (n1 := n <| n_maxRound := bal_round b |>). change (n_maxRound n1) with (bal_round b).
  assert (St : nstep A W a (mkLocal (absn n) G V) (mkLocal (absn n <| a_disk := SaveMaxRound (disk n) (bal_round b) |>
                 <| a_max := bal_round b |>) G V)) by (apply s_round; [simpl; by rewrite F|done]).
  destruct (save_does n n1 (SMaxRound (bal_round b)) G V V _ k F H eq_refl eq_refl eq_refl eq_refl eq_refl St eq_refl eq_refl)
    as [(st & E & Es)|(n' & V' & E & F' & M & H' & HV)]; rewrite E.
  - split_and!.
    + eapply moves_one; [exact St|]. unfold absn, disk. simpl. by rewrite Es.
    + destruct H as [H1 H2 H3 H4 H5]. split; auto.
      * intros F1. destruct (H4 F) as [M1 M2 M3]. split; unfold disk in *; simpl; by rewrite Es.
      * intros F1. destruct (H5 F). by split.
    + done.
    + intros _. split_and!; [done..|simpl; lia|done|done].
  - destruct HV as [->| ->]; by split_and!.
Qed.

Lemma setPromised_spec now b n G V k :
  is_failed n = false -> good_at n G k -> Less (n_promised n) b = true ->
  let n' := setPromised now b n in
  moves n G V n' G V /\ good_at n' G k /\
  (is_failed n' = false -> n_promised n' = b /\
     (n_role n' = Follower \/ (kept n n' /\ n_proposals n' = n_proposals n /\ n_contacts n' = n_contacts n)) /\
     (Less (n_ballot n) b = false -> kept n n' /\ n_proposals n' = n_proposals n /\ n_contacts n' = n_contacts n)).
Proof.
  intros F H Hb. unfold setPromised. pose proof (note_round_spec b n G V k F H) as R.
  destruct (note_round b n) as [n1 ok]. destruct R as (M1 & H1 & F1 & R).
  destruct ok; simpl in F1; cbn [negb]; [|split_and!; [done..|congruence]].
  destruct (R eq_refl) as (K & Ep & Hr & Epr & Ect).
  set (n2 := n1 <| n_promised := b |>).
  assert (Em : ms_promised (disk n1) = n_promised n) by (rewrite <- Ep; symmetry; apply H1, F1).
  assert (St : nstep A W a (mkLocal (absn n1) G V) (mkLocal (absn n1 <| a_disk := SavePromised (disk n1) b |>) G V))
    by (apply s_promise; [simpl; by rewrite Em|done]).
  destruct (save_does n1 n2 (SPromised b) G V V _ k F1 H1 eq_refl eq_refl eq_refl eq_refl eq_refl St eq_refl eq_refl)
    as [(st & E & Es)|(n' & V' & E & F' & M & H' & HV)]; rewrite E.
  2: { cbn [negb]. split_and!; [|done|congruence]. eapply moves_trans; [exact M1|]. by destruct HV as [->| ->]. }
  cbn [negb]. set (n3 := n2 <| n_store := st |>).
  assert (M3 : moves n G V n3 G V).
  { eapply moves_trans; [exact M1|]. eapply moves_one; [exact St|]. unfold absn, disk. simpl. by rewrite Es. }
  assert (H3 : good_at n3 G k).
  { destruct H1 as [X1 X2 X3 X4 X5]. split; auto.
    - intros _. destruct (X4 F1) as [Y1 Y2 Y3]. split; unfold disk in *; simpl; by rewrite Es.
    - intros _. destruct (X5 F1). by split. }
  assert (K3 : kept n n3) by by destruct K.
  assert (F3 : is_failed n3 = false) by done.
  assert (P3 : n_promised n3 = b) by done. assert (B3 : n_ballot n3 = n_ballot n) by apply K3.
  assert (R3 : n_proposals n3 = n_proposals n) by done. assert (C3 : n_contacts n3 = n_contacts n) by done.
  clearbody n3. clear n2 St E Es. rewrite B3.
  assert (Hstay : moves n G V n3 G V /\ good_at n3 G k /\ (is_failed n3 = false -> n_promised n3 = b /\
     (n_role n3 = Follower \/ (kept n n3 /\ n_proposals n3 = n_proposals n /\ n_contacts n3 = n_contacts n)) /\
     (Less (n_ballot n) b = false -> kept n n3 /\ n_proposals n3 = n_proposals n /\ n_contacts n3 = n_contacts n))).
  { split_and!; [done..|]. intros _. split_and!; [done|by right|done]. }
  destruct (is_role n3 Follower); cbn [negb andb]; [done|]. destruct (Less (n_ballot n) b) eqn:EL; [|done]. clear Hstay.
  destruct (stepDown_spec now (bal_node b) b 0 n3 G V k H3) as (M4 & H4 & F4 & R4).
  destruct (stepDown_fields now (bal_node b) b 0 n3) as (_ & _ & _ & P4 & _).
  split_and!; [by eapply moves_trans|done|]. intros _. rewrite P4. split_and!; [done|by left|done].
Qed.

(** ** Handlers that send nothing *)

(** The result of a handler that keeps the slots below [k]. *)
Definition stays n k : Node T -> (NodeID -> Message -> Prop) -> (NodeID -> PValue -> Prop) -> Prop :=
  fun n' G' _ => good_at n' G' k /\ calm n n'.

Lemma is_role_spec n r : reflect (n_role n = r) (is_role n r).
Proof. unfold is_role. case_bool_decide; by constructor. Qed.

Lemma down_spec now b l w n G V k :
  is_failed n = false -> good_at n G k ->
  let n' := (let '(n, ok) := note_round b n in exit_if negb ok with n; stepDown now l b w n) in
  moves n G V n' G V /\ good_at n' G k /\ (is_failed n' = true \/ n_role n' = Follower).
Proof.
  intros F H. pose proof (note_round_spec b n G V k F H) as R. destruct (note_round b n) as [n1 ok].
  destruct R as (M1 & H1 & F1 & _). destruct ok; simpl in F1; cbn [negb].
  - destruct (stepDown_spec now l b w n1 G V k H1) as (M2 & H2 & _ & R2).
    split; [by eapply moves_trans|]. split; [done|]. by right.
  - split; [done|]. split; [done|]. by left.
Qed.

Lemma out_calm n n' : is_failed n' = true \/ n_role n' = Follower -> calm n n' /\ still n n'.
Proof. intros [H|H]; (split; [|intros _ F R; congruence]); [by left|by right; left]. Qed.

(** ... and the proposals of a leader that is a majority by itself. *)
Definition remains n k : Node T -> (NodeID -> Message -> Prop) -> (NodeID -> PValue -> Prop) -> Prop :=
  fun n' G' V' => stays n k n' G' V' /\ still n n'.

Lemma remains_out n n' G' V' k : good_at n' G' k -> is_failed n' = true \/ n_role n' = Follower -> remains n k n' G' V'.
Proof. intros H C. destruct (out_calm n n' C). by split. Qed.

Lemma remains_refl n G V k : good_at n G k -> does n G V (remains n k) (Some n).
Proof. intros H. eapply does_ret; [apply moves_refl|]. split; [split; [done|by right; right]|done]. Qed.

Lemma calm_refl n : calm n n.
Proof. by right; right. Qed.

Lemma onNack_spec now n from b p w G V k :
  is_failed n = false -> good_at n G k -> does n G V (remains n k) (Some (onNack now n from b p w)).
Proof.
  intros F H. unfold onNack. destruct (_ || _); [by apply remains_refl|]. destruct (negb _); [by apply remains_refl|].
  destruct (down_spec now p (bal_node p) w n G V k F H) as (M & H' & C). eapply does_ret; [exact M|]. by apply remains_out.
Qed.

Lemma ack_read_core from r n s : same_core n (ack_read from r n s) /\ n_phase1 (ack_read from r n s) = n_phase1 n.
Proof.
  unfold ack_read. destruct (r <? s); [by split; [apply same_core_refl|]|].
  destruct (n_reads n !! s) as [rd|]; [|by split; [apply same_core_refl|]].
  destruct (_ <=? _); split; try reflexivity.
  - eapply same_core_trans; [by apply (emit_core n (ReadReady s (index rd)))|]. by repeat split.
  - by repeat split.
Qed.

Lemma ack_reads_core from r l n :
  same_core n (foldl (ack_read from r) n l) /\ n_phase1 (foldl (ack_read from r) n l) = n_phase1 n.
Proof.
  revert n. induction l as [|s l IH]; intros n; simpl; [by split; [apply same_core_refl|]|].
  destruct (ack_read_core from r n s) as [C1 P1], (IH (ack_read from r n s)) as [C2 P2].
  split; [by eapply same_core_trans|congruence].
Qed.

Lemma core_calm n n' : same_core n n' -> n_phase1 n' = n_phase1 n -> calm n n'.
Proof. intros C E. right; right. by apply core_kept. Qed.

Lemma kept_calm n n1 n2 : kept n n1 -> calm n1 n2 -> calm n n2.
Proof.
  intros K [H|[H|H]]; [by left|by right; left|right; right]. by eapply kept_trans.
Qed.

Lemma onHeartbeatAck_spec now n from b p r G V k :
  is_failed n = false -> good_at n G k -> does n G V (remains n k) (onHeartbeatAck now n from b p r).
Proof.
  intros F H. unfold onHeartbeatAck.
  assert (Hid : does n G V (remains n k) (Some n)) by by apply remains_refl.
  destruct (is_role n Follower); [done|]. destruct (Less (n_ballot n) p).
  { destruct (down_spec now p (bal_node p) 0 n G V k F H) as (M & H' & C). revert M H' C. simpl.
    destruct (note_round p n) as [n1 ok]. destruct ok; cbn [negb]; intros; (eapply does_ret; [done|by apply remains_out]). }
  destruct (is_role_spec n Leader) as [R|R]; cbn [negb orb]; [|done].
  destruct (negb _); [done|].
  destruct (td_contacts _ _ _ _ _ _ (g_tidy _ _ _ _ _ _ _ H F) R) as [ct Ect]. rewrite Ect. cbn [mbind option_bind].
  set (n1 := n <| n_contacts := Some _ |>).
  assert (M1 : moves n G V n1 G V) by (apply moves_same; reflexivity).
  assert (H1 : good_at n1 G k).
  { destruct H as [X1 X2 X3 X4 X5]. split; auto; intros _; [by destruct (X4 F)|]. by destruct (X5 F). }
  assert (K1 : kept n n1) by done.
  destruct (negb _); [eapply does_ret; [exact M1|split; [split; [done|by right; right]|done]]|].
  destruct (ack_reads_core from r (sorted_keys (n_reads n1)) n1) as [C2 P2].
  eapply does_ret; [eapply moves_trans; [exact M1|by apply moves_core]|].
  split; [|intros _ _ _; change (n_proposals n) with (n_proposals n1); apply C2].
  split; [by eapply good_at_core|]. eapply kept_calm; [exact K1|]. by apply core_calm.
Qed.

(** ** Voting and counting votes *)

(** The part of [onAccept] that votes. *)
Lemma vote_spec now n l b s v G V k :
  is_failed n = false -> good_at n G k -> Less b (n_promised n) = false -> G l (Accept b s v) ->
  let pv := mkPValue b s v in
  let n1 := if Less (n_promised n) b then setPromised now b n else n in
  (is_failed n1 = true /\ moves n G V n1 G V /\ good_at n1 G k) \/
  (is_failed n1 = false /\ exists n2 V2, save n1 (SAccepted pv) = (n2, false) /\ is_failed n2 = true /\
     moves n G V n2 G V2 /\ good_at n2 G k) \/
  (is_failed n1 = false /\ exists st, save n1 (SAccepted pv) = (n1 <| n_store := st |>, true) /\
     let n2 := n1 <| n_store := st |> in
     let n3 := n2 <| n_accepted := <[s := pv]> (n_accepted n2) |> in
     is_failed n3 = false /\ moves n G V n3 G (vote a pv V) /\ good_at n3 G k /\ calm n n3 /\
     (Less (n_ballot n) b = false -> kept n n3 /\ n_proposals n3 = n_proposals n)).
Proof.
  intros F H Hle Hs pv n1.
  assert (H1 : moves n G V n1 G V /\ good_at n1 G k /\ (is_failed n1 = false -> n_promised n1 = b /\ calm n n1 /\
             (Less (n_ballot n) b = false -> kept n n1 /\ n_proposals n1 = n_proposals n))).
  { subst n1. destruct (Less (n_promised n) b) eqn:EL.
    - destruct (setPromised_spec now b n G V k F H EL) as (M & H1 & P). split; [done|split; [done|]].
      intros F1. destruct (P F1) as (P1 & P2 & P3). split; [done|split].
      + destruct P2 as [R|(K & _)]; [by right; left|by right; right].
      + intros HB. destruct (P3 HB) as (K & E & _). done.
    - split; [apply moves_refl|]. split; [done|]. intros _. split; [ballots|]. split; [apply calm_refl|done]. }
  clearbody n1. destruct H1 as (M1 & H1 & P1). destruct (is_failed n1) eqn:F1; [by left|right].
  destruct (P1 eq_refl) as (Ep & C1 & K1). clear P1.
  assert (Em : ms_promised (disk n1) = b) by (rewrite <- Ep; symmetry; apply H1, F1).
  pose proof (s_accept A W a (absn n1) G V l b s v Hs Em) as St. fold pv in St.
  destruct (save_does n1 n1 (SAccepted pv) G V _ _ k F1 H1 eq_refl eq_refl eq_refl eq_refl eq_refl St eq_refl eq_refl)
    as [(st & E & Es)|(n' & V' & E & F' & M & H' & HV)]; [right|left]; (split; [done|]).
  - exists st. split; [done|]. intros n2 n3. split; [done|]. split.
    { eapply moves_trans; [exact M1|]. eapply moves_one; [exact St|]. unfold absn, disk. simpl. by rewrite Es. }
    split; [|split].
    + destruct H1 as [X1 X2 X3 X4 X5]. split; auto.
      * intros _. destruct (X4 F1) as [Y1 Y2 Y3]. subst n2 n3. unfold disk in *.
        split; unfold disk; simpl; rewrite Es; simpl; [done|by rewrite Y2|done].
      * intros _. destruct (X5 F1). by split.
    + destruct C1 as [C|[C|[]]]; [congruence|by right; left|right; right]. by split.
    + intros HB. destruct (K1 HB) as [[] Ek]. by split.
  - exists n', V'. split_and!; [done|done|by eapply moves_trans|done].
Qed.

Lemma absn_proposals n m : props_of (n <| n_proposals := m |>) = (fun p => (value p, accepts p)) <$> m.
Proof. reflexivity. Qed.

(** Counting an acceptance. *)
Lemma count_spec n c s p G V k :
  is_failed n = false -> good_at n G k -> n_role n = Leader -> n_proposals n !! s = Some p -> c ∈ A ->
  G c (Accepted (n_ballot n) s) ->
  let n1 := n <| n_proposals := <[s := p <| accepts := {[c]} ∪ accepts p |>]> (n_proposals n) |> in
  moves n G V n1 G V /\ good_at n1 G k /\ kept n n1.
Proof.
  intros F H R Hp Hc HG n1. assert (Hpr : props_of n !! s = Some (value p, accepts p)).
  { unfold props_of. by rewrite lookup_fmap, Hp. }
  split; [|split; [|done]].
  - eapply moves_one; [apply (s_count A W a (absn n) G V c s (value p) (accepts p)); try done; simpl; by rewrite F|].
    unfold absn. unfold n1 at 8. rewrite absn_proposals, fmap_insert. reflexivity.
  - destruct H as [X1 X2 X3 X4 X5]. split; auto; intros _; [by destruct (X4 F)|].
    destruct (X5 F) as [Y1 Y2 Y6 Y3 Y4 Y5 Y7]. split; auto. intros _ t q. simpl. rewrite lookup_insert.
    case_decide; [intros [= <-]; subst; exact (Y5 R _ _ Hp)|by apply Y5].
Qed.

Lemma onAccepted_few now inline n c s p G V k :
  is_failed n = false -> good_at n G k -> n_role n = Leader -> n_proposals n !! s = Some p -> c ∈ A ->
  G c (Accepted (n_ballot n) s) -> Z.of_nat (size ({[c]} ∪ accepts p)) < majority A ->
  does n G V (stays n k) (onAccepted now inline n c (n_ballot n) s).
Proof.
  intros F H R Hp Hc HG Hq. unfold onAccepted, is_role. rewrite (bool_decide_eq_true_2 _ R), (bool_decide_eq_true_2 _ (eq_refl (n_ballot n))). simpl.
  rewrite Hp. destruct (count_spec n c s p G V k F H R Hp Hc HG) as (M & H1 & K). simpl in M, H1, K.
  rewrite (g_quorum _ _ _ _ _ _ _ H). rewrite (proj2 (Z.ltb_lt _ _) Hq).
  eapply does_ret; [exact M|]. split; [done|by right; right].
Qed.

(** ** Messages to itself *)

(** What a leader's own vote for a proposal leaves: alone, it has decided it. *)
Definition decided n (s : Slot) n' : Prop :=
  majority A < 2 -> is_failed n' = false -> n_role n' = Leader ->
  n_proposals n' = delete s (n_proposals n) /\ (s < 2 ^ 63 -> counted n').

(** What a node needs to take over alone. *)
Definition able n : Prop :=
  counted n /\ fromSlot (n_phase1 n) <= 2 ^ 63 /\ forall s pv, n_accepted n !! s = Some pv -> pv_slot pv < 2 ^ 63.

(** What the handlers need of the inline processing of the three messages a
    node sends to itself. *)
Definition accept_ok (inline : Node T -> Message -> option (Node T)) : Prop :=
  forall n s v t G V k, is_failed n = false -> good_at n G k -> n_role n = Leader -> s <> 0 -> (majority A < 2 -> counted n) ->
    n_proposals n !! s = Some (mkProposal v ∅ t) -> G a (Accept (n_ballot n) s v) ->
    does n G V (fun n' G' V' => stays n k n' G' V' /\ decided n s n') (inline n (Accept (n_ballot n) s v)).

Record inline_ok (inline : Node T -> Message -> option (Node T)) : Prop := {
  io_accept : accept_ok inline;
  io_prepare n G V k : is_failed n = false -> good_at n G k -> n_role n = Candidate -> (majority A < 2 -> able n) ->
    promises (n_phase1 n) = Some ∅ -> G a (Prepare (n_ballot n) (fromSlot (n_phase1 n))) ->
    does n G V (fun n' G' _ => good n' G') (inline n (Prepare (n_ballot n) (fromSlot (n_phase1 n))));
  io_heartbeat n c r G V k : is_failed n = false -> good_at n G k -> n_role n = Leader ->
    does n G V (remains n k) (inline n (Heartbeat (n_ballot n) c r));
}.

Lemma send_self inline n m G k : good_at n G k -> is_failed n = false -> send inline n a m = inline n m.
Proof.
  intros H F. unfold send. rewrite F, (g_cfg _ _ _ _ _ _ _ H), (cc_self _ _ _ cfg_ok). by rewrite Z.eqb_refl.
Qed.

Definition self_handle (fuel : nat) (now : Z) n m := handle fuel now n (Self (n_cfg n)) m.

Lemma self_handle_S fuel now n G k m : good_at n G k -> is_failed n = false ->
  self_handle (S fuel) now n m =
    match m with
    | Prepare b s => onPrepare now (self_handle fuel now) n a b s
    | Promise p => onPromise now (self_handle fuel now) n a p
    | Accept b s v => onAccept now (self_handle fuel now) n a b s v
    | Accepted b s => onAccepted now (self_handle fuel now) n a b s
    | Nack b p _ w => Some (onNack now n a b p w)
    | Learn s b v => onLearn now (self_handle fuel now) n a s b v
    | LearnRequest s c => onLearnRequest (self_handle fuel now) n a s c
    | Heartbeat b c r => onHeartbeat now (self_handle fuel now) n a b c r
    | HeartbeatAck b p _ r => onHeartbeatAck now n a b p r
    end.
Proof.
  intros H F. unfold self_handle at 1. rewrite (g_cfg _ _ _ _ _ _ _ H), (cc_self _ _ _ cfg_ok). simpl. by rewrite F.
Qed.

Lemma stays_refl n G V k : good_at n G k -> does n G V (stays n k) (Some n).
Proof. intros H. eapply does_ret; [apply moves_refl|]. split; [done|apply calm_refl]. Qed.

Lemma stays_ret n n' G V G' V' k :
  moves n G V n' G' V' -> good_at n' G' k -> calm n n' -> does n G V (stays n k) (Some n').
Proof. intros. by eapply does_ret. Qed.

Lemma safe_knobs n knob G k : good_at n G k -> unsafe n knob = false.
Proof. intros H. unfold unsafe. by rewrite (g_cfg _ _ _ _ _ _ _ H), (cc_safe _ _ _ cfg_ok). Qed.

Lemma reply_step n G V l b f k : is_failed n = false -> good_at n G k -> G l (Prepare b f) -> n_promised n = b ->
  nstep A W a (mkLocal (absn n) G V)
    (mkLocal (absn n) (say a (Promise (mkPromiseMsg b (acceptedFrom n f) (n_commitIndex n))) G) V).
Proof.
  intros F H HG Hp. destruct (g_mem _ _ _ _ _ _ _ H F) as [M1 M2 _].
  replace (acceptedFrom n f) with (accepted_from (ms_accepted (a_disk (absn n))) f)
    by (unfold acceptedFrom, accepted_from; simpl; by rewrite M2).
  apply s_reply with l; [done|]. simpl. by rewrite <- M1.
Qed.

(** Collecting a promise. *)
Lemma collect_spec n c m ps G V k :
  is_failed n = false -> good_at n G k -> n_role n = Candidate -> promises (n_phase1 n) = Some ps -> c ∈ A ->
  G c (Promise m) -> p_ballot m = n_ballot n ->
  let n1 := n <| n_phase1 := n_phase1 n <| promises := Some (<[c := m]> ps) |> |> in
  moves n G V n1 G V /\ good_at n1 G k.
Proof.
  intros F H R Hp Hc HG Hb n1. split.
  - eapply moves_one; [apply (s_collect A W a (absn n) G V c m); try done; simpl; by rewrite F|].
    unfold absn, promises_of. simpl. by rewrite Hp.
  - destruct H as [X1 X2 X3 X4 X5]. split; auto; intros _; [by destruct (X4 F)|].
    destruct (X5 F) as [Y1 Y2 Y6 Y3 Y4 Y5 Y7]. split; eauto.
Qed.

Lemma onPromise_few now inline n c m ps G V k :
  is_failed n = false -> good_at n G k -> n_role n = Candidate -> promises (n_phase1 n) = Some ps -> c ∈ A ->
  G c (Promise m) -> p_ballot m = n_ballot n -> Z.of_nat (size (<[c := m]> ps)) < majority A ->
  does n G V (fun n' G' _ => good_at n' G' k /\ n_role n' = Candidate) (onPromise now inline n c m).
Proof.
  intros F H R Hp Hc HG Hb Hq. unfold onPromise, is_role.
  rewrite (bool_decide_eq_true_2 _ R), (bool_decide_eq_true_2 _ Hb). cbn [negb orb]. rewrite Hp. cbn [mbind option_bind].
  destruct (collect_spec n c m ps G V k F H R Hp Hc HG Hb) as [M H1]. set (n1 := n <| n_phase1 := _ |>) in *.
  replace (n_quorum n1) with (majority A) by (symmetry; apply H).
  rewrite (proj2 (Z.leb_gt _ _) Hq). by eapply does_ret.
Qed.

End Steps.
