(* ===== verification/Handlers.v ===== *)
(** The handlers of the log node that send to others, and the driving methods
    [Step], [Tick], [Propose] and [ReadIndex]: each returns, and does what a
    sequence of the abstract steps of LogSpec.v does. *)

From S2P Require Import Prelude GoStd Paxos Voting Store Replog LogSpec NodeSteps.

(** The counters of a node are below 2^63: at a million slots a second they
    take 292,000 years to get there.  The slots a node has accepted matter where
    its own promise makes it leader. *)
Record roomy {T} (n : Node T) : Prop := {
  ro_round : 0 <= n_maxRound n < 2 ^ 63;
  ro_next : 0 <= n_nextSlot n < 2 ^ 63;
  ro_commit : 0 <= n_commitIndex n < 2 ^ 63;
  ro_queue : len (n_queue n) < 2 ^ 62;
  ro_from : fromSlot (n_phase1 n) <= 2 ^ 63;
  ro_chosen : forall s e, n_chosen n !! s = Some e -> s < 2 ^ 63;
  ro_promises : forall c m pv, promises_of n !! c = Some m -> pv ∈ p_accepted m -> pv_slot pv < 2 ^ 63;
  ro_reads : 0 <= n_readSeq n < 2 ^ 63;
  ro_accepted : n_quorum n < 2 -> forall s pv, n_accepted n !! s = Some pv -> pv_slot pv < 2 ^ 63;
}.

(** Folding with the larger of two. *)
Lemma foldl_up (l : list Z) t :
  let r := foldl (fun top s => if top <? s then s else top) t l in
  t <= r /\ (forall s, s ∈ l -> s <= r) /\ (r = t \/ r ∈ l).
Proof.
  revert t. induction l as [|x l IH]; intros t; simpl.
  - split_and!; [done|by intros s ?%not_elem_of_nil|by left].
  - destruct (IH (if t <? x then x else t)) as (H1 & H2 & H3).
    assert (Hx : t <= (if t <? x then x else t) /\ x <= (if t <? x then x else t)) by (destruct (Z.ltb_spec t x); lia).
    split_and!; [lia| |].
    + intros s [->|Hs]%elem_of_cons; [lia|by apply H2].
    + destruct H3 as [->|H3]; [|by right; right]. destruct (t <? x); [by right; left|by left].
Qed.

Lemma sorted_keys_perm {A} (m : gmap Z A) : sorted_keys m ≡ₚ (map_to_list m).*1.
Proof. apply stable_sort_Permutation. Qed.

Lemma sorted_promises_perm (m : gmap NodeID PromiseMsg) : sorted_promises m ≡ₚ map_to_list m.
Proof.
  unfold sorted_promises. rewrite sorted_keys_perm.
  assert (H : forall l, l ⊆ map_to_list m -> omap (fun id => p ← m !! id; Some (id, p)) l.*1 = l).
  { induction l as [|[c p] l IH]; intros Hs; [done|]. simpl.
    assert (Hc : m !! c = Some p) by (apply elem_of_map_to_list, Hs; by left).
    rewrite Hc. simpl. f_equal. apply IH. intros y Hy. apply Hs. by right. }
  by rewrite H.
Qed.

(** ** The random source *)

(** A validated configuration never asks for a number out of an empty range. *)
Lemma timeout_span_positive c :
  Validate c = None -> let d := withDefaults c in in_i64 (ElectionTimeoutMax d) ->
  0 < i64 (i64 (ElectionTimeoutMax d - ElectionTimeoutMin d) + 1).
Proof.
  intros H d Hi. unfold Validate in H. fold d in H. repeat case_match; try done; b2p. unfold in_i64 in Hi.
  assert (E : i64 (ElectionTimeoutMax d - ElectionTimeoutMin d) = ElectionTimeoutMax d - ElectionTimeoutMin d)
    by (apply i64_id; unfold in_i64; lia).
  rewrite E, i64_id; unfold in_i64; lia.
Qed.

(** A validated window has a place. *)
Lemma Validate_window c : Validate c = None -> 1 <= Window (withDefaults c).
Proof. unfold Validate. intros H. repeat case_match; try done; b2p. lia. Qed.

(** Defaults are filled in once. *)
Lemma withDefaults_idem c : withDefaults (withDefaults c) = withDefaults c.
Proof. unfold withDefaults. simpl. f_equal; match goal with |- context [?f c =? 0] => by destruct (f c =? 0) eqn:E; rewrite ?E end. Qed.

(** ** The commit index *)

(** The commit index advances over chosen slots only, and does not wrap. *)
Lemma advance_range (chosen : gmap Slot Entry) k0 fuel c0 c :
  0 <= c0 <= c -> c < 2 ^ 63 \/ (c = 2 ^ 63 /\ k0 = 2 ^ 63) ->
  (forall s e, chosen !! s = Some e -> s < 2 ^ 63 \/ s = k0) ->
  (forall k, c0 < k <= c -> is_Some (chosen !! k)) ->
  let c' := advance fuel chosen c in
  c0 <= c' /\ forall k, c0 < k <= c' -> is_Some (chosen !! k).
Proof.
  revert c. induction fuel as [|fuel IH]; intros c H0 Hc Hs Hk; simpl; [split; [lia|done]|].
  destruct (chosen !! u64 (c + 1)) as [e|] eqn:E; [|split; [lia|done]].
  assert (Eu : u64 (c + 1) = c + 1) by (apply u64_id; unfold in_u64; lia). rewrite Eu in *.
  apply IH; [lia| |done|].
  - destruct (Hs _ _ E); lia.
  - intros k Hkc. destruct (decide (k = c + 1)) as [-> |]; [by rewrite E|apply Hk; lia].
Qed.

(** A step of the loop uses up one chosen slot, so they bound it. *)
Lemma advance_stops (chosen : gmap Slot Entry) fuel c :
  0 <= c < 2 ^ 63 -> (forall s e, chosen !! s = Some e -> s < 2 ^ 63) ->
  (size (filter (fun kv => (c < kv.1)%Z) chosen) < fuel)%nat ->
  chosen !! (advance fuel chosen c + 1) = None.
Proof.
  revert c. induction fuel as [|fuel IH]; intros c Hc Hs Hf; [lia|]. simpl.
  assert (Eu : u64 (c + 1) = c + 1) by (apply u64_id; unfold in_u64; lia). rewrite Eu.
  destruct (chosen !! (c + 1)) as [e|] eqn:E; [|done]. pose proof (Hs _ _ E). apply IH; [lia|done|].
  assert (D : filter (fun kv => (c + 1 < kv.1)%Z) chosen = delete (c + 1) (filter (fun kv => (c < kv.1)%Z) chosen)).
  { apply map_eq. intros k. apply option_eq. intros x.
    rewrite map_lookup_filter_Some, lookup_delete_Some, map_lookup_filter_Some. simpl. split; [|lia || intros; split; [tauto|]].
    - intros [? ?]. split_and!; [lia|done|lia].
    - destruct_and!. lia. }
  assert (Ef : filter (fun kv => (c < kv.1)%Z) chosen !! (c + 1) = Some e).
  { apply map_lookup_filter_Some. simpl. split; [done|lia]. }
  rewrite D, map_size_delete_Some by by eexists.
  assert (size (filter (fun kv => (c < kv.1)%Z) chosen) <> 0%nat); [|lia].
  intros Z0%map_size_empty_inv. by rewrite Z0, lookup_empty in Ef.
Qed.

Section Handlers.
Context {T : Type} `{ST : Store T} (A : gset NodeID) (a : NodeID) (cfg : Config) (cfg_ok : cluster_config A a cfg)
  (W : Value -> Prop) (W_noop : W "").
Implicit Types (n : Node T) (G : NodeID -> Message -> Prop) (V : NodeID -> PValue -> Prop).

Local Abbreviation good_at := (good_at A a cfg W).
Local Abbreviation good := (good A a cfg W).
Local Abbreviation does := (does A a W).
Local Abbreviation moves := (moves A a W).
Local Abbreviation stays := (stays A a cfg W).
Local Abbreviation push := (push a).

Definition goodly : Node T -> (NodeID -> Message -> Prop) -> (NodeID -> PValue -> Prop) -> Prop :=
  fun n' G' _ => good n' G'.

Lemma good_refl n G V : good n G -> does n G V goodly (Some n).
Proof. intros H. eapply does_ret; [apply moves_refl|done]. Qed.

Lemma remains_good n G V r :
  good n G -> is_failed n = false -> does n G V (remains A a cfg W n (n_nextSlot n)) r -> does n G V goodly r.
Proof. intros H F D. eapply does_weaken; [exact D|]. intros n' G' V' [[H' C] S]. by eapply good_calm. Qed.

Lemma push_fields n l m :
  let n' := push n l m in
  n_cfg n' = n_cfg n /\ n_role n' = n_role n /\ n_ballot n' = n_ballot n /\ n_phase1 n' = n_phase1 n /\
  n_nextSlot n' = n_nextSlot n /\ n_queue n' = n_queue n /\ n_proposals n' = n_proposals n /\
  n_chosen n' = n_chosen n /\ n_commitIndex n' = n_commitIndex n /\ n_firstOwnSlot n' = n_firstOwnSlot n.
Proof. unfold NodeSteps.push. destruct (is_failed n); by repeat split. Qed.

Lemma push_kept n l m : kept n (push n l m).
Proof. destruct (push_fields n l m) as (_ & ? & ? & ? & ? & ? & _ & _ & _ & ?). by split. Qed.

(** ** A node alone *)

Lemma counted_same n n' :
  n_chosen n' = n_chosen n -> n_commitIndex n' = n_commitIndex n -> counted n -> counted n'.
Proof. unfold counted. by intros -> ->. Qed.

Lemma push_counted n l m : counted n -> counted (push n l m).
Proof. destruct (push_fields n l m) as (_ & _ & _ & _ & _ & _ & _ & ? & ? & _). by apply counted_same. Qed.

(** A leader that is a majority by itself has nothing open when it proposes ... *)
Definition free n : Prop := majority A < 2 -> n_proposals n = ∅ /\ counted n.

(** ... and nothing open when it has proposed for slot [s]. *)
Definition solved (s : Slot) n : Prop :=
  majority A < 2 -> is_failed n = false -> n_role n = Leader -> n_proposals n = ∅ /\ (s < 2 ^ 63 -> counted n).

Lemma solved_push n s l m : solved s n -> solved s (push n l m).
Proof.
  intros H Ho. rewrite push_failed. destruct (push_fields n l m) as (_ & -> & _ & _ & _ & _ & -> & _).
  intros F R. destruct (H Ho F R) as [H1 H2]. split; [done|]. intros Hs. by apply push_counted, H2.
Qed.

Section Leader.
Context (now : Z) (inline : Node T -> Message -> option (Node T)) (inl : accept_ok A a cfg W inline).

(** ** Proposing *)

Definition picked n (s : Slot) (v : Value) : Prop :=
  exists ms w, ms ≡ₚ (map_to_list (promises_of n)).*2 /\ W w /\ v = Choose (reports_for ms s) w.

Lemma propose_spec n s v G V k :
  is_failed n = false -> good_at n G k -> n_role n = Leader -> k <= s -> fromSlot (n_phase1 n) <= s ->
  picked n s v -> free n ->
  does n G V (fun n' G' V' => stays n (s + 1) n' G' V' /\ solved s n') (propose now inline n s v).
Proof.
  intros F H R Hk Hfrom (ms & w & Hms & Hw & ->) Hfree. set (v := Choose _ _). unfold propose.
  set (n1 := n <| n_proposals := _ |>). set (m := Accept (n_ballot n1) s v). set (G1 := say a m G).
  pose proof (g_tidy _ _ _ _ _ _ _ H F) as [Y1 Y2 Y6 Y3 Y4 Y5 Y7 Y8].
  assert (Hs0 : s <> 0) by (specialize (Y6 ltac:(congruence)); lia).
  assert (M1 : moves n G V n1 G1 V).
  { eapply moves_one; [apply (s_propose A W a (absn n) G V s w ms); try done|].
    - simpl. by rewrite F.
    - intros u Hu. pose proof (Y4 R s u Hu). lia.
    - unfold absn at 1. unfold n1 at 8. rewrite absn_proposals, fmap_insert. reflexivity. }
  assert (H1 : good_at n1 G1 (s + 1)).
  { destruct H as [X1 X2 X3 X4 X5]. split; auto.
    - intros env He. destruct (X3 env He) as (? & ? & ?). split_and!; [done..|by left].
    - intros _. by destruct (X4 F).
    - intros _. split; auto; simpl; try congruence.
      + intros _ t u [Hu|[_ E]]; [pose proof (Y4 R t u Hu); lia|injection E; lia].
      + intros _ t p. rewrite lookup_insert. case_decide; [intros [= <-]; subst t; by right|left; by eapply Y5]. }
  assert (F1 : is_failed n1 = false) by done. assert (K1 : kept n n1) by done.
  assert (R1 : n_role n1 = Leader) by done. assert (E1 : n_cfg n1 = cfg) by apply H1.
  assert (P1 : n_proposals n1 !! s = Some (mkProposal v ∅ now)) by apply lookup_insert_eq.
  assert (D1 : majority A < 2 -> delete s (n_proposals n1) = ∅ /\ counted n1).
  { intros Ho. destruct (Hfree Ho) as [E0 C0]. split; [|done]. unfold n1. simpl. by rewrite E0, delete_insert_eq. }
  clearbody n1.
  destruct (broadcast_self A a cfg cfg_ok inline n1 m E1 F1) as (l1 & l2 & Hl1 & Hl2 & Hb).
  destruct (push_fields n1 l1 m) as (E2 & R2 & B2 & _ & _ & _ & P2 & _ & _).
  assert (H2 : good_at (push n1 l1 m) G1 (s + 1)) by (apply good_at_push; [done..|by right]).
  pose proof (inl (push n1 l1 m) s v now G1 V (s + 1)) as D. rewrite B2 in D.
  destruct D as (n3 & G3 & V3 & Ei & M3 & [H3 C3] & D3);
    [by rewrite push_failed|done|congruence|done|intros Ho; by apply push_counted, D1|congruence|by right|].
  rewrite (Hb n3 (g_cfg _ _ _ _ _ _ _ H3) Ei).
  eapply does_ret.
  - eapply moves_trans; [exact M1|]. eapply moves_trans; [apply (moves_push A a W _ l1 m)|].
    eapply moves_trans; [exact M3|]. apply moves_push.
  - split; [split|apply solved_push; intros Ho F3 R3; destruct (D3 Ho F3 R3) as [-> C]; by rewrite P2, (proj1 (D1 Ho))].
    + apply good_at_push; [done..|]. apply (moves_grow _ _ _ _ _ _ _ _ _ M3). by right.
    + eapply kept_calm; [exact K1|]. eapply kept_calm; [apply push_kept|].
      destruct C3 as [C|[C|C]]; [left; by rewrite push_failed|right; left|right; right].
      * by destruct (push_fields n3 l2 m) as (_ & -> & _).
      * eapply kept_trans; [exact C|apply push_kept].
Qed.

(** ** The queue *)

Lemma reports_above n (s : Slot) ms : above n s -> ms ≡ₚ (map_to_list (promises_of n)).*2 -> reports_for ms s = [].
Proof.
  intros [_ Ha] Hms. unfold reports_for. destruct (List.filter _ _) as [|pv l] eqn:E; [done|exfalso].
  assert (Hin : In pv (List.filter (fun pv => pv_slot pv =? s) (flat_map p_accepted ms))) by (rewrite E; by left).
  apply filter_In in Hin as [(m & Hm%list_elem_of_In & Hpv%list_elem_of_In)%in_flat_map Hs%Z.eqb_eq].
  rewrite Hms in Hm. apply list_elem_of_fmap in Hm as ([c m'] & -> & Hc%elem_of_map_to_list).
  pose proof (Ha c m' pv Hc Hpv). lia.
Qed.

(** Any value may be proposed above everything reported. *)
Lemma picked_above n s v : above n s -> W v -> picked n s v.
Proof.
  intros H Hv. exists (map_to_list (promises_of n)).*2, v. split; [done|]. split; [done|]. by rewrite (reports_above n s).
Qed.

Lemma above_le n s t : above n s -> s <= t -> above n t.
Proof. intros [H1 H2] Hle. split; [lia|]. intros c m pv Hc Hpv. specialize (H2 c m pv Hc Hpv). lia. Qed.

(** Taking the next slot. *)
Lemma next_good n n2 G2 :
  is_failed n = false -> n_role n = Leader -> above n (n_nextSlot n) -> n_nextSlot n + 1 < 2 ^ 64 -> 0 <= n_nextSlot n ->
  good_at n2 G2 (n_nextSlot n + 1) -> calm n n2 -> solved (n_nextSlot n) n2 ->
  let n3 := n2 <| n_nextSlot := u64 (n_nextSlot n2 + 1) |> in
  good n3 G2 /\ (is_failed n3 = true \/ n_role n3 = Follower \/
    (n_role n3 = Leader /\ n_queue n3 = n_queue n /\ n_nextSlot n3 = n_nextSlot n + 1)).
Proof.
  intros F R Ha Hlt H0 H C Hs n3.
  assert (Hat : good_at n3 G2 (n_nextSlot n + 1)).
  { destruct H as [X1 X2 X3 X4 X5]. split; auto; intros F3; [by destruct (X4 F3)|]. destruct (X5 F3). by split. }
  destruct C as [C|[C|[K1 K2 K3 K4 K5 _]]].
  - assert (C' : is_failed n3 = true) by done. split; [|by left].
    apply (good_at_good A a cfg W _ _ (good_at_any A a cfg W _ _ _ _ (or_introl C') Hat)). by left.
  - assert (Hn : n_role n3 <> Leader) by (change (n_role n2 <> Leader); congruence).
    split; [|by right; left]. apply (good_at_good A a cfg W _ _ (good_at_any A a cfg W _ _ _ _ (or_intror Hn) Hat)). by right.
  - assert (E3 : n_nextSlot n3 = n_nextSlot n + 1).
    { unfold n3. simpl. rewrite K4. apply u64_id. unfold in_u64. lia. }
    split; [split; [by rewrite E3|]|right; right; exact (conj (eq_trans K1 R) (conj K5 E3))].
    intros F3 R3. split; [|intros Ho; by apply Hs]. rewrite E3. apply (above_le _ (n_nextSlot n)); [|lia].
    unfold above, promises_of in *. simpl. by rewrite K3.
Qed.

Lemma drain_stop fuel n : (is_failed n = true \/ n_role n <> Leader) -> drainQueue_fuel now inline fuel n = Some n.
Proof.
  intros Hs. destruct fuel; simpl; destruct (n_queue n); try done;
    (destruct (is_role_spec n Leader); destruct (is_failed n) eqn:F; rewrite ?andb_false_r; try done; by destruct Hs).
Qed.

Lemma drain_spec fuel n G V :
  good n G -> (length (n_queue n) <= fuel)%nat ->
  (is_failed n = false -> n_role n = Leader -> 0 <= n_nextSlot n /\ n_nextSlot n + len (n_queue n) < 2 ^ 64) ->
  does n G V goodly (drainQueue_fuel now inline fuel n).
Proof.
  revert n G V. induction fuel as [|fuel IH]; intros n G V H Hlen Hroom.
  { destruct (n_queue n) as [|v q] eqn:Eq; [|simpl in Hlen; lia]. simpl. rewrite Eq. by apply good_refl. }
  simpl. destruct (n_queue n) as [|v q] eqn:Eq; [by apply good_refl|].
  destruct ((_ <? _) && is_role n Leader && negb (is_failed n)) eqn:Ec; [|by apply good_refl].
  apply andb_true_iff in Ec as [[_ R]%andb_true_iff F%negb_true_iff].
  destruct (is_role_spec n Leader) as [R'|]; [clear R|done]. rename R' into R.
  destruct (Hroom F R) as [H0 Hlt]. unfold len in Hlt. simpl in Hlt, Hlen.
  set (n1 := n <| n_queue := q |>). pose proof (proj1 (g_office _ _ _ _ _ _ H F R)) as Ha.
  assert (H1 : good_at n1 G (n_nextSlot n)).
  { destruct H as [[X1 X2 X3 X4 X5] _]. split; auto; intros _; [by destruct (X4 F)|].
    destruct (X5 F) as [Y1 Y2 Y6 Y3 Y4 Y5 Y7 Y8]. split; auto. intros u Hu. apply Y7. rewrite Eq. by right. }
  assert (Hv : W v /\ 2 <= majority A).
  { apply (td_queue _ _ _ _ _ _ (g_tidy _ _ _ _ _ _ _ (g_at _ _ _ _ _ _ H) F)). rewrite Eq. by left. }
  destruct Hv as [Hv Htwo].
  assert (Ha1 : above n1 (n_nextSlot n1)) by exact Ha.
  assert (M1 : moves n G V n1 G V) by (apply moves_same; reflexivity).
  eapply does_moves; [exact M1|].
  eapply does_bind; [apply (propose_spec n1 (n_nextSlot n1) v G V _ F H1 R)|].
  - done.
  - apply Ha.
  - by apply picked_above.
  - intros Ho. lia.
  - intros n2 G2 V2 M2 [[H2 C2] S2].
    destruct (next_good n1 n2 G2 F R Ha1 ltac:(simpl; lia) H0 H2 C2 S2) as [H3 Hc].
    set (n3 := n2 <| n_nextSlot := _ |>) in *.
    eapply (does_moves A a W n2 G2 V2 n3 G2 V2); [apply moves_same; reflexivity|].
    destruct Hc as [Hc|[Hc|(R3 & Q3 & N3)]].
    + rewrite drain_stop by by left. by apply good_refl.
    + rewrite drain_stop by (right; congruence). by apply good_refl.
    + apply IH; [done|rewrite Q3; simpl; lia|]. intros _ _. rewrite N3, Q3. simpl. unfold len. lia.
Qed.

(** ** Learning *)

Lemma good_at_mono n G k k' : good_at n G k -> k <= k' -> good_at n G k'.
Proof.
  intros [] Hk. split; auto. intros F. destruct (g_tidy F) as [Y1 Y2 Y6 Y3 Y4 Y5 Y7 Y8]. split; auto.
  intros R s v H. specialize (Y4 R s v H). lia.
Qed.

Definition room n : Prop :=
  is_failed n = false -> n_role n = Leader -> 0 <= n_nextSlot n /\ n_nextSlot n + len (n_queue n) < 2 ^ 64.

(** What the chosen entry [e] comes from. *)
Definition chosen_by n G (e : Entry) : Prop :=
  (exists l, G l (Learn (en_slot e) (en_ballot e) (en_value e))) \/
  (n_role n = Leader /\ en_ballot e = n_ballot n /\
   exists p, n_proposals n !! en_slot e = Some p /\ value p = en_value e /\ majority A <= Z.of_nat (size (accepts p))).

Definition told G (e : Entry) : NodeID -> Message -> Prop := say a (Learn (en_slot e) (en_ballot e) (en_value e)) G.

(** The node before [learn] looks at its queue. *)
Definition learnt n (st : T) (e : Entry) : Node T :=
  advanceCommit (n <| n_store := st |> <| n_chosen := <[en_slot e := e]> (n_chosen n) |>
    <| n_proposals := delete (en_slot e) (n_proposals n) |>).

Lemma learnt_counted n st e : counted n -> en_slot e < 2 ^ 63 -> counted (learnt n st e).
Proof.
  intros [Hc Hs] He. set (ch := <[en_slot e := e]> (n_chosen n)).
  assert (Hs' : forall s e', ch !! s = Some e' -> s < 2 ^ 63).
  { intros s e'. unfold ch. rewrite lookup_insert. case_decide; [intros _; by subst|by apply Hs]. }
  split; [|exact Hs']. set (fuel := S (size ch)).
  change (n_commitIndex (learnt n st e)) with (advance fuel ch (n_commitIndex n)). clearbody fuel.
  destruct (advance_range ch 0 fuel (n_commitIndex n) (n_commitIndex n)) as [Hle Hk]; [lia|lia| |intros; lia|].
  { intros s e' E. left. by eapply Hs'. }
  split; [lia|]. destruct (decide (advance fuel ch (n_commitIndex n) = n_commitIndex n)) as [-> |Hne]; [lia|].
  destruct (Hk (advance fuel ch (n_commitIndex n))) as [e' E]; [lia|by eapply Hs'].
Qed.

(** Saving a chosen entry, and what follows when that worked. *)
Lemma chosen_spec n e G V k :
  is_failed n = false -> good_at n G k -> counted n -> chosen_by n G e ->
  (exists n' V', save n (SChosen e) = (n', false) /\ is_failed n' = true /\ moves n G V n' G V' /\ good_at n' G k) \/
  (exists st, save n (SChosen e) = (n <| n_store := st |>, true) /\
     moves n G V (learnt n st e) (told G e) V /\ good_at (learnt n st e) (told G e) k).
Proof.
  intros F H [Hcm Hsm] Hg.
  assert (St : nstep A W a (mkLocal (absn n) G V) (mkLocal (absn n <| a_disk := SaveChosen (disk n) e |>) G V)).
  { apply s_learn. destruct Hg as [Hg|(R & Hb & p & Hp & Hv & Hq)]; [by left|right].
    simpl. rewrite F. split_and!; [done..|]. exists (accepts p). split; [|done].
    unfold props_of. by rewrite lookup_fmap, Hp, <- Hv. }
  destruct (save_does A a cfg W n n (SChosen e) G V V _ k F H eq_refl eq_refl eq_refl eq_refl
    eq_refl St eq_refl eq_refl) as [(st & E & Es)|(n' & V' & E & F' & M & H' & HV)]; [right|left; by exists n', V'].
  exists st. split; [done|]. set (n2 := learnt n st e). split.
  - eapply rtc_l; [exact St|]. eapply rtc_l; [apply (s_drop A W a _ _ _ (en_slot e))|].
    set (x := absn n <| a_disk := SaveChosen (disk n) e |> <| a_props := delete (en_slot e) (props_of n) |>).
    assert (En : absn n2 = x <| a_known := <[en_slot e := e]> (a_known x) |> <| a_commit := n_commitIndex n2 |>).
    { unfold absn, props_of, disk. simpl. by rewrite Es, fmap_delete. }
    rewrite En. assert (Le : ms_chosen (a_disk x) !! en_slot e = Some e) by (simpl; apply lookup_insert_eq).
    eapply rtc_l; [apply (s_tell A W a x _ _ (en_slot e) e Le)|]. apply rtc_once.
    destruct (advance_range (<[en_slot e := e]> (n_chosen n)) (en_slot e) (S (size (<[en_slot e := e]> (n_chosen n)))) (n_commitIndex n) (n_commitIndex n))
      as [Hle Hk]; [lia|lia| |intros; lia|by apply s_note].
    intros s e'. rewrite lookup_insert. case_decide; [by right|]. left. by eapply Hsm.
  - destruct H as [X1 X2 X3 X4 X5]. split; auto.
    + intros env He. destruct (X3 env He) as (? & ? & ?). split_and!; [done..|by left].
    + intros _. destruct (X4 F) as [Y1 Y2 Y3]. unfold disk in *. split; unfold disk; simpl; rewrite Es; simpl; congruence.
    + intros _. destruct (X5 F) as [Y1 Y2 Y6 Y3 Y4 Y5 Y7 Y8]. split; auto.
      * intros R s v [Hs|[_ ?]]; [by eapply Y3|done].
      * intros R s v [Hs|[_ ?]]; [by eapply Y4|done].
      * intros R s p Hp. simpl in Hp. apply lookup_delete_Some in Hp as [_ Hp]. left. by eapply Y5.
Qed.

Lemma learn_spec n e G V :
  is_failed n = false -> good n G -> room n -> counted n -> chosen_by n G e ->
  does n G V (fun n' G' V' => goodly n' G' V' /\
      (is_failed n' = false -> G' a (Learn (en_slot e) (en_ballot e) (en_value e)))) (learn now inline n e).
Proof.
  intros F H Hroom Hc Hg. unfold learn.
  destruct (chosen_spec n e G V _ F (g_at _ _ _ _ _ _ H) Hc Hg) as [(n' & V' & E & F' & M & H')|(st & E & M & H')]; rewrite E; cbn [negb].
  { eapply does_ret; [exact M|]. split; [|congruence].
    apply (good_at_good A a cfg W); [|by left]. eapply good_at_any; eauto. }
  change (advanceCommit _) with (learnt n st e). eapply does_moves; [exact M|].
  assert (H3 : good (learnt n st e) (told G e)).
  { split; [exact H'|]. intros _ R. destruct (g_office _ _ _ _ _ _ H F R) as [Ha Ho]. split; [exact Ha|].
    intros Hs. simpl. by rewrite (Ho Hs), delete_empty. }
  assert (HG : told G e a (Learn (en_slot e) (en_ballot e) (en_value e))) by by right.
  assert (R3 : room (learnt n st e)) by exact Hroom.
  destruct (is_role (learnt n st e) Leader); [|eapply does_ret; [apply moves_refl|done]].
  destruct (drain_spec (length (n_queue (learnt n st e))) _ (told G e) V H3 (le_n _) R3) as (n4 & G4 & V4 & E4 & M4 & H4).
  exists n4, G4, V4. split; [exact E4|]. split; [done|]. split; [done|]. intros _. by eapply moves_grow.
Qed.

(** Alone, nothing waits for the slot to be decided. *)
Lemma alone_queue n G k : majority A < 2 -> is_failed n = false -> good_at n G k -> n_queue n = [].
Proof.
  intros Ho F H. destruct (n_queue n) as [|v q] eqn:E; [done|exfalso].
  destruct (td_queue _ _ _ _ _ _ (g_tidy _ _ _ _ _ _ _ H F) v) as [_ H2]; [rewrite E; by left|lia].
Qed.

Lemma learn_alone n e G V k :
  majority A < 2 -> is_failed n = false -> good_at n G k -> counted n -> chosen_by n G e ->
  does n G V (fun n' G' V' => stays n k n' G' V' /\ decided A n (en_slot e) n' /\
      (is_failed n' = false -> G' a (Learn (en_slot e) (en_ballot e) (en_value e)))) (learn now inline n e).
Proof.
  intros Ho F H Hc Hg. unfold learn.
  destruct (chosen_spec n e G V _ F H Hc Hg) as [(n' & V' & E & F' & M & H')|(st & E & M & H')]; rewrite E; cbn [negb].
  { eapply does_ret; [exact M|]. split; [split; [done|by left]|]. split; [intros _|]; congruence. }
  change (advanceCommit _) with (learnt n st e). eapply does_moves; [exact M|].
  assert (D : does (learnt n st e) (told G e) V (fun n' G' V' => n' = learnt n st e /\ G' = told G e)
    (if is_role (learnt n st e) Leader then drainQueue now inline (learnt n st e) else Some (learnt n st e))).
  { unfold drainQueue. change (n_queue (learnt n st e)) with (n_queue n). rewrite (alone_queue n G k Ho F H). simpl.
    rewrite (alone_queue n G k Ho F H). destruct (is_role _ _); (eapply does_ret; [apply moves_refl|done]). }
  eapply does_weaken; [exact D|]. intros n' G' V' [-> ->]. split; [split; [done|by right; right]|].
  split; [|intros _; by right]. intros _ _ _. split; [done|]. intros Hs. by apply learnt_counted.
Qed.

(** ** Taking over *)

Lemma slots_between_cons s lim : s < lim -> slots_between s lim = s :: slots_between (s + 1) lim.
Proof.
  intros H. unfold slots_between. replace (Z.to_nat (lim - s)) with (S (Z.to_nat (lim - (s + 1)))) by lia.
  simpl. f_equal; [lia|]. rewrite <- seq_shift, map_map. apply map_ext. intros i. lia.
Qed.

Lemma slots_between_nil s lim : lim <= s -> slots_between s lim = [].
Proof. intros H. unfold slots_between. by replace (Z.to_nat (lim - s)) with 0%nat by lia. Qed.

Lemma reports_at_for ps s : reports_at ps s = reports_for (map snd ps) s.
Proof. unfold reports_at, reports_for. f_equal. induction ps as [|[c p] ps IH]; simpl; [done|]. by rewrite IH. Qed.

Definition lead_stop n' G' : Prop := good n' G' /\ (is_failed n' = true \/ n_role n' <> Leader).

Lemma stays_stop n n' G' k (V' : NodeID -> PValue -> Prop) :
  stays n k n' G' V' -> (is_failed n' || negb (is_role n' Leader)) = true -> lead_stop n' G'.
Proof.
  intros [H C] Hs. assert (R : is_failed n' = true \/ n_role n' <> Leader).
  { apply orb_true_iff in Hs as [|Hs]; [by left|right]. by destruct (is_role_spec n' Leader). }
  split; [|done]. apply (good_at_good A a cfg W); [by eapply good_at_any|done].
Qed.

Lemma stays_lead n n' G' k (V' : NodeID -> PValue -> Prop) :
  stays n k n' G' V' -> (is_failed n' || negb (is_role n' Leader)) = false ->
  is_failed n' = false /\ n_role n' = Leader /\ kept n n' /\ good_at n' G' k.
Proof.
  intros [H C] Hs. apply orb_false_iff in Hs as [F R]. destruct (is_role_spec n' Leader) as [R'|]; [|done].
  destruct C as [C|[C|C]]; [congruence|congruence|done].
Qed.

Lemma reproposals_spec ps lim m n s G V :
  Z.to_nat (lim - s) = m -> is_failed n = false -> n_role n = Leader -> good_at n G s -> fromSlot (n_phase1 n) <= s ->
  s <= lim <= 2 ^ 63 -> map snd ps ≡ₚ (map_to_list (promises_of n)).*2 -> free n ->
  exists n' go G' V', reproposals now inline ps (slots_between s lim) n = Some (n', go) /\ moves n G V n' G' V' /\
    (if go : bool then is_failed n' = false /\ n_role n' = Leader /\ kept n n' /\ good_at n' G' lim /\ free n'
     else lead_stop n' G').
Proof.
  revert n s G V. induction m as [|m IH]; intros n s G V Hm F R H Hfrom Hle Hps Hfree.
  { rewrite slots_between_nil by lia. replace lim with s by lia. exists n, true, G, V.
    split_and!; [done|apply moves_refl|done..]. }
  rewrite slots_between_cons by lia. cbn [reproposals].
  destruct (n_chosen n !! s).
  { apply IH; [lia|done|done|apply (good_at_mono _ _ s); [done|lia]|lia|lia|done|done]. }
  rewrite (safe_knobs A a cfg cfg_ok W n _ _ _ H). rewrite reports_at_for.
  destruct (propose_spec n s (Choose (reports_for (map snd ps) s) "") G V s F H R (Z.le_refl _) Hfrom)
    as (n1 & G1 & V1 & E1 & M1 & H1 & S1); [by exists (map snd ps), ""|done|].
  rewrite E1. cbn [mbind option_bind]. destruct (is_failed n1 || _) eqn:Es.
  { exists n1, false, G1, V1. split_and!; [done..|]. by eapply stays_stop. }
  destruct (stays_lead _ _ _ _ _ H1 Es) as (F1 & R1 & K1 & H1').
  destruct (IH n1 (s + 1) G1 V1) as (n2 & go & G2 & V2 & E2 & M2 & H2); try done; try lia.
  - destruct K1 as [_ _ -> _ _ _]. lia.
  - unfold promises_of. by destruct K1 as [_ _ -> _ _ _].
  - intros Ho. destruct (S1 Ho F1 R1) as [? Hc]. split; [done|apply Hc; lia].
  - exists n2, go, G2, V2. split_and!; [done|by eapply moves_trans|]. destruct go; [|done].
    destruct H2 as (? & ? & K2 & ? & ?). split_and!; [done..|by eapply kept_trans|done|done].
Qed.

(** The top of the takeover. *)
Lemma takeover_top_spec n B ps : map snd ps ≡ₚ (map_to_list (promises_of n)).*2 -> 1 <= fromSlot (n_phase1 n) <= B ->
  B < 2 ^ 64 -> (forall s e, n_chosen n !! s = Some e -> s < B) ->
  (forall c m pv, promises_of n !! c = Some m -> pv ∈ p_accepted m -> pv_slot pv < B) ->
  let top := takeover_top n ps in 0 <= top < B /\ above n (top + 1).
Proof.
  intros Hps Hf HB Hch Hpr. unfold takeover_top. set (from := fromSlot (n_phase1 n)) in *.
  set (l := List.filter _ _). rewrite (u64_id (from - 1)) by (unfold in_u64; lia).
  set (t1 := foldl _ (from - 1) l). set (k := map fst _).
  destruct (foldl_up l (from - 1)) as (L1 & L2 & L3). fold t1 in L1, L2, L3.
  destruct (foldl_up k t1) as (K1 & K2 & K3). set (top := foldl _ t1 k) in *.
  assert (Hm : forall c m, promises_of n !! c = Some m <-> exists q, q ∈ ps /\ q.2 = m /\ promises_of n !! c = Some m)
    by (intros c m; split; [intros Hc|by intros (? & ? & ? & ?)];
        assert (Hin : m ∈ map snd ps) by (rewrite Hps; apply list_elem_of_fmap; exists (c, m);
          split; [done|by apply elem_of_map_to_list]);
        apply list_elem_of_In, in_map_iff in Hin as (q & <- & Hq%list_elem_of_In); eauto).
  assert (Hl : forall s, s ∈ l <-> from <= s /\ exists q pv, q ∈ ps /\ pv ∈ p_accepted q.2 /\ pv_slot pv = s).
  { intros s. unfold l. rewrite list_elem_of_In, filter_In, in_flat_map, Z.leb_le. setoid_rewrite in_map_iff.
    setoid_rewrite <- list_elem_of_In. naive_solver. }
  assert (HlB : forall s, s ∈ l -> s < B).
  { intros s (_ & q & pv & Hq & Hpv & <-)%Hl. assert (Hin : q.2 ∈ map snd ps)
      by (apply list_elem_of_In, in_map, list_elem_of_In, Hq).
    rewrite Hps in Hin. apply list_elem_of_fmap in Hin as ([c m] & E & Hc%elem_of_map_to_list). simpl in E. subst m.
    by eapply Hpr. }
  assert (Hk : forall s, s ∈ k -> s < B).
  { intros s Hs. change k with ((map_to_list (n_chosen n)).*1) in Hs.
    apply list_elem_of_fmap in Hs as ([s' e] & -> & He%elem_of_map_to_list). by eapply Hch. }
  assert (Ht1 : from - 1 <= t1 < B) by (destruct L3 as [->|L3]; [lia|split; [lia|by apply HlB]]).
  assert (Htop : from - 1 <= top < B) by (destruct K3 as [->|K3]; [lia|split; [lia|by apply Hk]]).
  split; [lia|]. split; [unfold from in *; lia|]. intros c m pv Hc Hpv.
  destruct (decide (from <= pv_slot pv)) as [Hge|]; [|lia].
  assert (pv_slot pv <= t1); [|lia]. apply L2, Hl. split; [done|].
  apply Hm in Hc as (q & Hq & <- & _). by exists q, pv.
Qed.

Lemma crowned_spec n ps top G V k :
  is_failed n = false -> good_at n G k -> n_role n = Candidate -> majority A <= Z.of_nat (size (promises_of n)) ->
  let n' := crowned now n ps top in
  moves n G V n' G V /\ (forall k', good_at n' G k').
Proof.
  intros F H R Hq n'. split.
  - eapply moves_one; [apply (s_lead A W a (absn n) G V); [simpl; by rewrite F|done|done]|].
    unfold n', crowned. unfold absn at 1, emit, props_of. simpl. rewrite existsb_app, fmap_empty. simpl.
    by rewrite !orb_false_r.
  - intros k'. destruct H as [X1 X2 X3 X4 X5]. split; auto; intros _; [by destruct (X4 F)|].
    destruct (X5 F) as [Y1 Y2 Y6 Y3 Y4 Y5 Y7 Y8].
    assert (Hn : n_role n <> Follower) by congruence. split; try done.
    + intros _. by apply Y6.
    + intros _ s v Hs. exfalso. exact (Y3 R s v Hs).
    + intros _. by apply Y8.
Qed.

(** What taking over needs of the counters. *)
Record seats n : Prop := {
  se_queue : len (n_queue n) < 2 ^ 62;
  se_from : fromSlot (n_phase1 n) <= 2 ^ 63;
  se_chosen : forall s e, n_chosen n !! s = Some e -> s < 2 ^ 63;
  se_promises : forall c m pv, promises_of n !! c = Some m -> pv ∈ p_accepted m -> pv_slot pv < 2 ^ 63;
  se_counted : majority A < 2 -> counted n;
}.

Lemma becomeLeader_spec n G V k :
  is_failed n = false -> good_at n G k -> n_role n = Candidate -> majority A <= Z.of_nat (size (promises_of n)) ->
  seats n -> does n G V goodly (becomeLeader now inline n).
Proof.
  intros F H R Hq [Rq Rf Rc Rp Ro]. unfold becomeLeader. change (default ∅ (promises (n_phase1 n))) with (promises_of n).
  set (ps := sorted_promises _). set (top := takeover_top n ps).
  assert (Hps : map snd ps ≡ₚ (map_to_list (promises_of n)).*2).
  { change (map snd ps) with (ps.*2). unfold ps. by rewrite sorted_promises_perm. }
  pose proof (td_from _ _ _ _ _ _ (g_tidy _ _ _ _ _ _ _ H F) ltac:(congruence)) as Hf.
  destruct (takeover_top_spec n (2 ^ 63) ps Hps ltac:(lia) ltac:(lia) Rc Rp) as [Htop Habove]. fold top in Htop, Habove.
  destruct (crowned_spec n ps top G V k F H R Hq) as [M1 H1].
  set (n1 := crowned now n ps top) in *. cbv zeta.
  assert (E1 : n_role n1 = Leader /\ n_firstOwnSlot n1 = top + 1 /\ n_nextSlot n1 = top + 2 /\
               n_phase1 n1 = n_phase1 n /\ n_queue n1 = n_queue n /\ is_failed n1 = false /\ free n1).
  { unfold n1, crowned, emit. simpl. rewrite (u64_id (top + 1)) by (unfold in_u64; lia).
    rewrite (u64_id (top + 1 + 1)) by (unfold in_u64; lia). split_and!; try done; [lia|].
    intros Ho. split; [done|by apply Ro]. }
  destruct E1 as (R1 & O1 & N1 & P1 & Q1 & F1 & S1). clearbody n1.
  rewrite (proj2 (Z.eqb_neq top (2 ^ 64 - 1))) by lia. rewrite P1.
  assert (Hfrom : fromSlot (n_phase1 n) <= top + 1) by apply Habove.
  destruct (reproposals_spec ps (top + 1) _ n1 (fromSlot (n_phase1 n)) G V eq_refl F1 R1 (H1 _))
    as (n2 & go & G2 & V2 & E2 & M2 & H2); [rewrite P1; lia|lia|unfold promises_of in *; by rewrite P1|done|].
  rewrite E2. cbn [mbind option_bind].
  eapply does_moves; [eapply moves_trans; [exact M1|exact M2]|].
  destruct go; cbn [negb]; [|eapply does_ret; [apply moves_refl|by apply H2]].
  destruct H2 as (F2 & R2 & [K1 K2 K3 K4 K5 K6] & H2 & S2).
  assert (A2 : above n2 (top + 1)) by (unfold above, promises_of in *; by rewrite K3, P1).
  rewrite K6, O1.
  destruct (propose_spec n2 (top + 1) "" G2 V2 (top + 1) F2 H2 R2 (Z.le_refl _)) as (n3 & G3 & V3 & E3 & M3 & H3 & S3);
    [apply A2|by apply picked_above|done|].
  rewrite E3. cbn [mbind option_bind]. eapply does_moves; [exact M3|]. destruct (is_failed n3 || _) eqn:Es.
  { eapply does_ret; [apply moves_refl|]. by destruct (stays_stop _ _ _ _ _ H3 Es). }
  destruct (stays_lead _ _ _ _ _ H3 Es) as (F3 & R3 & [J1 J2 J3 J4 J5 J6] & H3').
  assert (N3 : n_nextSlot n3 = top + 2) by congruence.
  apply drain_spec.
  - split; [rewrite N3; by replace (top + 2) with (top + 1 + 1) by lia|]. intros _ _.
    split; [|intros Ho; by apply S3]. rewrite N3.
    apply (above_le _ (top + 1)); [|lia]. unfold above, promises_of in *. by rewrite J3.
  - done.
  - intros _ _. rewrite N3, J5, K5, Q1. lia.
Qed.

(** ** Answers *)

Context (from : NodeID) (Hfrom : from <> a) (Hin : from ∈ A).

Lemma two_nodes : 2 <= majority A.
Proof. by eapply majority_two. Qed.

Lemma not_self n : n_cfg n = cfg -> (from =? Self (n_cfg n)) = false.
Proof. intros E. rewrite E, (cc_self _ _ _ cfg_ok). by apply Z.eqb_neq. Qed.

Lemma onPromise_spec n m G V :
  is_failed n = false -> good n G -> roomy n -> G from (Promise m) ->
  (forall pv, pv ∈ p_accepted m -> pv_slot pv < 2 ^ 63) -> does n G V goodly (onPromise now inline n from m).
Proof.
  intros F H Hr HG Hm. unfold onPromise. destruct (is_role_spec n Candidate) as [R|]; [|by apply good_refl].
  case_bool_decide as Hb; [|by apply good_refl]. cbn [negb orb].
  pose proof (g_at _ _ _ _ _ _ H) as Ha.
  destruct (td_promises _ _ _ _ _ _ (g_tidy _ _ _ _ _ _ _ Ha F) R) as [ps Eps]. rewrite Eps. cbn [mbind option_bind].
  destruct (collect_spec A a cfg W n from m ps G V _ F Ha R Eps Hin HG Hb) as [M1 H1].
  set (n1 := n <| n_phase1 := _ |>) in *. eapply does_moves; [exact M1|].
  replace (n_quorum n1) with (majority A) by (symmetry; apply H).
  destruct (Z.leb_spec (majority A) (Z.of_nat (size (<[from := m]> ps)))) as [Hq|Hq].
  - apply (becomeLeader_spec n1 G V (n_nextSlot n) F H1 R Hq). destruct Hr as [Q1 Q2 Q3 Q4 Q5 Q6 Q7].
    split; try done. intros c m' pv Hc Hpv. change (<[from := m]> ps !! c = Some m') in Hc. rewrite lookup_insert in Hc.
    case_decide; [injection Hc as <-; by apply Hm|]. eapply Q7; [|done]. unfold promises_of. by rewrite Eps.
  - eapply does_ret; [apply moves_refl|]. apply (good_at_good A a cfg W); [done|right].
    change (n_role n <> Leader). congruence.
Qed.

Lemma count_room n : roomy n -> room n.
Proof. intros [_ H _ Hq _ _ _] _ _. lia. Qed.

Lemma roomy_counted n : roomy n -> counted n.
Proof. intros [_ _ Hc _ _ Hs _]. by split. Qed.

Lemma onAccepted_spec n b s G V :
  is_failed n = false -> good n G -> roomy n -> G from (Accepted b s) ->
  does n G V goodly (onAccepted now inline n from b s).
Proof.
  intros F H Hr HG. unfold onAccepted. destruct (is_role_spec n Leader) as [R|]; [|by apply good_refl].
  case_bool_decide as Hb; [|by apply good_refl]. cbn [negb orb]. subst b.
  destruct (n_proposals n !! s) as [p|] eqn:Ep; [|by apply good_refl].
  pose proof (g_at _ _ _ _ _ _ H) as Ha.
  destruct (count_spec A a cfg cfg_ok W n from s p G V _ F Ha R Ep Hin HG) as (M1 & H1 & K1).
  set (n1 := n <| n_proposals := _ |>) in *. eapply does_moves; [exact M1|].
  assert (G1 : good n1 G).
  { split; [exact H1|]. intros _ _. split; [exact (proj1 (g_office _ _ _ _ _ _ H F R))|]. intros Ho. pose proof two_nodes. lia. }
  assert (P1 : n_proposals n1 !! s = Some (p <| accepts := {[from]} ∪ accepts p |>)) by apply lookup_insert_eq.
  replace (n_quorum n1) with (majority A) by (symmetry; apply H).
  destruct (Z.ltb_spec (Z.of_nat (size ({[from]} ∪ accepts p))) (majority A)) as [Hq|Hq].
  { replace (_ <? _) with true by (symmetry; by apply Z.ltb_lt). by apply good_refl. }
  replace (_ <? _) with false by (symmetry; by apply Z.ltb_ge).
  change (n_ballot n1) with (n_ballot n). change (value _) with (value p).
  set (e := mkEntry s (n_ballot n) (value p)).
  eapply does_bind; [apply (learn_spec n1 e G V F G1 (count_room n Hr) (roomy_counted n Hr))|].
  { right. split; [done|]. split; [done|]. eexists. split; [exact P1|]. split; [done|]. exact Hq. }
  intros n2 G2 V2 M2 [H2 L2]. destruct (is_failed n2) eqn:F2; [by apply good_refl|].
  destruct (broadcast_others A a cfg cfg_ok inline n2 (Learn (en_slot e) (en_ballot e) (en_value e)) (g_cfg _ _ _ _ _ _ _ (g_at _ _ _ _ _ _ H2)))
    as (l & Hl & ->).
  eapply does_ret; [apply moves_push|]. apply good_push; [done..|by apply L2].
Qed.

Lemma onLearn_spec n s b v G V :
  is_failed n = false -> good n G -> roomy n -> G from (Learn s b v) ->
  does n G V goodly (onLearn now inline n from s b v).
Proof.
  intros F H Hr HG. unfold onLearn. destruct (s =? 0); [by apply good_refl|].
  destruct (n_chosen n !! s) as [e|] eqn:Ee.
  - unfold ValueEqual. destruct (String.eqb_spec (en_value e) v) as [|Hne]; [by apply good_refl|].
    eapply does_ret.
    + eapply moves_one; [apply (s_conflict A W a (absn n) G V from s b v e HG); [|exact Hne]|].
      * simpl. by rewrite <- (mm_chosen _ (g_mem _ _ _ _ _ _ _ (g_at _ _ _ _ _ _ H) F)).
      * unfold absn, emit. simpl. rewrite existsb_app. simpl. by rewrite orb_true_r.
    + destruct H as [[X1 X2 X3 X4 X5] Xa]. split; [|exact Xa]. split; auto; intros _; [by destruct (X4 F)|].
      by destruct (X5 F).
  - eapply does_weaken; [apply (learn_spec n (mkEntry s b v) G V F H (count_room n Hr) (roomy_counted n Hr)); left; by exists from|].
    intros n' G' V' [? _]. done.
Qed.

(** Saying one thing after another. *)
Lemma foldM_good {X} (f : Node T -> X -> option (Node T)) (P : Node T -> Prop) l n G V :
  good n G -> P n ->
  (forall n x G V, good n G -> P n -> does n G V (fun n' G' _ => good n' G' /\ P n') (f n x)) ->
  does n G V goodly (foldM f n l).
Proof.
  intros H HP Hf. revert n G V H HP. induction l as [|x l IH]; intros n G V H HP; simpl; [by apply good_refl|].
  eapply does_bind; [by apply Hf|]. intros n' G' V' _ [H' HP']. by apply IH.
Qed.

Lemma onLearnRequest_spec n s c G V :
  is_failed n = false -> good n G -> does n G V goodly (onLearnRequest inline n from s c).
Proof.
  intros F H. unfold onLearnRequest. destruct (_ || _); [by apply good_refl|].
  apply (foldM_good _ (fun n => is_failed n = false)); [done..|].
  intros n1 t G1 V1 H1 F1. pose proof (g_at _ _ _ _ _ _ H1) as A1.
  destruct (n_chosen n1 !! t) as [e|] eqn:Ee; [|eapply does_ret; [apply moves_refl|done]].
  rewrite (send_peer A a cfg cfg_ok) by (done || apply A1).
  eapply does_ret.
  - eapply moves_one; [apply (s_tell A W a (absn n1) G1 V1 t e)|apply push_absn].
    simpl. by rewrite <- (mm_chosen _ (g_mem _ _ _ _ _ _ _ A1 F1)).
  - split; [|by rewrite push_failed]. apply good_push; [|by intros ?%list_elem_of_singleton|by right].
    eapply good_grow; [apply say_grow| |exact H1]. intros b' s' v'. by apply say_accept.
Qed.

(** ** Requests *)

Lemma chat_spec n m G V : good n G -> chatter m = true -> does n G V goodly (send inline n from m).
Proof.
  intros H Hm. eapply (send_reply A a cfg cfg_ok W); [done..|by destruct m|]. by apply s_chatter.
Qed.

Lemma noted n b G : good n G -> good (noteLeader now b (refreshLease now b n)) G.
Proof.
  intros H. eapply good_core; [|exact H]. eapply same_core_trans; [apply lease_core|apply noteLeader_core].
Qed.

Lemma noted_moves n b G V : moves n G V (noteLeader now b (refreshLease now b n)) G V.
Proof. apply moves_core. eapply same_core_trans; [apply lease_core|apply noteLeader_core]. Qed.

Lemma onPrepare_spec n b f G V :
  is_failed n = false -> good n G -> G from (Prepare b f) -> does n G V goodly (onPrepare now inline n from b f).
Proof.
  intros F H HG. unfold onPrepare. destruct (IsZero b); [by apply good_refl|].
  assert (Hans : forall n1, is_failed n1 = false -> good n1 G -> n_promised n1 = b ->
    does n1 G V goodly (let n := if from =? Self (n_cfg n1) then n1 else noteLeader now b (refreshLease now b n1) in
      send inline n from (Promise (mkPromiseMsg b (acceptedFrom n f) (n_commitIndex n))))).
  { intros n1 F1 H1 P1. rewrite not_self by apply H1. cbv zeta. set (n2 := noteLeader now b (refreshLease now b n1)).
    assert (C : same_core n1 n2) by (eapply same_core_trans; [apply lease_core|apply noteLeader_core]).
    eapply does_moves; [apply (moves_core A a W _ n2), C|]. assert (H2 : good n2 G) by by eapply good_core.
    assert (P2 : n_promised n2 = b) by (rewrite <- P1; apply C). assert (F2 : is_failed n2 = false) by by rewrite (absn_failed _ _ (proj1 C)).
    clearbody n2. eapply (send_reply A a cfg cfg_ok W); [done..|]. eapply reply_step; [done|apply H2|exact HG|done]. }
  case_bool_decide as Hb; [by apply Hans|].
  unfold MayPromise. destruct (Less (n_promised n) b) eqn:EL; cbn [negb]; [|by apply chat_spec].
  destruct (_ && _); [by apply chat_spec|].
  destruct (setPromised_spec A a cfg W now b n G V _ F (g_at _ _ _ _ _ _ H) EL) as (M1 & H1 & P1).
  set (n1 := setPromised now b n) in *. clearbody n1. eapply does_moves; [exact M1|].
  destruct (is_failed n1) eqn:F1.
  { apply good_refl. apply (good_at_good A a cfg W); [|by left]. eapply good_at_any; eauto. }
  destruct (P1 eq_refl) as (Pb & C & _). apply Hans; [done| |done].
  apply (good_calm A a cfg W n n1 G G H F); [|by apply still_two, two_nodes|done]. right. destruct C as [C|[C _]]; auto.
Qed.

Lemma onAccept_spec n b s v G V :
  is_failed n = false -> good n G -> G from (Accept b s v) -> does n G V goodly (onAccept now inline n from b s v).
Proof.
  intros F H HG. unfold onAccept. destruct (_ || _); [by apply good_refl|].
  pose proof (g_at _ _ _ _ _ _ H) as Ha. rewrite (safe_knobs A a cfg cfg_ok W n _ _ _ Ha). cbn [orb].
  unfold MayAccept. destruct (Less b (n_promised n)) eqn:EL; cbn [negb]; [by apply chat_spec|].
  pose proof (vote_spec A a cfg W now n from b s v G V _ F Ha EL HG) as Hv.
  set (n1 := if Less (n_promised n) b then _ else n) in *. cbv zeta in Hv.
  assert (Hbad : forall n' G', good_at n' G' (n_nextSlot n) -> is_failed n' = true -> good n' G').
  { intros n' G' Hn' Fn'. apply (good_at_good A a cfg W); [|by left]. eapply good_at_any; eauto. }
  destruct Hv as [(F1 & M1 & H1)|[(F1 & n2 & V2 & E & F2 & M2 & H2)|(F1 & st & E & Hv)]]; rewrite F1.
  - eapply does_ret; [exact M1|]. by apply Hbad.
  - rewrite E. eapply does_ret; [exact M2|]. by apply Hbad.
  - rewrite E. cbn [negb]. set (n3 := _ <| n_accepted := _ |>) in *. destruct Hv as (F3 & M3 & H3 & C3 & _).
    eapply does_moves; [exact M3|]. set (V' := vote a _ V).
    assert (G3 : good n3 G) by (eapply good_calm; [done..|by apply still_two, two_nodes|done]).
    set (n4 := refreshLease now b n3). rewrite (not_self n4) by exact (g_cfg _ _ _ _ _ _ _ H3). clearbody n3.
    eapply does_moves; [apply noted_moves|].
    eapply (send_reply A a cfg cfg_ok W); [by apply noted|done..|].
    apply (s_accepted A W a _ _ _ _ _ v). by right.
Qed.

Lemma onHeartbeat_spec n b c r G V :
  is_failed n = false -> good n G -> does n G V goodly (onHeartbeat now inline n from b c r).
Proof.
  intros F H. unfold onHeartbeat. destruct (IsZero b); [by apply good_refl|].
  destruct (Less b (n_promised n)) eqn:EL; [by apply chat_spec|].
  assert (H1 : let n1 := if Less (n_promised n) b then setPromised now b n else n in moves n G V n1 G V /\ good n1 G).
  { cbv zeta. destruct (Less (n_promised n) b) eqn:EL'; [|split; [apply moves_refl|done]].
    destruct (setPromised_spec A a cfg W now b n G V _ F (g_at _ _ _ _ _ _ H) EL') as (M1 & H1 & P1).
    set (n1 := setPromised now b n) in *. clearbody n1. split; [done|]. destruct (is_failed n1) eqn:F1.
    - apply (good_at_good A a cfg W); [|by left]. eapply good_at_any; eauto.
    - destruct (P1 eq_refl) as (_ & C & _). apply (good_calm A a cfg W n n1 G G H F); [|by apply still_two, two_nodes|done].
      right. destruct C as [C|[C _]]; auto. }
  cbv zeta in H1. set (n1 := if Less (n_promised n) b then _ else n) in *. clearbody n1. destruct H1 as [M1 H1].
  eapply does_moves; [exact M1|]. destruct (is_failed n1) eqn:F1; [by apply good_refl|].
  rewrite (not_self (refreshLease now b n1)) by exact (g_cfg _ _ _ _ _ _ _ (g_at _ _ _ _ _ _ H1)).
  eapply does_moves; [apply (noted_moves n1 b)|]. pose proof (noted n1 b G H1) as H2. set (n2 := noteLeader _ _ _) in *.
  eapply does_bind; [by apply chat_spec|].
  intros n3 G3 V3 _ H3. destruct (_ && _); [|by apply good_refl].
  set (n4 := n3 <| n_learnReqAfter := _ |>).
  eapply (does_moves A a W n3 G3 V3 n4 G3 V3); [by apply moves_same; reflexivity|].
  apply chat_spec; [|done]. eapply good_core; [|exact H3]. by repeat split.
Qed.
End Leader.
End Handlers.
