(* ===== verification/Inline.v ===== *)
(** The messages a log node sends to itself, which are processed inside the
    call that sends them.  A node of a cluster of two or more has no majority
    on its own, so its own promise and its own votes are only counted.  A node
    alone in its cluster takes over and decides its proposals within these
    messages: a [Prepare] leads to a [Promise], that to the [Accept]s of the
    takeover and each of them to an [Accepted], four deep, and no deeper. *)

From S2P Require Import Prelude GoStd Paxos Voting Store Replog LogSpec NodeSteps Handlers.

(** ** What raising the promise leaves alone *)

Section Raise.
Context {T : Type} `{ST : Store T}.
Implicit Types n : Node T.

(** What a node holds of the log. *)
Definition holdings n : gmap Slot PValue * gmap Slot Entry * Slot := (n_accepted n, n_chosen n, n_commitIndex n).

Lemma save_holdings n x : holdings (save n x).1 = holdings n.
Proof. unfold save, fail. destruct (store_save _ _) as [st [e|]]; simpl; [|done]. by destruct (n_failed n). Qed.

Lemma note_round_holdings b n : holdings (note_round b n).1 = holdings n.
Proof. unfold note_round. destruct (_ <? _); [|done]. exact (save_holdings (n <| n_maxRound := bal_round b |>) _). Qed.

Lemma stepDown_holdings now l lb w n : holdings (stepDown now l lb w n) = holdings n.
Proof.
  unfold stepDown. rewrite (existsb_emits (fun s => ReadFailed s (mkNotLeaderError l))) by done.
  unfold emit, set_election_timer, randomElectionTimeout, Int64N. reflexivity.
Qed.

Lemma setPromised_holdings now b n : holdings (setPromised now b n) = holdings n.
Proof.
  unfold setPromised. pose proof (note_round_holdings b n) as E1. destruct (note_round b n) as [n1 ok]. simpl in E1.
  destruct ok; cbn [negb]; [|done].
  pose proof (save_holdings (n1 <| n_promised := b |>) (SPromised b)) as E2. destruct (save _ _) as [n2 ok]. simpl in E2.
  change (holdings n2 = holdings n1) in E2. destruct ok; cbn [negb]; [|by rewrite E2].
  destruct (_ && _); [rewrite stepDown_holdings|]; by rewrite E2.
Qed.

Lemma holdings_counted n n' : holdings n' = holdings n -> counted n -> counted n'.
Proof. unfold holdings. intros [= _ E1 E2]. by apply counted_same. Qed.

Lemma acceptedFrom_in n f pv : pv ∈ acceptedFrom n f -> exists s, n_accepted n !! s = Some pv.
Proof.
  unfold acceptedFrom, slot_order. rewrite stable_sort_Permutation.
  intros ([s pv'] & -> & H%elem_of_map_to_list)%list_elem_of_fmap. apply map_lookup_filter_Some in H as [H _]. by exists s.
Qed.
End Raise.

Section Inline.
Context {T : Type} `{ST : Store T} (A : gset NodeID) (a : NodeID) (cfg : Config) (cfg_ok : cluster_config A a cfg)
  (W : Value -> Prop) (W_noop : W "").
Implicit Types (n : Node T) (G : NodeID -> Message -> Prop) (V : NodeID -> PValue -> Prop).

Local Abbreviation good_at := (good_at A a cfg W).
Local Abbreviation good := (good A a cfg W).
Local Abbreviation does := (does A a W).
Local Abbreviation moves := (moves A a W).
Local Abbreviation stays := (stays A a cfg W).
Local Abbreviation remains := (remains A a cfg W).
Local Abbreviation goodly := (goodly A a cfg W).

Lemma is_self n G k : good_at n G k -> (a =? Self (n_cfg n)) = true.
Proof. intros H. rewrite (g_cfg _ _ _ _ _ _ _ H), (cc_self _ _ _ cfg_ok). apply Z.eqb_refl. Qed.

Lemma single_vote : size ({[a]} ∪ ∅ : gset NodeID) = 1%nat.
Proof. by rewrite union_empty_r_L, size_singleton. Qed.

(** ** Votes *)

(** A leader refused by its own acceptor steps down. *)
Lemma own_nack fuel now n p s w G V k :
  is_failed n = false -> good_at n G k -> n_role n = Leader -> Less (n_ballot n) p = true ->
  does n G V (fun n' G' _ => good_at n' G' k /\ (is_failed n' = true \/ n_role n' = Follower))
    (self_handle (S fuel) now n (Nack (n_ballot n) p s w)).
Proof.
  intros F H R Hp. rewrite (self_handle_S A a cfg cfg_ok W _ _ _ _ _ _ H F). unfold onNack, is_role.
  rewrite bool_decide_eq_false_2 by congruence. rewrite (bool_decide_eq_true_2 _ (eq_refl (n_ballot n))), Hp. cbn [negb orb].
  destruct (down_spec A a cfg W now p (bal_node p) w n G V k F H) as (M & H' & C).
  eapply does_ret; [exact M|done].
Qed.

(** The leader's own vote is counted, and decides when it is a majority. *)
Lemma own_accepted fuel now n s v t G V k :
  is_failed n = false -> good_at n G k -> n_role n = Leader -> (majority A < 2 -> counted n) ->
  n_proposals n !! s = Some (mkProposal v ∅ t) -> G a (Accepted (n_ballot n) s) ->
  does n G V (fun n' G' V' => stays n k n' G' V' /\ decided A n s n') (self_handle (S fuel) now n (Accepted (n_ballot n) s)).
Proof.
  intros F H R Hc Hp HG. rewrite (self_handle_S A a cfg cfg_ok W _ _ _ _ _ _ H F).
  destruct (decide (2 <= majority A)) as [Htwo|Hone].
  { eapply does_weaken; [eapply (onAccepted_few A a cfg cfg_ok W); [done..|by eapply self_in|done|]|].
    - cbn [accepts]. rewrite single_vote. lia.
    - intros n' G' V' ?. split; [done|]. intros ?. lia. }
  assert (Ho : majority A < 2) by lia. unfold onAccepted, is_role.
  rewrite (bool_decide_eq_true_2 _ R), (bool_decide_eq_true_2 _ (eq_refl (n_ballot n))). cbn [negb orb]. rewrite Hp.
  destruct (count_spec A a cfg cfg_ok W n a s _ G V k F H R Hp ltac:(by eapply self_in) HG) as (M & H1 & K1).
  set (n1 := n <| n_proposals := _ |>) in *. eapply does_moves; [exact M|]. cbv zeta.
  replace (n_quorum n1) with (majority A) by (symmetry; apply H).
  set (q := mkProposal v ∅ t <| accepts := _ |>) in *. assert (Eq : size (accepts q) = 1%nat) by exact single_vote.
  assert (P1 : n_proposals n1 !! s = Some q) by apply lookup_insert_eq. rewrite Eq.
  rewrite (proj2 (Z.ltb_ge _ _)) by lia. change (n_ballot n1) with (n_ballot n).
  set (e := mkEntry s (n_ballot n) _).
  assert (Hch : chosen_by A n1 G e).
  { right. split; [done|]. split; [done|]. exists q. split; [done|]. split; [done|].
    rewrite Eq. lia. }
  eapply does_bind; [eapply (learn_alone A a cfg W now); [done|done|exact H1|by apply Hc|exact Hch]|].
  intros n2 G2 V2 M2 ([H2 C2] & D2 & L2). simpl in D2.
  assert (D3 : decided A n s n2).
  { intros _ F2 R2. destruct (D2 Ho F2 R2) as [-> Hc2]. split; [|done]. unfold n1. simpl. apply delete_insert_eq. }
  assert (C3 : calm n n2) by by eapply kept_calm.
  destruct (is_failed n2) eqn:F2; [eapply does_ret; [apply moves_refl|done]|].
  destruct (broadcast_others A a cfg cfg_ok (self_handle fuel now) n2 (Learn (en_slot e) (en_ballot e) (en_value e))
    (g_cfg _ _ _ _ _ _ _ H2)) as (l & Hl & ->).
  eapply does_ret; [apply moves_push|]. destruct (push_fields a n2 l (Learn (en_slot e) (en_ballot e) (en_value e)))
    as (_ & E1 & _ & _ & _ & _ & E2 & _). split; [split|].
  - apply good_at_push; [done..|by apply L2].
  - destruct C3 as [C|[C|C]]; [by left; rewrite push_failed|by right; left; rewrite E1|right; right].
    eapply kept_trans; [exact C|apply push_kept].
  - intros _. rewrite push_failed, E1, E2. intros F3 R3. destruct (D3 Ho F3 R3) as [? Hc3]. split; [done|].
    intros Hs. by apply push_counted, Hc3.
Qed.

Lemma self_accept fuel now : accept_ok A a cfg W (self_handle (S (S fuel)) now).
Proof.
  intros n s v t G V k F H R Hs Hc Hp HG. rewrite (self_handle_S A a cfg cfg_ok W _ _ _ _ _ _ H F). unfold onAccept.
  rewrite (td_round _ _ _ _ _ _ (g_tidy _ _ _ _ _ _ _ H F)) by congruence. rewrite (proj2 (Z.eqb_neq _ _) Hs). cbn [orb].
  rewrite (safe_knobs A a cfg cfg_ok W _ _ _ _ H). cbn [orb].
  assert (Hout : forall n' G' (V' : NodeID -> PValue -> Prop), good_at n' G' k -> is_failed n' = true \/ n_role n' = Follower ->
    stays n k n' G' V' /\ decided A n s n').
  { intros n' G' V' H' C. split; [split; [done|by destruct C; [left|right; left]]|]. intros _ F' R'. destruct C; congruence. }
  unfold MayAccept. destruct (Less (n_ballot n) (n_promised n)) eqn:EL; cbn [negb].
  { rewrite (send_self A a cfg cfg_ok W _ _ _ _ _ H F).
    eapply does_weaken; [by apply own_nack|]. intros n' G' V' [? ?]. by apply Hout. }
  pose proof (vote_spec A a cfg W now n a (n_ballot n) s v G V k F H EL HG) as Hv.
  set (n1 := if Less (n_promised n) _ then _ else n) in *. cbv zeta in Hv.
  assert (E1 : holdings n1 = holdings n) by (unfold n1; destruct (Less (n_promised n) _); [apply setPromised_holdings|done]).
  destruct Hv as [(F1 & M1 & H1)|[(F1 & n2 & V2 & E & F2 & M2 & H2)|(F1 & st & E & Hv)]]; rewrite F1.
  - eapply does_ret; [exact M1|apply Hout; [done|by left]].
  - rewrite E. eapply does_ret; [exact M2|apply Hout; [done|by left]].
  - rewrite E. cbn [negb]. set (n3 := _ <| n_accepted := _ |>) in *.
    destruct Hv as (F3 & M3 & H3 & _ & K3). destruct (K3 (Less_irrefl _)) as [K3' P3].
    set (n4 := refreshLease now (n_ballot n) n3). assert (C4 : same_core n3 n4) by apply lease_core.
    assert (H4 := good_at_core A a cfg W _ _ _ _ C4 H3). rewrite (is_self _ _ _ H4). assert (F4 : is_failed n4 = false) by done.
    rewrite (send_self A a cfg cfg_ok W _ _ _ _ _ H4 F4).
    assert (K4 : kept n n4) by by destruct K3'.
    assert (Hc4 : majority A < 2 -> counted n4).
    { intros Ho. apply (counted_same n1); [done..|]. by eapply holdings_counted, Hc. }
    eapply does_moves; [eapply moves_trans; [exact M3|by apply moves_core]|].
    set (V' := vote a _ V). set (G' := say a (Accepted (n_ballot n) s) G).
    eapply (does_moves A a W n4 G V' n4 G' V'); [eapply moves_one; [|reflexivity]|].
    { apply (s_accepted A W a _ _ _ _ _ v). by right. }
    assert (H4' : good_at n4 G' k).
    { eapply good_at_grow; [apply say_grow| |exact H4]. intros b' s' v'. by apply say_accept. }
    assert (B4 : n_ballot n = n_ballot n4) by (symmetry; apply K4).
    assert (R4 : n_role n4 = Leader) by (rewrite <- R; apply K4).
    assert (Q4 : n_proposals n4 = n_proposals n) by exact P3.
    assert (HG' : G' a (Accepted (n_ballot n4) s)) by (right; by rewrite B4).
    rewrite B4. clearbody n4. eapply does_weaken; [eapply (own_accepted fuel now n4 s v t G' V' k); [done..|by rewrite Q4|done]|].
    intros n' G'' V'' [[X1 X2] X3]. split; [split; [done|by eapply kept_calm]|].
    unfold decided in *. by rewrite <- Q4.
Qed.

(** ** Candidacies *)

Lemma candidate_good n G k : good_at n G k -> (is_failed n = true \/ n_role n <> Leader) -> good n G.
Proof. intros H C. apply (good_at_good A a cfg W); [by eapply good_at_any|done]. Qed.

Lemma stays_goodly n0 n G V k r : n_role n = Candidate -> does n G V (remains n k) r -> does n G V goodly r.
Proof.
  intros R D. eapply does_weaken; [exact D|]. intros n' G' V' [[H C] _]. apply (candidate_good _ _ k); [done|].
  destruct C as [C|[C|[C _]]]; [by left|right..]; congruence.
Qed.

Lemma self_promise fuel now n G V k :
  is_failed n = false -> good_at n G k -> n_role n = Candidate -> promises (n_phase1 n) = Some ∅ ->
  n_promised n = n_ballot n -> (majority A < 2 -> able n) -> G a (Prepare (n_ballot n) (fromSlot (n_phase1 n))) ->
  let m := mkPromiseMsg (n_ballot n) (acceptedFrom n (fromSlot (n_phase1 n))) (n_commitIndex n) in
  does n G V goodly (send (self_handle (S (S (S fuel))) now) n a (Promise m)).
Proof.
  intros F H R Hp Eb Hab HG m. rewrite (send_self A a cfg cfg_ok W _ _ _ _ _ H F).
  rewrite (self_handle_S A a cfg cfg_ok W _ _ _ _ _ _ H F).
  pose proof (reply_step A a cfg W n G V a _ _ k F H HG Eb) as St. fold m in St.
  eapply (does_moves A a W n G V n (say a (Promise m) G) V); [by eapply moves_one|].
  assert (H0 : good_at n (say a (Promise m) G) k).
  { eapply good_at_grow; [apply say_grow| |exact H]. intros b' s' v'. by apply say_accept. }
  assert (Hsz : size (<[a := m]> (∅ : gmap NodeID PromiseMsg)) = 1%nat)
    by (rewrite map_size_insert_None by apply lookup_empty; by rewrite map_size_empty).
  assert (HGm : say a (Promise m) G a (Promise m)) by by right.
  destruct (decide (2 <= majority A)) as [Htwo|Hone].
  { eapply does_weaken; [eapply (onPromise_few A a cfg W now _ n a m ∅ _ V k F H0 R Hp)|]; [by eapply self_in|done|done|rewrite Hsz; lia|].
    intros n' G' V' [H' R']. eapply candidate_good; [done|right; congruence]. }
  assert (Ho : majority A < 2) by lia. destruct (Hab Ho) as (Hc & Hf & Hacc). unfold onPromise, is_role.
  rewrite (bool_decide_eq_true_2 _ R), (bool_decide_eq_true_2 _ (eq_refl : p_ballot m = n_ballot n)). cbn [negb orb].
  rewrite Hp. cbn [mbind option_bind].
  destruct (collect_spec A a cfg W n a m ∅ _ V k F H0 R Hp ltac:(by eapply self_in) HGm eq_refl) as [M H1].
  set (n1 := n <| n_phase1 := _ |>) in *. eapply does_moves; [exact M|].
  replace (n_quorum n1) with (majority A) by (symmetry; apply H). rewrite Hsz, (proj2 (Z.leb_le _ _)) by lia.
  apply (becomeLeader_spec A a cfg cfg_ok W W_noop now _ (self_accept fuel now) n1 _ V k F H1 R).
  - change (promises_of n1) with (<[a := m]> (∅ : gmap NodeID PromiseMsg)). rewrite Hsz. lia.
  - split; [|exact Hf|apply Hc| |by intros _].
    + change (n_queue n1) with (n_queue n). by rewrite (alone_queue A a cfg W n G k Ho F H).
    + change (promises_of n1) with (<[a := m]> (∅ : gmap NodeID PromiseMsg)). intros c m' pv.
      rewrite lookup_insert_Some. intros [[_ <-]|[_ ?]]; [|done]. simpl. intros [s Hs]%acceptedFrom_in. by eapply Hacc.
Qed.

Lemma self_prepare fuel now n G V k :
  is_failed n = false -> good_at n G k -> n_role n = Candidate -> (majority A < 2 -> able n) ->
  promises (n_phase1 n) = Some ∅ -> G a (Prepare (n_ballot n) (fromSlot (n_phase1 n))) ->
  does n G V goodly (self_handle (S (S (S (S fuel)))) now n (Prepare (n_ballot n) (fromSlot (n_phase1 n)))).
Proof.
  intros F H R Hab Hp HG. rewrite (self_handle_S A a cfg cfg_ok W _ _ _ _ _ _ H F). unfold onPrepare.
  assert (Hnack : forall p s w, does n G V goodly (send (self_handle (S (S (S fuel))) now) n a (Nack (n_ballot n) p s w))).
  { intros p s w. rewrite (send_self A a cfg cfg_ok W _ _ _ _ _ H F), (self_handle_S A a cfg cfg_ok W _ _ _ _ _ _ H F).
    eapply (stays_goodly n n G V k); [done|by apply onNack_spec]. }
  rewrite (td_round _ _ _ _ _ _ (g_tidy _ _ _ _ _ _ _ H F)) by congruence.
  case_bool_decide as EB.
  { rewrite (is_self _ _ _ H). by apply (self_promise fuel now n G V k). }
  unfold MayPromise. destruct (Less (n_promised n) (n_ballot n)) eqn:EL; cbn [negb]; [|apply Hnack].
  destruct (_ && _); [apply Hnack|].
  destruct (setPromised_spec A a cfg W now _ n G V k F H EL) as (M1 & H1 & P1).
  pose proof (setPromised_holdings now (n_ballot n) n) as E1.
  set (n1 := setPromised now (n_ballot n) n) in *. clearbody n1.
  destruct (is_failed n1) eqn:F1.
  { eapply does_ret; [exact M1|]. eapply candidate_good; [done|by left]. }
  destruct (P1 eq_refl) as (Eb & _ & K). destruct (K (Less_irrefl _)) as ([K1 K2 K3 K4 K5 K6] & _ & _).
  rewrite (is_self _ _ _ H1). eapply does_moves; [exact M1|]. rewrite <- K2, <- K3.
  apply (self_promise fuel now n1 G V k); try done; try congruence.
  intros Ho. destruct (Hab Ho) as (Hc & Hf & Hacc). unfold able.
  rewrite K3. assert (Ea : n_accepted n1 = n_accepted n) by (by injection E1). rewrite Ea.
  split; [by eapply holdings_counted|done].
Qed.

(** ** Heartbeats *)

Lemma self_heartbeat fuel now n c r G V k :
  is_failed n = false -> good_at n G k -> n_role n = Leader ->
  does n G V (remains n k) (self_handle (S (S fuel)) now n (Heartbeat (n_ballot n) c r)).
Proof.
  intros F H R. rewrite (self_handle_S A a cfg cfg_ok W _ _ _ _ _ _ H F). unfold onHeartbeat.
  assert (Hack : forall n b p c r G V, is_failed n = false -> good_at n G k ->
    does n G V (remains n k) (send (self_handle (S fuel) now) n a (HeartbeatAck b p c r))).
  { intros n' b p c' r' G' V' F' H'. rewrite (send_self A a cfg cfg_ok W _ _ _ _ _ H' F').
    rewrite (self_handle_S A a cfg cfg_ok W _ _ _ _ _ _ H' F'). by apply onHeartbeatAck_spec. }
  destruct (IsZero _); [by apply remains_refl|]. destruct (Less (n_ballot n) (n_promised n)) eqn:EL; [by apply Hack|].
  assert (H1 : let n1 := if Less (n_promised n) (n_ballot n) then setPromised now (n_ballot n) n else n in
             moves n G V n1 G V /\ good_at n1 G k /\ (is_failed n1 = false -> kept n n1 /\ n_proposals n1 = n_proposals n)).
  { simpl. destruct (Less (n_promised n) (n_ballot n)) eqn:EL'.
    - destruct (setPromised_spec A a cfg W now _ n G V k F H EL') as (M1 & H1 & P1). split; [done|split; [done|]].
      intros F1. destruct (P1 F1) as (_ & _ & K). by destruct (K (Less_irrefl _)) as (? & ? & _).
    - split; [apply moves_refl|done]. }
  simpl in H1. set (n1 := if Less (n_promised n) _ then _ else n) in *. clearbody n1.
  destruct H1 as (M1 & H1 & K1). destruct (is_failed n1) eqn:F1; [eapply does_ret; [exact M1|apply remains_out; [done|by left]]|].
  set (n2 := refreshLease now (n_ballot n) n1). assert (C2 : same_core n1 n2) by apply lease_core.
  assert (H2 := good_at_core A a cfg W _ _ _ _ C2 H1). assert (F2 : is_failed n2 = false) by done.
  rewrite (is_self _ _ _ H2). destruct (K1 eq_refl) as [K1' P1].
  assert (K2 : kept n n2) by by destruct K1'. assert (P2 : n_proposals n2 = n_proposals n) by exact P1.
  clearbody n2. eapply does_moves; [eapply moves_trans; [exact M1|by apply moves_core]|].
  eapply does_bind; [by apply Hack|]. intros n3 G3 V3 M3 [[H3 C3] S3].
  rewrite (is_self _ _ _ H3). cbn [negb andb].
  eapply does_ret; [apply moves_refl|]. split; [split; [done|by eapply kept_calm]|].
  unfold still in *. by rewrite <- P2.
Qed.

Lemma self_handle_ok fuel now : inline_ok A a cfg W (self_handle (S (S (S (S fuel)))) now).
Proof.
  split.
  - apply self_accept.
  - intros. by eapply self_prepare.
  - intros. by apply self_heartbeat.
Qed.
End Inline.
