(* ===== verification/Stable.v ===== *)
(** Invariants of one node: a property of the log node that its small updates
    keep is kept by every handler and every call.  [stable] lists the updates;
    Reads.v and Pending.v give the properties. *)

From S2P Require Import Prelude GoStd Paxos Voting Store Replog LogSpec NodeSteps Handlers.

Section Stable.
Context {T : Type} `{ST : Store T}.
Implicit Types (n : Node T) (r : option (Node T)).

(** What such a property may depend on: not on timers, leases, hints,
    proposals and queues. *)
Definition view n :=
  (n_cfg n, n_quorum n, n_promised n, n_maxRound n, disk n, n_chosen n, n_commitIndex n, n_role n, n_ballot n,
   fromSlot (n_phase1 n), promises (n_phase1 n), n_firstOwnSlot n, n_readSeq n, n_reads n, n_out n, n_events n, n_failed n).

Definition is_ready (ev : Event) : bool := match ev with ReadReady _ _ => true | _ => false end.

(** Messages that have nothing to do with reads. *)
Definition plain (m : Message) : bool := match m with Heartbeat _ _ _ | HeartbeatAck _ _ _ _ => false | _ => true end.

(** [may m]: the node may send [m]; [heard from m]: it may have received it. *)
Record stable (P : Node T -> Prop) (may : Message -> Prop) (heard : NodeID -> Message -> Prop) : Prop := {
  st_view : forall n n', view n' = view n -> P n -> P n';
  st_save : forall n x st, (forall z, x <> SMaxRound z) -> contents st = save_rec (disk n) x -> P n -> P (n <| n_store := st |>);
  st_round : forall n z st, n_maxRound n < z -> contents st = SaveMaxRound (disk n) z -> P n ->
    P (n <| n_maxRound := z |> <| n_store := st |>);
  st_emit : forall n ev, is_ready ev = false -> P n -> P (emit n ev);
  st_down : forall now l lb w n, P n -> P (stepDown now l lb w n);
  st_promise : forall now n b st, Less (n_promised n) b = true -> bal_round b <= n_maxRound n ->
    contents st = SavePromised (disk n) b -> P n ->
    let n' := n <| n_promised := b |> <| n_store := st |> in
    P (if negb (is_role n' Follower) && Less (n_ballot n') b then stepDown now (bal_node b) b 0 n' else n');
  st_learn : forall n s e, P n -> P (advanceCommit (n <| n_chosen := <[s := e]> (n_chosen n) |>));
  st_out : forall n to m, may m -> P n -> P (n <| n_out := n_out n ++ [mkEnvelope (Self (n_cfg n)) to m] |>);
  st_elect : forall n st p, n_role n <> Leader -> n_maxRound n < 2 ^ 63 ->
    contents st = SaveMaxRound (disk n) (n_maxRound n + 1) -> P n ->
    P (n <| n_maxRound := n_maxRound n + 1 |> <| n_store := st |> <| n_ballot := mkBallot (n_maxRound n + 1) (Self (n_cfg n)) |>
         <| n_role := Candidate |> <| n_phase1 := p |>);
  st_collect : forall n ps, n_role n = Candidate -> P n -> P (n <| n_phase1 := n_phase1 n <| promises := Some ps |> |>);
  st_crown : forall now n, n_role n = Candidate -> P n ->
    let ps := sorted_promises (default ∅ (promises (n_phase1 n))) in let top := takeover_top n ps in
    top <> 2 ^ 64 - 1 -> P (crowned now n ps top);
  st_lose : forall n, n_role n = Candidate -> P n -> P (n <| n_role := Follower |> <| n_phase1 := zero_phase1 |>);
  st_ack : forall n from c k j, n_role n = Leader -> heard from (HeartbeatAck (n_ballot n) (n_ballot n) c k) -> P n ->
    P (ack_read from k n j);
  st_positive : forall n, P n -> 0 <= n_maxRound n;
  st_self : forall n m, P n -> heard (Self (n_cfg n)) m;
  st_reply : forall n from b c k cm, P n -> heard from (Heartbeat b c k) -> from <> Self (n_cfg n) ->
    may (HeartbeatAck b (n_promised n) cm k);
  st_plain : forall m, plain m = true -> may m;
}.

Context (P : Node T -> Prop) (may : Message -> Prop) (heard : NodeID -> Message -> Prop) (S : stable P may heard).

(** A failed node answers nobody any more. *)
Definition held n : Prop := is_failed n = false -> P n.
Definition holds r : Prop := forall n, r = Some n -> held n.

Lemma held_view n n' : view n' = view n -> held n -> held n'.
Proof.
  intros E H F. apply (st_view _ _ _ S n); [done|]. apply H. unfold view in E. unfold is_failed in *.
  replace (n_failed n) with (n_failed n') by congruence. exact F.
Qed.

Lemma held_failed n : is_failed n = true -> held n.
Proof. intros F F'. congruence. Qed.

Lemma holds_ret n : held n -> holds (Some n).
Proof. by intros H ? [= <-]. Qed.

Lemma holds_bind r (f : Node T -> option (Node T)) :
  holds r -> (forall n, held n -> holds (f n)) -> holds (r ≫= f).
Proof. intros H Hf n' (n & E & E')%bind_Some. by apply (Hf n (H n E)). Qed.

Lemma holds_fold {X} (f : Node T -> X -> option (Node T)) l n :
  held n -> (forall n x, held n -> holds (f n x)) -> holds (foldM f n l).
Proof.
  intros H Hf. revert n H. induction l as [|x l IH]; intros n H; simpl; [by apply holds_ret|].
  apply holds_bind; [by apply Hf|exact IH].
Qed.

Definition holds_pair (p : option (Node T * bool)) : Prop := forall n b, p = Some (n, b) -> held n.

Lemma holds_bind_pair p (f : Node T * bool -> option (Node T)) :
  holds_pair p -> (forall n b, held n -> holds (f (n, b))) -> holds (p ≫= f).
Proof. intros H Hf n' ([n b] & E & E')%bind_Some. by apply (Hf n b (H n b E)). Qed.

(** ** Saving *)

Lemma save_cases n x : is_failed n = false ->
  (exists st, save n x = (n <| n_store := st |>, true) /\ contents st = save_rec (disk n) x) \/
  (exists n', save n x = (n', false) /\ is_failed n' = true).
Proof.
  intros F. unfold save. destruct (store_save (n_store n) x) as [st [e|]] eqn:E; [right|left].
  - eexists. split; [done|]. unfold fail, is_failed in *. simpl. by destruct (n_failed n).
  - exists st. split; [done|]. by apply store_save_ok.
Qed.

Lemma save_failed n x : is_failed n = true -> is_failed (save n x).1 = true.
Proof.
  intros F. unfold save. destruct (store_save _ _) as [st [e|]]; [|exact F].
  unfold fail, is_failed in *. simpl. destruct (n_failed n) eqn:E; [|done]. simpl. by rewrite E.
Qed.

(** A save that leaves the rounds alone. *)
Lemma save_held n x : (forall z, x <> SMaxRound z) -> held n -> held (save n x).1.
Proof.
  intros Hx H. destruct (is_failed n) eqn:F; [by apply held_failed, save_failed|].
  destruct (save_cases n x F) as [(st & E & Es)|(n' & E & F')]; rewrite E; [|by apply held_failed].
  intros _. apply (st_save _ _ _ S n x); auto.
Qed.

Lemma note_round_held b n : held n ->
  let '(n', ok) := note_round b n in
  held n' /\ (is_failed n = false -> ok = true -> is_failed n' = false /\ bal_round b <= n_maxRound n' /\ n_promised n' = n_promised n).
Proof.
  intros H. unfold note_round. destruct (Z.ltb_spec (n_maxRound n) (bal_round b)) as [Hlt|Hge]; [|done].
  set (n1 := n <| n_maxRound := _ |>). destruct (is_failed n) eqn:F.
  { pose proof (save_failed n1 (SMaxRound (n_maxRound n1)) F) as F1. destruct (save n1 _) as [n2 ok].
    split; [by apply held_failed|done]. }
  destruct (save_cases n1 (SMaxRound (n_maxRound n1)) F) as [(st & E & Es)|(n' & E & F')]; rewrite E.
  - split; [|intros _ _; by split_and!]. intros _. apply (st_round _ _ _ S n); auto.
  - split; [by apply held_failed|done].
Qed.

(** ** Events, timers, office *)

Lemma emit_held n ev : is_ready ev = false -> held n -> held (emit n ev).
Proof. intros E H F. apply (st_emit _ _ _ S); [done|by apply H]. Qed.

Lemma noteLeader_held now b n : held n -> held (noteLeader now b n).
Proof.
  intros H. unfold noteLeader. case_match; [|by apply (held_view n)].
  apply emit_held; [done|]. by apply (held_view n).
Qed.

Lemma stepDown_failed now l lb w n : is_failed (stepDown now l lb w n) = is_failed n.
Proof. unfold stepDown. by rewrite existsb_emits. Qed.

Lemma stepDown_held now l lb w n : held n -> held (stepDown now l lb w n).
Proof. intros H F. rewrite stepDown_failed in F. by apply (st_down _ _ _ S), H. Qed.

Lemma setPromised_held now b n : is_failed n = false -> Less (n_promised n) b = true -> held n ->
  held (setPromised now b n).
Proof.
  intros F Hb H. unfold setPromised. pose proof (note_round_held b n H) as HN.
  destruct (note_round b n) as [n1 ok]. destruct HN as (H1 & Ht).
  destruct ok; simpl; [|done]. destruct (Ht F eq_refl) as (F1 & Hr & Ep).
  set (n2 := n1 <| n_promised := b |>).
  destruct (save_cases n2 (SPromised b) F1) as [(st & E & Es)|(n' & E & F')]; rewrite E; simpl; [|by apply held_failed].
  intros _. apply (st_promise _ _ _ S now n1 b st); [by rewrite Ep|done|exact Es|by apply H1].
Qed.

Section Inline.
Context (now : Z) (inline : Node T -> Message -> option (Node T))
  (inline_held : forall n m, held n -> holds (inline n m)).

Lemma send_held n to m : held n -> (to <> Self (n_cfg n) -> is_failed n = false -> may m) -> holds (send inline n to m).
Proof.
  intros H Hm. unfold send. destruct (is_failed n) eqn:F; [by apply holds_ret|].
  destruct (Z.eqb_spec to (Self (n_cfg n))) as [|Hne]; [by apply inline_held|].
  apply holds_ret. intros _. apply (st_out _ _ _ S); auto.
Qed.

Lemma say_held n to m : held n -> may m -> holds (send inline n to m).
Proof. intros H Hm. by apply send_held. Qed.

Lemma plain_held n to m : held n -> plain m = true -> holds (send inline n to m).
Proof. intros H Hm. apply say_held; [done|]. by apply (st_plain _ _ _ S). Qed.

Lemma broadcast_held n m incl : held n -> may m -> holds (broadcast inline n m incl).
Proof.
  intros H Hm. apply holds_fold; [done|]. intros n' p H'. case_goal; [by apply holds_ret|by apply say_held].
Qed.

Lemma noted_held n b from : held n ->
  held (if from =? Self (n_cfg n) then n else noteLeader now b (refreshLease now b n)).
Proof. intros H. case_goal; [done|]. apply noteLeader_held. by apply (held_view n). Qed.

Lemma onPrepare_held n from b f : held n -> is_failed n = false -> holds (onPrepare now inline n from b f).
Proof.
  intros H F. unfold onPrepare. destruct (IsZero b); [by apply holds_ret|]. case_bool_decide as Eb.
  { apply plain_held; [by apply noted_held|done]. }
  destruct (MayPromise (n_promised n) b) eqn:Em; simpl; [|by apply plain_held].
  case_goal; [by apply plain_held|].
  assert (H1 := setPromised_held now b n F Em H). case_goal; [by apply holds_ret|].
  apply plain_held; [by apply noted_held|done].
Qed.

(** The promise is raised where the message's ballot is above it. *)
Lemma raised_held n b : held n -> is_failed n = false -> held (if Less (n_promised n) b then setPromised now b n else n).
Proof. intros H F. destruct (Less _ _) eqn:E; [by apply setPromised_held|done]. Qed.

Lemma onAccept_held n from b s v : held n -> is_failed n = false -> holds (onAccept now inline n from b s v).
Proof.
  intros H F. unfold onAccept. case_goal; [by apply holds_ret|]. case_goal; [by apply plain_held|].
  assert (H1 := raised_held n b H F). set (n1 := if Less _ _ then _ else _) in *. case_goal; [by apply holds_ret|].
  assert (H2 := save_held n1 (SAccepted (mkPValue b s v)) ltac:(done) H1). destruct (save n1 _) as [n2 ok]. simpl in H2.
  destruct ok; simpl; [|by apply holds_ret]. apply plain_held; [|done].
  set (n3 := refreshLease now b _). assert (H3 : held n3) by by apply (held_view n2).
  case_goal; [done|by apply noteLeader_held].
Qed.

Lemma onHeartbeat_held n from b c k : held n -> is_failed n = false -> heard from (Heartbeat b c k) ->
  holds (onHeartbeat now inline n from b c k).
Proof.
  intros H F Hm. unfold onHeartbeat. case_goal; [by apply holds_ret|].
  assert (Hack : forall n' cm, held n' -> holds (send inline n' from (HeartbeatAck b (n_promised n') cm k))).
  { intros n' cm H'. apply send_held; [done|]. intros Hne F'. apply (st_reply _ _ _ S n' from b c); auto. }
  case_goal; [by apply Hack|]. assert (H1 := raised_held n b H F). set (n1 := if Less _ _ then _ else _) in *.
  case_goal; [by apply holds_ret|]. set (n2 := refreshLease now b n1). assert (H2 : held n2) by by apply (held_view n1).
  apply holds_bind; [apply Hack; case_goal; [done|by apply noteLeader_held]|].
  intros n3 H3. case_goal; [|by apply holds_ret]. apply plain_held; [by apply (held_view n3)|done].
Qed.

Lemma propose_held n s v : held n -> holds (propose now inline n s v).
Proof. intros H. apply broadcast_held; [by apply (held_view n)|by apply (st_plain _ _ _ S)]. Qed.

Lemma drain_held f n : held n -> holds (drainQueue_fuel now inline f n).
Proof.
  revert n. induction f as [|f IH]; intros n H; simpl; (destruct (n_queue n) as [|v queue]; [by apply holds_ret|]);
    (case_goal; [|by apply holds_ret]); [by intros ? [=]|].
  apply holds_bind; [apply propose_held; by apply (held_view n)|]. intros n' H'. apply IH. by apply (held_view n').
Qed.

Lemma learn_held n e : held n -> holds (learn now inline n e).
Proof.
  intros H. unfold learn. assert (H1 := save_held n (SChosen e) ltac:(done) H). destruct (save n _) as [n1 ok]. simpl in H1.
  destruct ok; simpl; [|by apply holds_ret]. set (n2 := advanceCommit _).
  assert (H2 : held n2).
  { apply (held_view (advanceCommit (n1 <| n_chosen := <[en_slot e := e]> (n_chosen n1) |>))); [done|].
    intros F. apply (st_learn _ _ _ S). by apply H1. }
  case_goal; [by apply drain_held|by apply holds_ret].
Qed.

Lemma onLearn_held n from s b v : held n -> holds (onLearn now inline n from s b v).
Proof.
  intros H. unfold onLearn. case_goal; [by apply holds_ret|]. destruct (n_chosen n !! s); [|by apply learn_held].
  apply holds_ret. case_goal; [done|by apply emit_held].
Qed.

Lemma onLearnRequest_held n from s c : held n -> holds (onLearnRequest inline n from s c).
Proof.
  intros H. unfold onLearnRequest. case_goal; [by apply holds_ret|]. apply holds_fold; [done|].
  intros n' x H'. case_goal; [by apply plain_held|by apply holds_ret].
Qed.

Lemma onAccepted_held n from b s : held n -> holds (onAccepted now inline n from b s).
Proof.
  intros H. unfold onAccepted. case_goal; [by apply holds_ret|]. destruct (n_proposals n !! s) as [p|]; [|by apply holds_ret].
  set (n1 := n <| n_proposals := _ |>). assert (H1 : held n1) by by apply (held_view n).
  case_goal; [by apply holds_ret|]. apply holds_bind; [by apply learn_held|]. intros n2 H2.
  case_goal; [by apply holds_ret|]. apply broadcast_held; [done|by apply (st_plain _ _ _ S)].
Qed.

Lemma onNack_held n from b p w : held n -> held (onNack now n from b p w).
Proof.
  intros H. unfold onNack. do 2 (case_goal; [done|]). pose proof (note_round_held p n H) as HN.
  destruct (note_round p n) as [n1 ok]. destruct HN as (H1 & _). destruct ok; simpl; [by apply stepDown_held|done].
Qed.

Lemma ack_read_same n from k j : is_failed (ack_read from k n j) = is_failed n /\ n_role (ack_read from k n j) = n_role n /\
  n_ballot (ack_read from k n j) = n_ballot n.
Proof. unfold ack_read. case_goal; [done|]. case_goal; [|done]. by case_goal. Qed.

Lemma onHeartbeatAck_held n from b p c k : held n -> heard from (HeartbeatAck b p c k) -> holds (onHeartbeatAck now n from b p k).
Proof.
  intros H Hm. unfold onHeartbeatAck. case_goal; [by apply holds_ret|]. case_goal.
  { pose proof (note_round_held p n H) as HN. destruct (note_round p n) as [n1 ok]. destruct HN as (H1 & _).
    destruct ok; simpl; apply holds_ret; [by apply stepDown_held|done]. }
  destruct (is_role_spec n Leader) as [L|]; simpl; [|by apply holds_ret].
  destruct (bool_decide (b = n_ballot n)) eqn:Eb; simpl; [|by apply holds_ret]. b2p. subst b.
  destruct (n_contacts n) as [cs|]; [|by intros ? [=]].
  cbn [mbind option_bind]. set (n1 := n <| n_contacts := _ |>). assert (H1 : held n1) by by apply (held_view n).
  case_goal; [by apply holds_ret|]. b2p. subst p. apply holds_ret.
  assert (L1 : n_role n1 = Leader) by done. assert (Hm1 : heard from (HeartbeatAck (n_ballot n1) (n_ballot n1) c k)) by done.
  clear -H1 L1 Hm1 S. match goal with |- context [foldl _ _ ?x] => generalize x end. intros l. revert H1 L1 Hm1. generalize n1 as n0.
  induction l as [|j l IH]; intros n0 H0 L0 Hm0; simpl; [done|].
  destruct (ack_read_same n0 from k j) as (E1 & E2 & E3). apply IH; [|by rewrite E2|by rewrite E3].
  intros F. rewrite E1 in F. apply (st_ack _ _ _ S n0 from c); auto.
Qed.

(** ** Candidates and leaders *)

Lemma startElection_held n : held n -> is_failed n = false -> n_role n <> Leader -> n_maxRound n < 2 ^ 63 ->
  holds (startElection now inline n).
Proof.
  intros H F R Hr. unfold startElection. specialize (H F). pose proof (st_positive _ _ _ S n H) as H0.
  assert (Eu : u64 (n_maxRound n + 1) = n_maxRound n + 1) by (apply u64_id; unfold in_u64; lia).
  rewrite Eu. set (n1 := n <| n_maxRound := _ |>).
  destruct (save_cases n1 (SMaxRound (n_maxRound n1)) F) as [(st & E & Es)|(n' & E & F')]; rewrite E; simpl;
    [|by apply holds_ret, held_failed].
  set (n4 := _ <| n_phase1 := _ |>). apply broadcast_held; [|by apply (st_plain _ _ _ S)]. intros _.
  eapply (st_view _ _ _ S); [|by apply (st_elect _ _ _ S n st (n_phase1 n4))]. reflexivity.
Qed.

Lemma reproposals_held ps slots n : held n -> holds_pair (reproposals now inline ps slots n).
Proof.
  revert n. induction slots as [|s slots IH]; intros n H; simpl; [by intros ? ? [= <- _]|].
  destruct (n_chosen n !! s); [by apply IH|]. intros n' b (n1 & E1 & E2)%bind_Some.
  assert (H1 : held n1) by by eapply propose_held. case_hyp E2; [by injection E2 as <- _|by eapply IH].
Qed.

Lemma becomeLeader_held n : held n -> is_failed n = false -> n_role n = Candidate -> holds (becomeLeader now inline n).
Proof.
  intros H F R. unfold becomeLeader. set (ps := sorted_promises _). set (top := takeover_top n ps).
  destruct (Z.eqb_spec top (2 ^ 64 - 1)) as [|Ht]; [by intros ? [=]|].
  apply holds_bind_pair; [apply reproposals_held; intros _; apply (st_crown _ _ _ S); auto|]. intros n1 go H1.
  case_goal; [by apply holds_ret|]. apply holds_bind; [by apply propose_held|]. intros n2 H2.
  case_goal; [by apply holds_ret|by apply drain_held].
Qed.

Lemma onPromise_held n from m : held n -> is_failed n = false -> holds (onPromise now inline n from m).
Proof.
  intros H F. unfold onPromise. destruct (is_role_spec n Candidate) as [R|]; simpl; [|by apply holds_ret].
  case_goal; [by apply holds_ret|]. destruct (promises (n_phase1 n)) as [ps|]; [|by intros ? [=]]. cbn [mbind option_bind].
  set (n1 := n <| n_phase1 := _ |>). assert (H1 : held n1) by (intros _; apply (st_collect _ _ _ S); auto).
  case_goal; [by apply becomeLeader_held|by apply holds_ret].
Qed.

(** ** Timers *)

Lemma retransmit_held slots n : held n -> holds_pair (retransmit now inline slots n).
Proof.
  revert n. induction slots as [|s slots IH]; intros n H; simpl; [by intros ? ? [= <- _]|].
  destruct (n_proposals n !! s) as [p|]; [|by intros ? ? [=]]. cbn [mbind option_bind]. case_goal; [|by apply IH].
  intros n' b (n1 & E1 & E2)%bind_Some.
  assert (H1 : held n1) by (eapply broadcast_held; [| |exact E1]; [by apply (held_view n)|by apply (st_plain _ _ _ S)]).
  case_hyp E2; [by injection E2 as <- _|by eapply IH].
Qed.

Lemma tick_held n : held n -> is_failed n = false -> n_maxRound n < 2 ^ 63 ->
  (n_role n = Leader -> may (Heartbeat (n_ballot n) (n_commitIndex n) (maxPendingRead n))) -> holds (tick now inline n).
Proof.
  intros H F Hr Ho. unfold tick. destruct (n_role n) eqn:R.
  - case_goal; [|by apply holds_ret]. apply startElection_held; try done. by rewrite R.
  - case_goal.
    { apply holds_ret. apply (held_view (n <| n_role := Follower |> <| n_phase1 := zero_phase1 |>)); [done|].
      intros _. apply (st_lose _ _ _ S); auto. }
    case_goal; [|by apply holds_ret]. apply holds_fold; [by apply (held_view n)|].
    intros n' p H'. case_goal; [by apply holds_ret|by apply plain_held].
  - apply holds_bind.
    { case_goal; [|by apply holds_ret]. apply broadcast_held; [by apply (held_view n)|by apply Ho]. }
    intros n1 H1. case_goal; [by apply holds_ret|]. apply holds_bind_pair; [by apply retransmit_held|].
    intros n2 go H2. case_goal; [by apply holds_ret|]. destruct (quorumContact now n2); [|by intros ? [=]]. cbn [mbind option_bind].
    apply holds_ret. case_goal; [by apply stepDown_held|done].
Qed.
End Inline.

Lemma handle_held now fuel n from m : held n -> heard from m -> holds (handle fuel now n from m).
Proof.
  revert n from m. induction fuel as [|fuel IH]; intros n from m H Hm; [by intros ? [=]|]. cbn [handle].
  destruct (is_failed n) eqn:F; [by apply holds_ret|].
  assert (I : forall n m, held n -> holds ((fun n m => handle fuel now n (Self (n_cfg n)) m) n m)).
  { intros n' m' H' x E. destruct (is_failed n') eqn:F'.
    - assert (x = n') as ->; [|done]. destruct fuel; [done|]. cbn [handle] in E. rewrite F' in E. by injection E.
    - eapply IH; [exact H'| |exact E]. by apply (st_self _ _ _ S), H'. }
  destruct m.
  - by apply onPrepare_held.
  - by apply onPromise_held.
  - by apply onAccept_held.
  - by apply onAccepted_held.
  - apply holds_ret. by apply onNack_held.
  - by apply onLearn_held.
  - by apply onLearnRequest_held.
  - by apply onHeartbeat_held.
  - by eapply onHeartbeatAck_held.
Qed.

Lemma inline_of_held now n0 n m : held n -> holds (inline_of now n0 n m).
Proof.
  intros H. unfold inline_of. destruct (is_failed n) eqn:F.
  - unfold handle_fuel. replace (2 * length (n_queue n0) + 4)%nat with (Datatypes.S (2 * length (n_queue n0) + 3)) by lia.
    cbn [handle]. rewrite F. by apply holds_ret.
  - apply handle_held; [done|]. by apply (st_self _ _ _ S), H.
Qed.

(** ** Calls

    What a call hands over is what [finish] makes of a node that has the
    property; a call on a failed node does nothing. *)

Lemma begin_view now n : view (begin now n) = view n.
Proof. unfold begin. by destruct (n_started n). Qed.

Lemma begin_held now n : held n -> held (begin now n).
Proof. apply held_view, begin_view. Qed.

Definition finished (n : Node T) (r : Node T * list Envelope) : Prop :=
  (r = (n, []) /\ (is_failed n = true)) \/ exists m, held m /\ r = finish m.

Lemma finished_bind n r n' out : holds r -> (m ← r; Some (finish m)) = Some (n', out) -> finished n (n', out).
Proof. intros H (m & E & [= <-])%bind_Some. right. exists m. split; [by apply H|done]. Qed.

Lemma Step_held now env n n' out : held n -> heard (env_from env) (env_msg env) ->
  Step now env n = Some (n', out) -> finished n (n', out).
Proof.
  intros H Hm. unfold Step. destruct (is_failed n) eqn:F; [intros [= <- <-]; by left|].
  apply finished_bind. assert (H1 := begin_held now n H). case_goal; [by apply handle_held|by apply holds_ret].
Qed.

Lemma Tick_held now n n' out : n_maxRound n < 2 ^ 63 -> held n ->
  (n_role n = Leader -> may (Heartbeat (n_ballot n) (n_commitIndex n) (maxPendingRead n))) ->
  Tick now n = Some (n', out) -> finished n (n', out).
Proof.
  intros Hr H Hl. unfold Tick. destruct (is_failed n) eqn:F; [intros [= <- <-]; by left|].
  apply finished_bind. pose proof (begin_view now n) as E. unfold view in E.
  assert (Em : n_maxRound (begin now n) = n_maxRound n) by congruence.
  assert (Ef : n_failed (begin now n) = n_failed n) by congruence.
  assert (Er : n_role (begin now n) = n_role n) by congruence.
  assert (Eb : n_ballot (begin now n) = n_ballot n) by congruence.
  assert (Ec : n_commitIndex (begin now n) = n_commitIndex n) by congruence.
  assert (Es : n_reads (begin now n) = n_reads n) by congruence.
  apply tick_held; [intros; by apply inline_of_held|by apply begin_held|unfold is_failed in *; by rewrite Ef|by rewrite Em|].
  unfold maxPendingRead in *. by rewrite Er, Eb, Ec, Es.
Qed.

(** [Propose] may also leave early, with nothing to send. *)
Lemma Propose_held now v n n' out err : held n -> Propose now v n = Some (n', out, err) ->
  finished n (n', out) \/ (out = [] /\ n' = begin now n).
Proof.
  intros H. unfold Propose. destruct (n_failed n) eqn:F.
  { intros [= <- <- _]. left. left. split; [done|]. unfold is_failed. by rewrite F. }
  assert (H1 := begin_held now n H). set (n1 := begin now n) in *. case_goal; [intros [= <- <- _]; by right|].
  case_goal; [intros [= <- <- _]; by right|]. case_goal.
  - case_goal; intros [= Ef _]; left; right; [by exists n1|].
    exists (n1 <| n_queue := n_queue n1 ++ [v] |>). split; [by apply (held_view n1)|done].
  - intros (n2 & E2 & [= Ef _])%bind_Some. assert (H2 : held n2).
    { eapply propose_held; [|exact H1|exact E2]. intros. by apply inline_of_held. }
    left. right. exists (n2 <| n_nextSlot := u64 (n_nextSlot n2 + 1) |>). split; [by apply (held_view n2)|done].
Qed.
End Stable.

Arguments stable {T ST} P may heard.
Arguments held {T} P n.
Arguments finished {T} P n r.
