(* ===== verification/Reads.v ===== *)
(** Read-index barriers on one node: what a call of the node does to the reads
    it has pending, to the heartbeats it sends for them and to the
    acknowledgements it gives and counts.  One invariant of the node, with what
    the rest of the cluster is known to have said as parameters, is [stable] in
    the sense of Stable.v; ReadSafety.v puts the nodes together. *)

From S2P Require Import Prelude GoStd Paxos Voting Store Replog LogSpec NodeSteps Handlers Stable.

Section Reads.
Context {T : Type} `{ST : Store T} (cfg : Config) (q : Z).
Implicit Types n : Node T.

(** [floor] bounds the node's promises from below; [beats] are the heartbeats
    known to be sent, [own] those of this node; [acked y b k] says that node
    [y] acknowledged ballot [b] as its promise for the reads up to [k].
    [target] is a pending read to follow: its number, the ballot it started at
    and the index it got. *)
Record Known := mkKnown {
  floor : Ballot;
  beats : Ballot -> Z -> Prop;
  own : Ballot -> Z -> Prop;
  acked : NodeID -> Ballot -> Z -> Prop;
  target : option (Z * Ballot * Slot);
}.
Implicit Types K : Known.

(** The commit index stops at the first slot that is not chosen. *)
Record commit_ok (chosen : gmap Slot Entry) (c : Slot) : Prop := {
  cm_range : 0 <= c;
  cm_last : c = 0 \/ is_Some (chosen !! c);
  cm_stop : (forall s e, chosen !! s = Some e -> s < 2 ^ 63) -> chosen !! (c + 1) = None;
}.

(** A leader's first own slot lies behind every slot reported to it. *)
Definition top_ok n : Prop :=
  let from := fromSlot (n_phase1 n) in
  exists top, n_firstOwnSlot n = u64 (top + 1) /\ u64 (from - 1) <= top /\ top <> 2 ^ 64 - 1 /\
    (forall c m pv, promises_of n !! c = Some m -> pv ∈ p_accepted m -> from <= pv_slot pv -> pv_slot pv <= top) /\
    (top = u64 (from - 1) \/ (exists c m pv, promises_of n !! c = Some m /\ pv ∈ p_accepted m /\ pv_slot pv = top) \/
     is_Some (n_chosen n !! top)).

(** Who has acknowledged the read [k] that started at ballot [b]. *)
Definition supporter K (b : Ballot) (k : Z) (y : NodeID) : Prop := y = Self cfg \/ acked K y b k.

(** Reads are numbered up to [readSeq]. *)
Definition keys_ok n : Prop :=
  0 <= n_readSeq n /\ (forall k rd, n_reads n !! k = Some rd -> k <= n_readSeq n) /\
  forall k i, ReadReady k i ∈ n_events n -> k <= n_readSeq n.

(** What is known of the read to follow. *)
Definition followed K n : Prop :=
  match target K with
  | None => True
  | Some (k, b, c) =>
      k <= n_readSeq n /\
      (forall rd, n_reads n !! k = Some rd ->
         n_ballot n = b /\ index rd = c /\ forall y, y ∈ acks rd -> supporter K b k y) /\
      (forall i, ReadReady k i ∈ n_events n ->
         i = c /\ exists Q : gset NodeID, q <= Z.of_nat (size Q) /\ forall y, y ∈ Q -> supporter K b k y)
  end.

(** What a node may say about reads. *)
Definition sayable K (m : Message) : Prop :=
  match m with
  | Heartbeat b _ k => own K b k
  | HeartbeatAck b p _ k => beats K b k /\ Less p (floor K) = false
  | _ => True
  end.

Record sound K n : Prop := {
  so_cfg : n_cfg n = cfg /\ n_quorum n = q;
  so_idle : n_role n <> Leader -> n_reads n = ∅;
  so_floor : Less (n_promised n) (floor K) = false;
  so_round : 0 <= ms_max_round (disk n) <= n_maxRound n /\ bal_round (n_promised n) <= n_maxRound n;
  so_office : n_role n <> Follower -> Less (n_ballot n) (n_promised n) = false /\
    bal_node (n_ballot n) = Self cfg /\ 1 <= bal_round (n_ballot n) <= ms_max_round (disk n);
  so_commit : commit_ok (n_chosen n) (n_commitIndex n);
  so_top : n_role n = Leader -> top_ok n;
  so_keys : keys_ok n;
  so_own : forall b k, own K b k -> bal_node b = Self cfg /\ 1 <= bal_round b <= ms_max_round (disk n) /\
    (b = n_ballot n -> k <= n_readSeq n);
  so_out : forall env, env ∈ n_out n -> env_from env = Self cfg /\ sayable K (env_msg env);
  so_target : followed K n;
}.

Lemma sound_view K n n' : view n' = view n -> sound K n -> sound K n'.
Proof.
  unfold view. intros [= E1 E2 E3 E4 E5 E6 E7 E8 E9 E10 E11 E12 E13 E14 E15 E16 E17] [S1 S2 S3 S4 S5 S6 S7 S8 S9 S10 S11].
  split; rewrite ?E1, ?E2, ?E3, ?E4, ?E5, ?E6, ?E7, ?E8, ?E9, ?E13, ?E14, ?E15; auto.
  - intros L. specialize (S7 L). unfold top_ok, promises_of in *. by rewrite ?E6, ?E10, ?E11, ?E12.
  - unfold keys_ok in *. by rewrite ?E13, ?E14, ?E16.
  - unfold followed in *. by rewrite ?E9, ?E13, ?E14, ?E16.
Qed.

(** ** Events, office *)

Lemma followed_events K n l : Forall (fun ev => is_ready ev = false) l ->
  followed K n -> followed K (n <| n_events := n_events n ++ l |>).
Proof.
  intros Hl. unfold followed. destruct (target K) as [[[k b] c]|]; [|done]. intros (H1 & H2 & H3). split_and!; [done..|].
  simpl. intros i [Hi|Hi]%elem_of_app; [by apply H3|]. rewrite Forall_forall in Hl. by specialize (Hl _ Hi).
Qed.

Lemma keys_events n l : Forall (fun ev => is_ready ev = false) l -> keys_ok n -> keys_ok (n <| n_events := n_events n ++ l |>).
Proof.
  intros Hl (H1 & H2 & H3). split_and!; [done..|]. simpl. intros k i [Hi|Hi]%elem_of_app; [by eapply H3|].
  rewrite Forall_forall in Hl. by specialize (Hl _ Hi).
Qed.

Lemma sound_events K n l : Forall (fun ev => is_ready ev = false) l -> sound K n -> sound K (n <| n_events := n_events n ++ l |>).
Proof. intros Hl [S1 S2 S3 S4 S5 S6 S7 S8 S9 S10 S11]. split; auto using keys_events, followed_events. Qed.

(** Leaving office ends every read. *)
Definition retired n : Node T := n <| n_role := Follower |> <| n_reads := ∅ |>.

Lemma keys_retired n n' : n_readSeq n' = n_readSeq n -> n_reads n' = ∅ -> n_events n' = n_events n -> keys_ok n -> keys_ok n'.
Proof.
  intros E1 E2 E3 (H1 & _ & H3). unfold keys_ok. rewrite E1, E2, E3. split_and!; [done| |done].
  intros k rd. by rewrite lookup_empty.
Qed.

Lemma retired_sound K n : sound K n -> sound K (retired n).
Proof.
  intros [S1 S2 S3 S4 S5 S6 S7 S8 S9 S10 S11]. split; try done.
  - by apply (keys_retired n).
  - unfold followed in *. destruct (target K) as [[[k b] c]|]; [|done]. destruct S11 as (X1 & _ & X3).
    split_and!; [done| |done]. intros rd. simpl. by rewrite lookup_empty.
Qed.

Lemma stepDown_sound K now l lb w n : sound K (retired n) -> sound K (stepDown now l lb w n).
Proof.
  intros H. unfold stepDown. rewrite existsb_emits by done.
  set (evs := map (fun s => ReadFailed s (mkNotLeaderError l)) (sorted_keys (n_reads n)) ++ [LeaderChanged l lb false]).
  assert (Hl : Forall (fun ev => is_ready ev = false) evs).
  { apply Forall_app. split; [|by constructor]. apply Forall_forall. intros ev Hev.
    apply list_elem_of_In, in_map_iff in Hev as (s & <- & _). done. }
  apply (sound_events K _ evs Hl) in H. destruct H as [S1 S2 S3 S4 S5 S6 S7 S8 S9 S10 S11]. split; try done.
  - unfold keys_ok, emit in *. simpl in *. by rewrite <- app_assoc.
  - unfold followed, emit in *. simpl in *. by rewrite <- app_assoc.
Qed.

(** ** Rounds and promises *)

Lemma save_sound K n x st : (forall z, x <> SMaxRound z) -> contents st = save_rec (disk n) x -> sound K n -> sound K (n <| n_store := st |>).
Proof.
  intros Hx Es [S1 S2 S3 S4 S5 S6 S7 S8 S9 S10 S11].
  assert (Er : ms_max_round (disk (n <| n_store := st |>)) = ms_max_round (disk n)).
  { unfold disk. simpl. rewrite Es. destruct x as [|r| |]; try done. by destruct (Hx r). }
  split; rewrite ?Er; auto.
Qed.

Lemma round_sound K n z st : n_maxRound n < z -> contents st = SaveMaxRound (disk n) z -> sound K n ->
  sound K (n <| n_maxRound := z |> <| n_store := st |>).
Proof.
  intros Hlt Es [S1 S2 S3 S4 S5 S6 S7 S8 S9 S10 S11]. set (n1 := _ <| n_store := st |>).
  assert (Er : ms_max_round (disk n1) = z) by (unfold disk; simpl; by rewrite Es).
  split; rewrite ?Er; auto; simpl.
  - lia.
  - intros R. destruct (S5 R) as (? & ? & ?). split_and!; try done; lia.
  - intros b' k' Ho. destruct (S9 b' k' Ho) as (? & ? & ?). split_and!; try done; lia.
Qed.

Lemma promise_sound K now n1 b st : Less (n_promised n1) b = true -> bal_round b <= n_maxRound n1 ->
  contents st = SavePromised (disk n1) b -> sound K n1 ->
  let n3 := n1 <| n_promised := b |> <| n_store := st |> in
  sound K (if negb (is_role n3 Follower) && Less (n_ballot n3) b then stepDown now (bal_node b) b 0 n3 else n3).
Proof.
  intros Hb Hr Es [S1 S2 S3 S4 S5 S6 S7 S8 S9 S10 S11] n3.
  assert (Er : ms_max_round (disk n3) = ms_max_round (disk n1)) by (unfold disk; simpl; by rewrite Es).
  assert (S0 : sound K (retired n3)).
  { assert (Er0 : ms_max_round (disk (retired n3)) = ms_max_round (disk n1)) by exact Er.
    split; rewrite ?Er0; try done; simpl.
    - ballots.
    - by split; [apply S4|].
    - by apply (keys_retired n1).
    - unfold followed in *. destruct (target K) as [[[k b'] c]|]; [|done]. destruct S11 as (X1 & _ & X3). split_and!; [done| |done].
      intros rd. simpl. by rewrite lookup_empty. }
  destruct (negb (is_role n3 Follower) && Less (n_ballot n3) b) eqn:Eg; [by apply stepDown_sound|].
  split; rewrite ?Er; auto; simpl.
  - ballots.
  - by split; [apply S4|].
  - intros R. destruct (S5 R) as (_ & ? & ?). split; [|done]. apply andb_false_iff in Eg as [Eg|Eg]; [|done].
    apply negb_false_iff, bool_decide_eq_true in Eg. done.
Qed.

(** ** Learning *)

Lemma commit_from (m : gmap Slot Entry) c : 0 <= c -> c = 0 \/ is_Some (m !! c) ->
  commit_ok m (advance (S (size m)) m c).
Proof.
  intros H1 H2'. assert (Hc : 0 <= advance (S (size m)) m c /\ (advance (S (size m)) m c = 0 \/ is_Some (m !! advance (S (size m)) m c))).
  { revert c H1 H2'. generalize (S (size m)) as f. induction f as [|f IH]; intros c H1 H2; simpl; [done|].
    destruct (m !! u64 (c + 1)) as [x|] eqn:E; [|done]. apply IH; [apply u64_range|right; by eexists]. }
  split; [apply Hc..|]. intros Hs. apply advance_stops; [|exact Hs|].
  - split; [done|]. destruct H2' as [->|[x Hx]]; [lia|by eapply Hs].
  - apply Nat.lt_succ_r, map_size_filter.
Qed.

Lemma commit_advance (chosen : gmap Slot Entry) c s e : commit_ok chosen c ->
  let m := <[s := e]> chosen in commit_ok m (advance (S (size m)) m c).
Proof.
  intros [H1 H2 _] m. apply commit_from; [done|]. destruct H2 as [->|[x Hx]]; [by left|right].
  unfold m. rewrite lookup_insert. case_decide; eauto.
Qed.

Lemma advance_sound K n s e : sound K n -> sound K (advanceCommit (n <| n_chosen := <[s := e]> (n_chosen n) |>)).
Proof.
  intros [S1 S2 S3 S4 S5 S6 S7 S8 S9 S10 S11]. split; try done.
  - by apply commit_advance.
  - intros L. destruct (S7 L) as (top & H1 & H2 & H3 & H4 & H5). exists top. split_and!; try done.
    destruct H5 as [?|[?|[x Hx]]]; [by left|by right; left|right; right]. simpl. rewrite lookup_insert. case_decide; eauto.
Qed.

(** ** Messages *)

Definition heard K (from : NodeID) (m : Message) : Prop :=
  from <> Self cfg ->
  match m with
  | Heartbeat b _ k => beats K b k
  | HeartbeatAck b p _ k => p = b -> forall j, j <= k -> acked K from b j
  | _ => True
  end.

Lemma out_sound K n to m : sayable K m -> sound K n -> sound K (n <| n_out := n_out n ++ [mkEnvelope (Self (n_cfg n)) to m] |>).
Proof.
  intros Hm [S1 S2 S3 S4 S5 S6 S7 S8 S9 S10 S11]. split; try done.
  intros env [He|He%list_elem_of_singleton]%elem_of_app; [by apply S10|]. subst env. simpl. by destruct S1 as [-> _].
Qed.

(** Counting acknowledgements. *)
Lemma ack_read_sound K n from k j : sound K n -> (from = Self cfg \/ forall i, i <= k -> acked K from (n_ballot n) i) ->
  sound K (ack_read from k n j).
Proof.
  intros H Hf. unfold ack_read. destruct (Z.ltb_spec k j) as [|Hj]; [done|]. destruct (n_reads n !! j) as [rd|] eqn:E; [|done].
  set (rd' := mkRead _ _). case_goal.
  - destruct H as [S1 S2 S3 S4 S5 S6 S7 S8 S9 S10 S11]. split; try done.
    + intros R. simpl. rewrite (S2 R). apply delete_empty.
    + destruct S8 as (X1 & X2 & X3). split_and!; [done| |].
      * simpl. intros i x [_ Hi]%lookup_delete_Some. by eapply X2.
      * intros i x. simpl. intros [Hi|Hi]%elem_of_app; [by eapply X3|]. apply list_elem_of_singleton in Hi as [= -> _].
        by eapply X2.
    + unfold followed in *. destruct (target K) as [[[i b] c]|]; [|done]. destruct S11 as (X1 & X2 & X3). split_and!; [done| |].
      * simpl. intros x [_ Hi]%lookup_delete_Some. by apply X2.
      * simpl. intros x [Hi|Hi]%elem_of_app; [by apply X3|]. apply list_elem_of_singleton in Hi as [= -> ->].
        destruct (X2 _ E) as (Eb & -> & Hacks). split; [done|]. exists (acks rd'). split; [b2p; destruct S1 as [_ <-]; done|].
        intros y [->%elem_of_singleton|Hy]%elem_of_union; [|by apply Hacks]. rewrite Eb in Hf.
        destruct Hf as [Hf|Hf]; [by left|right; by apply Hf].
  - destruct H as [S1 S2 S3 S4 S5 S6 S7 S8 S9 S10 S11]. split; try done.
    + intros R. exfalso. by rewrite (S2 R), lookup_empty in E.
    + destruct S8 as (X1 & X2 & X3). split_and!; [done| |done]. intros i x. simpl. rewrite lookup_insert.
      case_decide as D; [subst; intros _; by eapply X2|apply X2].
    + unfold followed in *. destruct (target K) as [[[i b] c]|]; [|done]. destruct S11 as (X1 & X2 & X3). split_and!; [done| |done].
      intros x. simpl. rewrite lookup_insert. case_decide as D; [|apply X2]. subst. intros [= <-].
      destruct (X2 _ E) as (Eb & Ei & Hacks). split_and!; [done|done|]. simpl.
      intros y [->%elem_of_singleton|Hy]%elem_of_union; [|by apply Hacks]. rewrite Eb in Hf.
      destruct Hf as [Hf|Hf]; [by left|right; by apply Hf].
Qed.

(** ** Candidates and leaders *)

Lemma elect_sound K n st p : n_role n <> Leader -> n_maxRound n < 2 ^ 63 ->
  contents st = SaveMaxRound (disk n) (n_maxRound n + 1) -> sound K n ->
  sound K (n <| n_maxRound := n_maxRound n + 1 |> <| n_store := st |> <| n_ballot := mkBallot (n_maxRound n + 1) (Self (n_cfg n)) |>
             <| n_role := Candidate |> <| n_phase1 := p |>).
Proof.
  intros R Hr Es [S1 S2 S3 S4 S5 S6 S7 S8 S9 S10 S11]. set (n4 := _ <| n_phase1 := p |>).
  assert (Er : ms_max_round (disk n4) = n_maxRound n + 1) by (unfold disk; simpl; by rewrite Es).
  split; try done; rewrite ?Er; simpl.
  - intros _. by apply S2.
  - lia.
  - intros _. destruct S1 as [-> _]. split_and!; [apply Less_false; simpl; lia|done|lia|lia].
  - intros b k Ho. destruct (S9 b k Ho) as (? & ? & ?). split_and!; [done|lia|lia|]. intros ->. simpl in *. lia.
  - unfold followed in *. destruct (target K) as [[[i b] c]|]; [|done]. destruct S11 as (X1 & _ & X3). split_and!; [done| |done].
    intros rd. simpl. by rewrite (S2 R), lookup_empty.
Qed.

Lemma sorted_promises_elem (m : gmap NodeID PromiseMsg) c x : (c, x) ∈ sorted_promises m <-> m !! c = Some x.
Proof. by rewrite sorted_promises_perm, elem_of_map_to_list. Qed.

Lemma crowned_sound K now n : n_role n = Candidate -> sound K n ->
  let ps := sorted_promises (default ∅ (promises (n_phase1 n))) in let top := takeover_top n ps in
  top <> 2 ^ 64 - 1 -> sound K (crowned now n ps top).
Proof.
  intros R [S1 S2 S3 S4 S5 S6 S7 S8 S9 S10 S11] ps top Htop.
  assert (Hno : n_reads n = ∅) by (apply S2; by rewrite R).
  set (evs := [LeaderChanged (Self (n_cfg n)) (n_ballot n) true]).
  assert (Hev : Forall (fun ev => is_ready ev = false) evs) by by constructor.
  split; try done.
  - intros _. apply S5. by rewrite R.
  - intros _. exists top. unfold crowned, promises_of. simpl. set (from := fromSlot (n_phase1 n)). split; [done|].
    unfold top, takeover_top in *. fold from in Htop |- *. set (l := List.filter _ _) in *.
    destruct (foldl_up l (u64 (from - 1))) as (L1 & L2 & L3). set (t1 := foldl _ _ l) in *. set (k := map fst _) in *.
    destruct (foldl_up k t1) as (K1 & K2 & K3). set (t2 := foldl _ t1 k) in *.
    assert (Hl : forall x, x ∈ l <-> from <= x /\ exists c m pv, promises_of n !! c = Some m /\ pv ∈ p_accepted m /\ pv_slot pv = x).
    { intros x. unfold l. rewrite list_elem_of_In, filter_In, in_flat_map, Z.leb_le. setoid_rewrite in_map_iff.
      setoid_rewrite <- list_elem_of_In. split.
      - intros [([c m] & Hc & pv & <- & Hpv) Hx]. split; [done|]. exists c, m, pv. apply sorted_promises_elem in Hc. done.
      - intros (Hx & c & m & pv & Hc & Hpv & <-). split; [|done]. exists (c, m). split; [by apply sorted_promises_elem|]. by exists pv. }
    split_and!; [lia|done| |].
    + intros c m pv Hc Hpv Hge. assert (pv_slot pv <= t1); [|lia]. apply L2, Hl. eauto 10.
    + destruct K3 as [->|K3].
      * destruct L3 as [->|L3]; [by left|right; left]. apply Hl in L3 as (_ & ?). done.
      * right. right. change k with ((map_to_list (n_chosen n)).*1) in K3.
        apply list_elem_of_fmap in K3 as ([x e] & E & He%elem_of_map_to_list). simpl in E. rewrite E. by exists e.
  - apply (keys_retired (n <| n_events := n_events n ++ evs |>)); [done..|]. by apply keys_events.
  - apply (followed_events K n evs Hev) in S11. unfold followed in *. destruct (target K) as [[[i b] c]|]; [|done].
    destruct S11 as (X1 & _ & X3). split_and!; [done| |done]. intros rd. simpl. by rewrite lookup_empty.
Qed.

Theorem sound_stable K : stable (sound K) (sayable K) (heard K).
Proof.
  split.
  - apply sound_view.
  - apply save_sound.
  - apply round_sound.
  - intros n ev E H. apply sound_events; [by constructor|done].
  - intros now l lb w n H. by apply stepDown_sound, retired_sound.
  - apply promise_sound.
  - apply advance_sound.
  - apply out_sound.
  - apply elect_sound.
  - intros n ps R [S1 S2 S3 S4 S5 S6 S7 S8 S9 S10 S11]. split; try done. intros L. simpl in L. congruence.
  - apply crowned_sound.
  - intros n R [S1 S2 S3 S4 S5 S6 S7 S8 S9 S10 S11]. split; try done. intros _. apply S2. by rewrite R.
  - intros n from c k j _ Hm H. apply ack_read_sound; [done|]. destruct (decide (from = Self cfg)) as [|Hne]; [by left|right].
    by apply Hm.
  - intros n H. destruct (so_round _ _ H). lia.
  - intros n m H. destruct (so_cfg _ _ H) as [-> _]. by intros ?.
  - intros n from b c k cm H Hm Hne. destruct (so_cfg _ _ H) as [Ec _]. rewrite Ec in Hne. split; [by apply Hm|apply H].
  - by intros [].
Qed.

(** Of a node whose store has failed nothing is known. *)
Definition safe K n : Prop := held (sound K) n.

Lemma safe_failed K n : is_failed n = true -> safe K n.
Proof. apply held_failed. Qed.

(** ** Calls *)

(** Learning more about the others. *)
Lemma sound_weaken K K' n : n_out n = [] -> floor K' = floor K -> target K' = target K ->
  (forall b k, own K' b k -> own K b k) -> (forall y b k, acked K y b k -> acked K' y b k) -> sound K n -> sound K' n.
Proof.
  intros Eo Ef Et Ho Ha [S1 S2 S3 S4 S5 S6 S7 S8 S9 S10 S11]. split; try done.
  - by rewrite Ef.
  - intros b k Hk. by apply S9, Ho.
  - rewrite Eo. by intros env ?%not_elem_of_nil.
  - unfold followed in *. rewrite Et. destruct (target K) as [[[k b] c]|]; [|done]. destruct S11 as (X1 & X2 & X3).
    assert (Hs : forall y, supporter K b k y -> supporter K' b k y) by (intros y [?|?]; [by left|right; by apply Ha]).
    split_and!; [done| |].
    + intros rd Hr. destruct (X2 rd Hr) as (? & ? & ?). split_and!; auto.
    + intros i Hi. destruct (X3 i Hi) as (? & Q & ? & ?). split; [done|]. exists Q. split; auto.
Qed.

(** What a call leaves behind and hands to the transport. *)
Definition answered K n (out : list Envelope) : Prop :=
  n_out n = [] /\ safe K n /\ (is_failed n = true -> out = []) /\ forall env, env ∈ out -> env_from env = Self cfg /\ sayable K (env_msg env).

Lemma finish_safe K n : safe K n -> answered K (finish n).1 (finish n).2.
Proof.
  intros H. unfold finish. destruct (is_failed n) eqn:F; simpl.
  - split; [done|]. split; [by apply safe_failed|]. split; [done|]. by intros env ?%not_elem_of_nil.
  - split; [done|]. destruct (H F) as [S1 S2 S3 S4 S5 S6 S7 S8 S9 S10 S11]. split; [|by split; [intros F'; change (is_failed n = true) in F'; congruence|]]. intros _. split; try done.
    simpl. by intros env ?%not_elem_of_nil.
Qed.

Lemma answered_none K n : n_out n = [] -> safe K n -> answered K n [].
Proof. intros. split_and!; [done..|by intros env ?%not_elem_of_nil]. Qed.

Lemma finished_safe K n n' out : n_out n = [] -> finished (sound K) n (n', out) -> answered K n' out.
Proof.
  intros Ho [[[= -> ->] F]|(m & Hm & E)]; [by apply answered_none; [|apply safe_failed]|].
  apply (finish_safe K) in Hm. by rewrite <- E in Hm.
Qed.

Lemma Step_safe K now env n n' out : n_out n = [] -> safe K n -> heard K (env_from env) (env_msg env) ->
  Step now env n = Some (n', out) -> answered K n' out.
Proof. intros Ho H Hm E. apply (finished_safe K n); [done|]. by eapply Step_held; [apply sound_stable|..]. Qed.

Lemma Tick_safe K now n n' out : n_out n = [] -> n_maxRound n < 2 ^ 63 -> safe K n ->
  (n_role n = Leader -> own K (n_ballot n) (maxPendingRead n)) -> Tick now n = Some (n', out) -> answered K n' out.
Proof. intros Ho Hr H Hl E. apply (finished_safe K n); [done|]. by eapply Tick_held; [apply sound_stable|..]. Qed.

Lemma begin_safe K now n : safe K n -> safe K (begin now n).
Proof. eapply begin_held, sound_stable. Qed.

Lemma begin_out now n : n_out (begin now n) = n_out n.
Proof. pose proof (begin_view now n) as E. unfold view in E. congruence. Qed.

Lemma Propose_keeps_safe K now v n n' out err : n_out n = [] -> safe K n -> Propose now v n = Some (n', out, err) -> answered K n' out.
Proof.
  intros Ho H E. eapply Propose_held in E as [E|[-> ->]]; [by apply (finished_safe K n)| |apply sound_stable|exact H].
  apply answered_none; [by rewrite begin_out|by apply begin_safe].
Qed.

Lemma Events_safe K n : n_out n = [] -> safe K n -> answered K (Replog.Events n).1 [].
Proof.
  intros Ho H. apply answered_none; [done|]. intros F. destruct (H F) as [S1 S2 S3 S4 S5 S6 S7 S8 S9 S10 S11]. split; try done.
  - destruct S8 as (X1 & X2 & _). split_and!; [done..|]. by intros k i ?%not_elem_of_nil.
  - unfold followed in *. destruct (target K) as [[[k b] c]|]; [|done]. destruct S11 as (X1 & X2 & _).
    split_and!; [done..|]. by intros i ?%not_elem_of_nil.
Qed.

(** The heartbeat a tick may send. *)
Definition with_own K (b : Ballot) (k : Z) (tg : option (Z * Ballot * Slot)) : Known :=
  mkKnown (floor K) (beats K) (fun b' k' => own K b' k' \/ (b' = b /\ k' = k)) (acked K) tg.

Lemma sayable_own K b k tg m : sayable K m -> sayable (with_own K b k tg) m.
Proof. destruct m; simpl; auto. Qed.

Lemma beat_sound K n k : sound K n -> n_role n = Leader -> k <= n_readSeq n -> sound (with_own K (n_ballot n) k (target K)) n.
Proof.
  intros [S1 S2 S3 S4 S5 S6 S7 S8 S9 S10 S11] R Hk. split; try done.
  - intros b k' [Ho|[-> ->]]; [by apply S9|]. destruct (S5 ltac:(by rewrite R)) as (_ & ? & ?). do 2 (split; [done|]). by intros _.
  - intros env He. destruct (S10 env He) as [? Hs]. split; [done|by apply sayable_own].
Qed.

Lemma maxPendingRead_le n : keys_ok n -> maxPendingRead n <= n_readSeq n.
Proof.
  intros (H0 & Hk & _). unfold maxPendingRead. destruct (foldl_up (map fst (map_to_list (n_reads n))) 0) as (_ & _ & [->|Hin]); [done|].
  change (map fst (map_to_list (n_reads n))) with ((map_to_list (n_reads n)).*1) in *.
  apply list_elem_of_fmap in Hin as ([k rd] & -> & Hr%elem_of_map_to_list). by eapply Hk.
Qed.

(** Starting a read. *)
Definition reading n : Node T :=
  n <| n_readSeq := n_readSeq n + 1 |> <| n_reads := <[n_readSeq n + 1 := mkRead (n_commitIndex n) {[Self cfg]}]> (n_reads n) |>.

Lemma reading_sound K n tg : sound K n -> n_role n = Leader ->
  (tg = target K \/ tg = Some (n_readSeq n + 1, n_ballot n, n_commitIndex n)) ->
  sound (with_own K (n_ballot n) (n_readSeq n + 1) tg) (reading n).
Proof.
  intros [S1 S2 S3 S4 S5 S6 S7 S8 S9 S10 S11] R Ht. destruct S8 as (Y1 & Y2 & Y3).
  assert (Er : n_readSeq (reading n) = n_readSeq n + 1) by done.
  assert (Es : n_reads (reading n) = <[n_readSeq n + 1 := mkRead (n_commitIndex n) {[Self cfg]}]> (n_reads n)) by done.
  split; try done.
  - unfold keys_ok. rewrite Er, Es. split; [lia|]. split.
    + intros k rd. rewrite lookup_insert. case_decide as D; [intros _; lia|]. intros Hk%Y2. lia.
    + simpl. intros k i Hi%Y3. lia.
  - intros b k [Ho|[-> ->]]; rewrite Er.
    + destruct (S9 b k Ho) as (? & ? & Hk). do 2 (split; [done|]). intros Eb. specialize (Hk Eb). lia.
    + destruct (S5 ltac:(by rewrite R)) as (_ & ? & ?). do 2 (split; [done|]). by intros _.
  - intros env He. destruct (S10 env He) as [? Hs]. split; [done|by apply sayable_own].
  - destruct Ht as [->| ->]; unfold followed in *; cbn [target with_own]; rewrite Er, Es.
    + destruct (target K) as [[[k b] c]|]; [|done]. destruct S11 as (X1 & X2 & X3). split_and!; [lia| |done].
      intros rd. rewrite lookup_insert_ne by lia. apply X2.
    + split_and!; [lia| |intros i Hi%Y3; lia]. intros rd. rewrite lookup_insert_eq. intros [= <-]. split_and!; [done..|].
      simpl. intros y ->%elem_of_singleton. by left.
Qed.

Lemma ReadIndex_safe K now n n' k out err : n_out n = [] -> 0 <= n_readSeq n < 2 ^ 63 -> safe K n ->
  ReadIndex now n = Some (n', k, out, err) ->
  match err with
  | Some _ => answered K n' out
  | None => is_failed n = false /\ k = n_readSeq n + 1 /\ n_role n = Leader /\ Ready n = true /\
      forall tg, tg = target K \/ tg = Some (k, n_ballot n, n_commitIndex n) ->
        answered (with_own K (n_ballot n) k tg) n' out
  end.
Proof.
  intros Ho Hk H. unfold ReadIndex. destruct (n_failed n) eqn:F; [intros [= <- <- <- <-]; by apply answered_none|].
  assert (H1 := begin_safe K now n H). assert (Ev := begin_view now n).
  assert (Er : Ready (begin now n) = Ready n) by (unfold begin; by destruct (n_started n)).
  set (n1 := begin now n) in *. unfold view in Ev.
  assert (Ef : n_failed n1 = None) by congruence. assert (F1 : is_failed n1 = false) by (unfold is_failed; by rewrite Ef).
  assert (O1 : n_out n1 = []) by congruence. assert (Hs : n_readSeq n1 = n_readSeq n) by congruence.
  assert (Eb : n_ballot n1 = n_ballot n) by congruence. assert (Ec : n_commitIndex n1 = n_commitIndex n) by congruence.
  assert (El : n_role n1 = n_role n) by congruence. clear Ev.
  destruct (is_role_spec n1 Leader) as [R|]; simpl; [|intros [= <- <- <- <-]; by apply answered_none].
  destruct (Ready n1) eqn:Rd; simpl; [|intros [= <- <- <- <-]; by apply answered_none].
  assert (Eu : u64 (n_readSeq n1 + 1) = n_readSeq n1 + 1) by (apply u64_id; unfold in_u64; lia).
  set (n2 := _ <| n_lastHeartbeat := now |>). intros (n3 & E3 & E4)%bind_Some.
  destruct (finish n3) as [n4 o] eqn:E5. injection E4 as <- <- <- <-.
  split_and!; [unfold is_failed; by rewrite F|simpl; by rewrite Eu, Hs|congruence|by rewrite <- Er|].
  intros tg Ht. rewrite <- Eb.
  set (K' := with_own K (n_ballot n1) (n_readSeq n1 + 1) tg). assert (H3 : safe K' n3).
  { assert (Hm : sayable K' (Heartbeat (n_ballot n1) (n_commitIndex n1) (u64 (n_readSeq n1 + 1)))) by exact (or_intror (conj eq_refl Eu)).
    refine (broadcast_held _ _ _ (sound_stable K') (inline_of now n2) _ n2 _ true _ Hm n3 E3).
    { intros x y Hx. exact (inline_of_held _ _ _ (sound_stable K') now n2 x y Hx). }
    eapply (held_view _ _ _ (sound_stable K') (reading n1)).
    - unfold view. simpl. rewrite Eu. assert (n_cfg n1 = cfg) as -> by apply (H1 F1). done.
    - intros _. apply reading_sound; [by apply H1|done|]. destruct Ht as [->| ->]; [by left|right].
      simpl. by rewrite Eu, <- Eb, <- Ec. }
  apply (finish_safe K') in H3. rewrite E5 in H3. by rewrite Eu.
Qed.
End Reads.
