(* ===== verification/Pending.v ===== *)
(** The read barriers a node has begun: each stays pending until exactly the
    call that reports it, ready or failed, as an event; none is forgotten, and
    only a leader has any.  The property is [stable] in the sense of Stable.v;
    the event loop relies on it to answer every read it holds. *)

From S2P Require Import Prelude GoStd Paxos Voting Store Replog LogSpec NodeSteps Handlers Stable.

Section Pending.
Context {T : Type} `{ST : Store T}.
Implicit Types n : Node T.

(** Whether an event ends the barrier numbered [k]. *)
Definition ends (k : Z) (ev : Event) : bool :=
  match ev with ReadReady j _ | ReadFailed j _ => j =? k | _ => false end.

(** Barrier [k] is pending, or the events not yet drained report it. *)
Definition open_read n (k : Z) : Prop := is_Some (n_reads n !! k) \/ existsb (ends k) (n_events n) = true.

(** [D] are the barriers to account for, [z] the number of the latest. *)
Record accounted (z : Z) (D : Z -> Prop) n : Prop := {
  ac_seq : n_readSeq n = z;
  ac_idle : n_role n <> Leader -> n_reads n = ∅;
  ac_open : forall k, D k -> open_read n k;
  ac_round : 0 <= n_maxRound n;
}.

Lemma open_more n n' l k : n_reads n' = n_reads n -> n_events n' = n_events n ++ l -> open_read n k -> open_read n' k.
Proof.
  intros E1 E2 [H|H]; [left; by rewrite E1|right]. rewrite E2, existsb_app, H. done.
Qed.

(** Leaving office reports every pending barrier as failed. *)
Lemma stepDown_open now l lb w n k : open_read n k -> open_read (stepDown now l lb w n) k.
Proof.
  intros H. right. unfold stepDown. rewrite existsb_emits by done. unfold emit. simpl. rewrite !existsb_app.
  destruct H as [[rd Hk]|H]; [|by rewrite H]. apply orb_true_iff. left. apply orb_true_iff. right.
  apply existsb_exists. exists (ReadFailed k (mkNotLeaderError l)). split; [|simpl; apply Z.eqb_refl].
  apply in_map_iff. exists k. split; [done|]. apply list_elem_of_In. rewrite sorted_keys_perm.
  apply list_elem_of_fmap. exists (k, rd). split; [done|]. by apply elem_of_map_to_list.
Qed.

Lemma stepDown_accounted z D now l lb w n : n_readSeq n = z -> (forall k, D k -> open_read n k) -> 0 <= n_maxRound n ->
  accounted z D (stepDown now l lb w n).
Proof.
  intros H1 H3 H4. assert (E : n_readSeq (stepDown now l lb w n) = n_readSeq n /\ n_reads (stepDown now l lb w n) = ∅ /\
    n_maxRound (stepDown now l lb w n) = n_maxRound n) by (unfold stepDown; by rewrite existsb_emits).
  destruct E as (E1 & E2 & E3). split; [congruence|by intros _| |by rewrite E3]. intros k Hk. by apply stepDown_open, H3.
Qed.

Lemma ack_read_open n from k j i : open_read n i -> open_read (ack_read from k n j) i.
Proof.
  intros H. unfold ack_read. case_goal; [done|]. destruct (n_reads n !! j) as [rd|] eqn:Er; [|done]. case_goal.
  - destruct (decide (i = j)) as [->|Hne].
    + right. simpl. rewrite existsb_app. simpl. rewrite Z.eqb_refl. by rewrite orb_true_r.
    + destruct H as [H|H]; [left; simpl; by rewrite lookup_delete_ne|right; simpl; by rewrite existsb_app, H].
  - destruct H as [[x Hx]|H]; [left|by right]. simpl. rewrite lookup_insert. case_decide; eauto.
Qed.

Theorem accounted_stable z D : stable (accounted z D) (fun _ => True) (fun _ _ => True).
Proof.
  split; try done.
  - unfold view. intros n n' [= E1 E2 E3 E4 E5 E6 E7 E8 E9 E10 E11 E12 E13 E14 E15 E16 E17] [H1 H2 H3 H4].
    split; [congruence|by rewrite E8, E14| |lia]. intros k Hk. apply (open_more n n' [] k); [done|by rewrite app_nil_r|auto].
  - intros n x st _ _ [H1 H2 H3 H4]. by split.
  - intros n i st Hlt _ [H1 H2 H3 H4]. split; try done. simpl. lia.
  - intros n ev _ [H1 H2 H3 H4]. split; try done. intros k Hk. by apply (open_more n _ [ev] k), H3.
  - intros now l lb w n [H1 H2 H3 H4]. by apply stepDown_accounted.
  - intros now n b st _ _ _ [H1 H2 H3 H4] n'. case_goal; [by apply stepDown_accounted|by split].
  - intros n s e [H1 H2 H3 H4]. by split.
  - intros n to m _ [H1 H2 H3 H4]. by split.
  - intros n st p R _ _ [H1 H2 H3 H4]. split; try done; [by intros _; apply H2|simpl; lia].
  - intros n ps _ [H1 H2 H3 H4]. by split.
  - intros now n R [H1 H2 H3 H4] ps top _. assert (E : n_reads n = ∅) by (apply H2; by rewrite R).
    split; try done. intros k Hk. apply (open_more n _ [LeaderChanged (Self (n_cfg n)) (n_ballot n) true] k); [by rewrite E|done|auto].
  - intros n R [H1 H2 H3 H4]. split; try done. intros _. apply H2. by rewrite R.
  - intros n from c k j L _ [H1 H2 H3 H4]. assert (E : n_readSeq (ack_read from k n j) = n_readSeq n /\ n_maxRound (ack_read from k n j) = n_maxRound n).
    { unfold ack_read. case_goal; [done|]. case_goal; [|done]. by case_goal. }
    destruct E as [E1 E2]. destruct (ack_read_same n from k j) as (_ & Er & _). split; [congruence|congruence| |by rewrite E2].
    intros i Hi. by apply ack_read_open, H3.
  - intros n [H1 H2 H3 H4]. done.
Qed.

(** ** Calls *)

(** The node keeps its barriers in order. *)
Record orderly n : Prop := {
  or_idle : is_failed n = false -> n_role n <> Leader -> n_reads n = ∅;
  or_round : is_failed n = false -> 0 <= n_maxRound n;
}.

(** What a call does to the barriers, unless the store fails in it: the node
    stays orderly, and every barrier is still pending or reported. *)
Definition keeps_reads n n' : Prop :=
  orderly n' /\ (is_failed n = true -> is_failed n' = true) /\
  (is_failed n' = false -> n_readSeq n' = n_readSeq n /\ forall k, open_read n k -> open_read n' k).

Lemma orderly_held n : orderly n -> held (accounted (n_readSeq n) (open_read n)) n.
Proof. intros [H1 H2] F. split; auto. Qed.

Lemma held_orderly z D n : held (accounted z D) n -> orderly n.
Proof. intros H. split; intros F; by destruct (H F). Qed.

Lemma finished_keeps n r : orderly n -> finished (accounted (n_readSeq n) (open_read n)) n r -> is_failed n = false \/ r = (n, []) -> keeps_reads n r.1.
Proof.
  intros Ho Hf Hor. destruct Hf as [[-> F]|(m & Hm & ->)].
  - split; [done|]. split; [done|]. simpl. intros F'. congruence.
  - unfold finish. destruct (is_failed m) eqn:Fm; simpl.
    + split; [|split; [done|]].
      * split; intros F; change (is_failed m = false) in F; congruence.
      * intros F. change (is_failed m = false) in F. congruence.
    + specialize (Hm Fm). split; [split; intros _; apply Hm|]. split.
      * intros F. destruct Hor as [F'|E]; [congruence|]. unfold finish in E. rewrite Fm in E. injection E as E _.
        rewrite <- E in F. exact F.
      * intros _. split; [apply Hm|]. intros k Hk. exact (ac_open _ _ _ Hm k Hk).
Qed.

Lemma begin_keeps now n : orderly n -> keeps_reads n (begin now n).
Proof.
  intros [H1 H2]. pose proof (begin_view now n) as E. unfold view in E.
  assert (Ef : n_failed (begin now n) = n_failed n) by congruence.
  assert (Er : n_role (begin now n) = n_role n) by congruence. assert (Es : n_reads (begin now n) = n_reads n) by congruence.
  assert (Em : n_maxRound (begin now n) = n_maxRound n) by congruence. assert (Eq : n_readSeq (begin now n) = n_readSeq n) by congruence.
  assert (Ee : n_events (begin now n) = n_events n) by congruence.
  assert (F : is_failed (begin now n) = is_failed n) by (unfold is_failed; by rewrite Ef).
  split; [split; by rewrite F, ?Er, ?Es, ?Em|]. split; [by rewrite F|]. intros _. split; [done|]. unfold open_read. by rewrite Es, Ee.
Qed.

Lemma Step_keeps now env n n' out : orderly n -> Step now env n = Some (n', out) -> keeps_reads n n'.
Proof.
  intros Ho E. pose proof (orderly_held n Ho) as Hh. apply (finished_keeps n (n', out)); [done| |].
  - by eapply Step_held; [apply accounted_stable|..].
  - unfold Step in E. destruct (is_failed n); [right; by injection E as -> ->|by left].
Qed.

Lemma Tick_keeps now n n' out : orderly n -> n_maxRound n < 2 ^ 63 -> Tick now n = Some (n', out) -> keeps_reads n n'.
Proof.
  intros Ho Hr E. pose proof (orderly_held n Ho) as Hh. apply (finished_keeps n (n', out)); [done| |].
  - by eapply Tick_held; [apply accounted_stable|..].
  - unfold Tick in E. destruct (is_failed n); [right; by injection E as -> ->|by left].
Qed.

Lemma Propose_keeps now v n n' out err : orderly n -> Propose now v n = Some (n', out, err) -> keeps_reads n n'.
Proof.
  intros Ho E. pose proof (orderly_held n Ho) as Hh. pose proof E as E0.
  eapply Propose_held in E as [E|[-> ->]]; [|by apply begin_keeps|apply accounted_stable|exact Hh].
  apply (finished_keeps n (n', out)); [done..|]. unfold Propose, is_failed in *.
  destruct (n_failed n); [right; by injection E0 as -> ->|by left].
Qed.

(** A new barrier is pending, under the next number. *)
Lemma ReadIndex_keeps now n n' k out err : orderly n -> 0 <= n_readSeq n < 2 ^ 63 -> ReadIndex now n = Some (n', k, out, err) ->
  match err with
  | Some _ => keeps_reads n n'
  | None => orderly n' /\ is_failed n = false /\ k = n_readSeq n + 1 /\ n_role n = Leader /\
      (is_failed n' = false -> n_readSeq n' = k /\ forall j, open_read n j \/ j = k -> open_read n' j)
  end.
Proof.
  intros Ho Hk. unfold ReadIndex. destruct (n_failed n) eqn:F.
  { intros [= <- _ _ <-]. split; [done|]. by split; [|intros F'; unfold is_failed in F'; rewrite F in F']. }
  assert (H1 := begin_keeps now n Ho). assert (Ev := begin_view now n). set (n1 := begin now n) in *. unfold view in Ev.
  assert (Es : n_readSeq n1 = n_readSeq n) by congruence. assert (Er : n_role n1 = n_role n) by congruence.
  assert (Ef : n_failed n1 = None) by congruence. assert (F1 : is_failed n1 = false) by (unfold is_failed; by rewrite Ef).
  assert (Ed : n_reads n1 = n_reads n) by congruence. assert (Ee : n_events n1 = n_events n) by congruence. clear Ev.
  destruct (is_role_spec n1 Leader) as [R|]; simpl; [|by intros [= <- _ _ <-]].
  destruct (Ready n1); simpl; [|by intros [= <- _ _ <-]].
  assert (Eu : u64 (n_readSeq n1 + 1) = n_readSeq n1 + 1) by (apply u64_id; unfold in_u64; lia).
  set (n2 := _ <| n_lastHeartbeat := now |>). intros (n3 & E3 & E4)%bind_Some.
  destruct (finish n3) as [n4 o] eqn:E5. injection E4 as <- <- _ <-.
  set (D := fun j => open_read n j \/ j = n_readSeq n + 1).
  assert (H2 : held (accounted (n_readSeq n + 1) D) n2).
  { intros _. split; simpl; [by rewrite Eu, Es|intros R'; congruence| |by apply H1].
    intros j [Hj| ->].
    - destruct Hj as [[rd Hj]|Hj]; [left|right; simpl; by rewrite Ee]. simpl. rewrite lookup_insert, Ed. case_decide; eauto.
    - left. simpl. rewrite Eu, Es, lookup_insert_eq. by eexists. }
  assert (H3 : held (accounted (n_readSeq n + 1) D) n3).
  { refine (broadcast_held _ _ _ (accounted_stable _ _) (inline_of now n2) _ n2 _ true H2 I n3 E3).
    intros x y Hx. exact (inline_of_held _ _ _ (accounted_stable _ _) now n2 x y Hx). }
  unfold finish in E5. destruct (is_failed n3) eqn:F3; injection E5 as <- _.
  - split; [split; intros F'; change (is_failed n3 = false) in F'; congruence|].
    split; [unfold is_failed; by rewrite F|]. split; [simpl; by rewrite Eu, Es|]. split; [congruence|].
    intros F'. change (is_failed n3 = false) in F'. congruence.
  - specialize (H3 F3). destruct H3 as [X1 X2 X3 X4]. split; [by split|]. split; [unfold is_failed; by rewrite F|].
    split; [simpl; by rewrite Eu, Es|]. split; [congruence|]. intros _. simpl. split; [by rewrite X1, Eu, Es|].
    intros j Hj. apply X3. unfold D. rewrite <- Es, <- Eu. destruct Hj as [?|Hj]; [by left|right; exact Hj].
Qed.

(** Draining the events reports what is not pending any more. *)
Lemma Events_keeps n : orderly n -> orderly (Replog.Events n).1 /\
  forall k, open_read n k -> existsb (ends k) (Replog.Events n).2 = false -> is_Some (n_reads (Replog.Events n).1 !! k).
Proof.
  intros [H1 H2]. split; [by split|]. intros k [Hk|Hk] He; [done|]. simpl in He. congruence.
Qed.

(** A new node has no barrier. *)
Lemma New_orderly cfg st rng n : New cfg st rng = inl n -> n_reads n = ∅ /\ n_events n = [] /\ n_failed n = None /\ n_readSeq n = 0.
Proof.
  unfold New. destruct (Validate _); [done|]. destruct (store_load st); [|done]. intros [= <-]. by destruct (_ <? _).
Qed.
End Pending.
