(* ===== verification/Drive.v ===== *)
(** The timers of the log node and its driving methods: [Step], [Tick],
    [Propose] and [ReadIndex] return, and what they do to the node, its disk
    and the network is a sequence of the abstract steps of LogSpec.v. *)

From S2P Require Import Prelude GoStd Paxos Voting Store Replog LogSpec NodeSteps Handlers Inline.

Section Drive.
Context {T : Type} `{ST : Store T} (A : gset NodeID) (a : NodeID) (cfg : Config) (cfg_ok : cluster_config A a cfg)
  (W : Value -> Prop) (W_noop : W "").
Implicit Types (n : Node T) (G : NodeID -> Message -> Prop) (V : NodeID -> PValue -> Prop).

Local Abbreviation good_at := (good_at A a cfg W).
Local Abbreviation good := (good A a cfg W).
Local Abbreviation does := (does A a W).
Local Abbreviation moves := (moves A a W).
Local Abbreviation goodly := (goodly A a cfg W).
Local Abbreviation push := (push a).

Section Timers.
Context (now : Z) (inline : Node T -> Message -> option (Node T)) (inl : inline_ok A a cfg W inline).

(** No ballot above [maxRound] was ever used. *)
Definition rounds_used n G : Prop := forall b s v, G a (Accept b s v) -> bal_round b <= n_maxRound n.

Lemma timeout_rng n : exists r d, randomElectionTimeout n = (n <| n_rng := r |>, d).
Proof. unfold randomElectionTimeout, Int64N. by eexists _, _. Qed.

Lemma startElection_spec n G V :
  is_failed n = false -> good n G -> roomy n -> rounds_used n G -> does n G V goodly (startElection now inline n).
Proof.
  intros F H [Rr _ Rc _ _ Rs _ _ Ra] Hu. unfold startElection. rewrite (u64_id (n_maxRound n + 1)) by (unfold in_u64; lia).
  set (n1 := n <| n_maxRound := _ |>). change (n_maxRound n1) with (n_maxRound n + 1).
  set (f := u64 (n_commitIndex n + 1)). pose proof (g_at _ _ _ _ _ _ H) as Ha.
  assert (St := s_elect A W a (absn n) G V f ltac:(simpl; by rewrite F)).
  destruct (save_does A a cfg W n n1 (SMaxRound (n_maxRound n + 1)) G V V _ (n_nextSlot n) F Ha eq_refl eq_refl eq_refl eq_refl
    eq_refl St eq_refl eq_refl) as [(st & E & Es)|(n' & V' & E & F' & M & H' & HV)]; rewrite E; cbn [negb].
  2: { eapply does_ret; [exact M|]. apply (good_at_good A a cfg W); [by eapply good_at_any; eauto|by left]. }
  set (n2 := n1 <| n_store := st |>). set (n3 := n2 <| n_ballot := _ |> <| n_role := _ |>).
  destruct (timeout_rng n3) as (r & d & ->). set (n4 := n3 <| n_rng := r |> <| n_phase1 := _ |>).
  assert (M4 : moves n G V n4 G V).
  { eapply moves_one; [exact St|]. unfold absn, disk, promises_of. simpl.
    rewrite Es. replace (Self (n_cfg n)) with a by (rewrite (g_cfg _ _ _ _ _ _ _ Ha); symmetry; apply cfg_ok). reflexivity. }
  assert (H4 : good_at n4 G (n_nextSlot n)).
  { destruct Ha as [X1 X2 X3 X4 X5]. split; auto; intros _.
    - destruct (X4 F) as [Y1 Y2 Y3]. unfold disk in *. split; unfold disk; simpl; by rewrite Es.
    - split; try done.
      + intros _. simpl. unfold f. rewrite u64_id by (unfold in_u64; lia). lia.
      + intros _ s v Hs. apply Hu in Hs. simpl in Hs. lia.
      + exact (td_queue _ _ _ _ _ _ (X5 F)).
      + intros _. unfold IsZero. simpl. rewrite (proj2 (Z.eqb_neq _ _)) by lia. done. }
  assert (A4 : majority A < 2 -> able n4).
  { intros Ho. split; [by split|]. split; [|apply Ra; by rewrite (g_quorum _ _ _ _ _ _ _ Ha)].
    simpl. unfold f. rewrite u64_id by (unfold in_u64; lia). lia. }
  assert (E4 : is_failed n4 = false /\ n_role n4 = Candidate /\ promises (n_phase1 n4) = Some ∅) by done.
  destruct E4 as (F4 & R4 & P4). clearbody n4. set (m := Prepare _ _). set (G1 := say a m G).
  assert (H5 : good_at n4 G1 (n_nextSlot n)).
  { eapply good_at_grow; [apply say_grow| |exact H4]. intros b s v. by apply say_accept. }
  eapply does_moves; [exact M4|].
  eapply (does_moves A a W n4 G V n4 G1 V);
    [eapply moves_one; [apply (s_prepare A W a (absn n4)); [simpl; by rewrite F4|exact R4]|reflexivity]|].
  destruct (broadcast_self A a cfg cfg_ok inline n4 m (g_cfg _ _ _ _ _ _ _ H4) F4) as (l1 & l2 & Hl1 & Hl2 & Hb).
  destruct (push_fields a n4 l1 m) as (E2 & R2 & B2 & Q2 & _).
  assert (A5 : majority A < 2 -> able (push n4 l1 m)).
  { unfold NodeSteps.push. by rewrite F4. }
  assert (D : does (push n4 l1 m) G1 V goodly (inline (push n4 l1 m) m)).
  { pose proof (io_prepare _ _ _ _ _ inl (push n4 l1 m) G1 V (n_nextSlot n)) as D. rewrite B2, Q2 in D.
    apply D; [by rewrite push_failed|apply good_at_push; [done..|by right]|congruence|done|congruence|by right]. }
  destruct D as (n6 & G6 & V6 & Ei & M6 & H6).
  rewrite (Hb n6 (g_cfg _ _ _ _ _ _ _ (g_at _ _ _ _ _ _ H6)) Ei).
  eapply does_ret; [eapply moves_trans; [apply moves_push|]; eapply moves_trans; [exact M6|apply moves_push]|].
  apply good_push; [done..|]. apply (moves_grow _ _ _ _ _ _ _ _ _ M6). by right.
Qed.

(** ** Retransmission *)

Lemma lastSent_props n s p t : n_proposals n !! s = Some p ->
  props_of (n <| n_proposals := <[s := p <| lastSent := t |>]> (n_proposals n) |>) = props_of n.
Proof.
  intros Hp. rewrite absn_proposals, fmap_insert. apply insert_id. unfold props_of. by rewrite lookup_fmap, Hp.
Qed.

(** A leader that sends again what it has proposed. *)
Lemma resend n l s p G : good n G -> n_role n = Leader -> n_proposals n !! s = Some p -> a ∉ l ->
  good (push n l (Accept (n_ballot n) s (value p))) G.
Proof.
  intros H R Hp Hl. destruct (is_failed n) eqn:F.
  - unfold NodeSteps.push. by rewrite F.
  - apply good_push; [done..|]. exact (td_props _ _ _ _ _ _ (g_tidy _ _ _ _ _ _ _ (g_at _ _ _ _ _ _ H) F) R _ _ Hp).
Qed.

Lemma retransmit_spec l n G V :
  good n G -> n_role n = Leader -> (forall s, s ∈ l -> is_Some (n_proposals n !! s)) ->
  exists n', retransmit now inline l n = Some (n', true) /\ moves n G V n' G V /\ good n' G /\ n_role n' = Leader.
Proof.
  revert n. induction l as [|s l IH]; intros n H R Hl; cbn [retransmit].
  { exists n. split_and!; [done|apply moves_refl|done..]. }
  destruct (Hl s) as [p Hp]; [by left|]. rewrite Hp. cbn [mbind option_bind].
  assert (Hl' : forall t, t ∈ l -> is_Some (n_proposals n !! t)) by (intros t Ht; apply Hl; by right).
  destruct (_ <=? now); [|by apply IH].
  set (q := p <| lastSent := now |>). set (n1 := n <| n_proposals := _ |>).
  assert (M1 : moves n G V n1 G V).
  { apply moves_same. unfold absn. unfold n1 at 8. unfold q. by rewrite lastSent_props. }
  assert (H1 : good n1 G).
  { destruct H as [[X1 X2 X3 X4 X5] Xa]. split.
    2: { intros F _. destruct (Xa F R) as [Xb Xc]. split; [exact Xb|]. intros Ho. rewrite (Xc Ho) in Hp. by rewrite lookup_empty in Hp. }
    split; auto; intros F; [by destruct (X4 F)|].
    destruct (X5 F) as [Y1 Y2 Y6 Y3 Y4 Y5 Y7 Y8]. split; auto. intros _ t r Hq. unfold n1 in Hq. simpl in Hq.
    rewrite lookup_insert in Hq. case_decide; [injection Hq as <-; subst t; exact (Y5 R _ _ Hp)|by eapply Y5]. }
  assert (P1 : n_proposals n1 !! s = Some q) by apply lookup_insert_eq. assert (R1 : n_role n1 = Leader) by done.
  assert (Hl1 : forall t, t ∈ l -> is_Some (n_proposals n1 !! t)).
  { intros t Ht. unfold n1. simpl. rewrite lookup_insert. case_decide; [by eexists|by apply Hl']. }
  change (value p) with (value q). clearbody n1.
  destruct (broadcast_others A a cfg cfg_ok inline n1 (Accept (n_ballot n1) s (value q)) (g_cfg _ _ _ _ _ _ _ (g_at _ _ _ _ _ _ H1)))
    as (k & Hk & ->).
  cbn [mbind option_bind]. set (n2 := push n1 k _).
  destruct (push_fields a n1 k (Accept (n_ballot n1) s (value q))) as (_ & R2 & _ & _ & _ & _ & P2 & _). fold n2 in R2, P2.
  assert (H2 : good n2 G) by by apply resend.
  assert (M2 : moves n1 G V n2 G V) by apply moves_push. clearbody n2.
  unfold is_role. rewrite (bool_decide_eq_true_2 (n_role n2 = Leader)) by congruence. cbn [negb].
  destruct (IH n2 H2) as (n3 & E3 & M3 & H3 & R3); [congruence|by rewrite P2|].
  exists n3. split_and!; [done| |done..]. eapply moves_trans; [exact M1|]. by eapply moves_trans.
Qed.

Lemma quorumContact_total n G : good n G -> is_Some (quorumContact now n).
Proof.
  intros H. unfold quorumContact. rewrite (g_quorum _ _ _ _ _ _ _ (g_at _ _ _ _ _ _ H)). set (times := flat_map _ _).
  destruct (Z.ltb_spec (len times) (majority A)) as [|Hle]; [by eexists|].
  apply lookup_lt_is_Some. rewrite stable_sort_Permutation. unfold len in Hle. assert (1 <= majority A) by by eapply majority_one. lia.
Qed.

(** ** [tick] *)

Lemma beat_spec n c r G V :
  is_failed n = false -> good n G -> n_role n = Leader ->
  does n G V goodly (broadcast inline n (Heartbeat (n_ballot n) c r) true).
Proof.
  intros F H R. set (m := Heartbeat _ _ _). set (G1 := say a m G).
  assert (H1 : good n G1).
  { eapply good_grow; [apply say_grow| |exact H]. intros b s v. by apply say_accept. }
  destruct (broadcast_self A a cfg cfg_ok inline n m (g_cfg _ _ _ _ _ _ _ (g_at _ _ _ _ _ _ H)) F) as (l1 & l2 & Hl1 & Hl2 & Hb).
  destruct (push_fields a n l1 m) as (_ & R2 & B2 & _).
  assert (H2 : good (push n l1 m) G1) by (apply good_push; [done..|by right]).
  eapply (does_moves A a W n G V n G1 V); [eapply moves_one; [by apply s_chatter|reflexivity]|].
  assert (D : does (push n l1 m) G1 V goodly (inline (push n l1 m) m)).
  { pose proof (io_heartbeat _ _ _ _ _ inl (push n l1 m) c r G1 V (n_nextSlot (push n l1 m))) as D. rewrite B2 in D.
    apply (remains_good A a cfg W); [done|by rewrite push_failed|]. apply D; [by rewrite push_failed|apply H2|congruence]. }
  destruct D as (n3 & G3 & V3 & Ei & M3 & H3). rewrite (Hb n3 (g_cfg _ _ _ _ _ _ _ (g_at _ _ _ _ _ _ H3)) Ei).
  eapply does_ret; [eapply moves_trans; [apply moves_push|]; eapply moves_trans; [exact M3|apply moves_push]|].
  apply good_push; [done..|]. apply (moves_grow _ _ _ _ _ _ _ _ _ M3). by right.
Qed.

Lemma tick_leader n G V :
  is_failed n = false -> good n G -> n_role n = Leader -> does n G V goodly (tick now inline n).
Proof.
  intros F H R. unfold tick. rewrite R.
  eapply (does_bind A a W n G V goodly).
  { destruct (_ <=? now); [|by apply good_refl].
    set (n1 := n <| n_lastHeartbeat := now |>).
    eapply (does_moves A a W n G V n1 G V); [apply moves_same; reflexivity|].
    apply beat_spec; [done| |done]. eapply good_core; [|exact H]. by repeat split. }
  intros n1 G1 V1 _ H1. destruct (is_role_spec n1 Leader) as [R1|]; cbn [negb]; [|by apply good_refl].
  destruct (retransmit_spec (sorted_keys (n_proposals n1)) n1 G1 V1 H1 R1) as (n2 & E2 & M2 & H2 & R2).
  { intros s Hs. rewrite sorted_keys_perm in Hs. apply list_elem_of_fmap in Hs as ([s' p] & -> & Hp%elem_of_map_to_list).
    by exists p. }
  rewrite E2. cbn [mbind option_bind negb]. eapply does_moves; [exact M2|].
  destruct (quorumContact_total n2 G1 H2) as [t Et]. rewrite Et. cbn [mbind option_bind].
  destruct (_ <? _); [|by apply good_refl].
  destruct (stepDown_spec A a cfg W now 0 zero_ballot 0 n2 G1 V1 _ (g_at _ _ _ _ _ _ H2)) as (M3 & H3 & _ & R3).
  eapply does_ret; [exact M3|]. apply (good_at_good A a cfg W); [|right; congruence].
  apply (good_at_any A a cfg W _ _ (n_nextSlot n2)); [right; congruence|done].
Qed.

Lemma tick_candidate n G V :
  is_failed n = false -> good n G -> n_role n = Candidate -> does n G V goodly (tick now inline n).
Proof.
  intros F H R. unfold tick. rewrite R. destruct (_ <=? now).
  { set (n1 := n <| n_role := Follower |> <| n_phase1 := zero_phase1 |>).
    assert (C : same_core n1 (set_election_timer now n1)) by apply timer_core.
    eapply does_ret.
    - eapply (moves_trans A a W _ _ _ n1); [eapply moves_one; [by apply (s_down A W a _ (absn n1))|reflexivity]|by apply moves_core].
    - eapply good_core; [exact C|]. apply (good_at_good A a cfg W); [|by right].
      destruct H as [[X1 X2 X3 X4 X5] _]. split; auto; intros _; [by destruct (X4 F)|].
      split; try done. exact (td_queue _ _ _ _ _ _ (X5 F)). }
  destruct (_ <=? now); [|by apply good_refl].
  set (n1 := n <| n_phase1 := _ |>).
  eapply (does_moves A a W n G V n1 G V); [apply moves_same; reflexivity|].
  apply (foldM_good A a cfg W _ (fun n => is_failed n = false /\ n_role n = Candidate)); [|done|].
  { eapply good_core; [|exact H]. by repeat split. }
  intros n2 p G2 V2 H2 [F2 R2]. pose proof (g_at _ _ _ _ _ _ H2) as A2.
  destruct (Z.eqb_spec p (Self (n_cfg n2))) as [|Hp]; cbn [orb]; [eapply does_ret; [apply moves_refl|done]|].
  destruct (bool_decide _); [eapply does_ret; [apply moves_refl|done]|].
  rewrite (g_cfg _ _ _ _ _ _ _ A2), (cc_self _ _ _ cfg_ok) in Hp.
  rewrite (send_peer A a cfg cfg_ok) by (done || apply A2). set (m := Prepare _ _).
  eapply does_ret; [eapply moves_one; [apply (s_prepare A W a (absn n2)); [simpl; by rewrite F2|exact R2]|apply push_absn]|].
  destruct (push_fields a n2 [p] m) as (_ & E & _). split; [|by rewrite push_failed, E].
  apply good_push; [|by intros ?%list_elem_of_singleton|by right].
  eapply good_grow; [apply say_grow| |exact H2]. intros b' s' v'. by apply say_accept.
Qed.

Lemma tick_spec n G V :
  is_failed n = false -> good n G -> roomy n -> rounds_used n G -> does n G V goodly (tick now inline n).
Proof.
  intros F H Hr Hu. destruct (n_role n) eqn:R; [|by apply tick_candidate|by apply tick_leader].
  unfold tick. rewrite R. destruct (_ && _); [by apply startElection_spec|by apply good_refl].
Qed.
End Timers.

(** * The driving methods *)

(** What a call leaves: a node the abstract steps lead to, with nothing left to
    send, and messages the steps have said. *)
Definition drives n G V n' (out : list Envelope) : Prop :=
  exists G' V', moves n G V n' G' V' /\ good n' G' /\ n_out n' = [] /\ outs_ok a out G'.

Lemma finish_spec n G V : good n G -> drives n G V (finish n).1 (finish n).2.
Proof.
  intros H. exists G, V. unfold finish. destruct (is_failed n) eqn:F; simpl.
  - split_and!; [|apply (good_at_good A a cfg W); [|by left]|done|by intros env ?%not_elem_of_nil].
    + eapply moves_one; [apply (s_fail A W a _ (absn (n <| n_out := [] |> <| n_events := [] |>)))|reflexivity]; try done.
      change (negb (is_failed n) = false). by rewrite F.
    + destruct H as [[X1 X2 _ _ _] _]. by apply good_failed; [| | |intros env ?%not_elem_of_nil].
  - split_and!; [by apply moves_same| |done|apply H].
    destruct H as [[X1 X2 X3 X4 X5] Xa]. split; [|exact Xa]. split; auto; [by intros env ?%not_elem_of_nil|..];
      intros _; [by destruct (X4 F)|]. by destruct (X5 F).
Qed.

Lemma drives_moves n G V n1 G1 V1 n' out : moves n G V n1 G1 V1 -> drives n1 G1 V1 n' out -> drives n G V n' out.
Proof. intros M (G' & V' & M' & H). exists G', V'. split; [by eapply moves_trans|done]. Qed.

Lemma drives_finish n G V r : does n G V goodly r ->
  exists n1, r = Some n1 /\ drives n G V (finish n1).1 (finish n1).2.
Proof.
  intros (n1 & G1 & V1 & -> & M & H). exists n1. split; [done|]. eapply drives_moves; [exact M|]. by apply finish_spec.
Qed.

Lemma drives_idle n G V : good n G -> n_out n = [] -> drives n G V n [].
Proof. intros H E. exists G, V. split_and!; [apply moves_refl|done|done|by intros env ?%not_elem_of_nil]. Qed.

Lemma begin_good now n G : good n G -> good (begin now n) G.
Proof. apply good_core, begin_core. Qed.

Lemma begin_drives now n G V n' out : drives (begin now n) G V n' out -> drives n G V n' out.
Proof. apply drives_moves, moves_core, begin_core. Qed.

Lemma begin_same now n : is_failed (begin now n) = is_failed n /\ n_role (begin now n) = n_role n /\
  n_out (begin now n) = n_out n /\ n_leaderHint (begin now n) = n_leaderHint n /\
  (roomy n -> roomy (begin now n)) /\ forall G, rounds_used n G -> rounds_used (begin now n) G.
Proof.
  unfold begin. destruct (n_started n); [done|]. unfold set_election_timer, randomElectionTimeout, Int64N. simpl.
  split_and!; try done. by intros [].
Qed.

(** Slots in a message are below 2^63 too. *)
Definition small_msg (m : Message) : Prop :=
  match m with Promise p => forall pv, pv ∈ p_accepted p -> pv_slot pv < 2 ^ 63 | _ => True end.

Lemma handle_spec fuel now n from m G V :
  (3 <= fuel)%nat -> is_failed n = false -> good n G -> roomy n -> from <> a -> from ∈ A -> G from m -> small_msg m ->
  does n G V goodly (handle fuel now n from m).
Proof.
  intros Hfuel F H Hr Hne Hin HG Hm. destruct fuel as [|[|[|fuel]]]; [lia..|]. cbn [handle]. rewrite F.
  assert (I := self_accept A a cfg cfg_ok W fuel now). unfold self_handle in I.
  destruct m.
  - by apply onPrepare_spec.
  - by apply onPromise_spec.
  - by apply onAccept_spec.
  - by apply onAccepted_spec.
  - apply (remains_good A a cfg W); [done..|]. apply onNack_spec; [done|apply H].
  - by apply onLearn_spec.
  - by apply onLearnRequest_spec.
  - by apply onHeartbeat_spec.
  - apply (remains_good A a cfg W); [done..|]. apply onHeartbeatAck_spec; [done|apply H].
Qed.

Lemma inline_of_ok now n : inline_ok A a cfg W (inline_of now n).
Proof.
  unfold inline_of. replace (handle_fuel n) with (S (S (S (S (2 * length (n_queue n)))))) by (unfold handle_fuel; lia).
  by apply self_handle_ok.
Qed.

Lemma Step_drives now env n G V :
  good n G -> n_out n = [] -> roomy n ->
  (env_to env = a -> env_from env <> a /\ G (env_from env) (env_msg env) /\ small_msg (env_msg env)) ->
  exists n' out, Step now env n = Some (n', out) /\ drives n G V n' out.
Proof.
  intros H Ho Hr He. unfold Step. destruct (is_failed n) eqn:F; [exists n, []; split; [done|by apply drives_idle]|].
  destruct (begin_same now n) as (F1 & _ & _ & _ & R1 & _). set (n1 := begin now n) in *.
  assert (H1 : good n1 G) by by apply begin_good.
  assert (D : does n1 G V goodly (if (env_to env =? Self (n_cfg n1)) && isPeer n1 (env_from env)
    then handle (handle_fuel n1) now n1 (env_from env) (env_msg env) else Some n1)).
  { destruct (_ && _) eqn:E; [|by apply good_refl]. apply andb_true_iff in E as [Et%Z.eqb_eq Ep].
    rewrite (g_cfg _ _ _ _ _ _ _ (g_at _ _ _ _ _ _ H1)), (cc_self _ _ _ cfg_ok) in Et.
    unfold isPeer in Ep. rewrite (g_cfg _ _ _ _ _ _ _ (g_at _ _ _ _ _ _ H1)), bool_decide_eq_true in Ep.
    destruct (He Et) as (? & ? & ?). apply handle_spec; [unfold handle_fuel; lia|congruence|done|by apply R1|done| |done|done].
    by apply (peers_in A a cfg cfg_ok). }
  destruct (drives_finish n1 G V _ D) as (n2 & E2 & D2). rewrite E2. cbn [mbind option_bind].
  exists (finish n2).1, (finish n2).2. split; [by rewrite <- surjective_pairing|]. by eapply begin_drives.
Qed.

Lemma Tick_drives now n G V :
  good n G -> n_out n = [] -> roomy n -> (is_failed n = false -> rounds_used n G) ->
  exists n' out, Tick now n = Some (n', out) /\ drives n G V n' out.
Proof.
  intros H Ho Hr Hu. unfold Tick. destruct (is_failed n) eqn:F; [exists n, []; split; [done|by apply drives_idle]|].
  destruct (begin_same now n) as (F1 & _ & _ & _ & R1 & U1). set (n1 := begin now n) in *.
  assert (D : does n1 G V goodly (tick now (inline_of now n1) n1)).
  { apply tick_spec; [apply inline_of_ok|congruence|by apply begin_good|by apply R1|by apply U1, Hu]. }
  destruct (drives_finish n1 G V _ D) as (n2 & E2 & D2). rewrite E2. cbn [mbind option_bind].
  exists (finish n2).1, (finish n2).2. split; [by rewrite <- surjective_pairing|]. by eapply begin_drives.
Qed.

Lemma Propose_drives now v n G V :
  good n G -> n_out n = [] -> roomy n -> W v -> 1 <= Window cfg ->
  exists n' out err, Propose now v n = Some (n', out, err) /\ drives n G V n' out.
Proof.
  intros H Ho Hr Hv Hwin. unfold Propose. destruct (n_failed n) as [e|] eqn:F'.
  { exists n, [], (Some (EFailed e)). split; [done|by apply drives_idle]. }
  assert (F : is_failed n = false) by (unfold is_failed; by rewrite F').
  destruct (begin_same now n) as (F1 & _ & O1 & _ & R1 & _). set (n1 := begin now n) in *.
  assert (H1 : good n1 G) by by apply begin_good. specialize (R1 Hr).
  assert (Hidle : drives n G V n1 []) by (eapply begin_drives, drives_idle; [done|congruence]).
  destruct (_ <? slen v); [by exists n1, [], (Some (EValueTooLarge (slen v)))|].
  destruct (is_role_spec n1 Leader) as [L1|]; cbn [negb]; [|by eexists n1, [], _].
  rewrite F in F1. destruct (g_office _ _ _ _ _ _ H1 F1 L1) as [Ha Hopen].
  destruct (Z.leb_spec (Window (n_cfg n1)) (Z.of_nat (size (n_proposals n1)))) as [Hfull|_].
  - destruct (QueueLimit (n_cfg n1) <=? _).
    + exists (finish n1).1, (finish n1).2, (Some EBusy). split; [by rewrite <- surjective_pairing|].
      by eapply begin_drives, finish_spec.
    + set (n2 := n1 <| n_queue := _ |>). assert (M2 : moves n1 G V n2 G V) by (apply moves_same; reflexivity).
      assert (Htwo : 2 <= majority A).
      { destruct (decide (2 <= majority A)) as [|Hone]; [done|exfalso].
        rewrite (g_cfg _ _ _ _ _ _ _ (g_at _ _ _ _ _ _ H1)), (Hopen ltac:(lia)), map_size_empty in Hfull. lia. }
      assert (H2 : good n2 G).
      { destruct H1 as [[X1 X2 X3 X4 X5] Xa]. split; [|exact Xa]. split; auto; intros F2; [by destruct (X4 F2)|].
        destruct (X5 F2) as [Y1 Y2 Y6 Y3 Y4 Y5 Y7 Y8]. split; auto.
        intros u [Hu| ->%list_elem_of_singleton]%elem_of_app; [by apply Y7|done]. }
      exists (finish n2).1, (finish n2).2, None. split; [by rewrite <- surjective_pairing|].
      eapply begin_drives, drives_moves; [exact M2|by apply finish_spec].
  - assert (Hfree : free A n1) by (intros Hone; split; [by apply Hopen|by apply roomy_counted]).
    destruct (propose_spec A a cfg cfg_ok W now _ (io_accept _ _ _ _ _ (inline_of_ok now n1)) n1 (n_nextSlot n1) v G V _ F1 (g_at _ _ _ _ _ _ H1) L1
      (Z.le_refl _) (proj1 Ha) (picked_above W n1 _ v Ha Hv) Hfree) as (n2 & G2 & V2 & E2 & M2 & [H2 C2] & S2).
    rewrite E2. cbn [mbind option_bind]. destruct R1 as [_ Rn _ _ _ _ _].
    destruct (next_good A a cfg W n1 n2 G2 F1 L1 Ha ltac:(lia) ltac:(lia) H2 C2 S2) as [H3 _]. set (n3 := n2 <| n_nextSlot := _ |>) in *.
    exists (finish n3).1, (finish n3).2, None. split; [by rewrite <- surjective_pairing|].
    eapply begin_drives, drives_moves; [exact M2|]. eapply (drives_moves n2 G2 V2 n3 G2 V2); [apply moves_same; reflexivity|].
    by apply finish_spec.
Qed.

Lemma ReadIndex_drives now n G V :
  good n G -> n_out n = [] ->
  exists n' seq out err, ReadIndex now n = Some (n', seq, out, err) /\ drives n G V n' out.
Proof.
  intros H Ho. unfold ReadIndex. destruct (n_failed n) as [e|] eqn:F'.
  { exists n, 0, [], (Some (EFailed e)). split; [done|by apply drives_idle]. }
  assert (F : is_failed n = false) by (unfold is_failed; by rewrite F').
  destruct (begin_same now n) as (F1 & _ & O1 & _). set (n1 := begin now n) in *.
  assert (H1 : good n1 G) by by apply begin_good.
  assert (Hidle : drives n G V n1 []) by (eapply begin_drives, drives_idle; [done|congruence]).
  destruct (is_role_spec n1 Leader) as [L1|]; cbn [negb]; [|by eexists n1, 0, [], _].
  destruct (negb (Ready n1)); [by eexists n1, 0, [], _|].
  set (n2 := n1 <| n_readSeq := _ |>). set (n3 := n2 <| n_reads := _ |> <| n_lastHeartbeat := now |>).
  assert (C3 : same_core n1 n3) by by repeat split.
  assert (H3 : good n3 G) by by eapply good_core. assert (F3 : is_failed n3 = false) by (change (is_failed n1 = false); congruence).
  assert (R3 : n_role n3 = Leader) by done.
  destruct (drives_finish n3 G V _ (beat_spec _ (inline_of_ok now n3) n3 (n_commitIndex n3) (n_readSeq n2) G V F3 H3 R3)) as (n4 & E4 & D4).
  rewrite E4. cbn [mbind option_bind].
  rewrite (surjective_pairing (finish n4)). exists (finish n4).1, (n_readSeq n2), (finish n4).2, None. split; [done|].
  eapply begin_drives, drives_moves; [by apply (moves_core A a W _ n3)|done].
Qed.
End Drive.
