(* ===== verification/Cluster.v ===== *)
(** A cluster of log nodes: hosts that run the node of Replog.v on a store,
    crash, lose their memory and restart from the store, and a network that
    loses, delays, duplicates and reorders messages.  The cluster refines the
    abstract protocol of LogSpec.v, so the invariant of LogInv.v holds of it. *)

From stdpp Require Import functions.
From S2P Require Import Prelude GoStd Paxos Voting Store Replog LogSpec LogInv NodeSteps Handlers Drive.

(** A host runs a node, or is down and has only its store. *)
Inductive Host (T : Type) := Up (n : Node T) | Down (st : T).
Arguments Up {T} n.
Arguments Down {T} st.

Record Cluster (T : Type) := mkCluster { hosts : NodeID -> Host T; net : list Envelope }.
Arguments mkCluster {T} hosts net.
Arguments hosts {T} c.
Arguments net {T} c.

Section Cluster.
Context {T : Type} `{ST : Store T} (A : gset NodeID) (cfgs : NodeID -> Config) (W : Value -> Prop).
Implicit Types (s : Cluster T) (n : Node T).

(** The configurations belong to one cluster, of one node or more. *)
Record group_config : Prop := {
  gc_ids : forall a, a ∈ A -> 0 <= a;
  gc_cfg : forall a, a ∈ A -> cluster_config A a (cfgs a);
}.

Definition put s (a : NodeID) (h : Host T) (out : list Envelope) : Cluster T :=
  mkCluster (<[a := h]> (hosts s)) (net s ++ out).

(** The network is every message ever sent: one may be delivered never, once or
    often, in any order, at any time; [now] is arbitrary.  [c_idle] is a
    call that leaves the node alone.  A crash at any
    moment of a call is a store that fails from then on, followed by
    [c_crash].  A node acts while its counters are below 2^63 ([roomy]). *)
Inductive cstep s : Cluster T -> Prop :=
| c_deliver a now env n n' out : a ∈ A -> hosts s a = Up n -> env ∈ net s -> roomy n -> small_msg (env_msg env) ->
    Step now env n = Some (n', out) -> cstep s (put s a (Up n') out)
| c_tick a now n n' out : a ∈ A -> hosts s a = Up n -> roomy n ->
    Tick now n = Some (n', out) -> cstep s (put s a (Up n') out)
| c_propose a now v n n' out err : a ∈ A -> hosts s a = Up n -> roomy n -> W v ->
    Propose now v n = Some (n', out, err) -> cstep s (put s a (Up n') out)
| c_read a now n n' seq out err : a ∈ A -> hosts s a = Up n -> roomy n ->
    ReadIndex now n = Some (n', seq, out, err) -> cstep s (put s a (Up n') out)
| c_events a n : a ∈ A -> hosts s a = Up n -> cstep s (put s a (Up (Events n).1) [])
| c_idle a n : a ∈ A -> hosts s a = Up n -> cstep s (put s a (Up n) [])
| c_crash a n : a ∈ A -> hosts s a = Up n -> cstep s (put s a (Down (n_store n)) [])
| c_reopen a st st' : a ∈ A -> hosts s a = Down st -> contents st' = contents st -> cstep s (put s a (Down st') [])
| c_restart a st rng n : a ∈ A -> hosts s a = Down st -> New (cfgs a) st rng = inl n -> roomy n ->
    cstep s (put s a (Up n) []).

Definition cluster_start s : Prop :=
  net s = [] /\ forall a, a ∈ A -> exists st, hosts s a = Down st /\ contents st = NewMemStore.

Definition reached s : Prop := exists s0, cluster_start s0 /\ rtc cstep s0 s.

(** What a host has on disk. *)
Definition host_disk (h : Host T) : MemStore := contents (match h with Up n => n_store n | Down st => st end).

(** * Refinement *)

Record refines s (w : World) : Prop := {
  rf_up : forall a n, a ∈ A -> hosts s a = Up n ->
    nodes w a = absn n /\ good A a (withDefaults (cfgs a)) W n (sent w) /\ n_out n = [];
  rf_down : forall a st, a ∈ A -> hosts s a = Down st ->
    a_disk (nodes w a) = contents st /\ a_live (nodes w a) = false;
  rf_net : forall env, env ∈ net s ->
    env_from env ∈ A /\ env_from env <> env_to env /\ sent w (env_from env) (env_msg env);
  rf_window : forall a n, a ∈ A -> hosts s a = Up n -> 1 <= Window (withDefaults (cfgs a));
}.

Context (gc : group_config) (W_noop : W "").

Lemma config_defaults a : a ∈ A -> cluster_config A a (withDefaults (cfgs a)).
Proof. intros Ha. destruct (gc_cfg gc a Ha). by split. Qed.

(** ** Steps of one node *)

Lemma nsteps_own a l l' : rtc (nstep A W a) l l' -> forall c m, c <> a -> l_sent l' c m -> l_sent l c m.
Proof.
  intros Hr. induction Hr as [|l1 l2 l3 St _ IH]; [done|]. intros c m Hc Hm. specialize (IH c m Hc Hm).
  clear Hm. destruct St; simpl in *; try done; destruct IH as [?|[-> _]]; done.
Qed.

Lemma lift a l l' : a ∈ A -> rtc (nstep A W a) l l' -> forall w, local_of w a = l ->
  exists w', rtc (wstep A W) w w' /\ nodes w' a = l_node l' /\ (forall c, c <> a -> nodes w' c = nodes w c) /\
    sent w' = l_sent l' /\ votes w' = l_votes l'.
Proof.
  intros Ha Hr. induction Hr as [l|l1 l2 l3 St _ IH]; intros w <-.
  { exists w. split_and!; [apply rtc_refl|done..]. }
  set (w1 := set_local w a l2). assert (E : local_of w1 a = l2).
  { unfold local_of, w1. simpl. rewrite fn_lookup_insert. by destruct l2. }
  destruct (IH w1 E) as (w' & Hw & H1 & H2 & H3 & H4). exists w'. split_and!; try done.
  - eapply rtc_l; [|exact Hw]. by apply w_local.
  - intros c Hc. rewrite H2 by done. unfold w1. simpl. by rewrite fn_lookup_insert_ne.
Qed.

(** A node the others' messages grow around. *)
Lemma good_others a n w (G' : NodeID -> Message -> Prop) :
  good A a (withDefaults (cfgs a)) W n (sent w) ->
  (forall c m, sent w c m -> G' c m) -> (forall m, G' a m -> sent w a m) ->
  good A a (withDefaults (cfgs a)) W n G'.
Proof. intros H H1 H2. eapply good_grow; eauto. Qed.

Lemma hosts_put s a h out c : hosts (put s a h out) c = if decide (a = c) then h else hosts s c.
Proof. simpl. case_decide as E; [subst|]; by rewrite ?fn_lookup_insert, ?fn_lookup_insert_ne. Qed.

(** The world after node [a] has moved. *)
Lemma refines_moved s w a h out l' :
  a ∈ A -> refines s w -> rtc (nstep A W a) (local_of w a) l' ->
  (forall n, h = Up n -> l_node l' = absn n /\ good A a (withDefaults (cfgs a)) W n (l_sent l') /\ n_out n = [] /\
    exists n0, hosts s a = Up n0) ->
  (forall st, h = Down st -> a_disk (l_node l') = contents st /\ a_live (l_node l') = false) ->
  outs_ok a out (l_sent l') ->
  exists w', rtc (wstep A W) w w' /\ refines (put s a h out) w'.
Proof.
  intros Ha [R1 R2 R3 R4] Hr Hup Hdown Hout. destruct (lift a _ _ Ha Hr w eq_refl) as (w' & Hw & N1 & N2 & E1 & _).
  assert (Hgrow : forall c m, sent w c m -> sent w' c m).
  { rewrite E1. exact (nsteps_grow A a W _ _ Hr). }
  assert (Hown : forall c m, c <> a -> sent w' c m -> sent w c m).
  { rewrite E1. intros c m Hc. by apply (nsteps_own a _ _ Hr). }
  exists w'. split; [done|]. split.
  - intros c n Hc. rewrite hosts_put. case_decide as D; [subst c; rewrite N1, E1; intros Hn; by destruct (Hup n Hn) as (? & ? & ? & _)|].
    intros Hn. rewrite N2 by done. destruct (R1 c n Hc Hn) as (? & ? & ?). split_and!; [done| |done].
    eapply good_others; eauto.
  - intros c st Hc. rewrite hosts_put. case_decide as D; [subst c; rewrite N1; apply Hdown|].
    intros Hn. rewrite N2 by done. by apply R2.
  - simpl. intros env [He|He]%elem_of_app.
    + destruct (R3 env He) as (? & ? & ?). auto.
    + destruct (Hout env He) as (-> & ? & ?). rewrite E1. auto.
  - intros c n Hc. rewrite hosts_put. case_decide as D; [subst c; intros Hn|by apply R4].
    destruct (Hup n Hn) as (_ & _ & _ & n0 & H0). by apply (R4 a n0).
Qed.

Lemma refines_drives s w a n n' out :
  a ∈ A -> refines s w -> hosts s a = Up n ->
  drives A a (withDefaults (cfgs a)) W n (sent w) (votes w) n' out ->
  exists w', rtc (wstep A W) w w' /\ refines (put s a (Up n') out) w'.
Proof.
  intros Ha R Hn (G' & V' & M & H & Ho & Hout). destruct (rf_up _ _ R a n Ha Hn) as (E & _ & _).
  apply (refines_moved s w a _ _ (mkLocal (absn n') G' V')); try done.
  - unfold local_of. by rewrite E.
  - intros m [= <-]. split_and!; try done. by exists n.
Qed.

(** ** Starting from disk *)

Lemma New_spec a st rng n :
  a ∈ A -> contents_ok (contents st) -> New (cfgs a) st rng = inl n ->
  disk n = contents st /\ n_cfg n = withDefaults (cfgs a) /\ n_quorum n = majority A /\ n_out n = [] /\
  is_failed n = false /\ n_role n = Follower /\ mem_ok n /\ n_events n = [] /\ n_queue n = [] /\
  n_maxRound n = Z.max (ms_max_round (contents st)) (bal_round (ms_promised (contents st))) /\
  n_chosen n = ms_chosen (contents st) /\ n_commitIndex n = advance (S (size (n_chosen n))) (n_chosen n) 0 /\
  1 <= Window (withDefaults (cfgs a)).
Proof.
  intros Ha Hok. unfold New. destruct (Validate (withDefaults (cfgs a))) eqn:Ev; [done|]. destruct (store_load st) as [d|] eqn:Ed; [|done].
  assert (Hwin : 1 <= Window (withDefaults (cfgs a))).
  { apply Validate_window in Ev. by rewrite withDefaults_idem in Ev. }
  apply store_load_ok in Ed. subst d. pose proof (config_defaults a Ha) as C.
  rewrite (cc_safe _ _ _ C), (Load_accepted _ Hok), (Load_chosen _ Hok). intros [= <-].
  rewrite (majority_peers A a _ C). unfold advanceCommit. simpl.
  destruct (Z.ltb_spec (ms_max_round (contents st)) (bal_round (ms_promised (contents st))));
    split_and!; try done; simpl; lia.
Qed.

Lemma refines_restart s w a st rng n :
  a ∈ A -> WInv A W w -> refines s w -> hosts s a = Down st -> New (cfgs a) st rng = inl n -> roomy n ->
  exists w', rtc (wstep A W) w w' /\ refines (put s a (Up n) []) w'.
Proof.
  intros Ha I R Hst Hn Hr. destruct (rf_down _ _ R a st Ha Hst) as [Ed El].
  assert (Hok : contents_ok (contents st)) by (rewrite <- Ed; apply (wi_nodes _ _ _ I a)).
  destruct (New_spec a st rng n Ha Hok Hn) as (N1 & N2 & N3 & N4 & N5 & N6 & N7 & N8 & N9 & N10 & N11 & N12 & N13).
  set (w' := set_local w a (mkLocal (absn n) (sent w) (votes w))). exists w'. split.
  { apply rtc_once. apply w_restart; [done|done|]. split_and!; simpl; rewrite ?Ed, ?N5, ?N8; try done.
    rewrite N12. apply (advance_range (n_chosen n) 0); [lia|lia| |intros; lia].
    intros k e Hk. left. by apply (ro_chosen _ Hr k e). }
  destruct R as [R1 R2 R3 R4]. split.
  - intros c m Hc. rewrite hosts_put. unfold w'. simpl. case_decide as D.
    + subst c. intros [= <-]. rewrite fn_lookup_insert. split_and!; [done| |done].
      split; [|by rewrite N6]. split; [done|done|by rewrite N4; intros env ?%not_elem_of_nil|done|].
      intros _. split; try (by rewrite N6). rewrite N9. by intros v ?%not_elem_of_nil.
    + rewrite fn_lookup_insert_ne by done. by apply R1.
  - intros c st' Hc. rewrite hosts_put. unfold w'. simpl. case_decide as D; [by subst c|].
    rewrite fn_lookup_insert_ne by done. by apply R2.
  - simpl. rewrite app_nil_r. exact R3.
  - intros c m Hc. rewrite hosts_put. case_decide as D; [by subst c|by apply R4].
Qed.

Lemma down_moves x y G V a : a_disk y = a_disk x -> a_live y = false -> a_conflict y = false ->
  a_known y = a_known x -> a_commit y = a_commit x ->
  rtc (nstep A W a) (mkLocal x G V) (mkLocal y G V).
Proof. intros. apply rtc_once. apply s_fail; [done|done|congruence|done|done]. Qed.

(** A node has noted the rounds of the ballots it proposed at. *)
Lemma node_rounds a n G V P : node_ok A P G V a (absn n) -> is_failed n = false -> rounds_used a n G.
Proof.
  intros N F b t v Hb. destruct (no_accept _ _ _ _ _ _ N b t v Hb) as [_ [_ Hle]].
  destruct (no_max _ _ _ _ _ _ N) as [_ Hmax]. simpl in Hmax. rewrite F in Hmax. specialize (Hmax eq_refl).
  simpl in Hle. lia.
Qed.

Lemma cstep_refines s s' w : WInv A W w -> refines s w -> cstep s s' ->
  exists w', rtc (wstep A W) w w' /\ refines s' w'.
Proof.
  intros I R [a now env n n' out Ha Hn He Hr Hm E|a now n n' out Ha Hn Hr E|a now v n n' out err Ha Hn Hr Hv E
             |a now n n' seq out err Ha Hn Hr E|a n Ha Hn|a n Ha Hn|a n Ha Hn|a st st' Ha Hst Ec|a st rng n Ha Hst E Hr];
    try (destruct (rf_up _ _ R a n Ha Hn) as (Ea & Hg & Ho); pose proof (config_defaults a Ha) as C).
  - destruct (Step_drives A a _ C W W_noop now env n (sent w) (votes w) Hg Ho Hr) as (m & o & E' & D).
    { intros Et. destruct (rf_net _ _ R env He) as (? & Hne & ?). split_and!; [congruence|done..]. }
    rewrite E in E'. injection E' as -> ->. by eapply refines_drives.
  - destruct (Tick_drives A a _ C W W_noop now n (sent w) (votes w) Hg Ho Hr) as (m & o & E' & D).
    { pose proof (wi_nodes _ _ _ I a) as N. rewrite Ea in N. by eapply node_rounds. }
    rewrite E in E'. injection E' as -> ->. by eapply refines_drives.
  - destruct (Propose_drives A a _ C W W_noop now v n (sent w) (votes w) Hg Ho Hr Hv (rf_window _ _ R a n Ha Hn)) as (m & o & e & E' & D).
    rewrite E in E'. injection E' as -> -> ->. by eapply refines_drives.
  - destruct (ReadIndex_drives A a _ C W W_noop now n (sent w) (votes w) Hg Ho) as (m & sq & o & e & E' & D).
    rewrite E in E'. injection E' as -> -> -> ->. by eapply refines_drives.
  - apply (refines_moved s w a _ _ (mkLocal (absn (Events n).1) (sent w) (votes w))); try done.
    + unfold local_of. rewrite Ea. apply rtc_once. apply (s_drain A W a (absn n)).
    + intros m [= <-]. split; [done|]. split; [|by split; [|exists n]]. destruct Hg as [[X1 X2 X3 X4 X5] Xa]. split; [|exact Xa].
      split; auto; intros F; [by destruct (X4 F)|]. by destruct (X5 F).
    + by intros env ?%not_elem_of_nil.
  - apply (refines_moved s w a _ _ (local_of w a)); try done.
    + intros m [= <-]. rewrite <- Ea. split_and!; try done. by exists n.
    + by intros env ?%not_elem_of_nil.
  - apply (refines_moved s w a _ _ (mkLocal (absn n <| a_live := false |> <| a_conflict := false |>) (sent w) (votes w))); try done.
    + unfold local_of. rewrite Ea. by apply down_moves.
    + by intros st [= <-].
    + by intros env ?%not_elem_of_nil.
  - destruct (rf_down _ _ R a st Ha Hst) as [Ed El].
    apply (refines_moved s w a _ _ (local_of w a)); try done.
    + intros st2 [= <-]. simpl. by rewrite Ec.
    + by intros env ?%not_elem_of_nil.
  - by eapply refines_restart.
Qed.

Lemma start_refines s : cluster_start s -> refines s w_init.
Proof.
  intros [Hn Hd]. split.
  - intros a n Ha E. destruct (Hd a Ha) as (st & E' & _). congruence.
  - intros a st Ha E. destruct (Hd a Ha) as (st' & E' & Ec). rewrite E in E'. injection E' as ->. by rewrite Ec.
  - rewrite Hn. by intros env ?%not_elem_of_nil.
  - intros a n Ha E. destruct (Hd a Ha) as (st & E' & _). congruence.
Qed.

Lemma csteps_refines s s' w : rtc cstep s s' -> WInv A W w -> refines s w ->
  exists w', rtc (wstep A W) w w' /\ refines s' w'.
Proof.
  intros Hr. revert w. induction Hr as [s|s1 s2 s3 St _ IH]; intros w I R; [exists w; split; [apply rtc_refl|done]|].
  destruct (cstep_refines s1 s2 w I R St) as (w1 & Hw1 & R1).
  destruct (IH w1 (wsteps_inv A (gc_ids gc) W _ _ Hw1 I) R1) as (w2 & Hw2 & R2).
  exists w2. split; [by etrans|done].
Qed.

Lemma reached_refines s : reached s -> exists w, rtc (wstep A W) w_init w /\ refines s w /\ WInv A W w.
Proof.
  intros (s0 & H0 & Hr). destruct (csteps_refines s0 s w_init Hr (WInv_init A W) (start_refines s0 H0)) as (w & Hw & R).
  exists w. split_and!; [done..|]. eapply wsteps_inv; [apply gc|exact Hw|]. apply WInv_init.
Qed.
End Cluster.
