(* ===== verification/Runs.v ===== *)
(** Executable schedules of the cluster of Cluster.v: a list of actions is run
    by evaluation, and what it reaches is reachable.  The sample run at the end
    elects a leader of three nodes, has a client's value chosen everywhere and
    restarts a node from its disk; it is the concrete input at which the
    theorems of LogSafety.v and ReplicaSafety.v are instantiated.  A second one
    is that of a node alone in its cluster. *)

From S2P Require Import Prelude GoStd Paxos Voting Store Replog LogSpec LogInv NodeSteps Handlers Drive Cluster.

(** * Deciding the guards of a step *)

Section Decide.
Context {T : Type}.
Implicit Types n : Node T.

#[export] Instance roomy_dec n : Decision (roomy n).
Proof.
  refine (cast_if (decide ((0 <= n_maxRound n < 2 ^ 63) /\ (0 <= n_nextSlot n < 2 ^ 63) /\
    (0 <= n_commitIndex n < 2 ^ 63) /\ len (n_queue n) < 2 ^ 62 /\ fromSlot (n_phase1 n) <= 2 ^ 63 /\
    map_Forall (fun s _ => s < 2 ^ 63) (n_chosen n) /\
    map_Forall (fun _ m => Forall (fun pv => pv_slot pv < 2 ^ 63) (p_accepted m)) (promises_of n) /\
    (0 <= n_readSeq n < 2 ^ 63) /\ (n_quorum n < 2 -> map_Forall (fun _ pv => pv_slot pv < 2 ^ 63) (n_accepted n))))).
  - abstract (destruct a as (? & ? & ? & ? & ? & Hc & Hp & ? & ?); split; try done;
      intros c m pv Hm Hpv; specialize (Hp c m Hm); rewrite Forall_forall in Hp; by apply Hp).
  - abstract (intros [? ? ? ? ? Hc Hp ? ?]; match goal with H : ~ _ |- _ => apply H end; split_and!; try lia; try done;
      intros c m Hm; apply Forall_forall; intros pv; by apply (Hp c m pv)).
Defined.
End Decide.

(** * Schedules *)

(** What may happen next; a delivery names the message by its position among
    all ever sent. *)
Inductive Action :=
| Deliver (i : nat) (now : Z)
| Ticks (a : NodeID) (now : Z)
| Proposes (a : NodeID) (now : Z) (v : Value)
| Reads (a : NodeID) (now : Z)
| Drains (a : NodeID)
| Crash (a : NodeID)
| Restart (a : NodeID) (rng : Rng).

Section Runs.
Context {T : Type} `{ST : Store T} (A : gset NodeID) (cfgs : NodeID -> Config) (W : Value -> Prop)
  (W_dec : forall v, Decision (W v)).
Implicit Types (s : Cluster T) (n : Node T) (l : list Action).

Definition up s (a : NodeID) : option (Node T) :=
  if bool_decide (a ∈ A) then match hosts s a with Up n => Some n | Down _ => None end else None.
Definition down s (a : NodeID) : option T :=
  if bool_decide (a ∈ A) then match hosts s a with Down st => Some st | Up _ => None end else None.
Definition having (P : Prop) `{Decision P} : option () := if decide P then Some () else None.

#[export] Instance small_msg_dec m : Decision (small_msg m).
Proof.
  destruct m as [|p| | | | | | |]; try (left; exact I).
  refine (cast_if (decide (Forall (fun pv => pv_slot pv < 2 ^ 63) (p_accepted p)))); by rewrite Forall_forall in *.
Defined.

Definition act (x : Action) s : option (Cluster T) :=
  match x with
  | Deliver i now =>
      env ← net s !! i; n ← up s (env_to env);
      _ ← having (roomy n); _ ← having (small_msg (env_msg env));
      '(n', out) ← Step now env n; Some (put s (env_to env) (Up n') out)
  | Ticks a now =>
      n ← up s a; _ ← having (roomy n); '(n', out) ← Tick now n; Some (put s a (Up n') out)
  | Proposes a now v =>
      n ← up s a; _ ← having (roomy n); _ ← having (W v);
      '(n', out, _) ← Propose now v n; Some (put s a (Up n') out)
  | Reads a now => n ← up s a; _ ← having (roomy n); '(n', _, out, _) ← ReadIndex now n; Some (put s a (Up n') out)
  | Drains a => n ← up s a; Some (put s a (Up (Events n).1) [])
  | Crash a => n ← up s a; Some (put s a (Down (n_store n)) [])
  | Restart a rng =>
      st ← down s a; match New (cfgs a) st rng with inl n => _ ← having (roomy n); Some (put s a (Up n) []) | inr _ => None end
  end.

Fixpoint run l s : option (Cluster T) :=
  match l with [] => Some s | x :: r => s' ← act x s; run r s' end.

(** Deliver the messages from position [i] on, those sent meanwhile too. *)
Fixpoint deliver_all (fuel : nat) (i : nat) (now : Z) s : option (Cluster T) :=
  match fuel with
  | O => Some s
  | S f => if Nat.ltb i (length (net s)) then s' ← act (Deliver i now) s; deliver_all f (S i) now s' else Some s
  end.

Lemma up_host s a n : up s a = Some n -> a ∈ A /\ hosts s a = Up n.
Proof. unfold up. case_bool_decide; [|done]. destruct (hosts s a); [|done]. by intros [= ->]. Qed.

Lemma down_host s a st : down s a = Some st -> a ∈ A /\ hosts s a = Down st.
Proof. unfold down. case_bool_decide; [|done]. destruct (hosts s a); [done|]. by intros [= ->]. Qed.

Lemma having_true (P : Prop) `{Decision P} u : having P = Some u -> P.
Proof. unfold having. by case_decide. Qed.

Lemma act_step x s s' : act x s = Some s' -> cstep A cfgs W s s'.
Proof.
  destruct x as [i now|a now|a now v|a now|a|a|a rng]; cbn [act]; intros Hs;
    repeat match goal with
    | H : _ ≫= _ = Some _ |- _ => apply bind_Some in H; destruct H as (? & ? & H)
    | H : having _ = Some _ |- _ => apply having_true in H
    | H : up _ _ = Some _ |- _ => apply up_host in H as [? ?]
    | H : down _ _ = Some _ |- _ => apply down_host in H as [? ?]
    | p : _ * _ |- _ => destruct p
    end; simplify_eq.
  - eapply c_deliver; eauto. by eapply list_elem_of_lookup_2.
  - by eapply c_tick.
  - by eapply c_propose.
  - by eapply c_read.
  - by apply c_events.
  - by apply c_crash.
  - destruct (New _ _ _) eqn:E; [|done]. apply bind_Some in Hs as (? & Hr%having_true & [= <-]).
    by eapply c_restart.
Qed.

Lemma run_steps l s s' : run l s = Some s' -> rtc (cstep A cfgs W) s s'.
Proof.
  revert s. induction l as [|x l IH]; intros s; cbn [run]; [intros [= ->]; apply rtc_refl|].
  intros (s1 & H1 & H2)%bind_Some. eapply rtc_l; [by eapply act_step|by apply IH].
Qed.

Lemma deliver_steps f i now s s' : deliver_all f i now s = Some s' -> rtc (cstep A cfgs W) s s'.
Proof.
  revert i s. induction f as [|f IH]; intros i s; cbn [deliver_all]; [intros [= ->]; apply rtc_refl|].
  case_match; [|intros [= ->]; apply rtc_refl].
  intros (s1 & H1 & H2)%bind_Some. eapply rtc_l; [by eapply act_step|by eapply IH].
Qed.
End Runs.

(** * A sample run *)

Definition trio : gset NodeID := list_to_set [1; 2; 3].
Definition trio_cfg (a : NodeID) : Config := DefaultConfig a [1; 2; 3].

(** A random source that always gives the shortest election timeout. *)
Definition calm_rng : Rng := mkRng (fun _ => 0) 0.

Definition all_down : Cluster MemStore := mkCluster (fun _ => Down NewMemStore) [].

Definition noop_or (v w : Value) : Prop := w = "" \/ w = v.

#[export] Instance noop_or_dec v w : Decision (noop_or v w).
Proof. unfold noop_or. apply _. Defined.

Section Sample.
Context (W : Value -> Prop) (W_dec : forall v, Decision (W v)) (v : Value).

Definition sample_run (l : list Action) := run trio trio_cfg W W_dec l.
Definition sample_deliver (i : nat) (now : Z) := deliver_all trio trio_cfg W W_dec 100 i now.

(** Node 1 stands for election, wins, and proposes [v]; its next heartbeat
    tells the others; then node 2 crashes and restarts. *)
Definition sample : option (Cluster MemStore) :=
  s1 ← sample_run [Restart 1 calm_rng; Restart 2 calm_rng; Restart 3 calm_rng; Ticks 1 0; Ticks 2 0; Ticks 3 0;
                   Ticks 1 (200 * Millisecond)] all_down;
  s2 ← sample_deliver 0 (201 * Millisecond) s1;
  s3 ← sample_run [Proposes 1 (210 * Millisecond) v] s2;
  s4 ← sample_deliver (length (net s2)) (211 * Millisecond) s3;
  s5 ← sample_run [Ticks 1 (270 * Millisecond)] s4;
  s6 ← sample_deliver (length (net s4)) (271 * Millisecond) s5;
  sample_run [Drains 1; Crash 2; Restart 2 calm_rng] s6.

Lemma sample_steps s : sample = Some s -> rtc (cstep trio trio_cfg W) all_down s.
Proof.
  intros H. repeat (apply bind_Some in H as (? & ?%(run_steps _ _ _ _) & H) ||
    apply bind_Some in H as (? & ?%(deliver_steps _ _ _ _) & H)).
  apply run_steps in H. repeat (etrans; [eassumption|]). apply rtc_refl.
Qed.

Lemma all_down_start : cluster_start trio all_down.
Proof. split; [done|]. intros a _. by exists NewMemStore. Qed.

End Sample.

Lemma trio_ids a : a ∈ trio -> a = 1 \/ a = 2 \/ a = 3.
Proof. unfold trio. rewrite elem_of_list_to_set. set_solver. Qed.

Lemma in_trio a : bool_decide (a ∈ trio) = true -> a ∈ trio.
Proof. apply bool_decide_eq_true. Qed.

Lemma trio_config : group_config trio trio_cfg.
Proof.
  split; intros a Ha; [destruct (trio_ids a Ha) as [-> |[-> | ->]]; lia|].
  split; [done|by apply (bool_decide_unpack _); vm_compute|done| |done].
  destruct (trio_ids a Ha) as [-> |[-> | ->]]; by apply (bool_decide_unpack _); vm_compute.
Qed.

(** ** With the client's value "score" *)

Definition is_ok {X} (o : option X) : bool := match o with Some _ => true | None => false end.

Lemma default_ok {X} (o : option X) d : is_ok o = true -> o = Some (default d o).
Proof. by destruct o. Qed.

Definition scored : Cluster MemStore := default all_down (sample (noop_or "score") (noop_or_dec "score") "score").

Lemma scored_steps : rtc (cstep trio trio_cfg (noop_or "score")) all_down scored.
Proof. eapply sample_steps, default_ok. by vm_compute. Qed.

Lemma scored_reached : reached trio trio_cfg (noop_or "score") scored.
Proof. exists all_down. split; [apply all_down_start|apply scored_steps]. Qed.

(** The node a host runs; of a host that is down, one that never started. *)
Definition node_at (s : Cluster MemStore) (a : NodeID) : Node MemStore :=
  match hosts s a with
  | Up n => n
  | Down st => mkNode (trio_cfg a) st calm_rng 0 zero_ballot 0 ∅ ∅ 0 0 0 0 zero_ballot 0 false 0 Follower
                 zero_ballot zero_phase1 ∅ 0 0 [] None 0 0 0 ∅ [] [] None
  end.

Lemma scored_up a : bool_decide (a ∈ trio) = true -> hosts scored a = Up (node_at scored a).
Proof.
  intros Ha%bool_decide_eq_true%trio_ids. unfold node_at. destruct Ha as [-> |[-> | ->]];
    match goal with |- ?h = _ => assert (X : match h with Up _ => true | Down _ => false end = true) by (by vm_compute) end;
    by destruct (hosts scored _).
Qed.

(** ** A cluster of one *)

Definition alone : gset NodeID := list_to_set [1].
Definition alone_cfg (a : NodeID) : Config := DefaultConfig a [1].

Lemma in_alone a : a ∈ alone <-> a = 1.
Proof. unfold alone. rewrite elem_of_list_to_set, list_elem_of_singleton. done. Qed.

Lemma alone_config : group_config alone alone_cfg.
Proof.
  split; intros a ->%in_alone; [lia|].
  split; [done|by apply (bool_decide_unpack _); vm_compute|done|by apply list_elem_of_here|done].
Qed.

(** Node 1 stands for election, which makes it leader and decides the no-op in
    the same call, and proposes "score", which decides that. *)
Definition alone_run : option (Cluster MemStore) :=
  run alone alone_cfg (noop_or "score") (noop_or_dec "score")
    [Restart 1 calm_rng; Ticks 1 0; Ticks 1 (200 * Millisecond); Proposes 1 (210 * Millisecond) "score"] all_down.

Definition alone_scored : Cluster MemStore := default all_down alone_run.

Lemma alone_reached : reached alone alone_cfg (noop_or "score") alone_scored.
Proof.
  exists all_down. split; [split; [done|intros a _; by exists NewMemStore]|].
  eapply run_steps, default_ok. by vm_compute.
Qed.

Lemma alone_up : hosts alone_scored 1 = Up (node_at alone_scored 1).
Proof.
  unfold node_at. assert (X : match hosts alone_scored 1 with Up _ => true | Down _ => false end = true) by by vm_compute.
  by destruct (hosts alone_scored 1).
Qed.
