(* ===== verification/LogSafety.v ===== *)
(** What the replicated log guarantees of every cluster that runs the code of
    internal/replog on its stores, whatever the network, the clocks, the random
    sources, the crashes and the store failures do. *)

From stdpp Require Import functions.
From S2P Require Import Prelude GoStd Paxos Voting Store Replog LogSpec LogInv NodeSteps Handlers Drive Cluster Runs.

(** * What a disk never loses *)

Record keeps (d d' : MemStore) : Prop := {
  kp_promised : Less (ms_promised d') (ms_promised d) = false;
  kp_round : ms_max_round d <= ms_max_round d';
  kp_accepted : forall s pv, ms_accepted d !! s = Some pv ->
    exists pv', ms_accepted d' !! s = Some pv' /\ Less (pv_ballot pv') (pv_ballot pv) = false;
  kp_chosen : forall s e, ms_chosen d !! s = Some e ->
    exists e', ms_chosen d' !! s = Some e' /\ en_value e' = en_value e;
}.

Lemma Less_false_trans a b c : Less b a = false -> Less c b = false -> Less c a = false.
Proof. intros H1 H2. destruct (Less c a) eqn:E; [|done]. by rewrite (Less_le_trans _ _ _ E H1) in H2. Qed.

Lemma keeps_refl d : keeps d d.
Proof. split; [apply Less_irrefl|done|eauto using Less_irrefl|eauto]. Qed.

Lemma keeps_trans d1 d2 d3 : keeps d1 d2 -> keeps d2 d3 -> keeps d1 d3.
Proof.
  intros [P1 R1 A1 C1] [P2 R2 A2 C2]. split; [|lia| |].
  - eapply Less_false_trans; eauto.
  - intros s pv H. destruct (A1 s pv H) as (pv1 & H1 & L1). destruct (A2 s pv1 H1) as (pv2 & H2 & L2).
    exists pv2. split; [done|]. eapply Less_false_trans; eauto.
  - intros s e H. destruct (C1 s e H) as (e1 & H1 & E1). destruct (C2 s e1 H1) as (e2 & H2 & E2).
    exists e2. split; [done|congruence].
Qed.

Section Abstract.
Context (A : gset NodeID) (A_nonneg : forall a, a ∈ A -> 0 <= a) (W : Value -> Prop).

(** An acceptor votes at the ballot it promised, and never promised less than
    it voted at. *)
Lemma vote_above w a b s v pv : WInv A W w -> ms_promised (a_disk (nodes w a)) = b ->
  ms_accepted (a_disk (nodes w a)) !! s = Some pv -> Less (pv_ballot (mkPValue b s v)) (pv_ballot pv) = false.
Proof.
  intros I <- H. destruct (wi_nodes _ _ _ I a) as [].
  by destruct (no_votes pv (no_accepted s pv H)).
Qed.

Lemma nstep_keeps w a l : WInv A W w -> a ∈ A -> nstep A W a (local_of w a) l ->
  keeps (a_disk (nodes w a)) (a_disk (l_node l)).
Proof.
  intros I Ha Hst. pose proof (wi_nodes _ _ _ I a) as N. remember (local_of w a) as l0 eqn:E.
  destruct Hst as [x y G V Hd Hl Hc Hk Hi|x y G V Hd Hm Hl Hr Hc Hk Hi|x G V|x G V r Hl Hr|x G V b Hb Hm|x G V f Hl| | |x G V l b s v HG Hb
    | | | | | | |x G V e He| | | | ]; injection E as -> -> ->; simpl; rewrite ?Hd; try apply keeps_refl.
  - destruct (no_max _ _ _ _ _ _ N) as [_ Hx]. specialize (Hx Hl).
    split; simpl; eauto using Less_irrefl. lia.
  - split; simpl; eauto using Less_irrefl, Less_asym. done.
  - destruct (no_max _ _ _ _ _ _ N) as [_ Hx]. specialize (Hx Hl).
    split; simpl; eauto using Less_irrefl. lia.
  - split; simpl; eauto using Less_irrefl; [done|]. intros t pv Hp. destruct (decide (t = s)) as [-> |Hne].
    + exists (mkPValue b s v). rewrite lookup_insert_eq. split; [done|]. by eapply vote_above.
    + exists pv. rewrite lookup_insert_ne by done. eauto using Less_irrefl.
  - split; simpl; eauto using Less_irrefl; [done|]. intros t e' Hp. destruct (decide (t = en_slot e)) as [-> |Hne].
    + exists e. rewrite lookup_insert_eq. split; [done|].
      eapply chosen_in_agree; [done|by eapply learnable|]. by apply (no_chosen _ _ _ _ _ _ N).
    + exists e'. by rewrite lookup_insert_ne.
Qed.

Lemma wsteps_keep w w' a : rtc (wstep A W) w w' -> WInv A W w -> keeps (a_disk (nodes w a)) (a_disk (nodes w' a)).
Proof.
  intros Hr. induction Hr as [w|w1 w2 w3 St _ IH]; intros I; [apply keeps_refl|].
  eapply keeps_trans; [|apply IH; by eapply wstep_inv].
  destruct St as [c l Hc Hl|c y Hc _ (Hd & _)]; simpl; (destruct (decide (c = a)) as [-> |Hne];
    [rewrite fn_lookup_insert|rewrite fn_lookup_insert_ne by done; apply keeps_refl]).
  - by apply nstep_keeps.
  - rewrite Hd. apply keeps_refl.
Qed.
End Abstract.

(** * Reachable clusters *)

Section Guarantees.
Context {T : Type} `{ST : Store T} (A : gset NodeID) (cfgs : NodeID -> Config) (W : Value -> Prop)
  (gc : group_config A cfgs) (W_noop : W "").
Implicit Types (s : Cluster T) (n : Node T).

Lemma host_world s w a : refines A cfgs W s w -> a ∈ A -> a_disk (nodes w a) = host_disk (hosts s a).
Proof.
  intros [R1 R2 _] Ha. unfold host_disk. destruct (hosts s a) as [n|st] eqn:E.
  - destruct (R1 a n Ha E) as (-> & _). done.
  - by destruct (R2 a st Ha E).
Qed.

(** What is chosen on a disk was chosen by a majority's votes. *)
Lemma disk_chosen s w a k e : refines A cfgs W s w -> WInv A W w -> a ∈ A ->
  ms_chosen (host_disk (hosts s a)) !! k = Some e -> chosen_in A (votes w) k (en_ballot e) (en_value e).
Proof. intros R I Ha. rewrite <- (host_world s w a R Ha). apply (no_chosen _ _ _ _ _ _ (wi_nodes _ _ _ I a)). Qed.

(** What a running node has in memory is chosen on its disk. *)
Lemma known_on_disk s w a n k e : refines A cfgs W s w -> WInv A W w -> a ∈ A -> hosts s a = Up n ->
  n_chosen n !! k = Some e -> exists e', ms_chosen (host_disk (hosts s a)) !! k = Some e' /\ en_value e' = en_value e.
Proof.
  intros R I Ha Hn He. rewrite <- (host_world s w a R Ha). apply (no_known _ _ _ _ _ _ (wi_nodes _ _ _ I a)).
  by destruct (rf_up _ _ _ _ _ R a n Ha Hn) as (-> & _).
Qed.

(** A node that runs has a configuration that [Validate] accepts. *)
Lemma running_validated s a n : reached A cfgs W s -> a ∈ A -> hosts s a = Up n -> Validate (withDefaults (cfgs a)) = None.
Proof.
  intros (s0 & [_ Hd] & Hr) Ha. revert n.
  refine (rtc_ind_r (fun s => forall n, hosts s a = Up n -> _) s0 _ _ s Hr).
  { intros n Hn. destruct (Hd a Ha) as (st & E & _). congruence. }
  clear s Hr. intros s s2 _ St IH m. destruct St as [c now env n n' out Hc Hn|c now n n' out Hc Hn|c now v n n' out err Hc Hn
    |c now n n' seq out err Hc Hn|c n Hc Hn|c n Hc Hn|c n Hc Hn|c st st' Hc Hn|c st rng n Hc Hn HN];
    rewrite hosts_put; (case_decide as D; [subst c; try (intros _; by eapply IH)|by apply IH]); try done.
  intros _. unfold New in HN. by destruct (Validate (withDefaults (cfgs a))).
Qed.

(** C4. Agreement: in every cluster, whatever messages are lost, delayed,
    duplicated or reordered and whichever nodes and stores fail and restart, no
    two nodes ever have different values chosen for the same slot of the log. *)
Theorem log_agreement s a b k e e' :
  reached A cfgs W s -> a ∈ A -> b ∈ A ->
  ms_chosen (host_disk (hosts s a)) !! k = Some e -> ms_chosen (host_disk (hosts s b)) !! k = Some e' ->
  en_value e = en_value e'.
Proof.
  intros H Ha Hb He He'. destruct (reached_refines A cfgs W gc W_noop s H) as (w & _ & R & I).
  exact (chosen_in_agree A W w k _ _ _ _ I (disk_chosen s w a k e R I Ha He) (disk_chosen s w b k e' R I Hb He')).
Qed.

(** Validity: every value chosen for a slot was given to [Propose] on some
    node or is the no-op: [W] is any property that the no-op and all the values
    given to [Propose] have. *)
Theorem log_validity s a k e :
  reached A cfgs W s -> a ∈ A -> ms_chosen (host_disk (hosts s a)) !! k = Some e -> W (en_value e).
Proof.
  intros H Ha He. destruct (reached_refines A cfgs W gc W_noop s H) as (w & _ & R & I).
  destruct (disk_chosen s w a k e R I Ha He) as (Q & HQ & Hv). destruct (quorum_inhabited A Q HQ) as (c & Hc).
  destruct (so_vote _ _ _ _ _ (wi_says _ _ _ I) c k _ _ (Hv c Hc)) as [_ Hp].
  by apply (so_wanted _ _ _ _ _ (wi_says _ _ _ I) _ _ _ Hp).
Qed.

(** No [LearnConflict] event is ever raised: a running node that hears that
    a slot is chosen never has another value for it. *)
Theorem log_no_conflict s a n ev :
  reached A cfgs W s -> a ∈ A -> hosts s a = Up n -> ev ∈ n_events n -> is_conflict ev = false.
Proof.
  intros H Ha Hn Hev. destruct (reached_refines A cfgs W gc W_noop s H) as (w & _ & R & I).
  destruct (rf_up _ _ _ _ _ R a n Ha Hn) as (E & _).
  pose proof (no_conflict _ _ _ _ _ _ (wi_nodes _ _ _ I a)) as C. rewrite E in C. simpl in C.
  destruct (is_conflict ev) eqn:Ec; [|done]. rewrite <- C. symmetry. apply existsb_exists. exists ev.
  by rewrite <- list_elem_of_In.
Qed.

(** Two [Accept] messages with the same ballot and slot, whoever sent them
    and however often, carry the same value: a node that restarts never reuses
    a ballot it proposed at. *)
Theorem log_accept_unique s env env' b k v v' :
  reached A cfgs W s -> env ∈ net s -> env' ∈ net s ->
  env_msg env = Accept b k v -> env_msg env' = Accept b k v' -> v = v'.
Proof.
  intros H He He' E E'. destruct (reached_refines A cfgs W gc W_noop s H) as (w & _ & R & I).
  destruct (rf_net _ _ _ _ _ R env He) as (_ & _ & S). destruct (rf_net _ _ _ _ _ R env' He') as (_ & _ & S').
  rewrite E in S. rewrite E' in S'. by apply (so_one _ _ _ _ _ (wi_says _ _ _ I) k b); eexists.
Qed.

(** C11. What is durable stays: from one state of the cluster to any later one,
    through crashes and restarts, no disk's promise or round number goes down,
    no accepted slot is lost or falls to a lower ballot, and no chosen slot is
    lost or changes value. *)
Theorem log_durable s s' a :
  reached A cfgs W s -> rtc (cstep A cfgs W) s s' -> a ∈ A ->
  keeps (host_disk (hosts s a)) (host_disk (hosts s' a)).
Proof.
  intros H Hs Ha. destruct (reached_refines A cfgs W gc W_noop s H) as (w & _ & R & I).
  destruct (csteps_refines A cfgs W gc W_noop s s' w Hs I R) as (w' & Hw & R').
  rewrite <- (host_world s w a R Ha), <- (host_world s' w' a R' Ha).
  by apply (wsteps_keep A (gc_ids _ _ gc) W).
Qed.

(** A running node's memory is sound: unless its store has failed, its
    promise, accepted values and chosen entries are exactly those on its disk;
    even then each entry it holds is chosen on its disk with that value, and
    every slot up to its commit index has an entry. *)
Theorem log_memory s a n :
  reached A cfgs W s -> a ∈ A -> hosts s a = Up n ->
  (is_failed n = false -> n_promised n = ms_promised (disk n) /\ n_accepted n = ms_accepted (disk n) /\
     n_chosen n = ms_chosen (disk n) /\ ms_max_round (disk n) <= n_maxRound n) /\
  (forall k e, n_chosen n !! k = Some e -> exists e', ms_chosen (disk n) !! k = Some e' /\ en_value e' = en_value e) /\
  (forall k, 0 < k <= n_commitIndex n -> is_Some (n_chosen n !! k)).
Proof.
  intros H Ha Hn. destruct (reached_refines A cfgs W gc W_noop s H) as (w & _ & R & I).
  destruct (rf_up _ _ _ _ _ R a n Ha Hn) as (E & [G _] & _).
  pose proof (wi_nodes _ _ _ I a) as N. rewrite E in N. split_and!.
  - intros F. destruct (g_mem _ _ _ _ _ _ _ G F) as [M1 M2 M3]. split_and!; [done..|].
    destruct (no_max _ _ _ _ _ _ N) as [_ Hmax]. apply Hmax. simpl. by rewrite F.
  - exact (no_known _ _ _ _ _ _ N).
  - exact (no_commit _ _ _ _ _ _ N).
Qed.

(** C12. Refinement: every run of the cluster's code is a run of the abstract
    multi-Paxos protocol of LogSpec.v, in which each node's disk, role, ballot,
    promises, acceptances and every message sent correspond. *)
Theorem log_refines_protocol s :
  reached A cfgs W s -> exists w, rtc (wstep A W) w_init w /\ refines A cfgs W s w.
Proof.
  intros H. destruct (reached_refines A cfgs W gc W_noop s H) as (w & ? & ? & _). eauto.
Qed.

Lemma calls_return s a n now : reached A cfgs W s -> a ∈ A -> hosts s a = Up n -> roomy n ->
  (forall env, env ∈ net s -> small_msg (env_msg env) -> is_Some (Step now env n)) /\ is_Some (Tick now n) /\
  (forall v, W v -> is_Some (Propose now v n)) /\ is_Some (ReadIndex now n).
Proof.
  intros H Ha Hn Hr. destruct (reached_refines A cfgs W gc W_noop s H) as (w & _ & R & I).
  destruct (rf_up _ _ _ _ _ R a n Ha Hn) as (E & Hg & Ho). pose proof (config_defaults A cfgs gc a Ha) as C.
  pose proof (rf_window _ _ _ _ _ R a n Ha Hn) as Hw.
  split_and!.
  - intros env He Hm. destruct (Step_drives A a _ C W W_noop now env n (sent w) (votes w) Hg Ho Hr) as (m & o & -> & _); [|done].
    intros Et. destruct (rf_net _ _ _ _ _ R env He) as (? & ? & ?). split_and!; [congruence|done..].
  - destruct (Tick_drives A a _ C W W_noop now n (sent w) (votes w) Hg Ho Hr) as (m & o & -> & _); [|done].
    pose proof (wi_nodes _ _ _ I a) as N. rewrite E in N. by eapply node_rounds.
  - intros v Hv. by destruct (Propose_drives A a _ C W W_noop now v n (sent w) (votes w) Hg Ho Hr Hv Hw) as (m & o & e & -> & _).
  - by destruct (ReadIndex_drives A a _ C W W_noop now n (sent w) (votes w) Hg Ho) as (m & q & o & e & -> & _).
Qed.

(** Between two calls, a leader alone in its cluster has nothing open and
    nothing queued: all it proposed was decided within the calls. *)
Lemma alone_settled s a n : reached A cfgs W s -> a ∈ A -> hosts s a = Up n -> size A = 1%nat ->
  is_failed n = false -> n_role n = Leader -> n_proposals n = ∅ /\ n_queue n = [].
Proof.
  intros H Ha Hn H1 F R. destruct (reached_refines A cfgs W gc W_noop s H) as (w & _ & Rf & _).
  destruct (rf_up _ _ _ _ _ Rf a n Ha Hn) as (_ & [Hg Ho] & _).
  assert (Hm : majority A < 2) by (unfold majority; rewrite H1; by vm_compute).
  destruct (Ho F R) as [_ Hp]. split; [by apply Hp|]. by eapply alone_queue.
Qed.

(** C13. No call on a running node panics or runs forever: in every reachable
    state of a cluster of any size, one node included, while the counters are
    below 2^63, [Step] on any message of the network, [Tick], [Propose] and
    [ReadIndex] return, at any time and whatever the store does; and a leader
    that is alone has decided every proposal within the call that made it. *)
Theorem log_calls_return s a n now :
  reached A cfgs W s -> a ∈ A -> hosts s a = Up n -> roomy n ->
  (forall env, env ∈ net s -> small_msg (env_msg env) -> is_Some (Step now env n)) /\ is_Some (Tick now n) /\
  (forall v, W v -> is_Some (Propose now v n)) /\ is_Some (ReadIndex now n) /\
  (size A = 1%nat -> is_failed n = false -> n_role n = Leader -> n_proposals n = ∅ /\ n_queue n = []).
Proof.
  intros H Ha Hn Hr. destruct (calls_return s a n now H Ha Hn Hr) as (H1 & H2 & H3 & H4).
  split_and!; [done..|]. by apply (alone_settled s a).
Qed.
End Guarantees.

(** * The theorems at a concrete run *)

Definition score_entry : Entry := mkEntry 2 (mkBallot 1 1) "score".
Definition score_accept (to : NodeID) : Envelope := mkEnvelope 1 to (Accept (mkBallot 1 1) 2 "score").

(** Node 1 crashes and restarts. *)
Definition rescored : Cluster MemStore := default scored (sample_run (noop_or "score") (noop_or_dec "score") [Crash 1; Restart 1 calm_rng] scored).

Lemma rescored_steps : rtc (cstep trio trio_cfg (noop_or "score")) scored rescored.
Proof. eapply run_steps, default_ok. by vm_compute. Qed.

Lemma score_wanted : noop_or "score" "".
Proof. by left. Qed.

Lemma log_agreement_witness :
  ms_chosen (host_disk (hosts scored 1)) !! 2 = Some score_entry /\
  ms_chosen (host_disk (hosts scored 3)) !! 2 = Some score_entry /\ en_value score_entry = en_value score_entry.
Proof.
  split; [by vm_compute|]. split; [by vm_compute|].
  apply (log_agreement trio trio_cfg _ trio_config score_wanted scored 1 3 2 score_entry score_entry scored_reached
    (in_trio 1 eq_refl) (in_trio 3 eq_refl)); by vm_compute.
Defined.

Lemma log_validity_witness :
  ms_chosen (host_disk (hosts scored 3)) !! 2 = Some score_entry /\ noop_or "score" (en_value score_entry).
Proof.
  split; [by vm_compute|].
  apply (log_validity trio trio_cfg _ trio_config score_wanted scored 3 2 score_entry scored_reached
    (in_trio 3 eq_refl)); by vm_compute.
Defined.

Lemma log_no_conflict_witness :
  LeaderChanged 1 (mkBallot 1 1) false ∈ n_events (node_at scored 3) /\
  is_conflict (LeaderChanged 1 (mkBallot 1 1) false) = false.
Proof.
  assert (H : LeaderChanged 1 (mkBallot 1 1) false ∈ n_events (node_at scored 3))
    by (vm_compute; apply list_elem_of_here).
  split; [exact H|].
  exact (log_no_conflict trio trio_cfg _ trio_config score_wanted scored 3 _ _ scored_reached
    (in_trio 3 eq_refl) (scored_up 3 eq_refl) H).
Defined.

Lemma score_sent to : (to =? 2) || (to =? 3) = true -> score_accept to ∈ net scored.
Proof.
  rewrite orb_true_iff, !Z.eqb_eq. assert (E : forallb (fun to => existsb (fun env =>
    match env_msg env with Accept b k v => (env_from env =? 1) && (env_to env =? to) && bool_decide (b = mkBallot 1 1) &&
      (k =? 2) && String.eqb v "score" | _ => false end) (net scored)) [2; 3] = true) by by vm_compute.
  rewrite forallb_forall in E. intros Ht. specialize (E to). rewrite existsb_exists in E.
  destruct E as (env & Hin%list_elem_of_In & Hm); [destruct Ht as [-> | ->]; simpl; auto|].
  destruct env as [f t m]. simpl in Hm. destruct m; try done. unfold score_accept.
  rewrite !andb_true_iff, !Z.eqb_eq, bool_decide_eq_true, String.eqb_eq in Hm. by destruct_and!; subst.
Qed.

Lemma log_accept_unique_witness : score_accept 2 ∈ net scored /\ score_accept 3 ∈ net scored /\ "score" = "score".
Proof.
  split; [by apply score_sent|]. split; [by apply score_sent|].
  exact (log_accept_unique trio trio_cfg _ trio_config score_wanted scored (score_accept 2) (score_accept 3)
    (mkBallot 1 1) 2 "score" "score" scored_reached (score_sent 2 eq_refl) (score_sent 3 eq_refl) eq_refl eq_refl).
Defined.

Lemma log_durable_witness :
  ms_chosen (host_disk (hosts scored 1)) !! 2 = Some score_entry /\
  keeps (host_disk (hosts scored 1)) (host_disk (hosts rescored 1)).
Proof.
  split; [by vm_compute|].
  apply (log_durable trio trio_cfg _ trio_config score_wanted scored rescored 1 scored_reached rescored_steps).
  by apply in_trio.
Defined.

Lemma log_memory_witness : n_commitIndex (node_at scored 3) = 2 /\ is_Some (n_chosen (node_at scored 3) !! 1).
Proof.
  split; [by vm_compute|].
  destruct (log_memory trio trio_cfg _ trio_config score_wanted scored 3 (node_at scored 3) scored_reached
    (in_trio 3 eq_refl) (scored_up 3 eq_refl)) as (_ & _ & H).
  apply H. by vm_compute.
Defined.

Lemma log_refines_protocol_witness :
  exists w, rtc (wstep trio (noop_or "score")) w_init w /\ refines trio trio_cfg (noop_or "score") scored w.
Proof. exact (log_refines_protocol trio trio_cfg _ trio_config score_wanted scored scored_reached). Defined.

Lemma log_calls_return_witness :
  (n_role (node_at scored 1) = Leader /\
   is_Some (Step 300000000 (score_accept 2) (node_at scored 1)) /\ is_Some (Tick 300000000 (node_at scored 1)) /\
   is_Some (Propose 300000000 "score" (node_at scored 1)) /\ is_Some (ReadIndex 300000000 (node_at scored 1))) /\
  n_role (node_at alone_scored 1) = Leader /\ n_commitIndex (node_at alone_scored 1) = 2 /\
  is_Some (Tick 300000000 (node_at alone_scored 1)) /\ is_Some (Propose 300000000 "score" (node_at alone_scored 1)) /\
  n_proposals (node_at alone_scored 1) = ∅.
Proof.
  split.
  - split; [by vm_compute|].
    destruct (log_calls_return trio trio_cfg _ trio_config score_wanted scored 1 (node_at scored 1) 300000000
      scored_reached) as (H1 & H2 & H3 & H4 & _); [by apply in_trio|by apply scored_up|by apply (bool_decide_unpack _); vm_compute|].
    split; [apply H1; [by apply score_sent|done]|]. split; [exact H2|]. split; [apply H3; by right|exact H4].
  - split; [by vm_compute|]. split; [by vm_compute|].
    destruct (log_calls_return alone alone_cfg _ alone_config score_wanted alone_scored 1 (node_at alone_scored 1) 300000000
      alone_reached) as (_ & H2 & H3 & _ & H5); [by apply in_alone|apply alone_up|by apply (bool_decide_unpack _); vm_compute|].
    split; [exact H2|]. split; [apply H3; by right|]. by apply H5; vm_compute.
Defined.
