(* ===== verification/ReadSafety.v ===== *)
(** Read-index barriers of a cluster: when a leader's barrier completes, its
    index covers every slot that was complete anywhere when the read began.

    The argument has three parts.  The invariant of Reads.v is kept by every
    step of a cluster ([reads_step]).  Whoever counts for a barrier promised
    nothing above the leader's ballot before the barrier began: it
    acknowledged a heartbeat that was not sent yet.  And a majority that has
    promised nothing above a ready leader's ballot leaves nothing chosen beyond
    the leader's commit index ([barrier_covers]). *)

From stdpp Require Import functions.
From S2P Require Import Prelude GoStd Paxos Voting Store Replog LogSpec LogInv NodeSteps Handlers Reads Drive Cluster Runs LogSafety.

(** A read to follow: the host it began at, its number, the ballot and the
    commit index of the leader at that moment. *)
Record Barrier := mkBarrier { br_host : NodeID; br_seq : Z; br_ballot : Ballot; br_index : Slot }.

Section Barriers.
Context {T : Type} `{ST : Store T} (A : gset NodeID) (cfgs : NodeID -> Config) (W : Value -> Prop)
  (gc : group_config A cfgs) (W_noop : W "").
Implicit Types (s : Cluster T) (n : Node T).

Definition beat_in s (b : Ballot) (k : Z) : Prop := exists env c, env ∈ net s /\ env_msg env = Heartbeat b c k.
Definition beat_of s (x : NodeID) (b : Ballot) (k : Z) : Prop :=
  exists env c, env ∈ net s /\ env_from env = x /\ env_msg env = Heartbeat b c k.
Definition ack_in s (y : NodeID) (b : Ballot) (k : Z) : Prop :=
  exists env c j, env ∈ net s /\ env_from env = y /\ env_msg env = HeartbeatAck b b c j /\ k <= j.

Definition follows (tg : option Barrier) (x : NodeID) : option (Z * Ballot * Slot) :=
  f ← tg; if br_host f =? x then Some (br_seq f, br_ballot f, br_index f) else None.

(** What host [x] knows, with [P0] the promises the nodes started from. *)
Definition known (P0 : NodeID -> Ballot) (tg : option Barrier) s (x : NodeID) : Known :=
  mkKnown (P0 x) (beat_in s) (beat_of s x) (ack_in s) (follows tg x).

Abbreviation node_safe x := (safe (withDefaults (cfgs x)) (majority A)).

(** Acknowledgements answer heartbeats; those of the barrier come from hosts
    that had not promised more when it began. *)
Definition acks_ok (P0 : NodeID -> Ballot) (tg : option Barrier) s : Prop :=
  forall env b p c k, env ∈ net s -> env_msg env = HeartbeatAck b p c k ->
    beat_in s b k /\ (forall f, tg = Some f -> b = br_ballot f -> br_seq f <= k -> Less p (P0 (env_from env)) = false).

Record reads_ok (P0 : NodeID -> Ballot) (tg : option Barrier) s : Prop := {
  rk_node : forall x n, x ∈ A -> hosts s x = Up n -> node_safe x (known P0 tg s x) n;
  rk_beats : forall env b c k, env ∈ net s -> env_msg env = Heartbeat b c k ->
    bal_node b = env_from env /\ 1 <= bal_round b <= ms_max_round (host_disk (hosts s (env_from env)));
  rk_acks : acks_ok P0 tg s;
}.

Abbreviation reached := (reached A cfgs W).
Abbreviation cstep := (cstep A cfgs W).
Abbreviation refines := (refines A cfgs W).

(** ** Steps keep disks *)

Lemma host_keeps s s' x : reached s -> cstep s s' -> x ∈ A -> keeps (host_disk (hosts s x)) (host_disk (hosts s' x)).
Proof.
  intros H St Hx. destruct (reached_refines A cfgs W gc W_noop s H) as (w & _ & R & I).
  destruct (cstep_refines A cfgs W gc W_noop s s' w I R St) as (w' & Hw & R').
  rewrite <- (host_world A cfgs W s w x R Hx), <- (host_world A cfgs W s' w' x R' Hx).
  by apply (wsteps_keep A (gc_ids _ _ gc) W).
Qed.

Lemma reached_step s s' : reached s -> cstep s s' -> reached s'.
Proof. intros (s0 & H0 & Hr) St. exists s0. split; [done|]. by eapply rtc_r. Qed.

Lemma net_member s env : reached s -> env ∈ net s -> env_from env ∈ A /\ env_from env <> env_to env.
Proof.
  intros H He. destruct (reached_refines A cfgs W gc W_noop s H) as (w & _ & R & _).
  by destruct (rf_net _ _ _ _ _ R env He) as (? & ? & _).
Qed.

(** ** One host moves *)

Lemma net_put s x h out : net (put s x h out) = net s ++ out.
Proof. done. Qed.

Lemma put_grows s x h out : (forall b k, beat_in s b k -> beat_in (put s x h out) b k) /\
  (forall y b k, ack_in s y b k -> ack_in (put s x h out) y b k).
Proof.
  split; [intros b k (env & c & He & ?)|intros y b k (env & c & j & He & ?)];
    [exists env, c|exists env, c, j]; (split; [rewrite net_put; apply elem_of_app; by left|done]).
Qed.

(** Host [x] has moved to [h] and sent [out]. *)
Lemma reads_put P0 tg tg' s x h out K :
  reached s -> cstep s (put s x h out) -> x ∈ A -> reads_ok P0 tg s ->
  (forall y, y <> x -> follows tg' y = follows tg y) -> acks_ok P0 tg' s ->
  (forall n, h = Up n -> answered (withDefaults (cfgs x)) (majority A) K n out) -> (forall st, h = Down st -> out = []) ->
  floor K = P0 x -> beats K = beat_in s -> acked K = ack_in s -> target K = follows tg' x ->
  (forall b k, beat_of s x b k -> own K b k) ->
  reads_ok P0 tg' (put s x h out).
Proof.
  intros Hs St Hx [R1 R2 _] Htg Hacks Hup Hdown Kf Kb Ka Kt Ko.
  destruct (put_grows s x h out) as [Gb Ga].
  assert (Hout : forall env, env ∈ out -> env_from env = x /\ sayable K (env_msg env) /\
    exists n, h = Up n /\ sound (withDefaults (cfgs x)) (majority A) K n).
  { intros env He. destruct h as [n|st]; [|rewrite (Hdown st eq_refl) in He; by apply not_elem_of_nil in He].
    destruct (Hup n eq_refl) as (_ & Hn & Hf & Hq). destruct (Hq env He) as [E Hsay].
    split; [rewrite E; apply (config_defaults A cfgs gc x Hx)|]. split; [done|]. exists n. split; [done|]. apply Hn.
    destruct (is_failed n); [|done]. rewrite (Hf eq_refl) in He. by apply not_elem_of_nil in He. }
  split.
  - intros y n Hy. rewrite hosts_put. case_decide as D.
    + subst y. intros E. destruct (Hup n E) as (Eo & Hn & _). intros F.
      apply (sound_weaken _ _ K); try done; [| |by apply Hn].
      * intros b k (env & c & He & Ef & Em). rewrite net_put in He. apply elem_of_app in He as [He|He].
        { apply Ko. by exists env, c. }
        destruct (Hout env He) as (_ & Hsay & _). by rewrite Em in Hsay.
      * rewrite Ka. apply Ga.
    + intros E F. specialize (R1 y n Hy E F). destruct (reached_refines A cfgs W gc W_noop s Hs) as (w & _ & R & _).
      destruct (rf_up _ _ _ _ _ R y n Hy E) as (_ & _ & Eo).
      apply (sound_weaken _ _ (known P0 tg s y)); try done; [by apply Htg|].
      intros b k (env & c & He & Ef & Em). rewrite net_put in He. apply elem_of_app in He as [He|He]; [by exists env, c|].
      destruct (Hout env He) as (E' & _). congruence.
  - intros env b c k He Em. rewrite net_put in He. apply elem_of_app in He as [He|He].
    + destruct (R2 env b c k He Em) as [? Hb]. split; [done|].
      destruct (net_member s env Hs He) as [Hin _]. destruct (host_keeps _ _ _ Hs St Hin). lia.
    + destruct (Hout env He) as (Ef & Hsay & n & -> & Hn). rewrite Em in Hsay. simpl in Hsay.
      destruct (so_own _ _ _ _ Hn b k Hsay) as (Eb & Hb & _). rewrite Ef, hosts_put, decide_True by done.
      split; [rewrite Eb; apply (config_defaults A cfgs gc x Hx)|exact Hb].
  - intros env b p c k He Em. rewrite net_put in He. apply elem_of_app in He as [He|He].
    + destruct (Hacks env b p c k He Em) as [? ?]. split; [by apply Gb|done].
    + destruct (Hout env He) as (Ef & Hsay & _). rewrite Em in Hsay. destruct Hsay as [Hb Hp]. rewrite Kb in Hb.
      split; [by apply Gb|]. intros f _ _ _. by rewrite Ef, <- Kf.
Qed.

(** ** Every step *)

Lemma heard_from P0 tg s env x : env ∈ net s -> heard (withDefaults (cfgs x)) (known P0 tg s x) (env_from env) (env_msg env).
Proof.
  intros He _. destruct (env_msg env) as [| | | | | | |b c k|b p c k] eqn:Em; try done.
  - by exists env, c.
  - intros -> j Hj. by exists env, c, k.
Qed.

Lemma New_reads st rng n a : New (cfgs a) st rng = inl n -> n_reads n = ∅ /\ n_readSeq n = 0.
Proof.
  unfold New. destruct (Validate _); [done|]. destruct (store_load st); [|done]. intros [= <-].
  by destruct (_ <? _).
Qed.

Lemma New_safe P0 tg s a st rng n : reached s -> a ∈ A -> hosts s a = Down st -> New (cfgs a) st rng = inl n ->
  Less (ms_promised (contents st)) (P0 a) = false -> follows tg a = None -> reads_ok P0 tg s -> node_safe a (known P0 tg s a) n.
Proof.
  intros H Ha Hst En HP Ht [_ R2 _] F. destruct (reached_refines A cfgs W gc W_noop s H) as (w & _ & R & I).
  destruct (rf_down _ _ _ _ _ R a st Ha Hst) as [Ed _]. pose proof (wi_nodes _ _ _ I a) as N.
  assert (Hok : contents_ok (contents st)) by (rewrite <- Ed; apply N).
  destruct (New_spec A cfgs gc a st rng n Ha Hok En) as (N1 & N2 & N3 & N4 & N5 & N6 & [M1 _ _] & N8 & N9 & N10 & N11 & N12 & _).
  destruct (New_reads st rng n a En) as [E1 E2]. destruct (no_max _ _ _ _ _ _ N) as [Hm _]. rewrite Ed in Hm.
  split; rewrite ?N6; try done.
  - rewrite M1, N1. exact HP.
  - rewrite M1, N1, N10. lia.
  - rewrite N12. apply commit_from; [done|by left].
  - unfold keys_ok. rewrite E1, E2, N8. split_and!; [done|by intros k rd; rewrite lookup_empty|by intros k i ?%not_elem_of_nil].
  - intros b k (env & c & He & Ef & Em). destruct (R2 env b c k He Em) as [Eb Hb]. rewrite Ef, Hst in *. rewrite N1. split; [rewrite Eb; symmetry; apply (config_defaults A cfgs gc a Ha)|].
    split; [exact Hb|]. intros ->. exfalso. assert (n_ballot n = zero_ballot) as Ez.
    { revert En. unfold New. destruct (Validate _); [done|]. destruct (store_load st); [|done]. intros [= <-]. by destruct (_ <? _). }
    rewrite Ez in Hb. simpl in Hb. lia.
  - rewrite N4. by intros env ?%not_elem_of_nil.
  - unfold followed. simpl. by rewrite Ht.
Qed.

Lemma follows_down tg s a st : hosts s a = Down st -> (forall f, tg = Some f -> exists n, hosts s (br_host f) = Up n) -> follows tg a = None.
Proof.
  intros Hst Hup. destruct tg as [f|]; [|done]. simpl. destruct (Z.eqb_spec (br_host f) a) as [E|]; [|done].
  destruct (Hup f eq_refl) as [n Hn]. congruence.
Qed.

Lemma reads_step P0 tg s s' : reached s ->
  (forall x, x ∈ A -> Less (ms_promised (host_disk (hosts s x))) (P0 x) = false) ->
  (forall f, tg = Some f -> exists n, hosts s (br_host f) = Up n) ->
  reads_ok P0 tg s -> cstep s s' -> reads_ok P0 tg s'.
Proof.
  intros H HP Hup Hok St. pose proof (rk_acks _ _ _ Hok) as Hacks.
  destruct (reached_refines A cfgs W gc W_noop s H) as (w & _ & R & _).
  destruct St as [a now env n n' out Ha Hn He Hr Hm E|a now n n' out Ha Hn Hr E|a now v n n' out err Ha Hn Hr Hv E
             |a now n n' seq out err Ha Hn Hr E|a n Ha Hn|a n Ha Hn|a n Ha Hn|a st st' Ha Hst Ec|a st rng n Ha Hst E Hr] eqn:Es;
    clear Es; rename St into St0;
    try (destruct (rf_up _ _ _ _ _ R a n Ha Hn) as (_ & _ & Ho); pose proof (rk_node _ _ _ Hok a n Ha Hn) as Hs).
  - apply (reads_put P0 tg tg s a _ out (known P0 tg s a)); try done. intros m [= <-].
    eapply Step_safe; [exact Ho|exact Hs|by apply heard_from|exact E].
  - destruct (decide (n_role n = Leader)) as [L|L].
    + apply (reads_put P0 tg tg s a _ out (with_own (known P0 tg s a) (n_ballot n) (maxPendingRead n) (follows tg a))); try done; [|by left].
      intros m [= <-]. eapply Tick_safe; [exact Ho|apply Hr| |by right|exact E].
      intros F. apply beat_sound; [by apply Hs|done|]. apply maxPendingRead_le, (so_keys _ _ _ _ (Hs F)).
    + apply (reads_put P0 tg tg s a _ out (known P0 tg s a)); try done. intros m [= <-].
      by eapply Tick_safe; [exact Ho|apply Hr|exact Hs| |exact E].
  - apply (reads_put P0 tg tg s a _ out (known P0 tg s a)); try done. intros m [= <-]. by eapply Propose_keeps_safe.
  - pose proof (ReadIndex_safe _ _ _ now n n' seq out err Ho (ro_reads _ Hr) Hs E) as Hr'. destruct err as [err|].
    + apply (reads_put P0 tg tg s a _ out (known P0 tg s a)); try done. by intros m [= <-].
    + destruct Hr' as (_ & -> & _ & _ & Hr'). specialize (Hr' (follows tg a) (or_introl eq_refl)).
      eapply (reads_put P0 tg tg s a _ out); try done; [by intros m [= <-]|done..|by left].
  - apply (reads_put P0 tg tg s a _ [] (known P0 tg s a)); try done. intros m [= <-]. by apply Events_safe.
  - apply (reads_put P0 tg tg s a _ [] (known P0 tg s a)); try done. intros m [= <-]. by apply answered_none.
  - apply (reads_put P0 tg tg s a _ [] (known P0 tg s a)); try done.
  - apply (reads_put P0 tg tg s a _ [] (known P0 tg s a)); try done.
  - apply (reads_put P0 tg tg s a _ [] (known P0 tg s a)); try done. intros m [= <-].
    destruct (New_spec A cfgs gc a st rng n Ha) as (_ & _ & _ & N4 & _); [|done|].
    { destruct (reached_refines A cfgs W gc W_noop s H) as (w' & _ & R' & I). destruct (rf_down _ _ _ _ _ R' a st Ha Hst) as [Ed _].
      rewrite <- Ed. apply (wi_nodes _ _ _ I a). }
    apply answered_none; [done|]. eapply New_safe; try done; [|by eapply follows_down]. specialize (HP a Ha). by rewrite Hst in HP.
Qed.

(** ** From the start of the cluster, and from the start of a read *)

Definition running (a : NodeID) s : Prop := exists n, hosts s a = Up n.

(** A step during which host [a] goes on running. *)
Definition serving (a : NodeID) s s' : Prop := cstep s s' /\ running a s'.

Definition promised_at s (x : NodeID) : Ballot := ms_promised (host_disk (hosts s x)).

Lemma reads_steps P0 tg (R : Cluster T -> Cluster T -> Prop) s s' : reached s ->
  (forall x, x ∈ A -> Less (promised_at s x) (P0 x) = false) ->
  (forall s1 s2, R s1 s2 -> cstep s1 s2 /\ forall f, tg = Some f -> running (br_host f) s2) ->
  (forall f, tg = Some f -> running (br_host f) s) -> rtc R s s' -> reads_ok P0 tg s -> reads_ok P0 tg s'.
Proof.
  intros H HP HR Hup Hr. induction Hr as [s|s s1 s2 St _ IH]; [done|]. intros Hok. destruct (HR s s1 St) as [St' Hup'].
  apply IH; [by eapply reached_step| |done|by eapply reads_step].
  intros x Hx. eapply Less_false_trans; [exact (HP x Hx)|]. by destruct (host_keeps s s1 x H St' Hx).
Qed.

Lemma start_reads s : cluster_start A s -> reads_ok (promised_at s) None s.
Proof.
  intros [En Hd]. split.
  - intros x n Hx E. destruct (Hd x Hx) as (st & E' & _). congruence.
  - intros env b c k. rewrite En. by intros ?%not_elem_of_nil.
  - intros env b p c k. rewrite En. by intros ?%not_elem_of_nil.
Qed.

Lemma promised_up s a n : reached s -> a ∈ A -> hosts s a = Up n -> is_failed n = false -> promised_at s a = n_promised n.
Proof.
  intros H Ha Hn F. destruct (reached_refines A cfgs W gc W_noop s H) as (w & _ & R & _).
  destruct (rf_up _ _ _ _ _ R a n Ha Hn) as (_ & [G _] & _). destruct (g_mem _ _ _ _ _ _ _ G F) as [M1 _ _].
  unfold promised_at. rewrite Hn. symmetry. exact M1.
Qed.

Lemma reached_reads s : reached s -> reads_ok (promised_at s) None s.
Proof.
  intros H. assert (Hok : exists P0, reads_ok P0 None s).
  { destruct H as (s0 & H0 & Hr). exists (promised_at s0). apply (reads_steps _ None cstep s0 s); [| | |done|done|].
    - exists s0. split; [done|apply rtc_refl].
    - intros x _. apply Less_irrefl.
    - by intros s1 s2 St.
    - by apply start_reads. }
  destruct Hok as (P0 & [R1 R2 R3]). split; [|exact R2|].
  - intros x n Hx E F. specialize (R1 x n Hx E F). destruct (reached_refines A cfgs W gc W_noop s H) as (w & _ & R & _).
    destruct (rf_up _ _ _ _ _ R x n Hx E) as (_ & _ & Eo). destruct R1 as [S1 S2 S3 S4 S5 S6 S7 S8 S9 S10 S11]. split; try done.
    + simpl. rewrite (promised_up s x n H Hx E F). apply Less_irrefl.
    + rewrite Eo. by intros env ?%not_elem_of_nil.
  - intros env b p c k He Em. destruct (R3 env b p c k He Em). done.
Qed.

(** A read begins. *)
Lemma barrier_begins s a now n n' k out : reached s -> a ∈ A -> hosts s a = Up n -> roomy n ->
  ReadIndex now n = Some (n', k, out, None) ->
  is_failed n = false /\ n_role n = Leader /\ Ready n = true /\
  reads_ok (promised_at s) (Some (mkBarrier a k (n_ballot n) (n_commitIndex n))) (put s a (Up n') out).
Proof.
  intros H Ha Hn Hr E. pose proof (reached_reads s H) as Hok. pose proof (rk_node _ _ _ Hok a n Ha Hn) as Hs.
  destruct (reached_refines A cfgs W gc W_noop s H) as (w & _ & R & _). destruct (rf_up _ _ _ _ _ R a n Ha Hn) as (_ & _ & Ho).
  destruct (ReadIndex_safe _ _ _ now n n' k out None Ho (ro_reads _ Hr) Hs E) as (F & Ek & L & Hrd & Hans).
  split_and!; [done..|]. set (f := mkBarrier a k (n_ballot n) (n_commitIndex n)). specialize (Hs F).
  assert (Ef : follows (Some f) a = Some (k, n_ballot n, n_commitIndex n)) by (simpl; by rewrite Z.eqb_refl).
  eapply (reads_put (promised_at s) None (Some f) s a _ out); try done.
  - by eapply c_read.
  - intros y Hy. simpl. by rewrite (proj2 (Z.eqb_neq a y)).
  - intros env b p c j He Em. destruct (rk_acks _ _ _ Hok env b p c j He Em) as [Hb _]. split; [done|].
    intros f' [= <-] -> Hj. exfalso. destruct Hb as (env' & c' & He' & Em').
    destruct (rk_beats _ _ _ Hok env' _ c' j He' Em') as [Eb _].
    destruct (so_office _ _ _ _ Hs ltac:(by rewrite L)) as (_ & Es & _). simpl in *.
    destruct (so_own _ _ _ _ Hs (n_ballot n) j) as (_ & _ & Hle).
    { exists env', c'. split; [done|]. split; [|done]. rewrite <- Eb, Es. apply (config_defaults A cfgs gc a Ha). }
    specialize (Hle eq_refl). lia.
  - intros m [= <-]. apply (Hans (follows (Some f) a)). by right.
  - done.
  - done.
  - done.
  - done.
  - intros b j Hb. by left.
Qed.

(** When it completes, a majority had promised nothing above the ballot. *)
Lemma barrier_quorum s a now n n' k out s' m i : reached s -> a ∈ A -> hosts s a = Up n -> roomy n ->
  ReadIndex now n = Some (n', k, out, None) -> rtc (serving a) (put s a (Up n') out) s' ->
  hosts s' a = Up m -> is_failed m = false -> ReadReady k i ∈ n_events m ->
  i = n_commitIndex n /\ exists Q, is_quorum A Q /\ forall y, y ∈ Q -> Less (n_ballot n) (promised_at s y) = false.
Proof.
  intros H Ha Hn Hr E Hsteps Hm F Hev. destruct (barrier_begins s a now n n' k out H Ha Hn Hr E) as (Fn & L & _ & Hok1).
  set (f := mkBarrier a k (n_ballot n) (n_commitIndex n)) in *. assert (St : cstep s (put s a (Up n') out)) by by eapply c_read.
  assert (H1 : reached (put s a (Up n') out)) by by eapply reached_step.
  assert (Hok : reads_ok (promised_at s) (Some f) s').
  { eapply (reads_steps _ (Some f) (serving a)); [exact H1| | |intros ? [= <-]; exists n'; by rewrite hosts_put, decide_True|exact Hsteps|exact Hok1].
    - intros x Hx. by destruct (host_keeps s _ x H St Hx).
    - intros s1 s2 [? ?]. split; [done|]. by intros ? [= <-]. }
  assert (H' : reached s').
  { clear -H1 Hsteps. induction Hsteps as [|? ? ? [St _] _ IH]; [done|]. apply IH. by eapply reached_step. }
  pose proof (rk_node _ _ _ Hok a m Ha Hm F) as Hs. pose proof (so_target _ _ _ _ Hs) as Ht. unfold followed in Ht. simpl in Ht.
  rewrite Z.eqb_refl in Ht. destruct Ht as (_ & _ & Ht). destruct (Ht i Hev) as (Ei & Q & HQ & Hsup). split; [done|].
  assert (Hy : forall y, y ∈ Q -> y ∈ A /\ Less (n_ballot n) (promised_at s y) = false).
  { intros y Hy. destruct (Hsup y Hy) as [->|(env & c & j & He & Ef & Em & Hj)].
    - rewrite (cc_self _ _ _ (config_defaults A cfgs gc a Ha)). split; [done|].
      pose proof (rk_node _ _ _ (reached_reads s H) a n Ha Hn Fn) as Hs0.
      rewrite (promised_up s a n H Ha Hn Fn).
      by destruct (so_office _ _ _ _ Hs0 ltac:(by rewrite L)).
    - rewrite <- Ef. split; [by apply (net_member s' env H')|].
      destruct (rk_acks _ _ _ Hok env _ _ c j He Em) as [_ Hp]. by apply (Hp f). }
  exists Q. split; [split; [intros y Hq; by apply Hy|exact HQ]|]. intros y Hq. by apply Hy.
Qed.

(** ** Where entries come from *)

(** An entry learned at a ballot, and a message that tells of one, have the
    leader of that ballot behind them, who put the slot on its disk first. *)
Record traced (w : World) : Prop := {
  tr_disk : forall x k e, ms_chosen (a_disk (nodes w x)) !! k = Some e ->
    is_Some (ms_chosen (a_disk (nodes w (bal_node (en_ballot e)))) !! k);
  tr_said : forall l k b v, sent w l (Learn k b v) -> is_Some (ms_chosen (a_disk (nodes w (bal_node b))) !! k);
}.

(** A step that puts nothing on disk and tells nothing new. *)
Lemma traced_same w w' : (forall x, ms_chosen (a_disk (nodes w' x)) = ms_chosen (a_disk (nodes w x))) ->
  (forall l k b v, sent w' l (Learn k b v) -> sent w l (Learn k b v)) -> traced w -> traced w'.
Proof.
  intros Hd Hs [T1 T2]. split.
  - intros x k e. rewrite !Hd. apply T1.
  - intros l k b v Hl. rewrite Hd. by eapply T2, Hs.
Qed.

Lemma set_local_chosen w a l : ms_chosen (a_disk (l_node l)) = ms_chosen (a_disk (nodes w a)) ->
  forall x, ms_chosen (a_disk (nodes (set_local w a l) x)) = ms_chosen (a_disk (nodes w x)).
Proof.
  intros E x. simpl. destruct (decide (a = x)) as [->|Hne]; [by rewrite fn_lookup_insert|by rewrite fn_lookup_insert_ne].
Qed.

Lemma traced_learn w a e : (exists l, sent w l (Learn (en_slot e) (en_ballot e) (en_value e))) \/ bal_node (en_ballot e) = a ->
  traced w -> traced (set_local w a (mkLocal (nodes w a <| a_disk := SaveChosen (a_disk (nodes w a)) e |>) (sent w) (votes w))).
Proof.
  intros Hor [T1 T2]. set (w' := set_local _ _ _).
  assert (Hmono : forall x k, is_Some (ms_chosen (a_disk (nodes w x)) !! k) -> is_Some (ms_chosen (a_disk (nodes w' x)) !! k)).
  { intros x k Hk. unfold w'. simpl. destruct (decide (a = x)) as [->|Hne]; [|by rewrite fn_lookup_insert_ne].
    rewrite fn_lookup_insert. simpl. rewrite lookup_insert. case_decide; eauto. }
  split; [|intros l k b v Hl; by eapply Hmono, T2]. intros x k e'. unfold w' at 1. simpl.
  destruct (decide (a = x)) as [->|Hne]; [|rewrite fn_lookup_insert_ne by done; intros He; by eapply Hmono, T1].
  rewrite fn_lookup_insert. simpl. rewrite lookup_insert. case_decide as D; [|intros He; by eapply Hmono, T1].
  intros [= <-]. subst k. destruct Hor as [[l Hl]| ->]; [by eapply Hmono, T2|].
  unfold w'. simpl. rewrite fn_lookup_insert. simpl. rewrite lookup_insert_eq. by eexists.
Qed.

Lemma traced_tell w a k e : ms_chosen (a_disk (nodes w a)) !! k = Some e ->
  traced w -> traced (set_local w a (mkLocal (nodes w a) (say a (Learn k (en_ballot e) (en_value e)) (sent w)) (votes w))).
Proof.
  intros He [T1 T2]. pose proof (fun l E => set_local_chosen w a l E) as Hd. split.
  - intros x i e'. rewrite !Hd by done. apply T1.
  - intros l i b v [Hl|[-> [= -> -> ->]]]; rewrite !Hd by done; [by eapply T2|by eapply T1].
Qed.

Lemma nstep_traced w a l : WInv A W w -> nstep A W a (local_of w a) l -> traced w -> traced (set_local w a l).
Proof.
  intros I St Ht. pose proof (wi_nodes _ _ _ I a) as N. remember (local_of w a) as l0 eqn:E.
  destruct St; injection E as -> -> ->; simpl in *;
    try (apply (traced_same w); [by apply set_local_chosen; simpl; congruence| |done];
         simpl; intros l' k' b' v' Hl; first [exact Hl|destruct Hl as [?|[_ Hl]]; [done|by subst m || discriminate Hl]]; fail).
  - apply traced_learn; [|done]. destruct H as [?|(Hl & Hr & Eb & _)]; [by left|right].
    rewrite Eb. by destruct (no_ballot _ _ _ _ _ _ N Hl ltac:(by rewrite Hr)).
  - by eapply traced_tell.
Qed.

Lemma world_traced w : rtc (wstep A W) w_init w -> traced w.
Proof.
  intros Hr. cut (WInv A W w /\ traced w); [tauto|]. revert w Hr. refine (rtc_ind_r _ w_init _ _).
  - split; [apply WInv_init|]. split; [intros x k e; simpl; by rewrite lookup_empty|by intros l k b v []].
  - intros w w' _ St [I Ht]. split; [by eapply wstep_inv; [apply gc|..]|]. destruct St as [c l Hc Hl|c y Hc _ (Hd & _)].
    + by apply nstep_traced.
    + apply (traced_same w); [|done|done]. apply set_local_chosen. simpl. by rewrite Hd.
Qed.

(** ** A majority with no higher promise leaves nothing beyond the index *)

Lemma barrier_covers s a n Q x : reached s -> a ∈ A -> hosts s a = Up n -> roomy n -> is_failed n = false ->
  n_role n = Leader -> Ready n = true -> is_quorum A Q -> (forall y, y ∈ Q -> Less (n_ballot n) (promised_at s y) = false) ->
  x ∈ A -> ms_chosen (host_disk (hosts s x)) !! (n_commitIndex n + 1) = None.
Proof.
  intros H Ha Hn Hr F L Hready HQ Hlow Hx. apply eq_None_not_Some. intros [e He].
  destruct (reached_refines A cfgs W gc W_noop s H) as (w & Hw & R & I).
  destruct (rf_up _ _ _ _ _ R a n Ha Hn) as (Ea & [G _] & _). destruct (g_mem _ _ _ _ _ _ _ G F) as [_ _ M3].
  pose proof (rk_node _ _ _ (reached_reads s H) a n Ha Hn F) as Hs.
  pose proof (wi_nodes _ _ _ I a) as Na. rewrite Ea in Na.
  assert (Hlive : a_live (absn n) = true) by (simpl; by rewrite F). assert (Hnf : a_role (absn n) <> Follower) by (simpl; by rewrite L).
  set (c := n_commitIndex n) in *. destruct (disk_chosen A cfgs W s w x _ e R I Hx He) as (Q' & HQ' & Hv).
  destruct (Less_total (en_ballot e) (n_ballot n)) as [Eb|[Hlt|Hgt]].
  - (* chosen by this leader, which would know it *)
    destruct (so_office _ _ _ _ Hs ltac:(by rewrite L)) as (_ & Eself & _). rewrite (cc_self _ _ _ (config_defaults A cfgs gc a Ha)) in Eself.
    rewrite <- (host_world A cfgs W s w x R Hx) in He. destruct (tr_disk _ (world_traced w Hw) x _ e He) as [e' He'].
    rewrite Eb, Eself, Ea in He'. simpl in He'. rewrite <- M3 in He'.
    pose proof (cm_stop _ _ (so_commit _ _ _ _ Hs) (ro_chosen _ Hr)) as Hnone. fold c in Hnone. congruence.
  - (* chosen before, so reported to this leader *)
    assert (HQp : is_quorum A (dom (a_promises (absn n)))).
    { split; [|rewrite size_dom; by apply (no_lead _ _ _ _ _ _ Na)].
      intros y [m Hm]%elem_of_dom. by destruct (no_coll _ _ _ _ _ _ Na Hlive Hnf y m Hm). }
    destruct (quorum_meet A _ _ HQp HQ') as (y & [m Hm]%elem_of_dom & Hy).
    destruct (no_coll _ _ _ _ _ _ Na Hlive Hnf y m Hm) as (_ & Ep & [_ _ P3] & _).
    destruct (so_top _ _ _ _ Hs L) as (top & Eown & Hfrom & Hne & Hrep & Horig).
    assert (Htop : 0 <= top < 2 ^ 64 - 1).
    { pose proof (u64_range (fromSlot (n_phase1 n) - 1)) as Hu. unfold in_u64 in Hu. split; [lia|].
      destruct Horig as [->|[(z & mz & pv & Hz & Hpv & <-)|[ez Hz]]]; [lia| |].
      - pose proof (ro_promises _ Hr z mz pv Hz Hpv). lia.
      - pose proof (ro_chosen _ Hr _ _ Hz). lia. }
    rewrite u64_id in Eown by (unfold in_u64; lia).
    assert (Hc : top + 1 <= c).
    { unfold Ready, unsafe in Hready. rewrite (g_cfg _ _ _ _ _ _ _ G), (cc_safe _ _ _ (config_defaults A cfgs gc a Ha)) in Hready.
      destruct (is_role_spec n Leader); [|done]. simpl in Hready. apply Z.leb_le in Hready. rewrite <- Eown. exact Hready. }
    assert (Hfs : fromSlot (n_phase1 n) <= c + 1).
    { pose proof (ro_from _ Hr). destruct (Z.le_gt_cases (fromSlot (n_phase1 n)) 0) as [|Hpos]; [lia|].
      rewrite u64_id in Hfrom by (unfold in_u64; lia). lia. }
    destruct (P3 (c + 1) (en_ballot e) (en_value e) Hfs (Hv y Hy)) as (pv & [Hin Hslot]%slot_report_elem & _).
    { rewrite Ep. exact Hlt. }
    assert (Hle : pv_slot pv <= top) by (apply (Hrep y m pv Hm Hin); rewrite Hslot; exact Hfs). lia.
  - (* chosen above, against the promises *)
    destruct (quorum_meet A Q Q' HQ HQ') as (y & Hy & Hy'). specialize (Hlow y Hy). specialize (Hv y Hy').
    assert (HyA : y ∈ A) by (by apply HQ).
    destruct (no_votes _ _ _ _ _ _ (wi_nodes _ _ _ I y) _ Hv) as [Hp _]. simpl in Hp.
    unfold promised_at in Hlow. rewrite <- (host_world A cfgs W s w y R HyA) in Hlow. ballots.
Qed.

(** Linearizable reads of the log: when a read barrier that a leader began in
    state [s] completes while the leader has gone on running, with index [i],
    then every slot up to which some host's log was complete in [s] is within
    [i], which is the leader's commit index in [s]. *)
Theorem read_index_covers s a now n n' k out s' m i x j :
  reached s -> a ∈ A -> hosts s a = Up n -> roomy n -> ReadIndex now n = Some (n', k, out, None) ->
  rtc (serving a) (put s a (Up n') out) s' -> hosts s' a = Up m -> is_failed m = false -> ReadReady k i ∈ n_events m ->
  x ∈ A -> (forall t, 0 < t <= j -> is_Some (ms_chosen (host_disk (hosts s x)) !! t)) ->
  i = n_commitIndex n /\ j <= i.
Proof.
  intros H Ha Hn Hr E Hsteps Hm F Hev Hx Hj.
  destruct (barrier_quorum s a now n n' k out s' m i H Ha Hn Hr E Hsteps Hm F Hev) as (-> & Q & HQ & Hlow). split; [done|].
  destruct (barrier_begins s a now n n' k out H Ha Hn Hr E) as (Fn & L & Hrd & _).
  pose proof (barrier_covers s a n Q x H Ha Hn Hr Fn L Hrd HQ Hlow Hx) as Hnone.
  destruct (Z.le_gt_cases j (n_commitIndex n)) as [|Hgt]; [done|exfalso].
  destruct (Hj (n_commitIndex n + 1)) as [e He]; [pose proof (ro_commit _ Hr); lia|]. congruence.
Qed.
End Barriers.
