(* ===== verification/Replica.v ===== *)
(** One replica (internal/replica/core.go): the log node of Replog.v joined
    with the state machine of State.v.  The Go [Core] holds two pointers that
    nothing else writes through, so a record of the two states is the same
    thing. *)

From S2P Require Import Prelude GoStd Paxos Ledger Game Records Codec Commands Compute State Changes.
From S2P Require Import TournamentInv PlayInv LedgerInv Machine Reach Guarantees Blind Store Replog.

Record Core (T : Type) := mkCore { log : Node T; state : State }.
Arguments mkCore {T} log state.
Arguments log {T} c.
Arguments state {T} c.

(** One slot the state machine consumed; [ap_cmd] has the command and the
    result, which the Go struct holds in [Key], [Command] and [Result] and
    leaves zero for a no-op. *)
Record Applied := mkApplied {
  ap_slot : Slot;
  ap_cmd : option (Command * Result);
  ap_noop : bool;
  ap_err : option error;
}.

Definition not_chosen : error := "replica: slot within the commit index is not chosen".

Inductive SubmitError := BadCommand (err : error) | LogError (err : CallError).

Record Status := mkStatus {
  sta_self : NodeID;
  sta_leader : NodeID;
  sta_role : Role;
  sta_ballot : Ballot;
  sta_ready : bool;
  sta_commit : Slot;
  sta_applied : Slot;
  sta_hash : bytes;
  sta_tournaments : Z;
}.

Section Replica.
Context `{U : Unicode} {T : Type} `{ST : Store T} (deal_fuel : nat).
Implicit Types c : Core T.

Definition NewCore (cfg : Config) (store : T) (rng : Rng) : Core T + error :=
  match New cfg store rng with inl n => inl (mkCore n NewState) | inr err => inr err end.

Definition core_Step (now : Z) (env : Envelope) c : option (Core T * list Envelope) :=
  '(n, out) ← Step now env (log c); Some (mkCore n (state c), out).

Definition core_Tick (now : Z) c : option (Core T * list Envelope) :=
  '(n, out) ← Tick now (log c); Some (mkCore n (state c), out).

Definition Submit (now : Z) (cmd : Command) c : option (Core T * list Envelope * option SubmitError) :=
  match ValidateKey (cmd_key cmd) with
  | Some err => Some (c, [], Some (BadCommand ("replica: submit: " +:+ err)))
  | None =>
      match Encode cmd with
      | inr err => Some (c, [], Some (BadCommand ("replica: submit: " +:+ err)))
      | inl v =>
          '(n, out, err) ← Propose now (string_of v) (log c);
          Some (mkCore n (state c), out, option_map LogError err)
      end
  end.

Definition core_ReadIndex (now : Z) c : option (Core T * Z * list Envelope * option CallError) :=
  '(n, seq, out, err) ← ReadIndex now (log c); Some (mkCore n (state c), seq, out, err).

(** The applied slot is reported with [None] when the state machine has caught
    up; the outer [None] is a run-time panic. *)
Definition ApplyNext c : option (Core T * option Applied) :=
  let next := u64 (applied (state c) + 1) in
  exit_if n_commitIndex (log c) <? next with Some (c, None);
  match n_chosen (log c) !! next with
  | None => Some (mkCore (log c) (Skip (state c) next), Some (mkApplied next None true (Some not_chosen)))
  | Some e =>
      exit_if NoOp e with Some (mkCore (log c) (Skip (state c) next), Some (mkApplied next None true None));
      match Decode (bytes_of (en_value e)) with
      | inr err => Some (mkCore (log c) (Skip (state c) next), Some (mkApplied next None true (Some err)))
      | inl cmd =>
          '(st, res) ← Apply deal_fuel (state c) next (en_ballot e) cmd;
          Some (mkCore (log c) st, Some (mkApplied next (Some (cmd, res)) false None))
      end
  end.

(** Every round applies one slot, so the distance to the commit index bounds
    the loop ([ApplyCommitted_catches_up]). *)
Fixpoint applyCommitted (fuel : nat) c : option (Core T * list Applied) :=
  '(c, a) ← ApplyNext c;
  match a with
  | None => Some (c, [])
  | Some a =>
      match fuel with
      | O => None
      | S f => '(c, l) ← applyCommitted f c; Some (c, a :: l)
      end
  end.
Definition ApplyCommitted c : option (Core T * list Applied) :=
  applyCommitted (Z.to_nat (n_commitIndex (log c) - applied (state c))) c.

Definition core_Events c : Core T * list Event :=
  let '(n, evs) := Replog.Events (log c) in (mkCore n (state c), evs).

Definition core_Failed c : option error := n_failed (log c).

Definition status c : Status :=
  let '(leader, lb, _) := Leader_known (log c) in
  mkStatus (Self (n_cfg (log c))) leader (n_role (log c)) lb (Ready (log c)) (n_commitIndex (log c))
    (applied (state c)) (hash (state c)) (TournamentCount (state c)).

(** * What applying a slot does to the state machine *)

Definition apply_at (st : State) (slot : Slot) (b : Ballot) (v : Value) : option State :=
  exit_if slen v =? 0 with Some (Skip st slot);
  match Decode (bytes_of v) with
  | inr _ => Some (Skip st slot)
  | inl cmd => fst <$> Apply deal_fuel st slot b cmd
  end.

(** [ApplyNext] on a slot that is chosen does what its entry says, and reports
    an error only of a value that does not decode. *)
Lemma ApplyNext_at c e k : 0 <= k < 2 ^ 63 -> applied (state c) = k -> k < n_commitIndex (log c) ->
  n_chosen (log c) !! (k + 1) = Some e ->
  match apply_at (state c) (k + 1) (en_ballot e) (en_value e) with
  | None => ApplyNext c = None
  | Some st => exists a, ApplyNext c = Some (mkCore (log c) st, Some a) /\ ap_slot a = k + 1 /\
      forall err, ap_err a = Some err -> slen (en_value e) <> 0 /\ Decode (bytes_of (en_value e)) = inr err
  end.
Proof.
  intros Hk Ha Hc He. unfold ApplyNext, apply_at. rewrite Ha.
  assert (Eu : u64 (k + 1) = k + 1) by (apply u64_id; unfold in_u64; lia). rewrite Eu.
  destruct (Z.ltb_spec (n_commitIndex (log c)) (k + 1)); [lia|]. rewrite He. unfold NoOp.
  destruct (Z.eqb_spec (slen (en_value e)) 0) as [|Hv]; [eexists; split; [done|]; split; [done|by intros err [= ]]|].
  destruct (Decode _) as [cmd|err].
  - destruct (Apply _ _ _ _ _) as [[st res]|]; [|done]. eexists. split; [done|]. split; [done|by intros err [= ]].
  - eexists. split; [done|]. split; [done|intros err' [= ->]; by split].
Qed.

(** It does nothing once the state machine has caught up. *)
Lemma ApplyNext_done c : 0 <= applied (state c) < 2 ^ 63 -> n_commitIndex (log c) <= applied (state c) -> ApplyNext c = Some (c, None).
Proof.
  intros Ha Hc. unfold ApplyNext. assert (Eu : u64 (applied (state c) + 1) = applied (state c) + 1) by (apply u64_id; unfold in_u64; lia).
  rewrite Eu. destruct (Z.ltb_spec (n_commitIndex (log c)) (applied (state c) + 1)); [done|lia].
Qed.

(** A value, and a log, whose commands have fields in the range of their Go
    types and seeds whose deal ends within the fuel. *)
Definition value_ok (v : Value) : Prop :=
  slen v = 0 \/ exists cmd, Decode (bytes_of v) = inl cmd /\ command_ok deal_fuel cmd.
Definition log_ok (L : Slot -> Value -> Prop) : Prop := forall k v, L k v -> value_ok v.

Lemma Skip_applied st slot : applied st < slot -> applied (Skip st slot) = slot.
Proof. intros H. unfold Skip. by rewrite (proj2 (Z.leb_gt _ _) H). Qed.

Lemma apply_at_total st slot b v : value_ok v -> reachable deal_fuel st -> applied st < slot ->
  exists st', apply_at st slot b v = Some st' /\ slot_step deal_fuel st st' /\ applied st' = slot.
Proof.
  intros HD Hr Hlt. unfold apply_at.
  assert (Hskip : exists st', Some (Skip st slot) = Some st' /\ slot_step deal_fuel st st' /\ applied st' = slot).
  { eexists. split; [done|]. split; [apply st_skip|by apply Skip_applied]. }
  destruct (Z.eqb_spec (slen v) 0) as [|Hv]; [done|]. destruct HD as [|(cmd & E & Ok)]; [done|]. rewrite E.
  destruct (Apply_reaches deal_fuel st slot b cmd Hr Ok Hlt) as (st' & res & EA & Ha). rewrite EA.
  exists st'. split; [done|]. split; [by eapply st_apply|done].
Qed.

Lemma apply_at_blind st st' slot b b' v st1 st1' : blind st = blind st' ->
  apply_at st slot b v = Some st1 -> apply_at st' slot b' v = Some st1' -> blind st1 = blind st1'.
Proof.
  intros E. unfold apply_at. destruct (_ =? 0).
  { intros [= <-] [= <-]. by rewrite <- !Skip_blind, E. }
  destruct (Decode _) as [cmd|]; [|intros [= <-] [= <-]; by rewrite <- !Skip_blind, E].
  pose proof (Apply_blind deal_fuel st slot b cmd) as H. pose proof (Apply_blind deal_fuel st' slot b' cmd) as H'.
  rewrite E, H' in H. destruct (Apply _ st _ _ _) as [[x r]|]; [|done]. destruct (Apply _ st' _ _ _) as [[x' r']|]; [|done].
  intros [= <-] [= <-]. symmetry. apply (inj Some). exact (f_equal (option_map fst) H).
Qed.

(** ** Replaying a log *)

(** [st] has consumed the slots up to [k] of a log whose slots hold [L]. *)
Inductive replayed (L : Slot -> Value -> Prop) : Slot -> State -> Prop :=
| rp_start : replayed L 0 NewState
| rp_next k st b v st' : replayed L k st -> L (k + 1) v -> apply_at st (k + 1) b v = Some st' -> replayed L (k + 1) st'.

Lemma replayed_mono (L L' : Slot -> Value -> Prop) k st : (forall j v, L j v -> L' j v) -> replayed L k st -> replayed L' k st.
Proof. intros H Hr. induction Hr; [constructor|]. eapply rp_next; eauto. Qed.

Lemma replayed_state L k st : log_ok L -> replayed L k st -> 0 <= k /\ reachable deal_fuel st /\ applied st = k.
Proof.
  intros HD Hr. induction Hr as [|k st b v st' _ (Hk & IH & Ha) Hv E]; [split_and!; [done|apply rtc_refl|done]|].
  destruct (apply_at_total st (k + 1) b v (HD _ _ Hv) IH) as (st2 & E2 & Hs & Ha2); [lia|].
  rewrite E2 in E. injection E as ->. split_and!; [lia| |done]. by eapply rtc_r.
Qed.

(** Two replays of logs that agree are the same up to ballots, and the longer
    one went through the shorter. *)
Lemma replayed_agree L L' k st st' : (forall j v v', L j v -> L' j v' -> v = v') ->
  replayed L k st -> replayed L' k st' -> blind st = blind st'.
Proof.
  intros HL Hr. revert st'. induction Hr as [|k st b v st1 Hr IH Hv E]; intros st' Hr'.
  - inversion Hr' as [|k' x b' v' ? Hr1]; [done|]. subst. exfalso.
    assert (0 <= k'); [|lia]. clear - Hr1. induction Hr1; lia.
  - inversion Hr' as [Hz|k' x b' v' y Hr1 Hv' E' Hk]; subst.
    { exfalso. assert (0 <= k); [|lia]. clear - Hr. induction Hr; lia. }
    assert (k' = k) as -> by lia. rewrite (HL _ _ _ Hv Hv') in E. by eapply apply_at_blind; [apply IH|..].
Qed.

Lemma replayed_prefix L k st j : log_ok L -> replayed L k st -> 0 <= j <= k ->
  exists stj, replayed L j stj /\ later deal_fuel stj st.
Proof.
  intros HD Hr. revert j. induction Hr as [|k st b v st1 Hr IH Hv E]; intros j Hj.
  - assert (j = 0) as -> by lia. exists NewState. split; [constructor|apply rtc_refl].
  - destruct (decide (j = k + 1)) as [-> |]; [exists st1; split; [by eapply rp_next|apply rtc_refl]|].
    destruct (IH j) as (stj & Hj1 & Hl); [lia|]. exists stj. split; [done|]. eapply rtc_r; [exact Hl|].
    destruct (replayed_state L k st HD Hr) as (_ & Hs & Ha).
    destruct (apply_at_total st (k + 1) b v (HD _ _ Hv) Hs) as (st2 & E2 & Hst & _); [lia|]. rewrite E2 in E. by injection E as <-.
Qed.

Lemma replayed_slots L k st j : replayed L k st -> 0 < j <= k -> exists v, L j v.
Proof.
  intros Hr. induction Hr as [|k st b v st1 Hr IH Hv E]; intros Hj; [lia|].
  destruct (decide (j = k + 1)) as [-> |]; [by exists v|apply IH; lia].
Qed.

(** ** Catching up *)

(** The slots from [k + 1] on, [m] of them. *)
Definition slots_after (k : Slot) (m : nat) : list Slot := map (fun i => k + Z.of_nat i) (seq 1 m).

Lemma applyCommitted_spec L m c k : log_ok L -> n_commitIndex (log c) < 2 ^ 63 -> k < 2 ^ 63 ->
  replayed L k (state c) -> Z.to_nat (n_commitIndex (log c) - k) = m ->
  (forall j, k < j <= n_commitIndex (log c) -> exists e, n_chosen (log c) !! j = Some e /\ L j (en_value e)) ->
  exists st l, applyCommitted m c = Some (mkCore (log c) st, l) /\ replayed L (Z.max k (n_commitIndex (log c))) st /\
    map ap_slot l = slots_after k m /\ Forall (fun a => ap_err a = None) l /\ later deal_fuel (state c) st.
Proof.
  intros HD Hb Hk63. revert c k Hb Hk63. induction m as [|m IH]; intros [n st] k Hb Hk63 Hr Hm Hc; simpl in *;
    destruct (replayed_state _ _ _ HD Hr) as (Hk & Hs & Ha).
  - exists st, []. rewrite ApplyNext_done by (simpl; lia). simpl.
    replace (Z.max k (n_commitIndex n)) with k by lia. split_and!; [done..|apply rtc_refl].
  - destruct (Hc (k + 1)) as (e & He & HL); [lia|].
    pose proof (ApplyNext_at (mkCore n st) e k) as HN. simpl in HN.
    destruct (apply_at_total st (k + 1) (en_ballot e) (en_value e) (HD _ _ HL) Hs) as (st1 & E1 & S1 & _); [lia|].
    rewrite E1 in HN. destruct HN as (a & EN & Hslot & Herr); [lia|done|lia|done|]. rewrite EN. cbn [mbind option_bind].
    assert (Ha0 : ap_err a = None).
    { destruct (ap_err a) as [err|] eqn:Ee; [|done]. destruct (Herr err eq_refl) as [Hv Ed].
      destruct (HD _ _ HL) as [|(cmd & Ec & _)]; congruence. }
    assert (R1 : replayed L (k + 1) st1) by by eapply rp_next.
    destruct (IH (mkCore n st1) (k + 1)) as (st2 & l & E2 & R2 & Hl & Hne & Hlat); [done|lia|done|simpl; lia|intros j Hj; apply Hc; simpl in *; lia|].
    rewrite E2. cbn [mbind option_bind]. exists st2, (a :: l). simpl in *. split_and!; [done| | |by constructor|by eapply rtc_l].
    + by replace (Z.max k (n_commitIndex n)) with (Z.max (k + 1) (n_commitIndex n)) by lia.
    + rewrite Hl, Hslot. unfold slots_after. simpl. f_equal. rewrite <- (seq_shift m 1), map_map. apply map_ext. intros i. lia.
Qed.
End Replica.
