(* ===== verification/ReplicaSafety.v ===== *)
(** A cluster of replicas: each host of Cluster.v runs the [Core] of Replica.v,
    its log node together with a state machine that is lost in a crash and
    rebuilt from the log.  Agreement on the log becomes agreement of the
    replicas: any two that have applied the same number of slots hold the same
    tournaments, results and ledger, and the same hash. *)

From stdpp Require Import functions.
From S2P Require Import Prelude GoStd Paxos Ledger Game Records Codec Commands Compute State Changes.
From S2P Require Import TournamentInv PlayInv LedgerInv Machine Reach Guarantees Blind.
From S2P Require Import Voting Store Replog LogSpec LogInv NodeSteps Handlers Drive Cluster Runs LogSafety Replica.

Record Service (T : Type) := mkService { sv_logs : Cluster T; sv_machines : NodeID -> State }.
Arguments mkService {T} sv_logs sv_machines.
Arguments sv_logs {T} s.
Arguments sv_machines {T} s.

Section Service.
Context `{U : Unicode} {T : Type} `{ST : Store T} (A : gset NodeID) (cfgs : NodeID -> Config)
  (deal_fuel : nat) (wanted : Command -> Prop).
Implicit Types (s : Service T) (c : Core T).

(** What the log may hold: the no-op and the encodings of the commands that
    clients submit. *)
Definition encoded (v : Value) : Prop :=
  v = "" \/ exists cmd b, wanted cmd /\ ValidateKey (cmd_key cmd) = None /\ Encode cmd = inl b /\ v = string_of b.

Definition core_at s (a : NodeID) (n : Node T) : Core T := mkCore n (sv_machines s a).

(** Host [a] has moved to core [c] and sent [out]. *)
Definition moved s (a : NodeID) (c : Core T) (out : list Envelope) : Service T :=
  mkService (put (sv_logs s) a (Up (log c)) out) (<[a := state c]> (sv_machines s)).

Inductive sstep s : Service T -> Prop :=
| sv_deliver a now env n c out : a ∈ A -> hosts (sv_logs s) a = Up n -> env ∈ net (sv_logs s) -> roomy n ->
    small_msg (env_msg env) -> core_Step now env (core_at s a n) = Some (c, out) -> sstep s (moved s a c out)
| sv_tick a now n c out : a ∈ A -> hosts (sv_logs s) a = Up n -> roomy n ->
    core_Tick now (core_at s a n) = Some (c, out) -> sstep s (moved s a c out)
| sv_submit a now cmd n c out err : a ∈ A -> hosts (sv_logs s) a = Up n -> roomy n -> wanted cmd ->
    Submit now cmd (core_at s a n) = Some (c, out, err) -> sstep s (moved s a c out)
| sv_read a now n c seq out err : a ∈ A -> hosts (sv_logs s) a = Up n -> roomy n ->
    core_ReadIndex now (core_at s a n) = Some (c, seq, out, err) -> sstep s (moved s a c out)
| sv_events a n : a ∈ A -> hosts (sv_logs s) a = Up n -> sstep s (moved s a (core_Events (core_at s a n)).1 [])
| sv_idle a n : a ∈ A -> hosts (sv_logs s) a = Up n -> sstep s (moved s a (core_at s a n) [])
| sv_apply a n c x : a ∈ A -> hosts (sv_logs s) a = Up n -> roomy n ->
    ApplyNext deal_fuel (core_at s a n) = Some (c, x) -> sstep s (moved s a c [])
| sv_crash a n : a ∈ A -> hosts (sv_logs s) a = Up n ->
    sstep s (mkService (put (sv_logs s) a (Down (n_store n)) []) (sv_machines s))
| sv_reopen a st st' : a ∈ A -> hosts (sv_logs s) a = Down st -> contents st' = contents st ->
    sstep s (mkService (put (sv_logs s) a (Down st') []) (sv_machines s))
| sv_restart a st rng c : a ∈ A -> hosts (sv_logs s) a = Down st -> NewCore (cfgs a) st rng = inl c -> roomy (log c) ->
    sstep s (moved s a c []).

Definition service_reached s : Prop := exists s0, cluster_start A (sv_logs s0) /\ rtc sstep s0 s.

(** ** The log of a service is a cluster *)

Lemma sstep_cstep s s' : sstep s s' -> cstep A cfgs encoded (sv_logs s) (sv_logs s').
Proof.
  intros [a now env n c out Ha Hn He Hr Hm E|a now n c out Ha Hn Hr E|a now cmd n c out err Ha Hn Hr Hw E
    |a now n c seq out err Ha Hn Hr E|a n Ha Hn|a n Ha Hn|a n c x Ha Hn Hr E|a n Ha Hn|a st st' Ha Hn E|a st rng c Ha Hn E Hr]; simpl.
  - unfold core_Step in E. apply bind_Some in E as ([n' o] & E & [= <- <-]). by eapply c_deliver.
  - unfold core_Tick in E. apply bind_Some in E as ([n' o] & E & [= <- <-]). by eapply c_tick.
  - unfold Submit in E. destruct (ValidateKey _) eqn:Ek; [injection E as <- <- _; by apply c_idle|].
    destruct (Encode cmd) as [b|] eqn:Ee; [|injection E as <- <- _; by apply c_idle].
    apply bind_Some in E as ([[n' o] e] & E & [= <- <- _]). eapply c_propose; [done..| |exact E].
    right. by exists cmd, b.
  - unfold core_ReadIndex in E. apply bind_Some in E as ([[[n' q] o] e] & E & [= <- _ <- _]). by eapply c_read.
  - by apply c_events.
  - by apply c_idle.
  - assert (El : log c = n).
    { unfold ApplyNext in E. repeat case_match; simplify_eq; try done. apply bind_Some in E as ([st r] & _ & [= <- _]). done. }
    rewrite El. by apply c_idle.
  - by apply c_crash.
  - by eapply c_reopen.
  - unfold NewCore in E. destruct (New (cfgs a) st rng) as [n|] eqn:EN; [|done]. injection E as <-. by eapply c_restart.
Qed.

Lemma service_log s : service_reached s -> reached A cfgs encoded (sv_logs s).
Proof.
  intros (s0 & H0 & Hr). exists (sv_logs s0). split; [done|]. clear H0. induction Hr as [|s1 s2 s3 St _ IH]; [apply rtc_refl|].
  eapply rtc_l; [by apply sstep_cstep|exact IH].
Qed.

(** ** What a machine has consumed *)

(** Slot [k] is chosen with value [v] on the disk of host [a]. *)
Definition chosen_on s (a : NodeID) (k : Slot) (v : Value) : Prop :=
  exists e, ms_chosen (host_disk (hosts (sv_logs s) a)) !! k = Some e /\ en_value e = v.

(** A running host's state machine is the replay of a prefix of its log. *)
Definition machine_ok s (a : NodeID) : Prop :=
  forall n, hosts (sv_logs s) a = Up n -> exists k, k < 2 ^ 63 /\ replayed deal_fuel (chosen_on s a) k (sv_machines s a).

Context (gc : group_config A cfgs).

Lemma sstep_chosen s s' a k v : service_reached s -> a ∈ A -> sstep s s' -> chosen_on s a k v -> chosen_on s' a k v.
Proof.
  intros H Ha St (e & He & <-).
  destruct (reached_refines A cfgs encoded gc (or_introl eq_refl) _ (service_log s H)) as (w & _ & R & I).
  destruct (cstep_refines A cfgs encoded gc (or_introl eq_refl) _ _ w I R (sstep_cstep s s' St)) as (w' & Hw & R').
  destruct (wsteps_keep A (gc_ids _ _ gc) encoded w w' a Hw I) as [_ _ _ K].
  rewrite (host_world A cfgs encoded _ w a R Ha), (host_world A cfgs encoded _ w' a R' Ha) in K.
  destruct (K k e He) as (e' & He' & Ev). by exists e'.
Qed.

(** What a running node has in memory is chosen on its disk, and it has every
    slot up to its commit index. *)
Lemma known_chosen s a n k e : service_reached s -> a ∈ A -> hosts (sv_logs s) a = Up n ->
  n_chosen n !! k = Some e -> chosen_on s a k (en_value e).
Proof.
  intros H Ha Hn He. destruct (reached_refines A cfgs encoded gc (or_introl eq_refl) _ (service_log s H)) as (w & _ & R & I).
  destruct (known_on_disk A cfgs encoded _ w a n k e R I Ha Hn He) as (e' & He' & Ev). by exists e'.
Qed.

Lemma committed_known s a n k : service_reached s -> a ∈ A -> hosts (sv_logs s) a = Up n ->
  0 < k <= n_commitIndex n -> exists e, n_chosen n !! k = Some e.
Proof.
  intros H Ha Hn Hk. destruct (reached_refines A cfgs encoded gc (or_introl eq_refl) _ (service_log s H)) as (w & _ & R & I).
  destruct (rf_up _ _ _ _ _ R a n Ha Hn) as (E & _).
  pose proof (no_commit _ _ _ _ _ _ (wi_nodes _ _ _ I a) k) as C. rewrite E in C. by apply C.
Qed.

(** Clients submit Go values, with seeds whose deal ends within the fuel. *)
Context (wanted_ok : forall cmd, wanted cmd -> (exists op, command_fits cmd op) /\ command_ok deal_fuel cmd).

(** The log holds the no-op and commands that decode. *)
Lemma encoded_ok v : encoded v -> value_ok deal_fuel v.
Proof.
  intros [->|(cmd & b & Hw & Hk & He & ->)]; [by left|right]. destruct (wanted_ok cmd Hw) as ((op & F) & Ok).
  destruct (command_back cmd op F) as (b' & E & D). rewrite He in E. injection E as <-.
  rewrite bytes_of_string_of by by eapply Encode_bytes. eexists. split; [exact D|].
  unfold command_ok in *. rewrite (cf_op _ _ F) in Ok. cbn [cmd_op]. by destruct op.
Qed.

Lemma chosen_encoded s a j v : service_reached s -> a ∈ A -> chosen_on s a j v -> encoded v.
Proof.
  intros H Ha (e & He & <-).
  destruct (reached_refines A cfgs encoded gc (or_introl eq_refl) _ (service_log s H)) as (w & _ & R & I).
  destruct (disk_chosen A cfgs encoded _ w a j e R I Ha He) as (Q & HQ & Hv). destruct (quorum_inhabited A Q HQ) as (c & Hc).
  destruct (so_vote _ _ _ _ _ (wi_says _ _ _ I) c j _ _ (Hv c Hc)) as [_ Hp].
  by apply (so_wanted _ _ _ _ _ (wi_says _ _ _ I) _ _ _ Hp).
Qed.

Lemma chosen_ok s a : service_reached s -> a ∈ A -> log_ok deal_fuel (chosen_on s a).
Proof. intros H Ha j v Hv. by eapply encoded_ok, chosen_encoded. Qed.

(** What [ApplyNext] does on a running replica. *)
Lemma apply_next_ok s a n k : service_reached s -> a ∈ A -> hosts (sv_logs s) a = Up n -> roomy n -> k < 2 ^ 63 ->
  replayed deal_fuel (chosen_on s a) k (sv_machines s a) ->
  exists c x, ApplyNext deal_fuel (core_at s a n) = Some (c, x) /\ log c = n /\
    ((n_commitIndex n <= k /\ x = None /\ state c = sv_machines s a) \/
     (k < n_commitIndex n /\ replayed deal_fuel (chosen_on s a) (k + 1) (state c) /\
      exists p, x = Some p /\ ap_slot p = k + 1 /\ ap_err p = None)).
Proof.
  intros H Ha Hn Hr Hk Hrp. pose proof (chosen_ok s a H Ha) as HD. destruct (replayed_state _ _ _ _ HD Hrp) as (H0 & Hs & Happ).
  destruct (Z.le_gt_cases (n_commitIndex n) k) as [Hc|Hc].
  - exists (core_at s a n), None. rewrite ApplyNext_done by (simpl; lia). split; [done|]. split; [done|]. by left.
  - destruct (committed_known s a n (k + 1) H Ha Hn) as (e & He); [lia|].
    pose proof (known_chosen s a n _ e H Ha Hn He) as Hv.
    pose proof (ApplyNext_at deal_fuel (core_at s a n) e k) as HN. simpl in HN.
    destruct (apply_at_total deal_fuel (sv_machines s a) (k + 1) (en_ballot e) (en_value e) (HD _ _ Hv) Hs) as (st & E & _ & _); [lia|].
    rewrite E in HN. destruct HN as (p & EN & Hp & Herr); [lia|done|done|done|]. rewrite EN.
    eexists _, _. split; [done|]. split; [done|]. right. split; [done|]. split; [by eapply rp_next|].
    exists p. split; [done|]. split; [done|]. destruct (ap_err p) as [err|] eqn:Ee; [|done].
    destruct (Herr err eq_refl) as [Hv0 Ed]. destruct (HD _ _ Hv) as [|(cmd & Ec & _)]; congruence.
Qed.

(** A step that leaves the state machine of [a] alone. *)
Lemma machine_same s a c out : service_reached s -> a ∈ A -> sstep s (moved s a c out) -> state c = sv_machines s a ->
  (exists n, hosts (sv_logs s) a = Up n) -> machine_ok s a -> machine_ok (moved s a c out) a.
Proof.
  intros H Ha St Hc [n Hn] Hm n' _. destruct (Hm n Hn) as (k & Hk & Hr). exists k. split; [done|]. simpl.
  rewrite fn_lookup_insert, Hc. eapply replayed_mono; [|exact Hr]. intros j v. by apply sstep_chosen.
Qed.

Lemma machine_other s s' a b : service_reached s -> b ∈ A -> sstep s s' -> a <> b ->
  hosts (sv_logs s') b = hosts (sv_logs s) b -> sv_machines s' b = sv_machines s b -> machine_ok s b -> machine_ok s' b.
Proof.
  intros H Hb St Hne Hh Hs Hm n Hn. rewrite Hh in Hn. destruct (Hm n Hn) as (k & Hk & Hr). exists k. split; [done|].
  rewrite Hs. eapply replayed_mono; [|exact Hr]. intros j v. by apply sstep_chosen.
Qed.

(** A step that moves host [a] keeps every machine a replay if it keeps [a]'s. *)
Lemma machines_moved s a c out b : service_reached s -> b ∈ A -> sstep s (moved s a c out) ->
  (a = b -> machine_ok (moved s a c out) b) -> machine_ok s b -> machine_ok (moved s a c out) b.
Proof.
  intros H Hb St Ha Hm. destruct (decide (a = b)) as [E|Hne]; [by apply Ha|].
  apply (machine_other s _ a b); try done; simpl; by rewrite fn_lookup_insert_ne.
Qed.

Lemma sstep_machines s s' : service_reached s -> sstep s s' ->
  (forall a, a ∈ A -> machine_ok s a) -> forall b, b ∈ A -> machine_ok s' b.
Proof.
  intros H St Hm b Hb. pose proof St as St0. specialize (Hm b Hb).
  destruct St as [a now env n c out Ha Hn He Hr Hs E|a now n c out Ha Hn Hr E|a now cmd n c out err Ha Hn Hr Hw E
    |a now n c seq out err Ha Hn Hr E|a n Ha Hn|a n Ha Hn|a n c x Ha Hn Hr E|a n Ha Hn|a st st' Ha Hn E|a st rng c Ha Hn E Hr];
    try (apply machines_moved; [done..| |done]; intros ->).
  - apply machine_same; try done; [|by exists n]. unfold core_Step in E. by apply bind_Some in E as ([n' o] & _ & [= <- <-]).
  - apply machine_same; try done; [|by exists n]. unfold core_Tick in E. by apply bind_Some in E as ([n' o] & _ & [= <- <-]).
  - apply machine_same; try done; [|by exists n]. unfold Submit in E. destruct (ValidateKey _); [by injection E as <- <- _|].
    destruct (Encode cmd) as [v|]; [|by injection E as <- <- _]. by apply bind_Some in E as ([[n' o] e] & _ & [= <- <- _]).
  - apply machine_same; try done; [|by exists n]. unfold core_ReadIndex in E.
    by apply bind_Some in E as ([[[n' q] o] e] & _ & [= <- _ <- _]).
  - apply machine_same; try done. by exists n.
  - apply machine_same; try done. by exists n.
  - intros n' _. destruct (Hm n Hn) as (k & Hk & Hrp). simpl. rewrite fn_lookup_insert.
    destruct (apply_next_ok s b n k H Hb Hn Hr Hk Hrp) as (c' & x' & E' & _ & Hcase). rewrite E in E'. injection E' as <- <-.
    assert (Hmono : forall j v, chosen_on s b j v -> chosen_on (moved s b c []) b j v) by (intros j v; by apply sstep_chosen).
    destruct Hcase as [(_ & _ & ->)|(Hlt & Hr' & _)].
    + exists k. split; [done|]. by eapply replayed_mono.
    + exists (k + 1). split; [pose proof (ro_commit _ Hr); lia|]. by eapply replayed_mono.
  - destruct (decide (a = b)) as [->|Hne]; [intros n' Hn'; simpl in Hn'; by rewrite fn_lookup_insert in Hn'|].
    apply (machine_other s _ a b); try done; simpl; by rewrite fn_lookup_insert_ne.
  - destruct (decide (a = b)) as [->|Hne]; [intros n' Hn'; simpl in Hn'; by rewrite fn_lookup_insert in Hn'|].
    apply (machine_other s _ a b); try done; simpl; by rewrite fn_lookup_insert_ne.
  - intros n' _. simpl. rewrite fn_lookup_insert. exists 0. split; [done|]. unfold NewCore in E.
    destruct (New _ _ _); [|done]. injection E as <-. constructor.
Qed.

Lemma service_machines s : service_reached s -> forall a, a ∈ A -> machine_ok s a.
Proof.
  intros (s0 & H0 & Hr). revert s Hr. refine (rtc_ind_r (fun s => forall a, a ∈ A -> machine_ok s a) s0 _ _).
  - intros a Ha n Hn. destruct H0 as [_ Hd]. destruct (Hd a Ha) as (st & E & _). congruence.
  - intros s s' Hr St IH. apply (sstep_machines s); [by exists s0|done|done].
Qed.

(** ** The guarantees *)

Lemma chosen_on_agree s a b k v u : service_reached s -> a ∈ A -> b ∈ A -> chosen_on s a k v -> chosen_on s b k u -> v = u.
Proof.
  intros H Ha Hb (e & He & <-) (e' & He' & <-).
  destruct (reached_refines A cfgs encoded gc (or_introl eq_refl) _ (service_log s H)) as (w & _ & R & I).
  exact (chosen_in_agree A encoded w k _ _ _ _ I (disk_chosen A cfgs encoded _ w a k e R I Ha He)
    (disk_chosen A cfgs encoded _ w b k e' R I Hb He')).
Qed.

(** C1. State machine replication: in every reachable state of the service,
    two running replicas that have applied the same number of slots hold the
    same state up to the ballots recorded in it, with the same hash; and one
    that has applied fewer slots holds a state the other went through. *)
Theorem replicas_agree s a b na nb :
  service_reached s -> a ∈ A -> b ∈ A -> hosts (sv_logs s) a = Up na -> hosts (sv_logs s) b = Up nb ->
  applied (sv_machines s a) <= applied (sv_machines s b) ->
  (exists st, Reach.later deal_fuel st (sv_machines s b) /\ blind st = blind (sv_machines s a) /\ hash st = hash (sv_machines s a)) /\
  (applied (sv_machines s a) = applied (sv_machines s b) ->
     blind (sv_machines s a) = blind (sv_machines s b) /\ hash (sv_machines s a) = hash (sv_machines s b)).
Proof.
  intros H Ha Hb Hna Hnb Hle.
  pose proof (chosen_ok s a H Ha) as Oa. pose proof (chosen_ok s b H Hb) as Ob.
  destruct (service_machines s H a Ha na Hna) as (k & _ & Rk), (service_machines s H b Hb nb Hnb) as (j & _ & Rj).
  destruct (replayed_state _ _ _ _ Oa Rk) as (Hk & _ & Ek), (replayed_state _ _ _ _ Ob Rj) as (_ & _ & Ej).
  rewrite Ek, Ej in *. assert (Hag : forall i v u, chosen_on s b i v -> chosen_on s a i u -> v = u)
    by (intros i v u; by apply chosen_on_agree).
  destruct (replayed_prefix _ _ _ _ k Ob Rj) as (st & Rst & Hl); [lia|].
  pose proof (replayed_agree _ _ _ _ _ _ Hag Rst Rk) as E. split.
  - exists st. split_and!; [done..|exact (f_equal hash E)].
  - intros ->. pose proof (replayed_agree _ _ _ _ _ _ Hag Rj Rk) as E'. split; [done|exact (f_equal hash (eq_sym E'))].
Qed.

(** What a replica's state machine holds: on every running replica it is a
    state the tournament service can reach, and each slot it has consumed
    holds the no-op or the encoding of a command with a valid key that a
    client submitted. *)
Theorem replica_state_reachable s a n :
  service_reached s -> a ∈ A -> hosts (sv_logs s) a = Up n ->
  reachable deal_fuel (sv_machines s a) /\
  forall k, 0 < k <= applied (sv_machines s a) -> exists v, chosen_on s a k v /\ encoded v.
Proof.
  intros H Ha Hn. pose proof (chosen_ok s a H Ha) as HD. destruct (service_machines s H a Ha n Hn) as (k & _ & Rk).
  destruct (replayed_state _ _ _ _ HD Rk) as (_ & Hr & Ek). rewrite Ek. split; [done|]. intros j Hj.
  destruct (replayed_slots _ _ _ _ j Rk Hj) as (v & Hv). exists v. split; [done|]. by eapply chosen_encoded.
Qed.

(** C28. [ApplyCommitted] ends with the state machine caught up: on every
    running replica it returns, without a panic, having applied exactly the
    slots between the applied slot and the commit index, one after the other,
    in order, and having left the log alone; a missing slot is never met, and every
    value decodes: no applied slot reports an error. *)
Theorem apply_committed_catches_up s a n :
  service_reached s -> a ∈ A -> hosts (sv_logs s) a = Up n -> roomy n ->
  let k := applied (sv_machines s a) in
  exists st l, ApplyCommitted deal_fuel (core_at s a n) = Some (mkCore n st, l) /\
    applied st = Z.max k (n_commitIndex n) /\ map ap_slot l = slots_after k (Z.to_nat (n_commitIndex n - k)) /\
    Forall (fun x => ap_err x = None) l /\ Reach.later deal_fuel (sv_machines s a) st.
Proof.
  intros H Ha Hn Hr. pose proof (chosen_ok s a H Ha) as HD. destruct (service_machines s H a Ha n Hn) as (k & Hk63 & Rk).
  destruct (replayed_state _ _ _ _ HD Rk) as (_ & Hs & Ek). rewrite Ek. simpl.
  destruct (applyCommitted_spec deal_fuel (chosen_on s a) (Z.to_nat (n_commitIndex n - k)) (core_at s a n) k HD)
    as (st & l & E & Rst & Hl & Hne & Hlat); [apply Hr|done|done|done| |].
  - intros j Hj. destruct (replayed_state _ _ _ _ HD Rk) as (H0 & _ & _).
    destruct (committed_known s a n j H Ha Hn) as (e & He); [simpl in Hj; lia|]. exists e. split; [done|].
    by apply (known_chosen s a n).
  - exists st, l. unfold ApplyCommitted. simpl. rewrite Ek. split; [done|]. split_and!; [|done..].
    by destruct (replayed_state _ _ _ _ HD Rst) as (_ & _ & ->).
Qed.
End Service.

(** * A concrete service *)

#[local] Existing Instance ascii_unicode.

(** A client opens a session. *)
Definition session_cmd : Command := nth 1 demo_cmds (demo_cmd 2 (Close "t1")).
Definition session_bytes : bytes := match Encode session_cmd with inl b => b | inr _ => [] end.
Definition session_value : Value := string_of session_bytes.
Definition session_wanted (cmd : Command) : Prop := cmd = session_cmd.
Definition session_only (v : Value) : Prop := v = session_value.

#[export] Instance session_only_dec v : Decision (session_only v).
Proof. unfold session_only. apply _. Defined.

Lemma session_wanted_ok cmd : session_wanted cmd -> (exists op, command_fits cmd op) /\ command_ok 1 cmd.
Proof.
  intros ->. split; [|exact I]. eexists. split; [reflexivity|unfold in_i64; cbn; lia|reflexivity|].
  cbn. repeat split; try reflexivity; try lia. repeat (constructor; [unfold is_byte; lia|]). constructor.
Qed.

Lemma session_encoded v : session_only v ->
  exists cmd b, session_wanted cmd /\ ValidateKey (cmd_key cmd) = None /\ Encode cmd = inl b /\ v = string_of b.
Proof.
  intros ->. exists session_cmd, session_bytes. split; [done|]. split; [by vm_compute|]. split; [|done].
  assert (E : match Encode session_cmd with inl _ => true | inr _ => false end = true) by by vm_compute.
  unfold session_bytes. by destruct (Encode session_cmd).
Qed.

Abbreviation session_step := (sstep trio trio_cfg 1 session_wanted).
Abbreviation session_reached := (service_reached trio trio_cfg 1 session_wanted).

(** A step of the log alone leaves fresh machines fresh. *)
Definition fresh (s : Service MemStore) : Prop := forall a, sv_machines s a = NewState.

Lemma moved_fresh s a c out : fresh s -> state c = NewState -> fresh (moved s a c out).
Proof. intros H E b. simpl. destruct (decide (a = b)) as [->|]; [by rewrite fn_lookup_insert|by rewrite fn_lookup_insert_ne]. Qed.

Lemma lift_step (s : Service MemStore) c' : fresh s -> cstep trio trio_cfg session_only (sv_logs s) c' ->
  exists s', session_step s s' /\ sv_logs s' = c' /\ fresh s'.
Proof.
  intros F [a now env n n' out Ha Hn He Hr Hm E|a now n n' out Ha Hn Hr E|a now v n n' out err Ha Hn Hr Hv E
    |a now n n' q out err Ha Hn Hr E|a n Ha Hn|a n Ha Hn|a n Ha Hn|a st st' Ha Hn E|a st rng n Ha Hn E Hr].
  - exists (moved s a (mkCore n' (sv_machines s a)) out). split; [|split; [done|apply moved_fresh; [done|apply F]]].
    eapply sv_deliver; try done. unfold core_Step. simpl. by rewrite E.
  - exists (moved s a (mkCore n' (sv_machines s a)) out). split; [|split; [done|apply moved_fresh; [done|apply F]]].
    eapply sv_tick; try done. unfold core_Tick. simpl. by rewrite E.
  - destruct (session_encoded v Hv) as (cmd & b & Hw & Hk & Hb & ->).
    exists (moved s a (mkCore n' (sv_machines s a)) out). split; [|split; [done|apply moved_fresh; [done|apply F]]].
    eapply sv_submit; try done. unfold Submit. rewrite Hk, Hb. simpl. by rewrite E.
  - exists (moved s a (mkCore n' (sv_machines s a)) out). split; [|split; [done|apply moved_fresh; [done|apply F]]].
    eapply sv_read; try done. unfold core_ReadIndex. simpl. by rewrite E.
  - exists (moved s a (core_Events (core_at s a n)).1 []). split; [by apply sv_events|]. split; [done|].
    apply moved_fresh; [done|apply F].
  - exists (moved s a (core_at s a n) []). split; [by apply sv_idle|]. split; [done|]. apply moved_fresh; [done|apply F].
  - eexists. split; [by apply (sv_crash _ _ _ _ s a n)|done].
  - eexists. split; [by apply (sv_reopen _ _ _ _ s a st st')|done].
  - exists (moved s a (mkCore n NewState) []). split; [|split; [done|by apply moved_fresh]].
    eapply sv_restart; try done. unfold NewCore. by rewrite E.
Qed.

Lemma lift_steps (s : Service MemStore) c' : fresh s -> rtc (cstep trio trio_cfg session_only) (sv_logs s) c' ->
  exists s', rtc session_step s s' /\ sv_logs s' = c' /\ fresh s'.
Proof.
  intros F Hr. remember (sv_logs s) as c eqn:E. revert s F E. induction Hr as [c|c c1 c2 St _ IH]; intros s F ->.
  - exists s. split; [apply rtc_refl|done].
  - destruct (lift_step s c1 F St) as (s1 & S1 & E1 & F1). destruct (IH s1 F1 (eq_sym E1)) as (s2 & S2 & E2 & F2).
    exists s2. split; [by eapply rtc_l|done].
Qed.

(** The sample run with the session command, before any slot is applied. *)
Definition sessions : Cluster MemStore := default all_down (sample session_only session_only_dec session_value).

Lemma sessions_reached : exists s, session_reached s /\ sv_logs s = sessions /\ fresh s.
Proof.
  destruct (lift_steps (mkService all_down (fun _ => NewState)) sessions) as (s & Hs & E & F); [done| |].
  - apply (sample_steps session_only session_only_dec session_value).
    apply (default_ok (sample session_only session_only_dec session_value) all_down). by vm_compute.
  - exists s. split; [|split; [exact E|exact F]]. exists (mkService all_down (fun _ => NewState)).
    split; [apply all_down_start|exact Hs].
Qed.

Definition apply_one (c : Core MemStore) : Core MemStore :=
  match ApplyNext 1 c with Some (c', _) => c' | None => c end.

Lemma apply_one_reached s a n : session_reached s -> a ∈ trio -> hosts (sv_logs s) a = Up n -> roomy n ->
  is_ok (ApplyNext 1 (core_at s a n)) = true ->
  session_reached (moved s a (apply_one (core_at s a n)) []).
Proof.
  intros (s0 & H0 & Hr) Ha Hn Hroom Hok. exists s0. split; [done|]. eapply rtc_r; [exact Hr|]. unfold apply_one.
  destruct (ApplyNext 1 (core_at s a n)) as [[c x]|] eqn:E; [|done]. by eapply sv_apply.
Qed.

(** A replica applies the slots [k] times. *)
Fixpoint apply_times (k : nat) (c : Core MemStore) : Core MemStore :=
  match k with O => c | S k' => apply_times k' (apply_one c) end.

Definition apply_fine (c : Core MemStore) : bool :=
  is_ok (ApplyNext 1 c) && bool_decide (roomy (log c)).

Fixpoint all_fine (k : nat) (c : Core MemStore) : bool :=
  match k with O => true | S k' => apply_fine c && all_fine k' (apply_one c) end.

Lemma apply_times_reached k s a n : session_reached s -> a ∈ trio -> hosts (sv_logs s) a = Up n ->
  all_fine k (core_at s a n) = true ->
  exists s', session_reached s' /\ hosts (sv_logs s') a = Up (log (apply_times k (core_at s a n))) /\
    sv_machines s' a = state (apply_times k (core_at s a n)) /\
    forall b, b <> a -> hosts (sv_logs s') b = hosts (sv_logs s) b /\ sv_machines s' b = sv_machines s b.
Proof.
  revert s n. induction k as [|k IH]; intros s n H Ha Hn Hf; simpl in *; [by exists s|].
  apply andb_true_iff in Hf as [[Hok Hroom%bool_decide_eq_true]%andb_true_iff Hf].
  pose proof (apply_one_reached s a n H Ha Hn Hroom Hok) as H1.
  set (c1 := apply_one (core_at s a n)) in *. set (s1 := moved s a c1 []) in *.
  assert (Ec : core_at s1 a (log c1) = c1).
  { unfold core_at, s1. simpl. rewrite fn_lookup_insert. by destruct c1. }
  destruct (IH s1 (log c1) H1 Ha) as (s' & H' & Eh & Em & Eo); [unfold s1; simpl; by rewrite fn_lookup_insert|by rewrite Ec|].
  rewrite Ec in Eh, Em. exists s'. split_and!; [done..|]. intros b Hb. destruct (Eo b Hb) as [-> ->].
  unfold s1. simpl. by rewrite !fn_lookup_insert_ne by done.
Qed.

(** Replicas 1 and 3 have applied both slots. *)
Definition served (a : NodeID) : Core MemStore := apply_times 2 (mkCore (node_at sessions a) NewState).

Lemma sessions_up a : (a =? 1) || (a =? 3) = true -> hosts sessions a = Up (node_at sessions a).
Proof.
  rewrite orb_true_iff, !Z.eqb_eq. unfold node_at. intros [-> | ->];
    match goal with |- ?h = _ => assert (X : match h with Up _ => true | Down _ => false end = true) by (by vm_compute) end;
    by destruct (hosts sessions _).
Qed.

Lemma served_reached : exists s, session_reached s /\
  hosts (sv_logs s) 1 = Up (log (served 1)) /\ hosts (sv_logs s) 3 = Up (log (served 3)) /\
  sv_machines s 1 = state (served 1) /\ sv_machines s 3 = state (served 3).
Proof.
  destruct sessions_reached as (s & H & E & F).
  assert (C : forall a, core_at s a (node_at sessions a) = mkCore (node_at sessions a) NewState) by (intros a; unfold core_at; by rewrite F).
  destruct (apply_times_reached 2 s 1 (node_at sessions 1) H (in_trio 1 eq_refl)) as (s1 & H1 & Eh1 & Em1 & Eo1).
  { rewrite E. by apply sessions_up. }
  { rewrite C. by vm_compute. }
  destruct (Eo1 3) as [Eh3 Em3]; [done|]. rewrite C in Eh1, Em1.
  assert (C3 : core_at s1 3 (node_at sessions 3) = mkCore (node_at sessions 3) NewState) by (unfold core_at; by rewrite Em3, F).
  destruct (apply_times_reached 2 s1 3 (node_at sessions 3) H1 (in_trio 3 eq_refl)) as (s2 & H2 & Eh2 & Em2 & Eo2).
  { rewrite Eh3, E. by apply sessions_up. }
  { rewrite C3. by vm_compute. }
  destruct (Eo2 1) as [Eh4 Em4]; [done|]. rewrite C3 in Eh2, Em2. exists s2. rewrite Eh4, Em4.
  split; [exact H2|]. split; [exact Eh1|]. split; [exact Eh2|]. split; [exact Em1|exact Em2].
Qed.

Lemma served_applied a : (a =? 1) || (a =? 3) = true -> applied (state (served a)) = 2.
Proof. rewrite orb_true_iff, !Z.eqb_eq. intros [-> | ->]; by vm_compute. Qed.

Lemma replicas_agree_witness :
  applied (state (served 1)) = 2 /\ applied (state (served 3)) = 2 /\ is_Some (results (state (served 3)) !! "k2") /\
  hash (state (served 1)) = hash (state (served 3)).
Proof.
  split; [by apply served_applied|]. split; [by apply served_applied|].
  split; [by apply (bool_decide_unpack _); vm_compute|].
  destruct served_reached as (s & H & H1 & H3 & E1 & E3).
  pose proof (served_applied 1 eq_refl) as A1. pose proof (served_applied 3 eq_refl) as A3.
  rewrite <- E1 in A1 |- *. rewrite <- E3 in A3 |- *.
  apply (replicas_agree trio trio_cfg 1 session_wanted trio_config session_wanted_ok s 1 3 _ _ H
    (in_trio 1 eq_refl) (in_trio 3 eq_refl) H1 H3); rewrite A1, A3; [apply Z.le_refl|reflexivity].
Defined.

Lemma replica_state_reachable_witness :
  applied (state (served 1)) = 2 /\ reachable 1 (state (served 1)).
Proof.
  split; [by apply served_applied|]. destruct served_reached as (s & H & H1 & _ & E1 & _). rewrite <- E1.
  exact (proj1 (replica_state_reachable trio trio_cfg 1 session_wanted trio_config session_wanted_ok s 1 _ H
    (in_trio 1 eq_refl) H1)).
Defined.

Lemma apply_committed_catches_up_witness : exists st l,
  ApplyCommitted 1 (mkCore (node_at sessions 3) NewState) = Some (mkCore (node_at sessions 3) st, l) /\
  applied st = 2 /\ map ap_slot l = [1; 2].
Proof.
  destruct sessions_reached as (s & H & E & F).
  destruct (apply_committed_catches_up trio trio_cfg 1 session_wanted trio_config session_wanted_ok s 3
    (node_at sessions 3) H (in_trio 3 eq_refl)) as (st & l & EA & Ea & El & _).
  - rewrite E. by apply sessions_up.
  - by apply (bool_decide_unpack _); vm_compute.
  - exists st, l. unfold core_at in EA. rewrite F in EA, Ea, El. split; [exact EA|].
    assert (Ec : n_commitIndex (node_at sessions 3) = 2) by by vm_compute. rewrite Ec in Ea, El. split; [exact Ea|exact El].
Defined.
