(* ===== verification/Linear.v ===== *)
(** Linearizable reads: a read that a leader answers behind a read-index
    barrier sees every command that any replica had applied when the read
    began, with its result.  [core_ReadIndex] begins the barrier, the event
    [ReadReady] completes it, and the runner answers the read once the applied
    slot has reached its index. *)

From stdpp Require Import functions.
From S2P Require Import Prelude GoStd Paxos Ledger Game Records Codec Commands Compute State Changes.
From S2P Require Import TournamentInv PlayInv LedgerInv Machine Reach Guarantees Blind.
From S2P Require Import Voting Store Replog LogSpec LogInv NodeSteps Handlers Reads Drive Cluster Runs LogSafety ReadSafety.
From S2P Require Import Replica ReplicaSafety.

Section Linear.
Context `{U : Unicode} {T : Type} `{ST : Store T} (A : gset NodeID) (cfgs : NodeID -> Config)
  (deal_fuel : nat) (wanted : Command -> Prop) (gc : group_config A cfgs)
  (wanted_ok : forall cmd, wanted cmd -> (exists op, command_fits cmd op) /\ command_ok deal_fuel cmd).
Implicit Types (s : Service T) (c : Core T).

Abbreviation sstep := (sstep A cfgs deal_fuel wanted).
Abbreviation service_reached := (service_reached A cfgs deal_fuel wanted).

(** A step during which host [a] goes on running. *)
Definition sserving (a : NodeID) s s' : Prop := sstep s s' /\ running a (sv_logs s').

Lemma sserving_serving a s s' : rtc (sserving a) s s' ->
  rtc (serving A cfgs (encoded wanted) a) (sv_logs s) (sv_logs s').
Proof.
  intros Hr. induction Hr as [|s1 s2 s3 [St Hup] _ IH]; [apply rtc_refl|]. eapply rtc_l; [|exact IH].
  split; [by eapply sstep_cstep|done].
Qed.

Lemma sserving_reached a s s' : service_reached s -> rtc (sserving a) s s' -> service_reached s'.
Proof.
  intros (s0 & H0 & Hr) Hs. exists s0. split; [done|]. etrans; [exact Hr|].
  induction Hs as [|s1 s2 s3 [St _] _ IH]; [apply rtc_refl|]. eapply rtc_l; [exact St|]. apply IH. by eapply rtc_r.
Qed.

Lemma chosen_stays a s s' x k v : service_reached s -> x ∈ A -> rtc (sserving a) s s' ->
  chosen_on s x k v -> chosen_on s' x k v.
Proof.
  intros H Hx Hs. induction Hs as [|s1 s2 s3 [St Hup] Hr IH]; [done|]. intros Hc. apply IH.
  - eapply sserving_reached; [exact H|]. apply rtc_once. by split.
  - exact (sstep_chosen A cfgs deal_fuel wanted gc s1 s2 x k v H Hx St Hc).
Qed.

(** Host [a] has gone on running from state [s] to state [s']. *)
Definition since (a : NodeID) s s' : Prop := service_reached s /\ rtc (sserving a) s s'.

Lemma since_reached a s s' : since a s s' -> service_reached s'.
Proof. intros [H Hr]. by eapply sserving_reached. Qed.

Lemma since_step a s0 s s' : since a s0 s -> sserving a s s' -> since a s0 s'.
Proof. intros [H Hr] St. split; [done|]. by eapply rtc_r. Qed.

Lemma since_steps a s0 s s' : since a s0 s -> rtc (sserving a) s s' -> since a s0 s'.
Proof. intros [H Hr] St. split; [done|]. by etrans. Qed.

(** In state [s] host [a] began barrier [k], and went on running to [s']. *)
Definition barrier (a : NodeID) s (k : Z) s' : Prop :=
  exists now n c out, hosts (sv_logs s) a = Up n /\ roomy n /\
    core_ReadIndex now (core_at s a n) = Some (c, k, out, None) /\ since a (moved s a c out) s' /\ service_reached s.

(** No replica had applied more than [i] slots in state [s]. *)
Definition covers s (i : Slot) : Prop :=
  forall x n, x ∈ A -> hosts (sv_logs s) x = Up n -> applied (sv_machines s x) <= i.

(** The index of a completed barrier covers the state it began in. *)
Lemma barrier_covered a s k s' m i : a ∈ A -> barrier a s k s' -> hosts (sv_logs s') a = Up m -> is_failed m = false ->
  ReadReady k i ∈ n_events m -> covers s i.
Proof.
  intros Ha (now & n & c & out & Hn & Hr & E & [H1 Hs] & H) Hm F Hev x nx Hx Hnx.
  destruct (service_machines A cfgs deal_fuel wanted gc wanted_ok s H x Hx nx Hnx) as (kx & _ & Rx).
  destruct (replayed_state _ _ _ _ (chosen_ok A cfgs deal_fuel wanted gc wanted_ok s x H Hx) Rx) as (_ & _ & ->).
  unfold core_ReadIndex in E. apply bind_Some in E as ([[[n' q] o] e] & E & [= <- -> -> ->]).
  eapply (read_index_covers A cfgs (encoded wanted) gc (or_introl eq_refl) (sv_logs s) a now n n' k out (sv_logs s') m i x kx);
    try done; [by apply service_log with deal_fuel|by apply sserving_serving in Hs|].
  intros t Ht. destruct (replayed_slots _ _ _ _ t Rx Ht) as (v & e & He & _). by exists e.
Qed.

(** A replica that has applied as many slots as another had before has gone
    through the other's state. *)
Lemma seen_before a s s' m x nx : a ∈ A -> since a s s' -> hosts (sv_logs s') a = Up m -> x ∈ A -> hosts (sv_logs s) x = Up nx ->
  applied (sv_machines s x) <= applied (sv_machines s' a) ->
  (exists st, Reach.later deal_fuel st (sv_machines s' a) /\ blind st = blind (sv_machines s x)) /\
  results (sv_machines s x) ⊆ results (sv_machines s' a).
Proof.
  intros Ha [H Hs] Hm Hx Hnx Hle. pose proof (sserving_reached a _ _ H Hs) as H'.
  destruct (service_machines A cfgs deal_fuel wanted gc wanted_ok s H x Hx nx Hnx) as (kx & _ & Rx).
  destruct (service_machines A cfgs deal_fuel wanted gc wanted_ok s' H' a Ha m Hm) as (ka & _ & Ra).
  pose proof (chosen_ok A cfgs deal_fuel wanted gc wanted_ok s x H Hx) as Ox.
  pose proof (chosen_ok A cfgs deal_fuel wanted gc wanted_ok s' a H' Ha) as Oa.
  destruct (replayed_state _ _ _ _ Ox Rx) as (Hk & _ & Ex), (replayed_state _ _ _ _ Oa Ra) as (_ & _ & Eka). rewrite Ex, Eka in Hle.
  destruct (replayed_prefix _ _ _ _ kx Oa Ra) as (st & Rst & Hl); [lia|].
  assert (Hb : blind st = blind (sv_machines s x)).
  { refine (replayed_agree _ _ _ _ _ _ _ Rst Rx). intros j v u Hv Hu.
    eapply (chosen_on_agree A cfgs deal_fuel wanted gc s' a x); try done. by apply (chosen_stays a s s' x j u H Hx Hs). }
  split; [by exists st|]. destruct (replayed_state _ _ _ _ Oa Rst) as (_ & Hst & _).
  destruct (reachable_good _ _ Hst) as [I Hres]. destruct (later_spec _ _ _ I Hres Hl) as (_ & _ & _ & Hsub).
  assert (Er : results st = results (sv_machines s x)) by exact (f_equal results Hb). by rewrite <- Er.
Qed.

(** Linearizable reads.  Let replica [a] begin a read barrier in state [s], and let the barrier
    complete with index [i] while [a] goes on running.  Once [a] has applied
    the slots up to [i], its state is one that every replica's state of the
    moment the read began leads to, up to the ballots recorded in it: whatever
    any replica had applied then, [a] has applied, with the same results. *)
Theorem reads_see_completed s a now n c k out s' m i x nx :
  service_reached s -> a ∈ A -> hosts (sv_logs s) a = Up n -> roomy n ->
  core_ReadIndex now (core_at s a n) = Some (c, k, out, None) ->
  rtc (sserving a) (moved s a c out) s' ->
  hosts (sv_logs s') a = Up m -> is_failed m = false -> ReadReady k i ∈ n_events m ->
  i <= applied (sv_machines s' a) -> x ∈ A -> hosts (sv_logs s) x = Up nx ->
  applied (sv_machines s x) <= applied (sv_machines s' a) /\
  (exists st, Reach.later deal_fuel st (sv_machines s' a) /\ blind st = blind (sv_machines s x)) /\
  results (sv_machines s x) ⊆ results (sv_machines s' a).
Proof.
  intros H Ha Hn Hr E Hs Hm F Hev Hi Hx Hnx.
  assert (St : sserving a s (moved s a c out)) by (split; [by eapply sv_read|eexists; simpl; apply fn_lookup_insert]).
  assert (S : since a s s') by (split; [done|by eapply rtc_l]).
  assert (B : barrier a s k s').
  { exists now, n, c, out. split_and!; try done. split; [|done]. exact (sserving_reached a s _ H (rtc_once _ _ St)). }
  pose proof (barrier_covered a s k s' m i Ha B Hm F Hev x nx Hx Hnx) as Hle. split; [lia|].
  apply (seen_before a s s' m x nx); try done. lia.
Qed.
End Linear.

(** * A concrete read *)

#[local] Existing Instance ascii_unicode.

(** Replica 3 applies both slots of the sample run before leader 1 begins a
    read; the heartbeat and its acknowledgement pass between 1 and 3, and 1
    applies both slots. *)

Lemma apply_one_log (c : Core MemStore) : log (apply_one c) = log c.
Proof.
  unfold apply_one. destruct (ApplyNext 1 c) as [[c' x]|] eqn:E; [|done]. unfold ApplyNext in E.
  repeat case_match; simplify_eq; try done. apply bind_Some in E as ([st r] & _ & [= <- _]). done.
Qed.

Abbreviation session_serving := (sserving trio trio_cfg 1 session_wanted).

(** Messages delivered, and slots applied, one after the other. *)
Lemma deliver_lift a i now (s : Service MemStore) l : act trio trio_cfg session_only session_only_dec (Deliver i now) (sv_logs s) = Some l ->
  match hosts l a with Up _ => true | Down _ => false end = true ->
  exists s', session_serving a s s' /\ sv_logs s' = l /\ forall b, sv_machines s' b = sv_machines s b.
Proof.
  cbn [act]. intros Hl Hup. apply bind_Some in Hl as (env & He & Hl). apply bind_Some in Hl as (n & [Ha Hn]%up_host & Hl).
  apply bind_Some in Hl as (_u & Hr%having_true & Hl). apply bind_Some in Hl as (_v & Hm%having_true & Hl).
  apply bind_Some in Hl as ([n' out] & E & Hl). injection Hl as <-.
  set (s' := moved s (env_to env) (mkCore n' (sv_machines s (env_to env))) out). exists s'. split; [split|].
  - eapply sv_deliver; try done; [by eapply list_elem_of_lookup_2|]. unfold core_Step. simpl. by rewrite E.
  - change (running a (put (sv_logs s) (env_to env) (Up n') out)). unfold running.
    destruct (hosts (put (sv_logs s) (env_to env) (Up n') out) a) as [m|]; [by exists m|done].
  - split; [done|]. intros b. simpl. destruct (decide (env_to env = b)) as [<-|Hne]; [by rewrite fn_lookup_insert|by rewrite fn_lookup_insert_ne].
Qed.

(** The log of the service after replica 3 has applied two slots. *)
Definition settled : Cluster MemStore := put (put sessions 3 (Up (node_at sessions 3)) []) 3 (Up (node_at sessions 3)) [].

Definition read_time : Z := 280 * Millisecond.
Definition read_step : option (Node MemStore * Z * list Envelope * option CallError) := ReadIndex read_time (node_at settled 1).

Definition began (o : option (Node MemStore * Z * list Envelope * option CallError)) : Node MemStore * list Envelope :=
  match o with Some (n, _, out, _) => (n, out) | None => (node_at settled 1, []) end.
Definition read_began : Cluster MemStore := put settled 1 (Up (began read_step).1) (began read_step).2.

Lemma began_ok o k : match o with Some (_, j, _, None) => j =? k | _ => false end = true -> o = Some ((began o).1, k, (began o).2, None).
Proof. destruct o as [[[[n j] out] [err|]]|]; try discriminate. by intros ->%Z.eqb_eq. Qed.

Lemma up_node (l : Cluster MemStore) a : match hosts l a with Up _ => true | Down _ => false end = true -> hosts l a = Up (node_at l a).
Proof. unfold node_at. by destruct (hosts l a). Qed.

(** The heartbeat to 3 and the acknowledgement are messages [p + 1] and
    [p + 2]. *)
Definition read_heard : Cluster MemStore :=
  default all_down (act trio trio_cfg session_only session_only_dec (Deliver 21 read_time) read_began).
Definition read_acked : Cluster MemStore :=
  default all_down (act trio trio_cfg session_only session_only_dec (Deliver 22 read_time) read_heard).

(** Applying slots leaves the log of the service as it was. *)
Lemma apply_lift (s : Service MemStore) a n : a ∈ trio -> hosts (sv_logs s) a = Up n ->
  apply_fine (core_at s a n) = true ->
  session_step s (moved s a (apply_one (core_at s a n)) []).
Proof.
  intros Ha Hn [Hok Hroom%bool_decide_eq_true]%andb_true_iff. unfold apply_one.
  destruct (ApplyNext 1 (core_at s a n)) as [[c x]|] eqn:E; [|done]. by eapply sv_apply.
Qed.

Lemma apply_twice a n st (s : Service MemStore) : a ∈ trio -> hosts (sv_logs s) a = Up n -> sv_machines s a = st ->
  all_fine 2 (mkCore n st) = true ->
  exists s', rtc (session_serving a) s s' /\ sv_logs s' = put (put (sv_logs s) a (Up n) []) a (Up n) [] /\
    sv_machines s' a = state (apply_times 2 (mkCore n st)) /\ forall b, b <> a -> sv_machines s' b = sv_machines s b.
Proof.
  intros Ha Hn <-. change (mkCore n (sv_machines s a)) with (core_at s a n). cbn [all_fine apply_times].
  rewrite andb_true_r. intros [F1 F2]%andb_true_iff.
  set (c1 := apply_one (core_at s a n)) in *. set (s1 := moved s a c1 []).
  assert (L1 : log c1 = n) by apply apply_one_log.
  assert (E1 : hosts (sv_logs s1) a = Up n) by (unfold s1; simpl; by rewrite fn_lookup_insert, L1).
  assert (C1 : core_at s1 a n = c1) by (unfold core_at, s1; simpl; rewrite fn_lookup_insert; rewrite <- L1; by destruct c1).
  set (c2 := apply_one c1) in *. set (s2 := moved s1 a c2 []). assert (L2 : log c2 = n) by (unfold c2; by rewrite apply_one_log).
  exists s2. split_and!.
  - eapply (rtc_l _ s s1); [|apply rtc_once]; (split; [|eexists; unfold s2, s1; simpl; apply fn_lookup_insert]).
    + by apply apply_lift.
    + unfold s2. replace c2 with (apply_one (core_at s1 a n)) by (by rewrite C1). apply apply_lift; [done|done|by rewrite C1].
  - unfold s2, s1. simpl. by rewrite L1, L2.
  - unfold s2. simpl. by rewrite fn_lookup_insert.
  - intros b Hb. unfold s2, s1. simpl. by rewrite !fn_lookup_insert_ne by done.
Qed.

Lemma read_step_ok : read_step = Some ((began read_step).1, 1, (began read_step).2, None).
Proof. apply began_ok. by vm_compute. Qed.

Lemma read_heard_ok : act trio trio_cfg session_only session_only_dec (Deliver 21 read_time) read_began = Some read_heard.
Proof. apply default_ok. by vm_compute. Qed.

Lemma read_acked_ok : act trio trio_cfg session_only session_only_dec (Deliver 22 read_time) read_heard = Some read_acked.
Proof. apply default_ok. by vm_compute. Qed.

Lemma read_event : ReadReady 1 2 ∈ n_events (node_at read_acked 1).
Proof.
  assert (E : n_events (node_at read_acked 1) = [ReadReady 1 2]) by by vm_compute. rewrite E. by apply list_elem_of_singleton.
Qed.

(** Replica 1 ends with the results replica 3 had when the read began. *)
Lemma reads_see_completed_witness :
  applied (state (served 3)) = 2 /\ is_Some (results (state (served 3)) !! "k2") /\
  results (state (served 3)) ⊆ results (state (apply_times 2 (mkCore (node_at read_acked 1) NewState))).
Proof.
  split; [by apply served_applied|]. split; [by apply (bool_decide_unpack _); vm_compute|].
  destruct sessions_reached as (s & H & E & F).
  (* replica 3 applies both slots *)
  destruct (apply_twice 3 (node_at sessions 3) NewState s (in_trio 3 eq_refl)) as (s1 & R1 & L1 & M1 & O1);
    [rewrite E; by apply sessions_up|apply F|by vm_compute|]. rewrite E in L1. change (sv_logs s1 = settled) in L1.
  assert (H1 : session_reached s1) by by eapply sserving_reached.
  (* leader 1 begins a read *)
  assert (U1 : hosts (sv_logs s1) 1 = Up (node_at settled 1)) by (rewrite L1; apply up_node; by vm_compute).
  set (c := mkCore (began read_step).1 (sv_machines s1 1)).
  assert (Er : core_ReadIndex read_time (core_at s1 1 (node_at settled 1)) = Some (c, 1, (began read_step).2, None)).
  { unfold core_ReadIndex. change (log (core_at s1 1 (node_at settled 1))) with (node_at settled 1).
    change (ReadIndex read_time (node_at settled 1)) with read_step. rewrite read_step_ok at 1. reflexivity. }
  assert (Hroom : roomy (node_at settled 1)) by (apply (bool_decide_unpack _); by vm_compute).
  set (s2 := moved s1 1 c (began read_step).2). assert (L2 : sv_logs s2 = read_began) by (unfold s2, moved; simpl; by rewrite L1).
  assert (M2 : sv_machines s2 1 = NewState) by (unfold s2; simpl; rewrite fn_lookup_insert; simpl; by rewrite O1, F).
  (* the barrier completes, and 1 applies both slots *)
  destruct (deliver_lift 1 21 read_time s2 read_heard) as (s3 & R3 & L3 & M3); [rewrite L2; apply read_heard_ok|by vm_compute|].
  destruct (deliver_lift 1 22 read_time s3 read_acked) as (s4 & R4 & L4 & M4); [rewrite L3; apply read_acked_ok|by vm_compute|].
  assert (U4 : hosts (sv_logs s4) 1 = Up (node_at read_acked 1)) by (rewrite L4; apply up_node; by vm_compute).
  destruct (apply_twice 1 (node_at read_acked 1) NewState s4 (in_trio 1 eq_refl) U4) as (s5 & R5 & L5 & M5 & _);
    [by rewrite M4, M3|by vm_compute|]. unfold served. rewrite <- M1, <- M5.
  refine (proj2 (proj2 (reads_see_completed trio trio_cfg 1 session_wanted trio_config session_wanted_ok s1 1 read_time
    (node_at settled 1) c 1 (began read_step).2 s5 (node_at read_acked 1) 2 3 (node_at sessions 3)
    H1 (in_trio 1 eq_refl) U1 Hroom Er _ _ _ read_event _ (in_trio 3 eq_refl) _))).
  - eapply rtc_l; [exact R3|]. eapply rtc_l; [exact R4|exact R5].
  - rewrite L5. simpl. apply fn_lookup_insert.
  - by vm_compute.
  - rewrite M5. by vm_compute.
  - rewrite L1. unfold settled. simpl. apply fn_lookup_insert.
Defined.
