(* ===== verification/Runner.v ===== *)
(** The event loop of a replica (internal/replica/runner.go): the one goroutine
    that owns a [Core], the requests it holds, and what it answers.

    Every channel operation of the loop is an input or an output of the model:
    an input is what the [select] of [Run] took, an output is a message handed
    to the transport, a call of the observer, a reply, or [Run]'s return.
    [None] is a run-time panic.  The callers' goroutines appear as inputs of
    their own: a message delivered to the inbox, and a caller whose context has
    ended.  Whether [stateMu.TryLock] succeeds is part of the input; the lock
    and the readers' side of it are modelled in Gate.v. *)

From S2P Require Import Prelude GoStd Paxos Ledger Game Records Codec Commands Compute State Store Replog Replica.

Definition InboxSize : Z := 4096.

(** The errors a request can end with. *)
Inductive RunError :=
| ErrLeadershipLost
| ErrStopped
| ErrSubmit (err : SubmitError)
| ErrRead (err : CallError)
| ErrReadFailed (err : NotLeaderError)
| ErrCore (err : error).

(** What is sent on the reply channel of a Submit or of a consistent Read. *)
Inductive Reply :=
| SubmitReply (r : Result + RunError)
| ReadReply (err : option RunError).

(** One Submit waiting for its key to be applied.  The caller, and so the
    reply channel and the [abandoned] flag, goes by a number. *)
Record waiter := mkWaiter { w_id : nat; w_cmd : Command; w_fp : bytes }.

(** One consistent Read waiting for its barrier. *)
Record readReq := mkReadReq { rq_id : nat; rq_index : Slot }.

#[export] Instance Status_eq_dec : EqDecision Status.
Proof. solve_decision. Defined.

Inductive Output :=
| Send (env : Envelope)
| ObserveReceived (env : Envelope)
| ObserveSent (env : Envelope)
| ObserveChanged (prev cur : Status) (applied : list Applied)
| Advanced (applied : Slot)
| Answer (id : nat) (r : Reply)
| Return (err : option error).

Record Runner (T : Type) := mkRunner {
  r_core : Core T;
  r_observed : bool;
  r_inbox : list Envelope;
  r_dropped : Z;
  r_waiters : gmap IdempotencyKey (list waiter);
  r_nwaiters : Z;
  r_pendingReads : gmap Z readReq;
  r_applyWaits : list readReq;
  r_held : Z;
  r_applyWait : bool;
  r_status : Status;
  r_abandoned : gset nat;
  r_done : bool;
  r_out : list Output;
}.
Arguments mkRunner {T}.
Arguments r_core {T} r.
Arguments r_observed {T} r.
Arguments r_inbox {T} r.
Arguments r_dropped {T} r.
Arguments r_waiters {T} r.
Arguments r_nwaiters {T} r.
Arguments r_pendingReads {T} r.
Arguments r_applyWaits {T} r.
Arguments r_held {T} r.
Arguments r_applyWait {T} r.
Arguments r_status {T} r.
Arguments r_abandoned {T} r.
Arguments r_done {T} r.
Arguments r_out {T} r.

#[export] Instance Runner_Fields {T} : Fields (Runner T) := fun r =>
  mkRunner (r_core r) (r_observed r) (r_inbox r) (r_dropped r) (r_waiters r) (r_nwaiters r) (r_pendingReads r)
    (r_applyWaits r) (r_held r) (r_applyWait r) (r_status r) (r_abandoned r) (r_done r) (r_out r).

(** What the [select] of [Run] takes, with the time and with whether TryLock
    succeeds; and what the callers do meanwhile. *)
Inductive Input :=
| Stop
| Inbox (now : Z)
| TickerC (now : Z)
| Submits (now : Z) (id : nat) (cmd : Command)
| Reads (now : Z) (id : nat)
| Kick
| Delivers (env : Envelope)
| Abandons (id : nat).

Section Runner.
Context `{U : Unicode} {T : Type} `{ST : Store T} (deal_fuel : nat).
Implicit Types r : Runner T.

Definition NewRunner (c : Core T) (observed : bool) : Runner T :=
  mkRunner c observed [] 0 ∅ 0 ∅ [] 0 false (status c) ∅ false [].

Definition out r (o : Output) : Runner T := r <| r_out := r_out r ++ [o] |>.
Definition answer r (id : nat) (a : Reply) : Runner T := out r (Answer id a).

Definition abandoned r (id : nat) : bool := bool_decide (id ∈ r_abandoned r).

(** [Deliver]: the caller is the transport. *)
Definition Deliver r (env : Envelope) : Runner T :=
  if len (r_inbox r) <? InboxSize then r <| r_inbox := r_inbox r ++ [env] |>
  else r <| r_dropped := u64 (r_dropped r + 1) |>.

(** ** Reacting to a step of the core *)

Definition send_out r (env : Envelope) : Runner T :=
  let r := if r_observed r then out r (ObserveSent env) else r in
  out r (Send env).

(** One event of the core; the reads it failed are collected. *)
Definition note_event (x : Runner T * list (nat * NotLeaderError)) (ev : Event) : Runner T * list (nat * NotLeaderError) :=
  let '(r, failed) := x in
  match ev with
  | ReadReady seq index =>
      match r_pendingReads r !! seq with
      | Some rq => (r <| r_pendingReads := delete seq (r_pendingReads r) |>
                      <| r_applyWaits := r_applyWaits r ++ [mkReadReq (rq_id rq) index] |>, failed)
      | None => (r, failed)
      end
  | ReadFailed seq err =>
      match r_pendingReads r !! seq with
      | Some rq => (r <| r_pendingReads := delete seq (r_pendingReads r) |>, failed ++ [(rq_id rq, err)])
      | None => (r, failed)
      end
  | LeaderChanged _ _ _ | LearnConflict _ _ _ => (r, failed)
  end.

Definition applyCommitted (lock : bool) r : option (Runner T * list Applied) :=
  exit_if n_commitIndex (log (r_core r)) <=? applied (state (r_core r)) with Some (r, []);
  let r := r <| r_applyWait := true |> in
  exit_if negb lock with Some (r, []);
  '(c, l) ← ApplyCommitted deal_fuel (r_core r);
  Some (r <| r_core := c |> <| r_applyWait := false |>, l).

(** The status snapshot, and the wake-up of those who wait for it to move. *)
Definition publish (l : list Applied) r : Runner T :=
  let st := status (r_core r) in
  let prev := r_status r in
  let r := if sta_applied prev <? sta_applied st then out r (Advanced (sta_applied st)) else r in
  let r := r <| r_status := st |> in
  if r_observed r && negb (bool_decide (st = prev)) then out r (ObserveChanged prev st l) else r.

Definition total r : Z := r_nwaiters r + Z.of_nat (size (r_pendingReads r)) + len (r_applyWaits r).

Definition hold r (key : IdempotencyKey) (w : waiter) : Runner T :=
  r <| r_waiters := <[key := default [] (r_waiters r !! key) ++ [w]]> (r_waiters r) |>
    <| r_nwaiters := r_nwaiters r + 1 |>.

(** One waiter of a key that was applied, with the fingerprint and the result
    of the command that was applied. *)
Definition settle_waiter (key : IdempotencyKey) (fp : bytes) (res : Result) r (w : waiter) : Runner T :=
  if bool_decide (w_fp w = fp) then answer r (w_id w) (SubmitReply (inl res))
  else match Replay_result (state (r_core r)) (w_cmd w) with
       | Some res => answer r (w_id w) (SubmitReply (inl res))
       | None => hold r key w
       end.

Definition settle r (a : Applied) : Runner T :=
  exit_if ap_noop a with r;
  match ap_cmd a with
  | None => r
  | Some (cmd, res) =>
      match r_waiters r !! cmd_key cmd with
      | None => r
      | Some ws =>
          let r := r <| r_waiters := delete (cmd_key cmd) (r_waiters r) |> <| r_nwaiters := r_nwaiters r - len ws |> in
          foldl (settle_waiter (cmd_key cmd) (Fingerprint cmd) res) r ws
      end
  end.

(** Go's order over the map is unspecified; each reply has its own channel. *)
Definition fail_waiters (err : RunError) r : Runner T :=
  let r := foldl (fun r w => answer r (w_id w) (SubmitReply (inr err))) r (concat (map snd (map_to_list (r_waiters r)))) in
  r <| r_waiters := ∅ |> <| r_nwaiters := 0 |>.

Definition lose_waiters r : Runner T :=
  if (0 <? Z.of_nat (size (r_waiters r))) && negb (bool_decide (sta_role (r_status r) = Leader))
  then fail_waiters ErrLeadershipLost r else r.

(** One read whose barrier has completed. *)
Definition release_read r (rq : readReq) : Runner T :=
  exit_if abandoned r (rq_id rq) with r;
  if rq_index rq <=? sta_applied (r_status r) then answer r (rq_id rq) (ReadReply None)
  else r <| r_applyWaits := r_applyWaits r ++ [rq] |>.

Definition release_reads r : Runner T :=
  foldl release_read (r <| r_applyWaits := [] |>) (r_applyWaits r).

Definition after (lock : bool) (outs : list Envelope) r : option (Runner T) :=
  let r := foldl send_out r outs in
  let '(c, evs) := core_Events (r_core r) in
  let '(r, failed) := foldl note_event (r <| r_core := c |>, []) evs in
  '(r, l) ← applyCommitted lock r;
  let r := publish l r in
  let r := foldl (fun r f => answer r f.1 (ReadReply (Some (ErrReadFailed f.2)))) r failed in
  let r := foldl settle r l in
  let r := lose_waiters r in
  let r := release_reads r in
  Some (r <| r_held := total r |>).

(** ** Requests *)

Definition handleSubmit (now : Z) (lock : bool) (id : nat) (cmd : Command) r : option (Runner T) :=
  exit_if abandoned r id with Some r;
  match Replay_result (state (r_core r)) cmd with
  | Some res => Some (answer r id (SubmitReply (inl res)))
  | None =>
      '(c, outs, err) ← Submit now cmd (r_core r);
      let r := r <| r_core := c |> in
      match err with
      | Some e => after lock outs (answer r id (SubmitReply (inr (ErrSubmit e))))
      | None => after lock outs (hold r (cmd_key cmd) (mkWaiter id cmd (Fingerprint cmd)))
      end
  end.

Definition handleRead (now : Z) (lock : bool) (id : nat) r : option (Runner T) :=
  exit_if abandoned r id with Some r;
  '(c, seq, outs, err) ← core_ReadIndex now (r_core r);
  let r := r <| r_core := c |> in
  match err with
  | Some e => after lock outs (answer r id (ReadReply (Some (ErrRead e))))
  | None => after lock outs (r <| r_pendingReads := <[seq := mkReadReq id 0]> (r_pendingReads r) |>)
  end.

Definition kept_waiters r (ws : list waiter) : list waiter := List.filter (fun w => negb (abandoned r (w_id w))) ws.

Definition keep_waiters r (ws : list waiter) : option (list waiter) :=
  match kept_waiters r ws with [] => None | kept => Some kept end.

Definition sweepAbandoned r : Runner T :=
  let gone := zsum (map (fun kv => len kv.2 - len (kept_waiters r kv.2)) (map_to_list (r_waiters r))) in
  let r := r <| r_waiters := omap (keep_waiters r) (r_waiters r) |> <| r_nwaiters := r_nwaiters r - gone |> in
  let r := r <| r_pendingReads := filter (fun kv => abandoned r (rq_id kv.2) = false) (r_pendingReads r) |> in
  let r := r <| r_applyWaits := List.filter (fun rq => negb (abandoned r (rq_id rq))) (r_applyWaits r) |> in
  r <| r_held := total r |>.

(** [failAll]. *)
Definition failAll (err : RunError) r : Runner T :=
  let r := fail_waiters err r in
  let r := foldl (fun r rq => answer r (rq_id rq) (ReadReply (Some err))) r (map snd (map_to_list (r_pendingReads r))) in
  let r := r <| r_pendingReads := ∅ |> in
  let r := foldl (fun r rq => answer r (rq_id rq) (ReadReply (Some err))) r (r_applyWaits r) in
  r <| r_applyWaits := [] |> <| r_held := 0 |>.

(** ** The loop *)

(** [Run] before its loop. *)
Definition run_start (now : Z) (lock : bool) r : option (Runner T) :=
  '(c, outs) ← core_Tick now (r_core r);
  after lock outs (r <| r_core := c |>).

(** The check behind the [select]. *)
Definition check_failed r : Runner T :=
  match core_Failed (r_core r) with
  | Some err => out (failAll (ErrCore err) r <| r_done := true |>) (Return (Some err))
  | None => r
  end.

Definition take (x : Input) (lock : bool) r : option (Runner T) :=
  match x with
  | Inbox now =>
      match r_inbox r with
      | [] => Some r
      | env :: rest =>
          let r := r <| r_inbox := rest |> in
          let r := if r_observed r then out r (ObserveReceived env) else r in
          '(c, outs) ← core_Step now env (r_core r);
          after lock outs (r <| r_core := c |>)
      end
  | TickerC now =>
      let r := sweepAbandoned r in
      '(c, outs) ← core_Tick now (r_core r);
      after lock outs (r <| r_core := c |>)
  | Submits now id cmd => handleSubmit now lock id cmd r
  | Reads now id => handleRead now lock id r
  | Kick => after lock [] r
  | Stop | Delivers _ | Abandons _ => Some r
  end.

(** One round of the loop, or what a caller does meanwhile.  Nothing is taken
    once [Run] has returned. *)
Definition step (x : Input) (lock : bool) r : option (Runner T) :=
  match x with
  | Delivers env => Some (Deliver r env)
  | Abandons id => Some (r <| r_abandoned := {[id]} ∪ r_abandoned r |>)
  | Stop => exit_if r_done r with Some r; Some (out (failAll ErrStopped r <| r_done := true |>) (Return None))
  | _ => exit_if r_done r with Some r; r ← take x lock r; Some (check_failed r)
  end.

Fixpoint run (xs : list (Input * bool)) r : option (Runner T) :=
  match xs with [] => Some r | (x, lock) :: xs => r ← step x lock r; run xs r end.
End Runner.
