(* ===== verification/RunnerInv.v ===== *)
(** The requests an event loop holds (Runner.v): every request is answered at
    most once, and until it is answered, or its caller has gone, it is held at
    exactly one place; the counts and the status snapshot are right; and a
    replica that does not lead holds no Submit and no pending barrier. *)

From S2P Require Import Prelude GoStd Paxos Ledger Game Records Codec Commands Compute State Store Replog.
From S2P Require Import NodeSteps Handlers Stable Pending Replica Runner.

(** How often a request occurs in a list. *)
Definition times (id : nat) (l : list nat) : nat := count_occ Nat.eq_dec l id.

Arguments times : simpl never.

Lemma times_app id l k : times id (l ++ k) = (times id l + times id k)%nat.
Proof. apply count_occ_app. Qed.

Lemma times_cons id x l : times id (x :: l) = ((if decide (x = id) then 1 else 0) + times id l)%nat.
Proof. unfold times. simpl. by destruct (Nat.eq_dec x id), (decide (x = id)). Qed.

#[export] Instance times_proper id : Proper (Permutation ==> eq) (times id).
Proof. intros l k H. by apply Permutation_count_occ. Qed.

Section Accounts.
Context `{U : Unicode} {T : Type} `{ST : Store T} (deal_fuel : nat).
Implicit Types r : Runner T.

Definition waiter_ids (ws : list waiter) : list nat := map w_id ws.
Definition all_waiters (m : gmap IdempotencyKey (list waiter)) : list waiter := concat (map_to_list m).*2.
Definition read_ids (m : gmap Z readReq) : list nat := map rq_id (map_to_list m).*2.

Definition answered_id (o : Output) : option nat := match o with Answer id _ => Some id | _ => None end.
Definition answered_ids r : list nat := omap answered_id (r_out r).
Definition held_ids r : list nat :=
  waiter_ids (all_waiters (r_waiters r)) ++ read_ids (r_pendingReads r) ++ map rq_id (r_applyWaits r).

(** Where request [id] is. *)
Definition places r (id : nat) : nat := times id (answered_ids r) + times id (held_ids r).

(** ** Maps of requests *)

Lemma all_waiters_insert m key ws : m !! key = None -> all_waiters (<[key := ws]> m) ≡ₚ ws ++ all_waiters m.
Proof. intros H. unfold all_waiters. by rewrite map_to_list_insert. Qed.

Lemma all_waiters_delete m key ws : m !! key = Some ws -> all_waiters m ≡ₚ ws ++ all_waiters (delete key m).
Proof. intros H. rewrite <- (insert_delete_id m key ws H) at 1. apply all_waiters_insert, lookup_delete_eq. Qed.

Lemma all_waiters_hold m key w : all_waiters (<[key := default [] (m !! key) ++ [w]]> m) ≡ₚ w :: all_waiters m.
Proof.
  destruct (m !! key) as [ws|] eqn:E; simpl.
  - rewrite <- insert_delete_eq, all_waiters_insert by apply lookup_delete_eq.
    rewrite (all_waiters_delete m key ws E). by rewrite <- Permutation_middle, app_nil_r || rewrite <- app_assoc, Permutation_middle.
  - by rewrite all_waiters_insert.
Qed.

Lemma read_ids_insert m k rq : m !! k = None -> read_ids (<[k := rq]> m) ≡ₚ rq_id rq :: read_ids m.
Proof. intros H. unfold read_ids. by rewrite map_to_list_insert. Qed.

Lemma read_ids_delete m k rq : m !! k = Some rq -> read_ids m ≡ₚ rq_id rq :: read_ids (delete k m).
Proof. intros H. rewrite <- (insert_delete_id m k rq H) at 1. apply read_ids_insert, lookup_delete_eq. Qed.

Lemma read_ids_empty : read_ids ∅ = [].
Proof. reflexivity. Qed.

(** Requests of callers that have gone, filtered out. *)
Lemma times_filter {X} (f : X -> nat) (p : nat -> bool) id l :
  times id (map f (List.filter (fun x => p (f x)) l)) = if p id then times id (map f l) else 0%nat.
Proof.
  induction l as [|x l IH]; simpl; [by destruct (p id)|]. destruct (p (f x)) eqn:Ep; simpl; rewrite ?times_cons, IH.
  - destruct (decide (f x = id)) as [<-|]; [by rewrite Ep|]. by destruct (p id).
  - destruct (decide (f x = id)) as [<-|]; [by rewrite Ep|]. by destruct (p id).
Qed.

Lemma filter_perm {X} (p : X -> bool) l k : l ≡ₚ k -> List.filter p l ≡ₚ List.filter p k.
Proof.
  intros H. induction H as [|x l k _ IH|x y l|l k j _ IH1 _ IH2]; simpl; [done| | |by etrans].
  - destruct (p x); [by constructor|done].
  - destruct (p x), (p y); try done. apply perm_swap.
Qed.

Lemma kept_all r m : all_waiters (omap (keep_waiters r) m) ≡ₚ kept_waiters r (all_waiters m).
Proof.
  induction m as [|key ws m Hk IH] using map_ind; [done|].
  transitivity (kept_waiters r ws ++ all_waiters (omap (keep_waiters r) m)); [|symmetry; unfold kept_waiters at 1;
    rewrite (filter_perm _ _ _ (all_waiters_insert m key ws Hk)), List.filter_app; by apply Permutation_app].
  assert (Hn : omap (keep_waiters r) m !! key = None) by by rewrite lookup_omap, Hk.
  destruct (keep_waiters r ws) as [kept|] eqn:E.
  - rewrite (omap_insert_Some _ _ _ _ kept), all_waiters_insert by done. unfold keep_waiters in E.
    by destruct (kept_waiters r ws); simplify_eq.
  - rewrite omap_insert_None, delete_id by done. unfold keep_waiters in E. by destruct (kept_waiters r ws).
Qed.

Lemma kept_reads (q : readReq -> Prop) `{forall rq, Decision (q rq)} (p : nat -> bool) id (m : gmap Z readReq) :
  (forall rq, q rq <-> p (rq_id rq) = true) ->
  times id (read_ids (filter (fun kv => q kv.2) m)) = if p id then times id (read_ids m) else 0%nat.
Proof.
  intros Hq. induction m as [|k rq m Hk IH] using map_ind; [rewrite map_filter_empty; by destruct (p id)|].
  rewrite (read_ids_insert _ _ _ Hk), times_cons. destruct (decide (q rq)) as [Hp|Hp].
  - rewrite map_filter_insert_True by done. rewrite read_ids_insert, times_cons, IH
      by (apply map_lookup_filter_None; by left). apply Hq in Hp. case_decide as Hd; [subst; by rewrite Hp|by destruct (p id)].
  - rewrite map_filter_insert_False by done. rewrite delete_id, IH by done. case_decide as Hd; [|by destruct (p id)]. subst.
    destruct (p (rq_id rq)) eqn:E; [|done]. by destruct Hp; apply Hq.
Qed.

(** ** Nothing is lost and nothing is answered twice

    [flow l r l' r']: from loop [r] with the requests [l] in hand to [r'] with
    [l'] in hand, every request stays where it is counted once; only one whose
    caller has gone may drop out. *)
Definition flow (l : list nat) r (l' : list nat) r' : Prop :=
  r_abandoned r' = r_abandoned r /\ forall id,
    (places r' id + times id l' <= places r id + times id l)%nat /\
    (id ∉ r_abandoned r -> (places r' id + times id l' = places r id + times id l)%nat).

Lemma flow_refl l r : flow l r l r.
Proof. by split. Qed.

Lemma flow_trans l1 r1 l2 r2 l3 r3 : flow l1 r1 l2 r2 -> flow l2 r2 l3 r3 -> flow l1 r1 l3 r3.
Proof.
  intros [A1 H1] [A2 H2]. split; [congruence|]. intros id. destruct (H1 id) as [L1 E1], (H2 id) as [L2 E2].
  split; [lia|]. intros Hid. rewrite E2 by congruence. by apply E1.
Qed.

(** A step that keeps the sums. *)
Lemma flow_exact l r l' r' : r_abandoned r' = r_abandoned r ->
  (forall id, (times id (answered_ids r') + times id (held_ids r') + times id l' = times id (answered_ids r) + times id (held_ids r) + times id l)%nat) ->
  flow l r l' r'.
Proof. intros A H. split; [done|]. intros id. unfold places. rewrite H. done. Qed.

(** Fields the accounts do not see. *)
Lemma flow_same l r r' : r_abandoned r' = r_abandoned r -> r_waiters r' = r_waiters r -> r_pendingReads r' = r_pendingReads r ->
  r_applyWaits r' = r_applyWaits r -> answered_ids r' = answered_ids r -> flow l r l r'.
Proof. intros A H1 H2 H3 H4. apply flow_exact; [done|]. intros id. unfold held_ids. by rewrite H1, H2, H3, H4. Qed.

Lemma answered_out r o : answered_ids (out r o) = answered_ids r ++ match answered_id o with Some id => [id] | None => [] end.
Proof. unfold answered_ids, out. simpl. rewrite omap_app. simpl. by destruct (answered_id o). Qed.

Lemma flow_out l r o : answered_id o = None -> flow l r l (out r o).
Proof. intros E. apply flow_same; try done. by rewrite answered_out, E, app_nil_r. Qed.

Lemma flow_answer l r id a : flow (id :: l) r l (answer r id a).
Proof.
  apply flow_exact; [done|]. intros i. unfold answer. rewrite answered_out. simpl. rewrite times_app, !times_cons.
  unfold held_ids. simpl. change (times i []) with 0%nat. lia.
Qed.

(** Requests taken in hand one by one. *)
Lemma flow_fold {X} (f : Runner T -> X -> Runner T) (g : X -> nat) xs l r :
  (forall r x l, flow (g x :: l) r l (f r x)) -> flow (map g xs ++ l) r l (foldl f r xs).
Proof.
  intros Hf. revert r. induction xs as [|x xs IH]; intros r; simpl; [apply flow_refl|].
  eapply flow_trans; [apply Hf|apply IH].
Qed.

Lemma flow_fold_same {X} (f : Runner T -> X -> Runner T) xs l r :
  (forall r x, flow l r l (f r x)) -> flow l r l (foldl f r xs).
Proof.
  intros Hf. revert r. induction xs as [|x xs IH]; intros r; simpl; [apply flow_refl|].
  eapply flow_trans; [apply Hf|apply IH].
Qed.

(** Taking everything out of one of the places. *)
Lemma flow_take_waiters l r m ws n : r_waiters r = m -> forall m', all_waiters m ≡ₚ ws ++ all_waiters m' ->
  flow l r (waiter_ids ws ++ l) (r <| r_waiters := m' |> <| r_nwaiters := n |>).
Proof.
  intros <- m' H. apply flow_exact; [done|]. intros id. unfold held_ids. simpl.
  assert (E : times id (waiter_ids (all_waiters (r_waiters r))) = (times id (waiter_ids ws) + times id (waiter_ids (all_waiters m')))%nat).
  { unfold waiter_ids. change (map w_id ?x) with (w_id <$> x). rewrite H, fmap_app, times_app. done. }
  rewrite !times_app, E. change (answered_ids (r <| r_waiters := m' |> <| r_nwaiters := n |>)) with (answered_ids r). lia.
Qed.

Lemma flow_take_read l r k rq : r_pendingReads r !! k = Some rq ->
  flow l r (rq_id rq :: l) (r <| r_pendingReads := delete k (r_pendingReads r) |>).
Proof.
  intros H. apply flow_exact; [done|]. intros id. unfold held_ids. simpl. rewrite !times_app, (read_ids_delete _ _ _ H), !times_cons.
  change (answered_ids (r <| r_pendingReads := delete k (r_pendingReads r) |>)) with (answered_ids r). lia.
Qed.

Lemma flow_add_wait l r rq : flow (rq_id rq :: l) r l (r <| r_applyWaits := r_applyWaits r ++ [rq] |>).
Proof.
  apply flow_exact; [done|]. intros id. unfold held_ids. simpl. rewrite map_app, !times_app, !times_cons. simpl. rewrite times_cons.
  change (times id []) with 0%nat. change (answered_ids (r <| r_applyWaits := r_applyWaits r ++ [rq] |>)) with (answered_ids r). lia.
Qed.

Lemma flow_add_read l r k id : r_pendingReads r !! k = None ->
  flow (id :: l) r l (r <| r_pendingReads := <[k := mkReadReq id 0]> (r_pendingReads r) |>).
Proof.
  intros H. apply flow_exact; [done|]. intros i. unfold held_ids. simpl. rewrite !times_app, (read_ids_insert _ _ _ H), !times_cons. simpl.
  change (answered_ids (r <| r_pendingReads := <[k := mkReadReq id 0]> (r_pendingReads r) |>)) with (answered_ids r). lia.
Qed.

(** The caller of a request in hand has gone. *)
Lemma flow_drop l r id : abandoned r id = true -> flow (id :: l) r l r.
Proof.
  unfold abandoned. intros Ha%bool_decide_eq_true. split; [done|]. intros i. rewrite times_cons. split; [lia|].
  intros Hi. case_decide; [by subst|lia].
Qed.

Lemma flow_core l r c : flow l r l (r <| r_core := c |>).
Proof. by apply flow_same. Qed.

Lemma flow_done l r : flow l r l (r <| r_done := true |>).
Proof. by apply flow_same. Qed.

Lemma flow_hold l r key w : flow (w_id w :: l) r l (hold r key w).
Proof.
  apply flow_exact; [done|]. intros id. unfold held_ids, hold. simpl.
  assert (E : times id (waiter_ids (all_waiters (<[key := default [] (r_waiters r !! key) ++ [w]]> (r_waiters r)))) =
    times id (w_id w :: waiter_ids (all_waiters (r_waiters r)))).
  { unfold waiter_ids. change (map w_id ?x) with (w_id <$> x). by rewrite all_waiters_hold. }
  rewrite !times_app, E, !times_cons.
  change (answered_ids (r <| r_waiters := _ |> <| r_nwaiters := _ |>)) with (answered_ids r). lia.
Qed.

(** ** The parts of [after] *)

Lemma send_out_flow l r env : flow l r l (send_out r env).
Proof. unfold send_out. eapply flow_trans; [|by apply flow_out]. case_goal; [by apply flow_out|apply flow_refl]. Qed.

Lemma note_event_flow l r failed ev r' failed' : note_event (r, failed) ev = (r', failed') ->
  flow (map fst failed ++ l) r (map fst failed' ++ l) r'.
Proof.
  destruct ev as [| seq i|seq e|]; simpl; try (intros [= <- <-]; apply flow_refl);
    (destruct (r_pendingReads r !! seq) as [rq|] eqn:E; intros [= <- <-]; [|apply flow_refl]).
  - eapply flow_trans; [by apply (flow_take_read _ r seq rq)|].
    exact (flow_add_wait (map fst failed ++ l) (r <| r_pendingReads := delete seq (r_pendingReads r) |>) (mkReadReq (rq_id rq) i)).
  - eapply flow_trans; [by apply (flow_take_read _ r seq rq)|]. rewrite map_app, <- app_assoc. simpl.
    apply flow_exact; [done|]. intros id. rewrite !times_cons, !times_app, times_cons. lia.
Qed.

Lemma note_events_flow l evs r failed r' failed' : foldl note_event (r, failed) evs = (r', failed') ->
  flow (map fst failed ++ l) r (map fst failed' ++ l) r'.
Proof.
  revert r failed. induction evs as [|ev evs IH]; intros r failed; [intros [= <- <-]; apply flow_refl|].
  change (foldl note_event (r, failed) (ev :: evs)) with (foldl note_event (note_event (r, failed) ev) evs).
  destruct (note_event (r, failed) ev) as [r1 failed1] eqn:E. intros H.
  eapply flow_trans; [exact (note_event_flow _ _ _ _ _ _ E)|by apply IH].
Qed.

Lemma applyCommitted_flow l lock r r' la : applyCommitted deal_fuel lock r = Some (r', la) -> flow l r l r'.
Proof.
  unfold applyCommitted. case_goal; [intros [= <- _]; apply flow_refl|]. case_goal; [intros [= <- _]; apply flow_same; reflexivity|].
  intros ([c la'] & _ & [= <- _])%bind_Some. apply flow_same; reflexivity.
Qed.

Lemma publish_flow l la r : flow l r l (publish la r).
Proof.
  unfold publish. set (r1 := if _ <? _ then _ else _).
  assert (H1 : flow l r l r1) by (unfold r1; case_goal; [by apply flow_out|apply flow_refl]).
  eapply flow_trans; [exact H1|]. set (r2 := r1 <| r_status := _ |>).
  apply (flow_trans _ _ l r2); [by apply flow_same|]. case_goal; [by apply flow_out|apply flow_refl].
Qed.

Lemma settle_waiter_flow l key fp res r w : flow (w_id w :: l) r l (settle_waiter key fp res r w).
Proof.
  unfold settle_waiter. case_goal; [apply flow_answer|]. case_goal; [apply flow_answer|apply flow_hold].
Qed.

Lemma settle_flow l r a : flow l r l (settle r a).
Proof.
  unfold settle. case_goal; [apply flow_refl|]. destruct (ap_cmd a) as [[cmd res]|]; [|apply flow_refl].
  destruct (r_waiters r !! cmd_key cmd) as [ws|] eqn:Ew; [|apply flow_refl].
  eapply flow_trans; [apply (flow_take_waiters l r (r_waiters r) ws (r_nwaiters r - len ws) eq_refl _ (all_waiters_delete _ _ _ Ew))|].
  apply (flow_fold _ w_id). intros. apply settle_waiter_flow.
Qed.

Lemma fail_waiters_flow l err r : flow l r l (fail_waiters err r).
Proof.
  unfold fail_waiters. set (ws := concat _). set (r0 := r <| r_waiters := ∅ |> <| r_nwaiters := 0 |>).
  assert (H0 : flow l r (map w_id ws ++ l) r0).
  { apply (flow_take_waiters l r (r_waiters r) ws 0 eq_refl ∅). unfold all_waiters at 2. rewrite map_to_list_empty. simpl.
    by rewrite app_nil_r. }
  eapply flow_trans; [exact H0|].
  assert (E : forall ws r, foldl (fun r w => answer r (w_id w) (SubmitReply (inr err))) r ws <| r_waiters := ∅ |> <| r_nwaiters := 0 |> =
    foldl (fun r w => answer r (w_id w) (SubmitReply (inr err))) (r <| r_waiters := ∅ |> <| r_nwaiters := 0 |>) ws).
  { clear. intros ws. induction ws as [|w ws IH]; intros r; [done|]. simpl. rewrite IH. done. }
  rewrite E. apply (flow_fold _ w_id). intros. apply flow_answer.
Qed.

Lemma lose_waiters_flow l r : flow l r l (lose_waiters r).
Proof. unfold lose_waiters. case_goal; [apply fail_waiters_flow|apply flow_refl]. Qed.

Lemma release_read_flow l r rq : flow (rq_id rq :: l) r l (release_read r rq).
Proof.
  unfold release_read. case_goal; [by apply flow_drop|]. case_goal; [apply flow_answer|apply flow_add_wait].
Qed.

Lemma release_reads_flow l r : flow l r l (release_reads r).
Proof.
  unfold release_reads. set (r0 := r <| r_applyWaits := [] |>).
  assert (H0 : flow l r (map rq_id (r_applyWaits r) ++ l) r0).
  { apply flow_exact; [done|]. intros id. unfold held_ids. simpl. rewrite !times_app. change (answered_ids r0) with (answered_ids r).
    change (times id []) with 0%nat. lia. }
  eapply flow_trans; [exact H0|]. apply (flow_fold _ rq_id). intros. apply release_read_flow.
Qed.

Lemma after_flow l lock outs r r' : after deal_fuel lock outs r = Some r' -> flow l r l r'.
Proof.
  unfold after. set (r1 := foldl send_out r outs). destruct (core_Events (r_core r1)) as [c evs].
  destruct (foldl note_event (r1 <| r_core := c |>, []) evs) as [r2 failed] eqn:E2.
  intros ([r3 la] & E3 & [= <-])%bind_Some.
  eapply flow_trans; [apply (flow_fold_same send_out); intros; apply send_out_flow|]. fold r1.
  eapply flow_trans; [apply (flow_core _ r1 c)|].
  eapply flow_trans; [apply (note_events_flow l evs _ [] _ _ E2)|].
  eapply flow_trans; [by apply (applyCommitted_flow _ lock r2 r3 la)|].
  eapply flow_trans; [apply (publish_flow _ la)|].
  eapply flow_trans; [apply (flow_fold (fun r f => answer r f.1 (ReadReply (Some (ErrReadFailed f.2)))) fst failed l); intros; apply flow_answer|].
  eapply flow_trans; [apply (flow_fold_same settle la); intros; apply settle_flow|].
  eapply flow_trans; [apply lose_waiters_flow|]. eapply flow_trans; [apply release_reads_flow|]. by apply flow_same.
Qed.

(** [failAll] answers everything that is held. *)
Lemma failAll_flow l err r : flow l r l (failAll err r).
Proof.
  unfold failAll. eapply flow_trans; [apply (fail_waiters_flow l err)|]. set (r1 := fail_waiters err r).
  set (rs := map snd (map_to_list (r_pendingReads r1))).
  set (tell := fun (r : Runner T) (rq : readReq) => answer r (rq_id rq) (ReadReply (Some err))).
  assert (Ht : forall r rq l, flow (rq_id rq :: l) r l (tell r rq)) by (intros; apply flow_answer).
  assert (E1 : forall rs r, foldl tell r rs <| r_pendingReads := ∅ |> = foldl tell (r <| r_pendingReads := ∅ |>) rs).
  { clear. intros rs. induction rs as [|rq rs IH]; intros r; [done|]. simpl. rewrite IH. done. }
  assert (E2 : forall rs r h, foldl tell r rs <| r_applyWaits := [] |> <| r_held := h |> =
    foldl tell (r <| r_applyWaits := [] |> <| r_held := h |>) rs).
  { clear. intros rs. induction rs as [|rq rs IH]; intros r h; [done|]. simpl. rewrite IH. done. }
  eapply flow_trans with (l2 := map rq_id rs ++ l) (r2 := r1 <| r_pendingReads := ∅ |>).
  - apply flow_exact; [done|]. intros id. unfold held_ids. change (answered_ids (r1 <| r_pendingReads := ∅ |>)) with (answered_ids r1).
    change (r_pendingReads (r1 <| r_pendingReads := ∅ |>)) with (∅ : gmap Z readReq). rewrite !times_app, read_ids_empty.
    change (read_ids (r_pendingReads r1)) with (map rq_id rs). change (times id []) with 0%nat. simpl. lia.
  - rewrite E1. eapply flow_trans; [apply (flow_fold tell rq_id rs l _ Ht)|]. set (r2 := foldl tell _ rs).
    rewrite E2. eapply flow_trans with (l2 := map rq_id (r_applyWaits r2) ++ l) (r2 := r2 <| r_applyWaits := [] |> <| r_held := 0 |>).
    + apply flow_exact; [done|]. intros id. unfold held_ids. simpl. rewrite !times_app.
      change (answered_ids (r2 <| r_applyWaits := [] |> <| r_held := 0 |>)) with (answered_ids r2). change (times id []) with 0%nat. lia.
    + apply (flow_fold tell rq_id). exact Ht.
Qed.

(** ** Requests taken and forgotten *)

Lemma check_failed_flow l r : flow l r l (check_failed r).
Proof.
  unfold check_failed. destruct (core_Failed _) as [err|]; [|apply flow_refl].
  eapply flow_trans; [apply failAll_flow|]. eapply flow_trans; [apply flow_done|by apply flow_out].
Qed.

Lemma handleSubmit_flow l now lock id cmd r r' : handleSubmit deal_fuel now lock id cmd r = Some r' -> flow (id :: l) r l r'.
Proof.
  unfold handleSubmit. case_goal; [intros [= <-]; by apply flow_drop|].
  destruct (Replay_result _ cmd) as [res|]; [intros [= <-]; apply flow_answer|].
  intros ([[c outs] err] & _ & R)%bind_Some. eapply flow_trans; [apply (flow_core _ r c)|].
  destruct err as [e|]; (eapply flow_trans; [|exact (after_flow l lock outs _ r' R)]); [apply flow_answer|].
  exact (flow_hold l (r <| r_core := c |>) (cmd_key cmd) (mkWaiter id cmd (Fingerprint cmd))).
Qed.

(** A barrier has a number of its own. *)
Definition numbered r : Prop := is_failed (log (r_core r)) = false ->
  forall seq, is_Some (r_pendingReads r !! seq) -> seq <= n_readSeq (log (r_core r)).

Lemma handleRead_flow l now lock id r r' : numbered r -> orderly (log (r_core r)) -> roomy (log (r_core r)) ->
  handleRead deal_fuel now lock id r = Some r' -> flow (id :: l) r l r'.
Proof.
  intros Hn Ho Hr. unfold handleRead. case_goal; [intros [= <-]; by apply flow_drop|]. unfold core_ReadIndex.
  intros ([[[c k] outs] err] & R & E')%bind_Some. apply bind_Some in R as ([[[n k'] o] e] & R & [= <- -> -> ->]).
  eapply flow_trans; [apply (flow_core _ r (mkCore n (state (r_core r))))|].
  pose proof (ReadIndex_keeps _ _ _ _ _ _ Ho (ro_reads _ Hr) R) as Hk.
  destruct err as [e|]; (eapply flow_trans; [|exact (after_flow l lock outs _ r' E')]); [apply flow_answer|].
  destruct Hk as (_ & F & -> & _). apply flow_add_read. change (r_pendingReads r !! (n_readSeq (log (r_core r)) + 1) = None).
  apply eq_None_not_Some. intros Hs. specialize (Hn F _ Hs). lia.
Qed.

Lemma sweepAbandoned_flow l r : flow l r l (sweepAbandoned r).
Proof.
  split; [done|]. intros id.
  assert (E : answered_ids (sweepAbandoned r) = answered_ids r) by done.
  set (p := fun i => negb (abandoned r i)).
  assert (H : times id (held_ids (sweepAbandoned r)) = if p id then times id (held_ids r) else 0%nat).
  { unfold held_ids. rewrite !times_app.
    change (r_waiters (sweepAbandoned r)) with (omap (keep_waiters r) (r_waiters r)).
    change (r_pendingReads (sweepAbandoned r)) with (filter (fun kv => abandoned r (rq_id kv.2) = false) (r_pendingReads r)).
    change (r_applyWaits (sweepAbandoned r)) with (List.filter (fun rq => p (rq_id rq)) (r_applyWaits r)).
    unfold waiter_ids. change (map w_id (all_waiters ?m)) with (w_id <$> all_waiters m). rewrite kept_all.
    unfold kept_waiters. change (fun w => negb (abandoned r (w_id w))) with (fun w => p (w_id w)).
    change (w_id <$> ?l) with (map w_id l). rewrite !times_filter. pose proof (kept_reads (fun rq => abandoned r (rq_id rq) = false) p id (r_pendingReads r)) as Er. etrans; [refine (f_equal (fun k => _ + (k + _))%nat (Er _))|].
    - intros rq. unfold p. by destruct (abandoned r (rq_id rq)).
    - by destruct (p id). }
  unfold places. rewrite E, H. unfold p, abandoned. case_bool_decide; simpl; split; (lia || done).
Qed.

(** ** A round of the loop *)

(** The request an input brings, unless [Run] has returned. *)
Definition brings (x : Input) r : list nat :=
  if r_done r then [] else match x with Submits _ id _ | Reads _ id => [id] | _ => [] end.

Lemma take_flow l x lock r r' : numbered r -> orderly (log (r_core r)) -> roomy (log (r_core r)) -> r_done r = false ->
  take deal_fuel x lock r = Some r' -> flow (brings x r ++ l) r l r'.
Proof.
  intros Hn Ho Hr Hd. unfold brings. rewrite Hd. unfold take. destruct x as [|now|now|now id cmd|now id| |env|id]; simpl.
  - intros [= <-]. apply flow_refl.
  - destruct (r_inbox r) as [|env rest]; [intros [= <-]; apply flow_refl|].
    set (r0 := if r_observed _ then _ else _). intros ([c outs] & _ & E)%bind_Some.
    eapply flow_trans; [|exact (after_flow l lock outs _ r' E)]. eapply flow_trans; [|apply flow_core].
    unfold r0. case_goal; [|by apply flow_same]. eapply flow_trans; [|by apply flow_out]. by apply flow_same.
  - intros ([c outs] & _ & E)%bind_Some. eapply flow_trans; [apply sweepAbandoned_flow|].
    eapply flow_trans; [|exact (after_flow l lock outs _ r' E)]. apply flow_core.
  - apply handleSubmit_flow.
  - by apply handleRead_flow.
  - apply after_flow.
  - intros [= <-]. apply flow_refl.
  - intros [= <-]. apply flow_refl.
Qed.

(** Every request taken is counted; only one whose caller has gone may be
    missing. *)
Definition balanced (taken : list nat) r : Prop :=
  forall id, (places r id <= times id taken)%nat /\ (id ∉ r_abandoned r -> places r id = times id taken).

Lemma balanced_flow taken l r r' : balanced taken r -> flow l r [] r' -> balanced (taken ++ l) r'.
Proof.
  intros H [A F] id. destruct (H id) as [H1 H2], (F id) as [F1 F2]. rewrite A, times_app. change (times id []) with 0%nat in *.
  split; [lia|]. intros Hid. rewrite <- H2 by done. specialize (F2 Hid). lia.
Qed.

Lemma step_balanced taken x lock r r' : numbered r -> orderly (log (r_core r)) -> roomy (log (r_core r)) ->
  step deal_fuel x lock r = Some r' -> balanced taken r -> balanced (taken ++ brings x r) r'.
Proof.
  intros Hn Ho Hr E H. unfold step in E.
  assert (Hloop : (exit_if r_done r with Some r; r ← take deal_fuel x lock r; Some (check_failed r)) = Some r' ->
    balanced (taken ++ brings x r) r').
  { unfold brings. destruct (r_done r) eqn:Hd; [intros [= <-]; by rewrite app_nil_r|]. intros (r1 & E1 & [= <-])%bind_Some.
    apply (balanced_flow _ _ _ _ H). eapply flow_trans; [|apply check_failed_flow].
    pose proof (take_flow [] x lock r r1 Hn Ho Hr Hd E1) as F. unfold brings in F. by rewrite Hd, app_nil_r in F. }
  destruct x as [|now|now|now id cmd|now id| |env|id]; try (by apply Hloop).
  - unfold brings. destruct (r_done r); [injection E as <-; by rewrite app_nil_r|]. injection E as <-.
    apply (balanced_flow _ _ _ _ H). eapply flow_trans; [apply failAll_flow|]. eapply flow_trans; [apply flow_done|by apply flow_out].
  - injection E as <-. apply (balanced_flow _ _ _ _ H). unfold brings, Deliver. destruct (r_done r); case_goal; by apply flow_same.
  - injection E as <-. unfold brings. replace (if r_done r then _ else _) with (@nil nat) by by destruct (r_done r).
    rewrite app_nil_r. intros i. destruct (H i) as [H1 H2]. split; [exact H1|]. simpl. intros Hi. apply H2. set_solver.
Qed.
End Accounts.
