(* ===== verification/RunnerState.v ===== *)
(** What holds of an event loop between two rounds (Runner.v): how the
    requests it holds relate to the log, the state machine and the status
    snapshot, and what the answers it has given say about the state. *)

From S2P Require Import Prelude GoStd Paxos Ledger Game Records Codec Commands Compute State Changes.
From S2P Require Import TournamentInv PlayInv LedgerInv Machine Reach Guarantees Blind Store Replog.
From S2P Require Import NodeSteps Handlers Stable Pending Replica Runner RunnerInv.

Section Batch.
Context `{U : Unicode} {T : Type} `{ST : Store T} (deal_fuel : nat).
Implicit Types c : Core T.

(** ** What a batch of slots did to the results table *)

(** The slot that [a] reports leads from [st] to [st1]. *)
Record consumed (st : State) (a : Applied) (st1 : State) : Prop := {
  cs_grows : results st ⊆ results st1;
  cs_command : ap_noop a = false -> exists cmd res, ap_cmd a = Some (cmd, res) /\
    exists rec, results st1 !! cmd_key cmd = Some rec /\
      (results st !! cmd_key cmd = None -> rec = mkRecord (Fingerprint cmd) res);
  cs_new : forall key, results st !! key = None -> is_Some (results st1 !! key) ->
    ap_noop a = false /\ exists cmd res, ap_cmd a = Some (cmd, res) /\ cmd_key cmd = key;
}.

Inductive batch : State -> list Applied -> State -> Prop :=
| bt_nil st : batch st [] st
| bt_cons st a st1 l st2 : consumed st a st1 -> batch st1 l st2 -> batch st (a :: l) st2.

Lemma batch_grows st l st' : batch st l st' -> results st ⊆ results st'.
Proof. intros H. induction H as [|st a st1 l st2 C _ IH]; [done|]. by etrans; [apply (cs_grows _ _ _ C)|]. Qed.

Lemma consumed_skip st slot err : consumed st (mkApplied slot None true err) (Skip st slot).
Proof.
  assert (E : results (Skip st slot) = results st) by (unfold Skip; by case_goal).
  split; [by rewrite E|done|]. intros key Hk. rewrite E, Hk. by intros [? ?].
Qed.

Lemma Decode_inl b cmd : Decode b = inl cmd -> ValidateKey (cmd_key cmd) = None /\ is_Some (cmd_op cmd).
Proof.
  unfold Decode. destruct (read_command b) as [w|]; [|done]. destruct (ValidateKey (wc_key w)) eqn:Ek; [done|].
  destruct (wc_body w) as [body|]; [|done]. destruct (read_op _ body) as [[op|]|]; [|done..]. intros [= <-]. by split.
Qed.

Lemma consumed_apply st slot ballot cmd st1 res :
  reachable deal_fuel st -> command_ok deal_fuel cmd -> applied st < slot -> ValidateKey (cmd_key cmd) = None -> is_Some (cmd_op cmd) ->
  Apply deal_fuel st slot ballot cmd = Some (st1, res) -> consumed st (mkApplied slot (Some (cmd, res)) false None) st1.
Proof.
  intros Hr Hok Hlt Hv [op Hop] E. destruct (reachable_good _ _ Hr) as [I R].
  destruct (results st !! cmd_key cmd) as [rec|] eqn:Hk.
  - destruct (Apply_recorded deal_fuel st slot ballot cmd rec I R Hok Hlt Hk) as (s' & E' & S). rewrite E in E'. injection E' as <- ->.
    pose proof (sd_results _ _ S) as Er. split; [by rewrite Er| |].
    + intros _. eexists _, _. split; [done|]. exists rec. rewrite Er. split; [done|congruence].
    + intros key Hn [? Hs]. rewrite Er, Hn in Hs. done.
  - destruct (Apply_fresh deal_fuel st slot ballot cmd op Hr Hok Hlt Hv Hk Hop) as (s0 & s1 & res' & E' & _ & _ & _ & _ & Er & _).
    rewrite E in E'. injection E' as <- <-. split.
    + rewrite Er. by apply insert_subseteq.
    + intros _. eexists _, _. split; [done|]. eexists. rewrite Er, lookup_insert_eq. by split.
    + intros key Hn [r Hs]. rewrite Er in Hs. apply lookup_insert_Some in Hs as [[<- _]|[_ Hs]]; [|congruence]. split; [done|]. by eexists _, _.
Qed.

(** The values of a log decode. *)
Definition log_decodes c : Prop := forall k e, n_chosen (log c) !! k = Some e -> value_ok deal_fuel (en_value e).

Lemma ApplyNext_consumed c c' x : log_decodes c -> reachable deal_fuel (state c) ->
  0 <= applied (state c) < 2 ^ 63 -> n_commitIndex (log c) < 2 ^ 63 -> ApplyNext deal_fuel c = Some (c', x) ->
  log c' = log c /\ reachable deal_fuel (state c') /\
  match x with
  | None => c' = c /\ n_commitIndex (log c) <= applied (state c)
  | Some a => consumed (state c) a (state c') /\ applied (state c') = applied (state c) + 1 /\ applied (state c) < n_commitIndex (log c)
  end.
Proof.
  intros HD Hr Ha Hc. unfold ApplyNext.
  assert (Eu : u64 (applied (state c) + 1) = applied (state c) + 1) by (apply u64_id; unfold in_u64; lia). rewrite Eu.
  destruct (Z.ltb_spec (n_commitIndex (log c)) (applied (state c) + 1)); [intros [= <- <-]; split_and!; [done..|lia]|].
  assert (Hs : forall err, log (mkCore (log c) (Skip (state c) (applied (state c) + 1))) = log c /\
    reachable deal_fuel (Skip (state c) (applied (state c) + 1)) /\
    consumed (state c) (mkApplied (applied (state c) + 1) None true err) (Skip (state c) (applied (state c) + 1)) /\
    applied (Skip (state c) (applied (state c) + 1)) = applied (state c) + 1 /\ applied (state c) < n_commitIndex (log c)).
  { intros err. split_and!; [done| |apply consumed_skip|apply Skip_applied; lia|lia]. eapply rtc_r; [exact Hr|apply st_skip]. }
  destruct (n_chosen (log c) !! _) as [e|] eqn:He; [|intros [= <- <-]; apply Hs].
  destruct (NoOp e) eqn:En; [intros [= <- <-]; apply Hs|].
  destruct (Decode _) as [cmd|err] eqn:Ed; [|intros [= <- <-]; apply Hs].
  intros ([st res] & E & [= <- <-])%bind_Some. simpl.
  assert (Hok : command_ok deal_fuel cmd).
  { destruct (HD _ _ He) as [Hl|(cmd' & Ed' & Hok)]; [|by rewrite Ed in Ed'; injection Ed' as ->].
    unfold NoOp in En. rewrite Hl in En. done. }
  destruct (Decode_inl _ _ Ed) as [Hv Ho].
  destruct (Apply_reaches deal_fuel (state c) (applied (state c) + 1) (en_ballot e) cmd Hr Hok) as (st' & res' & E' & Ha'); [lia|].
  rewrite E in E'. injection E' as <- <-. split_and!; [done| | |done|lia].
  - eapply rtc_r; [exact Hr|]. by eapply st_apply.
  - eapply consumed_apply; try done. lia.
Qed.

Lemma ApplyCommitted_batch c c' l : log_decodes c -> reachable deal_fuel (state c) ->
  0 <= applied (state c) < 2 ^ 63 -> n_commitIndex (log c) < 2 ^ 63 -> ApplyCommitted deal_fuel c = Some (c', l) ->
  log c' = log c /\ reachable deal_fuel (state c') /\ batch (state c) l (state c') /\
  n_commitIndex (log c) <= applied (state c') /\ applied (state c) <= applied (state c') < 2 ^ 63.
Proof.
  unfold ApplyCommitted. generalize (Z.to_nat (n_commitIndex (log c) - applied (state c))). intros fuel.
  revert c c' l. induction fuel as [|fuel IH]; intros c c' l HD Hr Ha Hc E; simpl in E;
    apply bind_Some in E as ([c1 x] & E1 & E); destruct (ApplyNext_consumed c c1 x HD Hr Ha Hc E1) as (L1 & R1 & H1);
    destruct x as [a|].
  - done.
  - injection E as <- <-. destruct H1 as [-> H1]. split_and!; try done; [constructor|lia..].
  - apply bind_Some in E as ([c2 l2] & E2 & [= <- <-]). destruct H1 as (C & A1 & A2).
    destruct (IH c1 c2 l2) as (L2 & R2 & B & K1 & K2); [|done|lia|by rewrite L1|done|].
    { unfold log_decodes. by rewrite L1. }
    rewrite L1 in *. split_and!; [done|done|by eapply bt_cons|done|lia|lia].
  - injection E as <- <-. destruct H1 as [-> H1]. split_and!; try done; [constructor|lia..].
Qed.
End Batch.

Section Rounds.
Context `{U : Unicode} {T : Type} `{ST : Store T} (deal_fuel : nat).
(** The command that Submit [id] asks for, and the slots that consistent Read
    [id] may be answered behind. *)
Context (asked : nat -> Command) (due : nat -> Slot -> Prop).
Implicit Types r : Runner T.

(** ** Outputs *)

(** What the results table holds for a command, as its caller is told. *)
Definition told (st : State) (cmd : Command) (res : Result) : Prop :=
  exists rec, results st !! cmd_key cmd = Some rec /\
    if bool_decide (rec_fingerprint rec = Fingerprint cmd) then res = rec_result rec \/ res = with_replayed (rec_result rec)
    else res = result_at KeyReused key_reused 0.

Definition output_ok (st : State) (o : Output) : Prop :=
  match o with
  | Answer id (SubmitReply (inl res)) => told st (asked id) res
  | Answer id (ReadReply None) => exists i, due id i /\ i <= applied st
  | _ => True
  end.

Definition answers_ok (st : State) r : Prop := Forall (output_ok st) (r_out r).

Lemma told_mono st st' cmd res : results st ⊆ results st' -> told st cmd res -> told st' cmd res.
Proof. intros H (rec & Hr & Hx). exists rec. split; [by eapply lookup_weaken|done]. Qed.

Lemma output_mono st st' o : results st ⊆ results st' -> applied st <= applied st' -> output_ok st o -> output_ok st' o.
Proof.
  intros H Ha. destruct o as [| | | | |id [[res|err]|[err|]]|]; try done; simpl; [by apply told_mono|].
  intros (i & Hi & Hle). exists i. split; [done|lia].
Qed.

Lemma replay_told st cmd res : Replay_result st cmd = Some res -> told st cmd res.
Proof.
  unfold Replay_result. intros (rec & Hr & [= <-])%bind_Some. exists rec. split; [done|].
  case_bool_decide; simpl; [by right|done].
Qed.

(** [r'] is [r] with more outputs. *)
Definition says (P : Output -> Prop) r r' : Prop := exists l, r' = r <| r_out := r_out r ++ l |> /\ Forall P l.

Lemma says_refl P r : says P r r.
Proof. exists []. split; [|done]. rewrite app_nil_r. by destruct r. Qed.

Lemma says_trans P r1 r2 r3 : says P r1 r2 -> says P r2 r3 -> says P r1 r3.
Proof.
  intros (l1 & -> & H1) (l2 & -> & H2). exists (l1 ++ l2). split; [|by apply Forall_app]. simpl. by rewrite app_assoc.
Qed.

Lemma says_out (P : Output -> Prop) r o : P o -> says P r (out r o).
Proof. intros H. exists [o]. split; [done|by constructor]. Qed.

Lemma says_fold {X} P (f : Runner T -> X -> Runner T) l r : (forall r x, x ∈ l -> says P r (f r x)) -> says P r (foldl f r l).
Proof.
  intros H. revert r. induction l as [|x l IH]; intros r; [apply says_refl|].
  eapply says_trans; [apply H; by left|apply IH; intros ? ? ?; apply H; by right].
Qed.

Lemma send_out_says (P : Output -> Prop) r env : P (ObserveSent env) -> P (Send env) -> says P r (send_out r env).
Proof. intros H1 H2. unfold send_out. eapply says_trans; [|by apply says_out]. case_goal; [by apply says_out|apply says_refl]. Qed.

Lemma says_answers P st r r' : says P r r' -> (forall o, P o -> output_ok st o) -> answers_ok st r -> answers_ok st r'.
Proof. intros (l & -> & Hl) HP H. apply Forall_app. split; [exact H|]. by eapply Forall_impl. Qed.

(** ** The Submits that wait *)

Definition waiter_ok (key : IdempotencyKey) (w : waiter) : Prop :=
  cmd_key (w_cmd w) = key /\ w_fp w = Fingerprint (w_cmd w) /\ asked (w_id w) = w_cmd w.

(** Waiters are queued under the key of their command, none of which is
    recorded in [st]. *)
Record queues (st : State) r : Prop := {
  qu_ok : forall key ws, r_waiters r !! key = Some ws -> ws <> [] /\ Forall (waiter_ok key) ws;
  qu_new : forall key, is_Some (r_waiters r !! key) -> results st !! key = None;
  qu_count : r_nwaiters r = len (all_waiters (r_waiters r));
}.

Lemma queues_same st r r' : r_waiters r' = r_waiters r -> r_nwaiters r' = r_nwaiters r -> queues st r -> queues st r'.
Proof. intros E1 E2 [H1 H2 H3]. split; [by rewrite E1..|by rewrite E1, E2]. Qed.

Lemma queues_says P st r r' : says P r r' -> queues st r -> queues st r'.
Proof. intros (l & -> & _). apply queues_same; reflexivity. Qed.

Lemma queues_empty st r : queues st (r <| r_waiters := ∅ |> <| r_nwaiters := 0 |>).
Proof.
  split; simpl; [intros key ws H; by rewrite lookup_empty in H|intros key [? H]; by rewrite lookup_empty in H|].
  unfold all_waiters. by rewrite map_to_list_empty.
Qed.

Lemma queues_hold st r key w : queues st r -> waiter_ok key w -> results st !! key = None -> queues st (hold r key w).
Proof.
  intros [H1 H2 H3] Hw Hk. split; simpl.
  - intros k ws. rewrite lookup_insert. case_decide as Hd; [subst k; intros [= <-]|apply H1].
    split; [by destruct (default [] _)|]. apply Forall_app. split; [|by constructor].
    destruct (r_waiters r !! key) as [ws|] eqn:E; simpl; [by apply (H1 key ws)|constructor].
  - intros k. rewrite lookup_insert. case_decide as Hd; [by subst k|apply H2].
  - unfold len in *. rewrite (Permutation_length (all_waiters_hold _ _ _)). simpl. lia.
Qed.

(** A waiter whose key is recorded is told what the table holds. *)
Lemma settle_waiter_says st key fp res r w :
  waiter_ok key w -> state (r_core r) = st -> is_Some (results st !! key) -> results st !! key = Some (mkRecord fp res) ->
  says (output_ok st) r (settle_waiter key fp res r w).
Proof.
  intros (Hk & Hf & Ha) Hst Hs Hr. unfold settle_waiter, answer. case_bool_decide as E.
  - apply says_out. simpl. exists (mkRecord fp res). rewrite Ha, Hk, Hr. split; [done|]. simpl.
    rewrite bool_decide_eq_true_2 by congruence. by left.
  - rewrite Hst. destruct (Replay_result st (w_cmd w)) as [res'|] eqn:Er.
    + apply says_out. simpl. rewrite Ha. by apply replay_told.
    + unfold Replay_result in Er. rewrite Hk, Hr in Er. done.
Qed.

Lemma settle_waiters_says st key fp res r ws :
  Forall (waiter_ok key) ws -> state (r_core r) = st -> results st !! key = Some (mkRecord fp res) ->
  says (output_ok st) r (foldl (settle_waiter key fp res) r ws).
Proof.
  intros Hok Hst Hr. revert r Hst. induction Hok as [|w ws Hw _ IH]; intros r Hst; [apply says_refl|]. cbn [foldl].
  pose proof (settle_waiter_says st key fp res r w Hw Hst (mk_is_Some _ _ Hr) Hr) as H1.
  eapply says_trans; [exact H1|]. apply IH. destruct H1 as (l & -> & _). done.
Qed.

(** The fields [settle] leaves alone. *)
Definition apart r := (r_core r, r_observed r, r_inbox r, r_dropped r, r_pendingReads r, r_applyWaits r, r_applyWait r, r_status r,
  r_abandoned r, r_done r).

Lemma settle_queues st a st1 st' r : consumed st a st1 -> results st1 ⊆ results st' -> state (r_core r) = st' ->
  queues st r -> queues st1 (settle r a) /\ apart (settle r a) = apart r /\ (answers_ok st' r -> answers_ok st' (settle r a)).
Proof.
  intros [Hg Hc Hn] Hsub Hst Hq. unfold settle.
  destruct (ap_noop a) eqn:En.
  { split_and!; [|done..]. destruct Hq as [H1 H2 H3]. split; try done. intros key Hk. specialize (H2 key Hk).
    destruct (results st1 !! key) eqn:E; [|done]. destruct (Hn key H2) as [? _]; [by rewrite E|congruence]. }
  destruct (Hc eq_refl) as (cmd & res & Ea & rec & Hrec & Hfresh). rewrite Ea.
  assert (Hnew : forall key, results st !! key = None -> key <> cmd_key cmd -> results st1 !! key = None).
  { intros key Hk Hne. destruct (results st1 !! key) eqn:E; [|done]. destruct (Hn key Hk) as [_ (cmd' & res' & Ea' & Ek)]; [by rewrite E|].
    rewrite Ea in Ea'. simplify_eq. }
  destruct (r_waiters r !! cmd_key cmd) as [ws|] eqn:Ew.
  2: { split_and!; [|done..]. destruct Hq as [H1 H2 H3]. split; try done. intros key Hk. apply Hnew; [by apply H2|].
       intros ->. rewrite Ew in Hk. by destruct Hk. }
  pose proof (qu_new _ _ Hq (cmd_key cmd) (mk_is_Some _ _ Ew)) as Hk0. rewrite (Hfresh Hk0) in Hrec.
  set (r0 := r <| r_waiters := _ |> <| r_nwaiters := _ |>).
  assert (Hs : says (output_ok st') r0 (foldl (settle_waiter (cmd_key cmd) (Fingerprint cmd) res) r0 ws)).
  { destruct (qu_ok _ _ Hq _ _ Ew) as [_ Hok]. apply settle_waiters_says; [done..|by eapply lookup_weaken]. }
  split_and!.
  - apply (queues_says _ _ _ _ Hs). destruct Hq as [H1 H2 H3]. split; unfold r0; simpl.
    + intros key ws' [_ H]%lookup_delete_Some. by apply H1.
    + intros key [ws' [Hne H]%lookup_delete_Some]. apply Hnew; [apply H2; by eexists|done].
    + rewrite H3. unfold len. rewrite (Permutation_length (all_waiters_delete _ _ _ Ew)), length_app. lia.
  - destruct Hs as (l & -> & _). done.
  - intros Ha. by apply (says_answers _ _ _ _ Hs).
Qed.

Lemma settle_batch st l st' r : batch st l st' -> state (r_core r) = st' -> queues st r ->
  queues st' (foldl settle r l) /\ apart (foldl settle r l) = apart r /\ (answers_ok st' r -> answers_ok st' (foldl settle r l)).
Proof.
  intros Hb. revert r. induction Hb as [|st a st1 l st2 C B IH]; intros r Hst Hq; [done|]. cbn [foldl].
  destruct (settle_queues st a st1 st2 r C (batch_grows _ _ _ B) Hst Hq) as (Hq1 & E1 & A1).
  destruct (IH (settle r a)) as (Hq2 & E2 & A2); [|done|].
  { assert (Ec : r_core (settle r a) = r_core r) by (unfold apart in E1; congruence). by rewrite Ec. }
  split_and!; [done|by rewrite E2|auto].
Qed.

(** ** Events *)

(** [r'] is [r] after the events [evs]: what they report is no longer
    pending, and what they completed waits for its slot. *)
Definition noted (evs : list Event) r r' : Prop := exists p w,
  r' = r <| r_pendingReads := p |> <| r_applyWaits := r_applyWaits r ++ w |> /\
  (forall seq rq, p !! seq = Some rq -> r_pendingReads r !! seq = Some rq /\ existsb (ends seq) evs = false) /\
  (forall rq, rq ∈ w -> exists seq rq0, ReadReady seq (rq_index rq) ∈ evs /\ r_pendingReads r !! seq = Some rq0 /\ rq_id rq = rq_id rq0).

Lemma noted_nil r : noted [] r r.
Proof.
  exists (r_pendingReads r), []. split_and!; [rewrite app_nil_r; by destruct r|done|]. intros rq H. by apply not_elem_of_nil in H.
Qed.

Lemma note_event_noted r failed ev : noted [ev] r (note_event (r, failed) ev).1.
Proof.
  assert (Hsame : (forall seq, is_Some (r_pendingReads r !! seq) -> ends seq ev = false) -> noted [ev] r r).
  { intros H. exists (r_pendingReads r), []. split_and!; [rewrite app_nil_r; by destruct r| |intros rq Hw; by apply not_elem_of_nil in Hw].
    intros seq rq Hs. split; [done|]. simpl. by rewrite H. }
  assert (Hdel : forall k rq0, (forall seq, ends seq ev = (k =? seq)) -> r_pendingReads r !! k = Some rq0 ->
    forall seq rq, delete k (r_pendingReads r) !! seq = Some rq -> r_pendingReads r !! seq = Some rq /\ existsb (ends seq) [ev] = false).
  { intros k rq0 He Hk seq rq [Hne Hs]%lookup_delete_Some. split; [done|]. simpl. rewrite He. by destruct (Z.eqb_spec k seq). }
  destruct ev as [l b self|k i|k e|sl h g]; simpl; try (by apply Hsame).
  - destruct (r_pendingReads r !! k) as [rq0|] eqn:E; simpl.
    + exists (delete k (r_pendingReads r)), [mkReadReq (rq_id rq0) i]. split_and!; [done|by apply (Hdel k rq0)|].
      intros rq ->%list_elem_of_singleton. exists k, rq0. split_and!; [by left|done..].
    + apply Hsame. intros seq Hs. simpl. destruct (Z.eqb_spec k seq); [subst; rewrite E in Hs; by destruct Hs|done].
  - destruct (r_pendingReads r !! k) as [rq0|] eqn:E; simpl.
    + exists (delete k (r_pendingReads r)), []. split_and!; [rewrite app_nil_r; by destruct r|by apply (Hdel k rq0)|].
      intros rq Hw. by apply not_elem_of_nil in Hw.
    + apply Hsame. intros seq Hs. simpl. destruct (Z.eqb_spec k seq); [subst; rewrite E in Hs; by destruct Hs|done].
Qed.

Lemma noted_trans evs evs' r1 r2 r3 : noted evs r1 r2 -> noted evs' r2 r3 -> noted (evs ++ evs') r1 r3.
Proof.
  intros (p1 & w1 & E1 & P1 & W1) (p2 & w2 & E2 & P2 & W2). subst r2 r3. simpl in *.
  exists p2, (w1 ++ w2). split_and!.
  - rewrite app_assoc. done.
  - intros seq rq Hs. destruct (P2 _ _ Hs) as [Hs1 Hn2], (P1 seq rq) as [Hs0 Hn1]; [done|]. split; [done|].
    by rewrite existsb_app, Hn1, Hn2.
  - intros rq [Hw|Hw]%elem_of_app; [destruct (W1 rq Hw) as (seq & rq0 & Hev & Hp & Ei)|destruct (W2 rq Hw) as (seq & rq0 & Hev & Hp & Ei)];
      exists seq, rq0; (split_and!; [apply elem_of_app; auto| |done]); [done|by apply P1].
Qed.

Lemma note_events_noted evs r failed : noted evs r (foldl note_event (r, failed) evs).1.
Proof.
  revert r failed. induction evs as [|ev evs IH]; intros r failed; [apply noted_nil|].
  change (foldl note_event (r, failed) (ev :: evs)) with (foldl note_event (note_event (r, failed) ev) evs).
  pose proof (note_event_noted r failed ev) as H1. destruct (note_event (r, failed) ev) as [r1 failed1].
  exact (noted_trans [ev] evs r r1 _ H1 (IH r1 failed1)).
Qed.

(** ** Between the rounds *)

(** What a round hands to [after]. *)
Record handled r : Prop := {
  ha_queues : queues (state (r_core r)) r;
  ha_answers : answers_ok (state (r_core r)) r;
  ha_reads : is_failed (log (r_core r)) = false -> forall seq, is_Some (r_pendingReads r !! seq) ->
    open_read (log (r_core r)) seq /\ seq <= n_readSeq (log (r_core r));
  ha_events : forall seq i rq, ReadReady seq i ∈ n_events (log (r_core r)) -> r_pendingReads r !! seq = Some rq -> due (rq_id rq) i;
  ha_waits : Forall (fun rq => due (rq_id rq) (rq_index rq)) (r_applyWaits r);
  ha_orderly : orderly (log (r_core r));
  ha_state : reachable deal_fuel (state (r_core r)) /\ 0 <= applied (state (r_core r)) < 2 ^ 63;
}.

(** What holds between two rounds. *)
Record tidy r : Prop := {
  ti_handled : handled r;
  ti_drained : n_events (log (r_core r)) = [];
  ti_held : r_held r = total r;
  ti_status : r_status r = status (r_core r);
  ti_mark : r_applyWait r = false -> n_commitIndex (log (r_core r)) <= applied (state (r_core r));
  ti_idle : n_role (log (r_core r)) <> Leader -> r_waiters r = ∅;
  ti_waits : Forall (fun rq => applied (state (r_core r)) < rq_index rq) (r_applyWaits r);
}.

(** The events of a step are taken from the core and noted. *)
Lemma events_handled r r' : handled r -> noted (core_Events (r_core r)).2 (r <| r_core := (core_Events (r_core r)).1 |>) r' ->
  handled r' /\ n_events (log (r_core r')) = [].
Proof.
  intros [H1 H2 H3 H4 H5 H6 H7] (p & w & -> & Hp & Hw). simpl in *. destruct (Events_keeps _ H6) as [Ho Hk]. split; [|done]. split; simpl.
  - refine (queues_same _ r _ _ _ H1); reflexivity.
  - done.
  - intros F seq [rq Hs]. destruct (Hp _ _ Hs) as [Hs0 Hn]. destruct (H3 F seq) as [Hop Hle]; [by eexists|].
    split; [left; by apply Hk|done].
  - intros seq i rq Hev. by apply not_elem_of_nil in Hev.
  - apply Forall_app. split; [done|]. apply Forall_forall. intros rq Hin. destruct (Hw rq Hin) as (seq & rq0 & Hev & Hs & ->).
    by eapply H4.
  - done.
  - done.
Qed.

Lemma applyCommitted_round lock r r' l : handled r -> log_decodes deal_fuel (r_core r) -> n_commitIndex (log (r_core r)) < 2 ^ 63 ->
  applyCommitted deal_fuel lock r = Some (r', l) ->
  r' = r <| r_core := r_core r' |> <| r_applyWait := r_applyWait r' |> /\ log (r_core r') = log (r_core r) /\
  batch (state (r_core r)) l (state (r_core r')) /\
  (reachable deal_fuel (state (r_core r')) /\ applied (state (r_core r)) <= applied (state (r_core r')) < 2 ^ 63) /\
  (r_applyWait r' = false -> n_commitIndex (log (r_core r)) <= applied (state (r_core r'))) /\
  (r_core r' = r_core r \/ ApplyCommitted deal_fuel (r_core r) = Some (r_core r', l)).
Proof.
  intros Hh HD Hc. pose proof (ha_state _ Hh) as [Hr Ha]. unfold applyCommitted.
  destruct (Z.leb_spec (n_commitIndex (log (r_core r))) (applied (state (r_core r)))) as [Hle|Hlt].
  { intros [= <- <-]. split_and!; [by destruct r|done|constructor|done|lia|lia|done|by left]. }
  destruct lock; simpl.
  2: { intros [= <- <-]. simpl. split_and!; [done|done|constructor|done|lia|lia|done|by left]. }
  intros ([c l'] & E & [= <- <-])%bind_Some. simpl in *.
  destruct (ApplyCommitted_batch deal_fuel (r_core r) c l' HD Hr Ha Hc E) as (El & Hr' & B & K1 & K2 & K3).
  split_and!; [done..|by right].
Qed.

(** ** The answers of a round *)

Lemma publish_says (P : Output -> Prop) l r : (forall k, P (Advanced k)) -> (forall p c k, P (ObserveChanged p c k)) ->
  says P (r <| r_status := status (r_core r) |>) (publish l r).
Proof.
  intros H1 H2. unfold publish. set (r1 := if _ <? _ then _ else _).
  assert (Hs : says P (r <| r_status := status (r_core r) |>) (r1 <| r_status := status (r_core r) |>)).
  { unfold r1. case_goal; [|apply says_refl]. eexists [_]. split; [reflexivity|by constructor]. }
  eapply says_trans; [exact Hs|]. clearbody r1. case_goal; [by apply says_out|apply says_refl].
Qed.

Lemma fail_waiters_says (P : Output -> Prop) err r : (forall id, P (Answer id (SubmitReply (inr err)))) ->
  says P (r <| r_waiters := ∅ |> <| r_nwaiters := 0 |>) (fail_waiters err r).
Proof.
  intros HP. unfold fail_waiters. generalize (concat (map snd (map_to_list (r_waiters r)))). intros ws. revert r.
  induction ws as [|w ws IH]; intros r; [apply says_refl|]. cbn [foldl].
  eapply says_trans; [|apply IH]. eexists [_]. split; [reflexivity|by constructor].
Qed.

Lemma lose_waiters_queues st r : queues st r ->
  queues st (lose_waiters r) /\ apart (lose_waiters r) = apart r /\ (answers_ok st r -> answers_ok st (lose_waiters r)) /\
  (sta_role (r_status r) <> Leader -> r_waiters (lose_waiters r) = ∅).
Proof.
  intros Hq. unfold lose_waiters. destruct ((0 <? Z.of_nat (size (r_waiters r))) && negb (bool_decide (sta_role (r_status r) = Leader))) eqn:E.
  - pose proof (fail_waiters_says (output_ok st) ErrLeadershipLost r) as Hs. specialize (Hs (fun _ => I)).
    split_and!.
    + apply (queues_says _ _ _ _ Hs), queues_empty.
    + destruct Hs as (l & -> & _). done.
    + intros Ha. apply (says_answers _ _ _ _ Hs); [done|exact Ha].
    + destruct Hs as (l & -> & _). done.
  - split_and!; [done..|]. intros Hne. rewrite bool_decide_eq_false_2, andb_true_r in E by done.
    apply Z.ltb_ge in E. apply map_size_empty_inv. lia.
Qed.

Lemma release_read_cases r rq : release_read r rq = r \/
  (release_read r rq = answer r (rq_id rq) (ReadReply None) /\ rq_index rq <= sta_applied (r_status r)) \/
  (release_read r rq = r <| r_applyWaits := r_applyWaits r ++ [rq] |> /\ sta_applied (r_status r) < rq_index rq).
Proof.
  unfold release_read. case_goal; [by left|]. destruct (Z.leb_spec (rq_index rq) (sta_applied (r_status r))); auto.
Qed.

Lemma release_reads_spec st r : Forall (fun rq => due (rq_id rq) (rq_index rq)) (r_applyWaits r) -> sta_applied (r_status r) <= applied st ->
  exists ws l, release_reads r = r <| r_applyWaits := ws |> <| r_out := r_out r ++ l |> /\ Forall (output_ok st) l /\
    Forall (fun rq => due (rq_id rq) (rq_index rq) /\ sta_applied (r_status r) < rq_index rq) ws.
Proof.
  intros Hd Hle. unfold release_reads. set (r0 := r <| r_applyWaits := [] |>).
  enough (H : forall l r1, Forall (fun rq => due (rq_id rq) (rq_index rq)) l ->
    sta_applied (r_status r1) = sta_applied (r_status r) ->
    Forall (fun rq => due (rq_id rq) (rq_index rq) /\ sta_applied (r_status r) < rq_index rq) (r_applyWaits r1) ->
    exists ws o, foldl release_read r1 l = r1 <| r_applyWaits := ws |> <| r_out := r_out r1 ++ o |> /\ Forall (output_ok st) o /\
      Forall (fun rq => due (rq_id rq) (rq_index rq) /\ sta_applied (r_status r) < rq_index rq) ws).
  { destruct (H (r_applyWaits r) r0 Hd eq_refl) as (ws & o & E & Ho & Hw); [constructor|]. exists ws, o. rewrite E. done. }
  clear Hd. intros l. induction l as [|rq l IH]; intros r1 Hl Es Hw; cbn [foldl].
  { exists (r_applyWaits r1), []. split_and!; [rewrite app_nil_r; by destruct r1|constructor|done]. }
  apply Forall_cons in Hl as [Hrq Hl]. destruct (release_read_cases r1 rq) as [->|[[-> Hi]|[-> Hi]]]; [by apply IH|..].
  - destruct (IH (answer r1 (rq_id rq) (ReadReply None)) Hl Es Hw) as (ws & o & -> & Ho & Hws).
    exists ws, (Answer (rq_id rq) (ReadReply None) :: o). split_and!; [simpl; by rewrite <- app_assoc| |done].
    constructor; [|done]. simpl. exists (rq_index rq). split; [done|lia].
  - set (r2 := r1 <| r_applyWaits := _ |>). destruct (IH r2 Hl Es) as (ws & o & E & Ho & Hws).
    2: { exists ws, o. split; [exact E|done]. }
    unfold r2. simpl. apply Forall_app. split; [done|]. constructor; [|constructor]. split; [done|lia].
Qed.

Lemma says_fields P r r' : says P r r' -> apart r' = apart r /\ r_waiters r' = r_waiters r /\ r_nwaiters r' = r_nwaiters r.
Proof. intros (l & -> & _). done. Qed.

Lemma applied_mono st l st' r : batch st l st' -> applied st <= applied st' -> answers_ok st r -> answers_ok st' r.
Proof.
  intros B Ha H. refine (Forall_impl _ _ _ H _). intros o. apply output_mono; [by eapply batch_grows|done].
Qed.

Lemma status_applied (c : Core T) : sta_applied (status c) = applied (state c).
Proof. unfold status. by destruct (Leader_known (log c)) as [[? ?] ?]. Qed.

Lemma status_role (c : Core T) : sta_role (status c) = n_role (log c).
Proof. unfold status. by destruct (Leader_known (log c)) as [[? ?] ?]. Qed.

(** ** [after] *)

(** The core once a round is over: its events are taken, and it has applied
    what it could. *)
Definition advanced (c c' : Core T) : Prop :=
  let c1 := (core_Events c).1 in c' = c1 \/ exists l, ApplyCommitted deal_fuel c1 = Some (c', l).

Lemma after_tidy lock outs r r' :
  handled r -> log_decodes deal_fuel (r_core r) -> n_commitIndex (log (r_core r)) < 2 ^ 63 -> after deal_fuel lock outs r = Some r' ->
  tidy r' /\ advanced (r_core r) (r_core r') /\ r_pendingReads r' ⊆ r_pendingReads r /\
  (r_observed r', r_inbox r', r_dropped r', r_abandoned r', r_done r') = (r_observed r, r_inbox r, r_dropped r, r_abandoned r, r_done r).
Proof.
  intros Hh HD Hc. unfold after. set (st0 := state (r_core r)) in *.
  assert (S1 : says (fun o => answered_id o = None) r (foldl send_out r outs)) by (apply says_fold; intros; by apply send_out_says).
  set (r1 := foldl send_out r outs) in *. clearbody r1. destruct S1 as (o1 & -> & O1).
  set (ra := r <| r_out := r_out r ++ o1 |>).
  assert (Ha : handled ra).
  { destruct Hh as [H1 H2 H3 H4 H5 H6 H7]. split; try done; [by apply (queues_same _ r)|].
    apply Forall_app. split; [exact H2|]. refine (Forall_impl _ _ _ O1 _). by intros []. }
  change (r_core r) with (r_core ra) in *. destruct (core_Events (r_core ra)) as [c evs] eqn:Eev.
  pose proof (note_events_noted evs (ra <| r_core := c |>) []) as Hn. destruct (foldl note_event _ evs) as [r2 failed]. cbn [fst] in Hn.
  assert (Ec : (core_Events (r_core ra)).1 = c /\ (core_Events (r_core ra)).2 = evs) by by rewrite Eev. destruct Ec as [Ec Ee].
  rewrite <- Ec, <- Ee in Hn. destruct (events_handled ra r2 Ha Hn) as [H2 Hd2].
  destruct Hn as (p & w & E2 & Hp & _). rewrite Ec in E2.
  assert (Ec2 : r_core r2 = c) by by rewrite E2.
  assert (El : log c = (Replog.Events (log (r_core ra))).1 /\ state c = st0) by (rewrite <- Ec; done). destruct El as [El Es].
  intros ([r3 l] & E3 & E)%bind_Some. injection E as <-.
  destruct (applyCommitted_round lock r2 r3 l H2) as (E3' & L3 & B & (R3 & A3) & M3 & C3);
    [intros k e; rewrite Ec2, El; apply HD|by rewrite Ec2, El|exact E3|].
  set (st := state (r_core r3)) in *.
  assert (Q3 : queues (state (r_core r2)) r3) by (rewrite E3'; apply (queues_same _ r2); [done..|apply H2]).
  assert (A3' : answers_ok st r3) by (rewrite E3'; apply (applied_mono _ l st _ B); [lia|apply H2]).
  assert (P3 : r_pendingReads r3 = p) by (rewrite E3', E2; done).
  assert (W3 : Forall (fun rq => due (rq_id rq) (rq_index rq)) (r_applyWaits r3)) by (rewrite E3'; apply H2).
  assert (F3 : (r_observed r3, r_inbox r3, r_dropped r3, r_abandoned r3, r_done r3) = (r_observed r, r_inbox r, r_dropped r, r_abandoned r, r_done r))
    by (rewrite E3', E2; done).
  (* the status, and the reads that failed *)
  pose proof (publish_says (fun o => answered_id o = None) l r3) as S4. specialize (S4 (fun _ => eq_refl) (fun _ _ _ => eq_refl)).
  set (r4 := publish l r3) in *. clearbody r4.
  assert (S5 : says (output_ok st) r4 (foldl (fun r f => answer r f.1 (ReadReply (Some (ErrReadFailed f.2)))) r4 failed))
    by (apply says_fold; intros; unfold answer; by apply says_out).
  set (r5 := foldl _ r4 failed) in *. clearbody r5.
  assert (Q5 : queues (state (r_core r2)) r5) by (apply (queues_says _ _ _ _ S5), (queues_says _ _ _ _ S4), (queues_same _ r3); [reflexivity..|exact Q3]).
  assert (A5 : answers_ok st r5).
  { apply (says_answers _ _ _ _ S5); [done|]. apply (says_answers _ _ _ _ S4); [by intros []|exact A3']. }
  assert (P5 : apart r5 = apart (r3 <| r_status := status (r_core r3) |>)).
  { destruct (says_fields _ _ _ S5) as [-> _], (says_fields _ _ _ S4) as [-> _]. done. }
  assert (C5 : r_core r5 = r_core r3) by exact (f_equal (fun x => x.1.1.1.1.1.1.1.1.1) P5).
  (* the Submits *)
  destruct (settle_batch _ l st r5 B) as (Q6 & P6 & A6); [by rewrite C5|exact Q5|]. set (r6 := foldl settle r5 l) in *. clearbody r6.
  destruct (lose_waiters_queues st r6 Q6) as (Q7 & P7 & A7 & I7). set (r7 := lose_waiters r6) in *. clearbody r7.
  assert (P : apart r7 = apart (r3 <| r_status := status (r_core r3) |>)) by by rewrite P7, P6, P5.
  assert (P' : apart r6 = apart (r3 <| r_status := status (r_core r3) |>)) by by rewrite P6, P5. clear P5 P6 P7.
  unfold apart in P, P'. simpl in P, P'. injection P as K1 K2 K3 K4 K5 K6 K7 K8 K9 K10. injection P' as _ _ _ _ _ _ _ K8' _ _.
  (* the reads *)
  destruct (release_reads_spec st r7) as (ws & o & E8 & O8 & W8); [rewrite K6; exact W3|rewrite K8, status_applied; reflexivity|]. rewrite E8. clear E8.
  assert (HL : log (r_core r3) = (Replog.Events (log (r_core ra))).1) by by rewrite L3, Ec2, El.
  split_and!; [split; [split|..]|..]; simpl.
  - rewrite K1. by apply (queues_same _ r7).
  - rewrite K1. apply Forall_app. split; [by apply A7, A6|done].
  - rewrite K1, K5, P3, L3. intros F. intros seq Hs. apply (ha_reads _ H2 F). by rewrite E2.
  - rewrite K1, L3, Hd2. intros seq i rq Hev. by apply not_elem_of_nil in Hev.
  - refine (Forall_impl _ _ _ W8 _). by intros rq [? _].
  - rewrite K1, L3. apply H2.
  - rewrite K1. fold st. split; [done|]. pose proof (ha_state _ H2) as [_ ?]. lia.
  - by rewrite K1, L3, Hd2.
  - done.
  - by rewrite K8, K1.
  - rewrite K7, K1. fold st. rewrite L3. exact M3.
  - rewrite K1. intros Hne. apply I7. rewrite K8', status_role. exact Hne.
  - rewrite K1. refine (Forall_impl _ _ _ W8 _). rewrite K8, status_applied. by intros rq [_ ?].
  - unfold advanced. change (r_core r) with (r_core ra). rewrite K1, Ec, <- Ec2. destruct C3 as [->|C3]; [by left|right; by exists l].
  - rewrite K5, P3. apply map_subseteq_spec. intros seq rq Hs. by destruct (Hp seq rq Hs).
  - rewrite K2, K3, K4, K9, K10. exact F3.
Qed.

(** ** The inputs *)

(** What an input does to the core before [after], and the messages that
    sends. *)
Definition moves (x : Input) r : option (Core T * list Envelope) :=
  exit_if r_done r with Some (r_core r, []);
  match x with
  | Inbox now => match r_inbox r with [] => Some (r_core r, []) | env :: _ => core_Step now env (r_core r) end
  | TickerC now => core_Tick now (r_core r)
  | Submits now id cmd =>
      exit_if abandoned r id with Some (r_core r, []);
      match Replay_result (state (r_core r)) cmd with
      | Some _ => Some (r_core r, [])
      | None => '(c, outs, _) ← Submit now cmd (r_core r); Some (c, outs)
      end
  | Reads now id =>
      exit_if abandoned r id with Some (r_core r, []);
      '(c, _, outs, _) ← core_ReadIndex now (r_core r); Some (c, outs)
  | Stop | Kick | Delivers _ | Abandons _ => Some (r_core r, [])
  end.

(** A call in which the store fails leaves no event behind. *)
Lemma finish_silent (n : Node T) : is_failed (finish n).1 = true -> n_events (finish n).1 = [].
Proof. unfold finish. destruct (is_failed n) eqn:F; [done|]. simpl. intros F'. change (is_failed n = true) in F'. congruence. Qed.

Lemma failed_silent x r c outs : moves x r = Some (c, outs) -> n_events (log (r_core r)) = [] ->
  is_failed (log c) = true -> n_events (log c) = [].
Proof.
  intros Hm D.
  assert (Hfin : forall (m n : Node T) o, finish m = (n, o) -> is_failed n = true -> n_events n = []).
  { intros m n o E. pose proof (finish_silent m) as H. by rewrite E in H. }
  assert (Hbegin : forall now, n_events (begin now (log (r_core r))) = []).
  { intros now. pose proof (begin_view now (log (r_core r))) as E. unfold view in E. congruence. }
  assert (Hidle : Some (r_core r, @nil Envelope) = Some (c, outs) -> is_failed (log c) = true -> n_events (log c) = []) by (by intros [= <- _]).
  unfold moves in Hm. destruct (r_done r); [by apply Hidle|]. destruct x as [|now|now|now id cmd|now id| |env|id]; try (by apply Hidle).
  - destruct (r_inbox r) as [|env rest]; [by apply Hidle|]. unfold core_Step in Hm. apply bind_Some in Hm as ([n o] & E & [= <- _]).
    unfold Step in E. destruct (is_failed _) eqn:F; [by injection E as <- _|]. apply bind_Some in E as (m & _ & [= Ef]). by eapply Hfin.
  - unfold core_Tick in Hm. apply bind_Some in Hm as ([n o] & E & [= <- _]).
    unfold Tick in E. destruct (is_failed _) eqn:F; [by injection E as <- _|]. apply bind_Some in E as (m & _ & [= Ef]). by eapply Hfin.
  - destruct (abandoned r id); [by apply Hidle|]. destruct (Replay_result _ cmd); [by apply Hidle|].
    apply bind_Some in Hm as ([[c' o] err] & E & [= <- _]). unfold Submit in E.
    destruct (ValidateKey _); [by injection E as <- _ _|]. destruct (Encode cmd); [|by injection E as <- _ _].
    apply bind_Some in E as ([[n o'] e] & E & [= <- _ _]). simpl. revert E. clear Hidle. unfold Propose. destruct (n_failed _); [by intros [= <- _ _]|].
    case_goal; [intros [= <- _ _] _; apply Hbegin|]. case_goal; [intros [= <- _ _] _; apply Hbegin|].
    case_goal; [case_goal; intros [= Ef _]|intros (m & _ & [= Ef _])%bind_Some]; by eapply Hfin.
  - destruct (abandoned r id); [by apply Hidle|]. apply bind_Some in Hm as ([[[c' k] o] err] & E & [= <- _]).
    unfold core_ReadIndex in E. apply bind_Some in E as ([[[n k'] o'] e] & E & [= <- _ _ _]). simpl. revert E. unfold ReadIndex.
    destruct (n_failed _); [by intros [= <- _ _ _]|].
    case_goal; [intros [= <- _ _ _] _; apply Hbegin|]. case_goal; [intros [= <- _ _ _] _; apply Hbegin|].
    intros (m & _ & Ef)%bind_Some. destruct (finish m) as [n4 o4] eqn:E4. injection Ef as <- _ _ _. by eapply Hfin.
Qed.

(** Barrier [seq] is the one of Read [id]. *)
Definition barrier_of (x : Input) r (seq : Z) (id : nat) : Prop :=
  (exists rq, r_pendingReads r !! seq = Some rq /\ rq_id rq = id) \/
  (exists now c outs, x = Reads now id /\ r_done r = false /\ abandoned r id = false /\
     core_ReadIndex now (r_core r) = Some (c, seq, outs, None)).

(** What the callers and the log bring to a round. *)
Record expected (x : Input) r : Prop := {
  ex_asked : forall now id cmd, x = Submits now id cmd -> asked id = cmd;
  ex_log : forall c outs, moves x r = Some (c, outs) -> n_commitIndex (log c) < 2 ^ 63 /\ log_decodes deal_fuel c;
  ex_due : forall c outs seq i id, moves x r = Some (c, outs) -> ReadReady seq i ∈ n_events (log c) -> barrier_of x r seq id -> due id i;
}.

Lemma handled_says P r r' : says P r r' -> (forall o, P o -> output_ok (state (r_core r)) o) -> handled r -> handled r'.
Proof.
  intros (l & -> & Hl) HP [H1 H2 H3 H4 H5 H6 H7]. split; try done; [by apply (queues_same _ r)|].
  apply Forall_app. split; [exact H2|]. exact (Forall_impl _ _ _ Hl HP).
Qed.

Lemma handled_answer r id a : output_ok (state (r_core r)) (Answer id a) -> handled r -> handled (answer r id a).
Proof. intros Ho. apply (handled_says (output_ok (state (r_core r)))); [by apply says_out|done]. Qed.

(** An operation of the log. *)
Lemma handled_core r c : handled r -> state c = state (r_core r) -> keeps_reads (log (r_core r)) (log c) ->
  (forall seq i rq, ReadReady seq i ∈ n_events (log c) -> r_pendingReads r !! seq = Some rq -> due (rq_id rq) i) ->
  handled (r <| r_core := c |>).
Proof.
  intros [H1 H2 H3 H4 H5 H6 H7] Es (Ho & Hf & Hk) Hd. split; simpl; rewrite ?Es; try done.
  - by apply (queues_same _ r).
  - intros F. destruct (Hk F) as [Eq Hop]. intros seq Hs. destruct (H3) with (seq := seq) as [Hs1 Hs2]; [|done|].
    + destruct (is_failed (log (r_core r))); [|done]. by rewrite Hf in F.
    + split; [by apply Hop|by rewrite Eq].
Qed.

Lemma handled_hold r w : handled r -> w_fp w = Fingerprint (w_cmd w) -> asked (w_id w) = w_cmd w ->
  Replay_result (state (r_core r)) (w_cmd w) = None -> handled (hold r (cmd_key (w_cmd w)) w).
Proof.
  intros [H1 H2 H3 H4 H5 H6 H7] Hf Ha Hr. split; try done. simpl. apply queues_hold; [done|done|].
  unfold Replay_result in Hr. by destruct (results _ !! _).
Qed.

(** The barrier of a Read. *)
Lemma handled_read r c k id : handled r -> state c = state (r_core r) -> orderly (log c) -> k = n_readSeq (log (r_core r)) + 1 ->
  is_failed (log (r_core r)) = false ->
  (is_failed (log c) = false -> n_readSeq (log c) = k /\ forall j, open_read (log (r_core r)) j \/ j = k -> open_read (log c) j) ->
  (forall seq i id', ReadReady seq i ∈ n_events (log c) ->
     (exists rq, r_pendingReads r !! seq = Some rq /\ rq_id rq = id') \/ (seq = k /\ id' = id) -> due id' i) ->
  handled (r <| r_core := c |> <| r_pendingReads := <[k := mkReadReq id 0]> (r_pendingReads r) |>).
Proof.
  intros [H1 H2 H3 H4 H5 H6 H7] Es Ho -> F Hk Hd. split; simpl; rewrite ?Es; try done.
  - by apply (queues_same _ r).
  - intros Fc seq Hs. destruct (Hk Fc) as [-> Hop]. rewrite lookup_insert_is_Some in Hs.
    destruct Hs as [<-|[Hne Hs]]; [split; [by apply Hop; right|done]|].
    destruct (H3 F seq Hs) as [Hs1 Hs2]. split; [by apply Hop; left|lia].
  - intros seq i rq Hev. rewrite lookup_insert. case_decide as Hseq; [intros [= <-]; apply (Hd seq); [done|by right]|].
    intros Hs. apply (Hd seq i (rq_id rq) Hev). left. by exists rq.
Qed.

(** ** Forgetting the callers that have gone *)

Lemma kept_count r (l : list (IdempotencyKey * list waiter)) :
  len (concat l.*2) - zsum (map (fun kv => len kv.2 - len (kept_waiters r kv.2)) l) = len (kept_waiters r (concat l.*2)).
Proof.
  induction l as [|[key ws] l IH]; [done|]. cbn [fmap list_fmap concat map snd]. unfold kept_waiters in *. rewrite List.filter_app.
  unfold len in *. rewrite !length_app. simpl in *. lia.
Qed.

Lemma sweep_queues st r : queues st r -> queues st (sweepAbandoned r).
Proof.
  intros [H1 H2 H3]. split; simpl.
  - intros key ws Hk. apply lookup_omap_Some in Hk as (ws0 & Hkeep & Hk). unfold keep_waiters in Hkeep.
    destruct (kept_waiters r ws0) as [|w l] eqn:E; [done|]. injection Hkeep as <-. split; [done|].
    destruct (H1 _ _ Hk) as [_ Hok]. apply Forall_forall. intros x Hx. rewrite <- E in Hx.
    apply list_elem_of_In, filter_In in Hx as [Hx%list_elem_of_In _]. exact (proj1 (Forall_forall _ _) Hok x Hx).
  - intros key [ws Hk]. apply lookup_omap_Some in Hk as (ws0 & _ & Hk). apply H2. by exists ws0.
  - rewrite H3. transitivity (len (kept_waiters r (all_waiters (r_waiters r)))); [apply kept_count|].
    unfold len. by rewrite (Permutation_length (kept_all r (r_waiters r))).
Qed.

Lemma sweep_handled r : handled r -> handled (sweepAbandoned r) /\ r_pendingReads (sweepAbandoned r) ⊆ r_pendingReads r.
Proof.
  intros [H1 H2 H3 H4 H5 H6 H7].
  assert (Hsub : r_pendingReads (sweepAbandoned r) ⊆ r_pendingReads r).
  { apply map_subseteq_spec. intros k rq Hk. simpl in Hk. by apply map_lookup_filter_Some in Hk as [? _]. }
  split; [|done]. split; try done.
  - by apply sweep_queues.
  - intros F seq [rq Hs]. apply (H3 F). exists rq. by eapply lookup_weaken.
  - intros seq i rq Hev Hs. apply (H4 seq); [done|]. by eapply lookup_weaken.
  - simpl. apply Forall_forall. intros rq Hx. apply list_elem_of_In, filter_In in Hx as [Hx%list_elem_of_In _].
    exact (proj1 (Forall_forall _ _) H5 rq Hx).
Qed.

(** ** Failing everything *)

Definition emptied r : Runner T := r <| r_waiters := ∅ |> <| r_nwaiters := 0 |> <| r_pendingReads := ∅ |> <| r_applyWaits := [] |> <| r_held := 0 |>.

Lemma answers_fold (P : Output -> Prop) {X} (f : X -> nat) (a : X -> Reply) (g : Runner T -> Runner T) l r :
  (forall r o, g (out r o) = out (g r) o) -> (forall x, P (Answer (f x) (a x))) ->
  says P (g r) (g (foldl (fun r x => answer r (f x) (a x)) r l)).
Proof.
  intros Hg HP. revert r. induction l as [|x l IH]; intros r; [apply says_refl|]. cbn [foldl].
  eapply says_trans; [|apply IH]. unfold answer. rewrite Hg. by apply says_out.
Qed.

Lemma failAll_says (P : Output -> Prop) err r :
  (forall id, P (Answer id (SubmitReply (inr err)))) -> (forall id, P (Answer id (ReadReply (Some err)))) ->
  says P (emptied r) (failAll err r).
Proof.
  intros H1 H2. unfold failAll. pose proof (fail_waiters_says P err r H1) as S1. set (r1 := fail_waiters err r) in *. clearbody r1.
  set (g1 := fun r : Runner T => r <| r_pendingReads := ∅ |>). set (g2 := fun r : Runner T => r <| r_applyWaits := [] |> <| r_held := 0 |>).
  set (r2 := foldl (fun r rq => answer r (rq_id rq) (ReadReply (Some err))) r1 _).
  assert (S2 : says P (g1 r1) (g1 r2)) by (apply (answers_fold P rq_id (fun _ => ReadReply (Some err))); done).
  change (says P (emptied r) (g2 (foldl (fun r rq => answer r (rq_id rq) (ReadReply (Some err))) (g1 r2) (r_applyWaits (g1 r2))))).
  eapply says_trans; [|apply (answers_fold P rq_id (fun _ => ReadReply (Some err))); done].
  destruct S1 as (o1 & -> & O1), S2 as (o2 & -> & O2). exists (o1 ++ o2). split; [|by apply Forall_app].
  unfold emptied, g1, g2. simpl. by rewrite app_assoc.
Qed.

Lemma failAll_tidy err r : tidy r -> tidy (failAll err r) /\ r_waiters (failAll err r) = ∅ /\ r_pendingReads (failAll err r) = ∅ /\
  r_applyWaits (failAll err r) = [].
Proof.
  intros [H D Hh Hs Hm Hi Hw]. destruct (failAll_says (output_ok (state (r_core r))) err r) as (l & -> & Hl); [done..|].
  split; [|done]. destruct H as [H1 H2 H3 H4 H5 H6 H7]. split; [split|..]; try done; simpl.
  - refine (queues_same _ _ _ _ _ (queues_empty _ r)); reflexivity.
  - by apply Forall_app.
  - intros F seq Hk. rewrite lookup_empty in Hk. by destruct Hk.
Qed.

(** ** A round *)

Lemma Submit_keeps now cmd (c c' : Core T) outs err : orderly (log c) -> Submit now cmd c = Some (c', outs, err) ->
  state c' = state c /\ keeps_reads (log c) (log c').
Proof.
  intros Ho. assert (Hsame : keeps_reads (log c) (log c)) by (split_and!; [done..|]; auto). unfold Submit.
  destruct (ValidateKey _); [by intros [= <- _ _]|]. destruct (Encode cmd) as [v|]; [|by intros [= <- _ _]].
  intros ([[n o] e] & E & [= <- _ _])%bind_Some. split; [done|]. by eapply Propose_keeps.
Qed.

(** What a round leaves: a tidy loop, whose core has moved as the log moved,
    and no more barriers than before and the one of the Read it took. *)
Record rounded (x : Input) r r' : Prop := {
  rd_tidy : tidy r';
  rd_core : exists c outs, moves x r = Some (c, outs) /\ advanced c (r_core r');
  rd_pending : forall seq rq, r_pendingReads r' !! seq = Some rq -> barrier_of x r seq (rq_id rq);
  rd_inbox : forall env, env ∈ r_inbox r' -> env ∈ r_inbox r \/ x = Delivers env;
  rd_done : (r_done r = true -> held_ids r = []) -> r_done r' = true -> held_ids r' = [];
}.

Lemma drained_advanced (c : Core T) : n_events (log c) = [] -> advanced c c.
Proof.
  intros H. left. unfold core_Events, Replog.Events. destruct c as [n st]. simpl in *. f_equal. destruct n. simpl in *. by subst.
Qed.

Lemma idle_rounded x r r' : tidy r -> moves x r = Some (r_core r, []) ->
  says (fun o => forall st, output_ok st o) r r' -> rounded x r r'.
Proof.
  intros Ht Hm (l & -> & Hl). split.
  - destruct Ht as [H D Hh Hs Hk Hi Hw]. split; try done. apply (handled_says (fun o => forall st, output_ok st o) r); [by exists l| |done].
    intros o Ho. apply Ho.
  - exists (r_core r), []. split; [done|]. apply drained_advanced, Ht.
  - intros seq rq Hp. left. by exists rq.
  - intros env Hi. by left.
  - done.
Qed.

Lemma after_rounded x lock outs r0 r r' c outs' : after deal_fuel lock outs r = Some r' -> handled r -> expected x r0 ->
  r_core r = c -> moves x r0 = Some (c, outs') -> (forall env, env ∈ r_inbox r -> env ∈ r_inbox r0) ->
  r_done r = false ->
  (forall seq rq, r_pendingReads r !! seq = Some rq -> barrier_of x r0 seq (rq_id rq)) -> rounded x r0 r'.
Proof.
  intros E Hh He <- Hm Hi Hd Hp. destruct (ex_log _ _ He _ _ Hm) as [Hc HD].
  destruct (after_tidy lock outs r r' Hh HD Hc E) as (Ht & Ha & Hs & Ef). split; [done|by exists (r_core r), outs'| | |].
  - intros seq rq Hq. apply Hp. by eapply lookup_weaken.
  - intros env He'. left. apply Hi. assert (Eb : r_inbox r' = r_inbox r) by congruence. by rewrite <- Eb.
  - intros _ Hd'. assert (Eb : r_done r' = r_done r) by congruence. congruence.
Qed.

Lemma pending_before x r seq rq : r_pendingReads r !! seq = Some rq -> barrier_of x r seq (rq_id rq).
Proof. intros H. left. by exists rq. Qed.

(** The events of a core that has moved are due. *)
Lemma moved_due x r c outs seq i rq : expected x r -> moves x r = Some (c, outs) -> ReadReady seq i ∈ n_events (log c) ->
  r_pendingReads r !! seq = Some rq -> due (rq_id rq) i.
Proof. intros He Hm Hev Hs. eapply (ex_due _ _ He); [done|done|]. by apply pending_before. Qed.

Lemma handleSubmit_rounded now lock id cmd r r' : tidy r -> roomy (log (r_core r)) -> r_done r = false -> expected (Submits now id cmd) r ->
  handleSubmit deal_fuel now lock id cmd r = Some r' -> rounded (Submits now id cmd) r r'.
Proof.
  intros Ht Hr Hd He. pose proof (ti_handled _ Ht) as Hh. unfold handleSubmit.
  destruct (abandoned r id) eqn:Ea.
  { intros [= <-]. apply idle_rounded; [done| |apply says_refl]. unfold moves. by rewrite Hd, Ea. }
  destruct (Replay_result (state (r_core r)) cmd) as [res|] eqn:Er.
  { intros [= <-]. split.
    - destruct Ht as [H D Hl Hs Hk Hi Hw]. split; try done. apply handled_answer; [|done]. simpl.
      rewrite (ex_asked _ _ He _ _ _ eq_refl). by apply replay_told.
    - exists (r_core r), []. split; [unfold moves; by rewrite Hd, Ea, Er|]. apply drained_advanced, Ht.
    - exact (pending_before _ r).
    - intros env Hi. by left.
    - done. }
  intros ([[c outs] err] & Es & E)%bind_Some.
  assert (Hm : moves (Submits now id cmd) r = Some (c, outs)) by (unfold moves; by rewrite Hd, Ea, Er, Es).
  assert (Hc : state c = state (r_core r) /\ keeps_reads (log (r_core r)) (log c)).
  { apply (Submit_keeps now cmd _ _ _ _ (ha_orderly _ Hh) Es). }
  assert (H1 : handled (r <| r_core := c |>)).
  { apply handled_core; [done|apply Hc..|]. intros seq i rq. by apply (moved_due (Submits now id cmd) r c outs). }
  destruct err as [e|].
  - refine (after_rounded _ _ _ _ _ _ c outs E _ He eq_refl Hm _ _ _); [by apply handled_answer|done|exact Hd|]. exact (pending_before _ r).
  - refine (after_rounded _ _ _ _ _ _ c outs E _ He eq_refl Hm _ _ _); [|done|exact Hd|exact (pending_before _ r)].
    apply (handled_hold (r <| r_core := c |>) (mkWaiter id cmd (Fingerprint cmd))); [done|done| |].
    + simpl. by apply (ex_asked _ _ He now).
    + simpl. by rewrite (proj1 Hc).
Qed.

Lemma handleRead_rounded now lock id r r' : tidy r -> roomy (log (r_core r)) -> r_done r = false -> expected (Reads now id) r ->
  handleRead deal_fuel now lock id r = Some r' -> rounded (Reads now id) r r'.
Proof.
  intros Ht Hr Hd He. pose proof (ti_handled _ Ht) as Hh. unfold handleRead.
  destruct (abandoned r id) eqn:Ea.
  { intros [= <-]. apply idle_rounded; [done| |apply says_refl]. unfold moves. by rewrite Hd, Ea. }
  intros ([[[c k] outs] err] & Es & E)%bind_Some.
  assert (Hm : moves (Reads now id) r = Some (c, outs)) by (unfold moves; by rewrite Hd, Ea, Es).
  pose proof Es as Es0. unfold core_ReadIndex in Es. apply bind_Some in Es as ([[[n k'] o] e] & Es & [= <- -> -> ->]).
  pose proof (ReadIndex_keeps _ _ _ _ _ _ (ha_orderly _ Hh) (ro_reads _ Hr) Es) as Hk. destruct err as [e|].
  - refine (after_rounded _ _ _ _ _ _ _ outs E _ He eq_refl Hm _ _ _); [|done|exact Hd|exact (pending_before _ r)].
    apply handled_answer; [done|]. apply handled_core; [done|done|exact Hk|].
    intros seq i rq. by eapply (moved_due (Reads now id) r).
  - destruct Hk as (Ho & F & Ek & _ & Hk). refine (after_rounded _ _ _ _ _ _ _ outs E _ He eq_refl Hm _ _ _).
    + apply (handled_read r (mkCore n (state (r_core r))) k id); try done. intros seq i id' Hev Hb.
      eapply (ex_due _ _ He); [exact Hm|exact Hev|]. destruct Hb as [Hb|[-> ->]]; [by left|]. right. by eexists now, _, _.
    + done.
    + exact Hd.
    + intros seq rq. cbn -[lookup insert]. rewrite lookup_insert. case_decide as Hs; [intros [= <-]|intros Hp; exact (pending_before _ r _ _ Hp)].
      right. eexists now, _, _. by rewrite <- Hs.
Qed.

(** A change the invariant does not see. *)
Lemma tidy_same r r' : r_core r' = r_core r -> r_waiters r' = r_waiters r -> r_nwaiters r' = r_nwaiters r ->
  r_pendingReads r' = r_pendingReads r -> r_applyWaits r' = r_applyWaits r -> r_held r' = r_held r -> r_applyWait r' = r_applyWait r ->
  r_status r' = r_status r -> answers_ok (state (r_core r)) r' -> tidy r -> tidy r'.
Proof.
  intros E1 E2 E3 E4 E5 E6 E7 E8 Ha [[H1 H2 H3 H4 H5 H6 H7] D Hl Hs Hk Hi Hw].
  split; [split|..]; rewrite ?E1, ?E2, ?E4, ?E5, ?E6, ?E7, ?E8; try done; [by apply (queues_same _ r)|].
  rewrite Hl. unfold total. by rewrite E3, E4, E5.
Qed.

Lemma answers_out st r o : output_ok st o -> answers_ok st r -> answers_ok st (out r o).
Proof. intros Ho Ha. apply Forall_app. split; [exact Ha|by constructor]. Qed.

(** Returning from [Run]. *)
Lemma returned_tidy e r : tidy r ->
  tidy (out (r <| r_done := true |>) (Return e)) /\ r_core (out (r <| r_done := true |>) (Return e)) = r_core r /\
  r_pendingReads (out (r <| r_done := true |>) (Return e)) = r_pendingReads r /\
  r_inbox (out (r <| r_done := true |>) (Return e)) = r_inbox r /\
  held_ids (out (r <| r_done := true |>) (Return e)) = held_ids r.
Proof.
  intros Ht. split; [|done]. pose proof (ha_answers _ (ti_handled _ Ht)) as Ha. revert Ht.
  apply tidy_same; try reflexivity. by apply answers_out.
Qed.

Lemma return_tidy err e r : tidy r ->
  tidy (out (failAll err r <| r_done := true |>) (Return e)) /\ r_core (out (failAll err r <| r_done := true |>) (Return e)) = r_core r /\
  r_pendingReads (out (failAll err r <| r_done := true |>) (Return e)) = ∅ /\
  r_inbox (out (failAll err r <| r_done := true |>) (Return e)) = r_inbox r /\
  held_ids (out (failAll err r <| r_done := true |>) (Return e)) = [].
Proof.
  intros Ht. destruct (failAll_tidy err r Ht) as (Ht' & Hw & Hp & Ha).
  assert (Ec : r_core (failAll err r) = r_core r /\ r_inbox (failAll err r) = r_inbox r).
  { destruct (failAll_says (fun _ => True) err r) as (l & -> & _); done. }
  destruct Ec as [Ec Eb]. destruct (returned_tidy e _ Ht') as (H1 & H2 & H3 & H4 & H5). rewrite H2, H3, H4, H5.
  split_and!; [done..|]. unfold held_ids. by rewrite Hw, Hp, Ha.
Qed.

Lemma check_failed_rounded x r r' : rounded x r r' -> rounded x r (check_failed r').
Proof.
  intros [Ht (c & outs & Hm & Ha) Hp Hi Hd]. unfold check_failed. destruct (core_Failed _) as [err|]; [|split; eauto].
  destruct (return_tidy (ErrCore err) (Some err) r' Ht) as (Ht' & Ec & Ep & Eb & Eh). set (r1 := out _ _) in *. clearbody r1.
  split; [done| | |by rewrite Eb|done].
  - exists c, outs. by rewrite Ec.
  - intros seq rq. by rewrite Ep.
Qed.

Lemma take_rounded x lock r r' : tidy r -> roomy (log (r_core r)) -> r_done r = false -> expected x r -> x <> Stop ->
  take deal_fuel x lock r = Some r' -> rounded x r r'.
Proof.
  intros Ht Hr Hd He Hx. pose proof (ti_handled _ Ht) as Hh.
  assert (Hidle : forall x, moves x r = Some (r_core r, []) -> rounded x r r) by (intros; apply idle_rounded; [done..|apply says_refl]).
  assert (Hkeep : keeps_reads (log (r_core r)) (log (r_core r))) by (split; [apply Hh|]; by auto).
  unfold take. destruct x as [|now|now|now id cmd|now id| |env|id]; simpl.
  - done.
  - destruct (r_inbox r) as [|env rest] eqn:Ei; [intros [= <-]; apply Hidle; unfold moves; by rewrite Hd, Ei|].
    set (r0 := if r_observed _ then _ else _). intros ([c outs] & Es & E)%bind_Some.
    assert (E0 : says (fun o => forall st, output_ok st o) (r <| r_inbox := rest |>) r0)
      by (unfold r0; case_goal; [by apply says_out|apply says_refl]).
    destruct (says_fields _ _ _ E0) as (Ef & _). clearbody r0.
    assert (Ec : r_core r0 = r_core r /\ r_pendingReads r0 = r_pendingReads r /\ r_inbox r0 = rest /\ r_done r0 = r_done r)
      by (unfold apart in Ef; simpl in Ef; split_and!; congruence).
    destruct Ec as (Ec & Ep & Eb & Ed). rewrite Ec in Es.
    assert (Hm : moves (Inbox now) r = Some (c, outs)) by (unfold moves; by rewrite Hd, Ei).
    assert (Hk : state c = state (r_core r) /\ keeps_reads (log (r_core r)) (log c)).
    { unfold core_Step in Es. apply bind_Some in Es as ([n o] & Es & [= <- _]). split; [done|]. eapply Step_keeps; [apply Hh|exact Es]. }
    assert (H0 : handled r0).
    { apply (handled_says _ _ _ E0); [intros o Ho; apply Ho|]. destruct Hh as [K1 K2 K3 K4 K5 K6 K7]. split; try done. by apply (queues_same _ r). }
    refine (after_rounded _ _ _ _ _ _ c outs E _ He eq_refl Hm _ _ _).
    + apply handled_core; [done|rewrite Ec; apply Hk..|]. intros seq i rq Hev. rewrite Ep. by apply (moved_due (Inbox now) r c outs).
    + intros env' Hi. change (env' ∈ r_inbox r0) in Hi. rewrite Eb in Hi. rewrite Ei. by right.
    + change (r_done r0 = false). rewrite Ed. exact Hd.
    + intros seq rq Hq. apply (pending_before _ r). rewrite <- Ep. exact Hq.
  - intros ([c outs] & Es & E)%bind_Some. destruct (sweep_handled r Hh) as [H0 Hsub].
    change (r_core (sweepAbandoned r)) with (r_core r) in Es.
    assert (Hm : moves (TickerC now) r = Some (c, outs)) by (unfold moves; by rewrite Hd).
    assert (Hk : state c = state (r_core r) /\ keeps_reads (log (r_core r)) (log c)).
    { unfold core_Tick in Es. apply bind_Some in Es as ([n o] & Es & [= <- _]). split; [done|].
      eapply Tick_keeps; [apply Hh|apply (ro_round _ Hr)|exact Es]. }
    refine (after_rounded _ _ _ _ _ _ c outs E _ He eq_refl Hm _ _ _).
    + apply handled_core; [exact H0|apply Hk..|]. intros seq i rq Hev Hq. eapply (moved_due (TickerC now) r c outs); try done.
      eapply lookup_weaken; [exact Hq|exact Hsub].
    + done.
    + exact Hd.
    + intros seq rq Hq. apply (pending_before _ r). eapply lookup_weaken; [exact Hq|exact Hsub].
  - by apply handleSubmit_rounded.
  - by apply handleRead_rounded.
  - intros E. assert (Hm : moves Kick r = Some (r_core r, [])) by (unfold moves; by rewrite Hd).
    exact (after_rounded _ _ _ _ _ _ (r_core r) [] E Hh He eq_refl Hm (fun _ H => H) Hd (pending_before _ r)).
  - intros [= <-]. apply Hidle. unfold moves. by rewrite Hd.
  - intros [= <-]. apply Hidle. unfold moves. by rewrite Hd.
Qed.

(** Every round of the loop leaves it tidy. *)
Lemma step_rounded x lock r r' : tidy r -> roomy (log (r_core r)) -> expected x r -> step deal_fuel x lock r = Some r' -> rounded x r r'.
Proof.
  intros Ht Hr He E. unfold step in E.
  assert (Hsame : forall x, moves x r = Some (r_core r, []) -> rounded x r r) by (intros; apply idle_rounded; [done..|apply says_refl]).
  assert (Hm : r_done r = true -> moves x r = Some (r_core r, [])) by (intros Hd; unfold moves; by rewrite Hd).
  assert (Hloop : x <> Stop -> (exit_if r_done r with Some r; r ← take deal_fuel x lock r; Some (check_failed r)) = Some r' -> rounded x r r').
  { intros Hx. destruct (r_done r) eqn:Hd; [intros [= <-]; by apply Hsame, Hm|]. intros (r1 & E1 & [= <-])%bind_Some.
    apply check_failed_rounded. by eapply take_rounded. }
  destruct x as [|now|now|now id cmd|now id| |env|id]; try (by apply Hloop).
  - destruct (r_done r) eqn:Hd; injection E as <-; [by apply Hsame, Hm|].
    destruct (return_tidy ErrStopped None r Ht) as (Ht' & Ec & Ep & Eb & Eh). set (r1 := out _ _) in *. clearbody r1.
    split; [done| | |intros env Hi; left; by rewrite <- Eb|done].
    + exists (r_core r), []. split; [unfold moves; by rewrite Hd|]. rewrite Ec. apply drained_advanced, Ht.
    + intros seq rq. by rewrite Ep.
  - injection E as <-. split.
    + pose proof (ha_answers _ (ti_handled _ Ht)) as Ha. revert Ht. unfold Deliver. case_goal; (apply tidy_same; try reflexivity; exact Ha).
    + exists (r_core r), []. split; [unfold moves; by destruct (r_done r)|].
      replace (r_core (Deliver r env)) with (r_core r) by (unfold Deliver; by case_goal). apply drained_advanced, Ht.
    + intros seq rq Hq. apply (pending_before _ r). unfold Deliver in Hq. by destruct (_ <? _).
    + intros env'. unfold Deliver. case_goal; simpl; [|by left]. intros [Hi|Hi]%elem_of_app; [by left|right].
      by apply list_elem_of_singleton in Hi as ->.
    + unfold Deliver. by case_goal.
  - injection E as <-. split.
    + pose proof (ha_answers _ (ti_handled _ Ht)) as Ha. revert Ht. apply tidy_same; try reflexivity. exact Ha.
    + exists (r_core r), []. split; [unfold moves; by destruct (r_done r)|]. apply drained_advanced, Ht.
    + intros seq rq Hq. apply (pending_before _ r). exact Hq.
    + intros env Hi. by left.
    + done.
Qed.
End Rounds.
