(* ===== verification/RunnerSafety.v ===== *)
(** A replica of the running service: the event loop of Runner.v on one host
    of the service of ReplicaSafety.v, while the other hosts go on.  What the
    loop answers is checked against the replicated state: a Submit is told
    what the results table records, and a consistent Read is answered once
    the state holds everything any replica had applied when it was asked. *)

From stdpp Require Import functions.
From S2P Require Import Prelude GoStd Paxos Ledger Game Records Codec Commands Compute State Changes.
From S2P Require Import TournamentInv PlayInv LedgerInv Machine Reach Guarantees Blind.
From S2P Require Import Voting Store Replog LogSpec LogInv NodeSteps Handlers Stable Reads Pending Drive Cluster Runs LogSafety ReadSafety.
From S2P Require Import Replica ReplicaSafety Linear Runner RunnerInv RunnerState.

Section Hosted.
Context `{U : Unicode} {T : Type} `{ST : Store T} (A : gset NodeID) (cfgs : NodeID -> Config)
  (deal_fuel : nat) (wanted : Command -> Prop) (gc : group_config A cfgs)
  (wanted_ok : forall cmd, wanted cmd -> (exists op, command_fits cmd op) /\ command_ok deal_fuel cmd).
(** The host, the command each Submit asks for, and the state of the service
    when each Read is taken. *)
Context (a : NodeID) (Ha : a ∈ A) (asked : nat -> Command) (took : nat -> Service T).
Implicit Types (s : Service T) (c : Core T) (r : Runner T).

Abbreviation sstep := (sstep A cfgs deal_fuel wanted).
Abbreviation sserving := (sserving A cfgs deal_fuel wanted a).
Abbreviation service_reached := (service_reached A cfgs deal_fuel wanted).
Abbreviation since := (since A cfgs deal_fuel wanted a).

(** ** Rounds of the loop in the service *)

Definition holds s c : Prop := hosts (sv_logs s) a = Up (log c) /\ sv_machines s a = state c.

(** Host [a] applies a slot. *)
Inductive apply_step s : Service T -> Prop :=
| as_apply n c x : hosts (sv_logs s) a = Up n -> roomy n -> ApplyNext deal_fuel (core_at s a n) = Some (c, Some x) ->
    apply_step s (moved s a c []).

(** Once the core has moved to [c]: its events are taken, and slots are
    applied until the loop's core is [c']. *)
Definition caught s c c' s' : Prop := rtc apply_step (moved s a (core_Events c).1 []) s' /\ holds s' c'.

(** A message of the network, as the transport delivers it. *)
Definition arrived s (env : Envelope) : Prop := env ∈ net (sv_logs s) /\ small_msg (env_msg env).

(** What the transport and the callers may bring. *)
Definition brought s (x : Input) : Prop :=
  match x with
  | Delivers env => arrived s env
  | Submits _ id cmd => wanted cmd /\ asked id = cmd
  | Reads _ id => took id = s
  | Stop | Inbox _ | TickerC _ | Kick | Abandons _ => True
  end.

(** Host [a] has restarted, runs its loop, and has taken the inputs [xs],
    while the rest of the service went on.  The store of any host may fail in
    any call, this host's included; its counters are below 2^63. *)
Inductive hosted : list Input -> Service T -> Runner T -> Prop :=
| ho_start s st rng c observed now c1 outs lock r s' :
    service_reached s -> hosts (sv_logs s) a = Down st -> NewCore (cfgs a) st rng = inl c -> roomy (log c) ->
    core_Tick now c = Some (c1, outs) -> roomy (log c1) ->
    run_start deal_fuel now lock (NewRunner c observed) = Some r ->
    caught (moved (moved s a c []) a c1 outs) c1 (r_core r) s' -> hosted [] s' r
| ho_other xs s r s' : hosted xs s r -> sserving s s' -> holds s' (r_core r) -> hosted xs s' r
| ho_round xs s r x lock c outs r' s' :
    hosted xs s r -> brought s x -> roomy (log (r_core r)) ->
    moves x r = Some (c, outs) -> roomy (log c) ->
    step deal_fuel x lock r = Some r' -> caught (moved s a c outs) c (r_core r') s' -> hosted (xs ++ [x]) s' r'.

(** ** The steps of the service that a round is made of *)

Lemma holds_core s c n : holds s c -> hosts (sv_logs s) a = Up n -> core_at s a n = c.
Proof. intros [H1 H2] H. rewrite H1 in H. injection H as <-. unfold core_at. rewrite H2. by destruct c. Qed.

Lemma holds_moved s c outs : holds (moved s a c outs) c.
Proof. split; simpl; apply fn_lookup_insert. Qed.

Lemma running_moved s c outs : running a (sv_logs (moved s a c outs)).
Proof. eexists. simpl. apply fn_lookup_insert. Qed.

Lemma apply_step_serving s s' : apply_step s s' -> sserving s s'.
Proof. intros [n c x Hn Hr E]. split; [by eapply sv_apply|apply running_moved]. Qed.

Lemma caught_serving s c c' s' : holds s c -> caught s c c' s' -> rtc sserving s s'.
Proof.
  intros [H1 H2] [Hr _]. eapply rtc_l.
  - split; [eapply (sv_events A cfgs deal_fuel wanted s a (log c)); done|apply running_moved].
  - replace (core_at s a (log c)) with c by (unfold core_at; rewrite H2; by destruct c).
    clear - Hr Ha. induction Hr as [|s1 s2 s3 St _ IH]; [apply rtc_refl|]. eapply rtc_l; [by apply apply_step_serving|exact IH].
Qed.

(** ** What holds between the rounds *)

(** Read [id] may be answered behind slot [i]: no replica had applied more
    when it was taken. *)
Definition due_at s (id : nat) (i : Slot) : Prop := covers A (took id) i /\ since (took id) s.

Definition barrier_at s0 (k : Z) s : Prop := barrier A cfgs deal_fuel wanted a s0 k s.

Record hosting s r : Prop := {
  hg_reached : service_reached s;
  hg_holds : holds s (r_core r);
  hg_tidy : tidy deal_fuel asked (due_at s) r;
  hg_inbox : Forall (arrived s) (r_inbox r);
  hg_barriers : forall seq rq, r_pendingReads r !! seq = Some rq -> barrier_at (took (rq_id rq)) seq s;
}.

Lemma sstep_net s s' env : sstep s s' -> env ∈ net (sv_logs s) -> env ∈ net (sv_logs s').
Proof. intros St H. destruct St; simpl; by apply elem_of_app; left. Qed.

Lemma serving_arrived s s' env : rtc sserving s s' -> arrived s env -> arrived s' env.
Proof.
  intros Hr [H Hm]. split; [|done]. induction Hr as [|s1 s2 s3 [St _] _ IH]; [done|]. apply IH. by eapply sstep_net.
Qed.

Lemma serving_barrier s0 k s s' : rtc sserving s s' -> barrier_at s0 k s -> barrier_at s0 k s'.
Proof.
  intros Hr (now & n & c & out & Hn & Hroom & E & Hs & H). exists now, n, c, out. split_and!; try done.
  by eapply since_steps.
Qed.

Lemma serving_due s s' id i : rtc sserving s s' -> due_at s id i -> due_at s' id i.
Proof. intros Hr [H Hs]. split; [done|]. by eapply since_steps. Qed.

Lemma serving_reached s s' : rtc sserving s s' -> service_reached s -> service_reached s'.
Proof. intros Hr H. by eapply sserving_reached. Qed.

(** The invariant is kept while the loop does nothing. *)
Lemma tidy_due (due due' : nat -> Slot -> Prop) r : (forall id i, due id i -> due' id i) ->
  tidy deal_fuel asked due r -> tidy deal_fuel asked due' r.
Proof.
  intros Hd [[H1 H2 H3 H4 H5 H6 H7] D Hl Hs Hk Hi Hw]. split; try done. split; try done.
  - refine (Forall_impl _ _ _ H2 _). intros [| | | | |id [[res|err]|[err|]]|]; try done. intros (i & ? & ?). exists i. eauto.
  - intros seq i rq He Hp. apply Hd. by eapply H4.
  - refine (Forall_impl _ _ _ H5 _). intros rq. apply Hd.
Qed.

Lemma hosting_other s r s' : hosting s r -> rtc sserving s s' -> holds s' (r_core r) -> hosting s' r.
Proof.
  intros [H1 H2 H3 H4 H5] Hr Hh. split; [by eapply serving_reached|done| | |].
  - refine (tidy_due _ _ _ _ H3). intros id i. by apply serving_due.
  - refine (Forall_impl _ _ _ H4 _). intros env. by apply serving_arrived.
  - intros seq rq Hp. eapply serving_barrier; [exact Hr|]. by apply H5.
Qed.

(** What an input does to the core is a step of the service, and a Read that
    begins a barrier begins it there. *)
Lemma moves_serving s r x c outs : hosting s r -> brought s x -> roomy (log (r_core r)) -> moves x r = Some (c, outs) ->
  sserving s (moved s a c outs).
Proof.
  intros Hg Hb Hr Hm. destruct Hg as [_ [Hn Hst] _ Hi _]. split; [|apply running_moved].
  assert (Ec : core_at s a (log (r_core r)) = r_core r) by (by apply holds_core).
  assert (Hidle : Some (r_core r, []) = Some (c, outs) -> sstep s (moved s a c outs)).
  { intros [= <- <-]. rewrite <- Ec at 1. by apply sv_idle. }
  unfold moves in Hm. destruct (r_done r); [by apply Hidle|]. destruct x as [|now|now|now id cmd|now id| |env|id]; try (by apply Hidle).
  - destruct (r_inbox r) as [|env rest]; [by apply Hidle|]. apply Forall_cons in Hi as [[Hin Hsm] _].
    eapply (sv_deliver A cfgs deal_fuel wanted s a now env (log (r_core r))); try done. by rewrite Ec.
  - eapply (sv_tick A cfgs deal_fuel wanted s a now (log (r_core r))); try done. by rewrite Ec.
  - destruct (abandoned r id); [by apply Hidle|]. destruct (Replay_result _ cmd); [by apply Hidle|].
    apply bind_Some in Hm as ([[c' o] err] & E & [= <- <-]). destruct Hb as [Hw _].
    eapply (sv_submit A cfgs deal_fuel wanted s a now cmd (log (r_core r))); try done. by rewrite Ec.
  - destruct (abandoned r id); [by apply Hidle|]. apply bind_Some in Hm as ([[[c' k] o] err] & E & [= <- <-]).
    eapply (sv_read A cfgs deal_fuel wanted s a now (log (r_core r))); try done. by rewrite Ec.
Qed.

(** The barriers of a round: those pending, and the one a Read begins. *)
Lemma round_barrier s r x c outs seq id : hosting s r -> brought s x -> roomy (log (r_core r)) -> moves x r = Some (c, outs) ->
  barrier_of x r seq id -> barrier_at (took id) seq (moved s a c outs).
Proof.
  intros Hg Hb Hr Hm Hbar. pose proof (moves_serving s r x c outs Hg Hb Hr Hm) as St.
  destruct Hg as [H1 H2 _ _ H5]. destruct Hbar as [(rq & Hp & <-)|(now & c' & o & -> & Hd & Ea & E)].
  - eapply serving_barrier; [by apply rtc_once|]. by apply H5.
  - unfold moves in Hm. rewrite Hd, Ea, E in Hm. injection Hm as <- <-. simpl in Hb. rewrite Hb.
    exists now, (log (r_core r)), c', o. destruct H2 as [Hn Hst]. split_and!; try done.
    + by rewrite (holds_core s (r_core r)).
    + split; [|apply rtc_refl]. eapply serving_reached; [by apply rtc_once|done].
Qed.

Lemma barrier_since s0 k s : barrier_at s0 k s -> since s0 s.
Proof.
  intros (now & n & c & out & Hn & Hr & E & [_ Hs] & H). split; [done|]. eapply rtc_l; [|exact Hs].
  split; [by eapply sv_read|apply running_moved].
Qed.

(** The log of a running replica holds the no-op and commands that decode. *)
Lemma holds_decodes s c : service_reached s -> holds s c -> log_decodes deal_fuel c.
Proof.
  intros H [Hn _] k e He.
  eapply (chosen_ok A cfgs deal_fuel wanted gc wanted_ok s a H Ha k). by eapply known_chosen.
Qed.

Lemma round_expected s r x c outs : hosting s r -> brought s x -> roomy (log (r_core r)) -> moves x r = Some (c, outs) ->
  roomy (log c) ->
  expected deal_fuel asked (due_at (moved s a c outs)) x r.
Proof.
  intros Hg Hb Hr Hm Hr'. pose proof (moves_serving s r x c outs Hg Hb Hr Hm) as St.
  assert (H' : service_reached (moved s a c outs)) by (eapply serving_reached; [by apply rtc_once|apply Hg]).
  split.
  - intros now id cmd ->. apply Hb.
  - intros c0 o0 E. rewrite Hm in E. injection E as <- <-. split; [apply (ro_commit _ Hr')|].
    eapply holds_decodes; [exact H'|apply holds_moved].
  - intros c0 o0 seq i id E Hev Hbar. rewrite Hm in E. injection E as <- <-.
    pose proof (round_barrier s r x c outs seq id Hg Hb Hr Hm Hbar) as B. split; [|by eapply barrier_since].
    assert (F : is_failed (log c) = false).
    { apply not_true_iff_false. intros F. rewrite (failed_silent _ _ _ _ Hm (ti_drained _ _ _ _ (hg_tidy _ _ Hg)) F) in Hev.
      by apply not_elem_of_nil in Hev. }
    eapply (barrier_covered A cfgs deal_fuel wanted gc wanted_ok a (took id) seq (moved s a c outs) (log c) i); try done.
    simpl. apply fn_lookup_insert.
Qed.

Lemma hosting_round s r x lock c outs r' s' : hosting s r -> brought s x -> roomy (log (r_core r)) ->
  moves x r = Some (c, outs) -> roomy (log c) ->
  step deal_fuel x lock r = Some r' -> caught (moved s a c outs) c (r_core r') s' -> hosting s' r'.
Proof.
  intros Hg Hb Hr Hm Hr' E Hc. set (s1 := moved s a c outs) in *.
  pose proof (moves_serving s r x c outs Hg Hb Hr Hm) as St. pose proof (rtc_once _ _ St) as S1.
  pose proof (round_expected s r x c outs Hg Hb Hr Hm Hr') as He.
  assert (Ht : tidy deal_fuel asked (due_at s1) r) by (refine (tidy_due _ _ _ _ (hg_tidy _ _ Hg)); intros id i; by apply serving_due).
  destruct (step_rounded deal_fuel asked (due_at s1) x lock r r' Ht Hr He E) as [Ht' _ Hp Hi].
  assert (S2 : rtc sserving s1 s') by (eapply caught_serving; [apply holds_moved|exact Hc]).
  pose proof (transitivity S1 S2) as S12.
  split.
  - eapply serving_reached; [exact S12|apply Hg].
  - apply Hc.
  - refine (tidy_due _ _ _ _ Ht'). intros id i. by apply serving_due.
  - apply Forall_forall. intros env Hin. eapply serving_arrived; [exact S12|].
    destruct (Hi env Hin) as [Hold| ->]; [|exact Hb]. exact (proj1 (Forall_forall _ _) (hg_inbox _ _ Hg) env Hold).
  - intros seq rq Hq. eapply serving_barrier; [exact S2|]. eapply round_barrier; try done. by apply Hp.
Qed.

Lemma NewCore_fresh cfg st rng c : NewCore cfg st rng = inl c -> roomy (log c) -> state c = NewState /\ orderly (log c).
Proof.
  unfold NewCore. destruct (New cfg st rng) as [n|] eqn:E; [|done]. intros [= <-] Hr. split; [done|].
  destruct (New_orderly _ _ _ _ E) as (E1 & _). split; [by intros|]. intros _. apply (ro_round _ Hr).
Qed.

Lemma handled_new due c : state c = NewState -> orderly (log c) -> forall observed, handled deal_fuel asked due (NewRunner c observed).
Proof.
  intros Es Ho observed. split; [exact (queues_empty asked (state c) (NewRunner c observed))|..]; simpl; rewrite ?Es; try done.
  - constructor.
  - intros _ seq Hs. rewrite lookup_empty in Hs. by destruct Hs.
  - split; [apply rtc_refl|done].
Qed.

Lemma hosting_start s st rng c observed now c1 outs lock r s' :
  service_reached s -> hosts (sv_logs s) a = Down st -> NewCore (cfgs a) st rng = inl c -> roomy (log c) ->
  core_Tick now c = Some (c1, outs) -> roomy (log c1) ->
  run_start deal_fuel now lock (NewRunner c observed) = Some r ->
  caught (moved (moved s a c []) a c1 outs) c1 (r_core r) s' -> hosting s' r.
Proof.
  intros H Hd Hc Hr Et Hr1 Er Hcat. destruct (NewCore_fresh _ _ _ _ Hc Hr) as [Es Ho].
  set (s0 := moved s a c []) in *. set (s1 := moved s0 a c1 outs) in *.
  assert (H0 : service_reached s0) by (destruct H as (z & ? & ?); exists z; split; [done|]; eapply rtc_r; [done|]; by eapply sv_restart).
  assert (St : sserving s0 s1).
  { split; [|apply running_moved]. eapply (sv_tick A cfgs deal_fuel wanted s0 a now (log c)); try done.
    - simpl. apply fn_lookup_insert.
    - rewrite (holds_core s0 c); [done|apply holds_moved|simpl; apply fn_lookup_insert]. }
  assert (S2 : rtc sserving s1 s') by (eapply caught_serving; [apply holds_moved|exact Hcat]).
  assert (H1 : service_reached s1) by (eapply serving_reached; [by apply rtc_once|done]).
  unfold core_Tick in Et. apply bind_Some in Et as ([n1 o] & Et & [= <- <-]).
  unfold run_start, core_Tick in Er. simpl in Er. rewrite Et in Er. simpl in Er.
  assert (Hh : handled deal_fuel asked (due_at s1) (NewRunner c observed <| r_core := mkCore n1 (state c) |>)).
  { apply handled_core; [by apply handled_new|done| |].
    - apply (Tick_keeps _ _ _ _ Ho (proj2 (ro_round _ Hr)) Et).
    - intros seq i rq _ Hp. simpl in Hp. by rewrite lookup_empty in Hp. }
  destruct (after_tidy deal_fuel asked (due_at s1) lock o (NewRunner c observed <| r_core := mkCore n1 (state c) |>) r) as (Ht & _ & Hp & Ef);
    [exact Hh|by eapply holds_decodes, holds_moved|apply (ro_commit _ Hr1)|exact Er|].
  split.
  - by eapply serving_reached.
  - apply Hcat.
  - refine (tidy_due _ _ _ _ Ht). intros id i. by apply serving_due.
  - assert (Eb : r_inbox r = []) by (injection Ef; by intros). rewrite Eb. constructor.
  - intros seq rq Hq. apply (lookup_weaken _ _ _ _ Hq) in Hp. simpl in Hp. by rewrite lookup_empty in Hp.
Qed.

Lemma hosted_hosting xs s r : hosted xs s r -> hosting s r.
Proof.
  intros H. induction H; [by eapply hosting_start| |by eapply hosting_round].
  eapply hosting_other; [done|by apply rtc_once|done].
Qed.

(** ** Every round returns *)

Lemma roomy_events c : roomy (log c) -> roomy (log (core_Events c).1).
Proof. intros [H1 H2 H3 H4 H5 H6 H7 H8]. by split. Qed.

Lemma ApplyNext_log (c c1 : Core T) x : ApplyNext deal_fuel c = Some (c1, x) -> log c1 = log c.
Proof.
  intros E. unfold ApplyNext in E. repeat case_match; simplify_eq; try done. by apply bind_Some in E as ([st res] & _ & [= <- _]).
Qed.

(** Applying leaves the log alone. *)
Lemma advanced_log c c' : advanced deal_fuel c c' -> log c' = log (core_Events c).1.
Proof.
  intros [->|(l & E)]; [done|]. revert E. generalize (core_Events c).1 as c1. clear c. intros c. unfold ApplyCommitted.
  generalize (Z.to_nat (n_commitIndex (log c) - applied (state c))). intros fuel. revert c l.
  induction fuel as [|fuel IH]; intros c l E; simpl in E; apply bind_Some in E as ([c1 x] & E1 & E); apply ApplyNext_log in E1 as El; destruct x as [p|]; try done;
    try (by injection E as <- _).
  apply bind_Some in E as ([c2 l2] & E2 & [= <- _]). by rewrite (IH c1 l2 E2).
Qed.

(** Applying what is committed is a sequence of steps of the service. *)
Lemma ApplyCommitted_path c c' l s : holds s c -> roomy (log c) -> ApplyCommitted deal_fuel c = Some (c', l) ->
  exists s', rtc apply_step s s' /\ holds s' c'.
Proof.
  unfold ApplyCommitted. generalize (Z.to_nat (n_commitIndex (log c) - applied (state c))). intros fuel. revert c c' l s.
  induction fuel as [|fuel IH]; intros c c' l s Hh Hr E; simpl in E; apply bind_Some in E as ([c1 x] & E1 & E); destruct x as [p|].
  - done.
  - injection E as <- _. exists s. split; [apply rtc_refl|]. unfold ApplyNext in E1. repeat case_match; simplify_eq; try done.
    by apply bind_Some in E1 as ([st res] & _ & [= ]).
  - apply bind_Some in E as ([c2 l2] & E2 & [= <- _]).
    pose proof (ApplyNext_log c c1 _ E1) as El.
    destruct (IH c1 c2 l2 (moved s a c1 [])) as (s' & Hs & Hh'); [apply holds_moved|by rewrite El|exact E2|].
    exists s'. split; [|done]. eapply rtc_l; [|exact Hs]. eapply as_apply; [apply Hh|done|]. rewrite (holds_core s c) by (done || apply Hh). exact E1.
  - injection E as <- _. exists s. split; [apply rtc_refl|]. unfold ApplyNext in E1. repeat case_match; simplify_eq; try done.
    by apply bind_Some in E1 as ([st res] & _ & [= ]).
Qed.

Lemma ApplyCommitted_returns s c : service_reached s -> holds s c -> roomy (log c) -> is_Some (ApplyCommitted deal_fuel c).
Proof.
  intros H [Hn Hst] Hr. destruct (service_machines A cfgs deal_fuel wanted gc wanted_ok s H a Ha _ Hn) as (k & Hk & R).
  pose proof (chosen_ok A cfgs deal_fuel wanted gc wanted_ok s a H Ha) as HD. rewrite Hst in R.
  destruct (replayed_state _ _ _ _ HD R) as (H0 & _ & Ea).
  destruct (applyCommitted_spec deal_fuel (chosen_on s a) (Z.to_nat (n_commitIndex (log c) - k)) c k) as (st & l & E & _); try done.
  - apply (ro_commit _ Hr).
  - intros j Hj. destruct (committed_known A cfgs deal_fuel wanted gc s a (log c) j H Ha Hn) as (e & He); [lia|].
    exists e. split; [done|]. by eapply known_chosen.
  - unfold ApplyCommitted. rewrite Ea, E. done.
Qed.

Lemma after_returns lock outs r : is_Some (ApplyCommitted deal_fuel (core_Events (r_core r)).1) -> is_Some (after deal_fuel lock outs r).
Proof.
  intros [[c l] E]. unfold after.
  assert (S1 : says (fun _ => True) r (foldl send_out r outs)) by (apply says_fold; intros; by apply send_out_says).
  destruct S1 as (o & -> & _). set (r1 := r <| r_out := _ |>).
  change (r_core r1) with (r_core r). destruct (core_Events (r_core r)) as [c1 evs].
  pose proof (note_events_noted evs (r1 <| r_core := c1 |>) []) as Hn. destruct (foldl note_event _ evs) as [r2 failed].
  destruct Hn as (p & w & E2 & _). simpl in E2.
  assert (H2 : exists r3 l3, applyCommitted deal_fuel lock r2 = Some (r3, l3)).
  { unfold applyCommitted. case_goal; [eauto|]. case_goal; [eauto|]. rewrite E2. simpl in *. rewrite E. simpl. eauto. }
  destruct H2 as (r3 & l3 & ->). simpl. done.
Qed.

Lemma moves_returns s r x : hosting s r -> brought s x -> roomy (log (r_core r)) -> is_Some (moves x r).
Proof.
  intros [H [Hn Hst] _ Hi _] Hb Hr. pose proof (service_log A cfgs deal_fuel wanted s H) as HL.
  pose proof (fun now => calls_return A cfgs (encoded wanted) gc (or_introl eq_refl) (sv_logs s) a (log (r_core r)) now HL Ha Hn Hr) as C.
  unfold moves. destruct (r_done r); [done|]. destruct x as [|now|now|now id cmd|now id| |env|id]; try done.
  - destruct (r_inbox r) as [|env rest]; [done|]. apply Forall_cons in Hi as [[Hin Hsm] _]. destruct (C now) as (CS & _).
    destruct (CS env Hin Hsm) as [[n o] E]. unfold core_Step. by rewrite E.
  - destruct (C now) as (_ & [[n o] E] & _). unfold core_Tick. by rewrite E.
  - destruct (abandoned r id); [done|]. destruct (Replay_result _ cmd); [done|]. destruct Hb as [Hw _]. unfold Submit.
    destruct (ValidateKey _) eqn:Ek; [done|]. destruct (Encode cmd) as [v|] eqn:Ev; [|done]. destruct (C now) as (_ & _ & CP & _).
    destruct (CP (string_of v)) as [[[n o] e] E]; [right; by exists cmd, v|]. by rewrite E.
  - destruct (abandoned r id); [done|]. destruct (C now) as (_ & _ & _ & [[[[n q] o] e] E]). unfold core_ReadIndex. by rewrite E.
Qed.

(** What [step] needs of the state machine. *)
Lemma step_returns x lock r c outs : n_events (log (r_core r)) = [] -> moves x r = Some (c, outs) ->
  is_Some (ApplyCommitted deal_fuel (core_Events c).1) -> is_Some (step deal_fuel x lock r).
Proof.
  intros Hev Hm Hc. unfold step.
  assert (Hloop : is_Some (exit_if r_done r with Some r; r ← take deal_fuel x lock r; Some (check_failed r))).
  { unfold moves in Hm. destruct (r_done r) eqn:Hd; [done|].
    enough (is_Some (take deal_fuel x lock r)) as [r1 ->] by done. unfold take.
    destruct x as [|now|now|now id cmd|now id| |env|id]; try done.
    - destruct (r_inbox r) as [|env rest]; [done|]. set (r0 := if r_observed _ then _ else _).
      assert (Ec : r_core r0 = r_core r) by (unfold r0; by case_goal). rewrite Ec, Hm. simpl. by apply after_returns.
    - change (r_core (sweepAbandoned r)) with (r_core r). rewrite Hm. simpl. by apply after_returns.
    - unfold handleSubmit. destruct (abandoned r id); [done|]. destruct (Replay_result _ cmd); [done|].
      apply bind_Some in Hm as ([[c' o] err] & -> & [= -> ->]). simpl. destruct err; by apply after_returns.
    - unfold handleRead. destruct (abandoned r id); [done|].
      apply bind_Some in Hm as ([[[c' k] o] err] & -> & [= -> ->]). simpl. destruct err; by apply after_returns.
    - injection Hm as <- <-. by apply after_returns. }
  destruct x; try done; by destruct (r_done r).
Qed.

Lemma caught_exists s c c' : holds s c -> roomy (log c) -> advanced deal_fuel c c' -> exists s', caught s c c' s'.
Proof.
  intros Hh Hr Hadv. assert (H2 : holds (moved s a (core_Events c).1 []) (core_Events c).1) by apply holds_moved.
  destruct Hadv as [->|(l & El)]; [by eexists; split; [apply rtc_refl|]|].
  destruct (ApplyCommitted_path _ c' l _ H2 (roomy_events c Hr) El) as (s' & Hs & Hh'). by exists s'.
Qed.

(** Only host [a] and the messages it sends change. *)
Lemma caught_frame s c c' s' : caught s c c' s' -> net (sv_logs s') = net (sv_logs s) /\
  forall b, b <> a -> hosts (sv_logs s') b = hosts (sv_logs s) b /\ sv_machines s' b = sv_machines s b.
Proof.
  intros [Hr _].
  enough (H : forall s1, rtc apply_step s1 s' -> net (sv_logs s') = net (sv_logs s1) /\
    forall b, b <> a -> hosts (sv_logs s') b = hosts (sv_logs s1) b /\ sv_machines s' b = sv_machines s1 b).
  { destruct (H _ Hr) as [-> Hb]. simpl. rewrite app_nil_r. split; [done|]. intros b Hne. destruct (Hb b Hne) as [-> ->]. simpl.
    by rewrite !fn_lookup_insert_ne. }
  clear Hr. intros s1 Hr. induction Hr as [|s1 s2 s3 St _ [IHn IHb]]; [done|]. destruct St as [n c1 x Hn Hroom E].
  rewrite IHn. simpl. rewrite app_nil_r. split; [done|]. intros b Hne. destruct (IHb b Hne) as [-> ->]. simpl. by rewrite !fn_lookup_insert_ne.
Qed.

Lemma round_returns s r x lock c outs : hosting s r -> brought s x -> roomy (log (r_core r)) -> moves x r = Some (c, outs) ->
  roomy (log c) ->
  exists r' s', step deal_fuel x lock r = Some r' /\ caught (moved s a c outs) c (r_core r') s'.
Proof.
  intros Hg Hb Hr Hm Hr'. set (s1 := moved s a c outs).
  assert (St : sserving s s1) by by eapply moves_serving.
  assert (H1 : service_reached s1) by (eapply serving_reached; [by apply rtc_once|apply Hg]).
  assert (Hh1 : holds s1 c) by apply holds_moved. set (c1 := (core_Events c).1). set (s2 := moved s1 a c1 []).
  assert (Ee : s2 = moved s1 a (core_Events (core_at s1 a (log c))).1 [])
    by (rewrite (holds_core s1 c); [done|exact Hh1|apply Hh1]).
  assert (St2 : sserving s1 s2).
  { split; [|apply running_moved]. rewrite Ee. eapply sv_events; [done|apply Hh1]. }
  assert (H2 : service_reached s2) by (eapply serving_reached; [by apply rtc_once|exact H1]).
  assert (Hh2 : holds s2 c1) by apply holds_moved. pose proof (roomy_events c Hr') as Hr2.
  pose proof (ApplyCommitted_returns s2 c1 H2 Hh2 Hr2) as Hret.
  destruct (step_returns x lock r c outs (ti_drained _ _ _ _ (hg_tidy _ _ Hg)) Hm Hret) as [r' E]. exists r'.
  assert (Ht : tidy deal_fuel asked (due_at s1) r).
  { refine (tidy_due _ _ _ _ (hg_tidy _ _ Hg)). intros id i. apply serving_due. by apply rtc_once. }
  pose proof (round_expected s r x c outs Hg Hb Hr Hm Hr') as He.
  destruct (rd_core _ _ _ _ _ _ (step_rounded deal_fuel asked _ x lock r r' Ht Hr He E)) as (c0 & o0 & E0 & Hadv).
  rewrite Hm in E0. injection E0 as <- <-. destruct (caught_exists s1 c (r_core r') Hh1 Hr' Hadv) as (s' & Hc). by exists s'.
Qed.

(** ** The guarantees *)

(** C10. An event loop is consistent with its log and its state at all times:
    between two rounds every waiter is queued under the key of its command
    with that command's fingerprint, and no such key is recorded in the state
    yet; the counts and the published status are those of the moment; a read
    whose barrier has completed waits only for slots not yet applied; while
    nothing is marked as waiting to be applied, everything committed is
    applied; a barrier the loop waits for is pending in the log; and a replica
    that does not lead holds no Submit and no pending barrier. *)
Theorem runner_invariant xs s r : hosted xs s r ->
  (forall key ws, r_waiters r !! key = Some ws -> ws <> [] /\ results (sv_machines s a) !! key = None /\
     Forall (fun w => cmd_key (w_cmd w) = key /\ w_fp w = Fingerprint (w_cmd w) /\ asked (w_id w) = w_cmd w) ws) /\
  r_nwaiters r = len (all_waiters (r_waiters r)) /\ r_held r = total r /\ r_status r = status (r_core r) /\
  Forall (fun rq => applied (sv_machines s a) < rq_index rq) (r_applyWaits r) /\
  (r_applyWait r = false -> n_commitIndex (log (r_core r)) <= applied (sv_machines s a)) /\
  (is_failed (log (r_core r)) = false -> forall seq, is_Some (r_pendingReads r !! seq) -> is_Some (n_reads (log (r_core r)) !! seq)) /\
  (n_role (log (r_core r)) <> Leader -> r_waiters r = ∅ /\ (is_failed (log (r_core r)) = false -> r_pendingReads r = ∅)).
Proof.
  intros H. destruct (hosted_hosting xs s r H) as [_ [_ Hst] [[Q _ Hr _ _ Ho _] D Hl Hs Hm Hi Hw] _ _]. rewrite Hst.
  assert (Hreads : is_failed (log (r_core r)) = false -> forall seq, is_Some (r_pendingReads r !! seq) -> is_Some (n_reads (log (r_core r)) !! seq)).
  { intros F seq Hq. destruct (Hr F seq Hq) as [[Hn|He] _]; [done|]. by rewrite D in He. }
  split_and!; try done.
  - intros key ws Hk. destruct (qu_ok _ _ _ Q key ws Hk) as [Hne Hok]. split_and!; [done| |done]. by apply (qu_new _ _ _ Q); eexists.
  - apply (qu_count _ _ _ Q).
  - intros Hne. split; [by apply Hi|]. intros F. apply map_empty. intros seq. apply eq_None_not_Some. intros Hq.
    destruct (Hreads F seq Hq) as [x Hx]. rewrite (or_idle _ Ho F Hne), lookup_empty in Hx. done.
Qed.

(** The requests among the inputs. *)
Definition requests (xs : list Input) : list nat :=
  omap (fun x => match x with Submits _ id _ | Reads _ id => Some id | _ => None end) xs.

Lemma requests_app xs ys : requests (xs ++ ys) = requests xs ++ requests ys.
Proof. apply omap_app. Qed.

Lemma places_new c c1 observed id : places (NewRunner c observed <| r_core := c1 |>) id = 0%nat.
Proof. unfold places, held_ids. simpl. by rewrite read_ids_empty. Qed.

Lemma hosted_balanced xs s r : hosted xs s r ->
  (r_done r = true -> held_ids r = []) /\ exists n, balanced (requests (firstn n xs)) r /\ (r_done r = false -> (length xs <= n)%nat).
Proof.
  intros H. induction H as [s st rng c observed now c1 outs lock r s' H Hd Hc Hr Et Hr1 Er Hcat|xs s r s' _ IH _ _
    |xs s r x lock c outs r' s' H IH Hb Hr Hm Hr' E Hcat]; [|done|].
  - unfold run_start in Er. cbn [r_core NewRunner] in Er. rewrite Et in Er. cbn [mbind option_bind] in Er.
    destruct (NewCore_fresh _ _ _ _ Hc Hr) as [Es Ho].
    destruct (after_flow deal_fuel [] lock outs _ _ Er) as [Ef Fl].
    assert (Hz : forall id, places r id = 0%nat).
    { intros id. destruct (Fl id) as [Hle _]. rewrite places_new in Hle. change (times id []) with 0%nat in Hle. lia. }
    split.
    + intros _. destruct (held_ids r) as [|id l] eqn:El; [done|]. specialize (Hz id). unfold places in Hz.
      rewrite El, times_cons, decide_True in Hz by done. lia.
    + exists 0%nat. split; [|simpl; lia]. intros id. by rewrite Hz.
  - pose proof (hosted_hosting xs s r H) as Hg. destruct IH as [IHd (n & Hbal & Hn)].
    pose proof (round_expected s r x c outs Hg Hb Hr Hm Hr') as He.
    assert (Ht : tidy deal_fuel asked (due_at (moved s a c outs)) r).
    { refine (tidy_due _ _ _ _ (hg_tidy _ _ Hg)). intros id i. apply serving_due, rtc_once. by eapply moves_serving. }
    pose proof (ti_handled _ _ _ _ Ht) as Hh.
    split; [by apply (rd_done _ _ _ _ _ _ (step_rounded deal_fuel asked _ x lock r r' Ht Hr He E))|].
    assert (Hnum : numbered r) by (intros Fr seq Hs; by apply (ha_reads _ _ _ _ Hh Fr)).
    pose proof (step_balanced deal_fuel _ x lock r r' Hnum (ha_orderly _ _ _ _ Hh) Hr E Hbal) as Hbal'.
    unfold brings in Hbal'. destruct (r_done r) eqn:Ed.
    + exists (n `min` length xs)%nat. rewrite app_nil_r in Hbal'. split.
      * rewrite take_app_le by lia. 
        destruct (Nat.le_gt_cases n (length xs)); [by rewrite Nat.min_l by lia|].
        rewrite Nat.min_r, firstn_all by lia. rewrite take_ge in Hbal' by lia. exact Hbal'.
      * intros Hd'. exfalso. assert (r_done r' = true); [|congruence].
        unfold step in E. rewrite Ed in E. destruct x; injection E as <-; try done. unfold Deliver. by case_goal.
    + specialize (Hn eq_refl). exists (S (length xs)). rewrite !take_ge by (rewrite ?length_app; simpl; lia).
      rewrite take_ge in Hbal' by lia. split; [|rewrite length_app; simpl; lia]. rewrite requests_app.
      replace (requests [x]) with (match x with Submits _ id _ | Reads _ id => [id] | _ => [] end) by by destruct x. exact Hbal'.
Qed.


(** C3. A Submit is told what is recorded: every result the loop has sent for a
    Submit is, for the command that was asked, what the replica's results
    table holds under its key: the recorded result, possibly marked as a
    replay, or that the key was used for another command. *)
Theorem runner_answers_recorded xs s r id res : hosted xs s r -> Answer id (SubmitReply (inl res)) ∈ r_out r ->
  exists rec, results (sv_machines s a) !! cmd_key (asked id) = Some rec /\
    if bool_decide (rec_fingerprint rec = Fingerprint (asked id)) then res = rec_result rec \/ res = with_replayed (rec_result rec)
    else res = result_at KeyReused key_reused 0.
Proof.
  intros H Hin. destruct (hosted_hosting xs s r H) as [_ [_ ->] Ht _ _].
  exact (proj1 (Forall_forall _ _) (ha_answers _ _ _ _ (ti_handled _ _ _ _ Ht)) _ Hin).
Qed.

(** C2. A consistent Read is linearizable: when the loop has answered it, the
    replica's state is one that the state of every replica at the moment the
    Read was taken leads to, up to the ballots recorded in it, so it holds
    every result any replica had recorded then. *)
Theorem runner_reads_linearizable xs s r id x n : hosted xs s r -> Answer id (ReadReply None) ∈ r_out r ->
  x ∈ A -> hosts (sv_logs (took id)) x = Up n ->
  applied (sv_machines (took id) x) <= applied (sv_machines s a) /\
  (exists st, Reach.later deal_fuel st (sv_machines s a) /\ blind st = blind (sv_machines (took id) x)) /\
  results (sv_machines (took id) x) ⊆ results (sv_machines s a).
Proof.
  intros H Hin Hx Hn. destruct (hosted_hosting xs s r H) as [_ [Hup Hst] Ht _ _].
  destruct (proj1 (Forall_forall _ _) (ha_answers _ _ _ _ (ti_handled _ _ _ _ Ht)) _ Hin) as (i & [Hc Hs] & Hi).
  rewrite <- Hst in Hi. pose proof (Hc x n Hx Hn). split; [lia|].
  eapply (seen_before A cfgs deal_fuel wanted gc wanted_ok a (took id) s (log (r_core r)) x n); try done. lia.
Qed.

(** What the [select] of [Run] takes, but for the end of the context. *)
Definition selected (x : Input) : bool :=
  match x with Inbox _ | TickerC _ | Submits _ _ _ | Reads _ _ | Kick => true | Stop | Delivers _ | Abandons _ => false end.

(** When the store has failed in a round, or before, the round ends [Run]. *)
Lemma failed_round s r x lock c outs r' : hosting s r -> brought s x -> roomy (log (r_core r)) -> moves x r = Some (c, outs) ->
  roomy (log c) -> step deal_fuel x lock r = Some r' -> selected x = true -> r_done r = false -> is_failed (log c) = true ->
  r_done r' = true /\ held_ids r' = [] /\ exists err, n_failed (log c) = Some err /\ last (r_out r') = Some (Return (Some err)).
Proof.
  intros Hg Hb Hr Hm Hr' E Hx Hd F.
  assert (Ht : tidy deal_fuel asked (due_at (moved s a c outs)) r).
  { refine (tidy_due _ _ _ _ (hg_tidy _ _ Hg)). intros id i. apply serving_due, rtc_once. by eapply moves_serving. }
  pose proof (round_expected s r x c outs Hg Hb Hr Hm Hr') as He.
  assert (E1 : exists r1, take deal_fuel x lock r = Some r1 /\ check_failed r1 = r').
  { unfold step in E. rewrite Hd in E. destruct x; try done; apply bind_Some in E as (r1 & E & [= <-]); by exists r1. }
  destruct E1 as (r1 & E1 & <-).
  destruct (take_rounded deal_fuel asked _ x lock r r1 Ht Hr Hd He ltac:(by intros ->) E1) as [Ht1 (c0 & o0 & E0 & Hadv) _ _ _].
  rewrite Hm in E0. injection E0 as <- <-. apply advanced_log in Hadv.
  assert (Ef : n_failed (log (r_core r1)) = n_failed (log c)) by by rewrite Hadv.
  unfold is_failed in F. destruct (n_failed (log c)) as [err|] eqn:Ec; [|done].
  unfold check_failed, core_Failed. rewrite Ef. split; [done|]. split; [apply (return_tidy _ _ _ _ _ _ Ht1)|].
  exists err. split; [done|]. apply last_snoc.
Qed.

(** C20. The event loop never panics and never runs forever: whatever the
    transport and the callers bring, in every state its host can be in, the call
    it makes into the log returns; and then, with the counters still below
    2^63, the round returns in a state of the service, whether or not the store
    failed in it.  If it has failed, the round ends [Run]: it returns the
    store's error and holds no request any more. *)
Theorem runner_returns xs s r x lock : hosted xs s r -> brought s x -> roomy (log (r_core r)) ->
  exists c outs, moves x r = Some (c, outs) /\
    (roomy (log c) -> exists r' s', step deal_fuel x lock r = Some r' /\ hosted (xs ++ [x]) s' r' /\
       (selected x = true -> r_done r = false -> is_failed (log c) = true ->
          r_done r' = true /\ held_ids r' = [] /\
          exists err, n_failed (log c) = Some err /\ last (r_out r') = Some (Return (Some err)))).
Proof.
  intros H Hb Hr. pose proof (hosted_hosting xs s r H) as Hg. destruct (moves_returns s r x Hg Hb Hr) as [[c outs] Hm].
  exists c, outs. split; [done|]. intros Hr'. destruct (round_returns s r x lock c outs Hg Hb Hr Hm Hr') as (r' & s' & E & Hc).
  exists r', s'. split; [done|]. split; [by eapply ho_round|]. by eapply failed_round.
Qed.
End Hosted.
