(* ===== verification/RunnerDemo.v ===== *)
(** The event loop at work: replica 1 of a group of three runs its loop,
    replica 3 answers its messages, replica 2 stays down.  Replica 1 wins the
    election, a client submits a session and then reads. *)

From stdpp Require Import functions.
From S2P Require Import Prelude GoStd Paxos Ledger Game Records Codec Commands Compute State Changes.
From S2P Require Import TournamentInv PlayInv LedgerInv Machine Reach Guarantees Blind.
From S2P Require Import Voting Store Replog LogSpec LogInv NodeSteps Handlers Stable Reads Pending Drive Cluster Runs LogSafety ReadSafety.
From S2P Require Import Replica ReplicaSafety Linear Runner RunnerInv RunnerState RunnerSafety.

#[local] Existing Instance ascii_unicode.

(** ** Scripts *)

(** What host 1's loop takes, and a message delivered elsewhere. *)
Inductive Deed :=
| Round (x : Input)
| Hear (i : nat)
| Elsewhere (i : nat) (now : Z).

Abbreviation Loop := (Runner MemStore).

Definition round_of (x : Input) (l : Cluster MemStore) (r : Loop) : option (Cluster MemStore * Loop) :=
  _ ← having (roomy (log (r_core r)));
  '(c, outs) ← moves x r;
  _ ← having (roomy (log c));
  r' ← step 1 x true r;
  Some (put l 1 (Up (log (r_core r'))) outs, r').

Definition deed (d : Deed) (l : Cluster MemStore) (r : Loop) : option (Cluster MemStore * Loop) :=
  match d with
  | Round x => round_of x l r
  | Hear i =>
      env ← net l !! i;
      _ ← having (small_msg (env_msg env));
      round_of (Delivers env) l r
  | Elsewhere i now =>
      env ← net l !! i;
      _ ← having (env_to env <> 1);
      l' ← act trio trio_cfg session_only session_only_dec (Runs.Deliver i now) l; Some (l', r)
  end.

Fixpoint deeds (ds : list Deed) (l : Cluster MemStore) (r : Loop) : option (Cluster MemStore * Loop) :=
  match ds with [] => Some (l, r) | d :: ds => '(l, r) ← deed d l r; deeds ds l r end.

(** ** Scripts run in the service *)

Section Script.
Context (asked : nat -> Command) (took : nat -> Service MemStore).
Implicit Types (s : Service MemStore) (l : Cluster MemStore) (r : Loop).

Abbreviation hosted := (hosted trio trio_cfg 1 session_wanted 1 asked took).
Abbreviation brought := (brought session_wanted asked took).

(** The log of the service is the cluster of the script. *)
Definition agrees s l : Prop := net (sv_logs s) = net l /\ forall b, hosts (sv_logs s) b = hosts l b.

Lemma agrees_put s l s' h outs : agrees s l -> net (sv_logs s') = net (sv_logs s) ++ outs -> hosts (sv_logs s') 1 = h ->
  (forall b, b <> 1 -> hosts (sv_logs s') b = hosts (sv_logs s) b) -> agrees s' (put l 1 h outs).
Proof.
  intros [En Eh] H1 H2 H3. split; [by rewrite H1, En|]. intros b. simpl. destruct (decide (b = 1)) as [->|Hb].
  - by rewrite fn_lookup_insert.
  - rewrite fn_lookup_insert_ne by done. by rewrite H3, Eh.
Qed.

Lemma moved_other s c outs b : b <> 1 -> hosts (sv_logs (moved s 1 c outs)) b = hosts (sv_logs s) b.
Proof. intros Hb. simpl. by rewrite fn_lookup_insert_ne. Qed.

Lemma moved_agrees s l c outs : agrees s l -> agrees (moved s 1 c outs) (put l 1 (Up (log c)) outs).
Proof.
  intros H. apply (agrees_put s); [done|done|simpl; apply fn_lookup_insert|]. intros b. apply moved_other.
Qed.

Lemma round_hosted xs s l r x l' r' : hosted xs s r -> agrees s l -> brought s x -> round_of x l r = Some (l', r') ->
  exists s', hosted (xs ++ [x]) s' r' /\ agrees s' l'.
Proof.
  intros H Hag Hb. unfold round_of. intros (u & Hr%having_true & E)%bind_Some. apply bind_Some in E as ([c outs] & Hm & E).
  apply bind_Some in E as (u1 & Hr'%having_true & E).
  apply bind_Some in E as (r1 & Es & [= <- <-]). clear u u1.
  pose proof (hosted_hosting trio trio_cfg 1 session_wanted trio_config session_wanted_ok 1 (in_trio 1 eq_refl) asked took xs s r H) as Hg.
  destruct (round_returns trio trio_cfg 1 session_wanted trio_config session_wanted_ok 1 (in_trio 1 eq_refl) asked took s r x true c outs
    Hg Hb Hr Hm Hr') as (r2 & s' & Es2 & Hc).
  rewrite Es in Es2. injection Es2 as <-. exists s'. split; [by eapply ho_round|].
  destruct (caught_frame 1 1 _ _ _ _ Hc) as [Hn Ho]. apply (agrees_put s).
  - exact Hag.
  - rewrite Hn. done.
  - apply Hc.
  - intros b Hne. destruct (Ho b Hne) as [-> _]. simpl. by rewrite fn_lookup_insert_ne.
Qed.

Lemma deliver_hosted xs s l r i now l' r' : hosted xs s r -> agrees s l -> deed (Elsewhere i now) l r = Some (l', r') ->
  exists s', hosted xs s' r' /\ agrees s' l'.
Proof.
  intros H [En Eh]. cbn [deed act]. intros (env & He & E)%bind_Some. apply bind_Some in E as (u & Hto%having_true & E).
  apply bind_Some in E as (l1 & E & [= <- <-]). rewrite He in E. cbn [mbind option_bind] in E.
  apply bind_Some in E as (n & [Hin Hn]%up_host & E). apply bind_Some in E as (u1 & Hr%having_true & E).
  apply bind_Some in E as (u2 & Hs%having_true & E). apply bind_Some in E as ([n' out] & E & [= <-]). clear u u1 u2.
  set (b := env_to env) in *. set (c := mkCore n' (sv_machines s b)). exists (moved s b c out).
  pose proof (hosted_hosting trio trio_cfg 1 session_wanted trio_config session_wanted_ok 1 (in_trio 1 eq_refl) asked took xs s r H) as Hg.
  assert (Hh : holds 1 (moved s b c out) (r_core r)).
  { destruct (hg_holds _ _ _ _ _ _ _ _ _ Hg) as [H1 H2]. split; simpl; rewrite fn_lookup_insert_ne by done; done. }
  split.
  - eapply ho_other; [exact H| |exact Hh]. split.
    + eapply (sv_deliver trio trio_cfg 1 session_wanted s b now env n); try done; [by rewrite Eh| |].
      * rewrite En. by eapply list_elem_of_lookup_2.
      * unfold core_Step. simpl. by rewrite E.
    + exists (log (r_core r)). apply Hh.
  - split; simpl; [by rewrite En|]. intros z. destruct (decide (z = b)) as [->|Hz]; [by rewrite !fn_lookup_insert|].
    by rewrite !fn_lookup_insert_ne by done.
Qed.

(** Deeds that bring no Read; the Submits are those of the session command. *)
Definition plain (d : Deed) : Prop :=
  match d with
  | Round (Submits _ id cmd) => cmd = session_cmd /\ asked id = cmd
  | Round (Runner.Reads _ _) | Round (Delivers _) => False
  | _ => True
  end.

(** The requests of a script. *)
Definition deed_requests (ds : list Deed) : list nat := requests (omap (fun d => match d with Round x => Some x | _ => None end) ds).

Lemma deeds_hosted ds xs s l r l' r' : hosted xs s r -> agrees s l -> Forall plain ds -> deeds ds l r = Some (l', r') ->
  exists ys s', hosted (xs ++ ys) s' r' /\ agrees s' l' /\ requests ys = deed_requests ds /\
    Forall (fun y => match y with Runner.Reads _ _ => False | _ => True end) ys.
Proof.
  intros H Hag Hp. revert xs s l r H Hag. induction Hp as [|d ds Hd _ IH]; intros xs s l r H Hag; cbn [deeds].
  { intros [= <- <-]. exists [], s. by rewrite app_nil_r. }
  intros ([l1 r1] & E1 & E)%bind_Some.
  assert (Hnext : forall ys0 s1, hosted (xs ++ ys0) s1 r1 -> agrees s1 l1 -> requests ys0 = deed_requests [d] ->
    Forall (fun y => match y with Runner.Reads _ _ => False | _ => True end) ys0 ->
    exists ys s', hosted (xs ++ ys) s' r' /\ agrees s' l' /\ requests ys = deed_requests (d :: ds) /\
      Forall (fun y => match y with Runner.Reads _ _ => False | _ => True end) ys).
  { intros ys0 s1 H1 Hag1 Eq F1. destruct (IH _ s1 l1 r1 H1 Hag1 E) as (ys & s' & H' & Hag' & Eq' & F').
    exists (ys0 ++ ys), s'. rewrite app_assoc. split_and!; [done|done| |by apply Forall_app].
    rewrite requests_app, Eq, Eq'. unfold deed_requests. rewrite <- requests_app, <- omap_app. done. }
  destruct d as [x|i|i now].
  - assert (Hb : brought s x) by (destruct x; try done; by destruct Hd as [-> Ea]).
    destruct (round_hosted xs s l r x l1 r1 H Hag Hb E1) as (s1 & H1 & Hag1).
    apply (Hnext [x] s1 H1 Hag1); [done|]. constructor; [|constructor]. by destruct x.
  - cbn [deed] in E1. apply bind_Some in E1 as (env & He & E1). apply bind_Some in E1 as (u & Hs%having_true & E1). clear u.
    assert (Hb : brought s (Delivers env)) by (split; [destruct Hag as [-> _]; by eapply list_elem_of_lookup_2|done]).
    destruct (round_hosted xs s l r (Delivers env) l1 r1 H Hag Hb E1) as (s1 & H1 & Hag1).
    apply (Hnext [Delivers env] s1 H1 Hag1); [done|]. by constructor.
  - destruct (deliver_hosted xs s l r i now l1 r1 H Hag E1) as (s1 & H1 & Hag1).
    apply (Hnext [] s1); [by rewrite app_nil_r|done|done|constructor].
Qed.
End Script.

(** Without a Read, it does not matter what the Reads are said to have
    begun in. *)
Lemma hosted_took asked took took' xs s r :
  hosted trio trio_cfg 1 session_wanted 1 asked took xs s r ->
  Forall (fun y => match y with Runner.Reads _ _ => False | _ => True end) xs ->
  hosted trio trio_cfg 1 session_wanted 1 asked took' xs s r.
Proof.
  intros H. induction H; intros Hxs; [by eapply ho_start|eapply ho_other; eauto|].
  apply Forall_app in Hxs as [Hxs Hx%Forall_cons]. eapply ho_round; eauto. destruct Hx as [Hx _]. by destruct x.
Qed.

(** ** The sample *)

Definition demo_boot : Cluster MemStore :=
  default all_down (Runs.run trio trio_cfg session_only session_only_dec [Restart 3 calm_rng; Runs.Ticks 3 0] all_down).
Definition demo_core : Core MemStore :=
  match NewCore (trio_cfg 1) NewMemStore calm_rng with inl c => c | inr _ => mkCore (node_at all_down 1) NewState end.
Definition demo_tick : Core MemStore * list Envelope := default (demo_core, []) (core_Tick 0 demo_core).
Definition demo_loop : Loop := default (NewRunner demo_core true) (run_start 1 0 true (NewRunner demo_core true)).
Definition demo_log : Cluster MemStore := put (put demo_boot 1 (Up (log demo_core)) []) 1 (Up (log (r_core demo_loop))) (demo_tick.2).

Definition demo_asked (id : nat) : Command := session_cmd.
Definition anywhere (id : nat) : Service MemStore := mkService all_down (fun _ => NewState).

(** Replica 1 wins the election, and takes Submit 7. *)
Definition demo_submit : list Deed :=
  [Round (TickerC (200 * Millisecond)); Elsewhere 1 (201 * Millisecond); Hear 2; Round (Inbox (201 * Millisecond));
   Elsewhere 4 (201 * Millisecond); Hear 5; Round (Inbox (201 * Millisecond)); Round (Submits (210 * Millisecond) 7 session_cmd)].
(** The command is accepted and applied. *)
Definition demo_answer : list Deed := [Elsewhere 9 (211 * Millisecond); Hear 10; Round (Inbox (211 * Millisecond))].
(** Read 8, its barrier, and the answer. *)
Definition demo_read : Input := Runner.Reads (220 * Millisecond) 8.
Definition demo_ack : list Deed := [Elsewhere 14 (220 * Millisecond); Hear 15; Round (Inbox (221 * Millisecond))].

Definition demo_submitted : Cluster MemStore * Loop := default (demo_log, demo_loop) (deeds demo_submit demo_log demo_loop).
Definition demo_answered : Cluster MemStore * Loop := default demo_submitted (deeds demo_answer demo_submitted.1 demo_submitted.2).
Definition demo_reading : Cluster MemStore * Loop := default demo_answered (round_of demo_read demo_answered.1 demo_answered.2).
Definition demo_seen : Cluster MemStore * Loop := default demo_reading (deeds demo_ack demo_reading.1 demo_reading.2).

Lemma demo_boot_reached : exists s, session_reached s /\ sv_logs s = demo_boot.
Proof.
  destruct (lift_steps (mkService all_down (fun _ => NewState)) demo_boot) as (s & Hs & E & F); [done| |].
  - eapply run_steps. apply default_ok. by vm_compute.
  - exists s. split; [|exact E]. exists (mkService all_down (fun _ => NewState)). split; [apply all_down_start|exact Hs].
Qed.

Lemma demo_core_ok : NewCore (trio_cfg 1) NewMemStore calm_rng = inl demo_core.
Proof.
  unfold demo_core. assert (E : match NewCore (trio_cfg 1) NewMemStore calm_rng with inl _ => true | inr _ => false end = true) by by vm_compute.
  by destruct (NewCore (trio_cfg 1) NewMemStore calm_rng).
Qed.

Lemma demo_tick_ok : core_Tick 0 demo_core = Some (demo_tick.1, demo_tick.2).
Proof.
  rewrite <- surjective_pairing. apply default_ok. by vm_compute.
Qed.

Lemma demo_hosted took : exists s, hosted trio trio_cfg 1 session_wanted 1 demo_asked took [] s demo_loop /\ agrees s demo_log.
Proof.
  destruct demo_boot_reached as (s & H & E).
  assert (Hd : hosts (sv_logs s) 1 = Down NewMemStore) by (rewrite E; by vm_compute).
  assert (Hr : roomy (log demo_core)) by (apply (bool_decide_unpack _); by vm_compute).
  assert (Hr1 : roomy (log demo_tick.1)) by (apply (bool_decide_unpack _); by vm_compute).
  assert (Er : run_start 1 0 true (NewRunner demo_core true) = Some demo_loop) by (apply default_ok; by vm_compute).
  set (s1 := moved (moved s 1 demo_core []) 1 demo_tick.1 demo_tick.2).
  assert (Hh : holds 1 s1 demo_tick.1) by apply holds_moved.
  assert (Hadv : advanced 1 demo_tick.1 (r_core demo_loop)).
  { left. by vm_compute. }
  destruct (caught_exists 1 1 s1 demo_tick.1 (r_core demo_loop) Hh Hr1 Hadv) as (s' & Hc). exists s'. split.
  - exact (ho_start trio trio_cfg 1 session_wanted 1 demo_asked took s NewMemStore calm_rng demo_core true 0 demo_tick.1 demo_tick.2 true
      demo_loop s' H Hd demo_core_ok Hr demo_tick_ok Hr1 Er Hc).
  - destruct (caught_frame 1 1 _ _ _ _ Hc) as [Hn Ho]. destruct Hc as [_ [Hup _]].
    assert (A0 : agrees s demo_boot) by (split; [by rewrite E|by intros b; rewrite E]).
    assert (A1 : agrees (moved s 1 demo_core []) (put demo_boot 1 (Up (log demo_core)) [])) by (apply (moved_agrees s); exact A0).
    refine (agrees_put _ _ s' (Up (log (r_core demo_loop))) demo_tick.2 A1 _ Hup _).
    + exact Hn.
    + intros b Hb. destruct (Ho b Hb) as [Eb _]. rewrite Eb. exact (moved_other _ demo_tick.1 demo_tick.2 b Hb).
Qed.

Abbreviation no_reads := (Forall (fun y => match y with Runner.Reads _ _ => False | _ => True end)).

Lemma demo_submitted_ok : deeds demo_submit demo_log demo_loop = Some (demo_submitted.1, demo_submitted.2).
Proof. rewrite <- surjective_pairing. apply default_ok. by vm_compute. Qed.

Lemma demo_answered_ok : deeds demo_answer demo_submitted.1 demo_submitted.2 = Some (demo_answered.1, demo_answered.2).
Proof. rewrite <- surjective_pairing. apply default_ok. by vm_compute. Qed.

Lemma demo_reading_ok : round_of demo_read demo_answered.1 demo_answered.2 = Some (demo_reading.1, demo_reading.2).
Proof. rewrite <- surjective_pairing. apply default_ok. by vm_compute. Qed.

Lemma demo_seen_ok : deeds demo_ack demo_reading.1 demo_reading.2 = Some (demo_seen.1, demo_seen.2).
Proof. rewrite <- surjective_pairing. apply default_ok. by vm_compute. Qed.

Lemma demo_at_submitted took : exists xs s, hosted trio trio_cfg 1 session_wanted 1 demo_asked took xs s demo_submitted.2 /\
  agrees s demo_submitted.1 /\ requests xs = [7%nat] /\ no_reads xs.
Proof.
  destruct (demo_hosted took) as (s & H & Hag).
  destruct (deeds_hosted demo_asked took demo_submit [] s demo_log demo_loop demo_submitted.1 demo_submitted.2 H Hag) as (xs & s' & H' & Hag' & Eq & Fq);
    [by repeat constructor|exact demo_submitted_ok|].
  exists xs, s'. split_and!; [exact H'|exact Hag'|by rewrite Eq|exact Fq].
Qed.

Lemma demo_at_answered took : exists xs s, hosted trio trio_cfg 1 session_wanted 1 demo_asked took xs s demo_answered.2 /\
  agrees s demo_answered.1 /\ requests xs = [7%nat] /\ no_reads xs.
Proof.
  destruct (demo_at_submitted took) as (xs & s & H & Hag & Eq & Fq).
  destruct (deeds_hosted demo_asked took demo_answer xs s demo_submitted.1 demo_submitted.2 demo_answered.1 demo_answered.2 H Hag) as (ys & s' & H' & Hag' & Eq' & Fq');
    [by repeat constructor|exact demo_answered_ok|].
  exists (xs ++ ys), s'. split_and!; [exact H'|exact Hag'|by rewrite requests_app, Eq, Eq'|by apply Forall_app].
Qed.

(** Read 8 is taken in the state the service is in then. *)
Lemma demo_at_seen : exists took xs s, hosted trio trio_cfg 1 session_wanted 1 demo_asked took xs s demo_seen.2 /\
  agrees s demo_seen.1 /\ requests xs = [7%nat; 8%nat] /\ holds 1 (took 8%nat) (r_core demo_answered.2).
Proof.
  destruct (demo_at_answered anywhere) as (xs & s & H & Hag & Eq & Fq). exists (fun _ => s).
  pose proof (hosted_took demo_asked anywhere (fun _ => s) xs s _ H Fq) as H1.
  destruct (round_hosted demo_asked (fun _ => s) xs s demo_answered.1 demo_answered.2 demo_read demo_reading.1 demo_reading.2 H1 Hag eq_refl demo_reading_ok) as (s1 & H2 & Hag1).
  destruct (deeds_hosted demo_asked (fun _ => s) demo_ack _ s1 demo_reading.1 demo_reading.2 demo_seen.1 demo_seen.2 H2 Hag1) as (ys & s2 & H3 & Hag2 & Eq' & _);
    [by repeat constructor|exact demo_seen_ok|].
  exists ((xs ++ [demo_read]) ++ ys), s2. split_and!; [exact H3|exact Hag2| |].
  - by rewrite !requests_app, Eq, Eq'.
  - exact (hg_holds _ _ _ _ _ _ _ _ _ (hosted_hosting trio trio_cfg 1 session_wanted trio_config session_wanted_ok 1 (in_trio 1 eq_refl) _ _ _ _ _ H)).
Qed.

Lemma demo_holds asked took xs s r : hosted trio trio_cfg 1 session_wanted 1 asked took xs s r -> holds 1 s (r_core r).
Proof.
  intros H. exact (hg_holds _ _ _ _ _ _ _ _ _ (hosted_hosting trio trio_cfg 1 session_wanted trio_config session_wanted_ok 1 (in_trio 1 eq_refl) _ _ _ _ _ H)).
Qed.

(** ** The theorems at the sample *)

(** Submit 7 is queued under its key, which is not recorded yet. *)
Lemma runner_invariant_witness :
  r_nwaiters demo_submitted.2 = 1 /\ is_Some (r_waiters demo_submitted.2 !! "k2") /\
  results (state (r_core demo_submitted.2)) !! "k2" = None /\ r_held demo_submitted.2 = total demo_submitted.2.
Proof.
  split; [by vm_compute|]. assert (Hw : is_Some (r_waiters demo_submitted.2 !! "k2")) by (apply (bool_decide_unpack _); by vm_compute).
  split; [exact Hw|]. destruct (demo_at_submitted anywhere) as (xs & s & H & _).
  destruct (runner_invariant trio trio_cfg 1 session_wanted trio_config session_wanted_ok 1 (in_trio 1 eq_refl) demo_asked anywhere xs s _ H)
    as (Hq & _ & Hh & _). destruct (demo_holds _ _ _ _ _ H) as [_ E]. rewrite E in Hq. split; [|exact Hh].
  destruct Hw as [ws Hw]. exact (proj1 (proj2 (Hq _ _ Hw))).
Defined.


Definition demo_result : Result :=
  match omap (fun o => match o with Answer 7 (SubmitReply (inl res)) => Some res | _ => None end) (r_out demo_answered.2) with
  | res :: _ => res
  | [] => result_at InvalidOp "" 0
  end.

(** Submit 7 is told the result that is recorded under its key. *)
Lemma runner_answers_recorded_witness :
  res_code demo_result = OK /\ exists rec, results (state (r_core demo_answered.2)) !! cmd_key session_cmd = Some rec /\
    (if bool_decide (rec_fingerprint rec = Fingerprint session_cmd)
     then demo_result = rec_result rec \/ demo_result = with_replayed (rec_result rec)
     else demo_result = result_at KeyReused key_reused 0).
Proof.
  split; [by vm_compute|]. destruct (demo_at_answered anywhere) as (xs & s & H & _). destruct (demo_holds _ _ _ _ _ H) as [_ <-].
  refine (runner_answers_recorded trio trio_cfg 1 session_wanted trio_config session_wanted_ok 1 (in_trio 1 eq_refl) demo_asked anywhere xs s
    demo_answered.2 7 demo_result H _).
  apply (list_elem_of_lookup_2 _ (length (r_out demo_answered.2) - 1)). vm_compute. reflexivity.
Defined.

(** Read 8 sees the result that was recorded when it was taken. *)
Lemma runner_reads_linearizable_witness :
  is_Some (results (state (r_core demo_answered.2)) !! "k2") /\
  results (state (r_core demo_answered.2)) ⊆ results (state (r_core demo_seen.2)).
Proof.
  split; [by apply (bool_decide_unpack _); vm_compute|].
  destruct demo_at_seen as (took & xs & s & H & _ & _ & [Hup Hst]). destruct (demo_holds _ _ _ _ _ H) as [_ <-]. rewrite <- Hst.
  refine (proj2 (proj2 (runner_reads_linearizable trio trio_cfg 1 session_wanted trio_config session_wanted_ok 1 (in_trio 1 eq_refl)
    demo_asked took xs s demo_seen.2 8 1 _ H _ (in_trio 1 eq_refl) Hup))).
  apply (list_elem_of_lookup_2 _ (length (r_out demo_seen.2) - 1)). vm_compute. reflexivity.
Defined.

(** The round after the start returns. *)
Lemma runner_returns_witness : exists r', step 1 (TickerC (200 * Millisecond)) true demo_loop = Some r'.
Proof.
  destruct (demo_hosted anywhere) as (s & H & _).
  destruct (runner_returns trio trio_cfg 1 session_wanted trio_config session_wanted_ok 1 (in_trio 1 eq_refl) demo_asked anywhere [] s
    demo_loop (TickerC (200 * Millisecond)) true H I) as (c & outs & Hm & Hret).
  - apply (bool_decide_unpack _). by vm_compute.
  - set (o := moves (TickerC (200 * Millisecond)) demo_loop) in *.
    assert (Hok : match o with Some (c, _) => bool_decide (roomy (log c)) | None => false end = true) by by vm_compute.
    rewrite Hm in Hok. apply bool_decide_eq_true in Hok.
    destruct (Hret Hok) as (r' & _ & E & _). by exists r'.
Defined.
