(* ===== verification/Gate.v ===== *)
(** The lock between the event loop and the readers of the state machine
    (internal/replica/runner.go): [stateMu], the mark [applyWait] of an apply
    that waits, and the channel [kick] that wakes the loop.

    The loop and the readers are threads of a step relation.  A thread moves
    from one operation on what they share to the next: taking or releasing
    [stateMu], reading or writing the mark under [waitMu], and sending to or
    receiving from a channel.  A channel that is closed to wake readers goes
    by a number.  The loop's own work, stepping the log and applying slots, is
    Runner.v; here it is whether committed slots are left to apply. *)

From S2P Require Import Prelude.

(** Where the loop is: in its [select]; in [applyCommitted], before the
    comparison, with the mark set and before TryLock, holding [stateMu] for
    writing, after Unlock; returned. *)
Inductive LoopAt := Selecting | Comparing | Trying | Applying | Unlocked | Stopped.

(** Where a reader is: in [readState], before RLock, holding [stateMu] before
    [pendingApply], after RUnlock with a channel to wait on, waiting on it,
    running its function, after the last RUnlock, before the last [nudge],
    returned, with or without having run its function. *)
Inductive ReaderAt := Entering | Inside | Leaving (ch : nat) | Waiting (ch : nat) | Reading | Released | Nudging | Returned (ran : bool).

#[export] Instance LoopAt_eq_dec : EqDecision LoopAt.
Proof. solve_decision. Defined.

Record Gate := mkGate {
  g_loop : LoopAt;
  g_readers : gmap nat ReaderAt;
  g_applyWait : option nat;
  g_made : nat;
  g_closed : gset nat;
  g_kick : bool;
  g_behind : bool;
  g_done : bool;
}.

#[export] Instance Gate_Fields : Fields Gate := fun g =>
  mkGate (g_loop g) (g_readers g) (g_applyWait g) (g_made g) (g_closed g) (g_kick g) (g_behind g) (g_done g).

Definition new_gate : Gate := mkGate Selecting ∅ None 0 ∅ false false false.

(** ** The lock *)

Definition holds_lock (p : ReaderAt) : bool := match p with Inside | Reading => true | _ => false end.
Definition read_locked (g : Gate) : bool := existsb holds_lock (map_to_list (g_readers g)).*2.
Definition write_locked (g : Gate) : bool := bool_decide (g_loop g = Applying).

(** [nudge]: the channel holds one value. *)
Definition nudge (g : Gate) : Gate := g <| g_kick := true |>.

Definition put_reader (g : Gate) (id : nat) (p : ReaderAt) : Gate := g <| g_readers := <[id := p]> (g_readers g) |>.

(** ** A reader: [readState] *)

Definition readState (g : Gate) (id : nat) : option Gate :=
  p ← g_readers g !! id;
  match p with
  | Entering => exit_if write_locked g with None; Some (put_reader g id Inside)
  | Inside => Some (put_reader g id (match g_applyWait g with None => Reading | Some ch => Leaving ch end))
  | Leaving ch => Some (nudge (put_reader g id (Waiting ch)))
  | Waiting ch => exit_if bool_decide (ch ∈ g_closed g) with Some (put_reader g id Entering); None
  | Reading => Some (put_reader g id Released)
  | Released => Some (put_reader g id (match g_applyWait g with None => Returned true | Some _ => Nudging end))
  | Nudging => Some (nudge (put_reader g id (Returned true)))
  | Returned _ => None
  end.

(** A reader that waits also returns when its context ends or [Run] has. *)
Definition gives_up (g : Gate) (id : nat) : option Gate :=
  p ← g_readers g !! id;
  match p with Waiting _ => Some (put_reader g id (Returned false)) | _ => None end.

(** ** The loop: the part of it that touches the lock *)

Definition applyCommitted (g : Gate) : option Gate :=
  match g_loop g with
  | Comparing =>
      exit_if negb (g_behind g) with Some (g <| g_loop := Selecting |>);
      Some (match g_applyWait g with
            | None => g <| g_applyWait := Some (g_made g) |> <| g_made := S (g_made g) |> <| g_loop := Trying |>
            | Some _ => g <| g_loop := Trying |>
            end)
  | Trying => Some (g <| g_loop := if read_locked g then Selecting else Applying |>)
  | Applying => Some (g <| g_behind := false |> <| g_loop := Unlocked |>)
  | Unlocked =>
      Some (match g_applyWait g with
            | Some ch => g <| g_closed := {[ch]} ∪ g_closed g |> <| g_applyWait := None |> <| g_loop := Selecting |>
            | None => g <| g_loop := Selecting |>
            end)
  | Selecting | Stopped => None
  end.

(** The [select] takes the value from [kick]. *)
Definition kicked (g : Gate) : option Gate :=
  exit_if negb (bool_decide (g_loop g = Selecting) && g_kick g) with None;
  Some (g <| g_kick := false |> <| g_loop := Comparing |>).

(** ** Schedules *)

(** [Event committed]: the [select] takes another case, and the step of the log
    may leave slots to apply.  [ReaderDone] is a caller that gives up. *)
Inductive Move := ReaderGo (id : nat) | LoopGo | Kicked | Event (committed : bool) | Arrives (id : nat) | ReaderDone (id : nat) | Halt.

Definition move (m : Move) (g : Gate) : option Gate :=
  match m with
  | ReaderGo id => readState g id
  | LoopGo => applyCommitted g
  | Kicked => kicked g
  | Event committed =>
      exit_if negb (bool_decide (g_loop g = Selecting)) with None;
      Some (g <| g_behind := g_behind g || committed |> <| g_loop := Comparing |>)
  | Arrives id => match g_readers g !! id with None => Some (put_reader g id Entering) | Some _ => None end
  | ReaderDone id => gives_up g id
  | Halt => exit_if negb (bool_decide (g_loop g = Selecting)) with None; Some (g <| g_loop := Stopped |> <| g_done := true |>)
  end.

Fixpoint moves (ms : list Move) (g : Gate) : option Gate :=
  match ms with [] => Some g | m :: ms => g ← move m g; moves ms g end.

(** ** Readers at the lock *)

Lemma read_locked_spec g : read_locked g = true <-> exists id p, g_readers g !! id = Some p /\ holds_lock p = true.
Proof.
  unfold read_locked. rewrite existsb_exists. split.
  - intros (p & Hp & Hh). apply list_elem_of_In, list_elem_of_fmap in Hp as ([id q] & -> & Hp). apply elem_of_map_to_list in Hp. eauto.
  - intros (id & p & Hp & Hh). exists p. split; [|done]. apply list_elem_of_In, list_elem_of_fmap. exists (id, p).
    split; [done|]. by apply elem_of_map_to_list.
Qed.

Lemma unlocked_spec g : read_locked g = false <-> forall id p, g_readers g !! id = Some p -> holds_lock p = false.
Proof.
  rewrite <- not_true_iff_false, read_locked_spec. split.
  - intros H id p Hp. destruct (holds_lock p) eqn:E; [|done]. destruct H. eauto.
  - intros H (id & p & Hp & E). by rewrite (H id p Hp) in E.
Qed.

(** A reader that will look at the mark, or nudge. *)
Definition stirring (p : ReaderAt) : Prop :=
  match p with Inside | Leaving _ | Reading | Released | Nudging => True | _ => False end.

(** ** The invariant *)

Record gate_ok (g : Gate) : Prop := {
  go_excluded : g_loop g = Applying -> forall id p, g_readers g !! id = Some p -> holds_lock p = false;
  go_woken : g_loop g = Selecting -> g_applyWait g <> None ->
    g_kick g = true \/ exists id p, g_readers g !! id = Some p /\ stirring p;
  go_waits : forall id ch, g_readers g !! id = Some (Leaving ch) \/ g_readers g !! id = Some (Waiting ch) ->
    ch ∈ g_closed g \/ g_applyWait g = Some ch;
  go_mark : g_loop g = Trying \/ g_loop g = Applying \/ g_loop g = Unlocked -> g_applyWait g <> None;
  go_behind : g_applyWait g <> None -> g_behind g = true \/ g_loop g = Unlocked;
  go_numbers : (forall ch, ch ∈ g_closed g -> (ch < g_made g)%nat) /\
    (forall ch, g_applyWait g = Some ch -> (ch < g_made g)%nat /\ ch ∉ g_closed g);
  go_stopped : g_loop g = Stopped -> g_done g = true;
  go_applied : g_loop g = Unlocked -> g_behind g = false;
}.

(** Moving one reader. *)
Lemma gate_ok_reader g id p q : gate_ok g -> g_readers g !! id = p ->
  (holds_lock q = true -> g_loop g <> Applying) ->
  (g_loop g = Selecting -> g_applyWait g <> None -> (exists p', p = Some p' /\ stirring p') -> stirring q) ->
  (forall ch, q = Leaving ch \/ q = Waiting ch -> ch ∈ g_closed g \/ g_applyWait g = Some ch) ->
  gate_ok (put_reader g id q).
Proof.
  intros [H1 H2 H3 H4 H5 H6 H7 H8] Hp Hl Hs Hc. split; try done; simpl.
  - intros El i x. rewrite lookup_insert. case_decide; [intros [= <-]|by apply H1].
    destruct (holds_lock q) eqn:E; [|done]. by destruct (Hl eq_refl).
  - intros El Hm. destruct (H2 El Hm) as [?|(i & x & Hx & Sx)]; [by left|right]. destruct (decide (i = id)) as [->|Hne].
    + exists id, q. rewrite lookup_insert_eq. split; [done|]. apply (Hs El Hm). exists x. by rewrite <- Hp.
    + exists i, x. by rewrite lookup_insert_ne.
  - intros i ch. rewrite lookup_insert. case_decide; [|apply H3]. intros Hq. apply Hc. destruct Hq as [[= ->]|[= ->]]; auto.
Qed.

Lemma gate_ok_nudge g : gate_ok g -> gate_ok (nudge g).
Proof. intros [H1 H2 H3 H4 H5 H6 H7 H8]. split; try done. intros _ _. by left. Qed.

(** Moving a reader that nudges. *)
Lemma gate_ok_nudged g id q : gate_ok g -> holds_lock q = false ->
  (forall ch, q = Leaving ch \/ q = Waiting ch -> ch ∈ g_closed g \/ g_applyWait g = Some ch) ->
  gate_ok (nudge (put_reader g id q)).
Proof.
  intros [H1 H2 H3 H4 H5 H6 H7 H8] Hl Hc. split; try done; simpl.
  - intros El i x. rewrite lookup_insert. case_decide; [by intros [= <-]|by apply H1].
  - intros _ _. by left.
  - intros i ch. rewrite lookup_insert. case_decide; [|apply H3]. intros Hq. apply Hc. destruct Hq as [[= ->]|[= ->]]; auto.
Qed.

Lemma readState_ok g id g' : gate_ok g -> readState g id = Some g' -> gate_ok g'.
Proof.
  intros Hg. unfold readState. intros (p & Hp & E)%bind_Some. destruct p as [| |ch|ch| | | |ran].
  - unfold write_locked in E. case_bool_decide as Hw; [done|]. injection E as <-. apply (gate_ok_reader g id (Some Entering)); try done.
    by intros ch [?|?].
  - injection E as <-. apply (gate_ok_reader g id (Some Inside)); [done|done| | |].
    + intros Hh El. pose proof (go_excluded g Hg El id Inside Hp). done.
    + intros _ Hm _. by destruct (g_applyWait g).
    + intros ch. destruct (g_applyWait g) as [c|]; [|by intros [?|?]]. intros [[= ->]|?]; [by right|done].
  - injection E as <-. apply gate_ok_nudged; [done|done|]. intros c [?|[= <-]]; [done|]. apply (go_waits g Hg id ch). by left.
  - case_bool_decide; [|done]. injection E as <-. apply (gate_ok_reader g id (Some (Waiting ch))); try done.
    + by intros _ _ (p' & [= <-] & ?).
    + by intros c [?|?].
  - injection E as <-. apply (gate_ok_reader g id (Some Reading)); try done. by intros c [?|?].
  - injection E as <-. apply (gate_ok_reader g id (Some Released)); [done|done| | |].
    + by destruct (g_applyWait g).
    + intros _ Hm _. by destruct (g_applyWait g).
    + intros c. destruct (g_applyWait g); by intros [?|?].
  - injection E as <-. apply gate_ok_nudged; [done|done|]. by intros c [?|?].
  - done.
Qed.

Lemma applyCommitted_ok g g' : gate_ok g -> applyCommitted g = Some g' -> gate_ok g'.
Proof.
  intros Hg. pose proof Hg as [H1 H2 H3 H4 H5 [H6 H6'] H7 H8]. unfold applyCommitted. destruct (g_loop g) eqn:El; try done.
  - destruct (g_behind g) eqn:Eb; simpl.
    + intros [= <-]. destruct (g_applyWait g) as [c|] eqn:Em.
      * split; simpl; rewrite ?Em; try done. by left.
      * split; simpl; try done.
        -- intros i ch Hw. destruct (H3 i ch Hw) as [?|?]; [by left|congruence].
        -- by left.
        -- split; [intros ch Hc; specialize (H6 ch Hc); lia|]. intros ch [= <-]. split; [lia|]. intros Hc. specialize (H6 _ Hc). lia.
    + intros [= <-]. assert (Hn : g_applyWait g = None) by (destruct (g_applyWait g); [by destruct H5|done]).
      split; simpl; rewrite ?Hn; try done; [|by intros [?|[?|?]]]. intros i ch Hw. left. destruct (H3 i ch Hw) as [?|?]; [done|congruence].
  - intros [= <-]. destruct (read_locked g) eqn:Er.
    + split; simpl; try done.
      * intros _ _. right. apply read_locked_spec in Er as (i & p & Hp & Hh). exists i, p. split; [done|]. by destruct p.
      * by intros [?|[?|?]].
      * intros Hm. destruct (H5 Hm) as [?|?]; [by left|congruence].
    + split; simpl; try done.
      * intros _. by apply unlocked_spec.
      * intros _. apply H4. by left.
      * intros Hm. destruct (H5 Hm) as [?|?]; [by left|congruence].
  - intros [= <-]. split; simpl; try done; [|by right]. intros _. apply H4. by right; left.
  - intros [= <-]. destruct (g_applyWait g) as [c|] eqn:Em.
    + split; simpl; try done.
      * intros i ch Hw. left. destruct (H3 i ch Hw) as [?|?]; [set_solver|simplify_eq; set_solver].
      * by intros [?|[?|?]].
      * split; [|done]. intros ch Hc. destruct (H6' c eq_refl) as [Hlt _]. apply elem_of_union in Hc as [->%elem_of_singleton|Hc]; [done|by apply H6].
    + exfalso. apply H4; [by right; right|done].
Qed.

Lemma move_ok m g g' : gate_ok g -> move m g = Some g' -> gate_ok g'.
Proof.
  intros Hg. destruct m as [id| | |c|id|id|]; simpl.
  - by apply readState_ok.
  - by apply applyCommitted_ok.
  - unfold kicked. case_goal; [done|]. intros [= <-]. destruct Hg as [H1 H2 H3 H4 H5 H6 H7 H8].
    apply negb_false_iff, andb_true_iff in E as [El%bool_decide_eq_true _].
    split; simpl; try done; [by intros [?|[?|?]]|]. intros Hm. destruct (H5 Hm); [by left|congruence].
  - case_goal; [done|]. intros [= <-]. destruct Hg as [H1 H2 H3 H4 H5 H6 H7 H8]. apply negb_false_iff, bool_decide_eq_true in E.
    split; simpl; try done; [by intros [?|[?|?]]|]. intros Hm. left. destruct (H5 Hm) as [->|?]; [done|congruence].
  - destruct (g_readers g !! id) eqn:Ep; [done|]. intros [= <-]. apply (gate_ok_reader g id None); try done.
    + by intros _ _ (p' & ? & ?).
    + by intros ch [?|?].
  - unfold gives_up. intros (p & Hp & E)%bind_Some. destruct p as [| | |ch| | | |]; try done. injection E as <-.
    apply (gate_ok_reader g id (Some (Waiting ch))); try done.
    + by intros _ _ (p' & [= <-] & ?).
    + by intros c [?|?].
  - case_goal; [done|]. intros [= <-]. destruct Hg as [H1 H2 H3 H4 H5 H6 H7 H8]. apply negb_false_iff, bool_decide_eq_true in E.
    split; simpl; try done; [by intros [?|[?|?]]|]. intros Hm. destruct (H5 Hm); [by left|congruence].
Qed.

Lemma moves_ok ms g g' : gate_ok g -> moves ms g = Some g' -> gate_ok g'.
Proof.
  revert g. induction ms as [|m ms IH]; intros g Hg; cbn [moves]; [by intros [= <-]|].
  intros (g1 & E1 & E)%bind_Some. apply (IH g1); [by eapply move_ok|done].
Qed.

Lemma new_gate_ok : gate_ok new_gate.
Proof.
  split; try done.
  - intros i ch [H|H]; simpl in H; by rewrite lookup_empty in H.
  - by intros [?|[?|?]].
Qed.

(** ** Progress *)

(** Moves of the threads that are there, without another event. *)
Definition internal (m : Move) : Prop := match m with ReaderGo _ | LoopGo | Kicked => True | _ => False end.

(** How many moves a thread has left while the mark is set. *)
Definition reader_left (closed : gset nat) (p : ReaderAt) : Z :=
  match p with
  | Entering => 11
  | Inside => 10
  | Leaving ch => if bool_decide (ch ∈ closed) then 18 else 7
  | Waiting ch => if bool_decide (ch ∈ closed) then 12 else 0
  | Reading => 9
  | Released => 8
  | Nudging => 7
  | Returned _ => 0
  end.
Definition loop_left (p : LoopAt) : Z := match p with Comparing => 4 | Trying => 3 | Applying => 2 | Unlocked => 1 | Selecting | Stopped => 0 end.
Definition readers_left (closed : gset nat) (m : gmap nat ReaderAt) : Z := zsum (map (reader_left closed) (map_to_list m).*2).
Definition moves_left (g : Gate) : Z := readers_left (g_closed g) (g_readers g) + loop_left (g_loop g) + (if g_kick g then 5 else 0).

Lemma readers_left_insert closed m id q : m !! id = None -> readers_left closed (<[id := q]> m) = reader_left closed q + readers_left closed m.
Proof.
  intros H. unfold readers_left. pose proof (map_to_list_insert m id q H) as P. apply (fmap_Permutation snd), (Permutation_map (reader_left closed)) in P.
  rewrite (zsum_perm _ _ P). done.
Qed.

Lemma readers_left_move closed m id p q : m !! id = Some p ->
  readers_left closed (<[id := q]> m) = readers_left closed m - reader_left closed p + reader_left closed q.
Proof.
  intros H. rewrite <- (insert_delete_id m id p H) at 2. rewrite <- insert_delete_eq.
  rewrite !readers_left_insert by apply lookup_delete_eq. lia.
Qed.

Lemma reader_left_nonneg closed p : 0 <= reader_left closed p.
Proof. destruct p; simpl; try case_bool_decide; lia. Qed.

Lemma moves_left_nonneg g : 0 <= moves_left g.
Proof.
  unfold moves_left, readers_left. assert (0 <= zsum (map (reader_left (g_closed g)) (map_to_list (g_readers g)).*2)).
  { apply zsum_nonneg, Forall_forall. intros z Hz. apply list_elem_of_In, in_map_iff in Hz as (p & <- & _). apply reader_left_nonneg. }
  destruct (g_loop g), (g_kick g); simpl; lia.
Qed.

(** The apply that waited behind [ch] has been made. *)
Definition released (ch : nat) (g : Gate) : Prop := g_applyWait g = None /\ ch ∈ g_closed g /\ g_behind g = false.

Definition quieter (ch : nat) (g g' : Gate) : Prop := g_applyWait g' = Some ch /\ moves_left g' < moves_left g.

Lemma reader_quieter ch g id g' : gate_ok g -> g_applyWait g = Some ch -> readState g id = Some g' -> quieter ch g g'.
Proof.
  intros Hg Hm. pose proof (proj2 (go_numbers g Hg) ch Hm) as [_ Hnc]. unfold readState. intros (p & Hp & E)%bind_Some.
  assert (Hq : forall q b, (g_kick g = true -> b = true) ->
    reader_left (g_closed g) q + (if b then 5 else 0) < reader_left (g_closed g) p + (if g_kick g then 5 else 0) ->
    quieter ch g (put_reader g id q <| g_kick := b |>)).
  { intros q b Hk Hlt. split; [done|]. unfold moves_left. simpl. rewrite (readers_left_move _ _ _ _ _ Hp). destruct (g_kick g), b; lia. }
  assert (Hs : forall q, reader_left (g_closed g) q < reader_left (g_closed g) p -> quieter ch g (put_reader g id q)).
  { intros q Hlt. replace (put_reader g id q) with (put_reader g id q <| g_kick := g_kick g |>) by by destruct g. apply Hq; [done|lia]. }
  destruct p as [| |c|c| | | |ran]; rewrite ?Hm in E.
  - destruct (write_locked g); [done|]. injection E as <-. apply Hs. simpl. lia.
  - injection E as <-. apply Hs. simpl. rewrite bool_decide_eq_false_2 by done. lia.
  - injection E as <-. apply (Hq (Waiting c) true); [done|]. simpl. destruct (g_kick g); case_bool_decide; lia.
  - case_bool_decide as Hc; [|done]. injection E as <-. apply Hs. simpl. rewrite bool_decide_eq_true_2 by done. lia.
  - injection E as <-. apply Hs. simpl. lia.
  - injection E as <-. apply Hs. simpl. lia.
  - injection E as <-. apply (Hq (Returned true) true); [done|]. simpl. destruct (g_kick g); lia.
  - done.
Qed.

Lemma loop_quieter ch g g' : gate_ok g -> g_applyWait g = Some ch -> applyCommitted g = Some g' -> released ch g' \/ quieter ch g g'.
Proof.
  intros Hg Hm. unfold applyCommitted. destruct (g_loop g) eqn:El; try done.
  - destruct (go_behind g Hg) as [Hb|?]; [congruence| |congruence]. rewrite Hb, Hm. simpl. intros [= <-]. right. split; [done|].
    unfold moves_left. simpl. rewrite El. simpl. lia.
  - intros [= <-]. right. split; [done|]. unfold moves_left. simpl. rewrite El. destruct (read_locked g); simpl; lia.
  - intros [= <-]. right. split; [done|]. unfold moves_left. simpl. rewrite El. simpl. lia.
  - rewrite Hm. intros [= <-]. left. split; [done|]. split; [set_solver|]. by apply (go_applied g Hg).
Qed.

Lemma internal_quieter ch m g g' : gate_ok g -> g_applyWait g = Some ch -> internal m -> move m g = Some g' ->
  released ch g' \/ quieter ch g g'.
Proof.
  intros Hg Hm Hi. destruct m as [id| | |c|id|id|]; try done; simpl.
  - intros E. right. by eapply reader_quieter.
  - by apply loop_quieter.
  - unfold kicked. case_goal; [done|]. intros [= <-]. apply negb_false_iff, andb_true_iff in E as [El%bool_decide_eq_true Ek].
    right. split; [done|]. unfold moves_left. simpl. rewrite El, Ek. simpl. lia.
Qed.

(** While an apply waits and [Run] has not returned, some thread can move. *)
Lemma internal_enabled ch g : gate_ok g -> g_applyWait g = Some ch -> g_loop g <> Stopped -> exists m, internal m /\ is_Some (move m g).
Proof.
  intros Hg Hm Hs. destruct (g_loop g) eqn:El; try done; try (exists LoopGo; split; [done|]; simpl; unfold applyCommitted; rewrite El; by repeat case_goal).
  destruct (go_woken g Hg El) as [Hk|(id & p & Hp & Sp)]; [congruence| |].
  - exists Kicked. split; [done|]. simpl. unfold kicked. by rewrite El, Hk.
  - exists (ReaderGo id). split; [done|]. simpl. unfold readState. rewrite Hp. by destruct p.
Qed.

Lemma internal_running m g g' : internal m -> move m g = Some g' -> g_loop g <> Stopped -> g_loop g' <> Stopped.
Proof.
  intros Hi E Hl. destruct m as [id| | |c|id|id|]; try done; simpl in E; unfold readState, applyCommitted, kicked in E.
  - apply bind_Some in E as (p & _ & E). by destruct p; repeat case_match; simplify_eq.
  - by destruct (g_loop g); repeat case_match; simplify_eq.
  - by repeat case_match; simplify_eq.
Qed.

(** C26. A deferred apply is never forgotten: in every state the loop and its
    readers can reach in which slots wait to be applied, because reads were in
    progress, whatever moves the threads make, without another message, tick
    or request, at most [moves_left] of them go by before the slots are
    applied and the channel of the readers that wait is closed, and until then
    some thread can move. *)
Theorem apply_not_forgotten ms g ch ns g' : moves ms new_gate = Some g -> g_applyWait g = Some ch -> g_loop g <> Stopped ->
  Forall internal ns -> moves ns g = Some g' ->
  (exists k g1, moves (firstn k ns) g = Some g1 /\ released ch g1) \/
  (g_applyWait g' = Some ch /\ len ns <= moves_left g /\ exists m, internal m /\ is_Some (move m g')).
Proof.
  intros Hr Hm Hs Hi. pose proof (moves_ok ms new_gate g new_gate_ok Hr) as Hg. clear Hr ms. revert g Hm Hg Hs.
  induction Hi as [|m ns Hi _ IH]; intros g Hm Hg Hs E; cbn [moves] in E.
  - injection E as <-. right. pose proof (moves_left_nonneg g). split_and!; [done|done|by eapply internal_enabled].
  - apply bind_Some in E as (g1 & E1 & E). destruct (internal_quieter ch m g g1 Hg Hm Hi E1) as [Hrel|[Hm1 Hlt1]].
    + left. exists 1%nat, g1. split; [|done]. simpl. by rewrite E1.
    + destruct (IH g1 Hm1 (move_ok m g g1 Hg E1)) as [(k & g2 & E2 & Hrel)|(H1 & H2 & H3)]; [by eapply internal_running|done| |].
      * left. exists (S k), g2. split; [|done]. simpl. by rewrite E1.
      * right. split_and!; [done| |done]. unfold len in *. simpl. lia.
Qed.

(** C27. Reads and applies exclude each other: while the loop applies slots no
    reader holds the lock, so a reader's function sees the state between two
    applied slots; a reader starts its function only while no apply waits;
    and a reader that waits does so on a channel that is closed already or
    that the waiting apply will close. *)
Theorem reads_exclude_applies ms g : moves ms new_gate = Some g ->
  (write_locked g = true -> read_locked g = false) /\
  (forall id g', move (ReaderGo id) g = Some g' -> g_readers g' !! id = Some Reading -> g_applyWait g = None) /\
  (forall id ch, g_readers g !! id = Some (Waiting ch) -> ch ∈ g_closed g \/ g_applyWait g = Some ch).
Proof.
  intros Hr. pose proof (moves_ok ms new_gate g new_gate_ok Hr) as Hg. split_and!.
  - unfold write_locked. intros El%bool_decide_eq_true. apply unlocked_spec. by apply (go_excluded g Hg).
  - intros id g' E Hrd. simpl in E. unfold readState in E. apply bind_Some in E as (p & Hp & E).
    destruct p as [| |ch|ch| | | |ran]; repeat case_match; simplify_eq; try done;
      unfold put_reader, nudge in Hrd; simpl in Hrd; rewrite lookup_insert_eq in Hrd; by simplify_eq.
  - intros id ch Hw. apply (go_waits g Hg id). by right.
Qed.

(** ** Waiting for the applied slot *)

(** The published applied slot, and the number of the channel [advanced];
    those with smaller numbers are closed. *)
Record Board := mkBoard { b_applied : Z; b_advanced : nat }.

(** What [after] does to it under [mu]. *)
Definition advance (b : Board) (applied : Z) : Board :=
  mkBoard applied (if b_applied b <? applied then S (b_advanced b) else b_advanced b).

Inductive WaiterAt := Looking | Blocked (applied : Z) (ch : nat) | Told (applied : Z).

(** A round of the loop of [WaitApplied]; [None] waits. *)
Definition WaitApplied (after : Z) (b : Board) (p : WaiterAt) : option WaiterAt :=
  match p with
  | Looking => Some (if after <? b_applied b then Told (b_applied b) else Blocked (b_applied b) (b_advanced b))
  | Blocked _ ch => exit_if Nat.ltb ch (b_advanced b) with Some Looking; None
  | Told _ => None
  end.

(** The waiter and the loop by turns: [Some applied] is the loop. *)
Fixpoint watch (after : Z) (turns : list (option Z)) (b : Board) (p : WaiterAt) : option (Board * WaiterAt) :=
  match turns with
  | [] => Some (b, p)
  | Some applied :: turns => watch after turns (advance b applied) p
  | None :: turns => p ← WaitApplied after b p; watch after turns b p
  end.

(** The applied slots the loop publishes do not go back. *)
Fixpoint rising (z : Z) (turns : list (option Z)) : Prop :=
  match turns with
  | [] => True
  | Some applied :: turns => z <= applied /\ rising applied turns
  | None :: turns => rising z turns
  end.

(** A waiter that is blocked while the applied slot is past the one it waits
    for can go on, and one that returns was told of such a slot. *)
Theorem wait_applied_wakes after turns b b' p : rising (b_applied b) turns -> watch after turns b Looking = Some (b', p) ->
  b_applied b <= b_applied b' /\
  match p with
  | Looking => True
  | Blocked _ _ => after < b_applied b' -> is_Some (WaitApplied after b' p)
  | Told applied => after < applied <= b_applied b'
  end.
Proof.
  set (ok := fun (b : Board) p => match p with
    | Looking => True
    | Blocked z ch => z <= after /\ (ch < b_advanced b \/ ch = b_advanced b /\ z = b_applied b)%nat
    | Told z => after < z <= b_applied b end).
  enough (H : forall turns b p b' p', ok b p -> rising (b_applied b) turns -> watch after turns b p = Some (b', p') ->
    b_applied b <= b_applied b' /\ ok b' p').
  { intros Hr E. destruct (H turns b Looking b' p I Hr E) as [Hle Hok]. split; [done|]. destruct p as [|z ch|z]; try done.
    intros Hlt. simpl. destruct Hok as [Hz [Hch|[-> ->]]]; [|lia]. destruct (Nat.ltb_spec ch (b_advanced b')); [done|lia]. }
  clear. intros turns. induction turns as [|[z|] turns IH]; intros b p b' p' Hok Hr E; cbn [watch rising] in *.
  - injection E as <- <-. split; [lia|done].
  - destruct Hr as [Hz Hr]. destruct (IH (advance b z) p b' p') as [Hle Hok']; [|done|done|split; [simpl in Hle; lia|done]].
    destruct p as [|a ch|a]; simpl in *; try lia. destruct Hok as [Ha Hc]. split; [done|]. destruct (Z.ltb_spec (b_applied b) z); [lia|].
    destruct Hc as [?|[-> ->]]; [by left|right]. split; [done|lia].
  - apply bind_Some in E as (q & Eq & E). apply (IH b q b' p'); [|done|done]. destruct p as [|a ch|a]; simpl in Eq.
    + injection Eq as <-. destruct (Z.ltb_spec after (b_applied b)); simpl; [lia|]. split; [lia|by right].
    + destruct (Nat.ltb ch (b_advanced b)); by simplify_eq.
    + done.
Qed.

(** ** A sample: the loop meets a reader in progress *)

(** Reader 1 runs its function when slots are committed; reader 2 arrives and
    waits. *)
Definition demo_meet : list Move :=
  [Arrives 1; ReaderGo 1; ReaderGo 1; Event true; LoopGo; LoopGo; Arrives 2; ReaderGo 2; ReaderGo 2; ReaderGo 2; Kicked; LoopGo; LoopGo].
(** Reader 1 ends and nudges; the loop applies. *)
Definition demo_end : list Move := [ReaderGo 1; ReaderGo 1; ReaderGo 1; Kicked; LoopGo; LoopGo; LoopGo].

Lemma apply_not_forgotten_witness : exists g g', moves demo_meet new_gate = Some g /\ moves demo_end g = Some g' /\
  g_applyWait g' = Some 0%nat /\ len demo_end <= moves_left g /\ exists m, internal m /\ is_Some (move m g').
Proof.
  assert (H : exists g g', moves demo_meet new_gate = Some g /\ moves demo_end g = Some g' /\ g_applyWait g = Some 0%nat /\
    g_loop g <> Stopped /\ Forall internal demo_end /\ forall k g1, moves (firstn k demo_end) g = Some g1 -> g_applyWait g1 <> None).
  { eexists _, _. split; [vm_compute; reflexivity|]. split; [vm_compute; reflexivity|]. split_and!; [done|done|by repeat constructor|].
    intros k g1. do 7 (destruct k as [|k]; [vm_compute; by intros [= <-]|]). rewrite take_ge by (unfold demo_end; simpl; lia).
    vm_compute. by intros [= <-]. }
  destruct H as (g & g' & E & E' & Hm & Hl & Hi & Hk). exists g, g'. split; [exact E|]. split; [exact E'|].
  destruct (apply_not_forgotten demo_meet g 0 demo_end g' E Hm Hl Hi E') as [(k & g1 & Ek & Hrel & _)|Hgo]; [|exact Hgo].
  destruct (Hk k g1 Ek Hrel).
Defined.

Lemma reads_exclude_applies_witness : exists g, moves demo_meet new_gate = Some g /\
  (forall id ch, g_readers g !! id = Some (Waiting ch) -> ch ∈ g_closed g \/ g_applyWait g = Some ch) /\
  g_readers g !! 2%nat = Some (Waiting 0).
Proof.
  assert (H : exists g, moves demo_meet new_gate = Some g /\ g_readers g !! 2%nat = Some (Waiting 0))
    by (eexists; split; [vm_compute; reflexivity|reflexivity]).
  destruct H as (g & E & H2). exists g. split; [exact E|]. split; [|exact H2]. exact (proj2 (proj2 (reads_exclude_applies demo_meet g E))).
Defined.
