(* ===== verification/Session.v ===== *)
(** Session tokens and device verifiers (internal/session): the keyring and
    its textual form, [Sign] and [Verify], and the verifier the log stores in
    place of a device secret.

    A token is computed to the byte, with the SHA-256, base64 and JSON of
    GoStd.v, Base64.v and Json.v.  The theorems: a token that was signed
    verifies, and gives its claims back, exactly while its times allow
    ([session_round_trip]); the tokens that verify, in terms of the format, the
    times as plain integers and the mac alone, with the two spellings the code
    lets through ([session_accepts_only_signed]); a keyring is read back from its textual
    form ([keyring_round_trip]); a line break inside the mac goes unnoticed
    ([session_mac_line_break]), and so does a lifetime that overflows
    ([session_lifetime_overflow]). *)

From S2P Require Import Prelude GoStd Base64 Json Unmarshal.

(** * Constants and data *)

Definition Version : string := "v1".
(** Durations in milliseconds. *)
Definition MaxTTL : Z := 24 * 60 * 60 * 1000.
Definition Leeway : Z := 30 * 1000.
Definition MinKeyBytes : Z := 32.
Definition MaxKeyIDLen : Z := 16.
Definition MaxTokenLen : Z := 1024.
Definition DeviceIDLen : Z := 32.
Definition DeviceSecretLen : Z := 64.
Definition VerifierDomain : string := "paxos-arena/device/v1".

Abbreviation KeyID := string (only parsing).

Record Key := mkKey { key_ID : KeyID; key_Secret : bytes }.

(** The first key signs. *)
Record Keyring := mkKeyring { Keys : list Key }.

Record Claims := mkClaims { c_Player : string; c_Device : string; c_IssuedAtMs : Z; c_ExpiresAtMs : Z }.

#[export] Instance Claims_eq_dec : EqDecision Claims.
Proof. solve_decision. Defined.

Definition ErrMalformed : error := "session: the token is malformed".
Definition ErrUnknownKey : error := "session: the token names a key this replica does not hold".
Definition ErrBadMAC : error := "session: the token's mac does not verify".
Definition ErrExpired : error := "session: the token has expired".
Definition ErrNotYetValid : error := "session: the token was issued in the future".
Definition ErrLifetime : error := "session: the token's lifetime exceeds the maximum".
Definition ErrNoKeys : error := "session: the keyring has no key".
Definition ErrWeakKey : error := "session: a key is shorter than 32 bytes".
Definition ErrBadKeyID : error := "session: a key id is not 1 to 16 characters from a-z, 0-9 and '-'".
Definition ErrDuplicateKeyID : error := "session: two keys share an id".
Definition ErrBadKeySpec : error := "session: a keyring entry is not id=hex".
Definition ErrBadDevice : error := "session: the device secret is not 64 lower-case hex characters".

(** * Strings *)

(** [strings.Split] by one byte, and [strings.Cut]. *)
Fixpoint split_on (sep : Z) (b : bytes) : list bytes :=
  match b with
  | [] => [[]]
  | c :: b' =>
      if c =? sep then [] :: split_on sep b'
      else match split_on sep b' with x :: l => (c :: x) :: l | [] => [[c]] end
  end.

Fixpoint cut_at (sep : Z) (b : bytes) : option (bytes * bytes) :=
  match b with
  | [] => None
  | c :: b' => if c =? sep then Some ([], b') else '(x, y) ← cut_at sep b'; Some (c :: x, y)
  end.

(** * Keyrings *)

Definition key_id_byte (c : Z) : bool := ((97 <=? c) && (c <=? 122)) || ((48 <=? c) && (c <=? 57)) || (c =? 45).

Definition ValidKeyID (id : KeyID) : bool :=
  exit_if (slen id <? 1) || (MaxKeyIDLen <? slen id) with false;
  forallb key_id_byte (bytes_of id).

Definition shown_error `{Unicode} (err : error) (id : KeyID) (rest : string) : error := err +:+ ": key " +:+ quote id +:+ rest.

(** The loop of [Validate], [seen] holding the identifiers so far. *)
Fixpoint validate_keys `{Unicode} (seen : list KeyID) (keys : list Key) : option error :=
  match keys with
  | [] => None
  | key :: keys' =>
      exit_if negb (ValidKeyID (key_ID key)) with Some ErrBadKeyID;
      exit_if len (key_Secret key) <? MinKeyBytes
        with Some (shown_error ErrWeakKey (key_ID key) (" has " +:+ itoa (len (key_Secret key)) +:+ " bytes"));
      exit_if bool_decide (key_ID key ∈ seen) with Some (ErrDuplicateKeyID +:+ ": " +:+ quote (key_ID key));
      validate_keys (key_ID key :: seen) keys'
  end.

Definition Validate `{Unicode} (k : Keyring) : option error :=
  exit_if len (Keys k) =? 0 with Some ErrNoKeys;
  validate_keys [] (Keys k).

(** One entry of a line, after trimming. *)
Definition parse_entry `{Unicode} (keys : list Key) (entry : bytes) : Key + error :=
  match cut_at 61 entry with
  | None => inr ErrBadKeySpec
  | Some (id, hexKey) =>
      let kid := string_of (TrimSpace id) in
      exit_if negb (ValidKeyID kid) with inr ErrBadKeyID;
      match hex_decode (TrimSpace hexKey) with
      | None => inr (shown_error ErrBadKeySpec kid " is not hex")
      | Some secret =>
          exit_if len secret <? MinKeyBytes with inr (shown_error ErrWeakKey kid (" has " +:+ itoa (len secret) +:+ " bytes"));
          exit_if bool_decide (kid ∈ map key_ID keys) with inr (ErrDuplicateKeyID +:+ ": " +:+ quote kid);
          inl (mkKey kid secret)
      end
  end.

Fixpoint parse_entries `{Unicode} (keys : list Key) (entries : list bytes) : list Key + error :=
  match entries with
  | [] => inl keys
  | e :: entries' =>
      let entry := TrimSpace e in
      exit_if bool_decide (entry = []) with parse_entries keys entries';
      match parse_entry keys entry with
      | inl key => parse_entries (keys ++ [key]) entries'
      | inr err => inr err
      end
  end.

Definition skipped (line : bytes) : bool := match line with [] => true | c :: _ => c =? 35 end.

Fixpoint parse_lines `{Unicode} (keys : list Key) (lines : list bytes) : list Key + error :=
  match lines with
  | [] => inl keys
  | l :: lines' =>
      let line := TrimSpace l in
      exit_if skipped line with parse_lines keys lines';
      match parse_entries keys (split_on 44 line) with
      | inl keys => parse_lines keys lines'
      | inr err => inr err
      end
  end.

Definition ParseKeyring `{Unicode} (spec : string) : Keyring + error :=
  match parse_lines [] (split_on 10 (bytes_of spec)) with
  | inr err => inr err
  | inl keys =>
      let ring := mkKeyring keys in
      match Validate ring with Some err => inr err | None => inl ring end
  end.

Fixpoint find_key (id : KeyID) (keys : list Key) : option Key :=
  match keys with
  | [] => None
  | key :: keys' => if String.eqb (key_ID key) id then Some key else find_key id keys'
  end.
Definition find (k : Keyring) (id : KeyID) : option Key := find_key id (Keys k).

(** * Tokens *)

Definition mac (secret signed : bytes) : bytes := hmac_sha256 secret signed.

Definition claims_codec : Codec Claims :=
  struct (field "pid" text (field "did" text (field "iat" (sint 64) (field "exp" (sint 64) no_fields))))
    (fun '(p, (d, (i, (e, _)))) => mkClaims p d i e)
    (fun c => (c_Player c, (c_Device c, (c_IssuedAtMs c, (c_ExpiresAtMs c, tt))))).

(** The encoder ends the value with a line break, which is cut off again. *)
Definition encodeClaims (c : Claims) : bytes := json_print false (to_json claims_codec c).

Definition b64 : Encoding := RawURLStrict.

(** What the mac covers. *)
Definition signed_part (id : KeyID) (payload : bytes) : bytes :=
  bytes_of (Version +:+ "." +:+ id +:+ ".") ++ b64_encode b64 payload.

Definition Sign (k : Keyring) (c : Claims) : string + error :=
  match Keys k with
  | [] => inr ErrNoKeys
  | key :: _ =>
      let signed := signed_part (key_ID key) (encodeClaims c) in
      inl (string_of (signed ++ [46] ++ b64_encode b64 (mac (key_Secret key) signed)))
  end.

(** [Decode] into the claims, unknown fields refused, and [More]: whether
    anything but a closing bracket follows. *)
Definition decode_claims (payload : bytes) : option Claims :=
  '(v, rest) ← parse_value payload;
  c ← of_json claims_codec [v];
  match skip rest with
  | x :: _ => if (x =? 93) || (x =? 125) then Some c else None
  | [] => Some c
  end.

(** The checks on the times, all in [int64]. *)
Definition check_times (c : Claims) (nowMs : Z) : option error :=
  exit_if (c_ExpiresAtMs c <? c_IssuedAtMs c) || (MaxTTL <? i64 (c_ExpiresAtMs c - c_IssuedAtMs c)) with Some ErrLifetime;
  exit_if i64 (nowMs + Leeway) <? c_IssuedAtMs c with Some ErrNotYetValid;
  exit_if i64 (c_ExpiresAtMs c + Leeway) <? nowMs with Some ErrExpired;
  None.

Definition Verify (k : Keyring) (token : string) (nowMs : Z) : Claims + error :=
  exit_if MaxTokenLen <? slen token with inr ErrMalformed;
  match split_on 46 (bytes_of token) with
  | [p0; p1; p2; p3] =>
      exit_if negb (bool_decide (p0 = bytes_of Version)) || negb (ValidKeyID (string_of p1)) with inr ErrMalformed;
      match b64_decode b64 p2, b64_decode b64 p3 with
      | Some payload, Some sum =>
          exit_if negb (len sum =? 32) with inr ErrMalformed;
          match decode_claims payload with
          | None => inr ErrMalformed
          | Some c =>
              exit_if negb (bool_decide (encodeClaims c = payload)) with inr ErrMalformed;
              match find k (string_of p1) with
              | None => inr ErrUnknownKey
              | Some key =>
                  let signed := take (length p0 + 1 + length p1 + 1 + length p2) (bytes_of token) in
                  exit_if negb (bool_decide (mac (key_Secret key) signed = sum)) with inr ErrBadMAC;
                  match check_times c nowMs with Some err => inr err | None => inl c end
              end
          end
      | _, _ => inr ErrMalformed
      end
  | _ => inr ErrMalformed
  end.

(** * Devices *)

Definition lowerHex (s : string) (n : Z) : bool :=
  exit_if negb (slen s =? n) with false; forallb is_lower_hex (bytes_of s).

Definition ValidDeviceID (id : string) : bool := lowerHex id DeviceIDLen.
Definition ValidDeviceSecret (s : string) : bool := lowerHex s DeviceSecretLen.

Definition NewVerifier (secretHex : string) : bytes + error :=
  exit_if negb (ValidDeviceSecret secretHex) with inr ErrBadDevice;
  match hex_decode (bytes_of secretHex) with
  | None => inr ErrBadDevice
  | Some secret => inl (sha256 (bytes_of VerifierDomain ++ [0] ++ secret))
  end.

(** ** A keyring as text *)

Definition entry_text (key : Key) : bytes := bytes_of (key_ID key) ++ [61] ++ hex_encode (key_Secret key).
Definition ring_text (k : Keyring) : string := string_of (commas (map entry_text (Keys k))).

(** * Pinned values *)

(** Those of session_test.go. *)
Definition vectorKey : string := "000102030405060708090a0b0c0d0e0f101112131415161718191a1b1c1d1e1f".
Definition vectorToken : string :=
  "v1.k1.eyJwaWQiOiJwLW16eHc2eXRib2k0ZHFuYnJnbTJ3cXpsbW40IiwiZGlkIjoiOWY4NmQwODE4ODRjN2Q2NTlhMmZlYWEwYzU1YWQwMTUiLCJpYXQiOjE3ODkyMDAwMDAwMDAsImV4cCI6MTc4OTIwMzYwMDAwMH0.5CWAjViqDUMjFQmhATnN_JiC085QYywGbSPGTGBVjiE".
Definition vectorClaims : Claims :=
  mkClaims "p-mzxw6ytboi4dqnbrgm2wqzlmn4" "9f86d081884c7d659a2feaa0c55ad015" 1789200000000 1789203600000.
Definition vectorRing : Keyring := mkKeyring [mkKey "k1" (map Z.of_nat (seq 0 32))].

Example ring_vector : @ParseKeyring ascii_unicode ("k1=" +:+ vectorKey) = inl vectorRing.
Proof. vm_compute. reflexivity. Qed.
Example token_vector : Sign vectorRing vectorClaims = inl vectorToken.
Proof. vm_compute. reflexivity. Qed.
Example verify_vector : Verify vectorRing vectorToken 1789200000000 = inl vectorClaims.
Proof. vm_compute. reflexivity. Qed.
Example verifier_vector :
  (fun v => string_of (hex_encode v)) <$> (match NewVerifier "2c26b46b68ffc68ff99b453c1d30413413422d706483bfa0f98a5e886266e7ae" with inl v => Some v | inr _ => None end)
    = Some "eefcb1443d2b7d069bf765df3584178eb2b4c9b5125242a75bf53c0c7e3da2b8".
Proof. vm_compute. reflexivity. Qed.

(** * Splitting and trimming *)

Definition free_of (sep : Z) (b : bytes) : Prop := Forall (fun c => c <> sep) b.

Lemma split_free sep b : free_of sep b -> split_on sep b = [b].
Proof. induction 1 as [|c b Hc _ IH]; [done|]. cbn. destruct (Z.eqb_spec c sep); [done|]. by rewrite IH. Qed.

Lemma split_cons sep x b : free_of sep x -> split_on sep (x ++ sep :: b) = x :: split_on sep b.
Proof.
  induction 1 as [|c x Hc _ IH]; cbn; [by rewrite Z.eqb_refl|]. destruct (Z.eqb_spec c sep); [done|]. by rewrite IH.
Qed.

Fixpoint joined (sep : Z) (l : list bytes) : bytes :=
  match l with [] => [] | [x] => x | x :: l' => x ++ sep :: joined sep l' end.

Lemma split_nonempty sep b : split_on sep b <> [].
Proof. destruct b as [|c b]; [done|]. cbn. destruct (c =? sep); [done|]. by destruct (split_on sep b). Qed.

Lemma joined_split sep b : joined sep (split_on sep b) = b.
Proof.
  induction b as [|c b IH]; [done|]. cbn [split_on]. destruct (Z.eqb_spec c sep) as [-> |].
  - destruct (split_on sep b) as [|x l] eqn:E; [by apply split_nonempty in E|].
    change (joined sep ([] :: x :: l)) with (sep :: joined sep (x :: l)). by rewrite IH.
  - destruct (split_on sep b) as [|x l] eqn:E; [by apply split_nonempty in E|].
    destruct l; cbn in *; by rewrite IH.
Qed.

Lemma split_joined sep l : l <> [] -> Forall (free_of sep) l -> split_on sep (joined sep l) = l.
Proof.
  intros Hl H. induction H as [|x l Hx H IH]; [done|]. destruct l as [|y l]; [by apply split_free|].
  change (joined sep (x :: y :: l)) with (x ++ sep :: joined sep (y :: l)). rewrite split_cons by done. by rewrite IH.
Qed.

Lemma split_parts sep b : Forall (free_of sep) (split_on sep b).
Proof.
  induction b as [|c b IH]; [repeat constructor|]. cbn. destruct (Z.eqb_spec c sep); [by apply Forall_cons; split; [apply Forall_nil|]|].
  destruct (split_on sep b) as [|x l]; [by apply Forall_singleton, Forall_singleton|].
  apply Forall_cons in IH as [Hx Hl]. apply Forall_cons. split; [by apply Forall_cons|done].
Qed.

Lemma cut_free sep x y : free_of sep x -> cut_at sep (x ++ sep :: y) = Some (x, y).
Proof.
  induction 1 as [|c x Hc _ IH]; cbn; [by rewrite Z.eqb_refl|]. destruct (Z.eqb_spec c sep); [done|]. by rewrite IH.
Qed.

(** Printable ASCII but the space is not trimmed. *)
Definition graphic (c : Z) : Prop := 33 <= c < 127.

Lemma runes_graphic n b : Forall graphic b -> (length b <= n)%nat -> runes_fuel n b = map (fun c => (Some c, [c])) b.
Proof.
  unfold graphic. intros H. revert n. induction H as [|c b Hc _ IH]; intros n Hn; [by destruct n|].
  destruct n as [|n]; [cbn in Hn; lia|]. cbn [runes_fuel decode_rune map]. replace (c <? 128) with true by lia.
  cbn [take drop]. rewrite IH by (cbn in Hn; lia). done.
Qed.

Lemma drop_while_id {A} (f : A -> bool) l : Forall (fun x => f x = false) l -> drop_while f l = l.
Proof. destruct 1 as [|x l Hx _]; [done|]. cbn. by rewrite Hx. Qed.

Lemma TrimSpace_graphic b : Forall graphic b -> TrimSpace b = b.
Proof.
  intros H. unfold TrimSpace, runes. rewrite (runes_graphic _ b H) by lia.
  assert (S : Forall (fun p => space p = false) (map (fun c => (Some c, [c])) b)).
  { apply Forall_map. eapply Forall_impl; [exact H|]. unfold graphic, space, rune_space. cbn. lia. }
  rewrite (drop_while_id space _ S), drop_while_id by by apply Forall_rev.
  rewrite rev_involutive, map_map. clear. induction b as [|c b IH]; [done|]. cbn. by f_equal.
Qed.

(** * The claims *)

#[export] Instance claims_lawful : Lawful claims_codec.
Proof. unfold claims_codec. apply _. Qed.

Lemma claims_depth : Depth claims_codec 1.
Proof. unfold claims_codec. intros c. etrans; [refine (depth (d := _) c)|done]. Qed.

Lemma decode_encode_claims c : fits claims_codec c -> decode_claims (encodeClaims c) = Some c.
Proof.
  intros F. unfold decode_claims, parse_value, encodeClaims. set (b := json_print false (to_json claims_codec c)).
  rewrite <- (app_nil_r b) at 2. unfold b at 2. pose proof (claims_depth c). rewrite value_print; [|unfold maxNestingDepth; lia|done|subst b; lia].
  cbn [mbind option_bind]. rewrite (read_back (c := claims_codec) c) by done. done.
Qed.

Lemma decode_claims_fits b c : decode_claims b = Some c -> fits claims_codec c.
Proof.
  unfold decode_claims, parse_value. destruct (value _ 0 b) as [[v r]|] eqn:E; [|done]. apply parser_ok in E. cbn [mbind option_bind].
  destruct (of_json claims_codec [v]) as [c'|] eqn:Ec; [|done]. cbn [mbind option_bind].
  apply read_fits in Ec; [|cbn; by rewrite E]. destruct (skip r) as [|x l]; [by intros [= <-]|].
  destruct (_ || _); [|done]. by intros [= <-].
Qed.

(** * What verifies *)

Lemma find_key_spec id keys key : find_key id keys = Some key -> key_ID key = id /\ key ∈ keys.
Proof.
  induction keys as [|x keys IH]; [done|]. cbn. destruct (String.eqb_spec (key_ID x) id) as [E|].
  - intros [= <-]. split; [done|by left].
  - intros H. apply IH in H as [? ?]. split; [done|by right].
Qed.

(** [token] carries [c], in terms of the code's functions: four parts, the
    third decodes to the canonical encoding of the claims, the last to the mac
    over the first three under the key of the ring that the second names. *)
Definition token_of (k : Keyring) (c : Claims) (token : string) : Prop :=
  exists key p m, let signed := bytes_of (Version +:+ "." +:+ key_ID key +:+ ".") ++ p in
    find k (key_ID key) = Some key /\ ValidKeyID (key_ID key) = true /\ bytes_of token = signed ++ [46] ++ m /\
    b64_decode b64 p = Some (encodeClaims c) /\ b64_decode b64 m = Some (mac (key_Secret key) signed).

Lemma b64_no_dot t b : b64_decode b64 t = Some b -> free_of 46 t.
Proof.
  intros H. eapply Forall_impl; [exact (b64_decode_chars b64 t b eq_refl eq_refl H)|]. intros c Hc ->. cbn in Hc. by destruct Hc.
Qed.

Lemma key_id_no_dot id : ValidKeyID id = true -> free_of 46 (bytes_of id).
Proof.
  unfold ValidKeyID. destruct (_ || _); [done|]. intros H. apply Forall_forall. intros c Hc ->.
  rewrite forallb_forall in H. by specialize (H 46 ltac:(by apply list_elem_of_In)).
Qed.

Lemma token_parts id p m : bytes_of (Version +:+ "." +:+ id +:+ ".") ++ p ++ [46] ++ m =
  joined 46 [bytes_of Version; bytes_of id; p; m].
Proof. rewrite !bytes_of_app, <- !app_assoc. reflexivity. Qed.

Lemma take_signed (p0 p1 p2 p3 : bytes) :
  take (length p0 + 1 + length p1 + 1 + length p2) (joined 46 [p0; p1; p2; p3]) = p0 ++ [46] ++ p1 ++ [46] ++ p2.
Proof.
  change (joined 46 [p0; p1; p2; p3]) with (p0 ++ [46] ++ p1 ++ [46] ++ p2 ++ [46] ++ p3).
  replace (p0 ++ [46] ++ p1 ++ [46] ++ p2 ++ [46] ++ p3) with ((p0 ++ [46] ++ p1 ++ [46] ++ p2) ++ [46] ++ p3) by by rewrite <- !app_assoc.
  apply take_app_length'. rewrite !length_app. cbn. lia.
Qed.

(** [Verify] on the four parts. *)
Lemma Verify_parts k token now p0 p1 p2 p3 c : split_on 46 (bytes_of token) = [p0; p1; p2; p3] ->
  Verify k token now = inl c <->
  slen token <= MaxTokenLen /\ p0 = bytes_of Version /\ ValidKeyID (string_of p1) = true /\
  b64_decode b64 p2 = Some (encodeClaims c) /\ fits claims_codec c /\ check_times c now = None /\
  exists key, find k (string_of p1) = Some key /\ b64_decode b64 p3 = Some (mac (key_Secret key) (p0 ++ [46] ++ p1 ++ [46] ++ p2)).
Proof.
  intros E. pose proof (joined_split 46 (bytes_of token)) as J. rewrite E in J. unfold Verify. rewrite E.
  rewrite <- J, take_signed. split.
  - destruct (Z.ltb_spec MaxTokenLen (slen token)); [done|].
    destruct (bool_decide_reflect (p0 = bytes_of Version)) as [E0|]; [|done]. cbn [negb orb].
    destruct (ValidKeyID (string_of p1)) eqn:Ek; [|done]. cbn [negb].
    destruct (b64_decode b64 p2) as [payload|] eqn:E2; [|done]. destruct (b64_decode b64 p3) as [sum|] eqn:E3; [|done].
    destruct (negb (len sum =? 32)); [done|]. destruct (decode_claims payload) as [c'|] eqn:Ec; [|done].
    destruct (bool_decide_reflect (encodeClaims c' = payload)) as [<-|]; [|done]. cbn [negb].
    destruct (find k (string_of p1)) as [key|] eqn:Ef; [|done].
    destruct (bool_decide_reflect (mac (key_Secret key) (p0 ++ [46] ++ p1 ++ [46] ++ p2) = sum)) as [<-|]; [|done]. cbn [negb].
    destruct (check_times c' now) as [e|] eqn:Et; [done|]. intros [= <-]. apply decode_claims_fits in Ec.
    split_and!; try done; eauto.
  - intros (Hl & -> & Hk & H2 & Hf & Ht & key & Hf2 & H3). destruct (Z.ltb_spec MaxTokenLen (slen token)); [lia|].
    rewrite bool_decide_eq_true_2, Hk, H2, H3 by done. cbn [negb orb].
    rewrite (proj1 (hmac_digest _ _)). cbn [negb Z.eqb Pos.eqb]. rewrite decode_encode_claims by done.
    rewrite bool_decide_eq_true_2 by done. cbn [negb]. rewrite Hf2. rewrite bool_decide_eq_true_2 by done. cbn [negb]. by rewrite Ht.
Qed.

Lemma Verify_four k token now c : Verify k token now = inl c ->
  exists p0 p1 p2 p3, split_on 46 (bytes_of token) = [p0; p1; p2; p3].
Proof.
  unfold Verify. destruct (MaxTokenLen <? slen token); [done|].
  destruct (split_on 46 (bytes_of token)) as [|p0 [|p1 [|p2 [|p3 [|p4 l]]]]]; try done. intros _. by exists p0, p1, p2, p3.
Qed.

Lemma Verify_token k token now c :
  Verify k token now = inl c <->
  slen token <= MaxTokenLen /\ fits claims_codec c /\ check_times c now = None /\ token_of k c token.
Proof.
  split.
  - intros V. destruct (Verify_four k token now c V) as (p0 & p1 & p2 & p3 & E).
    destruct (proj1 (Verify_parts _ _ _ _ _ _ _ _ E) V) as (Hl & E0 & Hk & H2 & Hf & Ht & key & Hf2 & H3). subst p0. split_and!; [done..|].
    pose proof (joined_split 46 (bytes_of token)) as J. rewrite E in J.
    assert (B : bytes_of (string_of p1) = p1).
    { apply bytes_of_string_of. pose proof (bytes_of_bytes token) as HB. rewrite <- J in HB.
      change (joined 46 _) with (bytes_of Version ++ [46] ++ p1 ++ 46 :: p2 ++ 46 :: p3) in HB.
      apply Forall_app in HB as [_ HB]. apply Forall_app in HB as [_ HB]. by apply Forall_app in HB as [HB _]. }
    destruct (find_key_spec _ _ _ Hf2) as [Ei _]. exists key, p2, p3. rewrite Ei. cbv zeta. split; [done|]. split; [done|]. split; [|split; [done|]].
    + by rewrite <- app_assoc, token_parts, B.
    + rewrite H3. do 2 f_equal. rewrite !bytes_of_app, B, <- !app_assoc. reflexivity.
  - intros (Hl & Hf & Ht & key & p & m & Hf2 & Hk & Eb & Hp & Hm). rewrite <- app_assoc, token_parts in Eb.
    assert (E : split_on 46 (bytes_of token) = [bytes_of Version; bytes_of (key_ID key); p; m]).
    { rewrite Eb. apply split_joined; [done|].
      apply Forall_cons. split; [by repeat constructor|]. apply Forall_cons. split; [by apply key_id_no_dot|].
      apply Forall_cons. split; [by apply b64_no_dot in Hp|]. apply Forall_singleton. by apply b64_no_dot in Hm. }
    apply (Verify_parts _ _ _ _ _ _ _ _ E). rewrite string_of_bytes_of. split_and!; try done. exists key. split; [done|].
    rewrite Hm. do 2 f_equal. rewrite !bytes_of_app, <- !app_assoc. reflexivity.
Qed.

(** *** The tokens of the contract *)

(** The JSON object of the claims, its four fields in order and without
    whitespace. *)
Definition claims_text (c : Claims) : bytes :=
  [123] ++ ((json_string false "pid" ++ [58] ++ json_string false (c_Player c)) ++ [44] ++
    (json_string false "did" ++ [58] ++ json_string false (c_Device c)) ++ [44] ++
    (json_string false "iat" ++ [58] ++ bytes_of (itoa (c_IssuedAtMs c))) ++ [44] ++
    (json_string false "exp" ++ [58] ++ bytes_of (itoa (c_ExpiresAtMs c)))) ++ [125].

Lemma encodeClaims_text c : encodeClaims c = claims_text c.
Proof. reflexivity. Qed.

(** A key identifier: 1 to 16 characters from a-z, 0-9 and '-'. *)
Definition key_id_form (id : KeyID) : Prop :=
  1 <= slen id <= 16 /\ Forall (fun c => 97 <= c <= 122 \/ 48 <= c <= 57 \/ c = 45) (bytes_of id).

Lemma ValidKeyID_form id : ValidKeyID id = true <-> key_id_form id.
Proof.
  unfold ValidKeyID, key_id_form, MaxKeyIDLen. rewrite Forall_forall.
  destruct ((slen id <? 1) || (16 <? slen id)) eqn:E; [split; [done|lia]|].
  rewrite forallb_forall. split.
  - intros F. split; [lia|]. intros c Hc. specialize (F c ltac:(by apply list_elem_of_In)). unfold key_id_byte in F. lia.
  - intros [_ F] c Hc%list_elem_of_In. specialize (F c Hc). unfold key_id_byte. lia.
Qed.

(** The first key of the ring that carries the identifier. *)
Definition first_key (k : Keyring) (key : Key) : Prop :=
  exists before after, Keys k = before ++ key :: after /\ key_ID key ∉ map key_ID before.

Lemma find_first k key : find k (key_ID key) = Some key <-> first_key k key.
Proof.
  unfold find, first_key. generalize (Keys k) as keys. induction keys as [|x keys IH]; cbn [find_key].
  { split; [done|]. by intros ([|? ?] & ? & ? & _). }
  destruct (String.eqb_spec (key_ID x) (key_ID key)) as [E|E].
  - split; [intros [= ->]; exists [], keys; split; [done|apply not_elem_of_nil]|].
    intros ([|y before] & after & [= -> ->] & Hn); [done|]. cbn in Hn. apply not_elem_of_cons in Hn. by destruct Hn.
  - rewrite IH. split.
    + intros (before & after & -> & Hn). exists (x :: before), after. split; [done|]. cbn. apply not_elem_of_cons. by split.
    + intros ([|y before] & after & [= -> ->] & Hn); [done|]. exists before, after. split; [done|].
      cbn in Hn. by apply not_elem_of_cons in Hn as [_ ?].
Qed.

(** The signed token of [c] under a key of the ring: the version, the key's
    identifier, the base64url of the claims and that of the HMAC-SHA256 of
    everything before the last dot, but for line breaks inside the last two. *)
Definition signed_token (k : Keyring) (c : Claims) (token : string) : Prop :=
  exists key p m, let signed := bytes_of ("v1." +:+ key_ID key +:+ ".") ++ p in
    first_key k key /\ key_id_form (key_ID key) /\ bytes_of token = signed ++ [46] ++ m /\
    unbroken p = b64_encode b64 (claims_text c) /\
    unbroken m = b64_encode b64 (hmac_sha256 (key_Secret key) signed).

Lemma token_of_signed k c token : token_of k c token <-> signed_token k c token.
Proof.
  unfold token_of, signed_token. split; intros (key & p & m & H); exists key, p, m; cbv zeta in *;
    destruct H as (H1 & H2 & H3 & H4 & H5).
  - apply b64_decode_strict in H4 as [_ H4]; [|done..]. apply b64_decode_strict in H5 as [_ H5]; [|done..].
    split_and!; [by apply find_first|by apply ValidKeyID_form|done|done|done].
  - split_and!; [by apply find_first|by apply ValidKeyID_form|done| |].
    + apply b64_decode_strict; [done..|]. split; [apply json_print_bytes|done].
    + apply b64_decode_strict; [done..|]. split; [apply hmac_digest|done].
Qed.

(** The times of a token at [now], as plain integers in milliseconds: a
    lifetime of at most 24 hours, issued at most 30 seconds ahead, expired at
    most 30 seconds ago.  Machine arithmetic shows in two places: a lifetime
    of [2 ^ 63] or more passes (its difference wraps; the issue time is then
    negative), and an expiry within 30 seconds of the largest [int64] does not. *)
Definition times_allow (c : Claims) (now : Z) : Prop :=
  c_IssuedAtMs c <= c_ExpiresAtMs c /\
  (c_ExpiresAtMs c - c_IssuedAtMs c <= 86400000 \/ 2 ^ 63 <= c_ExpiresAtMs c - c_IssuedAtMs c) /\
  c_IssuedAtMs c <= now + 30000 /\ now <= c_ExpiresAtMs c + 30000 /\ c_ExpiresAtMs c + 30000 < 2 ^ 63.

Lemma i64_wrap x : 2 ^ 63 <= x < 2 ^ 64 -> i64 x = x - 2 ^ 64.
Proof. intros H. unfold i64. Z.div_mod_to_equations. lia. Qed.

Lemma check_times_allow c now : in_i64 (c_IssuedAtMs c) -> in_i64 (c_ExpiresAtMs c) -> 0 <= now < 2 ^ 62 ->
  check_times c now = None <-> times_allow c now.
Proof.
  destruct c as [pl d iat exp]. unfold check_times, times_allow, MaxTTL, Leeway, in_i64. cbn [c_IssuedAtMs c_ExpiresAtMs].
  intros Hi He Hn. rewrite (i64_id (now + 30 * 1000)) by (unfold in_i64; lia).
  destruct (Z.ltb_spec exp iat); cbn [orb]; [split; [done|lia]|].
  assert (L : (24 * 60 * 60 * 1000 <? i64 (exp - iat)) = false <-> exp - iat <= 86400000 \/ 2 ^ 63 <= exp - iat).
  { destruct (Z.lt_ge_cases (exp - iat) (2 ^ 63)); [rewrite i64_id by (unfold in_i64; lia)|rewrite i64_wrap by lia]; lia. }
  destruct (24 * 60 * 60 * 1000 <? i64 (exp - iat)); [split; [done|intros (_ & H2 & _)]; by apply L in H2|].
  destruct (Z.ltb_spec (now + 30 * 1000) iat); [split; [done|lia]|].
  destruct (Z.lt_ge_cases (exp + 30 * 1000) (2 ^ 63)); [rewrite i64_id by (unfold in_i64; lia)|rewrite i64_wrap by lia].
  - destruct (Z.ltb_spec (exp + 30 * 1000) now); [split; [done|lia]|]. split; [intros _|done]. split_and!; try lia; by apply L.
  - destruct (Z.ltb_spec (exp + 30 * 1000 - 2 ^ 64) now); [split; [done|lia]|lia].
Qed.



(** ** Tokens that were signed *)

Lemma claims_json_length c : fits claims_codec c -> len (encodeClaims c) <= 6 * (slen (c_Player c) + slen (c_Device c)) + 76.
Proof.
  intros (_ & _ & Hi & He & _). cbn in Hi, He. rewrite encodeClaims_text. unfold claims_text.
  rewrite !len_app.
  pose proof (json_string_length false (c_Player c)). pose proof (json_string_length false (c_Device c)).
  pose proof (itoa_length (c_IssuedAtMs c) 19 ltac:(change (10 ^ Z.of_nat 19) with 10000000000000000000; lia) ltac:(lia)).
  pose proof (itoa_length (c_ExpiresAtMs c) 19 ltac:(change (10 ^ Z.of_nat 19) with 10000000000000000000; lia) ltac:(lia)).
  change (len [123]) with 1. change (len [125]) with 1. change (len [44]) with 1. change (len [58]) with 1.
  change (len (json_string false "pid")) with 5. change (len (json_string false "did")) with 5.
  change (len (json_string false "iat")) with 5. change (len (json_string false "exp")) with 5. lia.
Qed.

(** What the checks on the times mean where nothing overflows. *)
Definition times_ok (c : Claims) (now : Z) : Prop :=
  c_IssuedAtMs c <= c_ExpiresAtMs c <= c_IssuedAtMs c + MaxTTL /\
  c_IssuedAtMs c - Leeway <= now <= c_ExpiresAtMs c + Leeway.

Lemma check_times_ok c now : 0 <= c_IssuedAtMs c < 2 ^ 62 -> 0 <= c_ExpiresAtMs c < 2 ^ 62 -> 0 <= now < 2 ^ 62 ->
  check_times c now = None <-> times_ok c now.
Proof.
  intros Hi He Hn. unfold check_times, times_ok, MaxTTL, Leeway. rewrite !i64_id by (unfold in_i64; lia).
  destruct (Z.ltb_spec (c_ExpiresAtMs c) (c_IssuedAtMs c)); cbn [orb]; [split; [done|lia]|].
  destruct (Z.ltb_spec (24 * 60 * 60 * 1000) (c_ExpiresAtMs c - c_IssuedAtMs c)); [split; [done|lia]|].
  destruct (Z.ltb_spec (now + 30 * 1000) (c_IssuedAtMs c)); [split; [done|lia]|].
  destruct (Z.ltb_spec (c_ExpiresAtMs c + 30 * 1000) now); [split; [done|lia]|]. split; [lia|done].
Qed.

(** The parts of the token [Sign] returns. *)
Lemma Sign_parts k key ks c : Keys k = key :: ks -> ValidKeyID (key_ID key) = true -> fits claims_codec c ->
  slen (c_Player c) + slen (c_Device c) <= 96 ->
  exists token m, Sign k c = inl token /\ slen token <= MaxTokenLen /\
    let p := b64_encode b64 (encodeClaims c) in
    split_on 46 (bytes_of token) = [bytes_of Version; bytes_of (key_ID key); p; m] /\
    b64_decode b64 p = Some (encodeClaims c) /\
    b64_decode b64 m = Some (mac (key_Secret key) (bytes_of Version ++ [46] ++ bytes_of (key_ID key) ++ [46] ++ p)).
Proof.
  intros Ek Hk Hf Hl. pose proof (claims_json_length c Hf) as L1. unfold Sign. rewrite Ek.
  set (p := b64_encode b64 (encodeClaims c)). assert (E : signed_part (key_ID key) (encodeClaims c) =
    bytes_of Version ++ [46] ++ bytes_of (key_ID key) ++ [46] ++ p) by (unfold signed_part; rewrite !bytes_of_app, <- !app_assoc; reflexivity).
  cbv zeta. rewrite E. set (sm := mac _ _). assert (Hsm : len sm = 32 /\ Forall is_byte sm) by apply hmac_digest. clearbody sm.
  set (m := b64_encode b64 sm).
  assert (HB : Forall is_byte (encodeClaims c)) by apply json_print_bytes.
  assert (D1 : b64_decode b64 p = Some (encodeClaims c)) by by apply b64_round_trip.
  assert (D2 : b64_decode b64 m = Some sm) by by apply b64_round_trip, Hsm.
  assert (J : (bytes_of Version ++ [46] ++ bytes_of (key_ID key) ++ [46] ++ p) ++ [46] ++ m =
    joined 46 [bytes_of Version; bytes_of (key_ID key); p; m]) by (rewrite <- !app_assoc; reflexivity).
  assert (Ej : split_on 46 (joined 46 [bytes_of Version; bytes_of (key_ID key); p; m]) = [bytes_of Version; bytes_of (key_ID key); p; m]).
  { apply split_joined; [done|]. apply Forall_cons. split; [by repeat constructor|]. apply Forall_cons. split; [by apply key_id_no_dot|].
    apply Forall_cons. split; [by apply b64_no_dot in D1|]. apply Forall_singleton. by apply b64_no_dot in D2. }
  eexists _, m. split; [done|]. rewrite J. rewrite <- len_bytes_of, bytes_of_string_of.
  - split; [|done]. rewrite <- J, !len_app. pose proof (b64_encode_length b64 (encodeClaims c) eq_refl). fold p in H.
    pose proof (b64_encode_length b64 sm eq_refl) as H2. fold m in H2. rewrite (proj1 Hsm) in H2. rewrite !len_bytes_of.
    unfold ValidKeyID, MaxKeyIDLen in Hk. destruct ((slen (key_ID key) <? 1) || (16 <? slen (key_ID key))) eqn:Eb; [done|]. b2p.
    change (slen Version) with 2. change (len [46]) with 1. unfold MaxTokenLen. lia.
  - rewrite <- J. repeat (apply Forall_app; split); try apply bytes_of_bytes; try by repeat constructor.
    + eapply Forall_impl; [exact (b64_encode_chars b64 _ HB eq_refl)|]. apply b64_char_byte.
    + eapply Forall_impl; [exact (b64_encode_chars b64 _ (proj2 Hsm) eq_refl)|]. apply b64_char_byte.
Qed.

(** Signing and verifying: the token signed for claims of the right types
    (of a bounded size) verifies under every ring that holds the signing key,
    gives back those claims and no others, and does so exactly while its times
    allow: a lifetime of at most [MaxTTL], issued and not expired but for
    [Leeway]. *)
Theorem session_round_trip (k : Keyring) (key : Key) (ks : list Key) (c : Claims) :
  Keys k = key :: ks -> ValidKeyID (key_ID key) = true -> fits claims_codec c ->
  slen (c_Player c) + slen (c_Device c) <= 96 -> 0 <= c_IssuedAtMs c < 2 ^ 62 -> 0 <= c_ExpiresAtMs c < 2 ^ 62 ->
  exists token, Sign k c = inl token /\ forall k' now c', find k' (key_ID key) = Some key -> 0 <= now < 2 ^ 62 ->
    (Verify k' token now = inl c' <-> c' = c /\ times_ok c now).
Proof.
  intros Ek Hk Hf Hl Hi He. destruct (Sign_parts k key ks c Ek Hk Hf Hl) as (token & m & Es & Hlen & E & D1 & D2).
  exists token. split; [done|]. intros k' now c' Hf2 Hn. rewrite (Verify_parts _ _ _ _ _ _ _ _ E), string_of_bytes_of, D1.
  rewrite <- (check_times_ok c now) by done. split.
  - intros (_ & _ & _ & Ec & Hf' & Ht & _). assert (c' = c) as ->; [|done].
    apply (f_equal (fun o => o ≫= decode_claims)) in Ec. cbn [mbind option_bind] in Ec.
    rewrite !decode_encode_claims in Ec by done. by injection Ec.
  - intros [-> Ht]. repeat (split; [done|]). by exists key.
Qed.

Lemma session_round_trip_witness :
  exists token, Sign vectorRing vectorClaims = inl token /\ forall k' now c', find k' "k1" = Some (mkKey "k1" (map Z.of_nat (seq 0 32))) ->
    0 <= now < 2 ^ 62 -> (Verify k' token now = inl c' <-> c' = vectorClaims /\ times_ok vectorClaims now).
Proof. apply (session_round_trip vectorRing (mkKey "k1" (map Z.of_nat (seq 0 32))) [] vectorClaims); [done|done|by repeat split|done|done|done]. Defined.

(** ** What goes unnoticed *)

Lemma split_snoc sep b c : c <> sep -> split_on sep (b ++ [c]) = match rev (split_on sep b) with x :: l => rev ((x ++ [c]) :: l) | [] => [] end.
Proof.
  intros Hc. rewrite <- (joined_split sep b) at 1. pose proof (split_parts sep b) as P. pose proof (split_nonempty sep b) as N.
  destruct (split_on sep b) as [|x l] using rev_ind; [done|]. clear IHl. apply Forall_app in P as [Pl Px]. apply Forall_cons in Px as [Px _].
  rewrite rev_app_distr. cbn [rev app]. rewrite rev_involutive.
  assert (J : joined sep (l ++ [x]) ++ [c] = joined sep (l ++ [x ++ [c]])).
  { clear N Pl. induction l as [|y l IH]; [done|]. destruct l as [|z l]; cbn in *; rewrite <- app_assoc; [done|]. cbn. by rewrite IH. }
  rewrite J. apply split_joined; [by destruct l|]. apply Forall_app. split; [done|]. apply Forall_singleton, Forall_app. split; [done|].
  by apply Forall_singleton.
Qed.

(** A token is not the only spelling of itself: with a line break behind its
    mac it still verifies, although that mac is not the unpadded base64url of
    anything. *)
Theorem session_mac_line_break (k : Keyring) (token : string) (now : Z) (c : Claims) :
  Verify k token now = inl c -> slen token < MaxTokenLen -> Verify k (token +:+ string_of [10]) now = inl c.
Proof.
  intros V Hl. destruct (Verify_four k token now c V) as (p0 & p1 & p2 & p3 & E).
  destruct (proj1 (Verify_parts _ _ _ _ _ _ _ _ E) V) as (_ & E0 & Hk & H2 & Hf & Ht & key & Hf2 & H3).
  assert (E' : split_on 46 (bytes_of (token +:+ string_of [10])) = [p0; p1; p2; p3 ++ [10]]).
  { rewrite bytes_of_app. change (bytes_of (string_of [10])) with [10]. rewrite split_snoc by done. by rewrite E. }
  apply (Verify_parts _ _ _ _ _ _ _ _ E'). split.
  - rewrite <- len_bytes_of, bytes_of_app, len_app, len_bytes_of. change (len (bytes_of (string_of [10]))) with 1. lia.
  - repeat (split; [done|]). exists key. split; [done|]. by rewrite b64_decode_break.
Qed.

Lemma session_mac_line_break_witness : Verify vectorRing (vectorToken +:+ string_of [10]) 1789200000000 = inl vectorClaims.
Proof. apply session_mac_line_break; [exact verify_vector|done]. Defined.

(** Claims whose lifetime does not fit an [int64] verify, far beyond [MaxTTL]. *)
Definition endless : Claims := mkClaims "p" "d" (- 2 ^ 63) 1000.
Definition endless_token : string := match Sign vectorRing endless with inl t => t | inr _ => "" end.

Theorem session_lifetime_overflow :
  Sign vectorRing endless = inl endless_token /\ Verify vectorRing endless_token 0 = inl endless /\
  MaxTTL < c_ExpiresAtMs endless - c_IssuedAtMs endless.
Proof. split; [by vm_compute|]. split; [by vm_compute|done]. Qed.

(** * Keyrings as text *)

Section KeyringText.
Context `{Unicode}.

(** The keys a ring may hold. *)
Definition key_ok (key : Key) : Prop :=
  ValidKeyID (key_ID key) = true /\ MinKeyBytes <= len (key_Secret key).

Lemma validate_keys_ok seen keys : validate_keys seen keys = None <->
  Forall key_ok keys /\ NoDup (map key_ID keys) /\ (forall id, id ∈ map key_ID keys -> id ∉ seen).
Proof.
  revert seen. induction keys as [|key keys IH]; intros seen; cbn [validate_keys map].
  { split; [|done]. intros _. split_and!; [done|constructor|]. by intros id ?%not_elem_of_nil. }
  rewrite Forall_cons, NoDup_cons. unfold key_ok at 1.
  destruct (ValidKeyID (key_ID key)); cbn [negb]; [|split; [done|by intros [[[? _] _] _]]].
  destruct (Z.ltb_spec (len (key_Secret key)) MinKeyBytes); [split; [done|intros [[[_ ?] _] _]; lia]|].
  destruct (bool_decide_reflect (key_ID key ∈ seen)).
  { split; [done|]. intros (_ & _ & Hs). exfalso. apply (Hs (key_ID key)); [by left|done]. }
  rewrite IH. split.
  - intros (H1 & H2 & H3). split_and!; try done.
    + intros Hin. apply (H3 _ Hin). by left.
    + intros id [->|Hin]%elem_of_cons; [done|]. intros Hs. apply (H3 _ Hin). by right.
  - intros ([_ H1] & [Hn H2] & H3). split_and!; try done.
    intros id Hin [->|Hs]%elem_of_cons; [done|]. apply (H3 id); [by right|done].
Qed.

Lemma Validate_ok k : Validate k = None <-> Keys k <> [] /\ Forall key_ok (Keys k) /\ NoDup (map key_ID (Keys k)).
Proof.
  unfold Validate. destruct (Z.eqb_spec (len (Keys k)) 0) as [E|E].
  - apply len_zero in E. rewrite E. split; [done|by intros [? _]].
  - rewrite len_zero in E. rewrite validate_keys_ok. split; [by intros (? & ? & _)|].
    intros (_ & ? & ?). split_and!; try done. intros id _. apply not_elem_of_nil.
Qed.

Lemma key_id_graphic id : ValidKeyID id = true -> Forall (fun c => key_id_byte c = true) (bytes_of id) /\ bytes_of id <> [].
Proof.
  unfold ValidKeyID. destruct (Z.ltb_spec (slen id) 1) as [|H1]; [done|]. destruct (_ || _); [done|]. intros H2. split.
  - apply Forall_forall. intros c Hc. rewrite forallb_forall in H2. by apply H2, list_elem_of_In.
  - intros E. rewrite <- len_bytes_of, E in H1. by apply H1.
Qed.

Lemma hex_lower b : Forall is_byte b -> Forall (fun c => is_lower_hex c = true) (hex_encode b).
Proof. intros HB. destruct (hex_round_trip b HB) as (_ & L & _). rewrite forallb_forall in L. apply Forall_forall. intros c Hc. by apply L, list_elem_of_In. Qed.

(** The characters of an entry. *)
Definition entry_char (c : Z) : Prop := key_id_byte c = true \/ c = 61.

Lemma entry_chars key : ValidKeyID (key_ID key) = true -> Forall is_byte (key_Secret key) -> Forall entry_char (entry_text key).
Proof.
  intros Hk HB. unfold entry_text, entry_char. apply Forall_app. split; [|apply Forall_app; split].
  - eapply Forall_impl; [apply key_id_graphic, Hk|]. auto.
  - apply Forall_singleton. auto.
  - eapply Forall_impl; [apply hex_lower, HB|]. intros c Hc. left. unfold is_lower_hex, key_id_byte in *. lia.
Qed.

Lemma entry_char_graphic c : entry_char c -> graphic c /\ c <> 44 /\ c <> 10 /\ c <> 35.
Proof. unfold entry_char, key_id_byte, graphic. intros [H0| ->]; lia. Qed.

Lemma parse_entry_text keys key : key_ok key -> Forall is_byte (key_Secret key) -> key_ID key ∉ map key_ID keys ->
  parse_entry keys (entry_text key) = inl key.
Proof.
  intros [Hk Hl] HB Hn. destruct (key_id_graphic _ Hk) as [Hg _]. unfold parse_entry, entry_text. cbn [app].
  rewrite cut_free by (eapply Forall_impl; [exact Hg|]; intros c Hc ->; done).
  rewrite !TrimSpace_graphic, string_of_bytes_of, Hk.
  2:{ eapply Forall_impl; [exact (hex_lower _ HB)|]. unfold is_lower_hex, graphic. lia. }
  2:{ eapply Forall_impl; [exact Hg|]. intros c Hc. unfold key_id_byte, graphic in *. lia. }
  cbn [negb]. destruct (hex_round_trip _ HB) as (-> & _ & _). destruct (Z.ltb_spec (len (key_Secret key)) MinKeyBytes); [lia|].
  rewrite bool_decide_eq_false_2 by done. by destruct key.
Qed.

Lemma parse_entries_text keys more : Forall key_ok more -> Forall (fun key => Forall is_byte (key_Secret key)) more ->
  NoDup (map key_ID (keys ++ more)) -> parse_entries keys (map entry_text more) = inl (keys ++ more).
Proof.
  revert keys. induction more as [|key more IH]; intros keys H1 H2 H3; [by rewrite app_nil_r|].
  apply Forall_cons in H1 as [Hk H1]. apply Forall_cons in H2 as [HB H2]. cbn [map parse_entries].
  rewrite TrimSpace_graphic by (eapply Forall_impl; [exact (entry_chars key (proj1 Hk) HB)|]; apply entry_char_graphic).
  rewrite bool_decide_eq_false_2. 2:{ unfold entry_text. by destruct (bytes_of (key_ID key)). }
  rewrite parse_entry_text; [|done|done|].
  - change (keys ++ key :: more) with (keys ++ [key] ++ more) in *. rewrite app_assoc in *. by apply IH.
  - rewrite map_app in H3. cbn in H3. apply NoDup_app in H3 as (_ & Hd & _). intros Hin. apply (Hd _ Hin). by left.
Qed.

Lemma commas_joined l : commas l = joined 44 l.
Proof. induction l as [|x [|y l] IH]; [done|done|]. cbn in *. by rewrite IH. Qed.

Lemma joined_chars (P : Z -> Prop) sep l : P sep -> Forall (Forall P) l -> Forall P (joined sep l).
Proof.
  intros Hs H1. induction H1 as [|x l Hx _ IH]; [done|]. destruct l as [|y l]; [done|].
  change (joined sep (x :: y :: l)) with (x ++ sep :: joined sep (y :: l)). apply Forall_app. split; [done|]. by apply Forall_cons.
Qed.

(** A ring's text is one line of entries. *)
Lemma ring_text_line k : Keys k <> [] -> Forall key_ok (Keys k) -> Forall (fun key => Forall is_byte (key_Secret key)) (Keys k) ->
  Forall graphic (commas (map entry_text (Keys k))) /\ free_of 10 (commas (map entry_text (Keys k))) /\
  skipped (commas (map entry_text (Keys k))) = false /\ split_on 44 (commas (map entry_text (Keys k))) = map entry_text (Keys k).
Proof.
  intros Hn Hk HB. rewrite commas_joined.
  assert (E : Forall (Forall entry_char) (map entry_text (Keys k))).
  { apply Forall_map, Forall_forall. intros key Hin. rewrite Forall_forall in Hk, HB. apply entry_chars; [by apply Hk|by apply HB]. }
  split_and!.
  - apply joined_chars; [done|]. eapply Forall_impl; [exact E|]. intros x Hx. eapply Forall_impl; [exact Hx|]. apply entry_char_graphic.
  - apply joined_chars; [done|]. eapply Forall_impl; [exact E|]. intros x Hx. eapply Forall_impl; [exact Hx|]. apply entry_char_graphic.
  - destruct (Keys k) as [|key keys]; [done|]. apply Forall_cons in Hk as [[Hk _] _]. destruct (key_id_graphic _ Hk) as [Hg Hne].
    destruct (bytes_of (key_ID key)) as [|c b] eqn:Eb; [done|]. apply Forall_cons in Hg as [Hc _].
    assert (exists t, joined 44 (map entry_text (key :: keys)) = c :: t) as [t ->].
    { assert (exists t, entry_text key = c :: t) as [t Et] by (unfold entry_text; rewrite Eb; cbn; eauto).
      cbn [map joined]. rewrite Et. destruct (map entry_text keys); cbn; eauto. }
    cbn. unfold key_id_byte in Hc. lia.
  - apply split_joined; [by destruct (Keys k)|]. eapply Forall_impl; [exact E|]. intros x Hx.
    eapply Forall_impl; [exact Hx|]. apply entry_char_graphic.
Qed.

(** A keyring is read back from its text: the entries [id=hex], separated
    by commas, of any ring that [Validate] accepts parse to that ring, in the
    same order, so the same key signs; and whatever parses is a ring that
    [Validate] accepts, with distinct identifiers. *)
Theorem keyring_round_trip (k : Keyring) :
  (Validate k = None -> Forall (fun key => Forall is_byte (key_Secret key)) (Keys k) -> ParseKeyring (ring_text k) = inl k) /\
  (forall spec, ParseKeyring spec = inl k -> Validate k = None /\ NoDup (map key_ID (Keys k))).
Proof.
  split.
  - intros V HB. pose proof (proj1 (Validate_ok k) V) as (Hn & Hk & Hd). destruct (ring_text_line k Hn Hk HB) as (Hg & Hf & Hs & Hsp).
    unfold ParseKeyring, ring_text. rewrite bytes_of_string_of by (eapply Forall_impl; [exact Hg|]; unfold graphic, is_byte; lia).
    rewrite split_free by done. cbn [parse_lines]. rewrite TrimSpace_graphic, Hs, Hsp by done.
    rewrite (parse_entries_text [] (Keys k)) by done. cbn [app parse_lines]. cbv zeta.
    destruct k as [keys]. cbn [Keys] in *. by rewrite V.
  - intros spec. unfold ParseKeyring. destruct (parse_lines _ _) as [keys|]; [|done]. cbv zeta.
    destruct (Validate (mkKeyring keys)) eqn:V; [done|]. intros [= <-]. split; [done|]. by apply Validate_ok in V as (_ & _ & ?).
Qed.

End KeyringText.

Lemma keyring_round_trip_witness :
  @ParseKeyring ascii_unicode (ring_text vectorRing) = inl vectorRing.
Proof.
  apply (proj1 (@keyring_round_trip ascii_unicode vectorRing)); [by vm_compute|].
  apply Forall_singleton. cbn. repeat constructor; lia.
Defined.
