(* ===== verification/Limit.v ===== *)
(** The rate limits of the player API (internal/intent/limit.go): a limiter
    keeps, for every key, the theoretical arrival time of its next request
    ([allow]), and forgets the keys whose time has passed when it holds too
    many.

    A token bucket per key that never forgets is its specification ([take]):
    the limiter decides every sequence of requests as the buckets do, with the
    wait until the next token ([limiter_is_token_bucket]), so that what it lets
    through in a window is bounded ([limiter_bounds]).

    A [time.Time] is its number of nanoseconds; a [time.Duration] is 64 bits
    wide, and [Time.Sub] stops at the ends of its range. *)

From S2P Require Import Prelude.

Definition limiterSweepAt : Z := 4096.

Record Rate := mkRate { Every : Z; Burst : Z }.

Record limiter := mkLimiter { l_rate : Rate; l_tat : gmap string Z }.
#[export] Instance limiter_Fields : Fields limiter := fun l => mkLimiter (l_rate l) (l_tat l).

Definition newLimiter (r : Rate) : limiter := mkLimiter r ∅.

(** [Time.Sub]. *)
Definition Sub (t u : Z) : Z := Z.max (- 2 ^ 63) (Z.min (2 ^ 63 - 1) (t - u)).

(** A rate with no bucket does not limit; a burst of zero is one. *)
Definition unlimited (r : Rate) : bool := (Burst r <? 0) || (Every r <=? 0).
Definition burst (r : Rate) : Z := if Burst r =? 0 then 1 else Burst r.
Definition tolerance (r : Rate) : Z := i64 ((burst r - 1) * Every r).

(** The keys left when the full buckets are forgotten. *)
Definition swept (m : gmap string Z) (now : Z) : gmap string Z := filter (fun kt => now < kt.2) m.

Definition allow (l : limiter) (key : string) (now : Z) : limiter * (Z * bool) :=
  exit_if unlimited (l_rate l) with (l, (0, true));
  let found := l_tat l !! key in
  let tat := match found with Some t => if t <? now then now else t | None => now end in
  let wait := i64 (Sub tat now - tolerance (l_rate l)) in
  exit_if 0 <? wait with (l, (wait, false));
  let m := if bool_decide (found = None) && (limiterSweepAt <=? Z.of_nat (size (l_tat l))) then swept (l_tat l) now else l_tat l in
  (l <| l_tat := <[key := tat + Every (l_rate l)]> m |>, (0, true)).

Definition size (l : limiter) : Z := Z.of_nat (base.size (l_tat l)).

(** ** Sequences of requests *)

Record Request := mkRequest { q_key : string; q_now : Z }.

Fixpoint decide_all (l : limiter) (qs : list Request) : list (Z * bool) :=
  match qs with
  | [] => []
  | q :: qs => let '(l, d) := allow l (q_key q) (q_now q) in d :: decide_all l qs
  end.

(** The clock does not go back. *)
Fixpoint rising (z : Z) (qs : list Request) : Prop :=
  match qs with [] => True | q :: qs => z <= q_now q /\ rising (q_now q) qs end.

(** ** The specification: token buckets

    A bucket is filled continuously, at one token every [Every] nanoseconds,
    and measured in them: a token is [Every], a full bucket [capacity]. *)

Record Bucket := mkBucket { level : Z; since : Z }.

Definition capacity (r : Rate) : Z := burst r * Every r.

Definition filled (r : Rate) (b : option Bucket) (now : Z) : Z :=
  match b with Some b => Z.min (capacity r) (level b + (now - since b)) | None => capacity r end.

(** Taking a token, or the time until there is one. *)
Definition take (r : Rate) (b : option Bucket) (now : Z) : Bucket * (Z * bool) :=
  let v := filled r b now in
  if Every r <=? v then (mkBucket (v - Every r) now, (0, true)) else (mkBucket v now, (Every r - v, false)).

Fixpoint take_all (r : Rate) (m : gmap string Bucket) (qs : list Request) : list (Z * bool) :=
  match qs with
  | [] => []
  | q :: qs => let '(b, d) := take r (m !! q_key q) (q_now q) in d :: take_all r (<[q_key q := b]> m) qs
  end.

(** ** The limiter keeps the buckets *)

(** What the limiter can tell of a key at time [now]: how far ahead its next
    request is. *)
Definition ahead (m : gmap string Z) (key : string) (now : Z) : Z :=
  match m !! key with Some t => Z.max 0 (t - now) | None => 0 end.

Definition bounded (r : Rate) : Prop := 0 < Every r /\ 0 <= Burst r /\ capacity r < 2 ^ 63.

Record keeps (r : Rate) (now : Z) (l : limiter) (m : gmap string Bucket) : Prop := {
  k_rate : l_rate l = r;
  k_level : forall key, filled r (m !! key) now = capacity r - ahead (l_tat l) key now;
  k_bounds : forall key b, m !! key = Some b -> since b <= now /\ 0 <= level b <= capacity r;
}.

Lemma burst_pos r : bounded r -> 1 <= burst r.
Proof. unfold bounded, burst. intros (_ & H & _). destruct (Z.eqb_spec (Burst r) 0); lia. Qed.

Lemma bounded_limited r : bounded r -> unlimited r = false.
Proof. unfold bounded, unlimited. intros (H1 & H2 & _). destruct (Z.ltb_spec (Burst r) 0), (Z.leb_spec (Every r) 0); (done || lia). Qed.

Lemma tolerance_eq r : bounded r -> tolerance r = capacity r - Every r.
Proof.
  intros H. pose proof (burst_pos r H) as Hb. destruct H as (H1 & _ & H3). unfold tolerance, capacity in *.
  rewrite i64_id; [lia|]. unfold in_i64. nia.
Qed.

Lemma filled_bounds r ob now : bounded r -> (forall b, ob = Some b -> since b <= now /\ 0 <= level b <= capacity r) ->
  0 <= filled r ob now <= capacity r.
Proof.
  intros H Hb. pose proof (burst_pos r H). assert (0 <= capacity r) by (destruct H; unfold capacity; nia).
  unfold filled. destruct ob as [b|]; [|lia]. destruct (Hb b eq_refl). lia.
Qed.

(** Time passes. *)
Lemma keeps_later r z now l m : z <= now -> bounded r -> keeps r z l m -> keeps r now l m.
Proof.
  intros Hz Hr [H1 H2 H3]. split; [done| |].
  - intros key. specialize (H2 key). unfold filled, ahead in *. destruct (m !! key) as [b|] eqn:E.
    + destruct (H3 key b E). destruct (l_tat l !! key); lia.
    + destruct (l_tat l !! key); lia.
  - intros key b E. destruct (H3 key b E). lia.
Qed.

(** Forgetting full buckets. *)
Lemma ahead_swept m key now : ahead (swept m now) key now = ahead m key now.
Proof.
  unfold ahead, swept. rewrite map_lookup_filter. destruct (m !! key) as [t|]; [|done]. simpl.
  case_guard; simpl in *; lia.
Qed.

Lemma ahead_insert m k t key now : ahead (<[k := t]> m) key now = if bool_decide (k = key) then Z.max 0 (t - now) else ahead m key now.
Proof. unfold ahead. rewrite lookup_insert. case_decide; case_bool_decide; (done || congruence). Qed.

(** One request: the same decision, and the buckets are kept. *)
Lemma allow_takes r now l m key b d : bounded r -> keeps r now l m -> take r (m !! key) now = (b, d) ->
  exists l', allow l key now = (l', d) /\ keeps r now l' (<[key := b]> m).
Proof.
  intros Hr Hk Ht. pose proof (burst_pos r Hr) as Hb. pose proof (tolerance_eq r Hr) as Htol.
  destruct Hk as [H1 H2 H3]. pose proof (filled_bounds r (m !! key) now Hr (H3 key)) as Hf. specialize (H2 key) as Hkey.
  unfold allow. rewrite H1, (bounded_limited r Hr), Htol. cbv zeta.
  set (tat := match l_tat l !! key with Some t => if t <? now then now else t | None => now end).
  assert (Etat : tat = now + ahead (l_tat l) key now).
  { unfold tat, ahead. destruct (l_tat l !! key) as [t|]; [|lia]. destruct (Z.ltb_spec t now); lia. }
  pose proof Hr as (He & _ & Hcap). assert (Hec : Every r <= capacity r) by (unfold capacity; nia).
  assert (Ew : i64 (Sub tat now - (capacity r - Every r)) = Every r - filled r (m !! key) now).
  { unfold Sub. rewrite Z.min_r, Z.max_r by lia. rewrite i64_id; [lia|]. unfold in_i64. lia. }
  rewrite Ew. unfold take in Ht. destruct (Z.leb_spec (Every r) (filled r (m !! key) now)) as [Hle|Hgt].
  - injection Ht as <- <-. rewrite (proj2 (Z.ltb_ge _ _)) by lia. eexists. split; [reflexivity|]. split; [done| |].
    + intros k. simpl. rewrite ahead_insert, lookup_insert. case_decide as Ek; case_bool_decide; try congruence.
      * simpl. rewrite Etat. lia.
      * rewrite H2. case_goal; [by rewrite ahead_swept|done].
    + intros k b'. rewrite lookup_insert. case_decide; [|apply H3]. intros [= <-]. simpl. lia.
  - injection Ht as <- <-. rewrite (proj2 (Z.ltb_lt _ _)) by lia. eexists. split; [reflexivity|]. split; [done| |].
    + intros k. rewrite lookup_insert. case_decide as Ek; [|apply H2]. subst k. simpl. lia.
    + intros k b'. rewrite lookup_insert. case_decide; [|apply H3]. intros [= <-]. simpl. lia.
Qed.

Lemma decide_takes r z l m qs : bounded r -> keeps r z l m -> rising z qs -> decide_all l qs = take_all r m qs.
Proof.
  intros Hr. revert z l m. induction qs as [|q qs IH]; intros z l m Hk Hq; [done|]. destruct Hq as [Hz Hq]. simpl.
  destruct (take r (m !! q_key q) (q_now q)) as [b d] eqn:Et.
  destruct (allow_takes r (q_now q) l m (q_key q) b d Hr (keeps_later _ _ _ _ _ Hz Hr Hk) Et) as (l' & -> & Hk').
  f_equal. by apply (IH (q_now q)).
Qed.

Lemma keeps_new r z : bounded r -> keeps r z (newLimiter r) ∅.
Proof. intros Hr. split; [done| |]. - intros key. unfold ahead. simpl. rewrite !lookup_empty. simpl. lia. - by intros key b. Qed.

(** C25. The limiter is a token bucket per key: whatever requests come, with a
    clock that does not go back, it answers each as a bucket of [Burst] tokens,
    refilled at one token every [Every], would: the request is allowed exactly
    when a token is left, and otherwise told the time until there is one.
    Forgetting keys changes no answer, and no arithmetic overflows as long as
    a full bucket's time fits a Duration. *)
Theorem limiter_is_token_bucket r z qs : 0 < Every r -> 0 <= Burst r -> capacity r < 2 ^ 63 -> rising z qs ->
  decide_all (newLimiter r) qs = take_all r ∅ qs.
Proof. intros H1 H2 H3. apply decide_takes; [done|]. by apply keeps_new. Qed.

(** ** What gets through *)

(** The requests for [key] that are let through. *)
Fixpoint passed (key : string) (qs : list Request) (ds : list (Z * bool)) : Z :=
  match qs, ds with
  | q :: qs, d :: ds => (if bool_decide (q_key q = key) && d.2 then 1 else 0) + passed key qs ds
  | _, _ => 0
  end.

Fixpoint last_time (z : Z) (qs : list Request) : Z := match qs with [] => z | q :: qs => last_time (q_now q) qs end.

Lemma last_time_le z qs : rising z qs -> z <= last_time z qs.
Proof. revert z. induction qs as [|q qs IH]; intros z H; simpl; [lia|]. destruct H as [Hz H]. specialize (IH _ H). lia. Qed.

(** Tokens are only lost by letting requests through, and gained with time. *)
Lemma tokens_spent r key z m qs : bounded r -> (forall k b, m !! k = Some b -> since b <= z /\ 0 <= level b <= capacity r) -> rising z qs ->
  Every r * passed key qs (take_all r m qs) <= filled r (m !! key) z + (last_time z qs - z).
Proof.
  intros Hr. revert z m. induction qs as [|q qs IH]; intros z m Hm Hq; simpl.
  { destruct (filled_bounds r (m !! key) z Hr (Hm key)). lia. }
  destruct Hq as [Hz Hq]. unfold take. set (v := filled r (m !! q_key q) (q_now q)).
  assert (Hv : 0 <= v <= capacity r) by (apply filled_bounds; [done|]; intros b E; destruct (Hm _ b E); lia).
  set (b := if Every r <=? v then mkBucket (v - Every r) (q_now q) else mkBucket v (q_now q)).
  assert (Hb : since b = q_now q /\ 0 <= level b <= capacity r /\ level b = v - (if Every r <=? v then Every r else 0)).
  { unfold b. destruct Hr as (He & _ & _). destruct (Z.leb_spec (Every r) v); simpl; lia. }
  destruct Hb as (Hb1 & Hb2 & Hb3).
  specialize (IH (q_now q) (<[q_key q := b]> m)).
  assert (Hm' : forall k b', <[q_key q := b]> m !! k = Some b' -> since b' <= q_now q /\ 0 <= level b' <= capacity r).
  { intros k b'. rewrite lookup_insert. case_decide; [by intros [= <-]; lia|]. intros Eb. destruct (Hm k b' Eb). lia. }
  specialize (IH Hm' Hq). rewrite lookup_insert in IH. fold v.
  replace (if Every r <=? v then (mkBucket (v - Every r) (q_now q), (0, true)) else (mkBucket v (q_now q), (Every r - v, false)))
    with (b, if Every r <=? v then (0, true) else (Every r - v, false)) by (unfold b; by destruct (Every r <=? v)).
  cbn [passed]. case_decide as Ek.
  - rewrite bool_decide_eq_true_2 by done. cbn [filled] in IH. rewrite Hb1, Hb3 in IH. subst key.
    assert (v <= filled r (m !! q_key q) z + (q_now q - z)).
    { unfold v, filled. destruct (m !! q_key q); lia. }
    destruct (Every r <=? v); simpl in *; lia.
  - rewrite bool_decide_eq_false_2 by done. simpl. 
    assert (filled r (m !! key) (q_now q) <= filled r (m !! key) z + (q_now q - z)).
    { unfold filled. destruct (m !! key); lia. }
    lia.
Qed.

Fixpoint buckets (r : Rate) (m : gmap string Bucket) (qs : list Request) : gmap string Bucket :=
  match qs with [] => m | q :: qs => buckets r (<[q_key q := (take r (m !! q_key q) (q_now q)).1]> m) qs end.

Lemma take_all_app r m qs qs' : take_all r m (qs ++ qs') = take_all r m qs ++ take_all r (buckets r m qs) qs'.
Proof. revert m. induction qs as [|q qs IH]; intros m; [done|]. simpl. destruct (take r _ _) as [b d]. simpl. by rewrite IH. Qed.

Lemma take_bounds r ob now : bounded r -> (forall b, ob = Some b -> since b <= now /\ 0 <= level b <= capacity r) ->
  since (take r ob now).1 = now /\ 0 <= level (take r ob now).1 <= capacity r.
Proof.
  intros Hr Hb. pose proof (filled_bounds r ob now Hr Hb). destruct Hr as (He & _ & _). unfold take.
  destruct (Z.leb_spec (Every r) (filled r ob now)); simpl; lia.
Qed.

Lemma buckets_bounds r z m qs : bounded r -> (forall k b, m !! k = Some b -> since b <= z /\ 0 <= level b <= capacity r) -> rising z qs ->
  forall k b, buckets r m qs !! k = Some b -> since b <= last_time z qs /\ 0 <= level b <= capacity r.
Proof.
  intros Hr. revert z m. induction qs as [|q qs IH]; intros z m Hm Hq; [done|]. destruct Hq as [Hz Hq]. simpl. apply IH; [|done].
  intros k b. rewrite lookup_insert. case_decide; [|intros E; destruct (Hm k b E); lia]. intros [= <-].
  destruct (take_bounds r (m !! q_key q) (q_now q) Hr) as [H1 H2]; [|by rewrite H1]. intros b' E. destruct (Hm _ b' E). lia.
Qed.

Lemma rising_app z qs qs' : rising z (qs ++ qs') <-> rising z qs /\ rising (last_time z qs) qs'.
Proof. revert z. induction qs as [|q qs IH]; intros z; simpl; [tauto|]. rewrite IH. tauto. Qed.

Lemma take_all_length r m qs : length (take_all r m qs) = length qs.
Proof. revert m. induction qs as [|q qs IH]; intros m; [done|]. simpl. destruct (take r _ _). simpl. by rewrite IH. Qed.

(** C36. What a limiter lets through is bounded: of the requests for one key in
    any window of [w] nanoseconds, whatever was asked before and whatever is
    asked for other keys, at most [Burst] and one for every [Every] in the
    window are allowed; and every wait it gives is between one nanosecond and
    [Every]. *)
Theorem limiter_bounds r z key before window w : 0 < Every r -> 0 <= Burst r -> capacity r < 2 ^ 63 ->
  rising z (before ++ window) ->
  (forall q, q ∈ window -> q_now q <= match window with [] => 0 | q0 :: _ => q_now q0 end + w) -> 0 <= w ->
  let ds := decide_all (newLimiter r) (before ++ window) in
  passed key window (drop (length before) ds) <= burst r + w / Every r /\
  (forall d, d ∈ ds -> d = (0, true) \/ d.2 = false /\ 0 < d.1 <= Every r).
Proof.
  intros H1 H2 H3 Hq Hw Hw0 ds. assert (Hr : bounded r) by done.
  assert (Eds : ds = take_all r ∅ (before ++ window)) by (by apply (decide_takes r z); [|apply keeps_new|]).
  rewrite Eds. split.
  - rewrite take_all_app, drop_app_length' by by rewrite take_all_length. destruct window as [|q0 window].
    { simpl. pose proof (burst_pos r Hr). assert (0 <= w / Every r) by (by apply Z.div_pos). lia. }
    apply rising_app in Hq as [Hb Hq]. set (m := buckets r ∅ before).
    assert (Hm := buckets_bounds r z ∅ before Hr (fun k b (E : ∅ !! k = Some b) => ltac:(by rewrite lookup_empty in E)) Hb). fold m in Hm.
    pose proof Hq as [Hz _].
    assert (Hm0 : forall k b, m !! k = Some b -> since b <= q_now q0 /\ 0 <= level b <= capacity r).
    { intros k b E. destruct (Hm k b E). lia. }
    assert (Hq0 : rising (q_now q0) (q0 :: window)) by (split; [lia|apply Hq]).
    pose proof (tokens_spent r key (q_now q0) m (q0 :: window) Hr Hm0 Hq0) as Hs.
    destruct (filled_bounds r (m !! key) (q_now q0) Hr (Hm0 key)) as [_ Hf].
    assert (Hl : last_time (q_now q0) (q0 :: window) <= q_now q0 + w).
    { clear -Hw Hw0. set (z := q_now q0) in *. assert (forall qs z', z' <= z + w -> (forall q, q ∈ qs -> q_now q <= z + w) -> last_time z' qs <= z + w).
      { induction qs as [|q qs IH]; intros z' Hz' H; simpl; [done|]. apply IH; [apply H; by left|]. intros q' Hq'. apply H. by right. }
      apply H; [lia|done]. }
    unfold capacity in Hf. set (p := passed key (q0 :: window) (take_all r m (q0 :: window))) in *.
    assert (Every r * (p - burst r) <= w) by lia. assert (p - burst r <= w / Every r) by (apply Z.div_le_lower_bound; lia). lia.
  - assert (Hm : forall k b, (∅ : gmap string Bucket) !! k = Some b -> since b <= z /\ 0 <= level b <= capacity r) by (intros k b E; by rewrite lookup_empty in E).
    clear -Hr Hq Hm. revert z Hq Hm. generalize (∅ : gmap string Bucket) as m. induction (before ++ window) as [|q qs IH]; intros m z Hq Hm d Hd; simpl in Hd.
    { by apply not_elem_of_nil in Hd. }
    destruct Hq as [Hz Hq].
    assert (Hk : forall b, m !! q_key q = Some b -> since b <= q_now q /\ 0 <= level b <= capacity r).
    { intros b E. destruct (Hm _ b E). lia. }
    pose proof (filled_bounds r (m !! q_key q) (q_now q) Hr Hk) as Hf. pose proof (take_bounds r (m !! q_key q) (q_now q) Hr Hk) as Ht.
    unfold take in *. destruct (Z.leb_spec (Every r) (filled r (m !! q_key q) (q_now q))); apply elem_of_cons in Hd as [->|Hd];
      [by left| |right; simpl; lia|]; (refine (IH _ (q_now q) Hq _ d Hd); intros k b; rewrite lookup_insert; case_decide;
        [intros [= <-]; simpl in *; lia|intros E; destruct (Hm k b E); lia]).
Qed.

(** ** A sample *)

(** The rate of the intents: one token every 100 ms, twenty at most, here two. *)
Definition sample_rate : Rate := mkRate 100000000 2.
Definition sample_before : list Request := [mkRequest "a" 0; mkRequest "b" 5].
Definition sample_window : list Request :=
  [mkRequest "a" 10; mkRequest "a" 20; mkRequest "b" 30; mkRequest "a" 99999999; mkRequest "a" 100000000; mkRequest "a" 200000000].

Example sample_decisions : decide_all (newLimiter sample_rate) (sample_before ++ sample_window) =
  [(0, true); (0, true); (0, true); (99999980, false); (0, true); (1, false); (0, true); (0, true)].
Proof. vm_compute. reflexivity. Qed.

Lemma limiter_is_token_bucket_witness :
  decide_all (newLimiter sample_rate) (sample_before ++ sample_window) = take_all sample_rate ∅ (sample_before ++ sample_window).
Proof. apply (limiter_is_token_bucket sample_rate 0); simpl; unfold capacity, burst; simpl; lia. Defined.

Lemma limiter_bounds_witness :
  passed "a" sample_window (drop 2 (decide_all (newLimiter sample_rate) (sample_before ++ sample_window))) <= 2 + 199999990 / 100000000.
Proof.
  refine (proj1 (limiter_bounds sample_rate 0 "a" sample_before sample_window 199999990 _ _ _ _ _ _)); try (simpl; unfold capacity, burst; simpl; lia).
  intros q Hq. unfold sample_window in Hq. repeat (apply elem_of_cons in Hq as [->|Hq]; [vm_compute; done|]). by apply not_elem_of_nil in Hq.
Defined.
