(* ===== verification/Wire.v ===== *)
(** The bodies of the player API (internal/intent/wire.go): every request and
    response body as a record, with the codec its struct tags give it.

    The theorem: a body that fits its Go type is read back from the bytes that
    are sent ([bodies_round_trip]), every field of it written, lists as lists
    and never null. *)

From S2P Require Import Prelude GoStd Json Unmarshal.

(** The conversion to a 32-bit integer. *)
Definition i32 (z : Z) : Z := (z + 2 ^ 31) mod 2 ^ 32 - 2 ^ 31.
Definition in_i32 (z : Z) : Prop := - 2 ^ 31 <= z < 2 ^ 31.

Lemma i32_id z : in_i32 z -> i32 z = z.
Proof. unfold in_i32, i32. intros. rewrite Z.mod_small; lia. Qed.

#[export] Instance int32_lawful : Lawful (sint 32).
Proof. by apply sint_lawful. Qed.

(** * The types *)

Record ErrorBody := mkErrorBody {
  eb_code : string;
  eb_message : string;
  eb_retryable : bool;
}.
Definition ErrorBody_codec : Codec ErrorBody :=
  struct (field "code" text (field "message" text (field "retryable" boolean no_fields)))
    (fun '(x1, (x2, (x3, _))) =>
      mkErrorBody x1 x2 x3)
    (fun v => (eb_code v, (eb_message v, (eb_retryable v, tt)))).

Record SessionRequest := mkSessionRequest {
  sq_device_id : string;
  sq_device_secret : string;
  sq_jurisdiction : string;
  sq_age : Z;
}.
Definition SessionRequest_codec : Codec SessionRequest :=
  struct (field "device_id" text (field "device_secret" text (field "jurisdiction" text (field "age" (sint 32)
    no_fields))))
    (fun '(x1, (x2, (x3, (x4, _)))) =>
      mkSessionRequest x1 x2 x3 x4)
    (fun v => (sq_device_id v, (sq_device_secret v, (sq_jurisdiction v, (sq_age v, tt))))).

Record SessionResponse := mkSessionResponse {
  sr_replayed : bool;
  sr_slot : Z;
  sr_next_seq : Z;
  sr_player_id : string;
  sr_new_player : bool;
  sr_session_token : string;
  sr_issued_at_ms : Z;
  sr_expires_at_ms : Z;
  sr_jurisdiction : string;
  sr_age : Z;
}.
#[export] Instance SessionResponse_Fields : Fields SessionResponse := fun v =>
  mkSessionResponse (sr_replayed v) (sr_slot v) (sr_next_seq v) (sr_player_id v) (sr_new_player v)
    (sr_session_token v) (sr_issued_at_ms v) (sr_expires_at_ms v) (sr_jurisdiction v) (sr_age v).
Definition SessionResponse_codec : Codec SessionResponse :=
  struct (field "replayed" boolean (field "slot" (sint 64) (field "next_seq" (sint 64) (field "player_id" text
    (field "new_player" boolean (field "session_token" text (field "issued_at_ms" (sint 64)
    (field "expires_at_ms" (sint 64) (field "jurisdiction" text (field "age" (sint 32) no_fields))))))))))
    (fun '(x1, (x2, (x3, (x4, (x5, (x6, (x7, (x8, (x9, (x10, _)))))))))) =>
      mkSessionResponse x1 x2 x3 x4 x5 x6 x7 x8 x9 x10)
    (fun v => (sr_replayed v, (sr_slot v, (sr_next_seq v, (sr_player_id v, (sr_new_player v, (sr_session_token v,
      (sr_issued_at_ms v, (sr_expires_at_ms v, (sr_jurisdiction v, (sr_age v, tt))))))))))).

Record SeqRequest := mkSeqRequest {
  qr_seq : Z;
}.
Definition SeqRequest_codec : Codec SeqRequest :=
  struct (field "seq" (sint 64) no_fields)
    (fun '(x1, _) =>
      mkSeqRequest x1)
    (fun v => (qr_seq v, tt)).

Record MoveRequest := mkMoveRequest {
  mr_seq : Z;
  mr_move_index : Z;
  mr_kind : string;
  mr_column : Z;
}.
Definition MoveRequest_codec : Codec MoveRequest :=
  struct (field "seq" (sint 64) (field "move_index" (sint 32) (field "kind" text (field "column" (sint 32) no_fields))))
    (fun '(x1, (x2, (x3, (x4, _)))) =>
      mkMoveRequest x1 x2 x3 x4)
    (fun v => (mr_seq v, (mr_move_index v, (mr_kind v, (mr_column v, tt))))).

Record TournamentSummary := mkTournamentSummary {
  ts_tournament_id : string;
  ts_status : string;
  ts_game : string;
  ts_rounds : Z;
  ts_round_time_limit_ms : Z;
  ts_entry_fee : Z;
  ts_rake_bps : Z;
  ts_prize_bps : list Z;
  ts_min_entrants : Z;
  ts_max_entrants : Z;
  ts_min_age : Z;
  ts_max_score : Z;
  ts_entrants : Z;
  ts_projected_pool : Z;
  ts_joined : bool;
  ts_eligible : bool;
  ts_rounds_finished : Z;
  ts_round_in_play : Z;
  ts_next_round : Z;
  ts_created_slot : Z;
}.
Definition TournamentSummary_codec : Codec TournamentSummary :=
  struct (field "tournament_id" text (field "status" text (field "game" text (field "rounds" (sint 32)
    (field "round_time_limit_ms" (sint 64) (field "entry_fee" (sint 64) (field "rake_bps" (sint 32)
    (field "prize_bps" (slice (sint 32)) (field "min_entrants" (sint 32) (field "max_entrants" (sint 32)
    (field "min_age" (sint 32) (field "max_score" (sint 64) (field "entrants" (sint 32)
    (field "projected_pool" (sint 64) (field "joined" boolean (field "eligible" boolean
    (field "rounds_finished" (sint 32) (field "round_in_play" (sint 32) (field "next_round" (sint 32)
    (field "created_slot" (sint 64) no_fields))))))))))))))))))))
    (fun '(x1, (x2, (x3, (x4, (x5, (x6, (x7, (x8, (x9, (x10, (x11, (x12, (x13, (x14, (x15, (x16, (x17, (x18, (x19, (x20,
      _)))))))))))))))))))) =>
      mkTournamentSummary x1 x2 x3 x4 x5 x6 x7 x8 x9 x10 x11 x12 x13 x14 x15 x16 x17 x18 x19 x20)
    (fun v => (ts_tournament_id v, (ts_status v, (ts_game v, (ts_rounds v, (ts_round_time_limit_ms v, (ts_entry_fee v,
      (ts_rake_bps v, (ts_prize_bps v, (ts_min_entrants v, (ts_max_entrants v, (ts_min_age v, (ts_max_score v,
      (ts_entrants v, (ts_projected_pool v, (ts_joined v, (ts_eligible v, (ts_rounds_finished v, (ts_round_in_play v,
      (ts_next_round v, (ts_created_slot v, tt))))))))))))))))))))).

Record TournamentListResponse := mkTournamentListResponse {
  tl_applied_slot : Z;
  tl_offset : Z;
  tl_limit : Z;
  tl_total : Z;
  tl_tournaments : list TournamentSummary;
}.
Definition TournamentListResponse_codec : Codec TournamentListResponse :=
  struct (field "applied_slot" (sint 64) (field "offset" (sint 32) (field "limit" (sint 32) (field "total" (sint 32)
    (field "tournaments" (slice TournamentSummary_codec) no_fields)))))
    (fun '(x1, (x2, (x3, (x4, (x5, _))))) =>
      mkTournamentListResponse x1 x2 x3 x4 x5)
    (fun v => (tl_applied_slot v, (tl_offset v, (tl_limit v, (tl_total v, (tl_tournaments v, tt)))))).

Record JoinResponse := mkJoinResponse {
  jr_replayed : bool;
  jr_slot : Z;
  jr_next_seq : Z;
  jr_tournament_id : string;
  jr_join_seq : Z;
  jr_entry_fee : Z;
  jr_rounds : Z;
}.
#[export] Instance JoinResponse_Fields : Fields JoinResponse := fun v =>
  mkJoinResponse (jr_replayed v) (jr_slot v) (jr_next_seq v) (jr_tournament_id v) (jr_join_seq v) (jr_entry_fee v)
    (jr_rounds v).
Definition JoinResponse_codec : Codec JoinResponse :=
  struct (field "replayed" boolean (field "slot" (sint 64) (field "next_seq" (sint 64) (field "tournament_id" text
    (field "join_seq" (sint 32) (field "entry_fee" (sint 64) (field "rounds" (sint 32) no_fields)))))))
    (fun '(x1, (x2, (x3, (x4, (x5, (x6, (x7, _))))))) =>
      mkJoinResponse x1 x2 x3 x4 x5 x6 x7)
    (fun v => (jr_replayed v, (jr_slot v, (jr_next_seq v, (jr_tournament_id v, (jr_join_seq v, (jr_entry_fee v, (jr_rounds v,
      tt)))))))).

Record ColumnView := mkColumnView {
  cv_cards : list string;
}.
Definition ColumnView_codec : Codec ColumnView :=
  struct (field "cards" (slice text) no_fields)
    (fun '(x1, _) =>
      mkColumnView x1)
    (fun v => (cv_cards v, tt)).

Record MoveView := mkMoveView {
  lm_kind : string;
  lm_column : Z;
  lm_card : string;
}.
Definition MoveView_codec : Codec MoveView :=
  struct (field "kind" text (field "column" (sint 32) (field "card" text no_fields)))
    (fun '(x1, (x2, (x3, _))) =>
      mkMoveView x1 x2 x3)
    (fun v => (lm_kind v, (lm_column v, (lm_card v, tt)))).

Record RoundView := mkRoundView {
  rv_tournament_id : string;
  rv_round : Z;
  rv_status : string;
  rv_finish_reason : string;
  rv_move_index : Z;
  rv_columns : list ColumnView;
  rv_waste_top : string;
  rv_waste_count : Z;
  rv_stock_count : Z;
  rv_cleared : Z;
  rv_score : Z;
  rv_playable_columns : list Z;
  rv_can_draw : bool;
  rv_last_move : MoveView;
  rv_started_at_ms : Z;
  rv_deadline_ms : Z;
  rv_commitment : string;
  rv_seed : string;
}.
#[export] Instance RoundView_Fields : Fields RoundView := fun v =>
  mkRoundView (rv_tournament_id v) (rv_round v) (rv_status v) (rv_finish_reason v) (rv_move_index v) (rv_columns v)
    (rv_waste_top v) (rv_waste_count v) (rv_stock_count v) (rv_cleared v) (rv_score v) (rv_playable_columns v)
    (rv_can_draw v) (rv_last_move v) (rv_started_at_ms v) (rv_deadline_ms v) (rv_commitment v) (rv_seed v).
Definition RoundView_codec : Codec RoundView :=
  struct (field "tournament_id" text (field "round" (sint 32) (field "status" text (field "finish_reason" text
    (field "move_index" (sint 32) (field "columns" (slice ColumnView_codec) (field "waste_top" text
    (field "waste_count" (sint 32) (field "stock_count" (sint 32) (field "cleared" (sint 32) (field "score" (sint 64)
    (field "playable_columns" (slice (sint 32)) (field "can_draw" boolean (field "last_move" MoveView_codec
    (field "started_at_ms" (sint 64) (field "deadline_ms" (sint 64) (field "commitment" text (field "seed" text
    no_fields))))))))))))))))))
    (fun '(x1, (x2, (x3, (x4, (x5, (x6, (x7, (x8, (x9, (x10, (x11, (x12, (x13, (x14, (x15, (x16, (x17, (x18,
      _)))))))))))))))))) =>
      mkRoundView x1 x2 x3 x4 x5 x6 x7 x8 x9 x10 x11 x12 x13 x14 x15 x16 x17 x18)
    (fun v => (rv_tournament_id v, (rv_round v, (rv_status v, (rv_finish_reason v, (rv_move_index v, (rv_columns v,
      (rv_waste_top v, (rv_waste_count v, (rv_stock_count v, (rv_cleared v, (rv_score v, (rv_playable_columns v,
      (rv_can_draw v, (rv_last_move v, (rv_started_at_ms v, (rv_deadline_ms v, (rv_commitment v, (rv_seed v,
      tt))))))))))))))))))).

Record RoundResponse := mkRoundResponse {
  ro_replayed : bool;
  ro_slot : Z;
  ro_next_seq : Z;
  ro_round : RoundView;
}.
#[export] Instance RoundResponse_Fields : Fields RoundResponse := fun v =>
  mkRoundResponse (ro_replayed v) (ro_slot v) (ro_next_seq v) (ro_round v).
Definition RoundResponse_codec : Codec RoundResponse :=
  struct (field "replayed" boolean (field "slot" (sint 64) (field "next_seq" (sint 64) (field "round" RoundView_codec
    no_fields))))
    (fun '(x1, (x2, (x3, (x4, _)))) =>
      mkRoundResponse x1 x2 x3 x4)
    (fun v => (ro_replayed v, (ro_slot v, (ro_next_seq v, (ro_round v, tt))))).

Record LeaderboardRow := mkLeaderboardRow {
  lr_place : Z;
  lr_player_id : string;
  lr_total_score : Z;
  lr_rounds_finished : Z;
  lr_scored : bool;
  lr_amount : Z;
  lr_withheld : bool;
  lr_claimed : bool;
}.
Definition LeaderboardRow_codec : Codec LeaderboardRow :=
  struct (field "place" (sint 32) (field "player_id" text (field "total_score" (sint 64) (field "rounds_finished" (sint 32)
    (field "scored" boolean (field "amount" (sint 64) (field "withheld" boolean (field "claimed" boolean
    no_fields))))))))
    (fun '(x1, (x2, (x3, (x4, (x5, (x6, (x7, (x8, _)))))))) =>
      mkLeaderboardRow x1 x2 x3 x4 x5 x6 x7 x8)
    (fun v => (lr_place v, (lr_player_id v, (lr_total_score v, (lr_rounds_finished v, (lr_scored v, (lr_amount v,
      (lr_withheld v, (lr_claimed v, tt))))))))).

Record LeaderboardResponse := mkLeaderboardResponse {
  lb_tournament_id : string;
  lb_status : string;
  lb_final : bool;
  lb_applied_slot : Z;
  lb_entrants : Z;
  lb_offset : Z;
  lb_limit : Z;
  lb_rows : list LeaderboardRow;
  lb_me : LeaderboardRow;
}.
Definition LeaderboardResponse_codec : Codec LeaderboardResponse :=
  struct (field "tournament_id" text (field "status" text (field "final" boolean (field "applied_slot" (sint 64)
    (field "entrants" (sint 32) (field "offset" (sint 32) (field "limit" (sint 32)
    (field "rows" (slice LeaderboardRow_codec) (field "me" LeaderboardRow_codec no_fields)))))))))
    (fun '(x1, (x2, (x3, (x4, (x5, (x6, (x7, (x8, (x9, _))))))))) =>
      mkLeaderboardResponse x1 x2 x3 x4 x5 x6 x7 x8 x9)
    (fun v => (lb_tournament_id v, (lb_status v, (lb_final v, (lb_applied_slot v, (lb_entrants v, (lb_offset v, (lb_limit v,
      (lb_rows v, (lb_me v, tt)))))))))).

Record ClaimResponse := mkClaimResponse {
  cr_replayed : bool;
  cr_slot : Z;
  cr_next_seq : Z;
  cr_tournament_id : string;
  cr_amount : Z;
  cr_posting_key : string;
}.
#[export] Instance ClaimResponse_Fields : Fields ClaimResponse := fun v =>
  mkClaimResponse (cr_replayed v) (cr_slot v) (cr_next_seq v) (cr_tournament_id v) (cr_amount v) (cr_posting_key v).
Definition ClaimResponse_codec : Codec ClaimResponse :=
  struct (field "replayed" boolean (field "slot" (sint 64) (field "next_seq" (sint 64) (field "tournament_id" text
    (field "amount" (sint 64) (field "posting_key" text no_fields))))))
    (fun '(x1, (x2, (x3, (x4, (x5, (x6, _)))))) =>
      mkClaimResponse x1 x2 x3 x4 x5 x6)
    (fun v => (cr_replayed v, (cr_slot v, (cr_next_seq v, (cr_tournament_id v, (cr_amount v, (cr_posting_key v, tt))))))).

Record EventItem := mkEventItem {
  ei_slot : Z;
  ei_type : string;
  ei_tournament_id : string;
  ei_player_id : string;
  ei_round : Z;
  ei_status : string;
  ei_score : Z;
  ei_total_score : Z;
  ei_rounds_finished : Z;
  ei_amount : Z;
  ei_time_ms : Z;
}.
Definition EventItem_codec : Codec EventItem :=
  struct (field "slot" (sint 64) (field "type" text (field "tournament_id" text (field "player_id" text
    (field "round" (sint 32) (field "status" text (field "score" (sint 64) (field "total_score" (sint 64)
    (field "rounds_finished" (sint 32) (field "amount" (sint 64) (field "time_ms" (sint 64) no_fields)))))))))))
    (fun '(x1, (x2, (x3, (x4, (x5, (x6, (x7, (x8, (x9, (x10, (x11, _))))))))))) =>
      mkEventItem x1 x2 x3 x4 x5 x6 x7 x8 x9 x10 x11)
    (fun v => (ei_slot v, (ei_type v, (ei_tournament_id v, (ei_player_id v, (ei_round v, (ei_status v, (ei_score v,
      (ei_total_score v, (ei_rounds_finished v, (ei_amount v, (ei_time_ms v, tt)))))))))))).

Record EventsResponse := mkEventsResponse {
  es_cursor : Z;
  es_applied_slot : Z;
  es_has_more : bool;
  es_events : list EventItem;
}.
#[export] Instance EventsResponse_Fields : Fields EventsResponse := fun v =>
  mkEventsResponse (es_cursor v) (es_applied_slot v) (es_has_more v) (es_events v).
Definition EventsResponse_codec : Codec EventsResponse :=
  struct (field "cursor" (sint 64) (field "applied_slot" (sint 64) (field "has_more" boolean
    (field "events" (slice EventItem_codec) no_fields))))
    (fun '(x1, (x2, (x3, (x4, _)))) =>
      mkEventsResponse x1 x2 x3 x4)
    (fun v => (es_cursor v, (es_applied_slot v, (es_has_more v, (es_events v, tt))))).

(** * Bodies *)

(** What a handler writes. *)
Inductive Body :=
| BError (v : ErrorBody)
| BSession (v : SessionResponse)
| BTournaments (v : TournamentListResponse)
| BJoin (v : JoinResponse)
| BRound (v : RoundResponse)
| BLeaderboard (v : LeaderboardResponse)
| BClaim (v : ClaimResponse)
| BEvents (v : EventsResponse).

Definition body_json (b : Body) : json :=
  match b with
  | BError v => to_json ErrorBody_codec v
  | BSession v => to_json SessionResponse_codec v
  | BTournaments v => to_json TournamentListResponse_codec v
  | BJoin v => to_json JoinResponse_codec v
  | BRound v => to_json RoundResponse_codec v
  | BLeaderboard v => to_json LeaderboardResponse_codec v
  | BClaim v => to_json ClaimResponse_codec v
  | BEvents v => to_json EventsResponse_codec v
  end.

(** What [json.Marshal] makes of it. *)
Definition body_bytes (b : Body) : bytes := marshal (body_json b).

(** The values of the Go types with UTF-8 text. *)
Definition body_fits (b : Body) : Prop :=
  match b with
  | BError v => fits ErrorBody_codec v
  | BSession v => fits SessionResponse_codec v
  | BTournaments v => fits TournamentListResponse_codec v
  | BJoin v => fits JoinResponse_codec v
  | BRound v => fits RoundResponse_codec v
  | BLeaderboard v => fits LeaderboardResponse_codec v
  | BClaim v => fits ClaimResponse_codec v
  | BEvents v => fits EventsResponse_codec v
  end.

(** Reading bytes as a body of the same type. *)
Definition read_body (like : Body) (b : bytes) : option Body :=
  match like with
  | BError _ => BError <$> decode_into ErrorBody_codec b
  | BSession _ => BSession <$> decode_into SessionResponse_codec b
  | BTournaments _ => BTournaments <$> decode_into TournamentListResponse_codec b
  | BJoin _ => BJoin <$> decode_into JoinResponse_codec b
  | BRound _ => BRound <$> decode_into RoundResponse_codec b
  | BLeaderboard _ => BLeaderboard <$> decode_into LeaderboardResponse_codec b
  | BClaim _ => BClaim <$> decode_into ClaimResponse_codec b
  | BEvents _ => BEvents <$> decode_into EventsResponse_codec b
  end.

(** * The codecs are lawful *)

#[export] Instance ErrorBody_lawful : Lawful ErrorBody_codec.
Proof. unfold ErrorBody_codec. apply _. Qed.
#[export] Instance SessionRequest_lawful : Lawful SessionRequest_codec.
Proof. unfold SessionRequest_codec. apply _. Qed.
#[export] Instance SessionResponse_lawful : Lawful SessionResponse_codec.
Proof. unfold SessionResponse_codec. apply _. Qed.
#[export] Instance SeqRequest_lawful : Lawful SeqRequest_codec.
Proof. unfold SeqRequest_codec. apply _. Qed.
#[export] Instance MoveRequest_lawful : Lawful MoveRequest_codec.
Proof. unfold MoveRequest_codec. apply _. Qed.
#[export] Instance TournamentSummary_lawful : Lawful TournamentSummary_codec.
Proof. unfold TournamentSummary_codec. apply _. Qed.
#[export] Instance TournamentListResponse_lawful : Lawful TournamentListResponse_codec.
Proof. unfold TournamentListResponse_codec. apply _. Qed.
#[export] Instance JoinResponse_lawful : Lawful JoinResponse_codec.
Proof. unfold JoinResponse_codec. apply _. Qed.
#[export] Instance ColumnView_lawful : Lawful ColumnView_codec.
Proof. unfold ColumnView_codec. apply _. Qed.
#[export] Instance MoveView_lawful : Lawful MoveView_codec.
Proof. unfold MoveView_codec. apply _. Qed.
#[export] Instance RoundView_lawful : Lawful RoundView_codec.
Proof. unfold RoundView_codec. apply _. Qed.
#[export] Instance RoundResponse_lawful : Lawful RoundResponse_codec.
Proof. unfold RoundResponse_codec. apply _. Qed.
#[export] Instance LeaderboardRow_lawful : Lawful LeaderboardRow_codec.
Proof. unfold LeaderboardRow_codec. apply _. Qed.
#[export] Instance LeaderboardResponse_lawful : Lawful LeaderboardResponse_codec.
Proof. unfold LeaderboardResponse_codec. apply _. Qed.
#[export] Instance ClaimResponse_lawful : Lawful ClaimResponse_codec.
Proof. unfold ClaimResponse_codec. apply _. Qed.
#[export] Instance EventItem_lawful : Lawful EventItem_codec.
Proof. unfold EventItem_codec. apply _. Qed.
#[export] Instance EventsResponse_lawful : Lawful EventsResponse_codec.
Proof. unfold EventsResponse_codec. apply _. Qed.
#[export] Instance ErrorBody_depth : Depth ErrorBody_codec 1.
Proof. unfold ErrorBody_codec. intros v. etrans; [refine (depth (d := _) v)|done]. Qed.
#[export] Instance SessionResponse_depth : Depth SessionResponse_codec 1.
Proof. unfold SessionResponse_codec. intros v. etrans; [refine (depth (d := _) v)|done]. Qed.
#[export] Instance TournamentSummary_depth : Depth TournamentSummary_codec 2.
Proof. unfold TournamentSummary_codec. intros v. etrans; [refine (depth (d := _) v)|done]. Qed.
#[export] Instance TournamentListResponse_depth : Depth TournamentListResponse_codec 4.
Proof. unfold TournamentListResponse_codec. intros v. etrans; [refine (depth (d := _) v)|done]. Qed.
#[export] Instance JoinResponse_depth : Depth JoinResponse_codec 1.
Proof. unfold JoinResponse_codec. intros v. etrans; [refine (depth (d := _) v)|done]. Qed.
#[export] Instance ColumnView_depth : Depth ColumnView_codec 2.
Proof. unfold ColumnView_codec. intros v. etrans; [refine (depth (d := _) v)|done]. Qed.
#[export] Instance MoveView_depth : Depth MoveView_codec 1.
Proof. unfold MoveView_codec. intros v. etrans; [refine (depth (d := _) v)|done]. Qed.
#[export] Instance RoundView_depth : Depth RoundView_codec 4.
Proof. unfold RoundView_codec. intros v. etrans; [refine (depth (d := _) v)|done]. Qed.
#[export] Instance RoundResponse_depth : Depth RoundResponse_codec 5.
Proof. unfold RoundResponse_codec. intros v. etrans; [refine (depth (d := _) v)|done]. Qed.
#[export] Instance LeaderboardRow_depth : Depth LeaderboardRow_codec 1.
Proof. unfold LeaderboardRow_codec. intros v. etrans; [refine (depth (d := _) v)|done]. Qed.
#[export] Instance LeaderboardResponse_depth : Depth LeaderboardResponse_codec 3.
Proof. unfold LeaderboardResponse_codec. intros v. etrans; [refine (depth (d := _) v)|done]. Qed.
#[export] Instance ClaimResponse_depth : Depth ClaimResponse_codec 1.
Proof. unfold ClaimResponse_codec. intros v. etrans; [refine (depth (d := _) v)|done]. Qed.
#[export] Instance EventItem_depth : Depth EventItem_codec 1.
Proof. unfold EventItem_codec. intros v. etrans; [refine (depth (d := _) v)|done]. Qed.
#[export] Instance EventsResponse_depth : Depth EventsResponse_codec 3.
Proof. unfold EventsResponse_codec. intros v. etrans; [refine (depth (d := _) v)|done]. Qed.
#[export] Hint Extern 1 (NotNull _) => (intros ?; done) : typeclass_instances.

(** Bodies are read back: the bytes of a response body, whichever type it
    has, decode into the body, for every body whose integers fit their fields
    and whose text is UTF-8. *)
Theorem bodies_round_trip (b : Body) : body_fits b -> read_body b (body_bytes b) = Some b.
Proof.
  unfold body_bytes, marshal. destruct b as [v|v|v|v|v|v|v|v]; intros F; cbn [read_body body_json body_fits] in *;
    (rewrite decode_into_marshal; [done|apply _|exact F|]); (etrans; [apply depth|done]).
Qed.

(** * A sample *)

Definition sample_row : LeaderboardRow := mkLeaderboardRow 1 "p-abc" 14400 3 true 250 false true.
Definition sample_board : Body :=
  BLeaderboard (mkLeaderboardResponse "t1" "settled" true 12 1 0 50 [sample_row] sample_row).

Lemma sample_row_fits : fits LeaderboardRow_codec sample_row.
Proof. cbn. repeat split; done. Qed.

Lemma bodies_round_trip_witness : read_body sample_board (body_bytes sample_board) = Some sample_board.
Proof.
  apply bodies_round_trip. pose proof sample_row_fits as F. cbn -[LeaderboardRow_codec].
  repeat (apply conj); try exact F; try done. by apply Forall_singleton.
Defined.
