(* ===== verification/Views.v ===== *)
(** What the player API shows of the state (internal/intent/views.go): the
    view of a round, a tournament's summary, the leaderboard and its pages,
    and events.

    The views are functions of the state; [None] of the outer option is a
    run-time panic.  Of the events that say a leaderboard changed, the last of
    each tournament is kept, and every other event ([event_items_kept]).  What
    the views promise of the reachable states is in ViewSafety.v and
    RoundViews.v; here are the lemmas on pages, rows and the order. *)

From S2P Require Import Prelude GoStd Paxos Ledger Game Records Codec Compute State Wire.

(** * Rounds *)

Section Rounds.
Context (fuel : nat).

(** [Seed.String] and [Commitment.String]. *)
Definition hex_string (b : bytes) : string := string_of (hexText b).

Definition column_view (col : list Card) : ColumnView := mkColumnView (map Card_String col).

(** The last accepted move of the first [moves]; the card it put on the waste
    is the waste card. *)
Definition last_move (rec : RoundRecord) (moves : Z) (top : Card) : option MoveView :=
  exit_if moves <=? 0 with Some (mkMoveView "" NoColumn "");
  m ← rr_moves rec !! Z.to_nat (moves - 1);
  Some (mkMoveView (mv_kind m) (i32 (mv_column m)) (Card_String top)).

(** The board's part of a view, as of [moves] moves, while the round is in
    play: nothing may be played yet. *)
Definition board_view (rec : RoundRecord) (t : TournamentID) (round moves : Z) (board : Board) (top : Card)
    (lm : MoveView) : RoundView :=
  mkRoundView t (i32 round) RoundInPlay "" (i32 moves) (map column_view (Columns board)) (Card_String top)
    (i32 (len (Waste board))) (i32 (len (Stock board))) (i32 (Cleared board)) (Score board) [] false lm
    (rr_started_at_ms rec) (rr_deadline_ms rec) (hex_string (Commit (rr_seed rec))) "".

Definition BuildRoundViewAt (st : State) (t : TournamentID) (p : PlayerID) (round moves : Z) (asOf : Slot)
    : option (option RoundView) :=
  match ReadRound st t p round with
  | None => Some None
  | Some rec =>
      exit_if negb (asOf =? 0) && (asOf <? rr_started_at rec) with Some None;
      let moves := if (moves <? 0) || (len (rr_moves rec) <? moves) then len (rr_moves rec) else moves in
      '(board, _) ← Replay fuel (rr_seed rec) (take (Z.to_nat moves) (rr_moves rec));
      let finished := String.eqb (rr_status rec) RoundDone && ((asOf =? 0) || (rr_finished_at rec <=? asOf)) in
      top ← WasteCard board;
      lm ← last_move rec moves top;
      let v := board_view rec t round moves board top lm in
      exit_if finished with Some (Some (v <| rv_status := RoundDone |> <| rv_finish_reason := rr_reason rec |>
        <| rv_score := rr_score rec |> <| rv_seed := hex_string (rr_seed rec) |>));
      ps ← Playable board;
      Some (Some (v <| rv_playable_columns := map i32 ps |> <| rv_can_draw := 0 <? len (Stock board) |>))
  end.

Definition BuildRoundView (st : State) (t : TournamentID) (p : PlayerID) (round : Z) (asOf : Slot)
    : option (option RoundView) := BuildRoundViewAt st t p round (-1) asOf.
End Rounds.

(** * Tournaments *)

Definition zero_binding : Binding := mkBinding "" zero32 "" "" 0 0.

(** The rake of views.go; the state machine's is [Compute.bps]. *)
Definition bps (x : Money) (b : Z) : Money :=
  let q := Z.quot x 10000 in
  let r := Z.rem x 10000 in
  i64 (i64 (q * b) + Z.quot (i64 (r * b)) 10000).

(** The pool so far, or the final one. *)
Definition projected_pool (h : TournamentHeader) : Money :=
  exit_if negb (bool_decide (hd_status h = Open)) with hd_pool h;
  let fees := i64 (r_entry_fee (hd_rules h) * hd_entrants h) in
  i64 (fees - bps fees (r_rake_bps (hd_rules h))).

Definition eligible (h : TournamentHeader) (joined : bool) (p : PlayerID) (b : Binding) : bool :=
  bool_decide (hd_status h = Open) && negb joined && String.eqb (b_player b) p &&
  (hd_entrants h <? r_max_entrants (hd_rules h)) && negb (Contains (r_exclusions (hd_rules h)) (b_jurisdiction b)) &&
  (r_min_age (hd_rules h) <=? b_age b).

Definition tournamentSummary (st : State) (h : TournamentHeader) (p : PlayerID) (b : Binding) : TournamentSummary :=
  let r := hd_rules h in
  let joined := (ReadEntry st (hd_id h) p).1.2 in
  let prog := Progress (play st) (hd_id h) p in
  mkTournamentSummary (hd_id h) (Status_String (hd_status h)) (r_game r) Rounds RoundTimeLimitMs
    (r_entry_fee r) (i32 (r_rake_bps r)) (map i32 (r_prize_bps r)) (i32 (r_min_entrants r)) (i32 (r_max_entrants r))
    (i32 (r_min_age r)) (r_max_score r) (i32 (hd_entrants h)) (projected_pool h)
    joined (eligible h joined p b)
    (if joined then i32 (pg_finished prog) else 0) (if joined then i32 (pg_in_play prog) else 0)
    (if joined && bool_decide (hd_status h = Open) then i32 (pg_next prog) else 0)
    (i64 (hd_created_at h)).

(** * Leaderboards *)

(** One entrant in place order: an entry of an open tournament with the
    progress it is ranked by, or a standing. *)
Inductive Ranked := ByEntry (e : Entry) (prog : EntryProgress) | ByStanding (sd : Standing).

Definition ranked_player (r : Ranked) : PlayerID :=
  match r with ByEntry e _ => pl_id (e_player e) | ByStanding sd => s_player sd end.

(** The order of an open tournament. *)
Definition ranks_above (a b : Entry * EntryProgress) : bool :=
  let '(ea, pa) := a in let '(eb, pb) := b in
  if negb (pg_total pa =? pg_total pb) then pg_total pb <? pg_total pa
  else if negb (pg_finished pa =? pg_finished pb) then pg_finished pb <? pg_finished pa
  else if negb (pg_reached_at pa =? pg_reached_at pb) then pg_reached_at pa <? pg_reached_at pb
  else e_join_seq ea <? e_join_seq eb.

Definition with_progress (st : State) (t : Tournament) (e : Entry) : Entry * EntryProgress :=
  (e, Progress (play st) (t_id t) (pl_id (e_player e))).

Definition ranking (st : State) (t : Tournament) : list Ranked :=
  if bool_decide (t_status t = Open)
  then map (fun p => ByEntry p.1 p.2) (stable_sort ranks_above (map (with_progress st t) (t_entries t)))
  else map ByStanding (default [] (t_standings t)).

Definition add_payout (row : LeaderboardRow) (po : Payout) : LeaderboardRow :=
  mkLeaderboardRow (lr_place row) (lr_player_id row) (lr_total_score row) (lr_rounds_finished row) (lr_scored row)
    (i64 (lr_amount row + p_amount po)) (lr_withheld row || p_withheld po) (lr_claimed row).

Definition row (st : State) (t : Tournament) (place : Z) (r : Ranked) : LeaderboardRow :=
  let player := ranked_player r in
  let claimed := Has (book st) (ClaimKey (t_id t) player) in
  let out := match r with
             | ByEntry e prog => mkLeaderboardRow (i32 place) player (pg_total prog) (i32 (pg_finished prog)) (e_scored e) 0 false claimed
             | ByStanding sd =>
                 mkLeaderboardRow (i32 (s_place sd)) player (s_score sd) (i32 (pg_finished (Progress (play st) (t_id t) player)))
                   (s_scored sd) 0 false claimed
             end in
  foldl add_payout out (List.filter (fun po => String.eqb (p_player po) player) (default [] (t_payouts t))).

Definition zero_row : LeaderboardRow := mkLeaderboardRow 0 "" 0 0 false 0 false false.

(** The indices of the page. *)
Definition page_indices (n offset limit : Z) : list Z :=
  if offset <? n then seqZ offset ((if limit <? n - offset then offset + limit else n) - offset) else [].

Definition row_at (st : State) (t : Tournament) (rs : list Ranked) (i : Z) : option LeaderboardRow :=
  exit_if i <? 0 with None;
  r ← rs !! Z.to_nat i;
  Some (row st t (i + 1) r).

(** The search for the player's own row, from the last place. *)
Definition own_row (st : State) (t : Tournament) (rs : list Ranked) (p : PlayerID) : LeaderboardRow :=
  match List.find (fun ir => String.eqb (ranked_player ir.2) p) (rev (imap pair rs)) with
  | Some (i, r) => row st t (Z.of_nat i + 1) r
  | None => zero_row
  end.

Definition leaderboardPage (st : State) (t : Tournament) (p : PlayerID) (offset limit : Z)
    : option (list LeaderboardRow * LeaderboardRow) :=
  let rs := ranking st t in
  rows ← mapM (row_at st t rs) (page_indices (len rs) offset limit);
  Some (rows, own_row st t rs p).

Definition leaderboard (st : State) (t : Tournament) (p : PlayerID) : option (list LeaderboardRow * LeaderboardRow) :=
  leaderboardPage st t p 0 (len (t_entries t)).

(** * Events *)

Definition eventItem (ev : EventRecord) : EventItem :=
  mkEventItem (i64 (ev_slot ev)) (ev_type ev) (ev_tournament ev) (ev_player ev) (i32 (ev_round ev)) (ev_status ev)
    (ev_score ev) (ev_total_score ev) (i32 (ev_rounds_finished ev)) (ev_amount ev) (ev_time_ms ev).

Definition board_changed (ev : EventRecord) : bool := String.eqb (ev_type ev) EventLeaderboardChanged.

(** The map [last]: of each tournament, the index of its last change. *)
Definition last_changes (evs : list EventRecord) : gmap TournamentID nat :=
  foldl (fun m p => if board_changed p.2 then <[ev_tournament p.2 := p.1]> m else m) ∅ (imap pair evs).

Definition kept (last : gmap TournamentID nat) (p : nat * EventRecord) : bool :=
  negb (board_changed p.2 && negb (default 0%nat (last !! ev_tournament p.2) =? p.1)%nat).

Definition eventItems (evs : list EventRecord) : list EventItem :=
  map (fun p => eventItem p.2) (List.filter (kept (last_changes evs)) (imap pair evs)).

(** * Events are kept *)

(** Of the changes of a tournament's leaderboard, the last; of the others,
    all. *)
Fixpoint latest (evs : list EventRecord) : list EventRecord :=
  match evs with
  | [] => []
  | ev :: evs' =>
      if board_changed ev && existsb (fun e => board_changed e && String.eqb (ev_tournament e) (ev_tournament ev)) evs'
      then latest evs' else ev :: latest evs'
  end.

Definition note_change (m : gmap TournamentID nat) (p : nat * EventRecord) : gmap TournamentID nat :=
  if board_changed p.2 then <[ev_tournament p.2 := p.1]> m else m.

(** What the loop leaves for a tournament: the index of its last change. *)
Lemma note_changes_lookup l m t : foldl note_change m l !! t =
  match List.find (fun p => board_changed p.2 && String.eqb (ev_tournament p.2) t) (rev l) with
  | Some p => Some p.1
  | None => m !! t
  end.
Proof.
  revert m. induction l as [|p l IH] using rev_ind; intros m; [done|].
  rewrite foldl_app, rev_app_distr. cbn [foldl rev app List.find]. unfold note_change at 1. destruct (board_changed p.2) eqn:Eb; cbn [andb]; [|apply IH].
  destruct (String.eqb_spec (ev_tournament p.2) t) as [->|Hne]; [by rewrite lookup_insert_eq|by rewrite lookup_insert_ne].
Qed.

Lemma find_rev_exists {A} (f : A -> bool) l : existsb f l = match List.find f (rev l) with Some _ => true | None => false end.
Proof.
  destruct (List.find f (rev l)) as [x|] eqn:E.
  - apply find_some in E as [Hin Hf]. apply existsb_exists. exists x. split; [by apply in_rev|done].
  - apply not_true_iff_false. intros (x & Hin & Hf)%existsb_exists. apply in_rev in Hin. by rewrite (find_none _ _ E x Hin) in Hf.
Qed.

Lemma find_app {A} (f : A -> bool) l k : List.find f (l ++ k) = match List.find f l with Some x => Some x | None => List.find f k end.
Proof. induction l as [|x l IH]; [done|]. simpl. by destruct (f x). Qed.

(** Whether the change at the front is the last of its tournament. *)
Lemma kept_front i ev l m : Forall (fun p => (i < p.1)%nat) l ->
  kept (foldl note_change m ((i, ev) :: l)) (i, ev) =
  negb (board_changed ev && existsb (fun p => board_changed p.2 && String.eqb (ev_tournament p.2) (ev_tournament ev)) l).
Proof.
  intros Hl. unfold kept. cbn [fst snd]. destruct (board_changed ev) eqn:Eb; [|done]. cbn [andb].
  rewrite note_changes_lookup. cbn [rev]. rewrite find_app, find_rev_exists.
  destruct (List.find _ (rev l)) as [p|] eqn:E; cbn [default from_option].
  - apply find_some in E as [Hin _]. apply in_rev, list_elem_of_In in Hin. rewrite Forall_forall in Hl. specialize (Hl p Hin).
    change (id p.1) with p.1. replace (p.1 =? i)%nat with false by (symmetry; apply Nat.eqb_neq; lia). done.
  - simpl. rewrite Eb, String.eqb_refl. simpl. by rewrite Nat.eqb_refl.
Qed.

Lemma existsb_imap {A B} (f : A -> bool) (g : nat -> A -> B * A) l : (forall i x, (g i x).2 = x) ->
  existsb (fun p => f p.2) (imap g l) = existsb f l.
Proof. revert g. induction l as [|x l IH]; intros g H; [done|]. simpl. rewrite H, IH; [done|]. intros i y. apply H. Qed.

Lemma kept_latest n evs m0 pre : (forall p, p ∈ pre -> (p.1 < n)%nat) ->
  let l := imap (fun i e => ((n + i)%nat, e)) evs in
  map snd (List.filter (kept (foldl note_change m0 (pre ++ l))) l) = latest evs.
Proof.
  revert n pre. induction evs as [|ev evs IH]; intros n pre Hpre l; [done|].
  unfold l. cbn [imap]. rewrite Nat.add_0_r. set (l' := imap _ evs).
  assert (El : l' = imap (fun i e => ((S n + i)%nat, e)) evs).
  { unfold l'. apply imap_ext. intros i x _. simpl. f_equal. lia. }
  specialize (IH (S n) (pre ++ [(n, ev)])). cbv zeta in IH. rewrite <- app_assoc, <- El in IH. cbn [app] in IH.
  cbn [List.filter latest]. rewrite foldl_app at 1. rewrite kept_front.
  2:{ rewrite El. apply Forall_forall. intros p Hp. apply elem_of_lookup_imap in Hp as (i & x & -> & _). simpl. lia. }
  assert (Ex : existsb (fun p : nat * EventRecord => board_changed p.2 && String.eqb (ev_tournament p.2) (ev_tournament ev)) l' =
    existsb (fun e => board_changed e && String.eqb (ev_tournament e) (ev_tournament ev)) evs).
  { by apply (existsb_imap (fun e => board_changed e && String.eqb (ev_tournament e) (ev_tournament ev))). }
  rewrite Ex. destruct (board_changed ev && _); cbn [negb]; [|cbn [map]; f_equal]; (apply IH; intros p [Hp|Hp]%elem_of_snoc;
    [specialize (Hpre p Hp); lia|subst p; simpl; lia]).
Qed.

(** The events of a response are the events read, in their order: every
    event except the changes of a tournament's leaderboard that a later one of
    the same tournament repeats. *)
Theorem event_items_kept (evs : list EventRecord) : eventItems evs = map eventItem (latest evs).
Proof.
  unfold eventItems. rewrite <- (map_map snd eventItem). f_equal.
  pose proof (kept_latest 0 evs ∅ []) as H. cbn [app] in H. apply H. by intros p ?%not_elem_of_nil.
Qed.

(** * Pages *)

Lemma foldl_add_payout {B} (f : LeaderboardRow -> B) r l : (forall r po, f (add_payout r po) = f r) -> f (foldl add_payout r l) = f r.
Proof. intros H. revert r. induction l as [|po l IH]; intros r; [done|]. simpl. by rewrite IH. Qed.

Definition ranked_total (r : Ranked) : Z := match r with ByEntry _ prog => pg_total prog | ByStanding sd => s_score sd end.

Lemma row_player st t i r : lr_player_id (row st t i r) = ranked_player r.
Proof. unfold row. rewrite (foldl_add_payout lr_player_id) by done. by destruct r. Qed.
Lemma row_total st t i r : lr_total_score (row st t i r) = ranked_total r.
Proof. unfold row. rewrite (foldl_add_payout lr_total_score) by done. by destruct r. Qed.

(** The whole board. *)
Definition all_rows (st : State) (t : Tournament) (rs : list Ranked) : list LeaderboardRow :=
  imap (fun i r => row st t (Z.of_nat i + 1) r) rs.

Lemma page_rows st t rs offset limit : 0 <= offset -> 0 <= limit ->
  mapM (row_at st t rs) (page_indices (len rs) offset limit) =
  Some (take (Z.to_nat limit) (drop (Z.to_nat offset) (all_rows st t rs))).
Proof.
  intros Ho Hl. apply mapM_Some_2. unfold page_indices.
  assert (Hlen : length (take (Z.to_nat limit) (drop (Z.to_nat offset) (all_rows st t rs))) =
    Z.to_nat (if offset <? len rs then (if limit <? len rs - offset then limit else len rs - offset) else 0)).
  { rewrite length_take, length_drop. unfold all_rows, len. rewrite length_imap.
    destruct (Z.ltb_spec offset (Z.of_nat (length rs))), (Z.ltb_spec limit (Z.of_nat (length rs) - offset)); lia. }
  destruct (Z.ltb_spec offset (len rs)) as [Hlt|Hge].
  2:{ apply length_zero_iff_nil in Hlen. by rewrite Hlen. }
  replace ((if limit <? len rs - offset then offset + limit else len rs) - offset)
    with (if limit <? len rs - offset then limit else len rs - offset) by (case_goal; lia).
  apply Forall2_same_length_lookup_2.
  - by rewrite Hlen, length_seqZ.
  - intros i z x Hz Hx. apply lookup_seqZ in Hz as [-> Hi]. unfold row_at.
    rewrite (proj2 (Z.ltb_ge _ _)) by lia. apply lookup_take_Some in Hx as [Hx _]. rewrite lookup_drop in Hx.
    unfold all_rows in Hx. rewrite list_lookup_imap in Hx. replace (Z.to_nat (offset + Z.of_nat i)) with (Z.to_nat offset + i)%nat by lia.
    destruct (rs !! (Z.to_nat offset + i)%nat); [|done]. simpl in *. injection Hx as <-. repeat f_equal. lia.
Qed.

Lemma own_row_spec st t rs p :
  (own_row st t rs p ∈ all_rows st t rs /\ lr_player_id (own_row st t rs p) = p) \/
  (own_row st t rs p = zero_row /\ p ∉ map ranked_player rs).
Proof.
  unfold own_row. destruct (List.find _ _) as [[i r]|] eqn:E.
  - left. apply find_some in E as [Hin Hp]. apply in_rev, list_elem_of_In, elem_of_lookup_imap in Hin as (j & r' & [= <- <-] & Hj).
    apply String.eqb_eq in Hp. split; [|by rewrite row_player]. apply list_elem_of_lookup. exists i. unfold all_rows.
    by rewrite list_lookup_imap, Hj.
  - right. split; [done|]. intros (r & -> & Hr)%list_elem_of_fmap. apply list_elem_of_lookup in Hr as [i Hi].
    assert (H : (i, r) ∈ imap pair rs) by (apply elem_of_lookup_imap; eauto).
    apply list_elem_of_In, in_rev in H. pose proof (find_none _ _ E _ H) as Hf. simpl in Hf. by rewrite String.eqb_refl in Hf.
Qed.

(** ** The order *)

Lemma ranks_above_asym a b : ranks_above a b = true -> ranks_above b a = false.
Proof. destruct a as [ea pa], b as [eb pb]. unfold ranks_above. intros H. repeat (case_goal || case_hyp H); b2p; (done || lia). Qed.

Lemma ranks_above_trans a b c : sort_le ranks_above a b -> sort_le ranks_above b c -> sort_le ranks_above a c.
Proof.
  destruct a as [ea pa], b as [eb pb], c as [ec pc]. unfold sort_le, ranks_above. intros H1 H2.
  repeat (case_hyp H1); b2p; repeat (case_hyp H2); b2p; repeat case_goal; b2p; (done || lia).
Qed.

Lemma ranks_above_total a b : sort_le ranks_above a b -> pg_total b.2 <= pg_total a.2.
Proof. destruct a as [ea pa], b as [eb pb]. unfold sort_le, ranks_above. intros H. case_hyp H; b2p; simpl; lia. Qed.

Lemma ranking_sorted st t : StronglySorted (sort_le ranks_above) (stable_sort ranks_above (map (with_progress st t) (t_entries t))).
Proof. apply stable_sort_sorted; [apply ranks_above_asym|apply ranks_above_trans]. Qed.
