(* ===== verification/ViewSafety.v ===== *)
(** What the views of the player API promise in the states of the running
    system: the leaderboard is one sorted list of the entrants that pages cut
    up ([leaderboard_pages]), and a summary says a player is eligible exactly
    when the join would be accepted ([eligible_may_join]). *)

From S2P Require Import Prelude GoStd Paxos Ledger Game Records Codec Compute State Changes.
From S2P Require Import TournamentInv PlayInv LedgerInv Machine Reach Guarantees Wire Views.

Section Safety.
Context `{U : Unicode} (fuel : nat).

(** * Leaderboards *)

Lemma ranking_clone s t : ranking s (clone t) = ranking s t.
Proof. unfold ranking. simpl. destruct (t_standings t) as [[|sd l]|]; done. Qed.

Lemma ranking_players s k t : tournament_ok k t -> map ranked_player (ranking s t) ≡ₚ map entry_id (t_entries t).
Proof.
  intros W. unfold ranking. case_bool_decide as Ho.
  - rewrite map_map. simpl. rewrite stable_sort_Permutation, map_map. done.
  - pose proof (to_phase k t W) as P. assert (E : t_standings t = Some (ComputeStandings t)).
    { unfold phase_ok, closed_fields in P. destruct (t_status t); [done|naive_solver..]. }
    rewrite E, map_map. simpl. destruct (ComputeStandings_rank t) as (sc & un & Hp & _ & _ & _ & _ & ->).
    rewrite <- Hp, !map_app. unfold scored_row, unscored_row. by rewrite !(map_imap_const _ _ entry_id).
Qed.

Lemma sorted_app {A} (R : A -> A -> Prop) l k : StronglySorted R l -> StronglySorted R k ->
  (forall x y, x ∈ l -> y ∈ k -> R x y) -> StronglySorted R (l ++ k).
Proof.
  induction 1 as [|x l Hl IH Hx]; intros Hk H; simpl; [done|]. constructor; [apply IH; [done|]; intros; apply H; [by right|done]|].
  apply Forall_app. split; [done|]. apply Forall_forall. intros y Hy. apply H; [by left|done].
Qed.

Lemma sorted_map {A B} (R : A -> A -> Prop) (Q : B -> B -> Prop) (f : A -> B) l :
  (forall x y, R x y -> Q (f x) (f y)) -> StronglySorted R l -> StronglySorted Q (map f l).
Proof.
  intros H. induction 1 as [|x l Hl IH Hx]; simpl; constructor; [done|]. apply Forall_map. eapply Forall_impl; [exact Hx|]. auto.
Qed.

Definition falls (a b : Z) : Prop := b <= a.

(** The totals fall down the board. *)
Lemma ranking_falls s k t : tournament_ok k t -> StronglySorted falls (map ranked_total (ranking s t)).
Proof.
  intros W. unfold ranking. case_bool_decide as Ho.
  - rewrite map_map. apply (sorted_map (sort_le ranks_above) falls); [|apply ranking_sorted].
    intros x y. apply ranks_above_total.
  - pose proof (to_phase k t W) as P. assert (E : t_standings t = Some (ComputeStandings t)).
    { unfold phase_ok, closed_fields in P. destruct (t_status t); [done|naive_solver..]. }
    rewrite E, map_map. simpl. destruct (ComputeStandings_rank t) as (sc & un & Hp & Hsc & _ & Ss & _ & ->).
    rewrite map_app. unfold scored_row, unscored_row. rewrite !(map_imap_const s_score _ e_score), (map_imap_const s_score _ (fun _ => 0)) by done.
    apply sorted_app.
    + apply (sorted_map (sort_le scored_less)); [|done]. intros x y H%scored_le_spec. unfold falls. lia.
    + clear. induction un as [|e un IH]; simpl; constructor; [done|]. apply Forall_map, Forall_forall. by intros x _.
    + intros x y (e & -> & He)%list_elem_of_fmap (e' & -> & _)%list_elem_of_fmap. unfold falls.
      assert (Hin : e ∈ t_entries t) by (rewrite <- Hp; apply elem_of_app; by left).
      apply list_elem_of_lookup in Hin as [i Hi]. rewrite Forall_forall in Hsc.
      pose proof (eo_score _ _ _ (to_entries k t W i e Hi) (Hsc e He)). lia.
Qed.

(** C33. The leaderboard of a play tournament is one list that its pages cut
    up: it has a row for every entrant and for nobody else, the totals fall
    from each row to the next, in an open tournament the places are the
    positions, a page is the rows from its offset up to its limit, and the
    caller's own row is its row of the list, or the zero row when the caller
    has not entered. *)
Theorem leaderboard_pages s tid t p offset limit : reachable fuel s -> ReadTournament s tid = Some t -> 0 <= offset -> 0 <= limit ->
  exists rows me, leaderboard s t p = Some (rows, me) /\
    leaderboardPage s t p offset limit = Some (take (Z.to_nat limit) (drop (Z.to_nat offset) rows), me) /\
    map lr_player_id rows ≡ₚ map entry_id (t_entries t) /\
    StronglySorted falls (map lr_total_score rows) /\
    (t_status t = Open -> forall i r, rows !! i = Some r -> lr_place r = i32 (Z.of_nat i + 1)) /\
    (me ∈ rows /\ lr_player_id me = p \/ me = zero_row /\ p ∉ map entry_id (t_entries t)).
Proof.
  intros Hr Ht Ho Hl. unfold ReadTournament in Ht. destruct (tournaments s !! tid) as [t0|] eqn:Et; [|done]. injection Ht as <-.
  destruct (reachable_good fuel s Hr) as [I _]. pose proof (proj1 (inv_tournaments _ _ _ I) tid t0 Et) as W.
  pose proof (ranking_players s tid t0 W) as Hp. assert (Hn : length (ranking s t0) = length (t_entries t0)).
  { apply (Permutation_length) in Hp. by rewrite !length_map in Hp. }
  exists (all_rows s (clone t0) (ranking s t0)), (own_row s (clone t0) (ranking s t0) p). unfold leaderboard, leaderboardPage.
  rewrite ranking_clone, !page_rows by (done || apply len_nonneg). cbn [mbind option_bind]. split_and!.
  - rewrite drop_0, firstn_all2; [done|]. unfold all_rows, len. rewrite length_imap, Hn. simpl. lia.
  - done.
  - unfold all_rows. by rewrite (map_imap_const _ _ ranked_player) by (intros; apply row_player).
  - unfold all_rows. rewrite (map_imap_const _ _ ranked_total) by (intros; apply row_total). by apply (ranking_falls s tid).
  - intros Hop i r Hi. unfold all_rows in Hi. rewrite list_lookup_imap in Hi. unfold ranking in Hi.
    rewrite bool_decide_eq_true_2 in Hi by done. rewrite list_lookup_fmap in Hi.
    destruct (stable_sort _ _ !! i) as [[e prog]|]; [|done]. injection Hi as <-. unfold row.
    by rewrite (foldl_add_payout lr_place).
  - destruct (own_row_spec s (clone t0) (ranking s t0) p) as [[H1 H2]|[H1 H2]]; [by left|right]. split; [done|]. by rewrite Hp in H2.
Qed.

(** * Joining *)

Lemma u64_next last : 0 <= last -> last + 1 < 2 ^ 64 -> u64 (last + 1) = last + 1.
Proof. intros H1 H2. apply u64_id. unfold in_u64. lia. Qed.

(** A player's next intent in a play tournament goes on. *)
Lemma sequenced_next s pid tid ps t : players (play s) !! pid = Some ps -> 0 <= pr_last_seq (pst_rec ps) ->
  pr_last_seq (pst_rec ps) + 1 < 2 ^ 64 -> tournaments s !! tid = Some t -> r_game (t_rules t) <> "" ->
  sequenced s pid (pr_last_seq (pst_rec ps) + 1) tid = (consume s pid ps, None).
Proof.
  intros Hp H0 Hl Ht Hg. unfold sequenced. rewrite Hp, u64_next by done.
  rewrite (proj2 (Z.leb_gt _ _)), (proj2 (Z.ltb_ge _ _)) by lia. cbn [tournaments set_play]. rewrite Ht. destruct (String.eqb_spec (r_game (t_rules t)) ""); done.
Qed.

(** The answer to a join is whether the entry is refused. *)
Lemma enter_answer s slot ballot pid tid ps t : Inv fuel None s -> players (play s) !! pid = Some ps ->
  pr_last_seq (pst_rec ps) + 1 < 2 ^ 64 -> tournaments s !! tid = Some t -> r_game (t_rules t) <> "" ->
  exists s' res, enterPlay s slot ballot tid pid (pr_last_seq (pst_rec ps) + 1) = Some (s', res) /\
    (res_code res = OK <->
     admit_refusal t (mkPlayer pid (b_jurisdiction (pr_binding (pst_rec ps))) (b_age (pr_binding (pst_rec ps)))) = None).
Proof.
  intros I Hp Hl Ht Hg. destruct (proj2 (pv_bindings _ _ _ (inv_play _ _ _ I)) pid ps Hp) as (_ & _ & Hv & _ & _ & H0).
  unfold enterPlay. rewrite (sequenced_next s pid tid ps t) by (done || lia). set (s1 := consume s pid ps).
  pose proof (step_inv fuel slot ballot None s s1 I (consume_step fuel slot ballot None s pid ps Hp Hl)) as I1.
  assert (Hp1 : players (play s1) !! pid = Some (mkPlayerState
    (mkPlayerRecord (pr_binding (pst_rec ps)) (pr_last_seq (pst_rec ps) + 1)) (pst_entered ps)))
    by (simpl; by rewrite lookup_insert_eq).
  rewrite Hp1. simpl. set (pl := mkPlayer pid _ _).
  destruct (admit_runs fuel slot ballot s1 tid t pl I1 Ht Hv) as (s2 & res & -> & _ & [(-> & Hc & Ha)|(-> & _ & Hpl & Ht2 & Ha)]); simpl.
  - unfold outcome. rewrite Hp1. simpl. rewrite decide_False by done. eexists _, _. split; [done|]. simpl. rewrite Ha. split; [by intros|done].
  - unfold outcome. rewrite Hpl, Hp1. simpl. unfold deref. rewrite Ht2. simpl. rewrite last_snoc. simpl.
    eexists _, _. split; [done|]. simpl. by rewrite Ha.
Qed.

(** A summary says eligible exactly to whom may join: for every player
    bound to a device and every play tournament, the player's next intent, if
    it is to enter, is accepted when the summary says eligible, and refused
    when it does not. *)
Theorem eligible_may_join s slot ballot tid h p rec : reachable fuel s -> Header s tid = Some h -> r_game (hd_rules h) <> "" ->
  ReadPlayer s p = Some rec -> pr_last_seq rec + 1 < 2 ^ 64 ->
  exists s' res, enterPlay s slot ballot tid p (pr_last_seq rec + 1) = Some (s', res) /\
    (res_code res = OK <-> ts_eligible (tournamentSummary s h p (pr_binding rec)) = true).
Proof.
  intros Hr Hh Hg Hp Hl. destruct (reachable_good fuel s Hr) as [I _]. unfold Header in Hh. unfold ReadPlayer in Hp.
  destruct (tournaments s !! tid) as [t|] eqn:Et; [|done]. injection Hh as <-.
  destruct (players (play s) !! p) as [ps|] eqn:Ep; [|done]. injection Hp as <-.
  destruct (enter_answer s slot ballot p tid ps t I Ep Hl Et Hg) as (s' & res & E & Hres). exists s', res. split; [exact E|].
  rewrite Hres, admit_refusal_None. simpl. unfold eligible. simpl.
  pose proof (to_id tid t (proj1 (inv_tournaments _ _ _ I) tid t Et)) as Hid.
  assert (Hj : (ReadEntry s (t_id t) p).1.2 = bool_decide (is_Some (find_entry t p))).
  { unfold ReadEntry. rewrite Hid, Et. by destruct (find_entry t p). }
  rewrite Hj. destruct (proj2 (pv_bindings _ _ _ (inv_play _ _ _ I)) p ps Ep) as (Hb & _). rewrite Hb, String.eqb_refl.
  rewrite !andb_true_iff, !negb_true_iff, bool_decide_eq_true, bool_decide_eq_false, Z.ltb_lt, Z.leb_le, <- eq_None_not_Some. tauto.
Qed.
End Safety.

(** * The hypotheses hold *)

Section Witnesses.
#[local] Existing Instance ascii_unicode.

(** The leaderboard of the settled tournament, seen by its only entrant. *)
Lemma leaderboard_pages_witness : exists s t rows me, reachable 1 s /\ ReadTournament s "t1" = Some t /\
  leaderboard s t "p1" = Some (rows, me) /\ leaderboardPage s t "p1" 0 10 = Some (take 10 (drop 0 rows), me).
Proof.
  destruct (demo_run 9 (fun s _ => match ReadTournament s "t1" with Some _ => true | None => false end)) as (s & rs & Hr & H);
    [vm_compute; reflexivity|].
  destruct (ReadTournament s "t1") as [t|] eqn:Et; [|discriminate H].
  destruct (leaderboard_pages 1 s "t1" t "p1" 0 10 Hr Et (Z.le_refl 0) ltac:(lia)) as (rows & me & H1 & H2 & _).
  exists s, t, rows, me. exact (conj Hr (conj Et (conj H1 H2))).
Defined.

(** The player bound by the second command may join, and the summary says so. *)
Lemma eligible_may_join_witness : exists s s' res, reachable 1 s /\
  enterPlay s 3 demo_ballot "t1" "p1" 1 = Some (s', res) /\ res_code res = OK.
Proof.
  destruct (demo_run 2 (fun s _ => match Header s "t1", ReadPlayer s "p1" with
    | Some h, Some rec => negb (String.eqb (r_game (hd_rules h)) "") && (pr_last_seq rec =? 0) &&
                          ts_eligible (tournamentSummary s h "p1" (pr_binding rec))
    | _, _ => false end)) as (s & rs & Hr & H); [vm_compute; reflexivity|].
  destruct (Header s "t1") as [h|] eqn:Eh; [|discriminate H]. destruct (ReadPlayer s "p1") as [rec|] eqn:Ep; [|discriminate H].
  apply andb_true_iff in H as [H Hel].
  apply andb_true_iff in H as [Hg%negb_true_iff%String.eqb_neq Hq%Z.eqb_eq].
  destruct (eligible_may_join 1 s 3 demo_ballot "t1" h "p1" rec Hr Eh Hg Ep) as (s' & res & E & Hres); [rewrite Hq; reflexivity|].
  exists s, s', res. rewrite Hq in E. exact (conj Hr (conj E (proj2 Hres Hel))).
Defined.
End Witnesses.
