(* ===== verification/RoundViews.v ===== *)
(** The views of rounds in the running system (BuildRoundViewAt of
    internal/intent/views.go over internal/tournament).

    How a round's record grows from slot to slot: moves are added, it is
    finished once, and nothing else of it changes ([rounds_grow]); so a view as
    of a slot and a move count is rebuilt identically in every later state
    ([round_view_stable]).  And a round in play is never over ([rounds_live]), so
    a view offers exactly the moves the state machine accepts
    ([offered_moves_accepted]). *)

From S2P Require Import Prelude GoStd Paxos Ledger Game Records Codec Compute State Changes.
From S2P Require Import TournamentInv PlayInv LedgerInv Machine Reach Guarantees Wire Views ViewSafety.

(** * How records grow *)

(** [rec'] is what a state after slot [since] holds for a round that had
    [rec] then. *)
Record round_grows (since : Slot) (rec rec' : RoundRecord) : Prop := {
  rg_fields : rr_tournament rec' = rr_tournament rec /\ rr_player rec' = rr_player rec /\ rr_round rec' = rr_round rec;
  rg_deal : rr_seed rec' = rr_seed rec /\ rr_started_at rec' = rr_started_at rec /\
    rr_started_at_ms rec' = rr_started_at_ms rec /\ rr_deadline_ms rec' = rr_deadline_ms rec;
  rg_moves : exists more, rr_moves rec' = rr_moves rec ++ more;
  rg_done : rr_status rec = RoundDone -> rec' = rec;
  rg_finish : rr_status rec <> RoundDone -> rr_status rec' = RoundDone -> since < rr_finished_at rec';
}.

Record rounds_grow (since : Slot) (rs rs' : gmap roundKey RoundRecord) : Prop := {
  gr_old : forall key rec, rs !! key = Some rec -> exists rec', rs' !! key = Some rec' /\ round_grows since rec rec';
  gr_new : forall key rec', rs !! key = None -> rs' !! key = Some rec' -> since < rr_started_at rec';
}.

Lemma round_grows_refl since rec : round_grows since rec rec.
Proof. split; try done. exists []. by rewrite app_nil_r. Qed.

Lemma round_grows_trans since r1 r2 r3 : round_grows since r1 r2 -> round_grows since r2 r3 -> round_grows since r1 r3.
Proof.
  intros [A1 A2 [m1 A3] A4 A5] [B1 B2 [m2 B3] B4 B5]. split.
  - naive_solver congruence.
  - naive_solver congruence.
  - exists (m1 ++ m2). by rewrite B3, A3, app_assoc.
  - intros H. rewrite <- (A4 H). apply B4. by rewrite (A4 H).
  - intros H1 H3. destruct (decide (rr_status r2 = RoundDone)) as [H2|H2]; [|by apply B5].
    rewrite (B4 H2). by apply A5.
Qed.

#[export] Instance rounds_grow_refl since : Reflexive (rounds_grow since).
Proof. intros rs. split; [|congruence]. intros key rec H. exists rec. split; [done|apply round_grows_refl]. Qed.

#[export] Instance rounds_grow_trans since : Transitive (rounds_grow since).
Proof.
  intros r1 r2 r3 [A1 A2] [B1 B2]. split.
  - intros key rec H. destruct (A1 key rec H) as (rec2 & H2 & G2). destruct (B1 key rec2 H2) as (rec3 & H3 & G3).
    exists rec3. split; [done|by eapply round_grows_trans].
  - intros key rec3 H1 H3. destruct (r2 !! key) as [rec2|] eqn:H2; [|by eapply B2].
    destruct (B1 key rec2 H2) as (rec' & H' & G). simplify_eq. destruct (rg_deal _ _ _ G) as (_ & -> & _). by eapply A2.
Qed.

Lemma rounds_grow_since a b rs rs' : a <= b -> rounds_grow b rs rs' -> rounds_grow a rs rs'.
Proof.
  intros Hab [A1 A2]. split.
  - intros key rec H. destruct (A1 key rec H) as (rec' & H' & [G1 G2 G3 G4 G5]). exists rec'. split; [done|]. split; auto.
    intros X Y. specialize (G5 X Y). lia.
  - intros key rec' H H'. specialize (A2 key rec' H H'). lia.
Qed.

(** Replacing one record. *)
Lemma rounds_grow_insert since rs key rec' :
  match rs !! key with Some rec => round_grows since rec rec' | None => since < rr_started_at rec' end ->
  rounds_grow since rs (<[key := rec']> rs).
Proof.
  intros H. split.
  - intros k rec Hk. rewrite lookup_insert. case_decide as E; [|exists rec; split; [done|apply round_grows_refl]].
    subst k. rewrite Hk in H. eauto.
  - intros k rec2 Hk. rewrite lookup_insert. case_decide as E; [|congruence]. subst k. rewrite Hk in H. by intros [= <-].
Qed.

Section Grow.
Context `{U : Unicode} (fuel : nat).

Lemma change_rounds_grow slot ballot closing since s s' : since < slot -> change fuel slot ballot closing s s' ->
  rounds_grow since (rounds (play s)) (rounds (play s')).
Proof.
  intros Hs C. destruct C as
    [id seed r Hk|k t player b q Ht Ha Hv Hp|k t t' i e sc digest Ht Ho Hi He Hsa Hm|k t Ht Ho Hn|k t ex b Ht Hst _ Hb
    |b Hb Hp Hv|pid ps Hp Hsq|k t pid ps Ht Hj Hp|k t pid round seed Ht Ho Hg Hj Hu Hr Hnew Hprev Hd
    |k t pid round rec b m b' Ht Ho Hr Hn _ Hrep Ha|k t pid round rec b reason Ht Ho Hr Hn Hrep|k t pid b q _ _ _ _ _ Hp|ev|tid];
    try reflexivity; simpl; apply rounds_grow_insert.
  - by rewrite Hnew.
  - rewrite Hr. split; try done. by exists [m].
  - rewrite Hr. split; try done. exists []. by rewrite app_nil_r.
Qed.

Lemma steps_rounds_grow slot ballot closing since s s' : since < slot -> rtc (change fuel slot ballot closing) s s' ->
  rounds_grow since (rounds (play s)) (rounds (play s')).
Proof. intros Hs. induction 1 as [|s1 s2 s3 C _ IH]; [done|]. etrans; [by eapply change_rounds_grow|done]. Qed.

Lemma slot_step_grow s s' : Inv fuel None s -> slot_step fuel s s' ->
  applied s <= applied s' /\ rounds_grow (applied s) (rounds (play s)) (rounds (play s')).
Proof.
  intros I [slot ballot cmd s1 res Hok H|slot].
  - destruct (Apply_total fuel s slot ballot cmd I Hok) as [(_ & d & E)|(Hlt & s2 & r & h & E & X & _)];
      rewrite E in H; injection H as <- <-; [done|].
    destruct X as [err _ -> _|rec _ _ -> _|rec _ _ -> _|_ _ _ -> _|op s3 r' _ _ _ O _ _ ->]; simpl; try (split; [lia|done]).
    split; [destruct (outcome_counters fuel _ _ _ _ _ _ O) as (_ & -> & _); simpl; lia|].
    destruct O as [-> _|pid ps _ _ -> _|C _]; [done|done|].
    by apply (steps_rounds_grow slot ballot (closing_of op) (applied s) (start_slot s slot cmd)).
  - unfold Skip. destruct (Z.leb_spec slot (applied s)); [done|]. simpl. split; [lia|done].
Qed.

Lemma later_grow s s' : Inv fuel None s -> results_ok s -> later fuel s s' ->
  applied s <= applied s' /\ rounds_grow (applied s) (rounds (play s)) (rounds (play s')).
Proof.
  intros I R H. induction H as [|s1 s2 s3 C _ IH]; [done|].
  destruct (slot_step_spec fuel s1 s2 I R C) as (I2 & R2 & _). destruct (slot_step_grow s1 s2 I C) as [L1 G1].
  destruct (IH I2 R2) as [L2 G2]. split; [lia|]. etrans; [exact G1|]. by eapply rounds_grow_since.
Qed.

(** ** Views of the past *)

(** A view as of slot [asOf] and [moves] moves depends on nothing later. *)
Lemma view_grows s s' t p round moves asOf : rounds_grow asOf (rounds (play s)) (rounds (play s')) -> asOf <> 0 ->
  (forall rec, ReadRound s t p round = Some rec -> 0 <= moves <= len (rr_moves rec)) ->
  BuildRoundViewAt fuel s' t p round moves asOf = BuildRoundViewAt fuel s t p round moves asOf.
Proof.
  intros [G1 G2] Ha Hm. unfold BuildRoundViewAt, ReadRound in *. destruct (rounds (play s) !! (t, p, round)) as [rec|] eqn:E.
  - destruct (G1 _ rec E) as (rec' & E' & [_ (D1 & D2 & D3 & D4) [more D5] D6 D7]). rewrite E'. specialize (Hm rec eq_refl).
    destruct (decide (rr_status rec = RoundDone)) as [Hd|Hd]; [by rewrite (D6 Hd)|].
    rewrite D2. case_goal; [done|]. rewrite D5, len_app. pose proof (len_nonneg more).
    rewrite !(proj2 (Z.ltb_ge moves 0)), !(proj2 (Z.ltb_ge _ moves)) by lia. cbn [orb]. rewrite D1.
    assert (Et : take (Z.to_nat moves) (rr_moves rec ++ more) = take (Z.to_nat moves) (rr_moves rec)).
    { apply take_app_le. unfold len in Hm. lia. }
    rewrite Et. destruct (Replay fuel (rr_seed rec) _) as [[board err]|]; [|done]. cbn [mbind option_bind].
    destruct (WasteCard board) as [top|]; [|done]. cbn [mbind option_bind].
    assert (El : last_move rec' moves top = last_move rec moves top).
    { unfold last_move. destruct (Z.leb_spec moves 0); [done|]. rewrite D5, lookup_app_l; [done|]. unfold len in Hm. lia. }
    rewrite El. destruct (last_move rec moves top) as [lm|]; [|done]. cbn [mbind option_bind].
    assert (Ef : String.eqb (rr_status rec') RoundDone && ((asOf =? 0) || (rr_finished_at rec' <=? asOf)) = false).
    { destruct (String.eqb_spec (rr_status rec') RoundDone) as [Hd'|]; [|done]. specialize (D7 Hd Hd'). simpl.
      apply orb_false_iff. split; [by apply Z.eqb_neq|]. apply Z.leb_gt. lia. }
    rewrite Ef. destruct (String.eqb_spec (rr_status rec) RoundDone); [done|]. cbn [andb].
    unfold board_view. by rewrite D1, D3, D4.
  - destruct (rounds (play s') !! (t, p, round)) as [rec'|] eqn:E'; [|done]. specialize (G2 _ _ E E').
    by rewrite (proj2 (Z.eqb_neq _ _)), (proj2 (Z.ltb_lt _ _)) by lia.
Qed.

(** A view of the past is final: the view of a round as of a slot already
    applied and a number of moves already made is rebuilt identically in every
    later state, whatever was played, finished or closed since, so a command's
    result describes one view forever. *)
Theorem round_view_stable s s' t p round moves asOf : reachable fuel s -> later fuel s s' -> 0 < asOf <= applied s ->
  (forall rec, ReadRound s t p round = Some rec -> 0 <= moves <= len (rr_moves rec)) ->
  BuildRoundViewAt fuel s' t p round moves asOf = BuildRoundViewAt fuel s t p round moves asOf.
Proof.
  intros Hr Hl Ha Hm. destruct (reachable_good fuel s Hr) as [I R]. destruct (later_grow s s' I R Hl) as [_ G].
  apply view_grows; [|lia|done]. by apply (rounds_grow_since asOf (applied s)); [lia|].
Qed.
End Grow.

(** * A round in play is not over *)

Section Live.
Context `{U : Unicode} (fuel : nat).

Definition rounds_live (rs : gmap roundKey RoundRecord) : Prop := forall key rec, rs !! key = Some rec -> rr_status rec <> RoundDone ->
  exists b, Replay fuel (rr_seed rec) (rr_moves rec) = Some (b, None) /\ Over b = Some None.

Lemma live_insert rs key rec : rounds_live rs ->
  (rr_status rec <> RoundDone -> exists b, Replay fuel (rr_seed rec) (rr_moves rec) = Some (b, None) /\ Over b = Some None) ->
  rounds_live (<[key := rec]> rs).
Proof. intros L H k x. rewrite lookup_insert. case_decide; [by intros [= <-]|apply L]. Qed.

Lemma recordLeaderboard_rounds s slot tid : rounds (play (recordLeaderboard s slot tid)) = rounds (play s).
Proof. unfold recordLeaderboard. by case_decide. Qed.

Lemma scoreEntry_rounds s slot k i s' : scoreEntry s slot k i = Some s' -> rounds (play s') = rounds (play s).
Proof.
  unfold scoreEntry. intros (t & _ & (e & _ & H)%bind_Some)%bind_Some. cbv zeta in H. apply bind_Some in H as (t' & _ & [= <-]). done.
Qed.

(** Finishing a round replaces its record by the finished one. *)
Lemma finishRound_rounds s slot k i rk board reason flag s' : finishRound fuel s slot k i rk board reason flag = Some s' ->
  exists rec b, rounds (play s) !! rk = Some rec /\
    rounds (play s') = <[rk := done_record rec reason (Cleared b) (Score b) slot]> (rounds (play s)).
Proof.
  unfold finishRound. intros (t & _ & (rec & Hr & (b & _ & H)%bind_Some)%bind_Some)%bind_Some. cbv zeta in H. exists rec, b. split; [done|].
  set (s1 := set_play s _) in H. set (s2 := recordEvent s1 _) in H. set (s3 := if flag then s2 else _) in H.
  assert (E3 : rounds (play s3) = rounds (play s1)) by (unfold s3; destruct flag; [done|by rewrite recordLeaderboard_rounds]).
  change (rounds (play s1)) with (<[rk := done_record rec reason (Cleared b) (Score b) slot]> (rounds (play s))) in E3.
  rewrite <- E3. destruct (_ =? Rounds); [|by injection H as <-].
  apply bind_Some in H as (e & _ & H). destruct (e_scored e); [by injection H as <-|by eapply scoreEntry_rounds].
Qed.

Lemma finishRound_live s slot k i rk board reason flag s' : finishRound fuel s slot k i rk board reason flag = Some s' ->
  rounds_live (delete rk (rounds (play s))) -> rounds_live (rounds (play s')).
Proof.
  intros H L. destruct (finishRound_rounds _ _ _ _ _ _ _ _ _ H) as (rec & b & Hr & ->).
  rewrite <- insert_delete_eq. by apply live_insert.
Qed.

Lemma live_delete rs key : rounds_live rs -> rounds_live (delete key rs).
Proof. intros L k rec [_ H]%lookup_delete_Some. by apply (L k). Qed.

Lemma sequenced_rounds s pid seq tid : rounds (play (sequenced s pid seq tid).1) = rounds (play s).
Proof. unfold sequenced. by repeat (case_goal; try done). Qed.

Lemma sequenced_rejects s pid seq tid s' rej : sequenced s pid seq tid = (s', Some rej) -> res_code rej <> OK.
Proof. unfold sequenced. repeat (case_goal; try (intros [= <- <-]; try done)). Qed.

(** The operations that do not touch the rounds. *)
Lemma admit_rounds s slot ballot k player s' res : admit_entrant s slot ballot k player = Some (s', res) ->
  rounds (play s') = rounds (play s).
Proof.
  unfold admit_entrant. intros (t & _ & H)%bind_Some. destruct (admit_refusal t player); [by injection H as <- _|]. cbv zeta in H.
  destruct (checkFresh _ _); [by injection H as <- _|]. apply bind_Some in H as ([b [[q posted] err]] & _ & H).
  destruct err; [by injection H as <- _|]. destruct posted; by injection H as <- _.
Qed.

Lemma enter_rounds s slot ballot tid player seq s' res : enterPlay s slot ballot tid player seq = Some (s', res) ->
  rounds (play s') = rounds (play s).
Proof.
  unfold enterPlay. pose proof (sequenced_rounds s player seq tid) as Hq. destruct (sequenced s player seq tid) as [s1 [rej|]]; [by intros [= <- _]|].
  intros (ps & _ & H)%bind_Some. cbv zeta in H. apply bind_Some in H as ([s2 r] & Ha & H). apply admit_rounds in Ha.
  apply bind_Some in H as (out & _ & H). case_decide; [|injection H as <- _; cbn in Hq; congruence].
  apply bind_Some in H as (t & _ & (e & _ & H)%bind_Some). injection H as <- _. cbn in *. congruence.
Qed.

Lemma claim_rounds s slot ballot tid player seq s' res : claimPayout s slot ballot tid player seq = Some (s', res) ->
  rounds (play s') = rounds (play s).
Proof.
  unfold claimPayout. pose proof (sequenced_rounds s player seq tid) as Hq. destruct (sequenced s player seq tid) as [s1 [rej|]]; [by intros [= <- _]|].
  cbn in Hq. intros (t & _ & (out & _ & H)%bind_Some)%bind_Some. repeat (case_hyp H; [by injection H as <- _|]). cbv zeta in H.
  apply bind_Some in H as ([b [[q posted] err]] & _ & H). case_hyp H; by injection H as <- _.
Qed.

Lemma recordStatus_rounds s slot k s' : recordStatus s slot k = Some s' -> rounds (play s') = rounds (play s).
Proof. unfold recordStatus. intros (t & _ & H)%bind_Some. cbv zeta in H. injection H as <-. by rewrite recordLeaderboard_rounds. Qed.

Lemma settle_rounds s slot ballot tid ex s' res : settle s slot ballot tid ex = Some (s', res) -> rounds (play s') = rounds (play s).
Proof.
  unfold settle. destruct (ValidateExclusions ex); [by intros [= <- _]|]. destruct (tournaments s !! tid) as [t|]; [|by intros [= <- _]].
  case_goal; [by intros [= <- _]|]. cbv zeta. destruct (first_error _ _); [by intros [= <- _]|]. destruct (checkFresh _ _); [by intros [= <- _]|].
  intros (b & _ & H)%bind_Some. set (s1 := put_tournament _ _ _) in H. apply bind_Some in H as (s2 & H & Es). injection Es as <- _.
  change (rounds (play s)) with (rounds (play s1)). destruct (String.eqb _ ""); [by injection H as <-|].
  apply bind_Some in H as (s3 & Hs & H). injection H as <-. rewrite <- (recordStatus_rounds _ _ _ _ Hs). generalize (ComputePayouts t (canonicalExclusions ex)) as l. clear.
  intros l. revert s3. induction l as [|p l IH]; intros s3; [done|]. simpl. rewrite IH. by case_goal.
Qed.

Lemma score_rounds s tid player sc seed digest s' res : score s tid player sc seed digest = Some (s', res) -> rounds (play s') = rounds (play s).
Proof.
  unfold score. destruct (tournaments s !! tid) as [t|]; [|by intros [= <- _]]. repeat (case_goal; [by intros [= <- _]|]).
  destruct (entry_index t player) as [i|]; [|by intros [= <- _]]. intros (e & _ & H)%bind_Some. repeat (case_hyp H; [by injection H as <- _|]).
  apply bind_Some in H as (t' & _ & H). by injection H as <- _.
Qed.

Lemma open_session_rounds s slot received d v p j a s' res : openSession s slot received d v p j a = Some (s', res) ->
  rounds (play s') = rounds (play s).
Proof.
  unfold openSession. case_goal; [by intros [= <- _]|]. destruct (bindings (play s) !! d) as [b|].
  - case_goal; [by intros [= <- _]|]. intros (ps & _ & H)%bind_Some. by injection H as <- _.
  - destruct (ValidatePlayer _); [by intros [= <- _]|]. case_goal; by intros [= <- _].
Qed.

(** ** The operations that do *)

(** The fresh deal is not over. *)
Lemma layout_not_over deck : deck ≡ₚ canonical_deck -> Over (layout deck) = Some None.
Proof.
  intros Hp. pose proof (Permutation_length Hp) as Hl. change (length canonical_deck) with 52%nat in Hl. unfold Over, Cleared, layout. cbn [Columns Stock].
  assert (Hz : zsum (map len (map (fun c => take 5 (drop (c * 5) deck)) (seq 0 7))) = 35).
  { cbn [map seq]. unfold len. rewrite !length_take, !length_drop, Hl. done. }
  rewrite Hz. unfold len. rewrite length_drop, Hl. done.
Qed.

Lemma deal_not_over seed : is_Some (Deal fuel seed) -> exists b, Replay fuel seed [] = Some (b, None) /\ Over b = Some None.
Proof.
  intros [b Hb]. exists b. unfold Replay. rewrite Hb. split; [done|]. unfold Deal in Hb.
  destruct (Shuffle fuel seed) as [deck|] eqn:Es; [|done]. injection Hb as <-. apply layout_not_over. by eapply shuffle_from_Permutation.
Qed.

Lemma startRound_live s slot tid player seq round seed s' res : is_Some (Deal fuel seed) ->
  startRound s slot tid player seq round seed = Some (s', res) -> rounds_live (rounds (play s)) ->
  rounds_live (rounds (play s')) /\ (res_code res = OK -> po_move_index (res_play res) = 0).
Proof.
  unfold startRound. intros Hd. pose proof (sequenced_rounds s player seq tid) as Hq.
  destruct (sequenced s player seq tid) as [s1 [rej|]] eqn:Es; cbn in Hq.
  { intros [= <- <-] L. split; [by rewrite Hq|]. intros Hc. by destruct (sequenced_rejects _ _ _ _ _ _ Es). }
  intros (t & _ & (out & Ho & H)%bind_Some)%bind_Some L. cbv zeta in H.
  do 5 (case_hyp H; [injection H as <- <-; rewrite Hq; split; [done|by intros]|]). injection H as <- <-.
  split.
  - cbn -[Replay]. rewrite Hq. apply live_insert; [done|]. intros _. cbn [rr_seed rr_moves]. by apply deal_not_over.
  - intros _. unfold outcome in Ho. apply bind_Some in Ho as (ps & _ & Ho). by injection Ho as <-.
Qed.

(** The view of a result: its move count is one of the record's. *)
Definition counted (rs : gmap roundKey RoundRecord) (key : roundKey) (res : Result) : Prop :=
  exists rec, rs !! key = Some rec /\ 0 <= po_move_index (res_play res) <= len (rr_moves rec).

Lemma finishRound_counted s slot k i rk board reason flag s' n : finishRound fuel s slot k i rk board reason flag = Some s' ->
  (exists rec, rounds (play s) !! rk = Some rec /\ 0 <= n <= len (rr_moves rec)) ->
  exists rec, rounds (play s') !! rk = Some rec /\ 0 <= n <= len (rr_moves rec).
Proof.
  intros H (rec & Hr & Hn). destruct (finishRound_rounds _ _ _ _ _ _ _ _ _ H) as (rec' & b & Hr' & ->). simplify_eq.
  eexists. split; [apply lookup_insert_eq|exact Hn].
Qed.

Lemma roundFor_key s t pid round out rk i : roundFor s t pid round out = inl (rk, i) -> rk = (t_id t, pid, round).
Proof. unfold roundFor. destruct (entry_index t pid); [|done]. case_goal; [done|]. destruct (rounds _ !! _); [by intros [= <- _]|done]. Qed.

Lemma roundFor_rejects s t pid round out rej : roundFor s t pid round out = inr rej -> res_code rej <> OK.
Proof.
  unfold roundFor. destruct (entry_index t pid); [|by intros [= <-]]. case_goal; [by intros [= <-]|].
  destruct (rounds _ !! _); [done|by intros [= <-]].
Qed.

Lemma Replay_snoc seed ms b m b' : Replay fuel seed ms = Some (b, None) -> Game.Apply b m = Some (b', None) ->
  Replay fuel seed (ms ++ [m]) = Some (b', None).
Proof. unfold Replay. destruct (Deal fuel seed) as [b0|]; [|done]. simpl. apply replay_from_snoc. Qed.

(** A move: the record has one more, and is finished when the round is over. *)
Lemma playMove_live s slot tid player seq round index mv s' res :
  playMove fuel s slot tid player seq round index mv = Some (s', res) -> rounds_live (rounds (play s)) ->
  rounds_live (rounds (play s')) /\
  (res_code res = OK -> exists t, tournaments (sequenced s player seq tid).1 !! tid = Some t /\
     counted (rounds (play s')) (t_id t, player, round) res).
Proof.
  unfold playMove. pose proof (sequenced_rounds s player seq tid) as Hq.
  destruct (sequenced s player seq tid) as [s1 [rej|]] eqn:Es; cbn in Hq.
  { intros [= <- <-] L. split; [by rewrite Hq|]. intros Hc. by destruct (sequenced_rejects _ _ _ _ _ _ Es). }
  intros (t & Ht & (out & _ & H)%bind_Some)%bind_Some L. rewrite <- Hq in L. clear Hq. cbv zeta in H.
  case_hyp H; [injection H as <- <-; split; [done|by intros]|].
  destruct (roundFor s1 t player round _) as [[rk i]|rej] eqn:Er.
  2:{ injection H as <- <-. split; [done|]. intros Hc. by destruct (roundFor_rejects _ _ _ _ _ _ Er). }
  apply roundFor_key in Er as ->. apply bind_Some in H as (rec & Hr & H).
  do 3 (case_hyp H; [injection H as <- <-; split; [done|by intros]|]).
  apply bind_Some in H as ([b [err|]] & Hb & H); [injection H as <- <-; split; [done|by intros]|].
  apply bind_Some in H as ([b' [err|]] & Ha & H); [injection H as <- <-; split; [done|by intros]|].
  set (rec' := add_move rec mv slot) in H. set (key := (t_id t, player, round)) in *.
  set (s2 := set_play s1 _) in H. apply bind_Some in H as (over & Ho & H). apply bind_Some in H as (s3 & H3 & H). injection H as <- <-.
  assert (Hs2 : rounds (play s2) = <[key := rec']> (rounds (play s1))) by done.
  assert (Hc2 : exists x, rounds (play s2) !! key = Some x /\ 0 <= len (rr_moves rec') <= len (rr_moves x)).
  { exists rec'. rewrite Hs2, lookup_insert_eq. split; [done|]. pose proof (len_nonneg (rr_moves rec')). lia. }
  destruct over as [reason|].
  - split.
    + apply (finishRound_live _ _ _ _ _ _ _ _ _ H3). rewrite Hs2, delete_insert_eq. by apply live_delete.
    + intros _. exists t. split; [done|]. exact (finishRound_counted _ _ _ _ _ _ _ _ _ _ H3 Hc2).
  - injection H3 as <-. split; [|intros _; by exists t]. rewrite Hs2. apply live_insert; [done|]. intros _.
    exists b'. split; [|done]. by apply (Replay_snoc _ _ b).
Qed.

Lemma finish_live s slot tid player seq round s' res : finishRoundCmd fuel s slot tid player seq round = Some (s', res) ->
  rounds_live (rounds (play s)) -> rounds_live (rounds (play s')) /\
  (res_code res = OK -> exists t, tournaments (sequenced s player seq tid).1 !! tid = Some t /\
     counted (rounds (play s')) (t_id t, player, round) res).
Proof.
  unfold finishRoundCmd. pose proof (sequenced_rounds s player seq tid) as Hq.
  destruct (sequenced s player seq tid) as [s1 [rej|]] eqn:Es; cbn in Hq.
  { intros [= <- <-] L. split; [by rewrite Hq|]. intros Hc. by destruct (sequenced_rejects _ _ _ _ _ _ Es). }
  intros (t & Ht & (out & _ & H)%bind_Some)%bind_Some L. rewrite <- Hq in L. clear Hq. cbv zeta in H.
  destruct (roundFor s1 t player round _) as [[rk i]|rej] eqn:Er.
  2:{ injection H as <- <-. split; [done|]. intros Hc. by destruct (roundFor_rejects _ _ _ _ _ _ Er). }
  apply roundFor_key in Er as ->. apply bind_Some in H as (rec & Hr & H).
  assert (Hc : exists x, rounds (play s1) !! (t_id t, player, round) = Some x /\ 0 <= len (rr_moves rec) <= len (rr_moves x)).
  { exists rec. split; [done|]. pose proof (len_nonneg (rr_moves rec)). lia. }
  case_hyp H; [injection H as <- <-; split; [done|intros _; by exists t]|].
  case_hyp H; [injection H as <- <-; split; [done|by intros]|].
  apply bind_Some in H as (s2 & H2 & H). injection H as <- <-. split.
  - apply (finishRound_live _ _ _ _ _ _ _ _ _ H2). by apply live_delete.
  - intros _. exists t. split; [done|]. exact (finishRound_counted _ _ _ _ _ _ _ _ _ _ H2 Hc).
Qed.

Lemma foldM_keeps {A B} (P : B -> Prop) (f : B -> A -> option B) l b b' :
  (forall b x b', P b -> f b x = Some b' -> P b') -> P b -> foldM f b l = Some b' -> P b'.
Proof.
  intros H. revert b. induction l as [|x l IH]; intros b Hb; simpl; [by intros [= <-]|]. intros (b1 & E & E')%bind_Some. eauto.
Qed.

Lemma close_live s slot tid s' res : close fuel s slot tid = Some (s', res) -> rounds_live (rounds (play s)) -> rounds_live (rounds (play s')).
Proof.
  unfold close. destruct (tournaments s !! tid) as [t|]; [|by intros [= <- _]]. case_goal; [by intros [= <- _]|].
  intros (s1 & H1 & (t1 & _ & H)%bind_Some)%bind_Some L. cbv zeta in H. set (s2 := put_tournament _ _ _) in H.
  assert (L1 : rounds_live (rounds (play s1))).
  { case_hyp H1; [by injection H1 as <-|]. unfold closeRounds in H1. apply bind_Some in H1 as (t0 & _ & H1). cbv zeta in H1.
    apply bind_Some in H1 as (s0 & H0 & H1). set (P := fun s : State => rounds_live (rounds (play s))).
    apply (foldM_keeps P _ _ s0) in H1; [done| |].
    - intros b i b' Hb He. unfold close_entry in He. apply bind_Some in He as (t2 & _ & (e & _ & He)%bind_Some).
      repeat (case_hyp He; try (by injection He as <-)). unfold P. by rewrite (scoreEntry_rounds _ _ _ _ _ He).
    - apply (foldM_keeps P _ _ s) in H0; [done| |done]. intros b i b' Hb Hi. apply (foldM_keeps P _ _ b) in Hi; [done| |done].
      clear -U. intros b r b' Hb He. unfold close_round in He. apply bind_Some in He as (t2 & _ & (e & _ & He)%bind_Some). cbv zeta in He.
      repeat (case_hyp He; try (by injection He as <-)). apply (finishRound_live _ _ _ _ _ _ _ _ _ He). by apply live_delete. }
  apply bind_Some in H as (s3 & H3 & H). injection H as <- _. case_hyp H3; [by injection H3 as <-|].
  by rewrite (recordStatus_rounds _ _ _ _ H3).
Qed.

(** Every command leaves the rounds in play alive. *)
Lemma dispatch_live s slot ballot received op s' res : command_ok fuel (mkCommand "" received (Some op)) ->
  dispatch fuel s slot ballot received op = Some (s', res) -> rounds_live (rounds (play s)) -> rounds_live (rounds (play s')).
Proof.
  intros Hok H L. destruct op; cbn [dispatch] in H.
  - unfold create in H. repeat (case_hyp H; try by injection H as <- _).
  - unfold join in H. destruct (ValidatePlayer player); [by injection H as <- _|]. destruct (tournaments s !! tournament); [|by injection H as <- _].
    case_hyp H; [by injection H as <- _|]. apply bind_Some in H as ([s1 r] & Ha & H). injection H as <- _. by rewrite (admit_rounds _ _ _ _ _ _ _ Ha).
  - by rewrite (score_rounds _ _ _ _ _ _ _ _ H).
  - by eapply close_live.
  - by rewrite (settle_rounds _ _ _ _ _ _ _ H).
  - by rewrite (open_session_rounds _ _ _ _ _ _ _ _ _ _ H).
  - by rewrite (enter_rounds _ _ _ _ _ _ _ _ H).
  - by apply (startRound_live _ _ _ _ _ _ _ _ _ Hok H).
  - by apply (playMove_live _ _ _ _ _ _ _ _ _ _ H).
  - by apply (finish_live _ _ _ _ _ _ _ _ H).
  - by rewrite (claim_rounds _ _ _ _ _ _ _ _ H).
Qed.

Lemma Apply_live s slot ballot cmd s' res : command_ok fuel cmd -> Apply fuel s slot ballot cmd = Some (s', res) ->
  rounds_live (rounds (play s)) -> rounds_live (rounds (play s')).
Proof.
  unfold Apply. intros Hok H L. case_hyp H; [by injection H as <- _|]. cbv zeta in H.
  apply bind_Some in H as ([s1 r1] & He & H). apply bind_Some in H as (s2 & Hm & H). injection H as <- _.
  unfold mix in Hm. apply bind_Some in Hm as (w & _ & Hm). injection Hm as <-. cbn [play set_hash].
  assert (L0 : rounds_live (rounds (play (start_slot s slot cmd)))) by exact L. revert He L0. generalize (start_slot s slot cmd) as s0. clear -Hok.
  intros s0 H L. unfold execute in H. destruct (ValidateKey _); [by injection H as <- _|]. cbv zeta in H.
  destruct (results s0 !! _); [case_hyp H; by injection H as <- _|]. destruct (cmd_op cmd) as [op|] eqn:Eo; [|by injection H as <- _].
  apply bind_Some in H as ([s2 r2] & Hd & H). cbv zeta in H. injection H as <- _. cbn [play put_result].
  refine (dispatch_live _ _ _ _ _ _ _ _ Hd L). unfold command_ok in *. by rewrite Eo in Hok.
Qed.

Lemma later_live s s' : later fuel s s' -> rounds_live (rounds (play s)) -> rounds_live (rounds (play s')).
Proof.
  induction 1 as [|s1 s2 s3 C _ IH]; [done|]. intros L. apply IH. destruct C as [slot ballot cmd s2 res Hok H|slot].
  - by eapply Apply_live.
  - unfold Skip. by case_goal.
Qed.

Lemma reachable_live s : reachable fuel s -> rounds_live (rounds (play s)).
Proof. intros H. apply (later_live NewState s H). by intros key rec Hk. Qed.

(** * What a view offers *)

Definition offered (v : RoundView) (m : Move) : Prop :=
  (mv_kind m = Play /\ mv_column m ∈ rv_playable_columns v) \/ (mv_kind m = Draw /\ mv_column m = NoColumn /\ rv_can_draw v = true).

Lemma replay_moves i b ms b' : board_wf b -> replay_from i b ms = Some (b', None) -> Moves b' = Moves b + len ms.
Proof.
  revert i b. induction ms as [|m ms IH]; intros i b W; cbn [replay_from]; [intros [= <-]; change (len []) with 0; lia|].
  destruct (apply_board_wf b m W) as [(e & _ & ->)|(_ & b1 & -> & W1 & Hm & _)]; [done|]. cbn [mbind option_bind].
  intros H. rewrite (IH _ _ W1 H), Hm, len_cons. lia.
Qed.

Lemma board_moves seed ms b : Replay fuel seed ms = Some (b, None) -> board_wf b /\ 0 <= len ms <= 51.
Proof.
  unfold Replay. destruct (Deal fuel seed) as [b0|] eqn:D; [|done]. cbn [mbind option_bind]. intros H.
  pose proof (Deal_wf _ _ _ D) as W0. destruct (replay_from_wf 0 b0 ms W0) as (b1 & e & H1 & W1 & _). rewrite H in H1. injection H1 as <- _.
  split; [done|]. pose proof (replay_moves 0 b0 ms b W0 H). pose proof (Moves_bounds b W1). pose proof (Moves_bounds b0 W0). pose proof (len_nonneg ms). lia.
Qed.

(** On a board that is not over, the view offers the legal moves. *)
Lemma offered_legal rec t round n b top lm ps m : board_wf b -> Over b = Some None -> WasteCard b = Some top -> Playable b = Some ps ->
  offered (board_view rec t round n b top lm <| rv_playable_columns := map i32 ps |> <| rv_can_draw := 0 <? len (Stock b) |>) m <->
  Check b m = Some None.
Proof.
  intros W Ho Hw Hp. rewrite (Check_legal b m W). unfold offered. cbn [rv_playable_columns rv_can_draw assign].
  assert (Hcol : forall c, c ∈ map i32 ps <-> c ∈ ps).
  { assert (Hid : map i32 ps = ps); [|by rewrite Hid]. rewrite <- (map_id ps) at 2. apply map_ext_in. intros c Hc%list_elem_of_In.
    apply (Playable_spec b ps top c Hp Hw) in Hc as (i & col & -> & Hi & _). apply lookup_lt_Some in Hi. rewrite (bw_columns b W) in Hi.
    apply i32_id. unfold in_i32. lia. }
  change (rv_playable_columns _) with (map i32 ps). rewrite Hcol, (Playable_spec b ps top _ Hp Hw). split.
  - intros [[Hk (i & col & Hc & Hi & Hpl)]|(Hk & Hc & Hd)]; (split; [done|]); destruct m as [k c]; simpl in *; subst.
    + unfold column_playable in Hpl. destruct (last col) as [x|] eqn:Hx; [|done]. by eapply legal_play.
    + apply legal_draw. apply Z.ltb_lt in Hd. intros Hs. rewrite Hs in Hd. done.
  - intros [_ [Hs|i col c w Hi Hx Hw' Ha]]; simpl.
    + right. split_and!; [done..|]. apply Z.ltb_lt. destruct (Stock b) as [|x l]; [done|]. rewrite len_cons. pose proof (len_nonneg l). lia.
    + left. split; [done|]. exists i, col. split_and!; [done..|]. unfold column_playable. rewrite Hx. simplify_eq. by rewrite Ha.
Qed.

(** The current view of a round in play. *)
Lemma view_in_play s t p round rec b : ReadRound s t p round = Some rec -> rr_status rec <> RoundDone ->
  Replay fuel (rr_seed rec) (rr_moves rec) = Some (b, None) -> board_wf b ->
  exists top lm ps, WasteCard b = Some top /\ Playable b = Some ps /\
    BuildRoundView fuel s t p round 0 = Some (Some (board_view rec t round (len (rr_moves rec)) b top lm
      <| rv_playable_columns := map i32 ps |> <| rv_can_draw := 0 <? len (Stock b) |>)).
Proof.
  intros Hr Hn Hb W. destruct (Playable_wf b W) as (top & Ht & Hp). unfold BuildRoundView, BuildRoundViewAt. rewrite Hr. cbn [Z.eqb negb andb].
  rewrite (proj2 (Z.ltb_lt (-1) 0)) by lia. cbn [orb]. rewrite firstn_all2 by (unfold len; lia). rewrite Hb. cbn [mbind option_bind].
  rewrite Ht. cbn [mbind option_bind]. assert (Hlm : exists lm, last_move rec (len (rr_moves rec)) top = Some lm).
  { unfold last_move. destruct (Z.leb_spec (len (rr_moves rec)) 0); [eauto|]. unfold len in *.
    destruct (lookup_lt_is_Some_2 (rr_moves rec) (Z.to_nat (Z.of_nat (length (rr_moves rec)) - 1))) as [m ->]; [lia|]. cbn. eauto. }
  destruct Hlm as [lm Hlm]. rewrite Hlm. cbn [mbind option_bind]. destruct (String.eqb_spec (rr_status rec) RoundDone); [done|]. cbn [andb].
  rewrite Hp. cbn [mbind option_bind]. eauto 10.
Qed.

(** C31. What a view offers is what the state machine accepts: for a round in
    play, the view can be built, and the player's next intent, a move with the
    view's move count made before the deadline, is accepted exactly when the
    view offers it: a listed column, or a draw when it says one is possible. *)
Theorem offered_moves_accepted s slot tid p round rec ps : reachable fuel s -> ReadRound s tid p round = Some rec ->
  rr_status rec <> RoundDone -> clock s <= rr_deadline_ms rec ->
  ReadPlayer s p = Some ps -> pr_last_seq ps + 1 < 2 ^ 64 ->
  exists v, BuildRoundView fuel s tid p round 0 = Some (Some v) /\
    forall m, exists s' res, playMove fuel s slot tid p (pr_last_seq ps + 1) round (rv_move_index v) m = Some (s', res) /\
      (res_code res = OK <-> offered v m).
Proof using U.
  intros Hs Hr Hn Hdl Hp Hl. destruct (reachable_good fuel s Hs) as [I _]. destruct (reachable_live s Hs _ rec Hr Hn) as (b & Hb & Hov).
  destruct (board_moves _ _ _ Hb) as [W Hm]. destruct (view_in_play s tid p round rec b Hr Hn Hb W) as (top & lm & cols & Ht & Hpl & ->).
  eexists. split; [reflexivity|]. intros m.
  match goal with |- context [rv_move_index ?v] => assert (Hi : rv_move_index v = len (rr_moves rec)) end.
  { cbn. apply i32_id. unfold in_i32. lia. }
  rewrite Hi.
  unfold ReadPlayer in Hp. destruct (players (play s) !! p) as [pst|] eqn:Ep; [|done]. injection Hp as <-.
  destruct (play_move_runs fuel slot zero_ballot s tid p (pr_last_seq (pst_rec pst) + 1) round (len (rr_moves rec)) m I) as (s' & res & E & _).
  exists s', res. split; [exact E|]. rewrite offered_legal by done.
  pose proof (pv_rounds _ _ _ (inv_play _ _ _ I) _ _ _ _ Hr) as R.
  destruct (rk_entry _ _ _ _ _ _ _ R) as (t & Et & Hg & Hj & Hop). specialize (Hop Hn). pose proof (rk_range _ _ _ _ _ _ _ R) as Hrange.
  destruct (proj2 (pv_bindings _ _ _ (inv_play _ _ _ I)) p pst Ep) as (_ & _ & _ & _ & _ & H0).
  pose proof (to_id tid t (proj1 (inv_tournaments _ _ _ I) tid t Et)) as Hid.
  unfold playMove in E. rewrite (sequenced_next s p tid pst t) in E by (done || lia). set (s1 := consume s p pst) in E.
  unfold deref in E. change (tournaments s1 !! tid) with (tournaments s !! tid) in E. rewrite Et in E. cbn [mbind option_bind] in E.
  apply bind_Some in E as (out & _ & E). cbv zeta in E. rewrite bool_decide_eq_true_2 in E by done. cbn [negb] in E.
  destruct (entry_index_is_Some t p) as [_ Hix]. destruct (Hix Hj) as [idx Hidx].
  unfold roundFor in E. rewrite Hidx, (proj2 (validRound_spec round) Hrange), Hid in E. cbn [negb] in E.
  change (rounds (play s1) !! (tid, p, round)) with (ReadRound s tid p round) in E. rewrite Hr in E. cbv iota beta in E.
  change (rounds (play s1) !! (tid, p, round)) with (ReadRound s tid p round) in E. rewrite Hr in E. cbn [mbind option_bind] in E.
  destruct (String.eqb_spec (rr_status rec) RoundDone); [done|]. change (clock s1) with (clock s) in E.
  rewrite (proj2 (Z.ltb_ge _ _)), Z.eqb_refl, Hb in E by lia. cbn [negb mbind option_bind] in E.
  destruct (apply_board_wf b m W) as [(e & Hc & Ha)|(Hc & b' & Ha & _)]; rewrite Ha in E; cbn [mbind option_bind] in E.
  - injection E as <- <-. rewrite Hc. split; [by intros|by intros [= ]].
  - apply bind_Some in E as (o & _ & E). apply bind_Some in E as (s3 & _ & E). injection E as <- <-. by rewrite Hc.
Qed.
End Live.

(** * The hypotheses hold *)

Section Witnesses.
#[local] Existing Instance ascii_unicode.

(** After the first move, with the round in play. *)
Definition demo_in_play (s : State) (rs : list Result) : bool :=
  (applied s =? 5) && (clock s =? 5000) &&
  match ReadRound s "t1" "p1" 1, ReadPlayer s "p1" with
  | Some rec, Some ps => String.eqb (rr_status rec) RoundInPlay && (len (rr_moves rec) =? 1) &&
      (clock s <=? rr_deadline_ms rec) && (pr_last_seq ps =? 3)
  | _, _ => false
  end &&
  match Apply 1 s 6 demo_ballot (demo_cmd 6 (FinishRound "t1" "p1" 4 1)) with Some _ => true | None => false end.

Lemma demo_in_play_run :
  match apply_log 1 NewState 1 demo_ballot (take 5 demo_cmds) with Some (s, rs) => demo_in_play s rs | None => false end = true.
Proof. vm_compute. reflexivity. Qed.

Lemma demo_in_play_state : exists s rec ps, reachable 1 s /\ applied s = 5 /\ ReadRound s "t1" "p1" 1 = Some rec /\
  rr_status rec <> RoundDone /\ len (rr_moves rec) = 1 /\ clock s <= rr_deadline_ms rec /\
  ReadPlayer s "p1" = Some ps /\ pr_last_seq ps = 3 /\
  exists s' res, Apply 1 s 6 demo_ballot (demo_cmd 6 (FinishRound "t1" "p1" 4 1)) = Some (s', res).
Proof.
  destruct (demo_run 5 demo_in_play demo_in_play_run) as (s & rs & Hr & H). unfold demo_in_play in H.
  apply andb_true_iff in H as [H Ha]. apply andb_true_iff in H as [H Hrec]. apply andb_true_iff in H as [Hap%Z.eqb_eq _].
  destruct (ReadRound s "t1" "p1" 1) as [rec|] eqn:Er; [|discriminate Hrec]. destruct (ReadPlayer s "p1") as [ps|] eqn:Ep; [|discriminate Hrec].
  apply andb_true_iff in Hrec as [Hrec Hps%Z.eqb_eq]. apply andb_true_iff in Hrec as [Hrec Hdl%Z.leb_le].
  apply andb_true_iff in Hrec as [Hst%String.eqb_eq Hm%Z.eqb_eq].
  destruct (Apply 1 s 6 _ _) as [[s' res]|] eqn:Ea; [|discriminate Ha].
  exists s, rec, ps. rewrite Hst. split_and!; (done || eauto).
Qed.

(** The view of the first move, before and after the round is finished. *)
Lemma round_view_stable_witness : exists s s', reachable 1 s /\ later 1 s s' /\
  BuildRoundViewAt 1 s' "t1" "p1" 1 1 5 = BuildRoundViewAt 1 s "t1" "p1" 1 1 5.
Proof.
  destruct demo_in_play_state as (s & rec & ps & Hr & Ha & Hrec & _ & Hm & _ & _ & _ & s' & res & E). exists s, s'.
  assert (L : later 1 s s') by (apply rtc_once; eapply st_apply; [|exact E]; exact I).
  assert (Hle : 0 < 5 <= applied s) by (rewrite Ha; split; [reflexivity|apply Z.le_refl]).
  assert (Hmv : forall rec0, ReadRound s "t1" "p1" 1 = Some rec0 -> 0 <= 1 <= len (rr_moves rec0)).
  { rewrite Hrec. intros rec0 [= <-]. rewrite Hm. split; discriminate. }
  exact (conj Hr (conj L (round_view_stable 1 s s' "t1" "p1" 1 1 5 Hr L Hle Hmv))).
Defined.

(** The board after the first move, and every move on it. *)
Lemma offered_moves_accepted_witness : exists s v, reachable 1 s /\ BuildRoundView 1 s "t1" "p1" 1 0 = Some (Some v) /\
  forall m, exists s' res, playMove 1 s 6 "t1" "p1" 4 1 (rv_move_index v) m = Some (s', res) /\ (res_code res = OK <-> offered v m).
Proof.
  destruct demo_in_play_state as (s & rec & ps & Hr & _ & Hrec & Hn & _ & Hdl & Hp & Hq & _).
  assert (Hl : pr_last_seq ps + 1 < 2 ^ 64) by (rewrite Hq; reflexivity).
  destruct (offered_moves_accepted 1 s 6 "t1" "p1" 1 rec ps Hr Hrec Hn Hdl Hp Hl) as (v & Hv & H). rewrite Hq in H.
  exists s, v. exact (conj Hr (conj Hv H)).
Defined.
End Witnesses.
