(* ===== verification/Programs.v ===== *)
(** Handlers as programs: a handler runs on a goroutine of its own, and what it
    does with the rest of the process is a sequence of calls.

    [prog E A] is a tree of the calls of [E], ending with a value.  What a call
    returns is the caller's to choose, so a statement about every run of a
    program covers every interleaving and every failure.  [safe] and [triple]
    are its program logic: a weakest precondition with the history of the calls
    made so far. *)

From S2P Require Import Prelude.

(** * Programs *)

Inductive prog (E : Type -> Type) (A : Type) :=
| Ret (a : A)
| Call {R : Type} (e : E R) (k : R -> prog E A).
Arguments Ret {E A} a.
Arguments Call {E A R} e k.

Fixpoint pbind {E A B} (p : prog E A) (f : A -> prog E B) : prog E B :=
  match p with Ret a => f a | Call e k => Call e (fun r => pbind (k r) f) end.

(** Every run of [p] makes a call that is selected. *)
Fixpoint inevitable {E A} (selected : forall R, E R -> bool) (p : prog E A) : Prop :=
  match p with Ret _ => False | Call e k => if selected _ e then True else forall r, inevitable selected (k r) end.

(** A value to go on with, the response that answers the request, a panic. *)
Inductive Outcome (P A : Type) := Go (a : A) | Answer (r : P) | Panic.
Arguments Go {P A} a.
Arguments Answer {P A} r.
Arguments Panic {P A}.

Definition M (E : Type -> Type) (P A : Type) := prog E (Outcome P A).
Definition go {E P A} (a : A) : M E P A := Ret (Go a).
Definition then_ {E P A B} (m : M E P A) (f : A -> M E P B) : M E P B :=
  pbind m (fun o => match o with Go a => f a | Answer r => Ret (Answer r) | Panic => Ret Panic end).
Definition call {E P R} (e : E R) : M E P R := Call e (fun r => go r).

Notation "x <~ m ; k" := (then_ m (fun x => k)) (at level 20, m at level 100, k at level 200, right associativity) : go_scope.
Notation "' pat <~ m ; k" := (then_ m (fun pat => k)) (at level 20, pat pattern, m at level 100, k at level 200, right associativity) : go_scope.

(** * Histories *)

(** A call and what it returned. *)
Inductive event (E : Type -> Type) := | Ev {R : Type} (e : E R) (r : R).
Arguments Ev {E R} e r.

(** The calls of [h] come first in [h']. *)
Notation "h ⊑ₕ h'" := (prefix h h') (at level 70).

Section Logic.
Context {E : Type -> Type}.
Notation hist := (list (event E)).

Lemma called {R} (e : E R) r (h : hist) : Ev e r ∈ h ++ [Ev e r].
Proof. apply elem_of_app. right. by apply list_elem_of_singleton. Qed.

Lemma later_call (ev : event E) (h h' : hist) : ev ∈ h -> h ⊑ₕ h' -> ev ∈ h'.
Proof. intros H [k ->]. apply elem_of_app. by left. Qed.

Lemma later_snoc (h : hist) (ev : event E) : h ⊑ₕ h ++ [ev].
Proof. by exists [ev]. Qed.

(** [safe p h Q]: after the calls of [h], whatever the calls of [p] return,
    [p] makes only calls the history then allows, and ends with a history and a
    value that satisfy [Q]. *)
Context (allowed : hist -> forall R, E R -> Prop).

Fixpoint safe {A} (p : prog E A) (h : hist) (Q : hist -> A -> Prop) : Prop :=
  match p with
  | Ret a => Q h a
  | Call e k => allowed h _ e /\ forall r, safe (k r) (h ++ [Ev e r]) Q
  end.

Lemma safe_mono {A} (p : prog E A) h (Q Q' : hist -> A -> Prop) :
  (forall h a, Q h a -> Q' h a) -> safe p h Q -> safe p h Q'.
Proof.
  intros HQ. revert h. induction p as [a|R e k IH]; intros h; simpl; [apply HQ|].
  intros [He H]. split; [done|]. intros r. by apply IH.
Qed.

Lemma safe_pbind {A B} (p : prog E A) (f : A -> prog E B) h Q :
  safe p h (fun h' a => safe (f a) h' Q) -> safe (pbind p f) h Q.
Proof.
  revert h. induction p as [a|R e k IH]; intros h; simpl; [done|].
  intros [He H]. split; [done|]. intros r. by apply IH.
Qed.

(** ** Runs *)

(** [p] can end with [a] after the calls of [k]. *)
Inductive trace {A} : prog E A -> hist -> A -> Prop :=
| tr_ret a : trace (Ret a) [] a
| tr_call {R} (e : E R) f x k a : trace (f x) k a -> trace (Call e f) (Ev e x :: k) a.

Definition call_allowed (h : hist) (ev : event E) : Prop := match ev with Ev e _ => allowed h _ e end.

(** What is safe holds of every run. *)
Lemma trace_safe {A} (p : prog E A) k a h Q : trace p k a -> safe p h Q ->
  Q (h ++ k) a /\ forall k1 ev k2, k = k1 ++ ev :: k2 -> call_allowed (h ++ k1) ev.
Proof.
  intros H. revert h. induction H as [a|R e f x k a H IH]; intros h; simpl.
  - intros HQ. rewrite app_nil_r. split; [done|]. by intros [|? ?] ? ?.
  - intros [He Hs]. destruct (IH _ (Hs x)) as [H1 H2]. rewrite <- app_assoc in H1. split; [exact H1|].
    intros [|ev1 k1] ev k2 [= <- Hk]; [by rewrite app_nil_r|]. specialize (H2 _ _ _ Hk). by rewrite <- app_assoc in H2.
Qed.

(** The run in which every call is answered by [reply]. *)
Fixpoint run_with (reply : forall R, E R -> R) {A} (p : prog E A) : hist * A :=
  match p with
  | Ret a => ([], a)
  | Call e f => let '(k, a) := run_with reply (f (reply _ e)) in (Ev e (reply _ e) :: k, a)
  end.

Lemma run_with_trace reply {A} (p : prog E A) : trace p (run_with reply p).1 (run_with reply p).2.
Proof.
  induction p as [a|R e f IH]; simpl; [constructor|]. specialize (IH (reply R e)).
  destruct (run_with reply (f (reply R e))). by constructor.
Qed.

Lemma run_trace reply {A} (p : prog E A) a : (run_with reply p).2 = a -> trace p (run_with reply p).1 a.
Proof. intros <-. apply run_with_trace. Qed.

(** ** Triples *)

(** The responses a history allows. *)
Context {P : Type} (W : hist -> P -> Prop).

Definition ends {A} (h : hist) (Q : hist -> A -> Prop) (h' : hist) (o : Outcome P A) : Prop :=
  match o with Go a => h ⊑ₕ h' /\ Q h' a | Answer r => W h' r | Panic => True end.

(** [m] goes on with a value and a history that satisfy [Q], or answers. *)
Definition triple {A} (m : M E P A) (h : hist) (Q : hist -> A -> Prop) : Prop := safe m h (ends h Q).

Lemma triple_mono {A} (m : M E P A) h (Q Q' : hist -> A -> Prop) :
  (forall h' a, h ⊑ₕ h' -> Q h' a -> Q' h' a) -> triple m h Q -> triple m h Q'.
Proof. intros H. apply safe_mono. intros h' [a|r|]; simpl; [|done..]. intros [Hp HQ]. split; [done|by apply H]. Qed.

Lemma triple_then {A B} (m : M E P A) (f : A -> M E P B) h Q Q' :
  triple m h Q -> (forall h' a, h ⊑ₕ h' -> Q h' a -> triple (f a) h' Q') -> triple (then_ m f) h Q'.
Proof.
  intros Hm Hf. unfold triple, then_. apply safe_pbind. eapply safe_mono; [|exact Hm].
  intros h' [a|r|]; simpl; [|done..]. intros [Hp HQ]. eapply safe_mono; [|exact (Hf h' a Hp HQ)].
  intros h2 [b|r|]; simpl; [|done..]. intros [Hp2 H]. split; [by etrans|done].
Qed.

Lemma triple_go {A} (a : A) h (Q : hist -> A -> Prop) : Q h a -> triple (go a) h Q.
Proof. intros H. by split. Qed.

Lemma triple_answer {A} (r : P) h (Q : hist -> A -> Prop) : W h r -> triple (Ret (Answer r)) h Q.
Proof. done. Qed.

Lemma triple_panic {A} h (Q : hist -> A -> Prop) : triple (Ret Panic) h Q.
Proof. exact I. Qed.

Lemma triple_call {R} (e : E R) h (Q : hist -> R -> Prop) :
  allowed h _ e -> (forall r, Q (h ++ [Ev e r]) r) -> triple (call e) h Q.
Proof. intros He H. split; [done|]. intros r. split; [apply later_snoc|apply H]. Qed.

(** Nothing is said of what a call returns. *)
Lemma triple_call_any {R} (e : E R) h : allowed h _ e -> triple (call e) h (fun _ _ => True).
Proof. intros He. by apply triple_call. Qed.

(** What a call returned is in the history. *)
Lemma triple_called {R} (e : E R) h : allowed h _ e -> triple (call e) h (fun h' r => Ev e r ∈ h').
Proof. intros He. apply triple_call; [done|]. intros r. apply called. Qed.
End Logic.

#[export] Hint Resolve called later_snoc : hist.
