(* ===== verification/Serving.v ===== *)
(** Requests side by side: the handlers that run at the same time, and the keys
    in flight they share (the in-flight sets of internal/intent/server.go and
    internal/api/server.go).

    [serve] interleaves the calls of the programs being served.  A [Discipline]
    says of every program which key it holds; with one, the keys in flight are
    exactly the keys held, each by one program ([serving_served]). *)

From S2P Require Import Prelude Programs Records.

(** The in-flight set: taking a key that is free, and giving it up. *)
Definition lock_key (inflight : gset IdempotencyKey) (key : IdempotencyKey) : bool * gset IdempotencyKey :=
  if bool_decide (key ∈ inflight) then (false, inflight) else (true, {[key]} ∪ inflight).
Definition unlock_key (inflight : gset IdempotencyKey) (key : IdempotencyKey) : gset IdempotencyKey := inflight ∖ {[key]}.

Section Serving.
Context {E : Type -> Type} {A : Type}.

(** The handlers that may arrive, and the keys after a call that returns [r];
    [None] when it cannot return that. *)
Context (arrives : prog E A -> Prop) (returns : forall R, E R -> R -> gset IdempotencyKey -> option (gset IdempotencyKey)).

(** The keys in flight, and of every request being served what is left of its
    handler. *)
Record Serving := mkServing { inflight : gset IdempotencyKey; running : gmap nat (prog E A) }.

(** Requests arrive and leave; in between each makes its calls, in any order
    among them, and any call but those on the keys may return anything. *)
Inductive serve : Serving -> Serving -> Prop :=
| sv_arrives s i p : running s !! i = None -> arrives p -> serve s (mkServing (inflight s) (<[i := p]> (running s)))
| sv_calls s i R (e : E R) k r inflight' : running s !! i = Some (Call e k) -> returns R e r (inflight s) = Some inflight' ->
    serve s (mkServing inflight' (<[i := k r]> (running s)))
| sv_leaves s i o : running s !! i = Some (Ret o) -> serve s (mkServing (inflight s) (delete i (running s))).

Definition idle : Serving := mkServing ∅ ∅.

(** The run in which [i] makes its next call, answered by [reply]. *)
Definition turn (reply : gset IdempotencyKey -> forall R, E R -> R) (s : Serving) (i : nat) : Serving :=
  match running s !! i with
  | Some (Call e k) =>
      let r := reply (inflight s) _ e in
      match returns _ e r (inflight s) with Some fl => mkServing fl (<[i := k r]> (running s)) | None => s end
  | _ => s
  end.

Lemma turns_serve reply s l : rtc serve idle s -> rtc serve idle (foldl (turn reply) s l).
Proof.
  revert s. induction l as [|i l IH]; intros s H; [done|]. simpl. apply IH. unfold turn.
  destruct (running s !! i) as [[o|R e k]|] eqn:Er; [done| |done]. cbv zeta.
  destruct (returns _ e _ _) as [fl|] eqn:Ef; [|done]. eapply rtc_r; [exact H|]. by eapply sv_calls.
Qed.

(** Two requests arrive. *)
Lemma pair_arrives p q : arrives p -> arrives q -> rtc serve idle (mkServing ∅ (<[1%nat := q]> (<[0%nat := p]> ∅))).
Proof.
  intros Hp Hq. refine (rtc_l _ idle (mkServing ∅ (<[0%nat := p]> ∅)) _ _ (rtc_once _ _ _)).
  - exact (sv_arrives idle 0 p (lookup_empty _) Hp).
  - refine (sv_arrives (mkServing ∅ (<[0%nat := p]> ∅)) 1 q _ Hq). cbn [running]. by rewrite lookup_insert_ne.
Qed.

(** ** A discipline *)

(** What is known of a program being served, and the key it holds then. *)
Context {G : Type} (fits : prog E A -> G -> Prop) (held : G -> option IdempotencyKey).

(** A step from [g] to [g'] changes the keys in flight as it changes the key
    held. *)
Definition moves (g g' : G) (fl fl' : gset IdempotencyKey) : Prop :=
  (held g' = held g /\ fl' = fl) \/
  (exists key, held g = None /\ held g' = Some key /\ key ∉ fl /\ fl' = {[key]} ∪ fl) \/
  (exists key, held g = Some key /\ held g' = None /\ fl' = fl ∖ {[key]}).

Record Discipline : Prop := {
  dc_arrives p : arrives p -> exists g, fits p g /\ held g = None;
  dc_call R (e : E R) k r g fl fl' : fits (Call e k) g -> returns R e r fl = Some fl' -> exists g', fits (k r) g' /\ moves g g' fl fl';
  dc_ends o g : fits (Ret o) g -> held g = None;
}.

(** Every request with what is known of it. *)
Record served (s : Serving) (g : gmap nat (prog E A * G)) : Prop := {
  sd_running : running s = fst <$> g;
  sd_fits : forall i p x, g !! i = Some (p, x) -> fits p x;
  sd_keys : forall key, key ∈ inflight s <-> exists i x, g !! i = Some x /\ held x.2 = Some key;
  sd_one : forall i j x y key, g !! i = Some x -> g !! j = Some y -> held x.2 = Some key -> held y.2 = Some key -> i = j;
}.

Lemma served_idle : served idle ∅.
Proof.
  split; [done|by intros| |by intros]. intros key. simpl. split; [by intros ?%elem_of_empty|]. by intros (i & x & Hi & _).
Qed.

(** A request that holds no key comes or goes. *)
Lemma served_other s g m rn : served s g -> rn = fst <$> m -> (forall i p x, m !! i = Some (p, x) -> fits p x) ->
  (forall j x key, m !! j = Some x /\ held x.2 = Some key <-> g !! j = Some x /\ held x.2 = Some key) ->
  served (mkServing (inflight s) rn) m.
Proof.
  intros [S1 S2 S3 S4] Hr Hf Hn. split; simpl; [done|done| |].
  - intros key. rewrite S3. by setoid_rewrite Hn.
  - intros j1 j2 x y key H1 H2 H3 H4. exact (S4 j1 j2 x y key (proj1 (proj1 (Hn _ _ _) (conj H1 H3))) (proj1 (proj1 (Hn _ _ _) (conj H2 H4))) H3 H4).
Qed.

(** One request goes on. *)
Lemma served_move s g i p x p' x' fl' : served s g -> g !! i = Some (p, x) -> fits p' x' -> moves x x' (inflight s) fl' ->
  served (mkServing fl' (<[i := p']> (running s))) (<[i := (p', x')]> g).
Proof.
  intros [S1 S2 S3 S4] Hi Hf Hc. split; simpl.
  - by rewrite S1, fmap_insert.
  - intros j q qh. rewrite lookup_insert. case_decide; [by intros [= <- <-]|apply S2].
  - intros key. assert (Hkey : forall j y, <[i := (p', x')]> g !! j = Some y /\ held y.2 = Some key <->
      (j = i /\ y = (p', x') /\ held x' = Some key) \/ (j <> i /\ g !! j = Some y /\ held y.2 = Some key)).
    { intros j y. rewrite lookup_insert. case_decide; naive_solver. }
    setoid_rewrite Hkey. destruct Hc as [[Hh ->]|[(k & H0 & H1 & Hn & ->)|(k & H0 & H1 & ->)]].
    + rewrite S3. split.
      * intros (j & y & Hj & Hx). destruct (decide (j = i)) as [-> |Hne]; [|naive_solver].
        exists i, (p', x'). left. split_and!; [done..|]. rewrite Hh. by simplify_eq/=.
      * intros (j & y & [(-> & -> & Hx)|(_ & Hj & Hx)]); [|eauto]. exists i, (p, x). simpl. by rewrite <- Hh.
    + rewrite elem_of_union, elem_of_singleton, S3. split.
      * intros [-> |(j & y & Hj & Hx)]; [exists i, (p', x'); by left|]. destruct (decide (j = i)) as [-> |Hne]; [|naive_solver].
        simplify_eq/=; congruence.
      * intros (j & y & [(-> & -> & Hx)|(_ & Hj & Hx)]); [left; congruence|right; eauto].
    + rewrite elem_of_difference, elem_of_singleton, S3. split.
      * intros [(j & y & Hj & Hx) Hne]. exists j, y. right. split_and!; [|done..]. intros ->. simplify_eq/=; congruence.
      * intros (j & y & [(-> & -> & Hx)|(Hne & Hj & Hx)]); [congruence|]. split; [eauto|]. intros ->. apply Hne.
        by apply (S4 j i y (p, x) k).
  - assert (Ho : forall j y key, j <> i -> g !! j = Some y -> held y.2 = Some key -> held x' = Some key -> False).
    { intros j y key Hne Hj Hx Hp. destruct Hc as [[Hh _]|[(k & H0 & H1 & Hn & _)|(k & H0 & H1 & _)]]; [|simplify_eq/=|congruence].
      - apply Hne. apply (S4 j i y (p, x) key); (done || by simpl; rewrite <- Hh).
      - apply Hn, S3. eauto. }
    intros j1 j2 y z key. rewrite !lookup_insert. repeat case_decide; simplify_eq/=; naive_solver.
Qed.

Context (D : Discipline).

Lemma serve_served s s' g : serve s s' -> served s g -> exists g', served s' g'.
Proof.
  intros [s0 i p Hi Ha|s0 i R e k r fl' Hi Hr|s0 i o Hi] S; pose proof S as [S1 S2 _ _]; rewrite S1, lookup_fmap in Hi.
  - destruct (g !! i) as [x|] eqn:Ei; [done|]. destruct (dc_arrives D p Ha) as (x & Hf & Hh). exists (<[i := (p, x)]> g).
    apply (served_other _ g); [done|by rewrite S1, fmap_insert| |].
    + intros j q qh. rewrite lookup_insert. case_decide; [by intros [= <- <-]|apply S2].
    + intros j y key. rewrite lookup_insert. case_decide; naive_solver.
  - destruct (g !! i) as [[p x]|] eqn:Ei; [|done]. simpl in Hi. injection Hi as ->.
    destruct (dc_call D R e k r x _ _ (S2 i _ _ Ei) Hr) as (x' & Hf & Hm). exists (<[i := (k r, x')]> g). by eapply served_move.
  - destruct (g !! i) as [[p x]|] eqn:Ei; [|done]. simpl in Hi. injection Hi as ->. exists (delete i g).
    pose proof (dc_ends D _ _ (S2 i _ _ Ei)) as Hh. apply (served_other _ g); [done|by rewrite S1, fmap_delete| |].
    + intros j q qh [_ H]%lookup_delete_Some. by apply (S2 j).
    + intros j y key. rewrite lookup_delete. case_decide; naive_solver.
Qed.

Lemma serving_served s : rtc serve idle s -> exists g, served s g.
Proof.
  intros H. assert (S : exists g, served idle g) by (exists ∅; apply served_idle). revert S.
  induction H as [|s1 s2 s3 Hs _ IH]; [done|]. intros [g S]. apply IH. by eapply serve_served.
Qed.

(** ** What follows of a served state *)

Lemma served_running s g i p : served s g -> running s !! i = Some p -> exists x, g !! i = Some (p, x) /\ fits p x.
Proof.
  intros [S1 S2 _ _]. rewrite S1, lookup_fmap. destruct (g !! i) as [[p' x]|] eqn:Ei; [|done]. intros [= ->]. eauto.
Qed.

(** Programs that hold the same key are the same. *)
Lemma served_apart s g i j p q x y key : served s g -> g !! i = Some (p, x) -> g !! j = Some (q, y) ->
  held x = Some key -> held y = Some key -> i = j.
Proof. intros S Hi Hj. exact (sd_one s g S i j (p, x) (q, y) key Hi Hj). Qed.

(** A key in flight is held by a program being served. *)
Lemma served_holder s g key : served s g -> key ∈ inflight s -> exists i p x, running s !! i = Some p /\ fits p x /\ held x = Some key.
Proof.
  intros [S1 S2 S3 _] (i & [p x] & Hi & Hk)%S3. exists i, p, x. split; [by rewrite S1, lookup_fmap, Hi|]. split; [by eapply S2|done].
Qed.

Lemma served_key s g i p x key : served s g -> g !! i = Some (p, x) -> held x = Some key -> key ∈ inflight s.
Proof. intros [_ _ S3 _] Hi Hk. apply S3. by exists i, (p, x). Qed.
End Serving.
