(* ===== verification/Server.v ===== *)
(** The player API's server (internal/intent/server.go and intent.go): its
    configuration, what a request and a response are, the checks every route
    starts with, and how a command is submitted.

    A handler is a program (Programs.v) whose steps are the calls it makes of
    what it shares with the others ([Eff]): the clock, the replica, the rate
    limits and the set of keys in flight.  A program ends with a value, with the
    response already written, or with a panic. *)

From S2P Require Import Prelude Programs GoStd Json Unmarshal Paxos Ledger Game Records Codec State Replog Replica Session Limit Wire.

(** * Configuration *)

Record Limits := mkLimits {
  SessionPerDevice : Rate; SessionPerAddr : Rate; Intents : Rate; Reads : Rate; EventPolls : Rate;
}.

#[export] Instance Rate_eq_dec : EqDecision Rate.
Proof. solve_decision. Defined.
#[export] Instance Limits_eq_dec : EqDecision Limits.
Proof. solve_decision. Defined.

Definition second : Z := 10 ^ 9.
Definition millisecond : Z := 10 ^ 6.

Definition DefaultLimits : Limits :=
  mkLimits (mkRate (10 * second) 6) (mkRate second 30) (mkRate (100 * millisecond) 20) (mkRate (200 * millisecond) 10)
    (mkRate (500 * millisecond) 4).
Definition NoLimits : Limits := let r := mkRate 0 (-1) in mkLimits r r r r r.
Definition zero_limits : Limits := let r := mkRate 0 0 in mkLimits r r r r r.

Definition DefaultRequestTimeout : Z := 5 * second.
Definition DefaultMaxBody : Z := 4 * 1024.
Definition DefaultMinSlotWait : Z := second.
Definition DefaultEventsWait : Z := 25 * second.
Definition MaxEventsWait : Z := 25 * second.
Definition MaxEventsPerResponse : Z := 100.
Definition DefaultMaxEventPolls : Z := 10000.
Definition DefaultPageLimit : Z := 50.
Definition MaxPageLimit : Z := 100.
Definition MinClientKeyLen : Z := 16.
Definition MaxClientKeyLen : Z := 64.
Definition PlayerKeyPrefix : string := "u.".
Definition DeviceKeyPrefix : string := "d.".
Definition PlayerIDPrefix : string := "p-".
Definition PlayerIDRandomLen : Z := 26.
Definition MinDealSecretBytes : Z := 32.
Definition DefaultTTL : Z := 3600 * second.

(** Durations are in nanoseconds; [session.MaxTTL] of Session.v is in
    milliseconds. *)
Record Config := mkConfig {
  cf_Self : NodeID;
  cf_PublicURLs : gmap NodeID string;
  cf_Keys : Keyring;
  cf_SessionTTL : Z;
  cf_DealSecret : bytes;
  cf_RequestTimeout : Z;
  cf_MaxBody : Z;
  cf_MinSlotWait : Z;
  cf_Limits : Limits;
  cf_MaxEventPolls : Z;
}.
#[export] Instance Config_Fields : Fields Config := fun c =>
  mkConfig (cf_Self c) (cf_PublicURLs c) (cf_Keys c) (cf_SessionTTL c) (cf_DealSecret c) (cf_RequestTimeout c)
    (cf_MaxBody c) (cf_MinSlotWait c) (cf_Limits c) (cf_MaxEventPolls c).

(** The errors of [New], without their text. *)
Inductive NewError := BadKeys (err : error) | ShortSecret (n : Z) | BadLifetime (d : Z) | BadURL (u : string) (id : NodeID) | NoURL (id : NodeID).

(** [strings.TrimRight(u, "/")] and [strings.HasPrefix]. *)
Fixpoint drop_slashes (b : bytes) : bytes := match b with 47 :: b' => drop_slashes b' | _ => b end.
Definition trim_slashes (u : string) : string := string_of (rev (drop_slashes (rev (bytes_of u)))).
Definition has_prefix (u p : string) : bool := String.prefix p u.
Definition base_url (u : string) : bool := has_prefix u "http://" || has_prefix u "https://".

Definition or_default (z d : Z) : Z := if z <=? 0 then d else z.

Definition New `{Unicode} (cfg : Config) : Config + NewError :=
  match Session.Validate (cf_Keys cfg) with Some err => inr (BadKeys err) | None =>
  exit_if len (cf_DealSecret cfg) <? MinDealSecretBytes with inr (ShortSecret (len (cf_DealSecret cfg)));
  let ttl := if cf_SessionTTL cfg =? 0 then DefaultTTL else cf_SessionTTL cfg in
  exit_if (ttl <? millisecond) || (MaxTTL * millisecond <? ttl) with inr (BadLifetime ttl);
  let urls := trim_slashes <$> cf_PublicURLs cfg in
  match List.find (fun p => negb (base_url p.2)) (map_to_list urls) with Some (id, u) => inr (BadURL u id) | None =>
  match urls !! cf_Self cfg with None => inr (NoURL (cf_Self cfg)) | Some _ =>
  inl (cfg <| cf_SessionTTL := ttl |> <| cf_PublicURLs := urls |>
       <| cf_RequestTimeout := or_default (cf_RequestTimeout cfg) DefaultRequestTimeout |>
       <| cf_MaxBody := or_default (cf_MaxBody cfg) DefaultMaxBody |>
       <| cf_MinSlotWait := or_default (cf_MinSlotWait cfg) DefaultMinSlotWait |>
       <| cf_MaxEventPolls := or_default (cf_MaxEventPolls cfg) DefaultMaxEventPolls |>
       <| cf_Limits := if bool_decide (cf_Limits cfg = zero_limits) then DefaultLimits else cf_Limits cfg |>)
  end end end.

(** ** Player ids *)

(** The alphabet of the lower-case base32, and the encoding of whole 5-bit
    groups; the last group is filled with zeros. *)
Definition base32_char (d : Z) : Z := if d <? 26 then 97 + d else 24 + d.
Definition number_of (b : bytes) : Z := foldl (fun acc c => acc * 256 + c) 0 b.
Definition base32_lower (b : bytes) : bytes :=
  let n := ((8 * length b + 4) / 5)%nat in
  let z := number_of b * 2 ^ (5 * Z.of_nat n - 8 * len b) in
  map (fun i => base32_char ((z / 2 ^ (5 * (Z.of_nat n - 1 - Z.of_nat i))) mod 32)) (seq 0 n).

(** [RandomPlayerID] of the 17 bytes it draws. *)
Definition RandomPlayerID (b : bytes) : PlayerID :=
  PlayerIDPrefix +:+ string_of (firstn (Z.to_nat PlayerIDRandomLen) (base32_lower b)).

(** * Requests and responses *)

(** What the handlers read of a request: the path values, the query, two
    headers, the body unless reading it fails, and the client's address as
    [clientAddr] finds it. *)
Record Request := mkRequest {
  h_method : string;
  h_uri : string;
  h_path : string;
  h_tournament : string;
  h_round : string;
  h_query : gmap string (list string);
  h_key : string;
  h_authorization : string;
  h_body : option bytes;
  h_client : string;
}.

Record Response := mkResponse { p_status : Z; p_headers : gmap string string; p_body : Body }.

Definition HeaderLocation : string := "Location".
Definition HeaderRetryAfter : string := "Retry-After".
Definition HeaderServerTime : string := "X-Arena-Server-Time-Ms".
Definition HeaderNode : string := "X-Arena-Node".
Definition HeaderLeader : string := "X-Arena-Leader".
Definition HeaderAppliedSlot : string := "X-Arena-Applied-Slot".
Definition HeaderSlot : string := "X-Arena-Slot".
Definition HeaderNextSeq : string := "X-Arena-Next-Seq".

Definition CodeNotLeader : string := "not_leader".
Definition CodeNoLeader : string := "no_leader".
Definition CodeMissingKey : string := "missing_idempotency_key".
Definition CodeInvalidKey : string := "invalid_idempotency_key".
Definition CodeMalformed : string := "malformed_request".
Definition CodeBodyTooLarge : string := "body_too_large".
Definition CodeSessionMissing : string := "session_missing".
Definition CodeSessionInvalid : string := "session_invalid".
Definition CodeSessionExpired : string := "session_expired".
Definition CodeNotFound : string := "not_found".
Definition CodeMethodNotAllowed : string := "method_not_allowed".
Definition CodeInFlight : string := "in_flight".
Definition CodeKeyReused : string := "key_reused".
Definition CodeRateLimited : string := "rate_limited".
Definition CodeInternal : string := "internal".
Definition CodeReplicaBehind : string := "replica_behind".
Definition CodeUnavailable : string := "unavailable".
Definition CodeOutcomeUnknown : string := "outcome_unknown".

(** * Programs *)

Inductive LimiterName := SessionDevice | SessionAddr | IntentLimit | ReadLimit | PollLimit.

(** How a Submit fails, as far as [submit] tells the errors apart. *)
Inductive SubmitFailure := NotLeading (leader : NodeID) | LeadershipLost | ContextEnded | Busy | Stopping | Unexpected.

(** The calls: [cfg.Now], [backend.Status], [limiter.allow], [lock] and
    [unlock], [backend.Submit] and its return, [backend.Read] without a
    barrier (no state when it fails), [backend.WaitApplied] (whether it
    succeeds), [cfg.NewPlayerID]. *)
Inductive Eff : Type -> Type :=
| ENow : Eff Z
| EStatus : Eff Status
| EAllow (l : LimiterName) (key : string) (now : Z) : Eff (Z * bool)
| ELock (key : IdempotencyKey) : Eff bool
| EUnlock (key : IdempotencyKey) : Eff unit
| ESubmit (cmd : Command) : Eff unit
| EResult (cmd : Command) : Eff (Result + SubmitFailure)
| ERead : Eff (option State)
| EWaitApplied (after : Slot) : Eff bool
| ENewPlayerID : Eff PlayerID.

Notation prog := (Programs.prog Eff).
Notation Outcome := (Programs.Outcome Response).
Notation M := (Programs.M Eff Response).

(** * Writing *)

(** [Time.UnixMilli]. *)
Definition UnixMilli (now : Z) : Z := now / millisecond.

(** [writeJSON]; every body here can be marshalled. *)
Definition writeJSON {A} (headers : gmap string string) (status : Z) (v : Body) : M A :=
  now <~ call ENow;
  Ret (Answer (mkResponse status
    (<[HeaderServerTime := itoa (UnixMilli now)]> (<["Content-Type" := "application/json"]> headers)) v)).

Definition writeError {A} (headers : gmap string string) (status : Z) (code message : string) (retryable : bool) : M A :=
  writeJSON headers status (BError (mkErrorBody code message retryable)).

Definition malformed {A} (msg : string) : M A := writeError ∅ 400 CodeMalformed msg false.

Definition retryAfter (d : Z) (headers : gmap string string) : gmap string string :=
  let secs := Z.quot (i64 (d + second - 1)) second in
  <[HeaderRetryAfter := itoa (if secs <? 1 then 1 else secs)]> headers.

Definition setSlot (name : string) (v : Z) (headers : gmap string string) : gmap string string := <[name := itoa v]> headers.

(** * Checks *)

Section Server.
Context (cfg : Config).

Definition redirect {A} (r : Request) (leader : NodeID) : M A :=
  let no_leader := writeError (retryAfter second ∅) 503 CodeNoLeader "no leader is known; retry the same request" true in
  exit_if (leader =? 0) || (leader =? cf_Self cfg) with no_leader;
  match cf_PublicURLs cfg !! leader with
  | Some u =>
      writeError (<[HeaderLeader := u]> {[HeaderLocation := u +:+ h_uri r]}) 307 CodeNotLeader
        ("node " +:+ itoa leader +:+ " leads; send this request there") true
  | None => no_leader
  end.

Definition onLeader (r : Request) : M unit :=
  st <~ call EStatus;
  match sta_role st with
  | Leader =>
      exit_if negb (sta_ready st) with
        writeError (retryAfter second ∅) 503 CodeUnavailable
          "the leader has not committed its leadership yet; retry the same request" true;
      go tt
  | _ => redirect r (sta_leader st)
  end.

Definition client_key_byte (c : Z) : bool :=
  ((97 <=? c) && (c <=? 122)) || ((65 <=? c) && (c <=? 90)) || ((48 <=? c) && (c <=? 57)) || (c =? 95) || (c =? 45).

Definition validClientKey (k : string) : bool :=
  exit_if (slen k <? MinClientKeyLen) || (MaxClientKeyLen <? slen k) with false;
  forallb client_key_byte (bytes_of k).

Definition clientKey (r : Request) : M string :=
  exit_if String.eqb (h_key r) ""
    with writeError ∅ 400 CodeMissingKey "every POST requires an Idempotency-Key header" false;
  exit_if negb (validClientKey (h_key r))
    with writeError ∅ 400 CodeInvalidKey "an Idempotency-Key is 16 to 64 characters from A-Z, a-z, 0-9, '_' and '-'" false;
  go (h_key r).

(** [strings.CutPrefix(h, Bearer )]: the rest, when there is one. *)
Definition bearer (h : string) : option string :=
  exit_if negb (has_prefix h "Bearer ") with None;
  let tok := String.substring 7 (String.length h - 7) h in
  exit_if String.eqb tok "" with None; Some tok.

Definition authenticate (r : Request) : M Claims :=
  match bearer (h_authorization r) with
  | None => writeError ∅ 401 CodeSessionMissing "an Authorization: Bearer <session_token> header is required" true
  | Some tok =>
      now <~ call ENow;
      match Verify (cf_Keys cfg) tok (UnixMilli now) with
      | inl c => go c
      | inr err =>
          exit_if String.eqb err ErrExpired
            with writeError ∅ 401 CodeSessionExpired "the session has expired; open a new session" true;
          writeError ∅ 401 CodeSessionInvalid "the session token is not valid; open a new session" true
      end
  end.

Definition allow (l : LimiterName) (key : string) : M unit :=
  now <~ call ENow;
  '(wait, ok) <~ call (EAllow l key now);
  exit_if (ok : bool) with go tt;
  writeError (retryAfter wait ∅) 429 CodeRateLimited "too many requests; retry the same request after Retry-After" true.

(** The text of a decoding error is the library's. *)
Definition readBody {A} (json_error : bytes -> string) (c : Codec A) (r : Request) : M A :=
  match h_body r with
  | None => writeError ∅ 400 CodeMalformed "the body could not be read" false
  | Some b =>
      exit_if cf_MaxBody cfg <? len b
        with writeError ∅ 413 CodeBodyTooLarge ("the body exceeds " +:+ itoa (cf_MaxBody cfg) +:+ " bytes") false;
      match decode_into c b with
      | Some v => go v
      | None => writeError ∅ 400 CodeMalformed ("the body is not the documented JSON object: " +:+ json_error b) false
      end
  end.

(** * Commands *)

Definition lock (key : IdempotencyKey) : M unit :=
  ok <~ call (ELock key);
  exit_if (ok : bool) with go tt;
  writeError (retryAfter second ∅) 409 CodeInFlight
    "a request with this idempotency key is being processed; retry the same request" true.

(** [defer s.unlock(key)] after [lock]. *)
Definition holding {A} (key : IdempotencyKey) (m : M A) : M A :=
  u <~ lock key;
  pbind m (fun o => Call (EUnlock key) (fun _ => Ret o)).

Definition submit (r : Request) (cmd : Command) : M Result :=
  u <~ call (ESubmit cmd);
  res <~ call (EResult cmd);
  match res with
  | inl res => go res
  | inr (NotLeading leader) => redirect r leader
  | inr LeadershipLost => st <~ call EStatus; redirect r (sta_leader st)
  | inr ContextEnded =>
      writeError ∅ 504 CodeOutcomeUnknown
        "the command was not applied within the request timeout; it may still be: retry the same request" true
  | inr (Busy | Stopping) =>
      writeError (retryAfter second ∅) 503 CodeUnavailable "the leader cannot take the command now; retry the same request" true
  | inr Unexpected =>
      writeError ∅ 500 CodeInternal "the command could not be submitted; retry the same request" true
  end.

(** [readState] of the server: [fn] runs on the state it is given; it may
    panic.  [headers] are those set on the response so far. *)
Definition read_state {A} (headers : gmap string string) (fn : State -> option A) : M A :=
  st <~ call ERead;
  match st with
  | None => writeError (retryAfter second headers) 503 CodeUnavailable "the replica could not read its state; retry the same request" true
  | Some st => match fn st with Some a => go a | None => Ret Panic end
  end.

(** ** The routes' wrapping *)

(** [method] and [stamp]: the method check, and the two headers every response
    carries unless the handler sets them itself. *)
Definition with_method (m : string) (r : Request) (h : M Empty_set) : M Empty_set :=
  exit_if negb (String.eqb (h_method r) m)
    with writeError {["Allow" := m]} 405 CodeMethodNotAllowed (h_method r +:+ " is not allowed on this route") false;
  h.

Definition stamp (h : M Empty_set) : prog (option Response) :=
  Call EStatus (fun st =>
  pbind h (fun o => Ret match o with
    | Answer p => Some (mkResponse (p_status p)
        (p_headers p ∪ {[HeaderNode := itoa (cf_Self cfg); HeaderLeader := default "" (cf_PublicURLs cfg !! sta_leader st)]}) (p_body p))
    | _ => None
    end)).
End Server.
