(* ===== verification/Routes.v ===== *)
(** The routes of the player API (internal/intent/post.go and reads.go): the
    commands a client may send, with the response each recorded result makes,
    and the reads.  The events route is in Polls.v. *)

From S2P Require Import Prelude Programs GoStd Json Unmarshal Paxos Ledger Game Records Codec State Replog Replica Session Limit Wire Views Server.

Section Routes.
Context `{U : Unicode} (fuel : nat) (cfg : Config) (json_error : bytes -> string).

(** * Commands *)

Definition errNoRecord : error := "intent: applied state has no record for the result".

Definition pathTournament (r : Request) : M TournamentID :=
  match ValidateTournamentID (h_tournament r) with
  | Some err => malformed ("tournament_id: " +:+ err)
  | None => go (h_tournament r)
  end.

Definition pathRound (r : Request) : M Z :=
  match bytes_of (h_round r) with
  | [c] => exit_if (c <? 49) || (48 + Rounds <? c) with malformed "round must be 1, 2 or 3"; go (c - 48)
  | _ => malformed "round must be 1, 2 or 3"
  end.

(** The jurisdiction check of post.go; [tournament]'s is [Codec.validJurisdiction]. *)
Definition validJurisdiction (j : string) : bool :=
  exit_if (slen j <? 2) || (8 <? slen j) with false;
  forallb (fun c => negb ((c <? 65) || (90 <? c))) (bytes_of j).

(** A response builder: the status and the body, or the error that there is no
    record for the result; it may panic. *)
Definition Builder := State -> Result -> option ((Z * Body) + error).

Definition answer (res : Result) (sequenced : bool) (success : Builder) : M Empty_set :=
  match res_code res with
  | KeyReused => writeError ∅ 422 CodeKeyReused "the idempotency key was used with a different request" false
  | InvalidKey | InvalidOp | OutOfOrder =>
      writeError ∅ 500 CodeInternal ("unexpected result " +:+ code_text (res_code res)) true
  | code =>
      let h := setSlot HeaderSlot (res_slot res) ∅ in
      let next := po_next_seq (res_play res) in
      let h := if sequenced && (0 <? next) then setSlot HeaderNextSeq next h else h in
      if bool_decide (code = OK) then
        p <~ read_state h (fun st => r ← success st res; Some (applied st, r));
        match p with
        | (_, inr err) => writeError h 500 CodeInternal "the response could not be built; retry the same request" true
        | (slot, inl (status, body)) => writeJSON (setSlot HeaderAppliedSlot slot h) status body
        end
      else
        st <~ call EStatus;
        writeError (setSlot HeaderAppliedSlot (sta_applied st) h)
          (if bool_decide (code = DeviceMismatch) then 403 else 409) (code_text code) (res_detail res) false
  end.

(** Leader, key, token, rate limit. *)
Definition beginIntent (r : Request) : M (Claims * string) :=
  u <~ onLeader cfg r;
  key <~ clientKey r;
  c <~ authenticate cfg r;
  u <~ allow IntentLimit (c_Player c);
  go (c, key).

Definition player_key (player key : string) : IdempotencyKey := PlayerKeyPrefix +:+ player +:+ "." +:+ key.
Definition device_key (device key : string) : IdempotencyKey := DeviceKeyPrefix +:+ device +:+ "." +:+ key.

Definition finishIntent (r : Request) (c : Claims) (key : string) (op : Op) (success : Builder) : M Empty_set :=
  let nkey := player_key (c_Player c) key in
  holding nkey (
    now <~ call ENow;
    res <~ submit cfg r (mkCommand nkey (UnixMilli now) (Some op));
    answer res true success).

Definition seqBody (r : Request) : M Z :=
  req <~ readBody cfg json_error SeqRequest_codec r;
  exit_if qr_seq req <? 1 with malformed "seq must be at least 1";
  go (qr_seq req).

(** ** Sessions *)

Definition Milliseconds (d : Z) : Z := Z.quot d millisecond.

Definition session_response (device : string) : Builder := fun st res =>
  match ReadBinding st device with
  | None => Some (inr errNoRecord)
  | Some b =>
      exit_if negb (String.eqb (b_player b) (po_player (res_play res))) with Some (inr errNoRecord);
      let issued := po_issued_at_ms (res_play res) in
      let exp := i64 (issued + Milliseconds (cf_SessionTTL cfg)) in
      match Sign (cf_Keys cfg) (mkClaims (b_player b) device issued exp) with
      | inr err => Some (inr err)
      | inl tok => Some (inl (200, BSession (mkSessionResponse (res_replayed res) (i64 (res_slot res))
          (i64 (po_next_seq (res_play res))) (b_player b) (po_new_player (res_play res)) tok issued exp
          (b_jurisdiction b) (i32 (b_age b)))))
      end
  end.

(** The checks of a session request, with the verifier of its secret. *)
Definition session_checks (req : SessionRequest) : Digest + string :=
  exit_if negb (ValidDeviceID (sq_device_id req)) with inr "device_id must be 32 lower-case hex characters";
  match NewVerifier (sq_device_secret req) with
  | inr _ => inr "device_secret must be 64 lower-case hex characters"
  | inl verifier =>
      exit_if negb (validJurisdiction (sq_jurisdiction req)) with inr "jurisdiction must be 2 to 8 upper-case letters";
      exit_if (sq_age req <? 0) || (150 <? sq_age req) with inr "age must be 0 to 150";
      inl verifier
  end.

Definition handleSession (r : Request) : M Empty_set :=
  u <~ onLeader cfg r;
  key <~ clientKey r;
  u <~ allow SessionAddr (h_client r);
  req <~ readBody cfg json_error SessionRequest_codec r;
  match session_checks req with
  | inr msg => malformed msg
  | inl verifier =>
      u <~ allow SessionDevice (sq_device_id req);
      mismatch <~ read_state ∅ (fun st => Some (match ReadBinding st (sq_device_id req) with
                                                | Some b => negb (bool_decide (b_verifier b = verifier))
                                                | None => false
                                                end));
      exit_if (mismatch : bool) with
        writeError ∅ 403 (code_text DeviceMismatch) "the device secret does not match the device's binding" false;
      let nkey := device_key (sq_device_id req) key in
      holding nkey (
        player <~ call ENewPlayerID;
        now <~ call ENow;
        res <~ submit cfg r (mkCommand nkey (UnixMilli now)
                 (Some (OpenSession (sq_device_id req) verifier player (sq_jurisdiction req) (sq_age req))));
        answer res false (session_response (sq_device_id req)))
  end.

(** ** Intents *)

Definition join_response (tid : TournamentID) : Builder := fun st res =>
  match Header st tid with
  | None => Some (inr errNoRecord)
  | Some h => Some (inl (201, BJoin (mkJoinResponse (res_replayed res) (i64 (res_slot res)) (i64 (po_next_seq (res_play res)))
      tid (i32 (po_join_seq (res_play res))) (r_entry_fee (hd_rules h)) Rounds)))
  end.

Definition handleJoin (r : Request) : M Empty_set :=
  '(c, key) <~ beginIntent r;
  seq <~ seqBody r;
  tid <~ pathTournament r;
  finishIntent r c key (Enter tid (c_Player c) seq) (join_response tid).

Definition roundResponse (status : Z) (tid : TournamentID) (pid : PlayerID) (round : Z) : Builder := fun st res =>
  v ← BuildRoundViewAt fuel st tid pid round (po_move_index (res_play res)) (res_slot res);
  match v with
  | None => Some (inr errNoRecord)
  | Some v => Some (inl (status, BRound (mkRoundResponse (res_replayed res) (i64 (res_slot res)) (i64 (po_next_seq (res_play res))) v)))
  end.

Definition handleDeal (r : Request) : M Empty_set :=
  '(c, key) <~ beginIntent r;
  seq <~ seqBody r;
  tid <~ pathTournament r;
  round <~ pathRound r;
  let seed := DeriveSeed (cf_DealSecret cfg) tid (c_Player c) round in
  finishIntent r c key (StartRound tid (c_Player c) seq round seed) (roundResponse 201 tid (c_Player c) round).

(** The checks of a move request. *)
Definition move_checks (req : MoveRequest) : option string :=
  exit_if mr_seq req <? 1 with Some "seq must be at least 1";
  exit_if mr_move_index req <? 0 with Some "move_index must be at least 0";
  exit_if String.eqb (mr_kind req) Play && ((mr_column req <? 0) || (ColumnCount <=? mr_column req))
    with Some "a play names column 0 to 6";
  exit_if String.eqb (mr_kind req) Draw && negb (mr_column req =? NoColumn) with Some "a draw names column -1";
  exit_if negb (String.eqb (mr_kind req) Play) && negb (String.eqb (mr_kind req) Draw)
    with Some ("kind must be " +:+ quote Play +:+ " or " +:+ quote Draw);
  None.

Definition handleMove (r : Request) : M Empty_set :=
  '(c, key) <~ beginIntent r;
  req <~ readBody cfg json_error MoveRequest_codec r;
  match move_checks req with Some msg => malformed msg | None =>
  tid <~ pathTournament r;
  round <~ pathRound r;
  finishIntent r c key
    (PlayMove tid (c_Player c) (mr_seq req) round (mr_move_index req) (mkMove (mr_kind req) (mr_column req)))
    (roundResponse 200 tid (c_Player c) round)
  end.

Definition handleFinish (r : Request) : M Empty_set :=
  '(c, key) <~ beginIntent r;
  seq <~ seqBody r;
  tid <~ pathTournament r;
  round <~ pathRound r;
  finishIntent r c key (FinishRound tid (c_Player c) seq round) (roundResponse 200 tid (c_Player c) round).

Definition claim_response (tid : TournamentID) (player : PlayerID) : Builder := fun st res =>
  Some (inl (200, BClaim (mkClaimResponse (res_replayed res) (i64 (res_slot res)) (i64 (po_next_seq (res_play res)))
    tid (po_amount (res_play res)) (ClaimKey tid player)))).

Definition handleClaim (r : Request) : M Empty_set :=
  '(c, key) <~ beginIntent r;
  seq <~ seqBody r;
  tid <~ pathTournament r;
  finishIntent r c key (ClaimPayout tid (c_Player c) seq) (claim_response tid (c_Player c)).

(** * Reads *)

Definition beginRead (r : Request) (l : LimiterName) : M Claims :=
  c <~ authenticate cfg r;
  u <~ allow l (c_Player c);
  go c.

(** [ParseInt] refuses what is not digits behind an optional sign; a plus sign
    is refused by the code. *)
Definition queryInt (r : Request) (name : string) (def lo hi : Z) : M Z :=
  match h_query r !! name with
  | None => go def
  | Some vs =>
      let bad := malformed (name +:+ " must be an integer from " +:+ itoa lo +:+ " to " +:+ itoa hi) in
      match parse_int (bytes_of (default "" (head vs))) with
      | Some n =>
          exit_if (n <? - 2 ^ 63) || (2 ^ 63 <=? n) || (n <? lo) || (hi <? n) with bad;
          go n
      | None => bad
      end
  end.

Definition maxSlotQuery : Z := 2 ^ 63 - 1.

Definition waitMinSlot (r : Request) (minSlot : Z) : M unit :=
  exit_if minSlot <=? 0 with go tt;
  ok <~ call (EWaitApplied (minSlot - 1));
  exit_if (ok : bool) with go tt;
  st <~ call EStatus;
  let behind := writeError (retryAfter second ∅) 503 CodeReplicaBehind
    ("this replica has not applied slot " +:+ itoa minSlot +:+ " yet; retry the same request") true in
  exit_if negb (bool_decide (sta_role st = Leader)) && negb (sta_leader st =? 0) && negb (sta_leader st =? cf_Self cfg) &&
          bool_decide (is_Some (cf_PublicURLs cfg !! sta_leader st))
    with redirect cfg r (sta_leader st);
  behind.

Definition notFound {A} (slot : Slot) (code : Code) (msg : string) : M A :=
  writeError (setSlot HeaderAppliedSlot slot ∅) 404 (code_text code) msg false.

Definition status_filters : list string := ["open"; "closed"; "voided"; "settled"; "all"].

(** One tournament of the list: counted when it matches, shown when its number
    is on the page. *)
Definition list_step (st : State) (pid : PlayerID) (b : Binding) (status : string) (offset limit : Z)
    (acc : Z * list TournamentSummary) (id : TournamentID) : Z * list TournamentSummary :=
  match Header st id with
  | None => acc
  | Some h =>
      exit_if String.eqb (r_game (hd_rules h)) "" ||
              (negb (String.eqb status "all") && negb (String.eqb (Status_String (hd_status h)) status)) with acc;
      (acc.1 + 1,
       if (offset <=? acc.1) && (acc.1 <? offset + limit) then acc.2 ++ [tournamentSummary st h pid b] else acc.2)
  end.

Definition list_tournaments (pid : PlayerID) (status : string) (offset limit : Z) (st : State) : TournamentListResponse :=
  let b := match ReadPlayer st pid with Some rec => pr_binding rec | None => zero_binding end in
  let '(n, l) := foldl (list_step st pid b status offset limit) (0, []) (order st) in
  mkTournamentListResponse (i64 (applied st)) (i32 offset) (i32 limit) (i32 n) l.

Definition handleTournaments (r : Request) : M Empty_set :=
  c <~ beginRead r ReadLimit;
  let status := match h_query r !! "status" with Some vs => default "" (head vs) | None => "open" end in
  exit_if negb (bool_decide (status ∈ status_filters)) with malformed "status must be open, closed, voided, settled or all";
  offset <~ queryInt r "offset" 0 0 (2 ^ 31 - 1);
  limit <~ queryInt r "limit" DefaultPageLimit 1 MaxPageLimit;
  resp <~ read_state ∅ (fun st => Some (list_tournaments (c_Player c) status offset limit st));
  writeJSON (setSlot HeaderAppliedSlot (u64 (tl_applied_slot resp)) ∅) 200 (BTournaments resp).

(** What [handleRound] reads: the response, or why there is none. *)
Definition read_round (tid : TournamentID) (pid : PlayerID) (round : Z) (st : State) : option (Code + RoundResponse) :=
  let '(_, joined, exists_) := ReadEntry st tid pid in
  exit_if negb exists_ with Some (inl UnknownTournament);
  exit_if negb joined with Some (inl NotJoined);
  v ← BuildRoundView fuel st tid pid round 0;
  match ReadRound st tid pid round, v with
  | Some rec, Some v =>
      let last := match ReadPlayer st pid with Some p => pr_last_seq p | None => 0 end in
      Some (inr (mkRoundResponse false (i64 (rr_updated_at rec)) (i64 (u64 (last + 1))) v))
  | _, _ => Some (inl RoundNotStarted)
  end.

Definition handleRound (r : Request) : M Empty_set :=
  c <~ beginRead r ReadLimit;
  tid <~ pathTournament r;
  round <~ pathRound r;
  minSlot <~ queryInt r "min_slot" 0 0 maxSlotQuery;
  u <~ waitMinSlot r minSlot;
  p <~ read_state ∅ (fun st => x ← read_round tid (c_Player c) round st; Some (applied st, x));
  match p with
  | (slot, inl code) =>
      notFound slot code ("no round " +:+ itoa round +:+ " of player " +:+ c_Player c +:+ " in tournament " +:+ tid
                          +:+ " (" +:+ code_text code +:+ ")")
  | (slot, inr resp) => writeJSON (setSlot HeaderAppliedSlot slot ∅) 200 (BRound resp)
  end.

Definition read_leaderboard (tid : TournamentID) (pid : PlayerID) (offset limit : Z) (st : State)
    : option (option LeaderboardResponse) :=
  match ReadTournament st tid with
  | None => Some None
  | Some t =>
      exit_if String.eqb (r_game (t_rules t)) "" with Some None;
      '(rows, me) ← leaderboardPage st t pid offset limit;
      Some (Some (mkLeaderboardResponse tid (Status_String (t_status t)) (negb (bool_decide (t_status t = Open)))
        (i64 (applied st)) (i32 (len (t_entries t))) (i32 offset) (i32 limit) rows me))
  end.

Definition handleLeaderboard (r : Request) : M Empty_set :=
  c <~ beginRead r ReadLimit;
  tid <~ pathTournament r;
  offset <~ queryInt r "offset" 0 0 (2 ^ 31 - 1);
  limit <~ queryInt r "limit" DefaultPageLimit 1 MaxPageLimit;
  minSlot <~ queryInt r "min_slot" 0 0 maxSlotQuery;
  u <~ waitMinSlot r minSlot;
  p <~ read_state ∅ (fun st => x ← read_leaderboard tid (c_Player c) offset limit st; Some (i64 (applied st), x));
  match p with
  | (slot, None) => notFound (u64 slot) UnknownTournament ("no play tournament " +:+ quote tid)
  | (slot, Some resp) => writeJSON (setSlot HeaderAppliedSlot (u64 slot) ∅) 200 (BLeaderboard resp)
  end.

(** * Routing *)

(** The pattern that matches a request's path, the events route aside. *)
Inductive Route := RSession | RTournaments | RJoin | RDeal | RRound | RMove | RFinish | RLeaderboard | RClaim | RNone.

Definition routed (rt : Route) (r : Request) : M Empty_set :=
  match rt with
  | RSession => with_method "POST" r (handleSession r)
  | RTournaments => with_method "GET" r (handleTournaments r)
  | RJoin => with_method "POST" r (handleJoin r)
  | RDeal => with_method "POST" r (handleDeal r)
  | RRound => with_method "GET" r (handleRound r)
  | RMove => with_method "POST" r (handleMove r)
  | RFinish => with_method "POST" r (handleFinish r)
  | RLeaderboard => with_method "GET" r (handleLeaderboard r)
  | RClaim => with_method "POST" r (handleClaim r)
  | RNone => writeError ∅ 404 CodeNotFound ("no route " +:+ h_path r) false
  end.

(** The handler of the server. *)
Definition Handler (rt : Route) (r : Request) : prog (option Response) := stamp cfg (routed rt r).
End Routes.
