(* ===== verification/Intents.v ===== *)
(** What the player API's handlers do, whatever the calls they make return
    (internal/intent/server.go, post.go and reads.go).

    The program logic is that of Programs.v; the calls that need allowing are the
    commands submitted.  A command is
    submitted for nobody but the signed token's player, under that player's
    keys, by a ready leader, once ([commands_authorised]); and of the requests
    that run side by side no two have the same key submitted
    ([one_command_per_key]). *)

From S2P Require Import Prelude Programs GoStd Json Unmarshal Paxos Ledger Game Records Codec State Replog Replica Session Limit Wire Views Server Routes.

Notation event := (Programs.event Eff).

(** * Triples *)

(** Submitting is the call that has to be allowed. *)
Definition allowed (P : list event -> Command -> Prop) (h : list event) (R : Type) (e : Eff R) : Prop :=
  match e with ESubmit cmd => P h cmd | _ => True end.

Section Triples.
(** The commands a history allows, and the responses it allows; refusals
    always are. *)
Context (P : list event -> Command -> Prop) (W : list event -> Response -> Prop).
Definition refusal (r : Response) : Prop := 300 <= p_status r.
Context (W_refusal : forall h r, refusal r -> W h r).

Notation triple := (Programs.triple (allowed P) W).

Lemma triple_writeJSON {A} headers status v h (Q : list event -> A -> Prop) :
  (forall h' r, h ⊑ₕ h' -> p_status r = status -> p_body r = v -> W h' r) -> triple (writeJSON headers status v) h Q.
Proof. intros H. split; [done|]. intros now. by apply H; [apply later_snoc|..]. Qed.

Lemma triple_writeError {A} headers status code message b h (Q : list event -> A -> Prop) :
  300 <= status -> triple (writeError headers status code message b) h Q.
Proof. intros Hs. apply triple_writeJSON. intros h' r _ Hr _. apply W_refusal. unfold refusal. lia. Qed.

Lemma triple_redirect {A} cfg r leader h (Q : list event -> A -> Prop) : triple (redirect cfg r leader) h Q.
Proof. unfold redirect. case_goal; [by apply triple_writeError|]. destruct (_ !! leader); by apply triple_writeError. Qed.

(** ** The checks *)

Definition leading (h : list event) : Prop := exists st, Ev EStatus st ∈ h /\ sta_role st = Leader /\ sta_ready st = true.
Definition signed (cfg : Config) (r : Request) (h : list event) (c : Claims) : Prop :=
  exists tok now, bearer (h_authorization r) = Some tok /\ Ev ENow now ∈ h /\ Verify (cf_Keys cfg) tok (UnixMilli now) = inl c.
Definition within_limit (l : LimiterName) (key : string) (h : list event) : Prop :=
  exists now wait, Ev ENow now ∈ h /\ Ev (EAllow l key now) (wait, true) ∈ h.
Definition locked (key : IdempotencyKey) (h : list event) : Prop := Ev (ELock key) true ∈ h.

Lemma triple_onLeader cfg r h : triple (onLeader cfg r) h (fun h' _ => leading h').
Proof.
  unfold onLeader. eapply triple_then; [apply (triple_call _ _ _ _ (fun h' st => Ev EStatus st ∈ h')); [done|auto with hist]|].
  intros h' st _ Hst. destruct (sta_role st) eqn:Er; [apply triple_redirect..|].
  destruct (sta_ready st) eqn:Ey; simpl; [|by apply triple_writeError]. apply triple_go. by exists st.
Qed.

Lemma triple_clientKey r h : triple (clientKey r) h (fun _ key => key = h_key r /\ validClientKey key = true).
Proof.
  unfold clientKey. case_goal; [by apply triple_writeError|]. destruct (validClientKey (h_key r)) eqn:Ev; simpl; [|by apply triple_writeError].
  by apply triple_go.
Qed.

Lemma triple_authenticate cfg r h : triple (authenticate cfg r) h (fun h' c => signed cfg r h' c).
Proof.
  unfold authenticate. destruct (bearer (h_authorization r)) as [tok|] eqn:Eb; [|by apply triple_writeError].
  eapply triple_then; [apply (triple_call _ _ _ _ (fun h' now => Ev ENow now ∈ h')); [done|auto with hist]|].
  intros h' now _ Hn. destruct (Verify (cf_Keys cfg) tok (UnixMilli now)) as [c|err] eqn:Ev.
  - apply triple_go. by exists tok, now.
  - case_goal; by apply triple_writeError.
Qed.

Lemma triple_allow l key h : triple (allow l key) h (fun h' _ => within_limit l key h').
Proof.
  unfold allow. eapply triple_then; [apply (triple_call _ _ _ _ (fun h' now => Ev ENow now ∈ h')); [done|auto with hist]|].
  intros h' now _ Hn. eapply triple_then; [apply (triple_call _ _ _ _ (fun h2 x => h' ⊑ₕ h2 /\ Ev (EAllow l key now) x ∈ h2)); [done|auto with hist]|].
  intros h2 [wait ok] _ [Hp Hx]. destruct ok; [|by apply triple_writeError]. apply triple_go. exists now, wait.
  split; [exact (later_call _ _ _ Hn Hp)|done].
Qed.

Lemma triple_readBody {A} cfg json_error (c : Codec A) r h : triple (readBody cfg json_error c r) h (fun _ _ => True).
Proof.
  unfold readBody. destruct (h_body r) as [b|]; [|by apply triple_writeError]. case_goal; [by apply triple_writeError|].
  destruct (decode_into c b); [by apply triple_go|by apply triple_writeError].
Qed.

Lemma triple_lock key h : triple (lock key) h (fun h' _ => locked key h').
Proof.
  unfold lock. eapply triple_then; [apply (triple_call _ _ _ _ (fun h' ok => Ev (ELock key) ok ∈ h')); [done|auto with hist]|].
  intros h' [|] _ Hl; [by apply triple_go|by apply triple_writeError].
Qed.

(** The unlocking changes nothing of what a run ends with, when what is allowed
    to be answered lasts. *)
Context (W_later : forall h h' r, h ⊑ₕ h' -> W h r -> W h' r).

Lemma triple_holding {A} key (m : M A) h : (forall h', h ⊑ₕ h' -> locked key h' -> triple m h' (fun _ _ => True)) ->
  triple (holding key m) h (fun _ _ => True).
Proof.
  intros H. unfold holding. eapply triple_then; [apply triple_lock|]. intros h' [] Hp Hl. unfold triple. apply safe_pbind.
  eapply safe_mono; [|exact (H h' Hp Hl)]. intros h2 o Ho. split; [done|]. intros u.
  destruct o as [a|r|]; simpl in *; [|by eapply W_later; [apply later_snoc|]|done]. destruct Ho as [Hp2 _]. split; [|done]. etrans; [done|apply later_snoc].
Qed.

(** A submitted command: its result is in the history when there is one. *)
Definition resulted (cmd : Command) (res : Result) (h : list event) : Prop :=
  Ev (ESubmit cmd) tt ∈ h /\ Ev (EResult cmd) (inl res) ∈ h.

Lemma triple_submit cfg r cmd h : P h cmd -> triple (submit cfg r cmd) h (fun h' res => resulted cmd res h').
Proof.
  intros HP. unfold submit. eapply triple_then; [apply (triple_call _ _ _ _ (fun h' _ => Ev (ESubmit cmd) tt ∈ h')); [done|intros []; auto with hist]|].
  intros h1 [] _ Hs. eapply triple_then; [apply (triple_call _ _ _ _ (fun h' x => h1 ⊑ₕ h' /\ Ev (EResult cmd) x ∈ h')); [done|auto with hist]|].
  intros h2 [res|f] _ [Hp Hx].
  - apply triple_go. split; [exact (later_call _ _ _ Hs Hp)|done].
  - destruct f; try (by apply triple_writeError); [apply triple_redirect|].
    eapply triple_then; [by apply (triple_call _ _ _ _ (fun _ _ => True))|]. intros h3 st _ _. apply triple_redirect.
Qed.

Lemma triple_read_state {A} headers (fn : State -> option A) h :
  triple (read_state headers fn) h (fun h' a => exists st, Ev ERead (Some st) ∈ h' /\ fn st = Some a).
Proof.
  unfold read_state. eapply triple_then; [apply (triple_call _ _ _ _ (fun h' x => Ev ERead x ∈ h')); [done|auto with hist]|].
  intros h' [st|] _ Hx; [|by apply triple_writeError]. destruct (fn st) as [a|] eqn:Ef; [|done]. apply triple_go. eauto.
Qed.
End Triples.

(** * Commands and answers *)

Section Handlers.
Context `{U : Unicode} (fuel : nat) (cfg : Config) (json_error : bytes -> string).

(** The response an accepted command makes. *)
Definition response_of (op : Op) : Builder :=
  match op with
  | OpenSession device _ _ _ _ => session_response cfg device
  | Enter tid _ _ => join_response tid
  | StartRound tid p _ round _ => roundResponse fuel 201 tid p round
  | PlayMove tid p _ round _ _ | FinishRound tid p _ round => roundResponse fuel 200 tid p round
  | ClaimPayout tid p _ => claim_response tid p
  | _ => fun _ _ => None
  end.

(** The player whose intent a command is. *)
Definition sender (op : Op) : option PlayerID :=
  match op with
  | Enter _ p _ | StartRound _ p _ _ _ | PlayMove _ p _ _ _ _ | FinishRound _ p _ _ | ClaimPayout _ p _ => Some p
  | _ => None
  end.

(** What a history must hold before any command. *)
Record checked (r : Request) (h : list event) (cmd : Command) : Prop := {
  ch_leading : leading h;
  ch_key : validClientKey (h_key r) = true;
  ch_locked : locked (cmd_key cmd) h;
  ch_time : exists now, Ev ENow now ∈ h /\ cmd_received_at cmd = UnixMilli now;
}.

(** Before an intent: a token of the sender, within its limit. *)
Definition intent_allowed (r : Request) (h : list event) (cmd : Command) : Prop :=
  checked r h cmd /\ exists c op, signed cfg r h c /\ within_limit IntentLimit (c_Player c) h /\
    cmd_op cmd = Some op /\ sender op = Some (c_Player c) /\ cmd_key cmd = player_key (c_Player c) (h_key r).

(** Before a session is opened: a device whose secret is not another's. *)
Definition session_allowed (r : Request) (h : list event) (cmd : Command) : Prop :=
  checked r h cmd /\ exists device secret verifier player jurisdiction age,
    cmd_op cmd = Some (OpenSession device verifier player jurisdiction age) /\ cmd_key cmd = device_key device (h_key r) /\
    ValidDeviceID device = true /\ NewVerifier secret = inl verifier /\ validJurisdiction jurisdiction = true /\ 0 <= age <= 150 /\
    within_limit SessionAddr (h_client r) h /\ within_limit SessionDevice device h /\ Ev ENewPlayerID player ∈ h /\
    exists st, Ev ERead (Some st) ∈ h /\ (forall b, ReadBinding st device = Some b -> b_verifier b = verifier).

Definition submittable (rt : Route) (r : Request) (h : list event) (cmd : Command) : Prop :=
  match rt with
  | RSession => session_allowed r h cmd
  | RJoin | RDeal | RMove | RFinish | RClaim => intent_allowed r h cmd
  | _ => False
  end.

(** A command was accepted, and a later read makes this response. *)
Definition acknowledged (h : list event) (p : Response) : Prop :=
  exists cmd op res st, resulted cmd res h /\ cmd_op cmd = Some op /\ res_code res = OK /\
    Ev ERead (Some st) ∈ h /\ response_of op st res = Some (inl (p_status p, p_body p)).

Definition answered (rt : Route) (h : list event) (p : Response) : Prop :=
  refusal p \/
  match rt with
  | RSession | RJoin | RDeal | RMove | RFinish | RClaim => acknowledged h p
  | RTournaments | RRound | RLeaderboard => p_status p = 200 /\ exists st, Ev ERead (Some st) ∈ h
  | RNone => False
  end.

Lemma resulted_later cmd res h h' : resulted cmd res h -> h ⊑ₕ h' -> resulted cmd res h'.
Proof. intros [H1 H2] Hp. split; by eapply later_call. Qed.

Lemma answered_refusal rt h p : refusal p -> answered rt h p.
Proof. by left. Qed.

Lemma answered_later rt h h' p : h ⊑ₕ h' -> answered rt h p -> answered rt h' p.
Proof.
  intros Hp [H|H]; [by left|right]. destruct rt; try done.
  all: try (destruct H as (Hs & st & H); split; [done|]; exists st; by eapply later_call).
  all: destruct H as (cmd & op & res & st & H1 & H2 & H3 & H4 & H5); exists cmd, op, res, st; split_and!;
    [by eapply resulted_later|done|done|by eapply later_call|done].
Qed.

Notation trip rt r := (triple (allowed (submittable rt r)) (answered rt)).

Definition is_command (rt : Route) : Prop :=
  match rt with RSession | RJoin | RDeal | RMove | RFinish | RClaim => True | _ => False end.

(** The answer to a result. *)
Lemma trip_answer rt r cmd op res sequenced h (Q : list event -> Empty_set -> Prop) : is_command rt -> resulted cmd res h -> cmd_op cmd = Some op ->
  trip rt r (answer res sequenced (response_of op)) h Q.
Proof.
  intros Hrt Hres Hop. pose proof (answered_refusal rt) as HW. unfold answer.
  destruct (decide (res_code res = OK)) as [Hok|Hok].
  - rewrite Hok, bool_decide_eq_true_2 by done. eapply triple_then; [by apply triple_read_state|].
    intros h' [slot resp] Hp (st & Hst & Hf). destruct (response_of op st res) as [x|] eqn:Ex; [|done].
    cbn [mbind option_bind] in Hf. injection Hf as <- <-. destruct x as [[status body]|err]; [|by apply triple_writeError].
    apply triple_writeJSON. intros h2 p Hp2 Hs Hb. right.
    assert (Ha : acknowledged h2 p); [|by destruct rt]. exists cmd, op, res, st.
    assert (Hh : h ⊑ₕ h2) by (by etrans).
    split_and!; [exact (resulted_later _ _ _ _ Hres Hh)|done|done|exact (later_call _ _ _ Hst Hp2)|by rewrite Ex, Hs, Hb].
  - assert (H : trip rt r (st <~ call EStatus;
        writeError (A:=Empty_set) (setSlot HeaderAppliedSlot (sta_applied st)
          (if sequenced && (0 <? po_next_seq (res_play res)) then setSlot HeaderNextSeq (po_next_seq (res_play res)) (setSlot HeaderSlot (res_slot res) ∅)
           else setSlot HeaderSlot (res_slot res) ∅))
          (if bool_decide (res_code res = DeviceMismatch) then 403 else 409) (code_text (res_code res)) (res_detail res) false) h Q).
    { eapply triple_then; [by apply (triple_call _ _ _ _ (fun _ _ => True))|]. intros h' st _ _. apply triple_writeError; [done|].
      case_goal; lia. }
    revert H. destruct (res_code res); intros H; (done || (by apply triple_writeError) || exact H).
Qed.

(** What an intent's first checks leave. *)
Definition begun (r : Request) (h : list event) (c : Claims) : Prop :=
  leading h /\ validClientKey (h_key r) = true /\ signed cfg r h c /\ within_limit IntentLimit (c_Player c) h.

Lemma leading_later h h' : leading h -> h ⊑ₕ h' -> leading h'.
Proof. intros (st & H & R) Hp. exists st. split; [exact (later_call _ _ _ H Hp)|done]. Qed.

Lemma within_limit_later l key h h' : within_limit l key h -> h ⊑ₕ h' -> within_limit l key h'.
Proof. intros (now & wait & H1 & H2) Hp. exists now, wait. split; by eapply later_call. Qed.

Lemma begun_later r c h h' : begun r h c -> h ⊑ₕ h' -> begun r h' c.
Proof.
  intros (H1 & H2 & (tok & now & Hb & Hn & Hv) & H4) Hp. split_and!; [by eapply leading_later|done| |by eapply within_limit_later].
  exists tok, now. split_and!; [done|exact (later_call _ _ _ Hn Hp)|done].
Qed.

Lemma trip_beginIntent rt r h : trip rt r (beginIntent cfg r) h (fun h' ck => ck.2 = h_key r /\ begun r h' ck.1).
Proof.
  pose proof (answered_refusal rt) as HW. unfold beginIntent.
  eapply triple_then; [by apply triple_onLeader|]. intros h1 [] _ Hl. cbv beta in Hl.
  eapply triple_then; [by apply triple_clientKey|]. intros h2 key Hp2 [-> Hk].
  eapply triple_then; [by apply triple_authenticate|]. intros h3 c Hp3 (tok & now & Hb & Hn & Hv).
  eapply triple_then; [by apply triple_allow|]. intros h4 [] Hp4 Ha. cbv beta in Ha. apply triple_go. split; [done|].
  split_and!; [|done| |done].
  - eapply leading_later; [exact Hl|]. by do 2 (etrans; [done|]).
  - exists tok, now. split_and!; [done|exact (later_call _ _ _ Hn Hp4)|done].
Qed.

(** A command is stamped, submitted and answered under its key's lock. *)
Lemma trip_command rt r key h (Q : list event -> Empty_set -> Prop) (m : M Empty_set) :
  (forall h', h ⊑ₕ h' -> locked key h' -> trip rt r m h' (fun _ _ => True)) -> trip rt r (holding key m) h Q.
Proof.
  intros H. eapply triple_mono; [|apply triple_holding; [apply answered_refusal| |exact H]].
  - by intros h' [].
  - intros h1 h2 p Hp. by apply answered_later.
Qed.

Lemma trip_submit rt r cmd op sequenced h (Q : list event -> Empty_set -> Prop) : is_command rt -> submittable rt r h cmd -> cmd_op cmd = Some op ->
  trip rt r (res <~ submit cfg r cmd; answer res sequenced (response_of op)) h Q.
Proof.
  intros Hrt Hs Hop. eapply triple_then; [apply triple_submit; [apply answered_refusal|exact Hs]|].
  intros h' res _ Hres. by apply (trip_answer rt r cmd op).
Qed.

Definition is_intent (rt : Route) : Prop := match rt with RJoin | RDeal | RMove | RFinish | RClaim => True | _ => False end.

Lemma trip_finishIntent rt r c op h (Q : list event -> Empty_set -> Prop) : is_intent rt -> begun r h c -> sender op = Some (c_Player c) ->
  trip rt r (finishIntent cfg r c (h_key r) op (response_of op)) h Q.
Proof.
  intros Hrt Hb Hs. unfold finishIntent. apply trip_command. intros h1 Hp1 Hl.
  eapply triple_then; [apply (triple_call _ _ _ _ (fun h' now => Ev ENow now ∈ h')); [done|auto with hist]|].
  intros h2 now Hp2 Hn. cbv beta in Hn. destruct (begun_later r c h h2 Hb ltac:(by etrans)) as (B1 & B2 & B3 & B4).
  apply trip_submit; [by destruct rt| |done].
  assert (Hi : intent_allowed r h2 (mkCommand (player_key (c_Player c) (h_key r)) (UnixMilli now) (Some op))); [|by destruct rt].
  split; [|by exists c, op]. split; [done|done|exact (later_call _ _ _ Hl Hp2)|by exists now].
Qed.

(** ** The commands *)

Lemma trip_pathTournament rt r h : trip rt r (pathTournament r) h (fun _ _ => True).
Proof. unfold pathTournament. destruct (ValidateTournamentID _); [by apply triple_writeError; [apply answered_refusal|]|by apply triple_go]. Qed.

Lemma trip_pathRound rt r h : trip rt r (pathRound r) h (fun _ _ => True).
Proof.
  unfold pathRound. destruct (bytes_of (h_round r)) as [|c [|]]; [|case_goal|]; try (by apply triple_go);
    by apply triple_writeError; [apply answered_refusal|].
Qed.

Lemma trip_seqBody rt r h : trip rt r (seqBody cfg json_error r) h (fun _ _ => True).
Proof.
  unfold seqBody. eapply triple_then; [apply triple_readBody; apply answered_refusal|]. intros h' req _ _.
  case_goal; [by apply triple_writeError; [apply answered_refusal|]|by apply triple_go].
Qed.

(** Past a check that keeps no facts. *)
Ltac pass H lemma := eapply triple_then; [apply lemma|]; intros ?h ?x ?Hp _;
  match goal with Hp : _ ⊑ₕ ?h |- context [triple _ _ _ ?h _] => pose proof (begun_later _ _ _ _ H Hp) as H' end; clear H; rename H' into H.

Lemma trip_handleJoin r h Q : trip RJoin r (handleJoin cfg json_error r) h Q.
Proof.
  unfold handleJoin. eapply triple_then; [apply trip_beginIntent|]. intros h1 [c key] _ [Hk B]. simpl in Hk, B. subst key.
  pass B trip_seqBody. pass B trip_pathTournament. exact (trip_finishIntent RJoin r c (Enter x0 (c_Player c) x) _ Q I B eq_refl).
Qed.
Lemma trip_handleDeal r h Q : trip RDeal r (handleDeal fuel cfg json_error r) h Q.
Proof.
  unfold handleDeal. eapply triple_then; [apply trip_beginIntent|]. intros h1 [c key] _ [Hk B]. simpl in Hk, B. subst key.
  pass B trip_seqBody. pass B trip_pathTournament. pass B trip_pathRound. 
  cbv zeta. generalize (DeriveSeed (cf_DealSecret cfg) x0 (c_Player c) x1). intros seed.
  exact (trip_finishIntent RDeal r c (StartRound x0 (c_Player c) x x1 seed) _ Q I B eq_refl).
Qed.

Lemma trip_handleFinish r h Q : trip RFinish r (handleFinish fuel cfg json_error r) h Q.
Proof.
  unfold handleFinish. eapply triple_then; [apply trip_beginIntent|]. intros h1 [c key] _ [Hk B]. simpl in Hk, B. subst key.
  pass B trip_seqBody. pass B trip_pathTournament. pass B trip_pathRound. 
  exact (trip_finishIntent RFinish r c (FinishRound x0 (c_Player c) x x1) _ Q I B eq_refl).
Qed.

Lemma trip_handleClaim r h Q : trip RClaim r (handleClaim cfg json_error r) h Q.
Proof.
  unfold handleClaim. eapply triple_then; [apply trip_beginIntent|]. intros h1 [c key] _ [Hk B]. simpl in Hk, B. subst key.
  pass B trip_seqBody. pass B trip_pathTournament. exact (trip_finishIntent RClaim r c (ClaimPayout x0 (c_Player c) x) _ Q I B eq_refl).
Qed.

Lemma trip_moveBody rt r h : trip rt r (readBody cfg json_error MoveRequest_codec r) h (fun _ _ => True).
Proof. apply triple_readBody, answered_refusal. Qed.

Lemma trip_handleMove r h Q : trip RMove r (handleMove fuel cfg json_error r) h Q.
Proof.
  unfold handleMove. eapply triple_then; [apply trip_beginIntent|]. intros h1 [c key] _ [Hk B]. simpl in Hk, B. subst key.
  pass B trip_moveBody. destruct (move_checks _); [by apply triple_writeError; [apply answered_refusal|]|].
  pass B trip_pathTournament. pass B trip_pathRound. 
  exact (trip_finishIntent RMove r c (PlayMove x0 (c_Player c) (mr_seq x) x1 (mr_move_index x) (mkMove (mr_kind x) (mr_column x))) _ Q I B eq_refl).
Qed.

Lemma session_checks_verifier req v : session_checks req = inl v -> ValidDeviceID (sq_device_id req) = true /\
  NewVerifier (sq_device_secret req) = inl v /\ validJurisdiction (sq_jurisdiction req) = true /\ 0 <= sq_age req <= 150.
Proof.
  unfold session_checks. destruct (ValidDeviceID _); [|done]. cbn [negb]. destruct (NewVerifier _) as [v'|]; [|done].
  destruct (validJurisdiction _); [|done]. cbn [negb]. case_goal; [done|]. intros [= ->]. b2p. split_and!; (done || lia).
Qed.

Lemma trip_handleSession r h Q : trip RSession r (handleSession cfg json_error r) h Q.
Proof.
  pose proof (answered_refusal RSession) as HW. unfold handleSession.
  eapply triple_then; [by apply triple_onLeader|]. intros h1 [] _ Hl. cbv beta in Hl.
  eapply triple_then; [by apply triple_clientKey|]. intros h2 key Hp2 [-> Hk]. pose proof (leading_later _ _ Hl Hp2) as Hl2. clear Hl.
  eapply triple_then; [by apply triple_allow|]. intros h3 [] Hp3 Ha. cbv beta in Ha. pose proof (leading_later _ _ Hl2 Hp3) as Hl3. clear Hl2.
  eapply triple_then; [by apply triple_readBody|]. intros h4 req Hp4 _.
  destruct (session_checks req) as [v|msg] eqn:Ec; [|by apply triple_writeError]. apply session_checks_verifier in Ec as (Hd & Hv & Hj & Hage).
  eapply triple_then; [by apply triple_allow|]. intros h5 [] Hp5 Hb. cbv beta in Hb.
  eapply triple_then; [by apply triple_read_state|]. intros h6 mismatch Hp6 (st & Hst & Hm). injection Hm as <-.
  match goal with |- context [if ?b then _ else _] => destruct b eqn:Hmis end; [by apply triple_writeError|].
  assert (Hbind : forall b, ReadBinding st (sq_device_id req) = Some b -> b_verifier b = v).
  { intros b Eb. rewrite Eb in Hmis. by apply negb_false_iff, bool_decide_eq_true in Hmis. }
  clear Hmis. apply trip_command. intros h7 Hp7 Hlk.
  eapply triple_then; [apply (triple_call _ _ _ _ (fun h' p => Ev ENewPlayerID p ∈ h')); [done|auto with hist]|]. intros h8 player Hp8 Hpl. cbv beta in Hpl.
  eapply triple_then; [apply (triple_call _ _ _ _ (fun h' now => Ev ENow now ∈ h')); [done|auto with hist]|]. intros h9 now Hp9 Hn. cbv beta in Hn.
  apply (trip_submit RSession r _ (OpenSession (sq_device_id req) v player (sq_jurisdiction req) (sq_age req))); [done| |done].
  assert (H89 : h7 ⊑ₕ h9) by (by etrans). assert (H69 : h6 ⊑ₕ h9) by (by etrans). assert (H59 : h5 ⊑ₕ h9) by (by etrans).
  assert (H39 : h3 ⊑ₕ h9) by (do 2 (etrans; [done|]); done).
  split.
  - split; [by eapply leading_later|done|exact (later_call _ _ _ Hlk H89)|by exists now].
  - exists (sq_device_id req), (sq_device_secret req), v, player, (sq_jurisdiction req), (sq_age req). split_and!; try done; try lia.
    + by eapply within_limit_later.
    + by eapply within_limit_later.
    + exact (later_call _ _ _ Hpl Hp9).
    + exists st. split; [exact (later_call _ _ _ Hst H69)|done].
Qed.

(** ** The reads *)

Definition is_read (rt : Route) : Prop := match rt with RTournaments | RRound | RLeaderboard => True | _ => False end.

Lemma trip_beginRead rt r l h : trip rt r (beginRead cfg r l) h (fun _ _ => True).
Proof.
  pose proof (answered_refusal rt) as HW. unfold beginRead. eapply triple_then; [by apply triple_authenticate|]. intros h1 c _ _.
  eapply triple_then; [by apply triple_allow|]. intros h2 [] _ _. by apply triple_go.
Qed.

Lemma trip_queryInt rt r name def lo hi h : trip rt r (queryInt r name def lo hi) h (fun _ _ => True).
Proof.
  pose proof (answered_refusal rt) as HW. unfold queryInt. destruct (h_query r !! name); [|by apply triple_go].
  destruct (parse_int _); [|by apply triple_writeError]. case_goal; [by apply triple_writeError|by apply triple_go].
Qed.

Lemma trip_waitMinSlot rt r minSlot h : trip rt r (waitMinSlot cfg r minSlot) h (fun _ _ => True).
Proof.
  pose proof (answered_refusal rt) as HW. unfold waitMinSlot. case_goal; [by apply triple_go|].
  eapply triple_then; [by apply (triple_call _ _ _ _ (fun _ _ => True))|]. intros h1 [|] _ _; [by apply triple_go|].
  eapply triple_then; [by apply (triple_call _ _ _ _ (fun _ _ => True))|]. intros h2 st _ _.
  case_goal; [by apply triple_redirect|by apply triple_writeError].
Qed.

(** What was read is answered with status 200. *)
Lemma trip_ok rt r headers body st h (Q : list event -> Empty_set -> Prop) : is_read rt -> Ev ERead (Some st) ∈ h ->
  trip rt r (writeJSON headers 200 body) h Q.
Proof.
  intros Hrt Hst. apply triple_writeJSON. intros h' p Hp Hs _. right.
  assert (H : p_status p = 200 /\ exists st, Ev ERead (Some st) ∈ h'); [|by destruct rt]. split; [done|]. exists st. exact (later_call _ _ _ Hst Hp).
Qed.

(** Past a step that keeps no facts. *)
Ltac skip lemma := eapply triple_then; [apply lemma|]; intros ?h ?x _ _.

Lemma trip_handleTournaments r h Q : trip RTournaments r (handleTournaments cfg r) h Q.
Proof.
  pose proof (answered_refusal RTournaments) as HW. unfold handleTournaments. skip trip_beginRead.
  case_goal; [by apply triple_writeError|]. skip trip_queryInt. skip trip_queryInt.
  eapply triple_then; [by apply triple_read_state|]. intros hr resp _ (st & Hst & _). by eapply trip_ok.
Qed.

Lemma trip_handleRound r h Q : trip RRound r (handleRound fuel cfg r) h Q.
Proof.
  pose proof (answered_refusal RRound) as HW. unfold handleRound. skip trip_beginRead. skip trip_pathTournament. skip trip_pathRound.
  skip trip_queryInt. skip trip_waitMinSlot. eapply triple_then; [by apply triple_read_state|]. intros hr [slot [code|resp]] _ (st & Hst & _).
  - by apply triple_writeError.
  - by eapply trip_ok.
Qed.

Lemma trip_handleLeaderboard r h Q : trip RLeaderboard r (handleLeaderboard cfg r) h Q.
Proof.
  pose proof (answered_refusal RLeaderboard) as HW. unfold handleLeaderboard. skip trip_beginRead. skip trip_pathTournament. skip trip_queryInt.
  skip trip_queryInt. skip trip_queryInt. skip trip_waitMinSlot. eapply triple_then; [by apply triple_read_state|].
  intros hr [slot [resp|]] _ (st & Hst & _); [by eapply trip_ok|by apply triple_writeError].
Qed.

(** C8. Nobody plays for anybody else.  Whatever the calls a handler makes
    return, it submits a command only after the replica has said that it leads
    and is ready, for a client key of the right form whose namespaced key it
    has locked; an intent only for the player of a signed token that is still
    good, within the player's limit, under that player's keys; a session only
    for a device whose secret is not another's.  The reads submit nothing.  And
    an answer that is not a refusal is made of a result the submitted command
    returned, accepted, and of a state read afterwards. *)
Theorem commands_authorised rt r : safe (allowed (submittable rt r)) (routed fuel cfg json_error rt r) [] (fun h o =>
  match o with Go v => False | Answer p => answered rt h p | Panic => True end).
Proof.
  assert (H : trip rt r (routed fuel cfg json_error rt r) [] (fun _ _ => True)).
  { pose proof (answered_refusal rt) as HW. destruct rt; cbn [routed]; unfold with_method; try (case_goal; [by apply triple_writeError|]).
    - apply trip_handleSession.
    - apply trip_handleTournaments.
    - apply trip_handleJoin.
    - apply trip_handleDeal.
    - apply trip_handleRound.
    - apply trip_handleMove.
    - apply trip_handleFinish.
    - apply trip_handleLeaderboard.
    - apply trip_handleClaim.
    - by apply triple_writeError. }
  eapply safe_mono; [|exact H]. by intros h [[]|p|] Ho.
Qed.
End Handlers.
