(* ===== verification/InFlight.v ===== *)
(** Requests side by side: the keys in flight ([inflight], [lock] and [unlock]
    of internal/intent/server.go) and the handlers that run at the same time.

    Every handler locks one key before it submits and unlocks it before it
    ends, however it ends ([handler_follows]); so of all the requests being
    served no two have a command of the same key submitted, and no key stays in
    flight ([one_command_per_key]). *)

From S2P Require Import Prelude Programs Serving GoStd Json Unmarshal Paxos Ledger Game Records Codec State Replog Replica Session Limit Wire Views Server Routes.

(** * The keys in flight *)

(** The keys after a call that returns [r]; [None] when it cannot. *)
Definition returns (R : Type) (e : Eff R) : R -> gset IdempotencyKey -> option (gset IdempotencyKey) :=
  match e in Eff R return R -> gset IdempotencyKey -> option (gset IdempotencyKey) with
  | ELock key => fun ok inflight => let '(ok', inflight') := lock_key inflight key in if bool_decide (ok = ok') then Some inflight' else None
  | EUnlock key => fun _ inflight => Some (unlock_key inflight key)
  | _ => fun _ inflight => Some inflight
  end.

(** * The discipline of a handler *)

Inductive Phase := Fresh | Holding (key : IdempotencyKey) | Waiting (cmd : Command) | Resulted (key : IdempotencyKey) | Released.

Definition held (ph : Phase) : option IdempotencyKey :=
  match ph with Holding key | Resulted key => Some key | Waiting cmd => Some (cmd_key cmd) | _ => None end.

(** Where a call leads; [None] for a call the phase does not allow. *)
Definition after {R} (e : Eff R) : R -> Phase -> option Phase :=
  match e in Eff R return R -> Phase -> option Phase with
  | ELock key => fun ok ph => match ph with Fresh => Some (if ok then Holding key else Released) | _ => None end
  | EUnlock key => fun _ ph => match ph with
      | Holding key' | Resulted key' => if bool_decide (key = key') then Some Released else None
      | _ => None
      end
  | ESubmit cmd => fun _ ph => match ph with Holding key => if bool_decide (cmd_key cmd = key) then Some (Waiting cmd) else None | _ => None end
  | EResult cmd => fun _ ph => match ph with
      | Waiting cmd' => if bool_decide (cmd_key cmd = cmd_key cmd') then Some (Resulted (cmd_key cmd)) else None
      | _ => None
      end
  | _ => fun _ ph => Some ph
  end.

(** Whatever its calls return, [p] calls what its phase allows and ends as [Q]
    says. *)
Fixpoint follows {A} (p : prog A) (ph : Phase) (Q : Phase -> A -> Prop) : Prop :=
  match p with
  | Ret a => Q ph a
  | Call e k => forall r, match after e r ph with Some ph' => follows (k r) ph' Q | None => False end
  end.

Lemma follows_mono {A} (p : prog A) ph (Q Q' : Phase -> A -> Prop) : (forall ph a, Q ph a -> Q' ph a) -> follows p ph Q -> follows p ph Q'.
Proof.
  intros HQ. revert ph. induction p as [a|R e k IH]; intros ph; simpl; [apply HQ|].
  intros H r. specialize (H r). destruct (after e r ph); [by apply IH|done].
Qed.

Lemma follows_pbind {A B} (p : prog A) (f : A -> prog B) ph Q :
  follows p ph (fun ph' a => follows (f a) ph' Q) -> follows (pbind p f) ph Q.
Proof.
  revert ph. induction p as [a|R e k IH]; intros ph; simpl; [done|].
  intros H r. specialize (H r). destruct (after e r ph); [by apply IH|done].
Qed.

(** Programs that neither lock nor submit. *)
Definition quiet {A} (p : prog A) : Prop := forall ph, follows p ph (fun ph' _ => ph' = ph).

Lemma quiet_go {A} (a : A) : quiet (go (P := Response) a).
Proof. by intros ph. Qed.

Lemma quiet_pbind {A B} (p : prog A) (f : A -> prog B) : quiet p -> (forall a, quiet (f a)) -> quiet (pbind p f).
Proof. intros Hp Hf ph. apply follows_pbind. eapply follows_mono; [|apply Hp]. intros ph' a ->. apply Hf. Qed.

Lemma quiet_ret {A} (a : A) : quiet (Ret a).
Proof. by intros ph. Qed.

Lemma quiet_then {A B} (m : M A) (f : A -> M B) : quiet m -> (forall a, quiet (f a)) -> quiet (then_ m f).
Proof.
  intros Hm Hf ph. apply follows_pbind. eapply follows_mono; [|apply Hm]. intros ph' [a|r|] ->; simpl; [apply Hf|done..].
Qed.

(** Past a quiet part, to what ends every phase alike. *)
Lemma follows_then {A B} (m : M A) (f : A -> M B) ph (Q : Phase -> Prop) : quiet m -> Q ph ->
  (forall a, follows (f a) ph (fun ph' _ => Q ph')) -> follows (then_ m f) ph (fun ph' _ => Q ph').
Proof.
  intros Hm HQ Hf. apply follows_pbind. eapply follows_mono; [|apply Hm]. intros ph' [a|r|] ->; simpl; [apply Hf|done..].
Qed.

Lemma follows_quiet {A} (p : prog A) ph (Q : Phase -> Prop) : quiet p -> Q ph -> follows p ph (fun ph' _ => Q ph').
Proof. intros Hp HQ. eapply follows_mono; [|apply Hp]. by intros ph' _ ->. Qed.

Lemma quiet_call {R} (e : Eff R) : (forall r ph, after e r ph = Some ph) -> quiet (call (P := Response) e).
Proof. intros H ph r. by rewrite H. Qed.

Lemma quiet_writeJSON {A} headers status v : quiet (A:=Outcome A) (writeJSON headers status v).
Proof. by intros ph now. Qed.

Lemma quiet_writeError {A} headers status code message b : quiet (A:=Outcome A) (writeError headers status code message b).
Proof. apply quiet_writeJSON. Qed.

Create HintDb quiet.
#[export] Hint Resolve quiet_go quiet_ret quiet_writeJSON quiet_writeError : quiet.
#[export] Hint Extern 1 (quiet (call _)) => by apply quiet_call : quiet.

(** A quiet definition: its calls, branches and parts. *)
Ltac hush := repeat first
  [ solve [auto with quiet nocore]
  | apply quiet_then; [|intros ?]
  | apply quiet_pbind; [|intros ?]
  | match goal with |- quiet (match ?x with _ => _ end) => destruct x end ].

Section Quiet.
Context `{U : Unicode} (fuel : nat) (cfg : Config) (json_error : bytes -> string).

Lemma quiet_malformed {A} msg : quiet (A:=Outcome A) (malformed msg).
Proof. apply quiet_writeError. Qed.
Hint Resolve quiet_malformed : quiet.

Lemma quiet_redirect {A} r leader : quiet (A:=Outcome A) (redirect cfg r leader).
Proof. unfold redirect. hush. Qed.
Hint Resolve quiet_redirect : quiet.

Lemma quiet_onLeader r : quiet (onLeader cfg r).
Proof. unfold onLeader. hush. Qed.
Lemma quiet_clientKey r : quiet (clientKey r).
Proof. unfold clientKey. hush. Qed.
Lemma quiet_authenticate r : quiet (authenticate cfg r).
Proof. unfold authenticate. hush. Qed.
Lemma quiet_allow l key : quiet (allow l key).
Proof. unfold allow. hush. Qed.
Lemma quiet_readBody {A} (c : Codec A) r : quiet (readBody cfg json_error c r).
Proof. unfold readBody. hush. Qed.
Lemma quiet_read_state {A} headers (fn : State -> option A) : quiet (read_state headers fn).
Proof. unfold read_state. hush. Qed.
Hint Resolve quiet_onLeader quiet_clientKey quiet_authenticate quiet_allow quiet_readBody quiet_read_state : quiet.

Lemma quiet_answer res sequenced success : quiet (answer res sequenced success).
Proof. unfold answer. hush. Qed.
Lemma quiet_beginIntent r : quiet (beginIntent cfg r).
Proof. unfold beginIntent. hush. Qed.
Lemma quiet_seqBody r : quiet (seqBody cfg json_error r).
Proof. unfold seqBody. hush. Qed.
Lemma quiet_pathTournament r : quiet (pathTournament r).
Proof. unfold pathTournament. hush. Qed.
Lemma quiet_pathRound r : quiet (pathRound r).
Proof. unfold pathRound. hush. Qed.
Lemma quiet_beginRead r l : quiet (beginRead cfg r l).
Proof. unfold beginRead. hush. Qed.
Lemma quiet_queryInt r name def lo hi : quiet (queryInt r name def lo hi).
Proof. unfold queryInt. hush. Qed.
Lemma quiet_waitMinSlot r minSlot : quiet (waitMinSlot cfg r minSlot).
Proof. unfold waitMinSlot, notFound. hush. Qed.
Hint Resolve quiet_answer quiet_beginIntent quiet_seqBody quiet_pathTournament quiet_pathRound quiet_beginRead quiet_queryInt
  quiet_waitMinSlot : quiet.

Lemma quiet_reads r : quiet (handleTournaments cfg r) /\ quiet (handleRound fuel cfg r) /\ quiet (handleLeaderboard cfg r).
Proof. unfold handleTournaments, handleRound, handleLeaderboard, notFound. split_and!; hush. Qed.

(** ** The commands *)

Definition over (ph : Phase) : Prop := ph = Fresh \/ ph = Released.
Definition unsubmitted (key : IdempotencyKey) (ph : Phase) : Prop := ph = Holding key \/ ph = Resulted key.

Lemma follows_submit r cmd op sequenced success : cmd_op cmd = op ->
  follows (res <~ submit cfg r cmd; answer res sequenced success) (Holding (cmd_key cmd))
    (fun ph _ => unsubmitted (cmd_key cmd) ph).
Proof.
  intros _. apply follows_pbind. unfold submit. intros []. cbn [after]. rewrite bool_decide_eq_true_2 by done.
  intros res. cbn [after]. rewrite bool_decide_eq_true_2 by done.
  assert (HR : unsubmitted (cmd_key cmd) (Resulted (cmd_key cmd))) by by right.
  destruct res as [res|f].
  - cbn [follows]. apply follows_quiet; [apply quiet_answer|done].
  - match goal with |- follows ?m _ _ => assert (Hq : quiet (A:=Outcome Result) m) by hush end.
    eapply follows_mono; [|apply Hq]. intros ph' [a|p|] ->; cbn [follows]; [|done..]. apply follows_quiet; [apply quiet_answer|done].
Qed.

(** What runs under the lock is followed by the unlocking. *)
Lemma follows_holding {A} key (m : M A) : follows m (Holding key) (fun ph _ => unsubmitted key ph) ->
  follows (holding key m) Fresh (fun ph _ => over ph).
Proof.
  intros H. apply follows_pbind. unfold lock. intros [|]; cbn [after].
  - cbn. apply follows_pbind. eapply follows_mono; [|exact H]. intros ph o [-> | ->]; intros u; cbn [after];
      rewrite bool_decide_eq_true_2 by done; by right.
  - cbn -[follows]. intros now. by right.
Qed.

Lemma follows_finishIntent r c key op success : follows (finishIntent cfg r c key op success) Fresh (fun ph _ => over ph).
Proof.
  unfold finishIntent. apply follows_holding. apply follows_then; [by apply quiet_call|by left|]. intros now.
  apply (follows_submit r (mkCommand (player_key (c_Player c) key) (UnixMilli now) (Some op)) (Some op)). done.
Qed.

(** Past the quiet checks. *)
Ltac follow := repeat first
  [ apply follows_finishIntent
  | apply follows_then; [solve [hush]|by left|intros ?]
  | apply follows_quiet; [solve [hush]|by left]
  | match goal with |- follows (match ?x with _ => _ end) _ _ => destruct x end ].

Lemma follows_handleSession r : follows (handleSession cfg json_error r) Fresh (fun ph _ => over ph).
Proof.
  unfold handleSession. follow. apply follows_holding. apply follows_then; [by apply quiet_call|by left|]. intros player.
  apply follows_then; [by apply quiet_call|by left|]. intros now.
  apply (follows_submit r (mkCommand (device_key (sq_device_id a2) a0) (UnixMilli now)
    (Some (OpenSession (sq_device_id a2) l player (sq_jurisdiction a2) (sq_age a2)))) _ _ _ eq_refl).
Qed.

Lemma follows_intents r : follows (handleJoin cfg json_error r) Fresh (fun ph _ => over ph) /\
  follows (handleDeal fuel cfg json_error r) Fresh (fun ph _ => over ph) /\
  follows (handleMove fuel cfg json_error r) Fresh (fun ph _ => over ph) /\
  follows (handleFinish fuel cfg json_error r) Fresh (fun ph _ => over ph) /\
  follows (handleClaim cfg json_error r) Fresh (fun ph _ => over ph).
Proof. unfold handleJoin, handleDeal, handleMove, handleFinish, handleClaim. split_and!; follow. Qed.

Lemma handler_follows rt r : follows (Handler fuel cfg json_error rt r) Fresh (fun ph _ => over ph).
Proof.
  unfold Handler, stamp. intros st. cbn [after]. apply follows_pbind.
  assert (H : follows (routed fuel cfg json_error rt r) Fresh (fun ph _ => over ph)); [|eapply follows_mono; [|exact H]; by intros ph o].
  destruct (follows_intents r) as (H1 & H2 & H3 & H4 & H5). destruct (quiet_reads r) as (R1 & R2 & R3).
  destruct rt; cbn [routed]; [..|apply follows_quiet; [apply quiet_writeError|by left]];
    unfold with_method; (case_goal; [apply follows_quiet; [apply quiet_writeError|by left]|]);
    first [assumption|apply follows_handleSession|apply follows_quiet; [assumption|by left]].
Qed.
End Quiet.

(** * Requests side by side *)

Section Serving.
Context `{U : Unicode} (fuel : nat) (cfg : Config) (json_error : bytes -> string).

(** The handlers that arrive are those of the routes. *)
Definition handlers (p : prog (option Response)) : Prop := exists rt r, p = Handler fuel cfg json_error rt r.
Notation serve := (Serving.serve handlers returns).

(** A command is being submitted. *)
Definition submitting (p : prog (option Response)) (cmd : Command) : Prop :=
  (exists k, p = Call (ESubmit cmd) k) \/ (exists k, p = Call (EResult cmd) k).

(** Whatever happens, [p] unlocks the key. *)
Definition unlocking (key : IdempotencyKey) (R : Type) (e : Eff R) : bool := match e with EUnlock key' => bool_decide (key' = key) | _ => false end.
Definition unlocks (key : IdempotencyKey) (p : prog (option Response)) : Prop := inevitable (unlocking key) p.

Lemma after_held {R} (e : Eff R) r ph ph' key : after e r ph = Some ph' -> held ph = Some key -> unlocking key R e = false -> held ph' = Some key.
Proof.
  destruct e, ph; simpl; intros Ea Hk Hu; simplify_eq/=; try done; case_hyp Ea; b2p; simplify_eq/=; try done; congruence.
Qed.

(** What a call does to the keys in flight is what it does to the request's. *)
Lemma returns_held {R} (e : Eff R) r ph ph' fl fl' : after e r ph = Some ph' -> returns R e r fl = Some fl' ->
  moves held ph ph' fl fl'.
Proof.
  unfold moves, returns, lock_key, unlock_key. destruct e, ph; simpl; intros Ea Hr; simplify_eq/=; auto;
    repeat (case_hyp Ea || case_hyp Hr); b2p; simplify_eq/=; eauto 10 with congruence.
Qed.

Lemma follows_unlocks p ph key : follows p ph (fun ph' _ => over ph') -> held ph = Some key -> unlocks key p.
Proof.
  unfold unlocks. revert ph. induction p as [a|R e k IH]; intros ph; simpl; [by intros [-> | ->]|].
  intros H Hk. destruct (unlocking key R e) eqn:Hu; [done|]. intros r. specialize (H r). destruct (after e r ph) as [ph'|] eqn:Ea; [|done].
  exact (IH r ph' H (after_held e r ph ph' key Ea Hk Hu)).
Qed.

(** The discipline: a program follows its phase, and is over at its end. *)
Definition in_phase (p : prog (option Response)) (ph : Phase) : Prop := follows p ph (fun ph' _ => over ph').

Lemma phases_discipline : Discipline handlers returns in_phase held.
Proof.
  split.
  - intros p (rt & r & ->). exists Fresh. split; [apply handler_follows|done].
  - intros R e k r ph fl fl' Hf Hr. specialize (Hf r). destruct (after e r ph) as [ph'|] eqn:Ea; [|done].
    exists ph'. split; [exact Hf|by eapply returns_held].
  - intros o ph [-> | ->]; done.
Qed.

Lemma submitting_held p cmd ph : follows p ph (fun q _ => over q) -> submitting p cmd -> held ph = Some (cmd_key cmd).
Proof.
  intros H [[k ->]|[k ->]]; simpl in H.
  - specialize (H tt). destruct ph; try done. case_hyp H; b2p; [|done]. by subst.
  - specialize (H (inr Busy)). destruct ph; try done. case_hyp H; b2p; [|done]. simpl. congruence.
Qed.

(** C14. One command per key at a time.  However many requests are served side
    by side, and however their calls interleave and fail: two requests never
    have a command with the same key submitted; the key of a submitted command
    is in flight; and a key is in flight only while some request being served
    holds it, whose handler then unlocks it whatever happens, a panic
    included, so that none stays locked. *)
Theorem one_command_per_key s : rtc serve idle s ->
  (forall i j p q cmd cmd', running s !! i = Some p -> running s !! j = Some q -> i <> j ->
     submitting p cmd -> submitting q cmd' -> cmd_key cmd <> cmd_key cmd') /\
  (forall i p cmd, running s !! i = Some p -> submitting p cmd -> cmd_key cmd ∈ inflight s) /\
  (forall key, key ∈ inflight s -> exists i p, running s !! i = Some p /\ unlocks key p).
Proof.
  intros Hs. destruct (serving_served _ _ _ _ phases_discipline s Hs) as [g S]. split_and!.
  - intros i j p q cmd cmd' Hi Hj Hne Hp Hq Hk. apply Hne.
    destruct (served_running _ _ _ _ _ _ S Hi) as (x & Gi & Fx). destruct (served_running _ _ _ _ _ _ S Hj) as (y & Gj & Fy).
    apply (served_apart _ _ _ _ _ _ _ _ _ _ _ S Gi Gj (submitting_held _ _ _ Fx Hp)). rewrite Hk. by eapply submitting_held.
  - intros i p cmd Hi Hp. destruct (served_running _ _ _ _ _ _ S Hi) as (x & Gi & Fx).
    exact (served_key _ _ _ _ _ _ _ _ S Gi (submitting_held _ _ _ Fx Hp)).
  - intros key Hk. destruct (served_holder _ _ _ _ _ S Hk) as (i & p & x & Hi & Fx & Hx). exists i, p. split; [done|].
    by eapply follows_unlocks.
Qed.
End Serving.

(** * Two requests with one key *)

Section Demo.
#[local] Existing Instance ascii_unicode.

Definition demo_config : Config :=
  mkConfig 1 {[1 := "http://n1"]} vectorRing DefaultTTL (repeat 7 32) DefaultRequestTimeout DefaultMaxBody DefaultMinSlotWait NoLimits 10.

(** The player of the token claims a payout. *)
Definition demo_request : Request :=
  mkRequest "POST" "/v1/tournaments/t1/claim" "/v1/tournaments/t1/claim" "t1" "" ∅ "0123456789abcdef" ("Bearer " +:+ vectorToken)
    (Some (bytes_of ("{" +:+ string_of [34] +:+ "seq" +:+ string_of [34] +:+ ":1}"))) "127.0.0.1".

Definition demo_handler : prog (option Response) := Handler 1 demo_config (fun _ => "") RClaim demo_request.

(** A ready leader, and a submission that times out. *)
Definition demo_reply (fl : gset IdempotencyKey) (R : Type) (e : Eff R) : R :=
  match e with
  | ENow => 1789200000000 * millisecond
  | EStatus => mkStatus 1 1 Leader (mkBallot 1 1) true 0 0 [] 1
  | EAllow _ _ _ => (0, true)
  | ELock key => (lock_key fl key).1
  | EUnlock _ | ESubmit _ => tt
  | EResult _ => inr ContextEnded
  | ERead => None
  | EWaitApplied _ => true
  | ENewPlayerID => ""
  end.

Definition demo_arrived : Serving (E := Eff) := mkServing ∅ (<[1%nat := demo_handler]> (<[0%nat := demo_handler]> ∅)).
Definition demo_serving : Serving (E := Eff) := foldl (turn returns demo_reply) demo_arrived (repeat 0%nat 8 ++ repeat 1%nat 7).

Lemma demo_serving_reached : rtc (serve (handlers 1 demo_config (fun _ => "")) returns) idle demo_serving.
Proof. apply turns_serve, pair_arrives; by exists RClaim, demo_request. Qed.

Definition result_awaited (p : prog (option Response)) : option IdempotencyKey :=
  match p with @Call _ _ R e _ => match e with EResult cmd => Some (cmd_key cmd) | _ => None end | _ => None end.
Definition refused (p : prog (option Response)) : option Z := match p with Ret (Some r) => Some (p_status r) | _ => None end.

Definition demo_key : IdempotencyKey := player_key (c_Player vectorClaims) "0123456789abcdef".

(** The second finds the key in flight and is refused. *)
Lemma demo_serving_run : (running demo_serving !! 0%nat ≫= result_awaited) = Some demo_key /\
  (running demo_serving !! 1%nat ≫= refused) = Some 409 /\ bool_decide (demo_key ∈ inflight demo_serving) = true.
Proof. vm_compute. split_and!; reflexivity. Qed.

Lemma one_command_per_key_witness : (running demo_serving !! 0%nat ≫= result_awaited) = Some demo_key /\
  (running demo_serving !! 1%nat ≫= refused) = Some 409 /\
  exists i p, running demo_serving !! i = Some p /\ unlocks demo_key p.
Proof.
  destruct demo_serving_run as (H0 & H1 & H2). split; [exact H0|]. split; [exact H1|].
  destruct (one_command_per_key 1 demo_config (fun _ => "") demo_serving demo_serving_reached) as (_ & _ & H).
  apply H, (bool_decide_eq_true _), H2.
Defined.
End Demo.
