(* ===== verification/Answers.v ===== *)
(** The answers to commands (the response builders of internal/intent/post.go
    over internal/tournament).

    An accepted command always has a response ([response_built]); and the
    response is final: it is rebuilt identically from every later state, and a
    retry gets it again, marked as replayed ([answers_repeat]). *)

From S2P Require Import Prelude GoStd Paxos Ledger Game Records Codec Compute State Changes.
From S2P Require Import TournamentInv PlayInv LedgerInv Machine Reach Guarantees.
From S2P Require Import Session Wire Views ViewSafety RoundViews Server Routes Intents.

Section Answers.
Context `{U : Unicode} (fuel : nat) (cfg : Config).

(** * What an accepted command leaves *)

Lemma start_slot_ok s slot cmd : play (start_slot s slot cmd) = begin (play s) /\ tournaments (start_slot s slot cmd) = tournaments s.
Proof. done. Qed.

(** The operation behind a result. *)
Lemma Apply_dispatch s slot ballot cmd op s1 res : applied s < slot -> ValidateKey (cmd_key cmd) = None ->
  results s !! cmd_key cmd = None -> cmd_op cmd = Some op -> Apply fuel s slot ballot cmd = Some (s1, res) ->
  exists s0 r, dispatch fuel (start_slot s slot cmd) slot ballot (cmd_received_at cmd) op = Some (s0, r) /\
    res = with_slot r slot /\ tournaments s1 = tournaments s0 /\ rounds (play s1) = rounds (play s0) /\ bindings (play s1) = bindings (play s0).
Proof.
  intros Hlt Hv Hk Hop. unfold Apply. rewrite (proj2 (Z.leb_gt _ _)) by done. cbv zeta.
  intros ([s2 r2] & He & (s3 & Hm & H)%bind_Some)%bind_Some. injection H as <- <-.
  unfold execute in He. rewrite Hv, Hop in He. change (results (start_slot s slot cmd)) with (results s) in He. rewrite Hk in He.
  apply bind_Some in He as ([s0 r] & Hd & He). cbv zeta in He. injection He as <- <-.
  unfold mix in Hm. apply bind_Some in Hm as (w & _ & Hm). injection Hm as <-. by exists s0, r.
Qed.

Lemma Apply_applied s slot ballot cmd s1 res : Inv fuel None s -> command_ok fuel cmd -> applied s < slot ->
  Apply fuel s slot ballot cmd = Some (s1, res) -> applied s1 = slot.
Proof.
  intros I Hok Hlt E. destruct (Apply_total fuel s slot ballot cmd I Hok) as [(Hle & _)|(_ & s2 & r & h & E2 & X & _)]; [lia|].
  rewrite E2 in E. injection E as <- _. destruct X as [err _ -> _|rec _ _ -> _|rec _ _ -> _|_ _ _ -> _|op s3 r' _ _ _ O _ _ ->]; try done.
  simpl. by destruct (outcome_counters fuel _ _ _ _ _ _ O) as (_ & -> & _).
Qed.

Lemma sequenced_tournament s pid seq tid s1 : sequenced s pid seq tid = (s1, None) ->
  is_Some (tournaments s !! tid) /\ tournaments s1 = tournaments s.
Proof.
  unfold sequenced. destruct (players (play s) !! pid) as [ps|]; [|done]. cbv zeta. do 2 (case_goal; [done|]).
  cbn [tournaments set_play]. destruct (tournaments s !! tid) as [t|]; [|done]. case_goal; [done|]. intros [= <-]. split; [by eexists|done].
Qed.

(** *** Rounds *)

(** The round a command plays. *)
Definition round_of (op : Op) : option roundKey :=
  match op with
  | StartRound tid p _ round _ | PlayMove tid p _ round _ _ | FinishRound tid p _ round => Some (tid, p, round)
  | _ => None
  end.

Lemma startRound_counted s slot tid player seq round seed s' res : tournaments_ok s -> is_Some (Deal fuel seed) ->
  startRound s slot tid player seq round seed = Some (s', res) -> res_code res = OK -> counted (rounds (play s')) (tid, player, round) res.
Proof.
  unfold startRound. intros T Hd. destruct (sequenced s player seq tid) as [s1 [rej|]] eqn:Es.
  { intros [= <- <-] Hc. by destruct (sequenced_rejects _ _ _ _ _ _ Es). }
  apply sequenced_tournament in Es as [_ Et]. intros (t & Ht & (out & Ho & H)%bind_Some)%bind_Some Hc. unfold deref in Ht. rewrite Et in Ht.
  cbv zeta in H. do 5 (case_hyp H; [by injection H as <- <-|]). injection H as <- <-.
  unfold outcome in Ho. apply bind_Some in Ho as (ps & _ & Ho). injection Ho as <-.
  rewrite (to_id tid t (proj1 T tid t Ht)). eexists. split; [apply lookup_insert_eq|]. done.
Qed.

(** An accepted round command's result counts moves of its round. *)
Lemma dispatch_counted s slot ballot received op s' res key : tournaments_ok s -> rounds_live fuel (rounds (play s)) ->
  command_ok fuel (mkCommand "" received (Some op)) -> round_of op = Some key ->
  dispatch fuel s slot ballot received op = Some (s', res) -> res_code res = OK -> counted (rounds (play s')) key res.
Proof.
  intros T L Hok Hr H Hc. assert (Hid : forall tid player seq t, tournaments (sequenced s player seq tid).1 !! tid = Some t -> t_id t = tid).
  { intros tid player seq t Ht. apply (to_id tid t), (proj1 T). revert Ht. unfold sequenced. by repeat (case_goal; try done). }
  destruct op; try done; injection Hr as <-; cbn [dispatch] in H.
  - exact (startRound_counted _ _ _ _ _ _ _ _ _ T Hok H Hc).
  - destruct (playMove_live _ _ _ _ _ _ _ _ _ _ _ H L) as [_ K]. destruct (K Hc) as (t & Ht & C). by rewrite (Hid _ _ _ t Ht) in C.
  - destruct (finish_live _ _ _ _ _ _ _ _ _ H L) as [_ K]. destruct (K Hc) as (t & Ht & C). by rewrite (Hid _ _ _ t Ht) in C.
Qed.

(** No round was dealt after the applied slot. *)
Definition started_by (n : Slot) (rs : gmap roundKey RoundRecord) : Prop := forall key rec, rs !! key = Some rec -> rr_started_at rec <= n.

Lemma started_insert n rs key rec : started_by n rs -> rr_started_at rec <= n -> started_by n (<[key := rec]> rs).
Proof. intros H Hr k x. rewrite lookup_insert. case_decide; [by intros [= <-]|apply H]. Qed.

Lemma steps_started slot ballot closing s s' : rtc (change fuel slot ballot closing) s s' ->
  started_by slot (rounds (play s)) -> started_by slot (rounds (play s')).
Proof.
  induction 1 as [|s1 s2 s3 C _ IH]; [done|]. intros H. apply IH. destruct C as
    [id seed r Hk|k t player b q Ht Ha Hv Hp|k t t' i e sc digest Ht Ho Hi He Hsa Hm|k t Ht Ho Hn|k t ex b Ht Hst _ Hb
    |b Hb Hp Hv|pid ps Hp Hsq|k t pid ps Ht Hj Hp|k t pid round seed Ht Ho Hg Hj Hu Hr Hnew Hprev Hd
    |k t pid round rec b m b' Ht Ho Hr Hn _ Hrep Ha|k t pid round rec b reason Ht Ho Hr Hn Hrep|k t pid b q _ _ _ _ _ Hp|ev|tid];
    try exact H; simpl; apply started_insert; try exact H; [simpl; lia|apply (H _ _ Hr)..].
Qed.

Lemma later_started s s' : Inv fuel None s -> results_ok s -> later fuel s s' ->
  started_by (applied s) (rounds (play s)) -> started_by (applied s') (rounds (play s')).
Proof.
  intros I R H. induction H as [|s1 s2 s3 C _ IH]; [done|]. intros S. destruct (slot_step_spec fuel s1 s2 I R C) as (I2 & R2 & _).
  apply (IH I2 R2). destruct (slot_step_grow fuel s1 s2 I C) as [Hle _].
  assert (S' : started_by (applied s2) (rounds (play s1))) by (intros key rec Hk; specialize (S key rec Hk); lia).
  revert S'. clear -I C. destruct C as [slot ballot cmd s2 res Hok H|slot]; [|unfold Skip; by case_goal].
  destruct (Apply_total fuel s1 slot ballot cmd I Hok) as [(_ & d & E)|(Hlt & s3 & r & h & E & X & _)]; rewrite E in H; injection H as <- <-; [done|].
  destruct X as [err _ -> _|rec _ _ -> _|rec _ _ -> _|_ _ _ -> _|op s4 r' _ _ _ O _ _ ->]; try done.
  simpl. destruct (outcome_counters fuel _ _ _ _ _ _ O) as (_ & -> & _). simpl.
  destruct O as [-> _|pid ps _ _ -> _|C _]; [done|done|]. exact (steps_started _ _ _ (start_slot s1 slot cmd) s4 C).
Qed.

(** ** Views can be built *)

Lemma view_built s t p round rec moves asOf : rounds_ok fuel (tournaments s) (rounds (play s)) -> ReadRound s t p round = Some rec ->
  0 <= moves <= len (rr_moves rec) -> rr_started_at rec <= asOf ->
  exists v, BuildRoundViewAt fuel s t p round moves asOf = Some (Some v).
Proof.
  intros R Hr Hm Ha. unfold BuildRoundViewAt. rewrite Hr, (proj2 (Z.ltb_ge _ _)), andb_false_r by done.
  rewrite (proj2 (Z.ltb_ge moves 0)), (proj2 (Z.ltb_ge _ moves)) by lia. cbn [orb].
  destruct (rk_board _ _ _ _ _ _ _ (R _ _ _ _ Hr)) as (b & Hb & _). unfold board_of, Replay in Hb.
  unfold Replay at 1. destruct (Deal fuel (rr_seed rec)) as [b0|] eqn:D; [|done]. cbn [mbind option_bind].
  destruct (replay_from_wf 0 b0 (take (Z.to_nat moves) (rr_moves rec)) (Deal_wf _ _ _ D)) as (b1 & e & -> & W & _). cbn [mbind option_bind].
  destruct (Playable_wf b1 W) as (top & -> & ->). cbn [mbind option_bind].
  assert (Hlm : exists lm, last_move rec moves top = Some lm).
  { unfold last_move. destruct (Z.leb_spec moves 0); [eauto|]. unfold len in Hm.
    destruct (lookup_lt_is_Some_2 (rr_moves rec) (Z.to_nat (moves - 1))) as [m ->]; [lia|]. cbn. eauto. }
  destruct Hlm as [lm ->]. cbn [mbind option_bind]. case_goal; eauto.
Qed.
(** * Answers *)

(** The commands the API takes. *)
Definition has_response (op : Op) : Prop :=
  match op with OpenSession _ _ _ _ _ => True | _ => is_Some (sender op) end.

(** The answer to a retry. *)
Definition as_replayed (body : Body) : Body :=
  match body with
  | BSession (mkSessionResponse _ sl n p np tok iss exp j a) => BSession (mkSessionResponse true sl n p np tok iss exp j a)
  | BJoin (mkJoinResponse _ sl n t j f r) => BJoin (mkJoinResponse true sl n t j f r)
  | BRound (mkRoundResponse _ sl n v) => BRound (mkRoundResponse true sl n v)
  | BClaim (mkClaimResponse _ sl n t a k) => BClaim (mkClaimResponse true sl n t a k)
  | _ => body
  end.

Lemma response_replayed op st res status body : response_of fuel cfg op st res = Some (inl (status, body)) ->
  response_of fuel cfg op st (with_replayed res) = Some (inl (status, as_replayed body)).
Proof.
  destruct op; try done; cbn [response_of].
  - unfold session_response. destruct (ReadBinding st device) as [b|]; [|done]. cbn [res_play with_replayed]. case_goal; [done|]. cbv zeta.
    destruct (Sign _ _); [|done]. by intros [= <- <-].
  - unfold join_response. destruct (Header st tournament); [|done]. by intros [= <- <-].
  - unfold roundResponse. intros ([v|] & Hv & H)%bind_Some; [|done]. cbn in Hv. cbn -[BuildRoundViewAt]. rewrite Hv. by injection H as <- <-.
  - unfold roundResponse. intros ([v|] & Hv & H)%bind_Some; [|done]. cbn in Hv. cbn -[BuildRoundViewAt]. rewrite Hv. by injection H as <- <-.
  - unfold roundResponse. intros ([v|] & Hv & H)%bind_Some; [|done]. cbn in Hv. cbn -[BuildRoundViewAt]. rewrite Hv. by injection H as <- <-.
  - by intros [= <- <-].
Qed.

(** What a response is built of is there, and stays. *)
Definition supported (op : Op) (s : State) (res : Result) : Prop :=
  match op with
  | OpenSession d _ _ _ _ => exists b, bindings (play s) !! d = Some b /\ b_player b = po_player (res_play res)
  | Enter tid _ _ => is_Some (tournaments s !! tid)
  | _ => match round_of op with Some key => counted (rounds (play s)) key res | None => True end
  end.

Lemma openSession_supported s slot received d v p j a s' res : openSession s slot received d v p j a = Some (s', res) -> res_code res = OK ->
  exists b, bindings (play s') !! d = Some b /\ b_player b = po_player (res_play res).
Proof.
  unfold openSession. case_goal; [by intros [= <- <-]|]. destruct (bindings (play s) !! d) as [b|] eqn:Eb.
  - case_goal; [by intros [= <- <-]|]. intros (ps & _ & H)%bind_Some _. injection H as <- <-. by exists b.
  - destruct (ValidatePlayer _); [by intros [= <- <-]|]. case_goal; [by intros [= <- <-]|]. cbv zeta. intros [= <- <-] _.
    eexists. split; [apply lookup_insert_eq|done].
Qed.

Lemma enter_supported s slot ballot tid player seq s' res : enterPlay s slot ballot tid player seq = Some (s', res) -> res_code res = OK ->
  is_Some (tournaments s !! tid).
Proof.
  unfold enterPlay. destruct (sequenced s player seq tid) as [s1 [rej|]] eqn:Es.
  { intros [= <- <-] Hc. by destruct (sequenced_rejects _ _ _ _ _ _ Es). }
  by apply sequenced_tournament in Es as [? _].
Qed.

Lemma Apply_supported s slot ballot cmd op s1 res : reachable fuel s -> command_ok fuel cmd -> applied s < slot ->
  ValidateKey (cmd_key cmd) = None -> results s !! cmd_key cmd = None -> cmd_op cmd = Some op ->
  Apply fuel s slot ballot cmd = Some (s1, res) -> res_code res = OK -> supported op s1 res.
Proof.
  intros Hr Hok Hlt Hv Hk Hop E Hc. destruct (reachable_good fuel s Hr) as [I R].
  assert (C : slot_step fuel s s1) by by eapply st_apply. destruct (slot_step_spec fuel s s1 I R C) as (_ & _ & P & _).
  destruct (Apply_dispatch s slot ballot cmd op s1 res Hlt Hv Hk Hop E) as (s0 & r & Hd & -> & Et & Er & Eb).
  set (s' := start_slot s slot cmd) in Hd. unfold supported. rewrite Er, Eb. cbn [res_play with_slot].
  assert (Hround : forall key, round_of op = Some key -> counted (rounds (play s0)) key (with_slot r slot)).
  { intros key Hkey. refine (dispatch_counted s' slot ballot (cmd_received_at cmd) op s0 r key _ _ _ Hkey Hd Hc).
    - apply I.
    - exact (reachable_live fuel s Hr).
    - unfold command_ok in *. by rewrite Hop in Hok. }
  destruct op; cbn [round_of]; try done; try (by apply Hround); cbn [dispatch] in Hd.
  - exact (openSession_supported _ _ _ _ _ _ _ _ _ _ Hd Hc).
  - destruct (enter_supported _ _ _ _ _ _ _ _ Hd Hc) as [t Ht]. destruct (pr_known _ _ P _ t Ht) as (t' & Ht' & _). by exists t'.
Qed.

(** The response can be built from a state with the support. *)
Lemma response_exists op s res : Inv fuel None s -> has_response op -> Keys (cf_Keys cfg) <> [] -> supported op s res ->
  started_by (res_slot res) (rounds (play s)) ->
  exists status body, response_of fuel cfg op s res = Some (inl (status, body)).
Proof.
  intros I Hop Hk Hs Hst. assert (Hround : forall status tid p round, counted (rounds (play s)) (tid, p, round) res ->
    exists body, roundResponse fuel status tid p round s res = Some (inl (status, body))).
  { intros status tid p round (rec & Hr & Hm). destruct (view_built s tid p round rec (po_move_index (res_play res)) (res_slot res)) as [v Hv];
      [apply I|done|done|by apply (Hst _ _ Hr)|]. unfold roundResponse. rewrite Hv. eexists. done. }
  destruct op; cbn [has_response sender] in Hop; try (by destruct Hop); cbn [response_of]; unfold supported, round_of in Hs; try (by eexists; apply Hround).
  - destruct Hs as (b & Hb & Hp). unfold session_response, ReadBinding. rewrite Hb, Hp, String.eqb_refl. cbn [negb]. unfold Sign.
    destruct (Keys (cf_Keys cfg)) as [|key ks]; [done|]. eexists _, _. reflexivity.
  - destruct Hs as [t Ht]. unfold join_response, Header. rewrite Ht. eexists _, _. reflexivity.
  - eexists _, _. reflexivity.
Qed.

(** A later state has the support, and makes the same response. *)
Lemma response_stable op s s' res : Inv fuel None s -> results_ok s -> later fuel s s' -> supported op s res -> has_response op ->
  0 < res_slot res <= applied s -> response_of fuel cfg op s' res = response_of fuel cfg op s res.
Proof.
  intros I R L Hs Hop Hsl. destruct (later_spec fuel s s' I R L) as (_ & _ & P & _). destruct (later_grow fuel s s' I R L) as [_ G].
  assert (Hround : forall status tid p round, counted (rounds (play s)) (tid, p, round) res ->
    roundResponse fuel status tid p round s' res = roundResponse fuel status tid p round s res).
  { intros status tid p round (rec & Hr & Hm). unfold roundResponse. rewrite (view_grows fuel s s'); [done| |lia|].
    - by apply (rounds_grow_since (res_slot res) (applied s)); [lia|].
    - unfold ReadRound. rewrite Hr. by intros rec' [= <-]. }
  destruct op; cbn [has_response sender] in Hop; try (by destruct Hop); cbn [response_of]; unfold supported, round_of in Hs; try (by apply Hround).
  - destruct Hs as (b & Hb & Hp). unfold session_response, ReadBinding. by rewrite Hb, (pr_bound _ _ P _ _ Hb).
  - destruct Hs as [t Ht]. destruct (pr_known _ _ P _ t Ht) as (t' & Ht' & _ & Hru & _). unfold join_response, Header. rewrite Ht, Ht'.
    cbn. by rewrite Hru.
Qed.

(** C7. An accepted command has one answer.  Once a command of the API was
    applied and accepted, its response can be built, is not an error, and is
    rebuilt with the same status and body from every later state, whatever has
    happened since; and a retry under the same key, applied anywhere later by
    any leader, gets the recorded result, whose response from then on is that
    one, marked as replayed. *)
Theorem answers_repeat s slot ballot cmd op s1 res : reachable fuel s -> command_ok fuel cmd -> applied s < slot ->
  ValidateKey (cmd_key cmd) = None -> results s !! cmd_key cmd = None -> cmd_op cmd = Some op -> has_response op ->
  Keys (cf_Keys cfg) <> [] -> Apply fuel s slot ballot cmd = Some (s1, res) -> res_code res = OK ->
  exists status body,
    (forall s2, later fuel s1 s2 -> response_of fuel cfg op s2 res = Some (inl (status, body))) /\
    (forall s2 slot' ballot' cmd', later fuel s1 s2 -> command_ok fuel cmd' -> cmd_key cmd' = cmd_key cmd ->
       Fingerprint cmd' = Fingerprint cmd -> applied s2 < slot' ->
       exists s3, Apply fuel s2 slot' ballot' cmd' = Some (s3, with_replayed res) /\
         forall s4, later fuel s3 s4 -> response_of fuel cfg op s4 (with_replayed res) = Some (inl (status, as_replayed body))).
Proof.
  intros Hr Hok Hlt Hv Hk Hop Hres Hkeys E Hc. destruct (reachable_good fuel s Hr) as [I R].
  pose proof (Apply_supported s slot ballot cmd op s1 res Hr Hok Hlt Hv Hk Hop E Hc) as Hs.
  destruct (Apply_fresh fuel s slot ballot cmd op Hr Hok Hlt Hv Hk Hop) as (s0 & s1' & res' & E' & Hr1 & _ & _ & Hslot & Hrec & _).
  rewrite E in E'. injection E' as <- <-. destruct (reachable_good fuel s1 Hr1) as [I1 R1].
  assert (Ha : applied s1 = slot) by (by apply (Apply_applied s slot ballot cmd s1 res)).
  assert (H0 : 0 <= applied s).
  { destruct (reachable_good fuel NewState (rtc_refl _ _)) as [In Rn]. exact (proj1 (later_grow fuel NewState s In Rn Hr)). }
  assert (Hsl : 0 < res_slot res <= applied s1) by lia.
  destruct (response_exists op s1 res I1 Hres Hkeys Hs) as (status & body & Hresp).
  { rewrite Hslot, <- Ha. destruct (reachable_good fuel NewState (rtc_refl _ _)) as [In Rn]. apply (later_started NewState s1 In Rn Hr1). by intros key rec Hkey. }
  assert (Hstay : forall s2, later fuel s1 s2 -> response_of fuel cfg op s2 res = Some (inl (status, body))).
  { intros s2 L. by rewrite (response_stable op s1 s2 res I1 R1 L Hs Hres Hsl). }
  exists status, body. split; [exact Hstay|]. intros s2 slot' ballot' cmd' L Hok' Hkey Hfp Hlt'.
  destruct (later_spec fuel s1 s2 I1 R1 L) as (I2 & R2 & _ & Hsub).
  assert (Hrec2 : results s2 !! cmd_key cmd' = Some (mkRecord (Fingerprint cmd) res)).
  { rewrite Hkey. eapply lookup_weaken; [|exact Hsub]. rewrite Hrec. apply lookup_insert_eq. }
  destruct (Apply_recorded fuel s2 slot' ballot' cmd' _ I2 R2 Hok' Hlt' Hrec2) as (s3 & E3 & _).
  cbn [rec_fingerprint rec_result] in E3. rewrite bool_decide_eq_true_2 in E3 by done. exists s3. split; [exact E3|].
  intros s4 L4. apply response_replayed, Hstay. etrans; [exact L|]. eapply rtc_l; [|exact L4]. by eapply st_apply.
Qed.
End Answers.

(** * The hypotheses hold *)

Section Witness.
#[local] Existing Instance ascii_unicode.

Definition demo_server : Config :=
  mkConfig 1 {[1 := "http://n1"]} vectorRing DefaultTTL (repeat 7 32) DefaultRequestTimeout DefaultMaxBody DefaultMinSlotWait NoLimits 10.

(** The move of the log, after which the round is finished, the tournament
    settled and the payout claimed. *)
Lemma answers_repeat_witness : exists s s1 res status body, reachable 1 s /\
  Apply 1 s 5 demo_ballot (demo_cmd 5 (PlayMove "t1" "p1" 3 1 0 demo_draw)) = Some (s1, res) /\
  forall s2, later 1 s1 s2 ->
    response_of 1 demo_server (PlayMove "t1" "p1" 3 1 0 demo_draw) s2 res = Some (inl (status, body)).
Proof.
  destruct (demo_run 4 (fun s _ => (applied s =? 4) && bool_decide (results s !! "k5" = None) &&
    match Apply 1 s 5 demo_ballot (demo_cmd 5 (PlayMove "t1" "p1" 3 1 0 demo_draw)) with
    | Some (_, res) => bool_decide (res_code res = OK) | None => false end)) as (s & rs & Hr & H); [vm_compute; reflexivity|].
  apply andb_true_iff in H as [H Hc]. apply andb_true_iff in H as [Ha%Z.eqb_eq Hk%bool_decide_eq_true].
  destruct (Apply 1 s 5 _ _) as [[s1 res]|] eqn:E; [|discriminate Hc]. apply bool_decide_eq_true in Hc.
  assert (Hlt : applied s < 5) by (rewrite Ha; reflexivity).
  assert (Hkeys : Keys (cf_Keys demo_server) <> []) by discriminate.
  destruct (answers_repeat 1 demo_server s 5 demo_ballot (demo_cmd 5 (PlayMove "t1" "p1" 3 1 0 demo_draw)) _ s1 res Hr I Hlt
    eq_refl Hk eq_refl (mk_is_Some _ _ eq_refl) Hkeys E Hc) as (status & body & Hst & _).
  exists s, s1, res, status, body. exact (conj Hr (conj E Hst)).
Defined.
End Witness.
