(* ===== verification/Polls.v ===== *)
(** The events route (internal/intent/reads.go): what one read answers, and the
    table of waiting requests with its shared scan.

  XX waiting requests each player has one,
    there are no more than the limit, and what a scan tells a request is what a
    state says whose applied slot it names ([polls_scanned]). *)

From S2P Require Import Prelude GoStd Json Unmarshal Paxos Ledger Game Records Codec Compute State Changes.
From S2P Require Import TournamentInv PlayInv LedgerInv Machine Reach Guarantees EventIndex.
From S2P Require Import Wire Views Server.

(** * One read *)

(** The entry the request's tournament asks for. *)
Definition missing_entry (tid : TournamentID) (pid : PlayerID) (st : State) : option Code :=
  exit_if String.eqb tid "" with None;
  let '(_, joined, exists_) := ReadEntry st tid pid in
  exit_if negb exists_ with Some UnknownTournament;
  exit_if negb joined with Some NotJoined;
  None.

(** What the handler reads: the code of a missing entry, and the response. *)
Definition read_events (cursor : Slot) (tid : TournamentID) (pid : PlayerID) (st : State) : option (option Code * EventsResponse) :=
  let resp := mkEventsResponse cursor (i64 (applied st)) false [] in
  match missing_entry tid pid st with Some code => Some (Some code, resp) | None =>
  exit_if applied st <? cursor with Some (None, resp);
  evs ← Events (play st) cursor tid pid MaxEventsPerResponse;
  match last evs with
  | None => Some (None, resp <| es_cursor := i64 (applied st) |>)
  | Some ev =>
      more ← Events (play st) (ev_slot ev) tid pid 1;
      let resp := match more with
                  | [] => resp <| es_cursor := i64 (applied st) |>
                  | _ => resp <| es_cursor := i64 (ev_slot ev) |> <| es_has_more := true |>
                  end in
      Some (None, resp <| es_events := eventItems evs |>)
  end end.

(** * The waiting requests *)

(** [superseded] is an atomic of its own; the table has the others under the
    server's lock. *)
Record poll := mkPoll {
  pl_player : PlayerID;
  pl_tournament : TournamentID;
  pl_from : Slot;
  pl_scanned : Slot;
  pl_relevant : bool;
  pl_superseded : bool;
}.
#[export] Instance poll_Fields : Fields poll := fun p =>
  mkPoll (pl_player p) (pl_tournament p) (pl_from p) (pl_scanned p) (pl_relevant p) (pl_superseded p).

(** [polls], every poll by its address, and the running scan: the polls it
    covers, and once it has read, the applied slot and what is relevant. *)
Record Polls := mkPolls {
  tb_open : gmap PlayerID nat;
  tb_polls : gmap nat poll;
  tb_scan : option (list nat * option (Slot * list bool));
}.

Definition no_polls : Polls := mkPolls ∅ ∅ None.

(** [openPoll] of the poll at address [id]. *)
Definition openPoll (limit : Z) (id : nat) (pl : poll) (s : Polls) : Polls * bool :=
  match tb_open s !! pl_player pl with
  | None =>
      exit_if limit <=? Z.of_nat (size (tb_open s)) with (s, false);
      (mkPolls (<[pl_player pl := id]> (tb_open s)) (<[id := pl]> (tb_polls s)) (tb_scan s), true)
  | Some prev =>
      let polls := alter (fun p => p <| pl_superseded := true |>) prev (tb_polls s) in
      (mkPolls (<[pl_player pl := id]> (tb_open s)) (<[id := pl]> polls) (tb_scan s), true)
  end.

Definition closePoll (id : nat) (s : Polls) : Polls :=
  match tb_polls s !! id with
  | Some pl => if bool_decide (tb_open s !! pl_player pl = Some id) then mkPolls (delete (pl_player pl) (tb_open s)) (tb_polls s) (tb_scan s) else s
  | None => s
  end.

(** What [awaitEvents] finds under the lock. *)
Inductive Glance := Answered (relevant : bool) (slot : Slot) | ScanRuns | Scans (ids : list nat).

Definition glance (id : nat) (woke : Slot) (s : Polls) : option Glance :=
  pl ← tb_polls s !! id;
  exit_if negb (bool_decide (tb_open s !! pl_player pl = Some id)) with Some (Answered true woke);
  exit_if woke <=? pl_scanned pl with Some (Answered (pl_relevant pl) (pl_scanned pl));
  match tb_scan s with
  | Some _ => Some ScanRuns
  | None => Some (Scans (map snd (map_to_list (tb_open s))))
  end.

Definition start_scan (ids : list nat) (s : Polls) : Polls := mkPolls (tb_open s) (tb_polls s) (Some (ids, None)).

(** The scan's read. *)
Definition poll_relevant (st : State) (s : Polls) (id : nat) : option bool :=
  pl ← tb_polls s !! id;
  HasEvents (play st) (pl_from pl) (pl_tournament pl) (pl_player pl).

Definition scan_read (st : State) (s : Polls) : option Polls :=
  '(ids, _) ← tb_scan s;
  relevant ← mapM (poll_relevant st s) ids;
  Some (mkPolls (tb_open s) (tb_polls s) (Some (ids, Some (applied st, relevant)))).

(** Writing the results down, when the read did not fail. *)
Definition note_poll (slot : Slot) (m : gmap nat poll) (x : nat * bool) : gmap nat poll :=
  alter (fun p => p <| pl_scanned := slot |> <| pl_relevant := x.2 |>) x.1 m.

Definition end_scan (s : Polls) : Polls :=
  match tb_scan s with
  | Some (ids, Some (slot, relevant)) => mkPolls (tb_open s) (foldl (note_poll slot) (tb_polls s) (zip ids relevant)) None
  | _ => mkPolls (tb_open s) (tb_polls s) None
  end.

(** What [awaitEvents] does after its scan: answer, or look again. *)
Definition after_scan (woke : Slot) (result : option Slot) : option (bool * Slot) :=
  match result with
  | Some slot => if slot <? woke then Some (true, woke) else None
  | None => Some (true, woke)
  end.

(** * Following the cursors *)

Section Cursors.
Context `{U : Unicode} (fuel : nat).

(** What is after a cursor at or above [after]. *)
Lemma visible_from p after c t pl : after <= c ->
  visible_events p c t pl = List.filter (fun ev => c <? ev_slot ev) (visible_events p after t pl).
Proof.
  intros Hc. unfold visible_events. destruct (players p !! pl) as [ps|]; [|done]. induction (events p) as [|ev l IH]; [done|].
  cbn [List.filter]. destruct (Z.ltb_spec after (ev_slot ev)) as [Ha|Ha].
  - destruct (about t ev && sees pl (pst_entered ps) ev) eqn:Eb; rewrite <- !andb_assoc, Eb; cbn [andb].
    + rewrite andb_true_r. cbn [List.filter]. rewrite IH. done.
    + rewrite andb_false_r. exact IH.
  - rewrite (proj2 (Z.ltb_ge c _)) by lia. cbn [andb]. exact IH.
Qed.

Lemma filter_all {A} (f : A -> bool) l : Forall (fun x => f x = true) l -> List.filter f l = l.
Proof. induction 1 as [|x l Hx _ IH]; [done|]. simpl. by rewrite Hx, IH. Qed.
Lemma filter_none {A} (f : A -> bool) l : Forall (fun x => f x = false) l -> List.filter f l = [].
Proof. induction 1 as [|x l Hx _ IH]; [done|]. simpl. by rewrite Hx. Qed.

Lemma visible_rising now p after t pl : index_ok now p -> rising ev_slot (visible_events p after t pl).
Proof.
  intros I. unfold visible_events. destruct (players p !! pl) as [ps|]; [|constructor]. apply rising_filter.
  pose proof (ix_slots _ _ I) as S. revert S. generalize (events p) as l. induction l as [|ev l IH]; intros S; constructor.
  - apply IH. intros i j ei ej Hij Hi Hj. by apply (S (Datatypes.S i) (Datatypes.S j) ei ej); [lia|..].
  - apply Forall_lookup. intros j ej Hj. by apply (S 0%nat (Datatypes.S j) ev ej); [lia|..].
Qed.

Lemma visible_bounds now p after t pl : index_ok now p -> Forall (fun ev => after < ev_slot ev <= now) (visible_events p after t pl).
Proof.
  intros I. unfold visible_events. destruct (players p !! pl) as [ps|]; [|constructor]. apply Forall_forall.
  intros ev [Hin Hev]%filter_elem. rewrite !andb_true_iff, Z.ltb_lt in Hev. split; [tauto|]. by apply (ix_now _ _ I).
Qed.

(** A page, and what comes after its last slot. *)
Lemma page_rest now p after t pl max ev : index_ok now p ->
  last (whole ev_slot max 0 0 (visible_events p after t pl)) = Some ev ->
  after < ev_slot ev <= now /\
  visible_events p after t pl = whole ev_slot max 0 0 (visible_events p after t pl) ++ visible_events p (ev_slot ev) t pl.
Proof.
  intros I Hl. set (v := visible_events p after t pl) in *. pose proof (visible_rising now p after t pl I) as Hr. fold v in Hr.
  pose proof (visible_bounds now p after t pl I) as Hb. fold v in Hb. set (page := whole ev_slot max 0 0 v) in *.
  assert (Hev : ev ∈ page) by (apply last_Some in Hl as [l ->]; apply elem_of_app; right; by left).
  assert (Hin : ev ∈ v) by (eapply elem_of_prefix; [exact Hev|apply whole_prefix]).
  assert (Hb' : after < ev_slot ev <= now) by (rewrite Forall_forall in Hb; by apply Hb). split; [done|].
  assert (Hla : Forall (fun x => after <= ev_slot x) v) by (eapply Forall_impl; [exact Hb|]; simpl; lia).
  destruct (whole_rest ev_slot max 0 after v Hr Hla) as (rest & E & Hrest). rewrite (whole_start ev_slot max after 0) in E, Hrest. fold page in E, Hrest.
  rewrite (visible_from p after (ev_slot ev) t pl) by lia. fold v. rewrite E at 1. f_equal. rewrite E at 1. rewrite List.filter_app.
  assert (H1 : List.filter (fun x => ev_slot ev <? ev_slot x) page = []).
  { apply filter_none. apply last_Some in Hl as [l El]. rewrite E, El in Hr. clear -Hr El. rewrite El. apply Forall_app. split; [|constructor; [apply Z.ltb_irrefl|constructor]].
    rewrite <- app_assoc in Hr. clear El. induction l as [|x l IH]; [constructor|]. inversion Hr as [|? ? Hr' Hx]; subst. constructor; [|by apply IH].
    apply Z.ltb_ge. rewrite Forall_forall in Hx. apply Hx. apply elem_of_app. right. by left. }
  assert (H2 : List.filter (fun x => ev_slot ev <? ev_slot x) rest = rest).
  { destruct rest as [|y rest]; [done|]. apply filter_all. destruct (Hrest ltac:(done)) as [_ Hf]. eapply Forall_impl; [exact Hf|].
    simpl. intros z [_ Hz]. apply Z.ltb_lt. rewrite Forall_forall in Hz. by apply Hz. }
  by rewrite H1, H2.
Qed.

(** What is up to a slot comes first. *)
Lemma rising_split c (l : list EventRecord) : rising ev_slot l ->
  l = List.filter (fun ev => ev_slot ev <=? c) l ++ List.filter (fun ev => c <? ev_slot ev) l.
Proof.
  induction 1 as [|ev l _ IH Hl]; [done|]. cbn [List.filter]. destruct (Z.leb_spec (ev_slot ev) c) as [Hc|Hc].
  - rewrite (proj2 (Z.ltb_ge _ _)) by lia. cbn. by f_equal.
  - rewrite (proj2 (Z.ltb_lt _ _)) by lia. rewrite filter_none, filter_all; [done|..];
      (eapply Forall_impl; [exact Hl|]); simpl; lia.
Qed.

(** Of what a later state shows up to a slot that was applied, the player could
    see before just what the earlier state showed. *)
Lemma visible_before p p' n c after t pl ps ps' : grown n (events p) (events p') -> c <= n ->
  players p !! pl = Some ps -> players p' !! pl = Some ps' -> pst_entered ps `prefix_of` pst_entered ps' ->
  List.filter (sees pl (pst_entered ps)) (List.filter (fun ev => ev_slot ev <=? c) (visible_events p' after t pl)) =
  List.filter (fun ev => ev_slot ev <=? c) (visible_events p after t pl).
Proof.
  intros (more & E & Hm) Hc Hp Hp' He. unfold visible_events. rewrite Hp, Hp', E, !List.filter_app.
  assert (Hnone : List.filter (fun ev => ev_slot ev <=? c)
      (List.filter (fun ev => (after <? ev_slot ev) && about t ev && sees pl (pst_entered ps') ev) more) = []).
  { apply filter_none, Forall_forall. intros ev [Hev _]%filter_elem. rewrite Forall_forall in Hm. specialize (Hm ev Hev). simpl in Hm. lia. }
  rewrite Hnone. cbn [List.filter]. rewrite app_nil_r. clear Hnone E.
  assert (Hs : forall ev, sees pl (pst_entered ps) ev = true -> sees pl (pst_entered ps') ev = true).
  { intros ev. unfold sees. rewrite !orb_true_iff, !andb_true_iff, !bool_decide_eq_true. intros [H|[H1 H2]]; [by left|right].
    split; [done|]. destruct He as [l ->]. apply elem_of_app. by left. }
  induction (events p) as [|ev l IH]; [done|]. cbn [List.filter].
  destruct ((after <? ev_slot ev) && about t ev) eqn:Ea; cbn [andb]; [|exact IH].
  destruct (sees pl (pst_entered ps) ev) eqn:Eo.
  - rewrite (Hs ev Eo). cbn [List.filter]. destruct (ev_slot ev <=? c); [|exact IH]. cbn [List.filter]. rewrite Eo. by f_equal.
  - destruct (sees pl (pst_entered ps') ev); [|exact IH]. cbn [List.filter]. destruct (ev_slot ev <=? c); [|exact IH].
    cbn [List.filter]. rewrite Eo. exact IH.
Qed.

Lemma filter_or {A} (f g : A -> bool) l : List.filter (fun x => f x || g x) (List.filter (fun x => negb (g x)) l) =
  List.filter f (List.filter (fun x => negb (g x)) l) /\ List.filter (fun x => f x || g x) (List.filter g l) = List.filter g l.
Proof.
  induction l as [|x l [IH1 IH2]]; [done|]. cbn [List.filter]. destruct (g x) eqn:E; cbn [negb List.filter]; rewrite ?E, ?orb_true_r, ?orb_false_r, ?IH1, ?IH2; [done|].
  by destruct (f x).
Qed.

(** A later state split at a cursor behind which the page ends. *)
Lemma cursor_step s s' cursor c tid pid page ps ps' : reachable fuel s -> later fuel s s' -> cursor <= c <= applied s ->
  visible_events (play s) cursor tid pid = page ++ visible_events (play s) c tid pid ->
  players (play s) !! pid = Some ps -> players (play s') !! pid = Some ps' ->
  List.filter (fun ev => sees pid (pst_entered ps) ev || (c <? ev_slot ev)) (visible_events (play s') cursor tid pid) =
    page ++ visible_events (play s') c tid pid /\
  (pst_entered ps' = pst_entered ps -> visible_events (play s') cursor tid pid = page ++ visible_events (play s') c tid pid).
Proof.
  intros Hr L Hcc Hv Hp Hp'. destruct (reachable_good fuel s Hr) as [Iv R].
  assert (Hr' : reachable fuel s') by (unfold reachable in *; by etrans).
  destruct (later_spec fuel s s' Iv R L) as (_ & _ & P & _). destruct (pr_seq _ _ P pid ps Hp) as (x & Hx & _ & _ & He).
  assert (x = ps') as -> by congruence.
  set (V := visible_events (play s) cursor tid pid) in *. set (V' := visible_events (play s') cursor tid pid).
  pose proof (rising_split c V (visible_rising _ _ cursor tid pid (reachable_index fuel s Hr))) as S.
  pose proof (rising_split c V' (visible_rising _ _ cursor tid pid (reachable_index fuel s' Hr'))) as S'.
  assert (Hpage : List.filter (fun ev => ev_slot ev <=? c) V = page).
  { rewrite Hv in S at 1. pose proof (visible_from (play s) cursor c tid pid ltac:(lia)) as F. fold V in F. rewrite <- F in S.
    by apply app_inv_tail in S. }
  pose proof (visible_before (play s) (play s') (applied s) c cursor tid pid ps ps' (later_events fuel s s' Iv R L) ltac:(lia) Hp Hp' He) as B.
  fold V V' in B. rewrite Hpage in B.
  assert (Hneg : forall l : list EventRecord, List.filter (fun ev => ev_slot ev <=? c) l = List.filter (fun ev => negb (c <? ev_slot ev)) l).
  { intros l. apply List.filter_ext. intros ev. lia. }
  assert (Hmain : List.filter (fun ev => sees pid (pst_entered ps) ev || (c <? ev_slot ev)) V' = page ++ visible_events (play s') c tid pid).
  { destruct (filter_or (sees pid (pst_entered ps)) (fun ev => c <? ev_slot ev) V') as [F1 F2].
    pose proof (visible_from (play s') cursor c tid pid ltac:(lia)) as F. fold V' in F. rewrite F.
    rewrite S' at 1. by rewrite List.filter_app, F2, Hneg, F1, <- Hneg, B. }
  split; [exact Hmain|]. intros E. rewrite <- Hmain. symmetry. apply filter_all, Forall_forall. intros ev Hev. unfold V', visible_events in Hev.
  rewrite Hp', E in Hev. apply filter_elem in Hev as [_ Hev]. rewrite !andb_true_iff in Hev. destruct Hev as [_ ->]. done.
Qed.

(** C19. Following the cursors.  Of the events the player can see after a cursor
    that is not above the applied slot, a read takes a page, the first ones up
    to the limit and the end of a slot, and answers those of the page that are
    not the change of a leaderboard which changed again within the page, with a
    new cursor.  Whatever is applied later, the events after the old cursor are
    those of the page followed by those after the new one, but for the events at
    or below the new cursor that the player could not see when it read: those
    everybody sees of tournaments it entered since, which no read from the new
    cursor on returns.  A player who enters nothing in between misses nothing.
    The answer says there is more exactly when more could be read at once, and
    a page without events has its cursor at the applied slot. *)
Theorem event_pages_chain s cursor tid pid resp : reachable fuel s -> 0 <= cursor <= applied s -> applied s < 2 ^ 63 ->
  read_events cursor tid pid s = Some (None, resp) ->
  let page := whole ev_slot MaxEventsPerResponse 0 0 (visible_events (play s) cursor tid pid) in
  es_events resp = map eventItem (latest page) /\ cursor <= es_cursor resp <= applied s /\
  (page = [] -> es_cursor resp = applied s) /\
  (es_has_more resp = true <-> visible_events (play s) (es_cursor resp) tid pid <> []) /\
  forall s' ps ps', later fuel s s' -> players (play s) !! pid = Some ps -> players (play s') !! pid = Some ps' ->
    List.filter (fun ev => sees pid (pst_entered ps) ev || (es_cursor resp <? ev_slot ev)) (visible_events (play s') cursor tid pid) =
      page ++ visible_events (play s') (es_cursor resp) tid pid /\
    (pst_entered ps' = pst_entered ps ->
       visible_events (play s') cursor tid pid = page ++ visible_events (play s') (es_cursor resp) tid pid).
Proof.
  intros Hr Hc Hmax. pose proof (reachable_index fuel s Hr) as I. pose proof (known_player fuel s pid) as Hknown.
  assert (HE : forall after max, Events (play s) after tid pid max = Some (whole ev_slot max 0 0 (visible_events (play s) after tid pid))).
  { intros after max. destruct (players (play s) !! pid) as [ps|] eqn:Ep; [exact (Events_spec _ _ I pid ps Ep (Hknown ps Hr eq_refl) after tid max)|].
    unfold Events, visible_events. by rewrite Ep. }
  unfold read_events. destruct (missing_entry tid pid s); [done|]. rewrite (proj2 (Z.ltb_ge _ _)) by lia. rewrite HE. cbn [mbind option_bind].
  set (page := whole ev_slot MaxEventsPerResponse 0 0 (visible_events (play s) cursor tid pid)). cbv zeta.
  assert (Hnow : visible_events (play s) (applied s) tid pid = []).
  { pose proof (visible_bounds _ _ (applied s) tid pid I) as Hb. destruct (visible_events _ (applied s) tid pid) as [|ev l]; [done|].
    apply Forall_cons in Hb as [Hb _]. lia. }
  assert (Hsplit : forall c, cursor <= c <= applied s -> visible_events (play s) cursor tid pid = page ++ visible_events (play s) c tid pid ->
    forall s' ps ps', later fuel s s' -> players (play s) !! pid = Some ps -> players (play s') !! pid = Some ps' ->
      List.filter (fun ev => sees pid (pst_entered ps) ev || (c <? ev_slot ev)) (visible_events (play s') cursor tid pid) =
        page ++ visible_events (play s') c tid pid /\
      (pst_entered ps' = pst_entered ps -> visible_events (play s') cursor tid pid = page ++ visible_events (play s') c tid pid)).
  { intros c Hcc Hv s' ps ps' L Hp Hp'. eapply cursor_step; [exact Hr|exact L|exact Hcc|exact Hv|exact Hp|exact Hp']. }
  assert (Hcur : forall c, 0 <= c <= applied s -> i64 c = c) by (intros c Hcc; apply i64_id; unfold in_i64; lia).
  destruct (last page) as [ev|] eqn:Elast.
  - destruct (page_rest (applied s) (play s) cursor tid pid MaxEventsPerResponse ev I Elast) as [Hev Hrest]. fold page in Hrest.
    rewrite HE. cbn [mbind option_bind]. assert (Hone : whole ev_slot 1 0 0 (visible_events (play s) (ev_slot ev) tid pid) = [] <->
      visible_events (play s) (ev_slot ev) tid pid = []) by (by destruct (visible_events (play s) (ev_slot ev) tid pid)).
    destruct (whole ev_slot 1 0 0 _) as [|more mores]; intros [= <-]; cbn [es_events es_cursor es_has_more]; rewrite event_items_kept; cbn.
    + rewrite Hcur by lia. rewrite Hnow. split_and!; try done; try lia. apply Hsplit; [lia|]. rewrite Hnow, Hrest. f_equal. by apply Hone.
    + rewrite Hcur by lia. split_and!; try done; try lia.
      * intros E. by rewrite E in Elast.
      * split; [|done]. intros _ E. by apply Hone in E.
      * by apply Hsplit; [lia|].
  - apply last_None in Elast. intros [= <-]. cbn. rewrite Hcur by lia. rewrite Hnow, Elast. split_and!; try done; try lia.
    assert (Hv : visible_events (play s) cursor tid pid = []) by (unfold page in Elast; by destruct (visible_events (play s) cursor tid pid)).
    rewrite <- Elast. apply Hsplit; [lia|]. by rewrite Elast, Hnow, Hv.
Qed.
End Cursors.

(** * The table of waiting requests *)

Section Table.
Context `{U : Unicode} (fuel : nat) (limit : Z).

(** Requests come and go, slots are applied, and scans start, read and end. *)
Inductive turn : Polls * State -> Polls * State -> Prop :=
| tu_apply s st st' : slot_step fuel st st' -> turn (s, st) (s, st')
| tu_open s st id pl : tb_polls s !! id = None -> pl_scanned pl = 0 -> pl_superseded pl = false -> turn (s, st) ((openPoll limit id pl s).1, st)
| tu_close s st id : turn (s, st) (closePoll id s, st)
| tu_scan s st id woke ids : glance id woke s = Some (Scans ids) -> turn (s, st) (start_scan ids s, st)
| tu_read s st ids s' : tb_scan s = Some (ids, None) -> scan_read st s = Some s' -> turn (s, st) (s', st)
| tu_end s st : turn (s, st) (end_scan s, st).

(** What a scan said of a poll was so in the state of that applied slot. *)
Definition verdict (st : State) (pl : poll) (slot : Slot) (relevant : bool) : Prop :=
  exists st0, reachable fuel st0 /\ later fuel st0 st /\ applied st0 = slot /\
    HasEvents (play st0) (pl_from pl) (pl_tournament pl) (pl_player pl) = Some relevant.

Definition same_request (p q : poll) : Prop := pl_player q = pl_player p /\ pl_tournament q = pl_tournament p /\ pl_from q = pl_from p.

Record table_ok (s : Polls) (st : State) : Prop := {
  to_reachable : reachable fuel st;
  to_open : forall player id, tb_open s !! player = Some id ->
    exists pl, tb_polls s !! id = Some pl /\ pl_player pl = player /\ pl_superseded pl = false;
  to_limit : Z.of_nat (size (tb_open s)) <= Z.max 0 limit;
  to_verdict : forall id pl, tb_polls s !! id = Some pl -> pl_scanned pl = 0 \/ verdict st pl (pl_scanned pl) (pl_relevant pl);
  to_scan : forall ids slot relevant, tb_scan s = Some (ids, Some (slot, relevant)) ->
    Forall2 (fun id r => exists pl, tb_polls s !! id = Some pl /\ verdict st pl slot r) ids relevant;
}.

Lemma verdict_later st st' pl slot r : later fuel st st' -> verdict st pl slot r -> verdict st' pl slot r.
Proof. intros L (st0 & H1 & H2 & H3). exists st0. split_and!; [done|by etrans|tauto..]. Qed.

Lemma verdict_same st p q slot r : same_request p q -> verdict st p slot r -> verdict st q slot r.
Proof. intros (E1 & E2 & E3) (st0 & H). exists st0. by rewrite E1, E2, E3. Qed.

(** Replacing polls by others of the same requests. *)
Lemma table_same s st (m : gmap nat poll) : table_ok s st ->
  (forall id p, tb_polls s !! id = Some p -> exists q, m !! id = Some q /\ same_request p q) ->
  forall ids slot relevant, tb_scan s = Some (ids, Some (slot, relevant)) ->
    Forall2 (fun id r => exists pl, m !! id = Some pl /\ verdict st pl slot r) ids relevant.
Proof.
  intros T H ids slot relevant Es. eapply Forall2_impl; [exact (to_scan _ _ T _ _ _ Es)|]. simpl. intros id r (p & Hp & Hv).
  destruct (H id p Hp) as (q & Hq & Hs). exists q. split; [done|by eapply verdict_same].
Qed.

Lemma note_polls_lookup slot m l id : exists f, foldl (note_poll slot) m l !! id = f <$> m !! id /\
  forall p, same_request p (f p) /\ pl_superseded (f p) = pl_superseded p /\
    ((pl_scanned (f p) = pl_scanned p /\ pl_relevant (f p) = pl_relevant p) \/
     (pl_scanned (f p) = slot /\ (id, pl_relevant (f p)) ∈ l)).
Proof.
  revert m. induction l as [|[i r] l IH]; intros m; cbn [foldl].
  - exists (fun p => p). split; [by destruct (m !! id)|]. intros p. by split_and!; [..|left].
  - destruct (IH (note_poll slot m (i, r))) as (f & E & H).
    change (note_poll slot m (i, r)) with (alter (fun p => p <| pl_scanned := slot |> <| pl_relevant := r |>) i m) in *.
    destruct (decide (i = id)) as [-> |Hne].
    + exists (fun p => f (p <| pl_scanned := slot |> <| pl_relevant := r |>)). split.
      * rewrite E, lookup_alter_eq. by destruct (m !! id).
      * intros p. destruct (H (p <| pl_scanned := slot |> <| pl_relevant := r |>)) as (H1 & H2 & [[H3 H4]|[H3 H4]]); split_and!; try done.
        -- right. split; [done|]. rewrite H4. by left.
        -- right. split; [done|]. by right.
    + exists f. rewrite E, lookup_alter_ne by done. split; [done|]. intros p. destruct (H p) as (H1 & H2 & [H3|[H3 H4]]); split_and!; try done; [by left|].
      right. split; [done|]. by right.
Qed.

Lemma open_table s st id pl : table_ok s st -> tb_polls s !! id = None -> pl_scanned pl = 0 -> pl_superseded pl = false ->
  table_ok (openPoll limit id pl s).1 st.
Proof.
  intros T Hnew Hsc Hsu. pose proof T as [T1 T2 T3 T4 T5]. unfold openPoll. destruct (tb_open s !! pl_player pl) as [prev|] eqn:Ep.
  - set (m := alter (fun p => p <| pl_superseded := true |>) prev (tb_polls s)).
    assert (Hm : forall i, i <> prev -> m !! i = tb_polls s !! i) by (intros i Hi; by apply lookup_alter_ne).
    assert (Hsame : forall i p, m !! i = Some p -> exists q, tb_polls s !! i = Some q /\ same_request q p /\ pl_scanned p = pl_scanned q /\ pl_relevant p = pl_relevant q).
    { intros i p. unfold m. rewrite lookup_alter. case_decide as Ei; [rewrite <- Ei|intros Hp; by exists p]. intros (q & Hq & ->)%fmap_Some. exists q. split; [done|]. by split_and!. }
    split; cbn [fst tb_open tb_polls tb_scan]; try done.
    + intros player i. rewrite lookup_insert. case_decide as Epl; [intros [= <-]; exists pl; by rewrite lookup_insert_eq|].
      intros Hi. destruct (T2 player i Hi) as (q & Hq & Hqp & Hqs). exists q. rewrite lookup_insert_ne by congruence. rewrite Hm; [done|].
      intros ->. destruct (T2 _ _ Ep) as (q' & Hq' & Hqp' & _). congruence.
    + rewrite map_size_insert_Some by done. done.
    + intros i p. rewrite lookup_insert. case_decide; [intros [= <-]; by left|]. intros Hp. destruct (Hsame i p Hp) as (q & Hq & Hs & -> & ->).
      destruct (T4 i q Hq) as [E|E]; [by left|right]. by eapply verdict_same.
    + apply (table_same s st (<[id:=pl]> m) T). intros i p Hp. rewrite lookup_insert_ne by congruence. unfold m. rewrite lookup_alter.
      case_decide as Ei; [rewrite Ei|]; rewrite Hp; eexists; (split; [done|]); by split_and!.
  - case_goal; [exact T|]. assert (Hlt : Z.of_nat (size (tb_open s)) < limit) by (by apply Z.leb_gt). split; cbn [fst tb_open tb_polls tb_scan]; try done.
    + intros player i. rewrite lookup_insert. case_decide; [intros [= <-]; exists pl; by rewrite lookup_insert_eq|]. intros Hi.
      destruct (T2 player i Hi) as (q & Hq & Hqp). exists q. rewrite lookup_insert_ne by congruence. done.
    + rewrite map_size_insert_None by done. lia.
    + intros i p. rewrite lookup_insert. case_decide; [intros [= <-]; by left|apply T4].
    + apply (table_same s st _ T). intros i p Hp. rewrite lookup_insert_ne by congruence. exists p. by split.
Qed.

Lemma end_table s st : table_ok s st -> table_ok (end_scan s) st.
Proof.
  intros T. pose proof T as [T1 T2 T3 T4 T5]. unfold end_scan. destruct (tb_scan s) as [[ids [[slot relevant]|]]|] eqn:Es; try (by split).
  assert (Hn : forall id, exists f, foldl (note_poll slot) (tb_polls s) (zip ids relevant) !! id = f <$> tb_polls s !! id /\ _) by (intros id; apply note_polls_lookup).
  split; cbn [tb_open tb_polls tb_scan]; try done.
  - intros player id Hi. destruct (T2 player id Hi) as (p & Hp & Hpp & Hps). destruct (Hn id) as (f & -> & H). rewrite Hp. destruct (H p) as ((E1 & _) & E2 & _).
    exists (f p). cbn. split_and!; congruence.
  - intros id q. destruct (Hn id) as (f & -> & H). intros (p & Hp & ->)%fmap_Some. destruct (H p) as (Hs & _ & [[-> ->]|[-> Hin]]).
    + destruct (T4 id p Hp) as [E|E]; [by left|right; by eapply verdict_same].
    + right. apply elem_of_lookup_zip_with in Hin as (i & x & r & [= <- E] & Hx & Hr).
      destruct (Forall2_lookup_lr _ _ _ i _ _ (T5 _ _ _ eq_refl) Hx Hr) as (p' & Hp' & Hv). rewrite E. simplify_eq. by eapply verdict_same.
Qed.

Lemma turn_table w w' : turn w w' -> table_ok w.1 w.2 -> table_ok w'.1 w'.2.
Proof.
  intros C T. destruct C as [s st st' C|s st id pl H1 H2 H3|s st id|s st id woke ids H|s st ids s' Es H|s st]; cbn [fst snd] in *.
  - destruct T as [T1 T2 T3 T4 T5]. assert (L : later fuel st st') by by apply rtc_once. split; try done; [eapply rtc_r; [exact T1|exact C]| |].
    + intros id pl Hp. destruct (T4 id pl Hp) as [E|E]; [by left|right; by eapply verdict_later].
    + intros ids slot relevant E. eapply Forall2_impl; [by apply T5|]. simpl. intros id r (pl & Hp & Hv). exists pl. split; [done|by eapply verdict_later].
  - by apply open_table.
  - unfold closePoll. destruct (tb_polls s !! id) as [pl|] eqn:Ep; [|exact T]. case_bool_decide as Eo; [|exact T]. destruct T as [T1 T2 T3 T4 T5]. split; cbn; try done.
    + intros player i [_ Hi]%lookup_delete_Some. by apply T2.
    + rewrite map_size_delete_Some by done. lia.
  - destruct T as [T1 T2 T3 T4 T5]. by split.
  - destruct T as [T1 T2 T3 T4 T5]. unfold scan_read in H. rewrite Es in H. cbn [mbind option_bind] in H. apply bind_Some in H as (relevant & Hm & [= <-]). split; cbn; try done.
    intros ids' slot relevant' [= <- <- <-]. apply mapM_Some in Hm. eapply Forall2_impl; [exact Hm|]. simpl. intros id r Hr.
    unfold poll_relevant in Hr. apply bind_Some in Hr as (pl & Hp & Hr). exists pl. split; [done|]. by exists st.
  - by apply end_table.
Qed.

(** C34. A waiting request is not told less than there is.  However requests
    open, replace each other, close, wake and scan: a replica holds at most the
    limit of them, at most one of a player, and none it holds was superseded;
    and when a scan sends a request woken at slot [woke] back to wait for a slot
    above [slot], then [slot] is not below [woke] and the state at [slot] had
    nothing for the request to read. *)
Theorem polls_scanned s st : rtc turn (no_polls, NewState) (s, st) ->
  Z.of_nat (size (tb_open s)) <= Z.max 0 limit /\
  (forall player id, tb_open s !! player = Some id -> exists pl, tb_polls s !! id = Some pl /\ pl_player pl = player /\ pl_superseded pl = false) /\
  forall id woke slot, 0 < woke -> glance id woke s = Some (Answered false slot) ->
    woke <= slot /\ exists pl st0, tb_polls s !! id = Some pl /\ reachable fuel st0 /\ later fuel st0 st /\ applied st0 = slot /\
      visible_events (play st0) (pl_from pl) (pl_tournament pl) (pl_player pl) = [].
Proof.
  intros H. assert (T : table_ok s st).
  { change (table_ok (s, st).1 (s, st).2). assert (T0 : table_ok no_polls NewState).
    { split; [apply rtc_refl|done| |done..]. change (Z.of_nat (size (tb_open no_polls))) with 0. lia. }
    change (table_ok (no_polls, NewState).1 (no_polls, NewState).2) in T0. revert T0. induction H as [|w1 w2 w3 C _ IH]; [done|].
    intros T0. by eapply IH, turn_table. }
  split_and!; [apply (to_limit _ _ T)|apply (to_open _ _ T)|]. intros id woke slot Hw Hg. unfold glance in Hg.
  apply bind_Some in Hg as (pl & Hp & Hg). case_hyp Hg; [done|]. destruct (Z.leb_spec woke (pl_scanned pl)); [|by destruct (tb_scan s)].
  injection Hg as Hrel <-. split; [done|]. destruct (to_verdict _ _ T id pl Hp) as [E0|(st0 & H1 & H2 & H3 & H4)]; [lia|].
  exists pl, st0. split_and!; try done. rewrite Hrel in H4. pose proof (reachable_index fuel st0 H1) as I.
  destruct (players (play st0) !! pl_player pl) as [ps|] eqn:Ep; [|unfold visible_events; by rewrite Ep].
  rewrite (HasEvents_spec _ _ I _ ps Ep (known_player fuel st0 _ ps H1 Ep)) in H4. by destruct (visible_events _ _ _ _).
Qed.
End Table.

(** * The hypotheses hold *)

Section Witnesses.
#[local] Existing Instance ascii_unicode.

(** The player of the log reads its feed from the start. *)
Lemma event_pages_chain_witness : exists s resp, reachable 1 s /\ read_events 0 "" "p1" s = Some (None, resp) /\
  es_events resp <> [] /\ es_events resp = map eventItem (latest (whole ev_slot MaxEventsPerResponse 0 0 (visible_events (play s) 0 "" "p1"))).
Proof.
  destruct (demo_run 9 (fun s _ => (applied s =? 9) && match read_events 0 "" "p1" s with
    | Some (None, resp) => negb (match es_events resp with [] => true | _ => false end) | _ => false end)) as (s & rs & Hr & H); [vm_compute; reflexivity|].
  apply andb_true_iff in H as [Ha%Z.eqb_eq H]. destruct (read_events 0 "" "p1" s) as [[[code|] resp]|] eqn:E; [discriminate H| |discriminate H].
  assert (Hc : 0 <= 0 <= applied s) by (rewrite Ha; split; discriminate). assert (Hmax : applied s < 2 ^ 63) by (rewrite Ha; reflexivity).
  destruct (event_pages_chain 1 s 0 "" "p1" resp Hr Hc Hmax E) as (He & _). exists s, resp. split; [exact Hr|]. split; [exact E|]. split; [|exact He].
  intros E0. rewrite E0 in H. discriminate H.
Defined.

(** A request of a player nobody knows, woken by the first slot. *)
Definition demo_poll : poll := mkPoll "p1" "" 0 0 false false.
Definition demo_state : State := Skip NewState 1.
Definition demo_open : Polls := (openPoll 10 0 demo_poll no_polls).1.
Definition demo_scanned : Polls := end_scan (mkPolls (tb_open demo_open) (tb_polls demo_open) (Some ([0%nat], Some (1, [false])))).

Lemma demo_turns : rtc (turn 1 10) (no_polls, NewState) (demo_scanned, demo_state).
Proof.
  refine (rtc_l _ _ (no_polls, demo_state) _ _ _); [apply tu_apply; apply st_skip|].
  refine (rtc_l _ _ (demo_open, demo_state) _ _ _); [exact (tu_open 1 10 no_polls demo_state 0 demo_poll eq_refl eq_refl eq_refl)|].
  refine (rtc_l _ _ (start_scan [0%nat] demo_open, demo_state) _ _ _); [exact (tu_scan 1 10 demo_open demo_state 0 1 [0%nat] eq_refl)|].
  refine (rtc_l _ _ (_, demo_state) _ _ _); [exact (tu_read 1 10 (start_scan [0%nat] demo_open) demo_state [0%nat] _ eq_refl eq_refl)|].
  apply rtc_once. apply tu_end.
Qed.

Lemma polls_scanned_witness : glance 0 1 demo_scanned = Some (Answered false 1) /\ exists st0, reachable 1 st0 /\ applied st0 = 1.
Proof.
  assert (Hg : glance 0 1 demo_scanned = Some (Answered false 1)) by reflexivity. split; [exact Hg|].
  destruct (polls_scanned 1 10 demo_scanned demo_state demo_turns) as (_ & _ & H).
  destruct (H 0%nat 1 1 (Z.lt_0_1) Hg) as (_ & pl & st0 & _ & Hr & _ & Ha & _). exists st0. exact (conj Hr Ha).
Defined.
End Witnesses.
