(* ===== verification/Api.v ===== *)
(** The operators' API of one replica (internal/api/server.go): the commands of
    an operator with their idempotency keys, the forwarding of a request to the
    leader, the consistent and the stale reads, and the problem documents.

    A handler is a program (Programs.v) over the calls [Eff]: the clock, the
    seeds, the keys in flight, the replica, and the client that forwards.  A
    call that can fail returns its failure as a value, so a handler's program
    covers every answer of the replica and of the network. *)

From S2P Require Import Prelude Programs GoStd Json Unmarshal Paxos Ledger Game Records Codec Commands State Replog Replica.

(** * Configuration *)

Definition HeaderIdempotencyKey : string := "Idempotency-Key".
Definition HeaderForwarded : string := "X-Arena-Forwarded".
Definition HeaderAppliedSlot : string := "X-Arena-Applied-Slot".
Definition HeaderNode : string := "X-Arena-Node".

Definition DefaultMaxBody : Z := Z.shiftl 64 10.
Definition api_second : Z := 10 ^ 9.

(** [Seed], [Now] and [Client] are calls below. *)
Record Config := mkConfig { Self : NodeID; Peers : gmap NodeID string; RequestTimeout : Z; MaxBody : Z }.

Definition withDefaults (c : Config) : Config :=
  mkConfig (Self c) (Peers c)
    (if RequestTimeout c =? 0 then 5 * api_second else RequestTimeout c)
    (if MaxBody c =? 0 then DefaultMaxBody else MaxBody c).

(** The little-endian number of the 8 bytes drawn. *)
Definition randomSeed (b : bytes) : Z := foldr (fun c acc => c + 256 * acc) 0 b.

(** * Requests *)

(** The headers hold the first value of each name, in canonical form.  The
    method and the target choose the route, the path value and the query, so a
    request with the same target has the same ones.  Reading the body returns
    what arrives, and an error when the connection fails before its end. *)
Record Request := mkRequest {
  rq_method : string;
  rq_uri : string;
  rq_id : string;
  rq_read : string;
  rq_headers : gmap string string;
  rq_body : bytes;
  rq_broken : option error;
}.

Definition header (r : Request) (name : string) : string := default "" (rq_headers r !! name).

(** * Responses *)

Record Problem := mkProblem {
  pb_status : Z;
  pb_detail : string;
  pb_code : string;
  pb_replayed : bool;
  pb_leader : NodeID;
}.

Definition CodeMissingKey : string := "missing_idempotency_key".
Definition CodeInvalidKey : string := "invalid_idempotency_key".
Definition CodeMalformedBody : string := "malformed_body".
Definition CodeBodyTooLarge : string := "body_too_large".
Definition CodeInFlight : string := "in_flight".
Definition CodeNotLeader : string := "not_leader".
Definition CodeNotReady : string := "not_ready".
Definition CodeForwardFailed : string := "forward_failed".
Definition CodeOutcomeUnknown : string := "outcome_unknown".
Definition CodeUnavailable : string := "unavailable".
Definition CodeNotFound : string := "not_found".

Record CommandResponse := mkCommandResponse {
  cr_code : Code; cr_replayed : bool; cr_slot : Slot; cr_seed : Z; cr_tournament : option Tournament;
}.
Record TournamentResponse := mkTournamentResponse { tr_tournament : Tournament; tr_applied_slot : Slot; tr_consistent : bool }.
Record LedgerResponse := mkLedgerResponse {
  lr_tournament : TournamentID; lr_postings : list Posting; lr_applied_slot : Slot; lr_consistent : bool;
}.

(** The bodies; [BCut] is the beginning of a relayed body whose copy failed. *)
Inductive Body :=
| BProblem (p : Problem)
| BCommand (c : CommandResponse)
| BTournament (t : TournamentResponse)
| BLedger (l : LedgerResponse)
| BNode (st : Status) (peers : gmap NodeID string)
| BText (s : string)
| BCut (b : Body).

Record Response := mkResponse { rs_status : Z; rs_headers : gmap string string; rs_body : Body }.

(** ** Their JSON *)

(** [http.StatusText] of the statuses used here. *)
Definition StatusText (status : Z) : string :=
  if status =? 400 then "Bad Request" else if status =? 404 then "Not Found" else if status =? 409 then "Conflict"
  else if status =? 413 then "Request Entity Too Large" else if status =? 422 then "Unprocessable Entity"
  else if status =? 503 then "Service Unavailable" else if status =? 504 then "Gateway Timeout" else "".

Definition problem_json (p : Problem) : json :=
  JObj ([("type", JStr "about:blank"); ("title", JStr (StatusText (pb_status p))); ("status", JNum (pb_status p))]
    ++ omitempty (String.eqb (pb_detail p) "") "detail" (JStr (pb_detail p))
    ++ [("code", JStr (pb_code p))]
    ++ omitempty (negb (pb_replayed p)) "replayed" (JBool (pb_replayed p))
    ++ omitempty (pb_leader p =? 0) "leader" (JNum (pb_leader p))).

(** [forJSON]: no list of a record is nil.  A list of the model other than these
    two does not tell nil and empty apart and is rendered as a list. *)
Definition forJSON (t : Tournament) : Tournament :=
  mkTournament (t_id t) (t_seed t) (t_rules t) (t_status t) (t_entries t) (t_fees t) (t_rake t) (t_pool t)
    (Some (default [] (t_standings t))) (Some (default [] (t_payouts t)))
    (t_created_at t) (t_closed_at t) (t_settled_at t) (t_ballot t).

Definition record_json (t : Tournament) : json :=
  JObj [("id", JStr (t_id t)); ("seed", JNum (t_seed t)); ("rules", rules_json (t_rules t));
        ("status", JStr (Status_String (t_status t)));
        ("entries", JArr (map entry_json (t_entries t)));
        ("fees", JNum (t_fees t)); ("rake", JNum (t_rake t)); ("pool", JNum (t_pool t));
        ("standings", slice_json standing_json (t_standings t));
        ("payouts", slice_json payout_json (t_payouts t));
        ("created_at", JNum (t_created_at t)); ("closed_at", JNum (t_closed_at t));
        ("settled_at", JNum (t_settled_at t)); ("ballot", ballot_json (t_ballot t))].

Definition command_json (c : CommandResponse) : json :=
  JObj ([("code", JStr (code_text (cr_code c))); ("replayed", JBool (cr_replayed c)); ("slot", JNum (cr_slot c))]
    ++ omitempty (cr_seed c =? 0) "seed" (JNum (cr_seed c))
    ++ match cr_tournament c with Some t => [("tournament", record_json t)] | None => [] end).

Definition tournament_response_json (t : TournamentResponse) : json :=
  JObj [("tournament", record_json (tr_tournament t)); ("applied_slot", JNum (tr_applied_slot t));
        ("consistent", JBool (tr_consistent t))].

Definition ledger_json (l : LedgerResponse) : option json :=
  ps ← mapM posting_json (lr_postings l);
  Some (JObj [("tournament", JStr (lr_tournament l)); ("postings", JArr ps); ("applied_slot", JNum (lr_applied_slot l));
              ("consistent", JBool (lr_consistent l))]).

(** The embedded status; the keys of a map are sorted as text. *)
Definition node_json (st : Status) (peers : gmap NodeID string) : json :=
  JObj [("self", JNum (sta_self st)); ("leader", JNum (sta_leader st)); ("role", JStr (Role_String (role_u8 (sta_role st))));
        ("ballot", ballot_json (sta_ballot st)); ("ready", JBool (sta_ready st)); ("commit_index", JNum (sta_commit st));
        ("applied", JNum (sta_applied st)); ("state_hash", JHex (sta_hash st)); ("tournaments", JNum (sta_tournaments st));
        ("peers", JObj (stable_sort (fun a b => String.ltb a.1 b.1)
                          (map (fun p => (itoa p.1, JStr p.2)) (map_to_list peers))))].

(** The document of a body, [None] for one that is no JSON. *)
Definition document (b : Body) : option json :=
  match b with
  | BProblem p => Some (problem_json p)
  | BCommand c => Some (command_json c)
  | BTournament t => Some (tournament_response_json t)
  | BLedger l => ledger_json l
  | BNode st peers => Some (node_json st peers)
  | BText _ | BCut _ => None
  end.

(** * Calls *)

(** How a Submit, a barrier and a forward fail, as far as the handlers tell the
    errors apart. *)
Inductive SubmitFailure :=
| SNotLeader (leader : NodeID) | SLeadershipLost | SDeadline | SCanceled | STooLarge (err : error) | SBusy | SOther (err : error).
Inductive ReadFailure := FNotLeader (leader : NodeID) | FNotReady (err : error) | FDeadline | FOther (err : error).
Inductive ForwardFailure := BadTarget (err : error) | NoAnswer (err : error).

(** [cfg.Seed], [cfg.Now], the in-flight set under its mutex, the backend, the
    forwarding client, and the copy of the leader's body (whether it is whole). *)
Inductive Eff : Type -> Type :=
| ESeed : Eff Z
| ENow : Eff Z
| ELock (key : IdempotencyKey) : Eff bool
| EUnlock (key : IdempotencyKey) : Eff unit
| ESubmit (cmd : Command) : Eff (Result + SubmitFailure)
| ERead (consistent : bool) : Eff (State + ReadFailure)
| EStatus : Eff Status
| EForward (url : string) (r : Request) : Eff (Response + ForwardFailure)
| ECopy : Eff bool.

Notation prog := (Programs.prog Eff).
Notation M := (Programs.M Eff Response).

(** * Writing *)

Definition headers0 : gmap string string := ∅.

Definition writeProblem {A} (headers : gmap string string) (p : Problem) : M A :=
  Ret (Answer (mkResponse (pb_status p) (<["Content-Type" := "application/problem+json"]> headers) (BProblem p))).

Definition writeJSON {A} (headers : gmap string string) (status : Z) (v : Body) : M A :=
  Ret (Answer (mkResponse status (<["Content-Type" := "application/json"]> headers) v)).

Definition problem {A} (status : Z) (code detail : string) : M A := writeProblem headers0 (mkProblem status detail code false 0).
Definition retry : gmap string string := {["Retry-After" := "1"]}.

Section Server.
Context `{U : Unicode} (cfg : Config) (json_error : bytes -> string).

(** * Forwarding *)

Definition copied_headers : list string := [HeaderIdempotencyKey; "Content-Type"; "Accept"].
Definition relayed_headers : list string := ["Content-Type"; "Content-Length"; "Retry-After"; HeaderAppliedSlot; HeaderNode].

(** The loops [if v := from.Get(h); v != "" { to.Set(h, v) }]. *)
Definition copy_headers (names : list string) (from to : gmap string string) : gmap string string :=
  foldl (fun to h => let v := default "" (from !! h) in if String.eqb v "" then to else <[h := v]> to) to names.

(** The request to the leader, and the answer relayed. *)
Definition forwarded (r : Request) (body : bytes) : Request :=
  mkRequest (rq_method r) (rq_uri r) (rq_id r) (rq_read r)
    (<[HeaderForwarded := "1"]> (copy_headers copied_headers (rq_headers r) ∅)) body None.

Definition relayed (p : Response) (whole : bool) : Response :=
  mkResponse (rs_status p) (copy_headers relayed_headers (rs_headers p) ∅) (if whole then rs_body p else BCut (rs_body p)).

(** The part of [forwardOrRefuse] once the leader it knows is looked up. *)
Definition forward_to {A} (r : Request) (body : bytes) (leader : NodeID) : M A :=
  let leader := if leader =? Self cfg then 0 else leader in
  match Peers cfg !! leader, String.eqb (header r HeaderForwarded) "" with
  | Some url, true =>
      ans <~ call (EForward url (forwarded r body));
      match ans with
      | inr (BadTarget err) => problem 503 CodeForwardFailed err
      | inr (NoAnswer err) =>
          writeProblem retry (mkProblem 503 ("forward to node " +:+ itoa leader +:+ " failed: " +:+ err) CodeForwardFailed false leader)
      | inl p => whole <~ call ECopy; Ret (Answer (relayed p whole))
      end
  | known, _ =>
      let detail := match known with
        | Some _ => "this replica is not the leader; node " +:+ itoa leader +:+ " leads"
        | None => "this replica is not the leader and no leader is known"
        end in
      writeProblem retry (mkProblem 503 detail CodeNotLeader false leader)
  end.

Definition forwardOrRefuse {A} (r : Request) (body : bytes) (leader : NodeID) : M A :=
  exit_if negb (leader =? 0) with forward_to r body leader;
  st <~ call EStatus;
  forward_to r body (sta_leader st).

(** * Commands *)

Definition ClientKey (r : Request) : IdempotencyKey := string_of (TrimSpace (bytes_of (header r HeaderIdempotencyKey))).

(** [io.ReadAll] of [http.MaxBytesReader]: an error once more than the limit
    arrives. *)
Inductive BodyError := BodyTooBig | BodyBroken (err : error).
Definition read_limited (limit : Z) (r : Request) : bytes + BodyError :=
  exit_if Z.max 0 limit <? len (rq_body r) with inr BodyTooBig;
  match rq_broken r with Some err => inr (BodyBroken err) | None => inl (rq_body r) end.

(** [decodeStrict]; the text of a decoding error is the library's. *)
Definition decodeStrict {A} (c : Codec A) (body : bytes) : A + error :=
  match decode_into c body with Some v => inl v | None => inr (json_error body) end.

Definition submitError {A} (r : Request) (body : bytes) (err : SubmitFailure) : M A :=
  match err with
  | SNotLeader leader => forwardOrRefuse r body leader
  | SLeadershipLost => forwardOrRefuse r body 0
  | SDeadline => problem 504 CodeOutcomeUnknown
      "the command was not applied within the request timeout; retry with the same idempotency key"
  | SCanceled => problem 504 CodeOutcomeUnknown "request cancelled"
  | STooLarge err => problem 413 CodeBodyTooLarge err
  | SBusy => writeProblem retry (mkProblem 503
      "the leader has too many commands waiting for a slot; retry with the same idempotency key" CodeUnavailable false 0)
  | SOther err => writeProblem retry (mkProblem 503 err CodeUnavailable false 0)
  end.

(** The record after the commit, [None] when the read fails or finds none. *)
Definition recordAfterCommit (tid : TournamentID) : M (option Tournament) :=
  st <~ call (ERead false);
  go match st with inl st => forJSON <$> ReadTournament st tid | inr _ => None end.

Definition lock_inflight (key : IdempotencyKey) : M unit :=
  free <~ call (ELock key);
  exit_if (free : bool) with go tt;
  problem 409 CodeInFlight "a request with this idempotency key is being processed".

(** The deferred deletion. *)
Definition in_flight {A} (key : IdempotencyKey) (m : M A) : M A :=
  u <~ lock_inflight key;
  pbind m (fun o => Call (EUnlock key) (fun _ => Ret o)).

(** The response to a result. *)
Definition result_response (successStatus : Z) (op : Op) (res : Result) : M Empty_set :=
  match res_code res with
  | OK =>
      t <~ recordAfterCommit (TournamentOf (Some op));
      writeJSON headers0 successStatus (BCommand (mkCommandResponse (res_code res) (res_replayed res) (res_slot res) (res_seed res) t))
  | KeyReused => problem 422 (code_text (res_code res)) (res_detail res)
  | code => writeProblem headers0 (mkProblem 409 (res_detail res) (code_text code) (res_replayed res) 0)
  end.

Definition Build := string -> bytes -> M (Op + error).

Definition command (r : Request) (successStatus : Z) (build : Build) : M Empty_set :=
  let key := ClientKey r in
  exit_if String.eqb key "" with problem 400 CodeMissingKey ("every POST requires an " +:+ HeaderIdempotencyKey +:+ " header");
  match ValidateKey key with Some err => problem 400 CodeInvalidKey err | None =>
  match read_limited (MaxBody cfg) r with
  | inr BodyTooBig => problem 413 CodeBodyTooLarge ("body exceeds " +:+ itoa (MaxBody cfg) +:+ " bytes")
  | inr (BodyBroken err) => problem 400 CodeMalformedBody err
  | inl body =>
      op <~ build (rq_id r) body;
      match op with inr err => problem 400 CodeMalformedBody err | inl op =>
      now <~ call ENow;
      let cmd := mkCommand key (now / 10 ^ 6) (Some op) in
      match Encode cmd with inr err => problem 400 CodeMalformedBody err | inl enc =>
      exit_if MaxValueBytes <? len enc with
        problem 413 CodeBodyTooLarge ("the command encodes to " +:+ itoa (len enc) +:+ " bytes, above the log's limit of " +:+ itoa MaxValueBytes);
      in_flight key (
        res <~ call (ESubmit cmd);
        match res with
        | inr err => submitError r body err
        | inl res => result_response successStatus op res
        end)
      end end
  end end.

(** ** Bodies *)

Definition createRequest : Codec (TournamentID * Rules) :=
  struct (field "id" text (field "rules" rules_codec no_fields)) (fun '(i, (r, _)) => (i, r)) (fun '(i, r) => (i, (r, tt))).
Definition joinRequest : Codec Player :=
  struct (field "player" player_codec no_fields) (fun '(p, _) => p) (fun p => (p, tt)).
Definition scoreRequest : Codec (PlayerID * Z * Z * Digest) :=
  struct (field "player" text (field "score" (sint 64) (field "deal_seed" (uint 64) (field "input_digest" digest_codec no_fields))))
    (fun '(p, (s, (d, (i, _)))) => (p, s, d, i)) (fun '(p, s, d, i) => (p, (s, (d, (i, tt))))).
Definition closeRequest : Codec unit := struct no_fields (fun _ => tt) (fun _ => tt).
Definition settleRequest : Codec Exclusions :=
  struct (field "exclusions" exclusions_codec no_fields) (fun '(e, _) => e) (fun e => (e, tt)).

Definition handleCreate (r : Request) : M Empty_set :=
  command r 201 (fun _ body =>
    match decodeStrict createRequest body with
    | inr err => go (inr err)
    | inl (id, rules) => seed <~ call ESeed; go (inl (CreateTournament id seed rules))
    end).

Definition handleJoin (r : Request) : M Empty_set :=
  command r 201 (fun id body =>
    go match decodeStrict joinRequest body with inr err => inr err | inl player => inl (Join id player) end).

Definition handleScore (r : Request) : M Empty_set :=
  command r 200 (fun id body =>
    go match decodeStrict scoreRequest body with
       | inr err => inr err
       | inl (player, score, seed, digest) => inl (SubmitScore id player score seed digest)
       end).

Definition handleClose (r : Request) : M Empty_set :=
  command r 200 (fun id body =>
    exit_if len (TrimSpace body) <=? 0 with go (inl (Close id));
    go match decodeStrict closeRequest body with inr err => inr err | inl _ => inl (Close id) end).

Definition handleSettle (r : Request) : M Empty_set :=
  command r 200 (fun id body =>
    go match decodeStrict settleRequest body with inr err => inr err | inl e => inl (Settle id e) end).

(** * Reads *)

Definition consistent_read (r : Request) : bool := negb (String.eqb (rq_read r) "stale").

(** [read]: [fn] and then [done] on the state. *)
Definition read (r : Request) (consistent : bool) (done : State -> M Empty_set) : M Empty_set :=
  st <~ call (ERead consistent);
  match st with
  | inl st => done st
  | inr (FNotLeader leader) => forwardOrRefuse r [] leader
  | inr (FNotReady err) => writeProblem retry (mkProblem 503 err CodeNotReady false 0)
  | inr FDeadline => problem 504 CodeOutcomeUnknown "the read barrier did not complete within the request timeout"
  | inr (FOther err) => writeProblem retry (mkProblem 503 err CodeUnavailable false 0)
  end.

Definition applied_header (st : State) : gmap string string := {[HeaderAppliedSlot := itoa (applied st)]}.
Definition no_tournament (id : TournamentID) : Problem := mkProblem 404 ("no tournament " +:+ quote id) CodeNotFound false 0.

Definition handleGet (r : Request) : M Empty_set :=
  let id := rq_id r in
  let consistent := consistent_read r in
  read r consistent (fun st =>
    match ReadTournament st id with
    | None => writeProblem (applied_header st) (no_tournament id)
    | Some t => writeJSON (applied_header st) 200 (BTournament (mkTournamentResponse (forJSON t) (applied st) consistent))
    end).

Definition handleLedger (r : Request) : M Empty_set :=
  let id := rq_id r in
  let consistent := consistent_read r in
  read r consistent (fun st =>
    match ReadTournament st id with
    | None => writeProblem (applied_header st) (no_tournament id)
    | Some _ => writeJSON (applied_header st) 200 (BLedger (mkLedgerResponse id (ForTournament (book st) id) (applied st) consistent))
    end).

Definition handleNode : M Empty_set := st <~ call EStatus; writeJSON headers0 200 (BNode st (Peers cfg)).
Definition handleHealth : M Empty_set := Ret (Answer (mkResponse 200 {["Content-Type" := "text/plain; charset=utf-8"]} (BText (string_of [111; 107; 10])))).

(** * Routes *)

Inductive Route := RCreate | RJoin | RScore | RClose | RSettle | RGet | RLedger | RNode | RHealth.

Definition routed (rt : Route) (r : Request) : M Empty_set :=
  match rt with
  | RCreate => handleCreate r
  | RJoin => handleJoin r
  | RScore => handleScore r
  | RClose => handleClose r
  | RSettle => handleSettle r
  | RGet => handleGet r
  | RLedger => handleLedger r
  | RNode => handleNode
  | RHealth => handleHealth
  end.

(** [stamp]: the node's header, which a relayed answer replaces by its own. *)
Definition stamp (o : Outcome Response Empty_set) : option Response :=
  match o with
  | Answer p => Some (mkResponse (rs_status p) (rs_headers p ∪ {[HeaderNode := itoa (Self cfg)]}) (rs_body p))
  | _ => None
  end.

Definition Handler (rt : Route) (r : Request) : prog (option Response) := pbind (routed rt r) (fun o => Ret (stamp o)).
End Server.
