(* ===== verification/ApiSafety.v ===== *)
(** What the operators' API does (Api.v), whatever the replica, the network and
    the other requests do.

    A request makes one of four sequences of the calls that matter: none; a
    forward; the lock of its key, a submission and the unlocking; and the same
    with a forward in between ([operator_conduct]).  So wherever an operator
    sends a request, it is forwarded at most once, and what it is told was
    committed was ([operator_answers_true]). *)

From S2P Require Import Prelude Programs GoStd Json Unmarshal Paxos Ledger Game Records Codec Commands State Replog Replica Api.

Notation event := (Programs.event Eff).

(** * The calls that matter *)

Inductive Mark :=
| MLock (key : IdempotencyKey)
| MUnlock (key : IdempotencyKey)
| MSubmit (cmd : Command) (res : Result + SubmitFailure)
| MForward (url : string) (r : Request) (ans : Response + ForwardFailure).

Definition mark (ev : event) : option Mark :=
  match ev with
  | Ev e x =>
      match e in Eff R return R -> option Mark with
      | ELock key => fun ok => if ok then Some (MLock key) else None
      | EUnlock key => fun _ => Some (MUnlock key)
      | ESubmit cmd => fun res => Some (MSubmit cmd res)
      | EForward url r => fun ans => Some (MForward url r ans)
      | _ => fun _ => None
      end x
  end.

Definition marks (h : list event) : list Mark := omap mark h.

Lemma marks_snoc h ev : marks (h ++ [ev]) = marks h ++ match mark ev with Some m => [m] | None => [] end.
Proof. unfold marks. rewrite omap_app. simpl. by destruct (mark ev). Qed.

(** * What a request asks for *)

Definition is_post (rt : Route) : bool := match rt with RCreate | RJoin | RScore | RClose | RSettle => true | _ => false end.
Definition is_get (rt : Route) : bool := match rt with RGet | RLedger => true | _ => false end.
Definition success_status (rt : Route) : Z := match rt with RCreate | RJoin => 201 | _ => 200 end.

(** The operation a body spells; the seed of a tournament is drawn. *)
Definition spelled (rt : Route) (id : string) (body : bytes) (seed : Z) : option Op :=
  match rt with
  | RCreate => '(i, rules) ← decode_into createRequest body; Some (CreateTournament i seed rules)
  | RJoin => player ← decode_into joinRequest body; Some (Join id player)
  | RScore => '(p, score, deal, digest) ← decode_into scoreRequest body; Some (SubmitScore id p score deal digest)
  | RClose => if len (TrimSpace body) <=? 0 then Some (Close id) else _ ← decode_into closeRequest body; Some (Close id)
  | RSettle => e ← decode_into settleRequest body; Some (Settle id e)
  | _ => None
  end.

(** A command the request asks for: its key, its operation and its size. *)
Record asked (cfg : Config) (rt : Route) (r : Request) (cmd : Command) : Prop := {
  as_key : cmd_key cmd = ClientKey r;
  as_valid : ValidateKey (cmd_key cmd) = None;
  as_op : exists seed op, spelled rt (rq_id r) (rq_body r) seed = Some op /\ cmd_op cmd = Some op;
  as_body : len (rq_body r) <= Z.max 0 (MaxBody cfg);
  as_size : exists enc, Encode cmd = inl enc /\ len enc <= MaxValueBytes;
}.

(** The errors that pass a request on to the leader. *)
Definition passed_on (f : SubmitFailure) : bool := match f with SNotLeader _ | SLeadershipLost => true | _ => false end.

(** What is sent on: a POST's body, a GET without one. *)
Definition sent_body (rt : Route) (r : Request) : bytes := if is_post rt then rq_body r else [].

(** A forward the request allows. *)
Definition forwardable (cfg : Config) (rt : Route) (r : Request) (url : string) (r' : Request) : Prop :=
  header r HeaderForwarded = "" /\ r' = forwarded r (sent_body rt r) /\
  exists leader, (leader = Self cfg -> leader = 0) /\ Peers cfg !! leader = Some url.

(** The calls a history allows. *)
Definition allowed (cfg : Config) (rt : Route) (r : Request) (h : list event) (R : Type) (e : Eff R) : Prop :=
  match e with
  | ELock key => marks h = [] /\ is_post rt = true /\ key = ClientKey r
  | ESubmit cmd => marks h = [MLock (cmd_key cmd)] /\ is_post rt = true /\ asked cfg rt r cmd /\
      exists now, Ev ENow now ∈ h /\ cmd_received_at cmd = now / 10 ^ 6
  | EForward url r' => forwardable cfg rt r url r' /\
      ((is_get rt = true /\ marks h = []) \/
       exists cmd f, is_post rt = true /\ passed_on f = true /\ marks h = [MLock (cmd_key cmd); MSubmit cmd (inr f)])
  | EUnlock key => exists ms, marks h = MLock key :: ms /\ MUnlock key ∉ ms
  | ERead consistent => is_post rt = false -> consistent = consistent_read r
  | _ => True
  end.

(** * What it is told *)

Definition refusal (p : Response) : Prop := 300 <= rs_status p.

(** The answer to a recorded result. *)
Definition result_answer (rt : Route) (res : Result) (p : Response) : Prop :=
  match res_code res with
  | OK => rs_status p = success_status rt /\
      exists t, rs_body p = BCommand (mkCommandResponse OK (res_replayed res) (res_slot res) (res_seed res) t)
  | KeyReused => rs_status p = 422 /\ rs_body p = BProblem (mkProblem 422 (res_detail res) (code_text KeyReused) false 0)
  | code => rs_status p = 409 /\ rs_body p = BProblem (mkProblem 409 (res_detail res) (code_text code) (res_replayed res) 0)
  end.

(** The answer to a read of [st]. *)
Definition read_answer `{Unicode} (rt : Route) (r : Request) (st : State) (p : Response) : Prop :=
  rs_headers p !! HeaderAppliedSlot = Some (itoa (applied st)) /\
  match ReadTournament st (rq_id r) with
  | None => rs_status p = 404 /\ rs_body p = BProblem (no_tournament (rq_id r))
  | Some t => rs_status p = 200 /\
      match rt with
      | RGet => rs_body p = BTournament (mkTournamentResponse (forJSON t) (applied st) (consistent_read r))
      | _ => rs_body p = BLedger (mkLedgerResponse (rq_id r) (ForTournament (book st) (rq_id r)) (applied st) (consistent_read r))
      end
  end.

(** The leader's answer, relayed, or that there was none. *)
Definition forward_answer (ans : Response + ForwardFailure) (p : Response) : Prop :=
  match ans with inl p' => exists whole, p = relayed p' whole | inr _ => rs_status p = 503 end.

(** The calls of a request, with its answer. *)
Inductive conduct `{Unicode} (cfg : Config) (rt : Route) (r : Request) (h : list event) : list Mark -> Response -> Prop :=
| cd_refused p : refusal p -> conduct cfg rt r h [] p
| cd_local p : is_post rt = false -> is_get rt = false -> rs_status p = 200 -> conduct cfg rt r h [] p
| cd_read st p : is_get rt = true -> Ev (ERead (consistent_read r)) (inl st) ∈ h -> read_answer rt r st p -> conduct cfg rt r h [] p
| cd_read_on url r' ans p : is_get rt = true -> forward_answer ans p -> conduct cfg rt r h [MForward url r' ans] p
| cd_result cmd res p : is_post rt = true -> asked cfg rt r cmd -> result_answer rt res p ->
    conduct cfg rt r h [MLock (cmd_key cmd); MSubmit cmd (inl res); MUnlock (cmd_key cmd)] p
| cd_failed cmd f p : is_post rt = true -> refusal p ->
    conduct cfg rt r h [MLock (cmd_key cmd); MSubmit cmd (inr f); MUnlock (cmd_key cmd)] p
| cd_passed_on cmd f url r' ans p : is_post rt = true -> passed_on f = true -> forward_answer ans p ->
    conduct cfg rt r h [MLock (cmd_key cmd); MSubmit cmd (inr f); MForward url r' ans; MUnlock (cmd_key cmd)] p.

(** * The handlers *)

Section Handlers.
Context `{U : Unicode} (cfg : Config) (rt : Route) (r : Request).

(** [m] answers, with a history and a response that satisfy [Q]. *)
Definition answers {A} (m : M A) (h : list event) (Q : list event -> Response -> Prop) : Prop :=
  safe (allowed cfg rt r) m h (fun h' o => match o with Answer p => Q h' p | _ => False end).

Lemma answers_mono {A} (m : M A) h (Q Q' : list event -> Response -> Prop) :
  (forall h' p, Q h' p -> Q' h' p) -> answers m h Q -> answers m h Q'.
Proof. intros H. apply safe_mono. intros h' [a|p|]; [done|apply H|done]. Qed.

Lemma answers_problem {A} headers p h (Q : list event -> Response -> Prop) :
  (forall q, rs_status q = pb_status p -> rs_body q = BProblem p -> Q h q) -> answers (A := A) (writeProblem headers p) h Q.
Proof. intros H. by apply H. Qed.

Lemma answers_refusal {A} headers p h (Q : list event -> Response -> Prop) :
  (forall q, refusal q -> Q h q) -> 300 <= pb_status p -> answers (A := A) (writeProblem headers p) h Q.
Proof. intros H Hp. apply answers_problem. intros q Hq _. apply H. unfold refusal. by rewrite Hq. Qed.

Lemma answers_call {R A} (e : Eff R) (f : R -> M A) h Q : allowed cfg rt r h R e ->
  (forall x, answers (f x) (h ++ [Ev e x]) Q) -> answers (then_ (call e) f) h Q.
Proof. intros He H. by split. Qed.

(** A call that leaves no mark. *)
Lemma marks_silent h {R} (e : Eff R) x : mark (Ev e x) = None -> marks (h ++ [Ev e x]) = marks h.
Proof. intros H. by rewrite marks_snoc, H, app_nil_r. Qed.

(** ** Forwarding *)

(** The answers of [forwardOrRefuse], and what marks the history. *)
Definition passed (h h' : list event) (p : Response) : Prop :=
  (marks h' = marks h /\ refusal p) \/
  exists url r' ans, marks h' = marks h ++ [MForward url r' ans] /\ forward_answer ans p.

Definition may_forward (h : list event) : Prop := forall h' url r', marks h' = marks h -> forwardable cfg rt r url r' ->
  allowed cfg rt r h' _ (EForward url r').

Lemma answers_forward_to {A} leader h : may_forward h -> answers (A := A) (forward_to cfg r (sent_body rt r) leader) h (passed h).
Proof.
  intros Hf. unfold forward_to. set (l := if leader =? Self cfg then 0 else leader). cbv zeta.
  assert (Hn : l = Self cfg -> l = 0) by (unfold l; destruct (Z.eqb_spec leader (Self cfg)); congruence). clearbody l.
  assert (Hr : forall A code detail, answers (A := A) (writeProblem retry (mkProblem 503 detail code false l)) h (passed h)).
  { intros. apply answers_refusal; [|done]. intros q Hq. by left. }
  destruct (Peers cfg !! l) as [url|] eqn:Ep; [|apply Hr]. destruct (String.eqb_spec (header r HeaderForwarded) "") as [Eh|]; [|apply Hr].
  apply answers_call.
  { apply Hf; [done|]. split_and!; [done|done|]. by exists l. }
  intros ans. set (h1 := h ++ _). assert (Hm : marks h1 = marks h ++ [MForward url (forwarded r (sent_body rt r)) ans]) by apply marks_snoc.
  destruct ans as [p|[err|err]].
  - apply answers_call; [done|]. intros whole. right. do 3 eexists. split; [rewrite marks_silent by done; exact Hm|]. by exists whole.
  - apply answers_problem. intros q Hq _. right. do 3 eexists. split; [exact Hm|exact Hq].
  - apply answers_problem. intros q Hq _. right. do 3 eexists. split; [exact Hm|exact Hq].
Qed.

Lemma answers_forwardOrRefuse {A} leader h : may_forward h -> answers (A := A) (forwardOrRefuse cfg r (sent_body rt r) leader) h (passed h).
Proof.
  intros Hf. unfold forwardOrRefuse. destruct (leader =? 0); simpl; [|by apply answers_forward_to].
  apply answers_call; [done|]. intros st. eapply answers_mono; [|apply answers_forward_to].
  - intros h' p. unfold passed. by rewrite marks_silent by done.
  - intros h' url r' Hm. apply Hf. by rewrite Hm, marks_silent by done.
Qed.

(** ** Commands *)

Lemma answers_result op res h : is_post rt = true ->
  answers (result_response (success_status rt) op res) h (fun h' p => marks h' = marks h /\ result_answer rt res p).
Proof.
  intros Hp. unfold result_response, result_answer.
  assert (HO : answers (t <~ recordAfterCommit (TournamentOf (Some op));
      writeJSON (A := Empty_set) headers0 (success_status rt) (BCommand (mkCommandResponse OK (res_replayed res) (res_slot res) (res_seed res) t))) h
      (fun h' p => marks h' = marks h /\ rs_status p = success_status rt /\
         exists t, rs_body p = BCommand (mkCommandResponse OK (res_replayed res) (res_slot res) (res_seed res) t))).
  { split; [intros Hn; congruence|]. intros st. split; [by apply marks_silent|]. split; [done|]. by eexists. }
  destruct (res_code res); first [exact HO|apply answers_problem; intros q Hs Hb; by rewrite Hs, Hb].
Qed.

(** What is answered under the lock, before the unlocking. *)
Definition under_lock (key : IdempotencyKey) (h : list event) (p : Response) : Prop :=
  exists ms, marks h = MLock key :: ms /\ MUnlock key ∉ ms /\ forall h', conduct cfg rt r h' (marks h ++ [MUnlock key]) p.

Lemma answers_submitError cmd f h : is_post rt = true -> marks h = [MLock (cmd_key cmd); MSubmit cmd (inr f)] ->
  answers (A := Empty_set) (submitError cfg r (rq_body r) f) h (under_lock (cmd_key cmd)).
Proof.
  intros Hp Hm.
  assert (HR : forall q, refusal q -> under_lock (cmd_key cmd) h q).
  { intros q Hq. eexists. split; [exact Hm|]. split; [set_solver|]. intros h'. rewrite Hm. by apply cd_failed. }
  assert (HF : forall leader, passed_on f = true -> answers (A := Empty_set) (forwardOrRefuse cfg r (rq_body r) leader) h (under_lock (cmd_key cmd))).
  { intros leader Hf. replace (rq_body r) with (sent_body rt r) by (unfold sent_body; by rewrite Hp).
    eapply answers_mono; [|apply answers_forwardOrRefuse].
    - intros h' p [[Hm' Hq]|(url & r' & ans & Hm' & Ha)]; rewrite Hm in Hm'; (eexists; split; [exact Hm'|]; split; [set_solver|]; intros h2; rewrite Hm').
      + by apply cd_failed.
      + by apply cd_passed_on.
    - intros h' url r' Hm' Hok. split; [done|]. right. exists cmd, f. by rewrite Hm', Hm. }
  unfold submitError, problem. destruct f; try (by apply answers_refusal; [exact HR|]); by apply HF.
Qed.

Lemma answers_in_flight {A} key (m : M A) h : is_post rt = true -> key = ClientKey r -> marks h = [] ->
  (forall h', h ⊑ₕ h' -> marks h' = [MLock key] -> answers m h' (under_lock key)) ->
  answers (in_flight key m) h (fun h' p => conduct cfg rt r h' (marks h') p).
Proof.
  intros Hp Hk Hm H. split; [done|]. intros [|].
  - simpl. apply safe_pbind. eapply safe_mono; [|apply H; [apply later_snoc|by rewrite marks_snoc, Hm]].
    intros h' [a|p|] Ho; [done| |done]. destruct Ho as (ms & Hms & Hn & Hc).
    split; [by exists ms|]. intros []. simpl. rewrite marks_snoc. apply Hc.
  - simpl. rewrite marks_silent, Hm by done. by apply cd_refused.
Qed.

(** A build leaves no mark, and makes the operation its body spells. *)
Definition builds (build : Build) (body : bytes) : Prop := forall h, marks h = [] ->
  safe (allowed cfg rt r) (build (rq_id r) body) h (fun h' o =>
    marks h' = [] /\ match o with
      | Go (inl op) => exists seed, spelled rt (rq_id r) body seed = Some op
      | Go (inr _) => True
      | _ => False
      end).

Lemma answers_command build h : is_post rt = true -> marks h = [] -> builds build (rq_body r) ->
  answers (command cfg r (success_status rt) build) h (fun h' p => conduct cfg rt r h' (marks h') p).
Proof.
  intros Hp Hm Hb. set (Q := fun h' p => _).
  assert (HR : forall h q, marks h = [] -> refusal q -> Q h q) by (intros h1 q Hm1 Hq; unfold Q; rewrite Hm1; by apply cd_refused).
  unfold command. cbv zeta. case_goal; [by apply answers_refusal; [intros; apply HR|]|].
  destruct (ValidateKey (ClientKey r)) eqn:Ek; [by apply answers_refusal; [intros; apply HR|]|].
  unfold read_limited. destruct (Z.max 0 (MaxBody cfg) <? len (rq_body r)) eqn:El; [by apply answers_refusal; [intros; apply HR|]|].
  destruct (rq_broken r); [by apply answers_refusal; [intros; apply HR|]|]. b2p.
  unfold answers, then_. apply safe_pbind. eapply safe_mono; [|by apply Hb].
  intros h1 [[op|err]|p|] [Hm1 Ho]; [|by apply answers_refusal; [intros; apply HR|]|done..].
  destruct Ho as [seed Hop]. apply answers_call; [done|]. intros now. set (cmd := mkCommand _ _ _). set (h2 := h1 ++ _).
  assert (Hm2 : marks h2 = []) by (unfold h2; by rewrite marks_silent).
  destruct (Encode cmd) as [enc|err] eqn:Ee; [|by apply answers_refusal; [intros; apply HR|]].
  destruct (MaxValueBytes <? len enc) eqn:Es; [by apply answers_refusal; [intros; apply HR|]|]. b2p.
  assert (Ha : asked cfg rt r cmd) by (split; [done|done|by exists seed, op|done|by exists enc]).
  apply answers_in_flight; [done|done|done|]. intros h3 Hp3 Hm3. apply answers_call.
  { split_and!; [exact Hm3|done|done|]. exists now. split; [eapply later_call; [|exact Hp3]; apply called|done]. }
  intros res. set (h4 := h3 ++ _). assert (Hm4 : marks h4 = [MLock (cmd_key cmd); MSubmit cmd res]).
  { unfold h4. rewrite marks_snoc, Hm3. done. }
  destruct res as [res|f]; [|exact (answers_submitError cmd f h4 Hp Hm4)].
  eapply answers_mono; [|by apply answers_result]. intros h5 p [Hm5 Hr]. rewrite Hm4 in Hm5.
  eexists. split; [exact Hm5|]. split; [set_solver|]. intros h'. rewrite Hm5. by apply cd_result.
Qed.

(** ** Reads *)

Lemma answers_read (done_ : State -> M Empty_set) h : is_post rt = false -> is_get rt = true -> marks h = [] ->
  (forall st h, answers (done_ st) h (fun h' p => h' = h /\ read_answer rt r st p)) ->
  answers (read cfg r (consistent_read r) done_) h (fun h' p => conduct cfg rt r h' (marks h') p).
Proof.
  intros Hp Hg Hm Hd. set (Q := fun h' p => _). unfold read. apply answers_call; [done|]. intros x. set (h1 := h ++ _).
  assert (Hm1 : marks h1 = []) by (unfold h1; by rewrite marks_silent).
  assert (HR : forall q, refusal q -> Q h1 q) by (intros q Hq; unfold Q; rewrite Hm1; by apply cd_refused).
  destruct x as [st|[leader|err| |err]]; try (by apply answers_refusal).
  - eapply answers_mono; [|apply Hd]. intros h' p [-> Hr]. unfold Q. rewrite Hm1. apply (cd_read _ _ _ _ st); [done| |done]. apply called.
  - replace [] with (sent_body rt r) by (unfold sent_body; by rewrite Hp).
    eapply answers_mono; [|apply answers_forwardOrRefuse].
    + intros h' p [[Hm' Hq]|(url & r' & ans & Hm' & Ha)]; unfold Q; rewrite Hm', Hm1; [by apply cd_refused|by apply cd_read_on].
    + intros h' url r' Hm' Hok. split; [done|]. left. by rewrite Hm', Hm1.
Qed.
End Handlers.

(** ** The routes *)

Section Routes.
Context `{U : Unicode} (json_error : bytes -> string) (cfg : Config).

Lemma builds_go rt r (build : Build) body :
  (exists x, build (rq_id r) body = go x /\ match x with inl op => exists seed, spelled rt (rq_id r) body seed = Some op | inr _ => True end) ->
  builds cfg rt r build body.
Proof. intros (x & E & Hx) h Hm. cbv beta. rewrite E. split; [done|by destruct x]. Qed.

Lemma answers_routed rt r : answers cfg rt r (routed cfg json_error rt r) [] (fun h p => conduct cfg rt r h (marks h) p).
Proof.
  destruct rt; cbn [routed].
  - apply (answers_command cfg RCreate); [done..|]. intros h Hm. unfold decodeStrict. destruct (decode_into createRequest _) as [[i rules]|] eqn:E; [|by split].
    split; [done|]. intros seed. split; [by rewrite marks_silent|]. exists seed. unfold spelled. by rewrite E.
  - apply (answers_command cfg RJoin); [done..|]. apply builds_go. eexists. split; [done|]. unfold decodeStrict.
    destruct (decode_into joinRequest _) eqn:E; [|done]. exists 0. unfold spelled. by rewrite E.
  - apply (answers_command cfg RScore); [done..|]. apply builds_go. eexists. split; [done|]. unfold decodeStrict.
    destruct (decode_into scoreRequest _) as [[[[p s] d] i]|] eqn:E; [|done]. exists 0. unfold spelled. by rewrite E.
  - apply (answers_command cfg RClose); [done..|]. apply builds_go. unfold spelled. destruct (len _ <=? 0); [eexists; split; [done|by exists 0]|].
    eexists. split; [done|]. unfold decodeStrict. destruct (decode_into closeRequest _) eqn:E; [|done]. by exists 0.
  - apply (answers_command cfg RSettle); [done..|]. apply builds_go. eexists. split; [done|]. unfold decodeStrict.
    destruct (decode_into settleRequest _) eqn:E; [|done]. exists 0. unfold spelled. by rewrite E.
  - apply answers_read; [done..|]. intros st h. unfold read_answer. destruct (ReadTournament st (rq_id r)); by (split; [done|split]).
  - apply answers_read; [done..|]. intros st h. unfold read_answer. destruct (ReadTournament st (rq_id r)); by (split; [done|split]).
  - split; [done|]. intros st. by apply (cd_local _ _ _ _ _).
  - by apply cd_local.
Qed.

(** C16. What the handler of an operator's request does, whatever its calls return:
    it never panics.  It submits at most one command, with the request's own
    key, which is valid and locked until the answer is made, with the operation
    the request's body spells, of a size the log takes.  It forwards the
    request at most once, only when it carries no mark of a forward, with the
    mark, to another replica's address, after its own replica refused to lead.
    And its answer is the result of the command, whether accepted or rejected,
    a state read with the barrier the request asked for, the leader's answer,
    or a refusal of a command whose outcome it was not told. *)
Theorem operator_conduct rt r : safe (allowed cfg rt r) (routed cfg json_error rt r) [] (fun h o =>
  match o with Answer p => conduct cfg rt r h (marks h) p | _ => False end).
Proof. apply answers_routed. Qed.
End Routes.
