(* ===== verification/Forwarding.v ===== *)
(** An operator's request in the cluster (internal/api/server.go): the replica
    it is sent to, and the leader that replica forwards it to.

    The theorem: a request is forwarded at most once, and the answer the
    operator gets, directly or relayed, tells the truth about the replica that
    made it ([operator_answers_true]). *)

From S2P Require Import Prelude Programs GoStd Json Unmarshal Paxos Ledger Game Records Codec Commands State Replog Replica Api ApiSafety.

(** * Headers *)

Lemma copy_headers_lookup names from to h : copy_headers names from to !! h =
  if bool_decide (h ∈ names /\ default "" (from !! h) <> "") then from !! h else to !! h.
Proof.
  unfold copy_headers. revert to. induction names as [|n names IH]; intros to; cbn [foldl].
  - rewrite bool_decide_eq_false_2; [done|]. intros [H _]. set_solver.
  - rewrite IH. destruct (decide (h ∈ names /\ default "" (from !! h) <> "")) as [H|H].
    + rewrite !bool_decide_eq_true_2; [done|set_solver|done].
    + rewrite bool_decide_eq_false_2 by done. destruct (String.eqb_spec (default "" (from !! n)) "") as [En|En].
      * rewrite bool_decide_eq_false_2; [done|]. intros [Hh Hd]. apply elem_of_cons in Hh as [-> |Hh]; [done|]. by apply H.
      * destruct (decide (h = n)) as [-> |Hn].
        -- rewrite lookup_insert_eq, bool_decide_eq_true_2 by set_solver. by destruct (from !! n).
        -- rewrite lookup_insert_ne by done. rewrite bool_decide_eq_false_2; [done|]. intros [Hh Hd]. apply H. set_solver.
Qed.

Lemma forwarded_marked r body : header (forwarded r body) HeaderForwarded = "1".
Proof. unfold header, forwarded. cbn [rq_headers]. by rewrite lookup_insert_eq. Qed.

Lemma forwarded_key r body : ClientKey (forwarded r body) = ClientKey r.
Proof.
  unfold ClientKey. do 3 f_equal. unfold header, forwarded. cbn [rq_headers]. rewrite lookup_insert_ne by done.
  rewrite copy_headers_lookup. destruct (decide (default "" (rq_headers r !! HeaderIdempotencyKey) = "")) as [E|E].
  - rewrite bool_decide_eq_false_2 by tauto. by rewrite lookup_empty, E.
  - rewrite bool_decide_eq_true_2; [done|]. split; [|done]. unfold copied_headers. set_solver.
Qed.

(** * One replica *)

Section Cluster.
Context `{U : Unicode} (json_error : bytes -> string).

Lemma handler_safe cfg rt r : safe (allowed cfg rt r) (Handler cfg json_error rt r) [] (fun h o =>
  exists q, conduct cfg rt r h (marks h) q /\ o = stamp cfg (Answer q)).
Proof.
  unfold Handler. apply safe_pbind. eapply safe_mono; [|apply (answers_routed json_error)].
  intros h [a|q|] Ho; [done| |done]. by exists q.
Qed.

(** A run of a handler: its calls, and the answer before its stamp. *)
Lemma handler_conduct cfg rt r k p : trace (Handler cfg json_error rt r) k (Some p) ->
  exists q, conduct cfg rt r k (marks k) q /\ rs_status p = rs_status q /\ rs_body p = rs_body q.
Proof.
  intros H. destruct (trace_safe _ _ _ _ [] _ H (handler_safe cfg rt r)) as [(q & Hc & Hq) _].
  exists q. split; [exact Hc|]. by injection Hq as ->.
Qed.

Lemma handler_forwards cfg rt r k p url r' ans : trace (Handler cfg json_error rt r) k p -> Ev (EForward url r') ans ∈ k ->
  header r HeaderForwarded = "" /\ r' = forwarded r (sent_body rt r) /\ MForward url r' ans ∈ marks k.
Proof.
  intros H Hin. destruct (trace_safe _ _ _ _ [] _ H (handler_safe cfg rt r)) as [_ Ha].
  destruct (list_elem_of_split _ _ Hin) as (k1 & k2 & Hk). destruct (Ha _ _ _ Hk) as [(Hh & Hr & _) _].
  split_and!; [done|done|]. unfold marks. apply list_elem_of_omap. by eexists.
Qed.

(** The submissions and reads of a run. *)
Lemma marks_submit k cmd res : MSubmit cmd res ∈ marks k -> Ev (ESubmit cmd) res ∈ k.
Proof. intros H. apply list_elem_of_omap in H as ([R [| | | | | | | |] x] & Hin & Hm); simpl in Hm; try destruct x; by simplify_eq. Qed.
Lemma marks_forward k url r ans : MForward url r ans ∈ marks k -> Ev (EForward url r) ans ∈ k.
Proof. intros H. apply list_elem_of_omap in H as ([R [| | | | | | | |] x] & Hin & Hm); simpl in Hm; try destruct x; by simplify_eq. Qed.

(** * The cluster *)

(** The replicas' configurations, and whom a base URL reaches. *)
Context (nodes : gmap NodeID Config) (reaches : string -> NodeID -> Prop).

(** Replica [i] answers a request with [p], and so do those it forwards it to,
    [hops] deep.  The forwarded request has the same method and target, so the
    same route. *)
Fixpoint serves (hops : nat) (i : NodeID) (rt : Route) (r : Request) (p : Response) : Prop :=
  exists cfg k, nodes !! i = Some cfg /\ trace (Handler cfg json_error rt r) k (Some p) /\
  forall url r' p', Ev (EForward url r') (inl p') ∈ k ->
    match hops with O => False | S hops' => exists j, reaches url j /\ serves hops' j rt r' p' end.

Fixpoint uncut (b : Body) : Body := match b with BCut b => uncut b | _ => b end.

(** A run of replica [j] that serves the request, on its own or forwarded. *)
Definition served_at (j : NodeID) (rt : Route) (r : Request) (cfg : Config) (k : list event) : Prop :=
  nodes !! j = Some cfg /\ exists r' p', ClientKey r' = ClientKey r /\ trace (Handler cfg json_error rt r') k (Some p').

(** A replica submitted a command the request asks for; its result was accepted
    and is what the operator is told. *)
Definition committed (rt : Route) (r : Request) (p : Response) : Prop :=
  exists j cfg k cmd res, served_at j rt r cfg k /\ Ev (ESubmit cmd) (inl res) ∈ k /\ res_code res = OK /\ asked cfg rt r cmd /\
    rs_status p = success_status rt /\
    exists t, uncut (rs_body p) = BCommand (mkCommandResponse OK (res_replayed res) (res_slot res) (res_seed res) t).

(** A replica read the record from a state, behind a barrier exactly when the
    request did not ask for a stale read, and that is what it is told. *)
Definition read_record (rt : Route) (r : Request) (p : Response) : Prop :=
  exists j cfg k st t, served_at j rt r cfg k /\ Ev (ERead (consistent_read r)) (inl st) ∈ k /\ ReadTournament st (rq_id r) = Some t /\
    rs_status p = 200 /\
    uncut (rs_body p) = match rt with
      | RGet => BTournament (mkTournamentResponse (forJSON t) (applied st) (consistent_read r))
      | _ => BLedger (mkLedgerResponse (rq_id r) (ForTournament (book st) (rq_id r)) (applied st) (consistent_read r))
      end.

(** ** A forwarded request is the same request *)

Lemma served_at_forwarded j rt r body cfg k : served_at j rt (forwarded r body) cfg k -> served_at j rt r cfg k.
Proof. intros (Hn & r' & p' & Hk & Ht). split; [done|]. exists r', p'. by rewrite Hk, forwarded_key. Qed.

Lemma asked_forwarded cfg rt r cmd : asked cfg rt (forwarded r (rq_body r)) cmd -> asked cfg rt r cmd.
Proof. intros [H1 H2 H3 H4 H5]. rewrite forwarded_key in H1. by split. Qed.

Lemma committed_relayed rt r p whole : is_post rt = true -> committed rt (forwarded r (sent_body rt r)) p -> forall q,
  rs_status q = rs_status p -> rs_body q = rs_body (relayed p whole) -> committed rt r q.
Proof.
  intros Hp (j & cfg & k & cmd & res & H1 & H2 & H3 & H4 & H5 & t & H6) q Hs Hb. exists j, cfg, k, cmd, res.
  unfold sent_body in *. rewrite Hp in *. split_and!; [by eapply served_at_forwarded|done|done|by apply asked_forwarded|congruence|].
  exists t. rewrite Hb. by destruct whole.
Qed.

Lemma read_relayed rt r p whole body : read_record rt (forwarded r body) p -> forall q,
  rs_status q = rs_status p -> rs_body q = rs_body (relayed p whole) -> read_record rt r q.
Proof.
  intros (j & cfg & k & st & t & H1 & H2 & H3 & H4 & H5) q Hs Hb. exists j, cfg, k, st, t.
  split_and!; [by eapply served_at_forwarded|done|done|congruence|]. rewrite Hb. by destruct whole.
Qed.

(** ** At most one hop *)

Lemma marked_stays hops i rt r p : header r HeaderForwarded <> "" -> serves hops i rt r p -> serves 0 i rt r p.
Proof.
  intros Hh H. assert (exists cfg k, nodes !! i = Some cfg /\ trace (Handler cfg json_error rt r) k (Some p)) as (cfg & k & Hn & Ht).
  { destruct hops; destruct H as (cfg & k & Hn & Ht & _); eauto. }
  exists cfg, k. split_and!; [done|done|]. intros url r' p' Hin. by destruct (handler_forwards _ _ _ _ _ _ _ _ Ht Hin) as [? _].
Qed.

Lemma one_hop hops i rt r p : serves hops i rt r p -> serves 1 i rt r p.
Proof.
  destruct hops as [|hops]; intros (cfg & k & Hn & Ht & Hf); exists cfg, k; (split_and!; [done|done|]); intros url r' p' Hin;
    specialize (Hf _ _ _ Hin); [done|]. destruct Hf as (j & Hj & Hs). exists j. split; [done|].
  destruct (handler_forwards _ _ _ _ _ _ _ _ Ht Hin) as (_ & -> & _). eapply marked_stays; [|exact Hs]. by rewrite forwarded_marked.
Qed.

(** ** What is told is true *)

Definition told (rt : Route) (r : Request) (p : Response) : Prop :=
  (is_post rt = true -> committed rt r p) /\ (is_get rt = true -> read_record rt r p).

(** A success is the replica's own, or relayed. *)
Lemma own_or_relayed i cfg rt r k p q : served_at i rt r cfg k -> conduct cfg rt r k (marks k) q ->
  rs_status p = rs_status q -> rs_body p = rs_body q -> rs_status p < 300 ->
  told rt r p \/ exists url r' p' whole, MForward url r' (inl p') ∈ marks k /\ q = relayed p' whole.
Proof.
  intros Hat Hc Es Eb Hs. assert (Hin : forall cmd res, MSubmit cmd res ∈ marks k -> Ev (ESubmit cmd) res ∈ k) by apply marks_submit.
  revert Hc Hin. generalize (marks k). intros ms Hc Hin. unfold told.
  destruct Hc as [q Hq|q Hp Hg|st q Hg Hr Ha|url r' ans q Hg Ha|cmd res q Hp Has Ha|cmd f q Hp Hq|cmd f url r' ans q Hp Hf Ha].
  - unfold refusal in Hq. lia.
  - left. by rewrite Hp, Hg.
  - left. split; [by destruct rt|]. intros _. destruct Ha as [_ Ha]. destruct (ReadTournament st (rq_id r)) as [t|] eqn:Et; [|lia].
    destruct Ha as [Ha Hb]. exists i, cfg, k, st, t. split_and!; [done|done|done|congruence|]. rewrite Eb. by destruct rt; rewrite Hb.
  - destruct ans as [p'|]; [|simpl in Ha; lia]. destruct Ha as [whole Ha]. right. exists url, r', p', whole. split; [set_solver|done].
  - left. split; [|by destruct rt]. intros _. unfold result_answer in Ha. destruct (res_code res) eqn:Ec; try lia.
    destruct Ha as (Hst & t & Hb). exists i, cfg, k, cmd, res. split_and!; [done|apply Hin; set_solver|done|done|congruence|].
    exists t. by rewrite Eb, Hb.
  - unfold refusal in Hq. lia.
  - destruct ans as [p'|]; [|simpl in Ha; lia]. destruct Ha as [whole Ha]. right. exists url, r', p', whole. split; [set_solver|done].
Qed.

Lemma told_relayed rt r p whole q : told rt (forwarded r (sent_body rt r)) p -> rs_status q = rs_status p ->
  rs_body q = rs_body (relayed p whole) -> told rt r q.
Proof.
  intros [H1 H2] Hs Hb. split; intros Hk.
  - by eapply committed_relayed; [|apply H1| |].
  - by eapply read_relayed; [apply H2| |].
Qed.

Lemma serves_told hops : forall i rt r p, serves hops i rt r p -> rs_status p < 300 -> told rt r p.
Proof.
  induction hops as [|hops IH]; intros i rt r p (cfg & k & Hn & Ht & Hf) Hs;
    destruct (handler_conduct _ _ _ _ _ Ht) as (q & Hc & Es & Eb).
  all: assert (Hat : served_at i rt r cfg k) by (split; [done|]; by exists r, p).
  all: destruct (own_or_relayed i cfg rt r k p q Hat Hc Es Eb Hs) as [|(url & r' & p' & whole & Hin & ->)]; [done|].
  all: apply marks_forward in Hin; destruct (handler_forwards _ _ _ _ _ _ _ _ Ht Hin) as (_ & -> & _); specialize (Hf _ _ _ Hin).
  - done.
  - destruct Hf as (j & _ & Hj). apply (told_relayed rt r p' whole); [|exact Es|exact Eb]. apply (IH j); [done|]. by rewrite Es in Hs.
Qed.

(** C15. An operator's request is forwarded at most once, whatever the replicas
    say of who leads; a request that is marked as forwarded is not forwarded
    again.  And whoever answers, a success is true: of a command, that a
    replica submitted one with the request's key and the operation its body
    spells, that its result was accepted, and that the answer's slot and seed
    are that result's; of a read, that a replica read this record from a state,
    behind a barrier unless the request asked for a stale read. *)
Theorem operator_answers_true hops i rt r p : serves hops i rt r p ->
  serves 1 i rt r p /\ (header r HeaderForwarded <> "" -> serves 0 i rt r p) /\ (rs_status p < 300 -> told rt r p).
Proof.
  intros H. split_and!; [exact (one_hop _ _ _ _ _ H)| |].
  - intros Hh. exact (marked_stays _ _ _ _ _ Hh H).
  - exact (serves_told _ _ _ _ _ H).
Qed.
End Cluster.

(** * A forwarded close *)

Section Demo.
#[local] Existing Instance ascii_unicode.

Definition demo_node (self : NodeID) : Config :=
  withDefaults (mkConfig self (<[1 := "http://n1"]> (<[2 := "http://n2"]> ∅)) 0 0).
Definition demo_nodes : gmap NodeID Config := <[1 := demo_node 1]> (<[2 := demo_node 2]> ∅).
Definition demo_reaches (url : string) (i : NodeID) : Prop := Peers (demo_node i) !! i = Some url.

Definition demo_close : Request :=
  mkRequest "POST" "/v1/tournaments/t1/close" "t1" "" {[HeaderIdempotencyKey := " close-t1 "]} [] None.
Definition demo_result : Result := mkResult OK false "" 7 0 zero_outcome.

(** The leader accepts the close; its record cannot be read. *)
Definition leader_reply (R : Type) (e : Eff R) : R :=
  match e with
  | ESeed => 0
  | ENow => 1789200000000 * 10 ^ 6
  | ELock _ => true
  | EUnlock _ => tt
  | ESubmit _ => inl demo_result
  | ERead _ => inr FDeadline
  | EStatus => mkStatus 1 1 Leader (mkBallot 1 1) true 0 0 [] 0
  | EForward _ _ => inr (NoAnswer "")
  | ECopy => true
  end.

Definition leader_run (r : Request) := run_with leader_reply (Handler (demo_node 1) (fun _ => "") RClose r).
Definition no_response : Response := mkResponse 0 ∅ (BText "").
Definition leader_answer : Response := default no_response (leader_run (forwarded demo_close [])).2.

(** Replica 2 knows the leader. *)
Definition follower_reply (R : Type) (e : Eff R) : R :=
  match e with
  | ESubmit _ => inr (SNotLeader 1)
  | EForward _ _ => inl leader_answer
  | e => leader_reply _ e
  end.

Definition follower_run := run_with follower_reply (Handler (demo_node 2) (fun _ => "") RClose demo_close).
Definition demo_answer : Response := default no_response follower_run.2.

Definition forwards (k : list event) : list (string * Request * (Response + ForwardFailure)) :=
  omap (fun m => match m with MForward url r ans => Some (url, r, ans) | _ => None end) (marks k).

Lemma forwards_in k url r ans : Ev (EForward url r) ans ∈ k -> (url, r, ans) ∈ forwards k.
Proof.
  intros H. apply list_elem_of_omap. exists (MForward url r ans). split; [|done]. apply list_elem_of_omap. by eexists.
Qed.

Lemma single_forward k u r a url r' p' : forwards k = [(u, r, inl a)] -> Ev (EForward url r') (inl p') ∈ k -> u = url /\ r' = r /\ p' = a.
Proof. intros Hk Hin. apply forwards_in in Hin. rewrite Hk in Hin. apply list_elem_of_singleton in Hin. by simplify_eq. Qed.

Lemma no_forward k url r ans : forwards k = [] -> Ev (EForward url r) ans ∈ k -> False.
Proof. intros Hk Hin. apply forwards_in in Hin. rewrite Hk in Hin. by apply elem_of_nil in Hin. Qed.

Lemma demo_forwards : forwards follower_run.1 = [("http://n1", forwarded demo_close [], inl leader_answer)] /\
  forwards (leader_run (forwarded demo_close [])).1 = [] /\
  follower_run.2 = Some demo_answer /\ (leader_run (forwarded demo_close [])).2 = Some leader_answer /\
  rs_status demo_answer = 200 /\ rs_body demo_answer = BCommand (mkCommandResponse OK false 7 0 None) /\
  map_to_list (rs_headers demo_answer) = [("Content-Type", "application/json"); (HeaderNode, "1")].
Proof. vm_compute. split_and!; reflexivity. Qed.

Lemma demo_serves : serves (fun _ => "") demo_nodes demo_reaches 1 2 RClose demo_close demo_answer.
Proof.
  destruct demo_forwards as (F2 & F1 & A2 & A1 & _).
  exists (demo_node 2), follower_run.1. split; [vm_compute; reflexivity|]. split; [exact (run_trace _ _ _ A2)|].
  intros url r' p' Hin. destruct (single_forward _ _ _ _ _ _ _ F2 Hin) as (<- & -> & ->).
  exists 1. split; [vm_compute; reflexivity|].
  exists (demo_node 1), (leader_run (forwarded demo_close [])).1. split; [vm_compute; reflexivity|]. split; [exact (run_trace _ _ _ A1)|].
  intros url r' p' H. by destruct (no_forward _ _ _ _ F1 H).
Qed.

Lemma operator_answers_true_witness : rs_status demo_answer = 200 /\
  rs_body demo_answer = BCommand (mkCommandResponse OK false 7 0 None) /\
  serves (fun _ => "") demo_nodes demo_reaches 1 2 RClose demo_close demo_answer /\
  committed (fun _ => "") demo_nodes RClose demo_close demo_answer.
Proof.
  destruct demo_forwards as (_ & _ & _ & _ & H1 & H2 & _).
  destruct (operator_answers_true (fun _ => "") demo_nodes demo_reaches 1 2 RClose demo_close demo_answer demo_serves) as (H & _ & Ht).
  split; [exact H1|]. split; [exact H2|]. split; [exact H|].
  refine (proj1 (Ht _) eq_refl). rewrite H1. reflexivity.
Defined.
End Demo.
