(* ===== verification/OperatorKeys.v ===== *)
(** The operators' requests of one replica, side by side (the in-flight set of
    internal/api/server.go).

    The history of a handler tells the key it holds ([held]): the one it locked
    and has not unlocked.  The calls [operator_conduct] allows make this a
    discipline of Serving.v, so no two requests submit commands of the same key
    at once, and no key stays in flight ([one_operator_command_per_key]). *)

From S2P Require Import Prelude Programs Serving GoStd Json Unmarshal Paxos Ledger Game Records Codec Commands State Replog Replica Api ApiSafety.

(** The keys after a call that returns [r]; [None] when it cannot. *)
Definition returns (R : Type) (e : Eff R) : R -> gset IdempotencyKey -> option (gset IdempotencyKey) :=
  match e in Eff R return R -> gset IdempotencyKey -> option (gset IdempotencyKey) with
  | ELock key => fun ok inflight => let '(ok', inflight') := lock_key inflight key in if bool_decide (ok = ok') then Some inflight' else None
  | EUnlock key => fun _ inflight => Some (unlock_key inflight key)
  | _ => fun _ inflight => Some inflight
  end.

Definition is_unlock (key : IdempotencyKey) (m : Mark) : bool := match m with MUnlock key' => bool_decide (key' = key) | _ => false end.

(** The key a history leaves locked. *)
Definition held_by (ms : list Mark) : option IdempotencyKey :=
  match ms with MLock key :: ms' => if existsb (is_unlock key) ms' then None else Some key | _ => None end.

Lemma existsb_unlock key ms : existsb (is_unlock key) ms = true <-> MUnlock key ∈ ms.
Proof.
  rewrite existsb_exists. setoid_rewrite <- list_elem_of_In. split.
  - intros ([key'|key'| |] & Hin & H); try done. apply bool_decide_eq_true in H as ->. done.
  - intros H. exists (MUnlock key). split; [done|]. simpl. by apply bool_decide_eq_true.
Qed.

Lemma held_snoc ms m : (forall key, m <> MLock key) -> (forall key, m <> MUnlock key) -> held_by (ms ++ [m]) = held_by ms.
Proof.
  intros Hl Hu. destruct ms as [|[key|key|cmd res|url r ans] ms]; simpl; try done.
  - destruct m; try done. by destruct (Hl key).
  - rewrite existsb_app. simpl. destruct (existsb (is_unlock key) ms); [done|]. destruct m as [|key'| |]; try done. by destruct (Hu key').
Qed.

Section Keys.
Context `{U : Unicode} (cfg : Config) (json_error : bytes -> string).

Definition handlers (p : prog (option Response)) : Prop := exists rt r, p = Handler cfg json_error rt r.
Notation serve := (Serving.serve handlers returns).

(** What is known of a handler being served: its route, its request and the
    calls it made. *)
Definition Known : Type := Route * Request * list event.
Definition held (x : Known) : option IdempotencyKey := held_by (marks x.2).
Definition fits (p : prog (option Response)) (x : Known) : Prop :=
  safe (allowed cfg x.1.1 x.1.2) p x.2 (fun h _ => held_by (marks h) = None).

Lemma conduct_released rt r h ms p : conduct cfg rt r h ms p -> held_by ms = None.
Proof. intros []; try done; simpl; by rewrite bool_decide_eq_true_2. Qed.

Lemma handler_fits rt r : fits (Handler cfg json_error rt r) (rt, r, []).
Proof.
  unfold fits, Handler. apply safe_pbind. eapply safe_mono; [|apply (answers_routed json_error)].
  intros h [a|q|] Ho; [done| |done]. simpl in *. by eapply conduct_released.
Qed.

(** A call changes the keys in flight as it changes the key held. *)
Lemma allowed_moves rt r h R (e : Eff R) x fl fl' : allowed cfg rt r h R e -> returns R e x fl = Some fl' ->
  moves held (rt, r, h) (rt, r, h ++ [Ev e x]) fl fl'.
Proof.
  unfold moves, held. cbn [fst snd]. rewrite marks_snoc.
  destruct e; cbn [allowed returns mark]; intros Ha Hr; try (injection Hr as <-; left; by rewrite app_nil_r).
  - destruct Ha as (Hm & _ & _). rewrite Hm. unfold lock_key in Hr. case_hyp Hr; b2p; case_hyp Hr; b2p; simplify_eq/=; [by left|].
    right; left. by exists key.
  - destruct Ha as (ms & Hm & Hn). rewrite Hm. injection Hr as <-. right; right. exists key. simpl.
    rewrite existsb_app. simpl. rewrite bool_decide_eq_true_2 by done. rewrite orb_true_r.
    destruct (existsb (is_unlock key) ms) eqn:E; [|done]. by apply existsb_unlock in E.
  - injection Hr as <-. left. split; [|done]. by apply held_snoc.
  - injection Hr as <-. left. split; [|done]. by apply held_snoc.
Qed.

Lemma histories_discipline : Discipline handlers returns fits held.
Proof.
  split.
  - intros p (rt & r & ->). exists (rt, r, []). split; [apply handler_fits|done].
  - intros R e k x [[rt r] h] fl fl' [Ha Hs] Hr. exists (rt, r, h ++ [Ev e x]). split; [apply Hs|by apply allowed_moves].
  - by intros o [[rt r] h].
Qed.

Definition submitting (p : prog (option Response)) (cmd : Command) : Prop := exists k, p = Call (ESubmit cmd) k.
Definition unlocking (key : IdempotencyKey) (R : Type) (e : Eff R) : bool := match e with EUnlock key' => bool_decide (key' = key) | _ => false end.

Lemma operator_submitting_held p cmd x : fits p x -> submitting p cmd -> held x = Some (cmd_key cmd).
Proof. intros Hf [k ->]. destruct Hf as [(Hm & _) _]. unfold held. by rewrite Hm. Qed.

(** A key that is held is unlocked on every run. *)
Lemma fits_unlocks p x key : fits p x -> held x = Some key -> inevitable (unlocking key) p.
Proof.
  destruct x as [[rt r] h]. unfold fits, held. cbn [fst snd]. revert h. induction p as [o|R e k IH]; intros h; simpl; [congruence|].
  intros [Ha Hs] Hk. destruct (unlocking key R e) eqn:Hu; [done|]. intros x. apply (IH x (h ++ [Ev e x])); [apply Hs|].
  rewrite marks_snoc. destruct e; cbn [mark]; rewrite ?app_nil_r; try done; [| |rewrite held_snoc by done; done..].
  - destruct Ha as [Hm _]. by rewrite Hm in Hk.
  - destruct Ha as (ms & Hm & Hn). rewrite Hm in Hk. simpl in Hk. case_hyp Hk; [done|]. simplify_eq. simpl in Hu. b2p. done.
Qed.

(** C17. One operator's command per key at a time: however many requests a
    replica serves side by side, and however their calls interleave and fail,
    no two of them submit commands with the same key at the same time; the key
    of a submitted command is in flight; and a key is in flight only while a
    request being served holds it, which then unlocks it on every run. *)
Theorem one_operator_command_per_key s : rtc serve idle s ->
  (forall i j p q cmd cmd', running s !! i = Some p -> running s !! j = Some q -> i <> j ->
     submitting p cmd -> submitting q cmd' -> cmd_key cmd <> cmd_key cmd') /\
  (forall i p cmd, running s !! i = Some p -> submitting p cmd -> cmd_key cmd ∈ inflight s) /\
  (forall key, key ∈ inflight s -> exists i p, running s !! i = Some p /\ inevitable (unlocking key) p).
Proof.
  intros Hs. destruct (serving_served _ _ _ _ histories_discipline s Hs) as [g S]. split_and!.
  - intros i j p q cmd cmd' Hi Hj Hne Hp Hq Hk. apply Hne.
    destruct (served_running _ _ _ _ _ _ S Hi) as (x & Gi & Fx). destruct (served_running _ _ _ _ _ _ S Hj) as (y & Gj & Fy).
    apply (served_apart _ _ _ _ _ _ _ _ _ _ _ S Gi Gj (operator_submitting_held _ _ _ Fx Hp)). rewrite Hk. by eapply operator_submitting_held.
  - intros i p cmd Hi Hp. destruct (served_running _ _ _ _ _ _ S Hi) as (x & Gi & Fx).
    exact (served_key _ _ _ _ _ _ _ _ S Gi (operator_submitting_held _ _ _ Fx Hp)).
  - intros key Hk. destruct (served_holder _ _ _ _ _ S Hk) as (i & p & x & Hi & Fx & Hx). exists i, p. split; [done|].
    by eapply fits_unlocks.
Qed.
End Keys.

(** * Two closes with one key *)

Section Demo.
#[local] Existing Instance ascii_unicode.

Definition demo_config : Config := withDefaults (mkConfig 1 {[1 := "http://n1"]} 0 0).
Definition demo_close : Request :=
  mkRequest "POST" "/v1/tournaments/t1/close" "t1" "" {[HeaderIdempotencyKey := "close-t1"]} [] None.
Definition demo_handler : prog (option Response) := Handler demo_config (fun _ => "") RClose demo_close.

(** A replica whose submissions time out. *)
Definition demo_reply (fl : gset IdempotencyKey) (R : Type) (e : Eff R) : R :=
  match e with
  | ESeed => 0
  | ENow => 1789200000000 * 10 ^ 6
  | ELock key => (lock_key fl key).1
  | EUnlock _ => tt
  | ESubmit _ => inr SDeadline
  | ERead _ => inr FDeadline
  | EStatus => mkStatus 1 1 Leader (mkBallot 1 1) true 0 0 [] 0
  | EForward _ _ => inr (NoAnswer "")
  | ECopy => true
  end.

(** The first is being submitted when the second tries its key. *)
Definition demo_serving : Serving (E := Eff) :=
  foldl (turn returns demo_reply) (mkServing ∅ (<[1%nat := demo_handler]> (<[0%nat := demo_handler]> ∅))) [0; 0; 1; 1]%nat.

Lemma operator_serving_reached : rtc (serve (handlers demo_config (fun _ => "")) returns) idle demo_serving.
Proof. apply turns_serve, pair_arrives; by exists RClose, demo_close. Qed.

Definition submitted_key (p : prog (option Response)) : option IdempotencyKey :=
  match p with @Call _ _ R e _ => match e with ESubmit cmd => Some (cmd_key cmd) | _ => None end | _ => None end.
Definition refused_with (p : prog (option Response)) : option Z := match p with Ret (Some r) => Some (rs_status r) | _ => None end.

Lemma operator_serving_run : (running demo_serving !! 0%nat ≫= submitted_key) = Some "close-t1" /\
  (running demo_serving !! 1%nat ≫= refused_with) = Some 409 /\ bool_decide ("close-t1" ∈ inflight demo_serving) = true.
Proof. vm_compute. split_and!; reflexivity. Qed.

Lemma one_operator_command_per_key_witness : (running demo_serving !! 0%nat ≫= submitted_key) = Some "close-t1" /\
  (running demo_serving !! 1%nat ≫= refused_with) = Some 409 /\
  exists i p, running demo_serving !! i = Some p /\ inevitable (unlocking "close-t1") p.
Proof.
  destruct operator_serving_run as (H0 & H1 & H2). split; [exact H0|]. split; [exact H1|].
  destruct (one_operator_command_per_key demo_config (fun _ => "") demo_serving operator_serving_reached) as (_ & _ & H).
  apply H, (bool_decide_eq_true _), H2.
Defined.
End Demo.
