(* ===== verification/Feed.v ===== *)
(** The debug feed (internal/debugfeed): the events a replica records, the
    ring buffer that keeps the latest of them, reads with and without waiting,
    and the HTTP handler that serves them.

    The theorems: a read accounts for every event after its cursor, in order:
    it was overwritten and counted, skipped as a heartbeat, or returned
    ([ring_read_accounts]), and so does a read that waits while others are
    appended ([ring_wait_accounts]); and what the feed records of a command is
    its operation and identifiers and nothing else ([feed_hides_values]). *)

From S2P Require Import Prelude GoStd Json Paxos Ledger Game Records Codec Commands Compute State Store Replog Replica.

(** * Events *)

Definition Capacity : Z := 4096.
Definition MaxSummarisedValue : Z := 16 * 1024.

Definition KindSend : string := "send".
Definition KindRecv : string := "recv".
Definition KindRole : string := "role".
Definition KindCommit : string := "commit".
Definition KindApplied : string := "applied".

Record Event := mkEvent {
  ev_seq : Z;
  ev_at_ms : Z;
  ev_node : NodeID;
  ev_kind : string;
  ev_from : NodeID;
  ev_to : NodeID;
  ev_type : string;
  ev_ballot_round : Z;
  ev_ballot_node : NodeID;
  ev_slot : Slot;
  ev_commit_index : Slot;
  ev_value : string;
  ev_detail : string;
}.

#[export] Instance Event_Fields : Fields Event :=
  fun e => mkEvent (ev_seq e) (ev_at_ms e) (ev_node e) (ev_kind e) (ev_from e) (ev_to e) (ev_type e)
    (ev_ballot_round e) (ev_ballot_node e) (ev_slot e) (ev_commit_index e) (ev_value e) (ev_detail e).

Definition zero_event : Event := mkEvent 0 0 0 "" 0 0 "" 0 0 0 0 "" "".

Definition heartbeat (e : Event) : bool :=
  (String.eqb (ev_kind e) KindSend || String.eqb (ev_kind e) KindRecv) &&
  (String.eqb (ev_type e) "heartbeat" || String.eqb (ev_type e) "heartbeat_ack").

Definition setBallot (b : Ballot) (e : Event) : Event :=
  e <| ev_ballot_round := bal_round b |> <| ev_ballot_node := bal_node b |>.

(** * The ring *)

(** [rg_wake] is whether [wake] is an open channel, that is, somebody waits. *)
Record Ring := mkRing { rg_buf : list Event; rg_last : Z; rg_wake : bool }.

(** [None] is the panic. *)
Definition NewRing (capacity : Z) : option Ring :=
  exit_if capacity <? 1 with None;
  Some (mkRing (repeat zero_event (Z.to_nat capacity)) 0 false).

(** Where the event numbered [s] is kept. *)
Definition cell (r : Ring) (s : Z) : nat := Z.to_nat (u64 (s - 1) mod len (rg_buf r)).

Definition Append (r : Ring) (ev : Event) : Ring * Z :=
  let last := u64 (rg_last r + 1) in
  let ev := ev <| ev_seq := last |> in
  (mkRing (<[cell r last := ev]> (rg_buf r)) last false, ev_seq ev).

Definition Last (r : Ring) : Z := rg_last r.

Record Page := mkPage { pg_next : Z; pg_dropped : Z; pg_events : list Event }.

(** The loop of [read] from the event numbered [s] on; every round raises [s],
    so the distance to the newest bounds it. *)
Fixpoint read_from (fuel : nat) (r : Ring) (s limit : Z) (heartbeats : bool) (p : Page) : Page :=
  match fuel with
  | O => p
  | S f =>
      exit_if negb ((s <=? rg_last r) && (len (pg_events p) <? limit)) with p;
      let ev := nth (cell r s) (rg_buf r) zero_event in
      let p := mkPage s (pg_dropped p) (if heartbeats || negb (heartbeat ev) then pg_events p ++ [ev] else pg_events p) in
      read_from f r (u64 (s + 1)) limit heartbeats p
  end.

Definition read (r : Ring) (after limit : Z) (heartbeats : bool) : Page :=
  let after := if rg_last r <? after then 0 else after in
  let limit := Z.max limit 1 in
  let first := u64 (after + 1) in
  let n := len (rg_buf r) in
  let '(first, dropped) :=
    if (n <? rg_last r) && (first <=? rg_last r - n)
    then let oldest := rg_last r - n + 1 in (oldest, oldest - first)
    else (first, 0) in
  read_from (Z.to_nat (rg_last r - first + 1)) r first limit heartbeats (mkPage after dropped []).

Definition Read := read.

(** ** Waiting *)

Definition appends (r : Ring) (evs : list Event) : Ring := fold_left (fun r ev => (Append r ev).1) evs r.

(** What ends one wait of [select]: the channel, closed by the first of some
    events that were appended before the waiter holds the lock again, or the
    timer or the context. *)
Inductive Wake := Woken (ev : Event) (more : list Event) | TimedOut.

(** The loop of [Wait], on what happens while it waits; the ring is shared, so
    it is returned too. *)
Fixpoint wait_loop (r : Ring) (p : Page) (limit : Z) (heartbeats : bool) (sched : list Wake) : Ring * Page :=
  let r := mkRing (rg_buf r) (rg_last r) true in
  match sched with
  | Woken ev more :: sched' =>
      let r := appends r (ev :: more) in
      let q := read r (pg_next p) limit heartbeats in
      let q := mkPage (pg_next q) (u64 (pg_dropped q + pg_dropped p)) (pg_events q) in
      exit_if 0 <? len (pg_events q) with (r, q);
      wait_loop r q limit heartbeats sched'
  | TimedOut :: _ | [] => (r, p)
  end.

Definition Wait (r : Ring) (after limit : Z) (heartbeats : bool) (wait : Z) (sched : list Wake) : Ring * Page :=
  let p := read r after limit heartbeats in
  exit_if (0 <? len (pg_events p)) || (wait <=? 0) with (r, p);
  wait_loop r p limit heartbeats sched.

(** * The feed *)

(** [fd_now] is the clock: the Unix milliseconds read when the event of a given
    number is recorded. *)
Record Feed := mkFeed { fd_self : NodeID; fd_ring : Ring; fd_now : Z -> Z }.

Definition New (self : NodeID) (now : Z -> Z) : option Feed := r ← NewRing Capacity; Some (mkFeed self r now).

Definition record (f : Feed) (ev : Event) : Feed :=
  let ev := ev <| ev_node := fd_self f |> in
  let ev := ev <| ev_at_ms := fd_now f (u64 (rg_last (fd_ring f) + 1)) |> in
  mkFeed (fd_self f) (Append (fd_ring f) ev).1 (fd_now f).

Definition shortID (s : string) : string :=
  exit_if MaxIDLen <? slen s with String.substring 0 (Z.to_nat MaxIDLen) s +:+ "..."; s.

Definition pair (t : TournamentID) (p : PlayerID) : string := shortID t +:+ "/" +:+ shortID p.

Definition SummariseOp (op : option Op) : string :=
  let name := OpName op in
  match op with
  | Some (CreateTournament id _ _) => name +:+ " " +:+ shortID id
  | Some (Join t p) => name +:+ " " +:+ pair t (pl_id p)
  | Some (SubmitScore t p _ _ _) => name +:+ " " +:+ pair t p
  | Some (Close t) => name +:+ " " +:+ shortID t
  | Some (Settle t _) => name +:+ " " +:+ shortID t
  | Some (OpenSession _ _ p _ _) => name +:+ " " +:+ shortID p
  | Some (Enter t p _) => name +:+ " " +:+ pair t p
  | Some (StartRound t p _ r _) => name +:+ " " +:+ pair t p +:+ " r" +:+ itoa r
  | Some (PlayMove t p _ r i _) => name +:+ " " +:+ pair t p +:+ " r" +:+ itoa r +:+ " m" +:+ itoa i
  | Some (FinishRound t p _ r) => name +:+ " " +:+ pair t p +:+ " r" +:+ itoa r
  | Some (ClaimPayout t p _) => name +:+ " " +:+ pair t p
  | None => "unknown"
  end.

Section Recording.
Context `{U : Unicode}.

Definition SummariseValue (v : Value) : string :=
  exit_if slen v =? 0 with "noop";
  exit_if MaxSummarisedValue <? slen v with "value " +:+ itoa (slen v) +:+ " bytes";
  match Decode (bytes_of v) with
  | inr _ => "undecodable"
  | inl cmd => SummariseOp (cmd_op cmd)
  end.

Definition accepted_detail (l : list PValue) : string :=
  "accepted " +:+ itoa (len l) +:+
  match head l, last l with
  | Some a, Some z => ", slots " +:+ itoa (pv_slot a) +:+ "-" +:+ itoa (pv_slot z)
  | _, _ => ""
  end.

Definition messageEvent (kind : string) (env : Envelope) : Event :=
  let ev := zero_event <| ev_kind := kind |> <| ev_from := env_from env |> <| ev_to := env_to env |>
              <| ev_type := TypeName (env_msg env) |> in
  match env_msg env with
  | Prepare b s => setBallot b ev <| ev_slot := s |>
  | Promise p => setBallot (p_ballot p) ev <| ev_commit_index := p_commit p |> <| ev_detail := accepted_detail (p_accepted p) |>
  | Accept b s v => setBallot b ev <| ev_slot := s |> <| ev_value := SummariseValue v |>
  | Accepted b s => setBallot b ev <| ev_slot := s |>
  | Nack b p s l =>
      setBallot b ev <| ev_slot := s |> <| ev_detail := "promised " +:+ Ballot_String p +:+
        (if 0 <? l then ", lease " +:+ itoa (Z.quot l 1000000) +:+ "ms" else "") |>
  | Learn s b v => setBallot b ev <| ev_slot := s |> <| ev_value := SummariseValue v |>
  | LearnRequest s n => ev <| ev_slot := s |> <| ev_detail := "max " +:+ itoa n |>
  | Heartbeat b c q =>
      setBallot b ev <| ev_commit_index := c |> <| ev_detail := if q =? 0 then "" else "read_seq " +:+ itoa q |>
  | HeartbeatAck b p c q =>
      setBallot b ev <| ev_commit_index := c |> <| ev_detail := "promised " +:+ Ballot_String p +:+
        (if q =? 0 then "" else ", read_seq " +:+ itoa q) |>
  end.

Definition Sent (env : Envelope) (f : Feed) : Feed := record f (messageEvent KindSend env).
Definition Received (env : Envelope) (f : Feed) : Feed := record f (messageEvent KindRecv env).

(** The role event of [Changed], its commit event, and the event of one applied
    slot. *)
Definition role_event (cur : Status) : Event :=
  setBallot (sta_ballot cur) (zero_event <| ev_kind := KindRole |> <| ev_type := Role_String (role_u8 (sta_role cur)) |>
    <| ev_commit_index := sta_commit cur |>
    <| ev_detail := if sta_leader cur =? 0 then "leader unknown" else "leader " +:+ itoa (sta_leader cur) |>).

Definition commit_event (prev cur : Status) : Event :=
  setBallot (sta_ballot cur) (zero_event <| ev_kind := KindCommit |> <| ev_commit_index := sta_commit cur |>
    <| ev_detail := "from " +:+ itoa (sta_commit prev) |>).

Definition applied_event (cur : Status) (a : Applied) : Event :=
  let ev := setBallot (sta_ballot cur) (zero_event <| ev_kind := KindApplied |> <| ev_slot := ap_slot a |>
              <| ev_commit_index := sta_commit cur |>) in
  match ap_err a with
  | Some _ => ev <| ev_value := "undecodable" |> <| ev_detail := "skipped" |>
  | None =>
      exit_if ap_noop a with ev <| ev_value := "noop" |>;
      match ap_cmd a with
      | Some (cmd, res) =>
          ev <| ev_value := SummariseOp (cmd_op cmd) |>
             <| ev_detail := code_text (res_code res) +:+ (if res_replayed res then ", replayed" else "") |>
      | None => ev <| ev_value := SummariseOp None |>
      end
  end.

Definition Changed (prev cur : Status) (applied : list Applied) (f : Feed) : Feed :=
  let f := if negb (bool_decide (sta_role cur = sta_role prev)) || negb (sta_leader cur =? sta_leader prev)
              || negb (bool_decide (sta_ballot cur = sta_ballot prev))
           then record f (role_event cur) else f in
  let f := if sta_commit prev <? sta_commit cur then record f (commit_event prev cur) else f in
  fold_left (fun f a => record f (applied_event cur a)) applied f.

End Recording.

(** * The handler *)

Definition MaxLimit : Z := 1024.
Definition DefaultLimit : Z := 256.
(** In milliseconds. *)
Definition MaxWait : Z := 2000.

(** [url.Values]. *)
Abbreviation Values := (gmap string (list string)) (only parsing).

Record Answer := mkAnswer { an_status : Z; an_headers : list (string * string); an_body : bytes }.

Definition StatusText (status : Z) : string := if status =? 400 then "Bad Request" else "Method Not Allowed".

(** An [Encoder] ends the value with a line break. *)
Definition encode_line (j : json) : bytes := marshal j ++ [10].

Definition writeProblem (headers : list (string * string)) (status : Z) (code detail : string) : Answer :=
  mkAnswer status (headers ++ [("Content-Type", "application/problem+json")])
    (encode_line (JObj ([("type", JStr "about:blank"); ("title", JStr (StatusText status)); ("status", JNum status)] ++
                        (if slen detail =? 0 then [] else [("detail", JStr detail)]) ++ [("code", JStr code)]))).

Definition queryUint (q : Values) (name : string) (def lo hi : Z) : Z + Answer :=
  match q !! name with
  | None => inl def
  | Some vs =>
      let bad := inr (writeProblem [] 400 "malformed_request"
                        (name +:+ " must be an integer from " +:+ itoa lo +:+ " to " +:+ itoa hi)) in
      match parse_uint (bytes_of (default "" (head vs))) with
      | Some n => if (2 ^ 64 <=? n) || (n <? lo) || (hi <? n) then bad else inl n
      | None => bad
      end
  end.

Definition event_json (e : Event) : json :=
  JObj [("seq", JNum (ev_seq e)); ("at_ms", JNum (ev_at_ms e)); ("node", JNum (ev_node e)); ("kind", JStr (ev_kind e));
        ("from", JNum (ev_from e)); ("to", JNum (ev_to e)); ("type", JStr (ev_type e)); ("ballot_round", JNum (ev_ballot_round e));
        ("ballot_node", JNum (ev_ballot_node e)); ("slot", JNum (ev_slot e)); ("commit_index", JNum (ev_commit_index e));
        ("value", JStr (ev_value e)); ("detail", JStr (ev_detail e))].

Definition Response (self : NodeID) (p : Page) : json :=
  JObj [("node", JNum self); ("next", JNum (pg_next p)); ("dropped", JNum (pg_dropped p)); ("events", JArr (map event_json (pg_events p)))].

(** The handler, with what happens while it waits. *)
Definition Handler (f : Feed) (method : string) (q : Values) (sched : list Wake) : Feed * Answer :=
  exit_if negb (String.eqb method "GET") && negb (String.eqb method "HEAD")
    with (f, writeProblem [("Allow", "GET, HEAD")] 405 "method_not_allowed" "the debug feed is read-only");
  match queryUint q "after" 0 0 (2 ^ 64 - 1) with inr a => (f, a) | inl after =>
  match queryUint q "limit" DefaultLimit 1 MaxLimit with inr a => (f, a) | inl limit =>
  match queryUint q "wait_ms" 0 0 MaxWait with inr a => (f, a) | inl waitMs =>
  match queryUint q "heartbeats" 0 0 1 with inr a => (f, a) | inl heartbeats =>
    let '(r, p) := Wait (fd_ring f) after limit (heartbeats =? 1) waitMs sched in
    (mkFeed (fd_self f) r (fd_now f),
     mkAnswer 200 [("Content-Type", "application/json"); ("Cache-Control", "no-store")] (encode_line (Response (fd_self f) p)))
  end end end end.

(** ** What a read accounts for *)

(** The events of a history under their numbers, and those after the first [a]
    up to the [b]th. *)
Definition stamped (h : list Event) : list Event := imap (fun i ev => ev <| ev_seq := Z.of_nat i + 1 |>) h.
Definition between (h : list Event) (a b : Z) : list Event := drop (Z.to_nat a) (take (Z.to_nat b) (stamped h)).
Definition shown (heartbeats : bool) (e : Event) : bool := heartbeats || negb (heartbeat e).

(** The ring after the events [h]. *)
Record ring_at (n : Z) (h : list Event) (r : Ring) : Prop := {
  ra_size : len (rg_buf r) = n;
  ra_pos : 1 <= n;
  ra_last : rg_last r = len h;
  ra_fits : len h < 2 ^ 64;
  ra_cells : forall s, 1 <= s <= len h -> len h - n < s -> rg_buf r !! cell r s = stamped h !! Z.to_nat (s - 1);
}.

Lemma stamped_length h : length (stamped h) = length h.
Proof. apply length_imap. Qed.

Lemma stamped_snoc h ev : stamped (h ++ [ev]) = stamped h ++ [ev <| ev_seq := len h + 1 |>].
Proof.
  unfold stamped, len. rewrite imap_app. cbn [imap].
  f_equal. f_equal. f_equal. lia.
Qed.

Lemma cell_at n h r s : ring_at n h r -> 1 <= s <= 2 ^ 64 -> cell r s = Z.to_nat ((s - 1) mod n).
Proof. intros A Hs. unfold cell. rewrite (ra_size _ _ _ A), u64_id by (unfold in_u64; lia). done. Qed.

Lemma NewRing_at n r : NewRing n = Some r -> ring_at n [] r.
Proof.
  unfold NewRing. destruct (Z.ltb_spec n 1); [done|]. intros [= <-]. split; cbn; try done.
  - unfold len. rewrite repeat_length. lia.
  - unfold len in *. cbn. lia.
Qed.

Lemma mod_apart n a b : 0 < n -> a < b < a + n -> a mod n <> b mod n.
Proof.
  intros Hn Hab E. pose proof (Z.div_mod a n ltac:(lia)). pose proof (Z.div_mod b n ltac:(lia)).
  assert (b - a = n * (b / n - a / n)) by lia. assert (0 < b / n - a / n < 1) by nia. lia.
Qed.

Lemma Append_at n h r ev : ring_at n h r -> len h + 1 < 2 ^ 64 -> ring_at n (h ++ [ev]) (Append r ev).1 /\ (Append r ev).2 = len h + 1.
Proof.
  intros A Hf. pose proof A as [S P L F C]. unfold Append. cbn [fst snd].
  rewrite L, u64_id by (unfold in_u64; pose proof (len_nonneg h); lia). split; [|done].
  pose proof (len_nonneg h). assert (E1 : len (h ++ [ev]) = len h + 1) by (rewrite len_app; done).
  set (e := ev <| ev_seq := len h + 1 |>). assert (Hc : (cell r (len h + 1) < length (rg_buf r))%nat).
  { rewrite (cell_at n h) by (done || lia). unfold len in S. pose proof (Z.mod_pos_bound (len h + 1 - 1) n). lia. }
  split; cbn; [unfold len; by rewrite length_insert|done|by rewrite E1|by rewrite E1|].
  rewrite E1, stamped_snoc. fold e. intros s Hs Hn.
  assert (Ec : cell (mkRing (<[cell r (len h + 1):=e]> (rg_buf r)) (len h + 1) false) s = cell r s).
  { unfold cell at 1 3. cbn [rg_buf]. do 2 f_equal. unfold len. by rewrite length_insert. }
  rewrite Ec. destruct (Z.eq_dec s (len h + 1)) as [-> |Hne].
  - rewrite list_lookup_insert_eq by done. rewrite lookup_app_r by (rewrite stamped_length; unfold len; lia).
    rewrite stamped_length. replace (Z.to_nat (len h + 1 - 1) - length h)%nat with O by (unfold len; lia). done.
  - rewrite list_lookup_insert_ne.
    + rewrite C by lia. rewrite lookup_app_l by (rewrite stamped_length; unfold len in *; lia). done.
    + rewrite !(cell_at n h) by (done || lia). intros Em.
      assert (Eq : (s - 1) mod n = (len h + 1 - 1) mod n).
      { pose proof (Z.mod_pos_bound (s - 1) n). pose proof (Z.mod_pos_bound (len h + 1 - 1) n). lia. }
      by apply (mod_apart n (s - 1) (len h + 1 - 1)) in Eq; [|lia..].
Qed.

Lemma appends_at n h r evs : ring_at n h r -> len h + len evs < 2 ^ 64 -> ring_at n (h ++ evs) (appends r evs).
Proof.
  revert h r. induction evs as [|ev evs IH]; intros h r A Hf; [by rewrite app_nil_r|]. rewrite len_cons in Hf.
  pose proof (len_nonneg evs). destruct (Append_at n h r ev A) as [A1 _]; [lia|].
  apply IH in A1; [by rewrite <- app_assoc in A1|rewrite len_app; change (len [ev]) with 1; lia].
Qed.

Lemma between_step h s e x : 1 <= s <= e -> stamped h !! Z.to_nat (s - 1) = Some x -> between h (s - 1) e = x :: between h s e.
Proof.
  intros Hs Hx. unfold between. rewrite (drop_S _ x (Z.to_nat (s - 1))).
  - do 2 f_equal. lia.
  - rewrite lookup_take_lt by lia. done.
Qed.

Lemma between_empty h a : between h a a = [].
Proof. unfold between. apply drop_ge. rewrite length_take. lia. Qed.

(** The loop examines the events from [s] to some [e], and stops at the newest
    or at the limit. *)
Lemma read_from_spec n h r hb limit : ring_at n h r -> len h + 1 < 2 ^ 64 -> forall k s p,
  k = Z.to_nat (len h - s + 1) -> 1 <= s <= len h + 1 -> len h - n < s -> len (pg_events p) <= limit ->
  exists e, s - 1 <= e <= len h /\
    read_from k r s limit hb p =
      mkPage (if s - 1 <? e then e else pg_next p) (pg_dropped p) (pg_events p ++ List.filter (shown hb) (between h (s - 1) e)) /\
    len (pg_events p ++ List.filter (shown hb) (between h (s - 1) e)) <= limit /\
    (e = len h \/ len (pg_events p ++ List.filter (shown hb) (between h (s - 1) e)) = limit) /\
    (s <= len h -> len (pg_events p) < limit -> s <= e).
Proof.
  intros A Hf k. induction k as [|k IH]; intros s p Hk Hs Hn Hl.
  { assert (s = len h + 1) as -> by lia. exists (len h). replace (len h + 1 - 1) with (len h) by lia.
    rewrite between_empty, Z.ltb_irrefl. cbn. rewrite app_nil_r. destruct p. split_and!; try done; try (by left); lia. }
  cbn [read_from]. rewrite (ra_last _ _ _ A). destruct (Z.leb_spec s (len h)) as [Hs2|]; [|lia]. cbn [andb].
  destruct (Z.ltb_spec (len (pg_events p)) limit) as [Hl2|]; cbn [negb].
  2:{ exists (s - 1). rewrite between_empty, Z.ltb_irrefl. cbn. rewrite app_nil_r. destruct p; cbn in *. split_and!; try done; lia. }
  assert (Hx : exists x, stamped h !! Z.to_nat (s - 1) = Some x).
  { apply lookup_lt_is_Some. rewrite stamped_length. unfold len in *. lia. }
  destruct Hx as [x Hx]. rewrite (nth_lookup_Some (rg_buf r) (cell r s) zero_event x).
  2:{ rewrite (ra_cells _ _ _ A) by lia. exact Hx. }
  rewrite u64_id by (unfold in_u64; lia).
  set (p2 := mkPage s (pg_dropped p) (if hb || negb (heartbeat x) then pg_events p ++ [x] else pg_events p)).
  assert (El : forall l, pg_events p2 ++ List.filter (shown hb) l = pg_events p ++ List.filter (shown hb) (x :: l)).
  { intros l. cbn. fold (shown hb x). destruct (shown hb x); [by rewrite <- app_assoc|done]. }
  destruct (IH (s + 1) p2) as (e & He & E & H1 & H2 & H3); [lia|lia|lia| |].
  { cbn. destruct (hb || _); [rewrite len_app; change (len [x]) with 1|]; lia. }
  exists e. replace (s + 1 - 1) with s in * by lia. rewrite (between_step h s e x) by (done || lia). rewrite El in *.
  split_and!; [lia|lia| |done|done|lia]. rewrite E. change (pg_next p2) with s. change (pg_dropped p2) with (pg_dropped p).
  replace (s - 1 <? e) with true by lia. f_equal. destruct (Z.ltb_spec s e); lia.
Qed.

(** What a page taken from the cursor [after] says of the history [h]: between
    the cursor and [pg_next], the events that were not overwritten before the
    read reached them were examined in order and those that are shown
    returned. *)
Definition accounts (h : list Event) (after : Z) (hb : bool) (p : Page) : Prop :=
  after <= pg_next p <= len h /\ exists examined, sublist examined (between h after (pg_next p)) /\
    pg_events p = List.filter (shown hb) examined /\ len examined + pg_dropped p = pg_next p - after.

Lemma between_length h a b : 0 <= a <= b -> b <= len h -> len (between h a b) = b - a.
Proof. intros Ha Hb. unfold between, len. rewrite length_drop, length_take, stamped_length. unfold len in Hb. lia. Qed.

Lemma between_drop h a b c : 0 <= a <= b -> between h b c = drop (Z.to_nat (b - a)) (between h a c).
Proof. intros H. unfold between. rewrite drop_drop. f_equal. lia. Qed.

Lemma between_sublist h a b c : 0 <= a <= b -> sublist (between h b c) (between h a c).
Proof. intros H. rewrite (between_drop h a b c H). apply sublist_drop. Qed.

(** [read] from a cursor that is not ahead. *)
Lemma read_spec n h r after limit hb : ring_at n h r -> len h + 1 < 2 ^ 64 -> 0 <= after <= len h ->
  let p := read r after limit hb in
  accounts h after hb p /\ pg_dropped p = Z.max 0 (len h - n - after) /\
  pg_events p = List.filter (shown hb) (between h (after + pg_dropped p) (pg_next p)) /\
  len (pg_events p) <= Z.max limit 1 /\ (pg_next p = len h \/ len (pg_events p) = Z.max limit 1) /\
  (after < len h -> after < pg_next p).
Proof.
  intros A Hf Ha. unfold read. rewrite (ra_last _ _ _ A), (ra_size _ _ _ A). pose proof (ra_pos _ _ _ A) as Hn.
  destruct (Z.ltb_spec (len h) after); [lia|]. cbv zeta. rewrite u64_id by (unfold in_u64; lia).
  set (d := Z.max 0 (len h - n - after)).
  replace (if (n <? len h) && (after + 1 <=? len h - n) then (len h - n + 1, len h - n + 1 - (after + 1)) else (after + 1, 0))
    with (after + d + 1, d).
  2:{ destruct (Z.ltb_spec n (len h)), (Z.leb_spec (after + 1) (len h - n)); cbn [andb]; f_equal; lia. }
  destruct (read_from_spec n h r hb (Z.max limit 1) A Hf (Z.to_nat (len h - (after + d + 1) + 1)) (after + d + 1) (mkPage after d []))
    as (e & He & -> & H1 & H2 & H3); [done|lia|lia|change (0 <= Z.max limit 1); lia|].
  cbn [pg_events pg_next pg_dropped app] in *. replace (after + d + 1 - 1) with (after + d) in * by lia.
  change (len []) with 0 in H3.
  assert (En : (if after + d <? e then e else after) = e).
  { destruct (Z.ltb_spec (after + d) e); [done|]. lia. }
  rewrite En. split_and!; try done; try lia.
  split; [cbn; lia|]. cbn [pg_next pg_events pg_dropped]. exists (between h (after + d) e). split_and!; [apply between_sublist; lia|done|].
  rewrite between_length; lia.
Qed.

(** A cursor ahead of the newest event is the start. *)
Lemma read_from_start n h r after limit hb : ring_at n h r ->
  read r (if len h <? after then 0 else after) limit hb = read r after limit hb.
Proof.
  intros A. unfold read. rewrite (ra_last _ _ _ A). pose proof (len_nonneg h). destruct (Z.ltb_spec (len h) after) as [|Hle].
  - by destruct (Z.ltb_spec (len h) 0); [lia|].
  - by destruct (Z.ltb_spec (len h) after); [lia|].
Qed.

(** No event is lost or repeated without being counted: a read of the ring
    after any history, from any cursor, returns in order the shown events
    between two numbers; what lies between the cursor and the first of them is
    exactly what was overwritten, and [Dropped] its count; the read goes on to
    the newest event or to the limit, and always past the cursor unless there
    is nothing new.  A cursor ahead of the newest event reads from the start. *)
Theorem ring_read_accounts (n : Z) (r0 : Ring) (h : list Event) (after limit : Z) (hb : bool) :
  NewRing n = Some r0 -> len h + 1 < 2 ^ 64 -> 0 <= after ->
  let from := if len h <? after then 0 else after in
  let p := Read (appends r0 h) after limit hb in
  pg_dropped p = Z.max 0 (len h - n - from) /\ from + pg_dropped p <= pg_next p <= len h /\
  pg_events p = List.filter (shown hb) (between h (from + pg_dropped p) (pg_next p)) /\
  len (pg_events p) <= Z.max limit 1 /\ (pg_next p = len h \/ len (pg_events p) = Z.max limit 1) /\
  (from < len h -> from < pg_next p).
Proof.
  intros Hr Hf Ha. pose proof (NewRing_at n r0 Hr) as A0. apply (appends_at n [] r0 h) in A0; [|change (0 + len h < 2 ^ 64); lia]. cbn [app] in A0.
  cbv zeta. pose proof (len_nonneg h). set (from := if len h <? after then 0 else after).
  assert (Hfrom : 0 <= from <= len h) by (unfold from; destruct (Z.ltb_spec (len h) after); lia).
  unfold Read. rewrite <- (read_from_start n h _ after limit hb A0). fold from.
  destruct (read_spec n h _ from limit hb A0 Hf Hfrom) as ((H1 & ex & _ & _ & H2) & H3 & H4 & H5 & H6 & H7).
  pose proof (len_nonneg ex). split_and!; try done; lia.
Qed.

(** ** What a waiting read accounts for *)

Lemma stamped_prefix h more : exists t, stamped (h ++ more) = stamped h ++ t.
Proof. unfold stamped. rewrite imap_app. eauto. Qed.

Lemma between_prefix h more a b : b <= len h -> between (h ++ more) a b = between h a b.
Proof.
  intros Hb. unfold between. destruct (stamped_prefix h more) as [t ->]. f_equal. apply take_app_le.
  rewrite stamped_length. unfold len in Hb. lia.
Qed.

Lemma between_app h a b c : 0 <= a <= b -> b <= c -> between h a b ++ between h b c = between h a c.
Proof.
  intros Ha Hb. unfold between. rewrite <- (take_drop (Z.to_nat (b - a)) (drop (Z.to_nat a) (take (Z.to_nat c) (stamped h)))).
  rewrite drop_drop, take_drop_commute, take_take. f_equal; repeat f_equal; lia.
Qed.

(** A page that returned nothing, and the read from where it stopped. *)
Lemma accounts_next h more after hb p q : 0 <= after -> pg_events p = [] -> accounts h after hb p ->
  accounts (h ++ more) (pg_next p) hb q ->
  accounts (h ++ more) after hb (mkPage (pg_next q) (pg_dropped q + pg_dropped p) (pg_events q)).
Proof.
  intros Ha Hp (Hn & ex & Hs & He & Hl) (Hn' & ex' & Hs' & He' & Hl'). split; [cbn; lia|]. exists (ex ++ ex'). cbn.
  split_and!; [|rewrite List.filter_app, <- He, <- He', Hp; done|rewrite len_app; lia].
  rewrite <- (between_app _ after (pg_next p)) by lia. apply sublist_app; [|done]. by rewrite between_prefix by lia.
Qed.

Lemma accounts_range h after hb p : 0 <= after -> accounts h after hb p -> 0 <= pg_dropped p <= len h.
Proof.
  intros Ha (Hn & ex & Hs & _ & Hl). apply sublist_length in Hs. pose proof (between_length h after (pg_next p) ltac:(lia) ltac:(lia)) as E.
  unfold len in *. lia.
Qed.

Fixpoint wakes (sched : list Wake) : list Event :=
  match sched with Woken ev more :: sched' => (ev :: more) ++ wakes sched' | TimedOut :: _ | [] => [] end.

Lemma ring_at_wake n h r w : ring_at n h r -> ring_at n h (mkRing (rg_buf r) (rg_last r) w).
Proof. intros [S P L F C]. by split. Qed.

Lemma wait_loop_spec n limit hb after sched h r p : ring_at n h r -> 0 <= after -> len h + len (wakes sched) + 1 < 2 ^ 64 ->
  accounts h after hb p -> pg_events p = [] ->
  let '(r', q) := wait_loop r p limit hb sched in exists evs, ring_at n (h ++ evs) r' /\ prefix evs (wakes sched) /\
    accounts (h ++ evs) after hb q /\ len (pg_events q) <= Z.max limit 1 /\ (pg_events q = [] -> evs = wakes sched).
Proof.
  intros A Ha Hf Hp He. revert h r p A Hf Hp He. induction sched as [|[ev more|] sched IH]; intros h r p A Hf Hp He; cbn [wait_loop].
  - exists []. rewrite app_nil_r, He. split_and!; [by apply ring_at_wake|done|done|change (0 <= Z.max limit 1); lia|done].
  - cbn [wakes] in *. rewrite len_app in Hf. set (r1 := appends _ _). pose proof (len_nonneg (wakes sched)).
    assert (A1 : ring_at n (h ++ ev :: more) r1) by (apply appends_at; [by apply ring_at_wake|lia]).
    assert (Hn : after <= pg_next p <= len h) by apply Hp.
    assert (Hl : len (h ++ ev :: more) = len h + len (ev :: more)) by apply len_app. pose proof (len_nonneg (ev :: more)).
    pose proof (read_spec n _ r1 (pg_next p) limit hb A1 ltac:(lia) ltac:(lia)) as (Hq & _ & _ & Hlim & _ & _).
    set (q := read r1 (pg_next p) limit hb) in *.
    pose proof (accounts_next h (ev :: more) after hb p q Ha He Hp Hq) as Hc.
    assert (Ed : u64 (pg_dropped q + pg_dropped p) = pg_dropped q + pg_dropped p).
    { apply u64_id. apply accounts_range in Hc; [|done]. cbn in Hc. unfold in_u64. lia. }
    rewrite Ed. cbn [pg_events]. destruct (Z.ltb_spec 0 (len (pg_events q))) as [Hpos|Hz].
    + exists (ev :: more). split_and!; [done|by apply prefix_app_r|done|done|]. cbn. intros E. by rewrite E in Hpos.
    + assert (E0 : pg_events q = []) by (apply len_zero; pose proof (len_nonneg (pg_events q)); lia).
      specialize (IH (h ++ ev :: more) r1 _ A1 ltac:(lia) Hc E0). destruct (wait_loop _ _ _ _ _) as [r' q'].
      destruct IH as (evs & H1 & H2 & H3 & H4 & H5). exists ((ev :: more) ++ evs). rewrite app_assoc.
      split_and!; try done; [by apply prefix_app|]. intros E. by rewrite H5.
  - exists []. rewrite app_nil_r, He. split_and!; [by apply ring_at_wake|apply prefix_nil|done|change (0 <= Z.max limit 1); lia|done].
Qed.

(** So does a read that waits: whatever is appended while it sleeps, the
    page it ends with accounts for every event between the cursor and
    [pg_next], overwritten ones counted even when that happened between two
    wakes, and it comes back empty only when nothing that was appended is shown
    and the wait is over. *)
Theorem ring_wait_accounts (n : Z) (r0 : Ring) (h : list Event) (after limit : Z) (hb : bool) (wait : Z) (sched : list Wake) :
  NewRing n = Some r0 -> len h + len (wakes sched) + 1 < 2 ^ 64 -> 0 <= after ->
  let from := if len h <? after then 0 else after in
  let '(r, p) := Wait (appends r0 h) after limit hb wait sched in
  exists evs, ring_at n (h ++ evs) r /\ prefix evs (wakes sched) /\ accounts (h ++ evs) from hb p /\
    len (pg_events p) <= Z.max limit 1 /\ (pg_events p = [] -> evs = wakes sched \/ wait <= 0).
Proof.
  intros Hr Hf Ha. pose proof (NewRing_at n r0 Hr) as A. pose proof (len_nonneg (wakes sched)). pose proof (len_nonneg h).
  apply (appends_at n [] r0 h) in A; [|change (0 + len h < 2 ^ 64); lia]. cbn [app] in A.
  cbv zeta. set (from := if len h <? after then 0 else after).
  assert (Hfrom : 0 <= from <= len h) by (unfold from; destruct (Z.ltb_spec (len h) after); lia).
  unfold Wait. rewrite <- (read_from_start n h _ after limit hb A). fold from.
  destruct (read_spec n h _ from limit hb A ltac:(lia) Hfrom) as (Hp & _ & _ & Hl & _ & _).
  set (p := read (appends r0 h) from limit hb) in *.
  destruct (Z.ltb_spec 0 (len (pg_events p))) as [Hpos|Hz]; cbn [orb].
  { exists []. rewrite app_nil_r. split_and!; try done; [apply prefix_nil|]. intros E. by rewrite E in Hpos. }
  assert (E0 : pg_events p = []) by (apply len_zero; pose proof (len_nonneg (pg_events p)); lia).
  destruct (Z.leb_spec wait 0); [exists []; rewrite app_nil_r; split_and!; try done; [apply prefix_nil|by right]|].
  pose proof (wait_loop_spec n limit hb from sched h _ p A (proj1 Hfrom) Hf Hp E0) as W. destruct (wait_loop _ _ _ _ _) as [r q].
  destruct W as (evs & W1 & W2 & W3 & W4 & W5). exists evs. split_and!; auto.
Qed.

(** ** What the feed never shows *)

(** What a command shows: its operation, the tournament and player it
    addresses, the round and the move index. *)
Definition visible (op : Op) : string * TournamentID * PlayerID * Z * Z :=
  let name := OpName (Some op) in
  match op with
  | CreateTournament id _ _ => (name, id, "", 0, 0)
  | Join t p => (name, t, pl_id p, 0, 0)
  | SubmitScore t p _ _ _ => (name, t, p, 0, 0)
  | Close t | Settle t _ => (name, t, "", 0, 0)
  | OpenSession _ _ p _ _ => (name, "", p, 0, 0)
  | Enter t p _ | ClaimPayout t p _ => (name, t, p, 0, 0)
  | StartRound t p _ r _ | FinishRound t p _ r => (name, t, p, r, 0)
  | PlayMove t p _ r i _ => (name, t, p, r, i)
  end.

Lemma SummariseOp_visible op op' : visible op = visible op' -> SummariseOp (Some op) = SummariseOp (Some op').
Proof. destruct op, op'; cbn; intros [=]; subst; try done; congruence. Qed.

Lemma visible_canonical op : visible (Canonical_op op) = visible op.
Proof. by destruct op. Qed.

Lemma head_last_slots (l l' : list PValue) : map pv_slot l = map pv_slot l' -> accepted_detail l = accepted_detail l'.
Proof.
  intros E. unfold accepted_detail. assert (El : len l = len l').
  { apply (f_equal length) in E. rewrite !length_map in E. unfold len. by rewrite E. }
  rewrite El. f_equal. assert (H : pv_slot <$> head l = pv_slot <$> head l') by (destruct l, l'; cbn in *; congruence).
  assert (L : pv_slot <$> last l = pv_slot <$> last l').
  { rewrite <- !fmap_last. f_equal. exact E. }
  destruct (head l), (head l'); try done; destruct (last l), (last l'); try done. cbn in *. congruence.
Qed.

Section Hidden.
Context `{U : Unicode}.

Lemma SummariseValue_command c op v : command_fits c op -> Encode c = inl v -> len v <= MaxSummarisedValue ->
  SummariseValue (string_of v) = SummariseOp (Some op).
Proof.
  intros F E L. destruct (command_back c op F) as (b & E' & D). rewrite E in E'. injection E' as <-.
  assert (HB : Forall is_byte v).
  { unfold Encode in E. rewrite (cf_op _ _ F) in E. cbn [Canonical fmap option_fmap option_map] in E. injection E as <-. apply json_print_bytes. }
  unfold SummariseValue. rewrite <- len_bytes_of, bytes_of_string_of by done.
  destruct (Z.ltb_spec MaxSummarisedValue (len v)); [lia|]. rewrite D. cbn [cmd_op].
  destruct (Z.eqb_spec (len v) 0) as [Ez|]; [|apply SummariseOp_visible, visible_canonical].
  apply len_zero in Ez. subst v. unfold Decode in D. by change (read_command []) with (@None wireCommand) in D.
Qed.

(** Two messages that show the same: equal but for the values, which carry
    commands that show the same, or, in a promise, anything. *)
Inductive alike : Message -> Message -> Prop :=
| alike_same m : alike m m
| alike_promise b l l' c : map pv_slot l = map pv_slot l' -> alike (Promise (mkPromiseMsg b l c)) (Promise (mkPromiseMsg b l' c))
| alike_accept b s v v' : value_alike v v' -> alike (Accept b s (string_of v)) (Accept b s (string_of v'))
| alike_learn b s v v' : value_alike v v' -> alike (Learn s b (string_of v)) (Learn s b (string_of v'))
with value_alike : bytes -> bytes -> Prop :=
| value_commands c op v c' op' v' : command_fits c op -> command_fits c' op' -> visible op = visible op' ->
    Encode c = inl v -> Encode c' = inl v' -> len v <= MaxSummarisedValue -> len v' <= MaxSummarisedValue -> value_alike v v'.

Inductive applied_alike : Applied -> Applied -> Prop :=
| applied_same a : applied_alike a a
| applied_commands s c c' op op' res res' : cmd_op c = Some op -> cmd_op c' = Some op' -> visible op = visible op' ->
    res_code res = res_code res' -> res_replayed res = res_replayed res' ->
    applied_alike (mkApplied s (Some (c, res)) false None) (mkApplied s (Some (c', res')) false None).

Lemma value_alike_summary v v' : value_alike v v' -> SummariseValue (string_of v) = SummariseValue (string_of v').
Proof.
  intros [c op w c' op' w' F F' V E E' L L']. rewrite (SummariseValue_command c op) by done.
  rewrite (SummariseValue_command c' op') by done. by apply SummariseOp_visible.
Qed.

Lemma messageEvent_alike kind from to m m' : alike m m' -> messageEvent kind (mkEnvelope from to m) = messageEvent kind (mkEnvelope from to m').
Proof.
  intros [m0|b l l' c E|b s v v' V|b s v v' V]; [done| | |]; unfold messageEvent; cbn [env_msg env_from env_to TypeName].
  - cbn [p_accepted p_ballot p_commit]. by rewrite (head_last_slots l l' E).
  - by rewrite (value_alike_summary v v' V).
  - by rewrite (value_alike_summary v v' V).
Qed.

Lemma applied_event_alike cur a a' : applied_alike a a' -> applied_event cur a = applied_event cur a'.
Proof.
  intros [a0|s c c' op op' res res' E E' V R1 R2]; [done|]. unfold applied_event. cbn [ap_err ap_noop ap_cmd ap_slot].
  rewrite E, E', R1, R2. by rewrite (SummariseOp_visible op op' V).
Qed.

(** What the observer is called with. *)
Inductive Observation :=
| OSent (env : Envelope) | OReceived (env : Envelope) | OChanged (prev cur : Status) (applied : list Applied).

Definition observe (f : Feed) (o : Observation) : Feed :=
  match o with OSent env => Sent env f | OReceived env => Received env f | OChanged prev cur l => Changed prev cur l f end.

Inductive observed_alike : Observation -> Observation -> Prop :=
| oa_sent from to m m' : alike m m' -> observed_alike (OSent (mkEnvelope from to m)) (OSent (mkEnvelope from to m'))
| oa_received from to m m' : alike m m' -> observed_alike (OReceived (mkEnvelope from to m)) (OReceived (mkEnvelope from to m'))
| oa_changed prev cur l l' : Forall2 applied_alike l l' -> observed_alike (OChanged prev cur l) (OChanged prev cur l').

(** The feed shows nothing else of a command: two runs of a replica whose
    messages and applied slots differ only in keys, receipt times, seeds,
    verifiers, scores, moves, rules and the other fields outside [visible], and
    in the values a promise carries, leave the very same feed. *)
Theorem feed_hides_values (f : Feed) (run run' : list Observation) :
  Forall2 observed_alike run run' -> fold_left observe run f = fold_left observe run' f.
Proof.
  intros H. revert f. induction H as [|o o' run run' Ho _ IH]; intros f; [done|]. cbn [fold_left]. rewrite IH. f_equal.
  destruct Ho as [from to m m' A|from to m m' A|prev cur l l' A]; cbn [observe].
  - unfold Sent. by rewrite (messageEvent_alike _ _ _ _ _ A).
  - unfold Received. by rewrite (messageEvent_alike _ _ _ _ _ A).
  - unfold Changed. cbv zeta. match goal with |- fold_left _ _ ?g = _ => generalize g end.
    induction A as [|a a' l l' Ha _ IHl]; intros g; [done|]. cbn [fold_left]. by rewrite (applied_event_alike cur a a' Ha).
Qed.

End Hidden.

(** * Concrete runs *)

Definition ev_of (kind typ : string) : Event := zero_event <| ev_kind := kind |> <| ev_type := typ |>.
Definition some_events : list Event :=
  [ev_of KindSend "prepare"; ev_of KindRecv "heartbeat"; ev_of KindRecv "promise"; ev_of KindRole "leader"; ev_of KindSend "accept"].

Lemma ring_read_accounts_witness : exists r0, NewRing 3 = Some r0 /\
  let p := Read (appends r0 some_events) 1 256 false in
  pg_dropped p = 1 /\ map ev_seq (pg_events p) = [3; 4; 5] /\
  pg_events p = List.filter (shown false) (between some_events (1 + pg_dropped p) (pg_next p)).
Proof.
  eexists. split; [reflexivity|].
  destruct (ring_read_accounts 3 (mkRing (repeat zero_event 3) 0 false) some_events 1 256 false) as (H1 & _ & H2 & _);
    [reflexivity|vm_compute; reflexivity|lia|].
  split; [exact H1|]. split; [by vm_compute|exact H2].
Defined.

Lemma ring_wait_accounts_witness : exists r0, NewRing 3 = Some r0 /\
  let '(r, p) := Wait (appends r0 some_events) 5 256 false 2000 [Woken (ev_of KindSend "heartbeat") []; Woken (ev_of KindSend "learn") []] in
  exists evs, ring_at 3 (some_events ++ evs) r /\ prefix evs [ev_of KindSend "heartbeat"; ev_of KindSend "learn"] /\
    accounts (some_events ++ evs) 5 false p /\ len (pg_events p) <= 256 /\
    (pg_events p = [] -> evs = [ev_of KindSend "heartbeat"; ev_of KindSend "learn"] \/ 2000 <= 0).
Proof.
  eexists. split; [reflexivity|].
  apply (ring_wait_accounts 3 (mkRing (repeat zero_event 3) 0 false) some_events 5 256 false 2000
    [Woken (ev_of KindSend "heartbeat") []; Woken (ev_of KindSend "learn") []]);
    [reflexivity|vm_compute; reflexivity|lia].
Defined.

Definition round_of (key : string) (seed : Seed) : Command := mkCommand key 1700000000 (Some (StartRound "cup" "p1" 3 1 seed)).
Definition encoding (c : Command) : bytes := match Encode c with inl b => b | inr _ => [] end.

Lemma round_fits key seed : ValidateKey key = None -> len seed = 32 -> Forall is_byte seed ->
  command_fits (round_of key seed) (StartRound "cup" "p1" 3 1 seed).
Proof.
  intros Hk Hl HB. split; [exact Hk|unfold in_i64; cbn; lia|reflexivity|].
  unfold op_fits, start_round_codec. cbn -[Z.pow]. split; [reflexivity|]. split; [reflexivity|]. split; [lia|]. split; [lia|]. by split.
Qed.

Definition round_message (key : string) (seed : Seed) : Message :=
  Accept (mkBallot 1 1) 4 (string_of (encoding (round_of key seed))).
Definition small_feed : Feed := mkFeed 1 (mkRing (repeat zero_event 3) 0 false) (fun _ => 1700000000).

Lemma feed_hides_values_witness : let _ := ascii_unicode in
  fold_left observe [OSent (mkEnvelope 1 2 (round_message "k1" (repeat 7 32)))] small_feed =
  fold_left observe [OSent (mkEnvelope 1 2 (round_message "k2" (repeat 9 32)))] small_feed.
Proof.
  intros U. apply (feed_hides_values (U := U) small_feed). apply Forall2_cons. split; [|apply Forall2_nil; exact I].
  apply oa_sent, alike_accept.
  apply (value_commands (round_of "k1" (repeat 7 32)) (StartRound "cup" "p1" 3 1 (repeat 7 32)) _
           (round_of "k2" (repeat 9 32)) (StartRound "cup" "p1" 3 1 (repeat 9 32)) _).
  - apply round_fits; [reflexivity|reflexivity|]. apply Forall_forall. intros c Hc%list_elem_of_In%repeat_spec. subst c. unfold is_byte. lia.
  - apply round_fits; [reflexivity|reflexivity|]. apply Forall_forall. intros c Hc%list_elem_of_In%repeat_spec. subst c. unfold is_byte. lia.
  - reflexivity.
  - vm_compute. reflexivity.
  - vm_compute. reflexivity.
  - by vm_compute.
  - by vm_compute.
Defined.
